(* ===== verification/_CoqProject ===== *)
-Q . S2P
Prelude.v
Json.v
Foundation.v
Io.v
Text.v
Utf8.v
Project.v
Fields.v
Lineage.v
Soundset.v
Playback.v
Sequence.v
Performance.v
Commands.v
Invariant.v
CommandLaws.v
PatternLaws.v
Handler.v
GridEdit.v
PatternEdits.v
PadEdits.v
Delta.v
DeltaLaws.v
DeltaEdits.v
History.v
HistoryLaws.v
HistoryEdits.v
PerformanceCodec.v
Migration.v
SoundsetLaws.v
Channels.v
ChannelLaws.v
Wav.v
WavLaws.v
Inspector.v
InspectorLaws.v
Analysis.v
AnalysisLaws.v
Sha256.v
Outcome.v
Admission.v
AdmissionCodec.v
AdmissionMachine.v
Journal.v
AdmissionLaws.v
AdmissionLog.v
AdmissionRetry.v
JournalLaws.v
JournalAppend.v
SnapshotHistory.v
SnapshotLaws.v
RecoveryLaws.v
JournalSession.v
JournalRuns.v
JsonText.v
JournalFile.v
JournalCache.v
Preflight.v
JournalFiles.v
MapLib.v
JournalFileRuns.v
Bundle.v
BundleTransfer.v
BundleLaws.v
BundleStaging.v
BundleRuns.v
Cooker.v
CookerLaws.v
Replay.v
ReplayLaws.v
Provider.v
ProviderLaws.v
Attempt.v
AttemptLaws.v
RuntimeContent.v
ContentTables.v
ContentLoops.v
ContentLaws.v
ContentRoundtrip.v
ContentInspection.v
