(* ===== verification/Prelude.v ===== *)
(** LMDJ: a verification of the core of a beat instrument

    LMDJ records pads, patterns and performances into a Project, keeps Undo and
    Redo, and cooks a Pattern into the content its audio engine plays.  This
    library models the parts of the program that decide what a Project is and
    what is heard, and proves them correct.  All paths are below src/packages/.

    * How the parts interact

    A host sends a command to the Authoring domain, which checks it against the
    revision of the Project, applies one handler and commits one new revision.
    The authoring history takes the difference of the two Projects as a delta and
    keeps it for Undo and Redo; an Undo is a command that applies the reversed
    delta.  To play, the cooker reads the Project's Pattern, resolves each
    assigned Pad's Artifact (a WAV file), prepares it at 48 kHz, and returns an
    immutable snapshot.  The control thread hands snapshots, commands and levels
    to the audio thread through two lock-free channels.  While a sequence is
    recorded, input is admitted to a journal before it is used: candidates are
    transferred to a tail of pending events, flushed as commands of the Authoring
    domain, and completed when the command is committed.  A session whose owner is
    lost is sealed into a document from which it can be recovered.

    * Files, from the bottom up

    - Prelude: machine integers, options, lists, the stable sort, tactics.
    - Json: the interface of the third-party JSON library, its laws, and
      [dom_lib], a document model that satisfies them.
    - Foundation: foundation/ error.hpp, ids.hpp, artifact.hpp.  A [Result] is a
      success, a failure with an [Error], or [thrown]: an escaped exception or,
      in the byte readers, a read out of range.
    - Text, Utf8: the text validators, and that both UTF-8 decoders of the source
      accept exactly UTF-8.
    - Soundset, SoundsetLaws: foundation/ soundset_manifest.cpp, its regular
      expressions, and what a parsed manifest satisfies.
    - Project, Fields, Lineage, Playback, Sequence, Performance,
      PerformanceCodec: authoring-domain/ project.hpp and project.cpp, by topic.
    - Commands: authoring-domain/ commands.hpp, command_handler.cpp: a record per
      command, a handler per command, [apply_checked] and the overloads of [apply].
    - Invariant: [project_ok], the well-formedness of a Project.
    - CommandLaws, PatternLaws: every handler is an instance of [LawfulCommand],
      the contract [apply_checked] relies on.  Handler, GridEdit, PatternEdits,
      PadEdits: what each command does to the Project.
    - Delta, DeltaLaws, DeltaEdits: authoring_delta.cpp, against the declarative
      [delta_between].  Migration: migration.cpp.
    - History, HistoryLaws, HistoryEdits: project-io/ authoring_history.cpp over
      an explicit store of its shared states.
    - Channels, ChannelLaws: audio-runtime/ detail/fixed_spsc_queue.hpp,
      runtime_spsc_storage.hpp and value_channel.hpp as step relations.
    - Wav, WavLaws: project-cooker/ wav_reader.cpp, wav_selection.cpp.
      Inspector, InspectorLaws: wav_metadata_inspector.cpp, and [inspect_wav].
      Analysis, AnalysisLaws: sample_analysis.cpp.
      Sha256, Cooker, CookerLaws: project_cooker.cpp and runtime_snapshot.hpp.
    - Io: operations that change a state and may fail.
    - Replay, ReplayLaws: project-cooker/ performance_replay.hpp and
      performance_replay.cpp: a Performance with everything it plays, cooked
      through one cache of artifacts.
    - Provider, ProviderLaws: provider-sdk/ capability.cpp, capability.hpp,
      registry.cpp and registry.hpp: what a Provider offers, its canonical text,
      and the registry of Providers.
    - RuntimeContent: project-cooker/ runtime_content_types.hpp,
      runtime_content.hpp and runtime_content.cpp: the encoder, the validating
      decoder and the inspector of a snapshot as a file.  ContentTables,
      ContentLoops, ContentLaws: what its readers, loops and checks accept.
      ContentRoundtrip, ContentInspection: its theorems.
    - Outcome: code that throws, with what it throws.  Admission, AdmissionCodec:
      project-io/ sequence_admission.hpp and the codec of
      sequence_admission_codec.cpp.  AdmissionMachine: sequence_journal.hpp and
      [apply], [snapshot] and their checks.  Journal: sequence_journal.cpp: the
      records, [read_journal], one definition for each operation of
      [SequenceJournal], and the document of a sealed session.
    - AdmissionLaws, AdmissionLog, AdmissionRetry: what one admission record does
      to the admission, its log of input, and a retry.  JournalLaws,
      JournalAppend, JournalSession: what the operations write is read;
      [session_log], a session as the records its operations appended.
      SnapshotHistory, SnapshotLaws: [journal_ok], the invariant of a journal that
      can be read, and, with RecoveryLaws, that its document opens.  JournalRuns:
      whole sessions, run.
    - JsonText, Preflight: the canonical text of a record, and the scan of that
      text which refuses a record before it is parsed.  JournalFile: the journal's
      files over the interface [ProjectStoragePlatform] of storage_platform.hpp:
      lines with checksums, the cache of the prefix parsed last, appending,
      sealing and the list of recoverable sessions.  JournalCache, JournalFiles:
      what is written is read, with the cache or without.
    - Bundle, BundleTransfer: project-io/ project_bundle_transfer.cpp over the
      interfaces [ProjectStorageTree] and [ProjectStore]: the index of a Bundle,
      the inventory of a Project, imports, publication and duplication.
      BundleLaws, BundleStaging: its theorems.
    - MapLib: a JSON library with a printer and a parser that satisfy their laws;
      JournalFileRuns, BundleRuns: a session and an import, run on files in
      memory.

    * What the theorems show

    - Project and commands: every overload of [apply] keeps [project_ok] and lets
      no exception out; a command commits once, only at the revision it names and
      once per receipt; each edit has exactly its effect on events, slots, Pads,
      colours, Assets and Banks.
    - Sequencing: recorded events are valid for any input, merging keeps the last
      event of each key, the live-control validator refines a small state machine.
    - Deltas and history: differences move contents, compose, and reverse; the
      history always leads between contents the Project had, Undo restores them,
      and reconciliation after a failed commit decides between two states.
    - Codecs: Lineage, Performance events and the live state decode what they
      encode; a selection of a WAV file decodes to the selected frames; the
      streaming inspector agrees with the decoder however the file is cut.
    - Channels: the ring refines a bounded queue, the triple buffer a register
      whose reads never go back, both wait free, under every interleaving.
    - Cooker: a snapshot is well typed and complete, cooking a well-formed
      Project succeeds when its Artifacts are what they are declared to be, a
      playback never leaves its sample, the two builds of the voice DSP agree,
      resampling is the rounded interpolation, SHA-256 is the reference's.
    - Runtime content: decoding gives back what was encoded, every accepted file
      is the one the encoder writes, and the inspector accepts the same files.
    - Replay: the cache changes nothing that is heard, and what a well-formed
      Project recorded can be replayed.
    - Providers: a registry holds only Providers whose every output is validated,
      and the text of a capability does not depend on the order it is written in.
    - Recording: every journal a session wrote can be read; what an operation
      appends is read back as what it promised; an operation may be repeated; the
      log of admitted input only grows and stays within its bounds; a completed
      admission is final; and a sealed session opens as the journal that was
      sealed.  Two sessions that do not open are run: one that went on to a shorter
      Pattern, and one whose input precedes a retained timing profile.
    - Files: what an operation appends is in the file, a line that was cut by a
      crash is dropped and nothing else, and the cache never changes what is read.
    - Bundles: the index written for a Project's files is accepted and read back;
      what is staged is what the index names; a commit publishes only a verified
      import, only where no Project is, and touches nothing else.

    * Conventions, bounds and fuel

    Unsigned integers are [N] with [wrap w] where an operation can leave its
    width, signed ones [Z]; [std::map] is [gmap]; bytes are [ascii].  A loop is a
    structural recursion, or has fuel bounded by its input: the padding of
    SHA-256 needs at most 64 zeros, the other loops at most one pass per byte;
    each is shown to end for another reason than its fuel.  Enums hold one of
    their enumerators.  [std::size_t] is 64 bits.

    * Parameters

    The JSON library ([JsonLib], with [JsonLaws]), the Artifact resolver, the
    float gain ([std::pow], [std::isfinite]) of the cooker, the hash of runtime content ([HashLib], with [HashLaws]); for the
    journal the printer of JSON and the hash of its text ([TextLib], with
    [TextLaws]), the error of a corrupt record, which names the place in the file,
    and the check that the Project of a preparation exists in the Project's files;
    for files the storage platform, its laws ([StorageLaws], [TreeLaws]) and the
    JSON parser ([ParseLib], with [ParseLaws]);
    what a Provider runs and the validators of its outputs.  Allocation
    does not fail.

    * Not modelled

    The Project store, the Sound Set store, the attempts of Providers and the native
    storage platform: transactions of files.  Of the sequence journal the
    Performance journal beside it.  Threads and services of the Facade, the browser
    bridge, the floating-point signal path of the engine, and [describe_artifact],
    which hashes a file. *)

From Stdlib Require Export Ascii ZifyBool.
From stdpp Require Export base numbers strings gmap sorting list.

Declare Scope lmdj_scope.
Delimit Scope lmdj_scope with lmdj.
Global Open Scope N_scope.

Create HintDb lmdj.

(** ** Machine-width unsigned integers

    Unsigned C++ integers are values of [N]; the operations that can leave the
    width write the wrap-around out. *)

Definition wrap (w x : N) : N := x mod 2 ^ w.
Definition u8_mul (a b : N) : N := wrap 8 (a * b).
Definition u32_add (a b : N) : N := wrap 32 (a + b).
Definition u32_sub (a b : N) : N := wrap 32 (a + 2 ^ 32 - b).
Definition u32_mul (a b : N) : N := wrap 32 (a * b).
Definition u64_add (a b : N) : N := wrap 64 (a + b).
Definition u64_mul (a b : N) : N := wrap 64 (a * b).
Definition u64_sub (a b : N) : N := wrap 64 (a + 2 ^ 64 - b).

(** [std::clamp(v, lo, hi)]. *)
Definition clamp (v lo hi : N) : N :=
  if v <? lo then lo else if hi <? v then hi else v.

(** ** Options and lists *)

Definition has_value {A} (o : option A) : bool :=
  match o with Some _ => true | None => false end.

Definition value_or {A} (o : option A) (d : A) : A :=
  match o with Some a => a | None => d end.

Definition is_empty {A} (l : list A) : bool :=
  match l with [] => true | _ => false end.

(** [.back()] of a vector, and the vector without it ([pop_back]). *)
Definition back {A} (l : list A) : option A := last l.
Definition pop_back {A} (l : list A) : list A := removelast l.

Definition sum_of {A} (f : A → N) (l : list A) : N := foldr (λ a n, f a + n) 0 l.

(** ** Lexicographic keys and the stable sort of the standard library

    The source orders events by [std::tuple]s of unsigned integers.  A tuple is
    the list of its components; tuples of one type have one length. *)

Fixpoint lex_le (a b : list N) : bool :=
  match a, b with
  | [], _ => true
  | _ :: _, [] => false
  | x :: a', y :: b' => (x <? y) || ((x =? y) && lex_le a' b')
  end.

Section stable_sort.
Context {A : Type} (key : A → list N).

Fixpoint insert_stable (x : A) (l : list A) : list A :=
  match l with
  | [] => [x]
  | y :: l' => if lex_le (key x) (key y) then x :: l else y :: insert_stable x l'
  end.

(** [std::ranges::stable_sort(l, {}, key)]. *)
Definition stable_sort (l : list A) : list A := foldr insert_stable [] l.

Definition key_le (x y : A) : Prop := lex_le (key x) (key y) = true.
End stable_sort.

(** ** Tactics *)

(** Turn boolean hypotheses and goals over [N] into propositions. *)
Ltac bool_to_prop :=
  repeat match goal with
  | H : _ && _ = true |- _ => apply andb_true_iff in H; destruct H
  | H : _ || _ = false |- _ => apply orb_false_iff in H; destruct H
  | H : negb _ = true |- _ => apply negb_true_iff in H
  | H : negb _ = false |- _ => apply negb_false_iff in H
  | H : (_ <? _)%N = true |- _ => apply N.ltb_lt in H
  | H : (_ <? _)%N = false |- _ => apply N.ltb_ge in H
  | H : (_ <=? _)%N = true |- _ => apply N.leb_le in H
  | H : (_ <=? _)%N = false |- _ => apply N.leb_gt in H
  | H : (_ =? _)%N = true |- _ => apply N.eqb_eq in H
  | H : (_ =? _)%N = false |- _ => apply N.eqb_neq in H
  | H : bool_decide _ = true |- _ => apply bool_decide_eq_true_1 in H
  | H : bool_decide _ = false |- _ => apply bool_decide_eq_false_1 in H
  end.

(** Linear arithmetic with the machine bounds as numbers. *)
Ltac u_lia :=
  change (2 ^ 64) with 18446744073709551616 in *;
  change (2 ^ 32) with 4294967296 in *;
  change (2 ^ 31) with 2147483648 in *; lia.

(** Linear arithmetic with division and remainder by constants. *)
Ltac dlia := zify; Z.to_euclidean_division_equations; lia.

(** ** Lemmas on booleans *)

Lemma bool_decide_is_bool (P : Prop) `{Decision P} b : (P ↔ b = true) → bool_decide P = b.
Proof.
  intros HP. destruct b; [apply bool_decide_eq_true_2; tauto|].
  apply bool_decide_eq_false_2. naive_solver.
Qed.

(** ** Lemmas on machine integers *)

Lemma wrap_small w x : x < 2 ^ w → wrap w x = x.
Proof. apply N.mod_small. Qed.

Lemma wrap_lt w x : wrap w x < 2 ^ w.
Proof. apply N.mod_lt. by apply N.pow_nonzero. Qed.

Lemma u32_sub_le a b : b ≤ a → a < 2 ^ 32 → u32_sub a b = a - b.
Proof.
  intros Hle Ha. unfold u32_sub, wrap.
  replace (a + 2 ^ 32 - b) with (a - b + 1 * 2 ^ 32) by lia.
  rewrite N.Div0.mod_add. apply N.mod_small. lia.
Qed.

Lemma u64_sub_le a b : b ≤ a → a < 2 ^ 64 → u64_sub a b = a - b.
Proof.
  intros Hle Ha. unfold u64_sub, wrap.
  replace (a + 2 ^ 64 - b) with (a - b + 1 * 2 ^ 64) by lia.
  rewrite N.Div0.mod_add. apply N.mod_small. lia.
Qed.

Lemma u32_add_small a b : a + b < 2 ^ 32 → u32_add a b = a + b.
Proof. apply wrap_small. Qed.

Lemma u64_add_small a b : a + b < 2 ^ 64 → u64_add a b = a + b.
Proof. apply wrap_small. Qed.

Lemma u32_mul_small a b : a * b < 2 ^ 32 → u32_mul a b = a * b.
Proof. apply wrap_small. Qed.

Lemma clamp_bounds v lo hi : lo ≤ hi → lo ≤ clamp v lo hi ≤ hi.
Proof. intros. unfold clamp. destruct (v <? lo) eqn:?, (hi <? v) eqn:?; bool_to_prop; lia. Qed.

Lemma clamp_id v lo hi : lo ≤ v ≤ hi → clamp v lo hi = v.
Proof. intros. unfold clamp. destruct (v <? lo) eqn:?, (hi <? v) eqn:?; bool_to_prop; lia. Qed.

(** ** Lemmas on the lexicographic order *)

Lemma lex_le_refl a : lex_le a a = true.
Proof. induction a as [|x a IH]; simpl; [done|]. rewrite N.eqb_refl, IH. by destruct (x <? x). Qed.

Lemma lex_le_trans a b c : lex_le a b = true → lex_le b c = true → lex_le a c = true.
Proof.
  revert b c; induction a as [|x a IH]; intros [|y b] [|z c]; simpl; try done.
  rewrite !orb_true_iff, !andb_true_iff, !N.ltb_lt, !N.eqb_eq.
  intros [?|[-> ?]] [?|[-> ?]]; [left; lia|left; lia|left; lia|right; eauto].
Qed.

Lemma lex_le_total a b : lex_le a b = true ∨ lex_le b a = true.
Proof.
  revert b; induction a as [|x a IH]; intros [|y b]; simpl; auto.
  rewrite !orb_true_iff, !andb_true_iff, !N.ltb_lt, !N.eqb_eq.
  destruct (N.lt_trichotomy x y) as [?|[->|?]]; destruct (IH b); auto.
Qed.

Lemma lex_le_antisym a b : lex_le a b = true → lex_le b a = true → a = b.
Proof.
  revert b; induction a as [|x a IH]; intros [|y b]; simpl; try done.
  rewrite !orb_true_iff, !andb_true_iff, !N.ltb_lt, !N.eqb_eq.
  intros [?|[-> ?]] [?|[? ?]]; try lia. f_equal; eauto.
Qed.

(** ** Lemmas on lists *)

Lemma Forall_filter_sub {A} (P Q : A → Prop) `{∀ x, Decision (P x)} l :
  Forall Q l → Forall Q (filter P l).
Proof. rewrite !Forall_forall. intros H' x [_ ?]%list_elem_of_filter. auto. Qed.

Lemma NoDup_fmap_filter {A B} (f : A → B) (P : A → Prop) `{∀ x, Decision (P x)} l :
  NoDup (f <$> l) → NoDup (f <$> filter P l).
Proof.
  induction l as [|x l IH]; [done|]. rewrite fmap_cons, NoDup_cons, filter_cons.
  intros [Hx Hl]. case_decide; [|by apply IH]. rewrite fmap_cons. constructor; [|by apply IH].
  intros (y & E & [_ Hy]%list_elem_of_filter)%list_elem_of_fmap. apply Hx. rewrite E.
  by apply list_elem_of_fmap_2.
Qed.

Lemma omap_of_fmap {A B C} (f : B → option C) (g : A → B) (l : list A) :
  omap f (g <$> l) = omap (λ x, f (g x)) l.
Proof. induction l as [|x l IH]; [done|]. cbn. rewrite <- IH. done. Qed.

Lemma filter_of_fmap {A B} (f : A → B) (P : B → Prop) `{∀ x, Decision (P x)} (l : list A) :
  filter P (f <$> l) = f <$> filter (λ x, P (f x)) l.
Proof.
  induction l as [|x l IH]; [done|]. rewrite fmap_cons, !filter_cons.
  case_decide; [by rewrite fmap_cons, IH|done].
Qed.

Lemma sum_of_cons {A} (f : A → N) x l : sum_of f (x :: l) = f x + sum_of f l.
Proof. done. Qed.

Lemma sum_of_app {A} (f : A → N) l k : sum_of f (l ++ k) = sum_of f l + sum_of f k.
Proof. induction l as [|a l IH]; [done|]. cbn [app]. rewrite !sum_of_cons, IH. lia. Qed.

Lemma sum_of_fmap {A B} (g : A → B) (f : B → N) l : sum_of f (g <$> l) = sum_of (λ a, f (g a)) l.
Proof. induction l as [|a l IH]; [done|]. rewrite fmap_cons, !sum_of_cons. by rewrite IH. Qed.

(** ** Lemmas on sorted lists *)

Lemma StronglySorted_filter {A} (R : A → A → Prop) (P : A → Prop) `{∀ x, Decision (P x)} l :
  StronglySorted R l → StronglySorted R (filter P l).
Proof.
  induction 1 as [|x l Hl IH Hx]; [constructor|]. rewrite filter_cons. case_decide; [|done].
  constructor; [done|]. rewrite Forall_forall in *. intros y [_ ?]%list_elem_of_filter. eauto.
Qed.

(** ** Lemmas on the stable sort *)

Section stable_sort_lemmas.
Context {A : Type} (key : A → list N).
Implicit Types (x y : A) (l : list A).

Lemma insert_stable_perm x l : insert_stable key x l ≡ₚ x :: l.
Proof.
  induction l as [|y l IH]; simpl; [done|]. case_match; [done|].
  rewrite IH. apply Permutation_swap.
Qed.

Lemma stable_sort_perm l : stable_sort key l ≡ₚ l.
Proof. induction l as [|x l IH]; simpl; [done|]. by rewrite insert_stable_perm, IH. Qed.

Lemma insert_stable_sorted x l :
  StronglySorted (key_le key) l → StronglySorted (key_le key) (insert_stable key x l).
Proof.
  induction 1 as [|y l Hl IH Hy]; simpl; [by repeat constructor|].
  destruct (lex_le (key x) (key y)) eqn:Hxy.
  - constructor; [by constructor|]. constructor; [done|].
    eapply Forall_impl; [exact Hy|]. intros z. apply lex_le_trans, Hxy.
  - constructor; [done|]. rewrite insert_stable_perm. constructor; [|done].
    unfold key_le. destruct (lex_le_total (key x) (key y)); congruence.
Qed.

Lemma stable_sort_sorted l : StronglySorted (key_le key) (stable_sort key l).
Proof. induction l; simpl; [constructor|by apply insert_stable_sorted]. Qed.

Lemma stable_sort_id l : StronglySorted (key_le key) l → stable_sort key l = l.
Proof.
  induction 1 as [|x l Hl IH Hx]; simpl; [done|]. rewrite IH.
  destruct l as [|y l]; simpl; [done|].
  apply Forall_cons in Hx as [Hxy _]. by rewrite Hxy.
Qed.

(** Elements with one key keep their order: the sort is stable. *)
Lemma insert_stable_filter k x l :
  StronglySorted (key_le key) l →
  filter (λ y, key y = k) (insert_stable key x l) = filter (λ y, key y = k) (x :: l).
Proof.
  induction 1 as [|y l Hl IH Hy]; [done|]. cbn [insert_stable].
  destruct (lex_le (key x) (key y)) eqn:Hxy; [done|].
  rewrite filter_cons, IH, !filter_cons.
  repeat case_decide; try done. subst.
  assert (key x = key y) as E by congruence. by rewrite E, lex_le_refl in Hxy.
Qed.

Lemma stable_sort_filter k l :
  filter (λ y, key y = k) (stable_sort key l) = filter (λ y, key y = k) l.
Proof.
  induction l as [|x l IH]; [done|]. simpl stable_sort.
  rewrite insert_stable_filter by apply stable_sort_sorted.
  rewrite !filter_cons, IH. done.
Qed.

(** When keys identify the elements, the order of the input is irrelevant. *)
Lemma stable_sort_unique l1 l2 :
  (∀ x y, x ∈ l1 → y ∈ l1 → key x = key y → x = y) →
  StronglySorted (key_le key) l1 → StronglySorted (key_le key) l2 →
  l1 ≡ₚ l2 → l1 = l2.
Proof.
  intros Hinj H1; revert l2 Hinj; induction H1 as [|x l1 Hl1 IH Hx]; intros l2 Hinj H2 Hp.
  { by apply Permutation_nil_l in Hp. }
  destruct H2 as [|y l2 Hl2 Hy]; [by apply Permutation_nil_r in Hp|].
  assert (x = y) as ->.
  { apply Hinj; [set_solver| |].
    { rewrite Hp. set_solver. }
    apply lex_le_antisym.
    - assert (y ∈ x :: l1) as Hin by (rewrite Hp; set_solver).
      apply elem_of_cons in Hin as [->|Hin]; [apply lex_le_refl|].
      rewrite Forall_forall in Hx. by apply Hx.
    - assert (x ∈ y :: l2) as Hin by (rewrite <- Hp; set_solver).
      apply elem_of_cons in Hin as [->|Hin]; [apply lex_le_refl|].
      rewrite Forall_forall in Hy. by apply Hy. }
  f_equal. apply IH; [|done|by apply Permutation_cons_inv in Hp].
  intros; apply Hinj; [set_solver..|done].
Qed.

Lemma stable_sort_perm_eq l1 l2 :
  (∀ x y, x ∈ l1 → y ∈ l1 → key x = key y → x = y) →
  l1 ≡ₚ l2 → stable_sort key l1 = stable_sort key l2.
Proof.
  intros Hinj Hp. apply stable_sort_unique; try apply stable_sort_sorted.
  - intros x y. rewrite stable_sort_perm. apply Hinj.
  - by rewrite !stable_sort_perm.
Qed.

Lemma elem_of_stable_sort x l : x ∈ stable_sort key l ↔ x ∈ l.
Proof. by rewrite stable_sort_perm. Qed.
End stable_sort_lemmas.

Lemma stable_sort_fmap {A B} (f : A → B) (ka : A → list N) (kb : B → list N) l : (∀ x, kb (f x) = ka x) →
  stable_sort kb (f <$> l) = f <$> stable_sort ka l.
Proof.
  intros H. induction l as [|x l IH]; [done|].
  change (insert_stable kb (f x) (stable_sort kb (f <$> l)) = f <$> insert_stable ka x (stable_sort ka l)).
  rewrite IH. generalize (stable_sort ka l). clear IH. intros m. induction m as [|y m IHm]; [done|].
  rewrite fmap_cons. cbn [insert_stable]. rewrite !H. case_match; [done|]. rewrite fmap_cons. by f_equal.
Qed.
