(* ===== verification/Json.v ===== *)
(** The interface of the JSON library.

    The source uses the third-party library nlohmann::json; its code is not part
    of the repository's own sources, so it is a parameter here.  [JsonLib] lists
    the operations the source calls, [JsonLaws] the documented behaviour the
    theorems rely on.  An operation that can throw returns [None].
    [dom_lib] is a small document model that satisfies the laws: it is used only
    to evaluate witnesses. *)

From S2P Require Import Prelude.

(** ** Operations *)

Class JsonLib := {
  json : Type;
  (* construction from C++ values and initializer lists *)
  j_null : json;
  j_bool : bool → json;
  j_uint : N → json;
  j_int : Z → json;
  j_string : string → json;
  j_array : list json → json;
  j_object : list (string * json) → json;
  (* type queries *)
  is_null : json → bool;
  is_boolean : json → bool;
  is_string : json → bool;
  is_array : json → bool;
  is_object : json → bool;
  is_number_unsigned : json → bool;
  is_number_integer : json → bool;
  (* access *)
  j_size : json → nat;
  j_contains : json → string → bool;
  j_at : json → string → option json;
  j_items : json → list json;
  j_entries : json → list (string * json);
  j_eq_string : json → string → bool;
  get_bool : json → option bool;
  get_string : json → option string;
  get_u64 : json → option N;
  get_i64 : json → option Z;
  (* modification *)
  j_set : json → string → json → json;
  j_erase : json → string → json;
  j_push_back : json → json → json
}.

(** The value an initializer list gives a key. *)
Fixpoint assoc {A} (k : string) (l : list (string * A)) : option A :=
  match l with
  | [] => None
  | (k', v) :: l' => if String.eqb k k' then Some v else assoc k l'
  end.

(** ** Documented behaviour *)

Class JsonLaws (J : JsonLib) : Prop := {
  null_is_null : is_null j_null = true;
  bool_is_boolean b : is_boolean (j_bool b) = true;
  bool_get b : get_bool (j_bool b) = Some b;
  uint_is_unsigned n : n < 2 ^ 64 → is_number_unsigned (j_uint n) = true;
  uint_get n : n < 2 ^ 64 → get_u64 (j_uint n) = Some n;
  uint_not_null n : is_null (j_uint n) = false;
  int_is_integer z : is_number_unsigned (j_int z) = false ∧ is_number_integer (j_int z) = true;
  int_get z : (- 2 ^ 63 ≤ z < 2 ^ 63)%Z → get_i64 (j_int z) = Some z;
  int_get_unsigned z : (0 ≤ z < 2 ^ 63)%Z → get_u64 (j_int z) = Some (Z.to_N z);
  string_is_string s : is_string (j_string s) = true;
  string_get s : get_string (j_string s) = Some s;
  string_eq s t : j_eq_string (j_string s) t = bool_decide (s = t);
  string_value j : is_string j = true → is_Some (get_string j);
  unsigned_number j : is_number_unsigned j = true → is_Some (get_u64 j);
  array_size j : is_array j = true → j_size j = length (j_items j);
  array_is_array l : is_array (j_array l) = true;
  array_items l : j_items (j_array l) = l;
  object_is_object l : is_object (j_object l) = true;
  object_not_null l : is_null (j_object l) = false;
  object_size l : NoDup l.*1 → j_size (j_object l) = length l;
  object_contains l k : j_contains (j_object l) k = has_value (assoc k l);
  object_at l k : NoDup l.*1 → j_at (j_object l) k = assoc k l;
  entries_contains j k : is_object j = true → j_contains j k = has_value (assoc k (j_entries j));
  contains_at j k : is_object j = true → j_contains j k = has_value (j_at j k);
  set_is_object j k v : is_object j = true → is_object (j_set j k v) = true;
  set_size j k v : is_object j = true →
    j_size (j_set j k v) = if j_contains j k then j_size j else S (j_size j);
  set_contains j k v k' : is_object j = true →
    j_contains (j_set j k v) k' = bool_decide (k' = k) || j_contains j k';
  set_at j k v k' : is_object j = true →
    j_at (j_set j k v) k' = if bool_decide (k' = k) then Some v else j_at j k';
  erase_absent j k : is_object j = true → j_contains j k = false → j_erase j k = j;
  push_back_array l x : j_push_back (j_array l) x = j_array (l ++ [x])
}.

(** ** A document model for witnesses *)

Inductive dom :=
  | DNull
  | DBool (b : bool)
  | DInt (z : Z)
  | DUint (n : N)
  | DString (s : string)
  | DArray (l : list dom)
  | DObject (l : list (string * dom)).

Fixpoint assoc_set {A} (k : string) (v : A) (l : list (string * A)) : list (string * A) :=
  match l with
  | [] => [(k, v)]
  | (k', v') :: l' =>
      if String.eqb k k' then (k, v) :: l' else (k', v') :: assoc_set k v l'
  end.

Definition dom_fields (d : dom) : list (string * dom) :=
  match d with DObject l => l | _ => [] end.

Definition dom_lib : JsonLib := {|
  json := dom;
  j_null := DNull;
  j_bool := DBool;
  j_uint := DUint;
  j_int := DInt;
  j_string := DString;
  j_array := DArray;
  j_object := DObject;
  is_null d := match d with DNull => true | _ => false end;
  is_boolean d := match d with DBool _ => true | _ => false end;
  is_string d := match d with DString _ => true | _ => false end;
  is_array d := match d with DArray _ => true | _ => false end;
  is_object d := match d with DObject _ => true | _ => false end;
  is_number_unsigned d := match d with DUint _ => true | _ => false end;
  is_number_integer d := match d with DUint _ | DInt _ => true | _ => false end;
  j_size d := match d with
              | DNull => 0%nat | DArray l => length l | DObject l => length l
              | _ => 1%nat end;
  j_contains d k := has_value (assoc k (dom_fields d));
  j_at d k := assoc k (dom_fields d);
  j_items d := match d with DArray l => l | DObject l => l.*2 | _ => [] end;
  j_entries := dom_fields;
  j_eq_string d t := match d with DString s => bool_decide (s = t) | _ => false end;
  get_bool d := match d with DBool b => Some b | _ => None end;
  get_string d := match d with DString s => Some s | _ => None end;
  get_u64 d := match d with DUint n => Some n | DInt z => Some (Z.to_N (z mod 2 ^ 64)) | _ => None end;
  get_i64 d := match d with DUint n => Some (Z.of_N n) | DInt z => Some z | _ => None end;
  j_set d k v := match d with DObject l => DObject (assoc_set k v l) | _ => d end;
  j_erase d k := match d with
                 | DObject l => DObject (filter (λ p, p.1 ≠ k) l) | _ => d end;
  j_push_back d x := match d with DArray l => DArray (l ++ [x]) | _ => d end
|}.

(** ** Lemmas *)

Lemma eqb_decide (s t : string) : String.eqb s t = bool_decide (s = t).
Proof. destruct (String.eqb_spec s t); by case_bool_decide. Qed.

Lemma assoc_set_assoc {A} k (v : A) l k' :
  assoc k' (assoc_set k v l) = if bool_decide (k' = k) then Some v else assoc k' l.
Proof.
  induction l as [|[k1 v1] l IH]; cbn [assoc_set assoc]; rewrite ?eqb_decide; [done|].
  repeat (case_bool_decide; cbn [assoc]; rewrite ?eqb_decide; simplify_eq/=; try done).
Qed.

Lemma assoc_set_length {A} k (v : A) l :
  length (assoc_set k v l) = if has_value (assoc k l) then length l else S (length l).
Proof.
  induction l as [|[k1 v1] l IH]; cbn [assoc_set assoc]; [done|]. rewrite eqb_decide.
  case_bool_decide; simpl; [done|]. rewrite IH. by destruct (assoc k l).
Qed.

Lemma assoc_filter_absent {A} k (l : list (string * A)) :
  has_value (assoc k l) = false → filter (λ p, p.1 ≠ k) l = l.
Proof.
  induction l as [|[k1 v1] l IH]; cbn [assoc]; [done|]. rewrite eqb_decide.
  case_bool_decide; simpl; [done|].
  intros ?. rewrite filter_cons_True by (simpl; congruence). by rewrite IH.
Qed.

Lemma assoc_in_keys {A} k (l : list (string * A)) :
  has_value (assoc k l) = bool_decide (k ∈ l.*1).
Proof.
  induction l as [|[k1 v1] l IH]; [done|]. rewrite fmap_cons. cbn [assoc fst].
  rewrite eqb_decide. destruct (decide (k = k1)) as [->|Hne].
  - rewrite (bool_decide_eq_true_2 (k1 = k1)), bool_decide_eq_true_2 by set_solver. done.
  - rewrite (bool_decide_eq_false_2 (k = k1)), IH by done. apply bool_decide_ext. set_solver.
Qed.

#[export] Instance dom_laws : JsonLaws dom_lib.
Proof.
  constructor; try done.
  - intros z ?. cbn. rewrite Z.mod_small by lia. done.
  - by intros [].
  - by intros [].
  - by intros [].
  - by intros [].
  - intros [] k v ?; simplify_eq/=. apply assoc_set_length.
  - intros [] k v k' ?; simplify_eq/=. rewrite assoc_set_assoc. by case_bool_decide.
  - intros [] k v k' ?; simplify_eq/=. apply assoc_set_assoc.
  - intros [] k ? ?; simplify_eq/=. f_equal. by apply assoc_filter_absent.
Qed.

(** ** Objects by their fields *)

(** The object [j] has exactly the members of the list [l]. *)
Record fields `{JL : JsonLib} (j : json) (l : list (string * json)) : Prop := {
  fields_object : is_object j = true;
  fields_size : j_size j = length l;
  fields_contains k : j_contains j k = has_value (assoc k l);
  fields_at k : j_at j k = assoc k l
}.

(** Literal members have distinct keys, by computation. *)
Fixpoint distinct_keys {A} (l : list (string * A)) : bool :=
  match l with
  | [] => true
  | (k, _) :: l' => negb (has_value (assoc k l')) && distinct_keys l'
  end.

Lemma distinct_keys_nodup {A} (l : list (string * A)) : distinct_keys l = true → NoDup l.*1.
Proof.
  induction l as [|[k v] l IH]; cbn [distinct_keys]; [constructor|].
  rewrite andb_true_iff, negb_true_iff, assoc_in_keys. intros [Hk ?]. rewrite fmap_cons.
  constructor; [by apply bool_decide_eq_false_1 in Hk|by apply IH].
Qed.

Lemma fields_j_object `{JL : JsonLib} `{!JsonLaws JL} l :
  distinct_keys l = true → fields (j_object l) l.
Proof.
  intros Hl%distinct_keys_nodup. split; intros;
    eauto using object_is_object, object_size, object_contains, object_at.
Qed.

Lemma fields_j_set `{JL : JsonLib} `{!JsonLaws JL} j l k v :
  fields j l → fields (j_set j k v) (assoc_set k v l).
Proof.
  intros [Ho Hs Hc Ha]. split.
  - by apply set_is_object.
  - by rewrite set_size, Hc, Hs, assoc_set_length by done.
  - intros k'. rewrite set_contains, Hc, assoc_set_assoc by done. by case_bool_decide.
  - intros k'. by rewrite set_at, Ha, assoc_set_assoc by done.
Qed.
