(* ===== verification/Foundation.v ===== *)
(** Errors, results, identifiers and artifact references.

    Models packages/foundation: error.hpp ([ErrorCode], [Error], [Result]),
    ids.hpp ([StrongId] and its tags) and artifact.hpp ([ArtifactRef] with its
    JSON form).  [describe_artifact] reads a file and is not modelled. *)

From S2P Require Import Prelude Json.

(** ** Errors *)

Inductive ErrorCode :=
  | invalid_argument
  | not_found
  | revision_conflict
  | duplicate_id
  | unsupported_audio
  | missing_asset
  | invalid_project
  | cook_failed
  | bank_quota_exhausted
  | project_quota_exhausted
  | provider_not_found
  | provider_failed
  | permission_denied
  | io_error
  | internal_error.

Definition error_code_name (code : ErrorCode) : string :=
  match code with
  | invalid_argument => "INVALID_ARGUMENT"
  | not_found => "NOT_FOUND"
  | revision_conflict => "REVISION_CONFLICT"
  | duplicate_id => "DUPLICATE_ID"
  | unsupported_audio => "UNSUPPORTED_AUDIO"
  | missing_asset => "MISSING_ASSET"
  | invalid_project => "INVALID_PROJECT"
  | cook_failed => "COOK_FAILED"
  | bank_quota_exhausted => "BANK_QUOTA_EXHAUSTED"
  | project_quota_exhausted => "PROJECT_QUOTA_EXHAUSTED"
  | provider_not_found => "PROVIDER_NOT_FOUND"
  | provider_failed => "PROVIDER_FAILED"
  | permission_denied => "PERMISSION_DENIED"
  | io_error => "IO_ERROR"
  | internal_error => "INTERNAL_ERROR"
  end.

#[export] Instance ErrorCode_eq_dec : EqDecision ErrorCode.
Proof. solve_decision. Defined.

Record Error `{JsonLib} := MkError {
  code : ErrorCode;
  message : string;
  details : json
}.

(** [foundation::Result<T>] is a success or an [Error].  [thrown] is a C++
    exception that leaves the function (an [at] out of range, a JSON type
    mismatch). *)
Inductive Result `{JsonLib} (A : Type) :=
  | success (a : A)
  | failure (e : Error)
  | thrown.
Arguments success {_ _} a.
Arguments failure {_ _} e.
Arguments thrown {_ _}.

#[export] Instance result_ret `{JsonLib} : MRet Result := λ A a, success a.
#[export] Instance result_bind `{JsonLib} : MBind Result := λ A B f r,
  match r with
  | success a => f a
  | failure e => failure e
  | thrown => thrown
  end.

(** [Error{code, message}]: the details default to an empty object. *)
Definition plain_error `{JsonLib} (c : ErrorCode) (m : string) : Error :=
  MkError _ c m (j_object []).

Definition result_has_value `{JsonLib} {A} (r : Result A) : bool :=
  match r with success _ => true | _ => false end.

(** An access that may throw. *)
Definition throwing `{JsonLib} {A} (o : option A) : Result A :=
  match o with Some a => success a | None => thrown end.

(** [try { r } catch (const std::exception&) { handler }]. *)
Definition catching `{JsonLib} {A} (handler r : Result A) : Result A :=
  match r with thrown => handler | _ => r end.

(** A loop whose body may return early with a failure. *)
Fixpoint fold_result `{JsonLib} {A S} (f : S → A → Result S) (s : S) (l : list A) : Result S :=
  match l with
  | [] => success s
  | a :: l' => s' ← f s a; fold_result f s' l'
  end.

(** ** Identifiers *)

Record StrongId (Tag : Set) := MkId { value : string }.
Arguments MkId {_} _.
Arguments value {_} _.

#[export] Instance StrongId_eq_dec Tag : EqDecision (StrongId Tag).
Proof. solve_decision. Defined.
#[export] Instance StrongId_countable Tag : Countable (StrongId Tag).
Proof. apply (inj_countable' value MkId). by intros []. Defined.

Definition strong_id_json `{JsonLib} {Tag} (id : StrongId Tag) : json := j_string (value id).
Definition strong_id_from_json `{JsonLib} {Tag} (input : json) : Result (StrongId Tag) :=
  s ← throwing (get_string input); success (MkId s).

Inductive ProjectIdTag : Set := .
Inductive CommandIdTag : Set := .
Inductive AssetIdTag : Set := .
Inductive PatternIdTag : Set := .
Inductive SequenceSessionIdTag : Set := .
Inductive AttemptIdTag : Set := .
Inductive CandidateIdTag : Set := .

Abbreviation ProjectId := (StrongId ProjectIdTag).
Abbreviation CommandId := (StrongId CommandIdTag).
Abbreviation AssetId := (StrongId AssetIdTag).
Abbreviation PatternId := (StrongId PatternIdTag).
Abbreviation SequenceSessionId := (StrongId SequenceSessionIdTag).
Abbreviation AttemptId := (StrongId AttemptIdTag).
Abbreviation CandidateId := (StrongId CandidateIdTag).

(** ** Artifact references *)

Record ArtifactRef := MkArtifactRef {
  sha256 : string;
  media_type : string;
  byte_length : N
}.

#[export] Instance ArtifactRef_eq_dec : EqDecision ArtifactRef.
Proof. solve_decision. Defined.

Definition artifact_to_json `{JsonLib} (artifact : ArtifactRef) : json :=
  j_object [("sha256", j_string (sha256 artifact));
            ("media_type", j_string (media_type artifact));
            ("byte_length", j_uint (byte_length artifact))].

Definition artifact_from_json `{JsonLib} (input : json) : Result ArtifactRef :=
  j1 ← throwing (j_at input "sha256"); s ← throwing (get_string j1);
  j2 ← throwing (j_at input "media_type"); m ← throwing (get_string j2);
  j3 ← throwing (j_at input "byte_length"); b ← throwing (get_u64 j3);
  success (MkArtifactRef s m b).

(** ** Lemmas *)

Section result_lemmas.
Context `{JL : JsonLib}.

Lemma result_bind_success {A B} (r : Result A) (f : A → Result B) b :
  r ≫= f = success b ↔ ∃ a, r = success a ∧ f a = success b.
Proof. destruct r; simpl; (split; [try discriminate; eauto|]); by intros (?&[= <-]&?). Qed.

Lemma throwing_success {A} (o : option A) a : throwing o = success a ↔ o = Some a.
Proof. destruct o; simpl; split; intros; simplify_eq; done. Qed.

Lemma fold_result_app {A S} (f : S → A → Result S) s l1 l2 :
  fold_result f s (l1 ++ l2) = s' ← fold_result f s l1; fold_result f s' l2.
Proof. revert s; induction l1 as [|a l1 IH]; intros s; simpl; [done|]. destruct (f s a); simpl; auto. Qed.

(** An invariant of the loop state, relative to the elements consumed so far. *)
Lemma fold_result_inv {A S} (P : list A → S → Prop) (f : S → A → Result S) :
  (∀ done s a s', P done s → f s a = success s' → P (done ++ [a]) s') →
  ∀ l done s s', P done s → fold_result f s l = success s' → P (done ++ l) s'.
Proof.
  intros Hstep. induction l as [|a l IH]; intros done s s' HP; simpl.
  { intros [= <-]. by rewrite app_nil_r. }
  intros (s1 & Hs1 & Hf)%result_bind_success.
  rewrite cons_middle, app_assoc. eapply IH; [|done]. by eapply Hstep.
Qed.

Lemma fold_result_no_throw {A S} (f : S → A → Result S) s l :
  (∀ s a, a ∈ l → f s a ≠ thrown) → fold_result f s l ≠ thrown.
Proof.
  revert s; induction l as [|a l IH]; intros s Hf; simpl; [done|].
  assert (f s a ≠ thrown) as Ha by (apply Hf; left).
  destruct (f s a); simpl; [|done..]. apply IH. intros; apply Hf; by right.
Qed.
End result_lemmas.

#[export] Hint Resolve fold_result_no_throw : lmdj.

(** ** Postconditions

    [post Q r]: no exception leaves [r], and a success satisfies [Q]. *)

Section post.
Context `{JL : JsonLib}.

Lemma success_inj {A} (a b : A) : success a = success b → a = b.
Proof. intros E. by injection E. Qed.

Definition post {A} (Q : A → Prop) (r : Result A) : Prop :=
  match r with
  | success a => Q a
  | failure _ => True
  | thrown => False
  end.

Lemma post_bind {A B} (P : A → Prop) (Q : B → Prop) (r : Result A) (f : A → Result B) :
  post P r → (∀ a, P a → post Q (f a)) → post Q (r ≫= f).
Proof. destruct r; simpl; eauto. Qed.

Lemma post_bind_eq {A B} (Q : B → Prop) (r : Result A) (f : A → Result B) :
  r ≠ thrown → (∀ a, r = success a → post Q (f a)) → post Q (r ≫= f).
Proof. destruct r; simpl; eauto. Qed.

Lemma post_throwing {A B} (Q : B → Prop) (o : option A) a (f : A → Result B) :
  o = Some a → post Q (f a) → post Q (throwing o ≫= f).
Proof. by intros ->. Qed.

Lemma post_weaken {A} (P Q : A → Prop) r : post P r → (∀ a, P a → Q a) → post Q r.
Proof. destruct r; simpl; eauto. Qed.

Lemma post_success {A} (Q : A → Prop) r a : post Q r → r = success a → Q a.
Proof. by intros H ->. Qed.

Lemma post_no_throw {A} (Q : A → Prop) r : post Q r → r ≠ thrown.
Proof. by intros H ->. Qed.

Lemma post_of {A} (r : Result A) : r ≠ thrown → post (λ a, r = success a) r.
Proof. by destruct r. Qed.

(** A loop: the invariant relates the elements consumed to the loop state. *)
Lemma post_fold {A S} (P : list A → S → Prop) (f : S → A → Result S) l done s :
  (∀ done s a, a ∈ l → P done s → post (P (done ++ [a])) (f s a)) →
  P done s → post (P (done ++ l)) (fold_result f s l).
Proof.
  revert done s. induction l as [|a l IH]; intros done s Hstep HP; cbn [fold_result].
  { by rewrite app_nil_r. }
  eapply post_bind; [apply Hstep; [left|exact HP]|]. intros s' HP'.
  rewrite cons_middle, app_assoc. apply IH; [|done]. intros; apply Hstep; [by right|done].
Qed.

(** A loop whose invariant does not mention what was consumed. *)
Lemma post_fold_inv {A S} (P : S → Prop) (f : S → A → Result S) l s :
  (∀ s a, a ∈ l → P s → post P (f s a)) → P s → post P (fold_result f s l).
Proof. intros Hf. apply (post_fold (λ _, P) f l []). intros _. apply Hf. Qed.
End post.

