(* ===== verification/Io.v ===== *)
(** Operations that change a state and may fail.

    [Io T A] is a method of an object whose state is [T]: the state it leaves, and
    its [Result].  The state a failing method leaves is kept. *)

From S2P Require Import Prelude Json Foundation.

Definition Io `{JL : JsonLib} (T A : Type) : Type := T → T * Result A.

#[export] Instance io_ret `{JL : JsonLib} {T} : MRet (Io T) := λ A a s, (s, success a).
#[export] Instance io_bind `{JL : JsonLib} {T} : MBind (Io T) := λ A B f m s,
  match m s with
  | (s', success a) => f a s'
  | (s', failure e) => (s', failure e)
  | (s', thrown) => (s', thrown)
  end.

Section io.
Context `{JL : JsonLib} {T : Type}.

(** [if (!valid) return failure(error)]. *)
Definition unless_refused (valid : bool) (e : Error) : Result () :=
  if valid then success () else failure e.

Definition stop {A} (e : Error) : Io T A := λ s, (s, failure e).
Definition pure_result {A} (r : Result A) : Io T A := λ s, (s, r).
Definition demand (valid : bool) (e : Error) : Io T () := pure_result (unless_refused valid e).
Definition observe {A} (f : T → Result A) : Io T A := λ s, (s, f s).
Definition current : Io T T := λ s, (s, success s).
Definition update (f : T → T) : Io T () := λ s, (f s, success ()).

(** The result of [m] whatever it is. *)
Definition attempt {A} (m : Io T A) : Io T (Result A) := λ s, let '(s', r) := m s in (s', success r).

(** [final] runs when [m] is left, however it is. *)
Definition finally {A} (final : T → T) (m : Io T A) : Io T A :=
  λ s, let '(s', r) := m s in (final s', r).

(** [handler] runs when [m] fails. *)
Definition on_failure {A} (handler : T → T) (m : Io T A) : Io T A :=
  λ s, match m s with
       | (s', failure e) => (handler s', failure e)
       | r => r
       end.

Fixpoint io_each {A} (f : A → Io T ()) (l : list A) : Io T () :=
  match l with [] => mret () | a :: l' => f a;; io_each f l' end.
End io.

Section ends.
Context `{JL : JsonLib}.

(** ** What a sequence of operations did *)

(** A computation that ends was left at some step. *)
Lemma io_bind_success {U A B} (m : Io U A) (f : A → Io U B) t t' b :
  (m ≫= f) t = (t', success b) ↔ ∃ t1 a, m t = (t1, success a) ∧ f a t1 = (t', success b).
Proof.
  unfold mbind, io_bind. destruct (m t) as [t1 [a|e|]]; split; try done; try naive_solver.
Qed.

Lemma io_bind_end {U A B} (m : Io U A) (f : A → Io U B) t t' r : (m ≫= f) t = (t', r) →
  (∃ t1 a, m t = (t1, success a) ∧ f a t1 = (t', r)) ∨
  (∃ r', m t = (t', r') ∧ ∀ a, r' ≠ success a).
Proof.
  unfold mbind, io_bind. destruct (m t) as [t1 [a|e|]] eqn:E; intros H; [left|right..]; naive_solver.
Qed.

Lemma io_bind_cases {U A B} (m : Io U A) (f : A → Io U B) t t' r : (m ≫= f) t = (t', r) →
  (∃ t1 a, m t = (t1, success a) ∧ f a t1 = (t', r)) ∨
  (∃ e, m t = (t', failure e) ∧ r = failure e) ∨ (m t = (t', thrown) ∧ r = thrown).
Proof. unfold mbind, io_bind. destruct (m t) as [t1 [a|e|]] eqn:E; intros H; naive_solver. Qed.

Lemma demand_end {U} valid e (t t' : U) r : demand valid e t = (t', r) →
  t' = t ∧ (valid = true ∧ r = success () ∨ r = failure e).
Proof. unfold demand, pure_result, unless_refused. destruct valid; intros [= <- <-]; naive_solver. Qed.
End ends.
