(* ===== verification/Text.v ===== *)
(** Text validators.

    Models the string checks of packages/authoring-domain/src/project.cpp and
    packages/foundation/src/json.cpp: lowercase UUIDs, SHA-256 digests, SemVer,
    UTF-8 (the code point counter and the validator) and the canonical decimal
    form of an input sequence.  A C++ [std::string] is a Rocq [string]; its bytes
    are the codes of its characters. *)

From S2P Require Import Prelude.

(** ** Characters *)

Definition byte_of (c : ascii) : N := N_of_ascii c.
Definition chars (s : string) : list ascii := String.list_ascii_of_string s.
Definition bytes (s : string) : list N := byte_of <$> chars s.

Lemma bytes_inj s t : bytes s = bytes t → s = t.
Proof.
  unfold bytes, byte_of. intros H%list_fmap_eq_inj%(f_equal String.string_of_list_ascii).
  - unfold chars in H. by rewrite !String.string_of_list_ascii_of_string in H.
  - intros x y E. apply (f_equal ascii_of_N) in E. by rewrite !ascii_N_embedding in E.
Qed.

Definition char_in (c : ascii) (lo hi : ascii) : bool :=
  (byte_of lo <=? byte_of c) && (byte_of c <=? byte_of hi).

Definition is_lower_hex (c : ascii) : bool :=
  char_in c "0" "9" || char_in c "a" "f".

Definition is_digit (c : ascii) : bool := char_in c "0" "9".

(** [value[index]]; every use is guarded by the size of the string. *)
Definition char_at (s : string) (index : nat) : ascii :=
  value_or (String.get index s) "000"%char.

Definition ascii_eqb (a b : ascii) : bool := Ascii.eqb a b.

(** ** Digests and identifiers *)

Definition valid_sha256 (value : string) : bool :=
  if negb (bool_decide (String.length value = 64%nat)) then false
  else forallb is_lower_hex (chars value).

Definition uuid_dashes : list nat := [8; 13; 18; 23]%nat.

Definition is_valid_uuid (value : string) : bool :=
  if negb (bool_decide (String.length value = 36%nat)) ||
     negb (ascii_eqb (char_at value 8) "-") || negb (ascii_eqb (char_at value 13) "-") ||
     negb (ascii_eqb (char_at value 18) "-") || negb (ascii_eqb (char_at value 23) "-")
  then false
  else if negb (forallb (λ index, bool_decide (index ∈ uuid_dashes) ||
                                  is_lower_hex (char_at value index))
                        (seq 0 (String.length value)))
  then false
  else char_in (char_at value 14) "1" "5" &&
       (ascii_eqb (char_at value 19) "8" || ascii_eqb (char_at value 19) "9" ||
        ascii_eqb (char_at value 19) "a" || ascii_eqb (char_at value 19) "b").

(** ** SemVer

    The scan keeps an index into the string; here it is the rest of the string
    from that index. *)

Fixpoint skip_digits (rest : list ascii) : list ascii :=
  match rest with
  | c :: rest' => if is_digit c then skip_digits rest' else rest
  | [] => []
  end.

Definition semver_separator (part : nat) (rest : list ascii) : option (list ascii) :=
  if (0 <? N.of_nat part)%N then
    match rest with
    | c :: rest' => if ascii_eqb c "." then Some rest' else None
    | [] => None
    end
  else Some rest.

Definition semver_part (part : nat) (rest : list ascii) : option (list ascii) :=
  match semver_separator part rest with
  | None => None
  | Some start =>
      let rest' := skip_digits start in
      let digits := N.of_nat (length start - length rest') in
      if (digits =? 0) || ((1 <? digits) && ascii_eqb (value_or (head start) " "%char) "0")
      then None else Some rest'
  end.

Fixpoint semver_parts (parts : list nat) (rest : list ascii) : option (list ascii) :=
  match parts with
  | [] => Some rest
  | part :: parts' => semver_part part rest ≫= semver_parts parts'
  end.

Definition valid_soundset_semver (value : string) : bool :=
  match semver_parts [0; 1; 2]%nat (chars value) with
  | Some rest => is_empty rest
  | None => false
  end.

(** ** UTF-8 *)

(** The continuation bytes of one code point. *)
Fixpoint continuation (code_point : N) (cs : list N) : option N :=
  match cs with
  | [] => Some code_point
  | c :: cs' =>
      if negb (N.land c 0xc0 =? 0x80) then None
      else continuation (N.lor (N.shiftl code_point 6) (N.land c 0x3f)) cs'
  end.

(** The lead byte: the length of the sequence and its first payload bits. *)
Definition count_lead (first : N) : option (nat * N) :=
  if first <=? 0x7f then Some (1%nat, first)
  else if N.land first 0xe0 =? 0xc0 then Some (2%nat, N.land first 0x1f)
  else if N.land first 0xf0 =? 0xe0 then Some (3%nat, N.land first 0x0f)
  else if N.land first 0xf8 =? 0xf0 then Some (4%nat, N.land first 0x07)
  else None.

Definition count_rejects (length : nat) (code_point : N) : bool :=
  let overlong := (bool_decide (length = 2%nat) && (code_point <? 0x80)) ||
                  (bool_decide (length = 3%nat) && (code_point <? 0x800)) ||
                  (bool_decide (length = 4%nat) && (code_point <? 0x10000)) in
  overlong || (0x10ffff <? code_point) ||
  ((0xd800 <=? code_point) && (code_point <=? 0xdfff)).

(** One turn of the loop over the bytes from [index]: the bytes after it. *)
Definition count_step (rest : list N) : option (list N) :=
  match rest with
  | [] => None
  | first :: tail =>
      match count_lead first with
      | None => None
      | Some (len, lead) =>
          if bool_decide (length rest < len)%nat then None
          else match continuation lead (take (len - 1) tail) with
               | None => None
               | Some code_point =>
                   if count_rejects len code_point then None else Some (drop len rest)
               end
      end
  end.

(** The loop; each turn consumes at least one byte, so one unit of fuel per byte
    is enough ([code_point_count_spec] of Utf8.v holds for every string). *)
Fixpoint count_loop (fuel : nat) (rest : list N) (count : N) : option N :=
  match rest with
  | [] => Some count
  | _ :: _ =>
      match fuel with
      | O => None
      | S fuel' =>
          match count_step rest with
          | None => None
          | Some rest' => count_loop fuel' rest' (count + 1)
          end
      end
  end.

Definition utf8_code_point_count (value : string) : option N :=
  count_loop (String.length value) (bytes value) 0.

(** The validator of foundation/json.cpp. *)
Definition valid_lead (first : N) : option (nat * N) :=
  if first <=? 0x7f then Some (1%nat, first)
  else if (0xc2 <=? first) && (first <=? 0xdf) then Some (2%nat, N.land first 0x1f)
  else if (0xe0 <=? first) && (first <=? 0xef) then Some (3%nat, N.land first 0x0f)
  else if (0xf0 <=? first) && (first <=? 0xf4) then Some (4%nat, N.land first 0x07)
  else None.

Definition valid_rejects (length : nat) (code_point : N) : bool :=
  (bool_decide (length = 3%nat) && (code_point <? 0x800)) ||
  (bool_decide (length = 4%nat) && (code_point <? 0x10000)) ||
  (0x10ffff <? code_point) ||
  ((0xd800 <=? code_point) && (code_point <=? 0xdfff)).

Definition valid_step (rest : list N) : option (list N) :=
  match rest with
  | [] => None
  | first :: tail =>
      if first <=? 0x7f then Some tail
      else match valid_lead first with
      | None => None
      | Some (len, lead) =>
          if bool_decide (length rest < len)%nat then None
          else match continuation lead (take (len - 1) tail) with
               | None => None
               | Some code_point =>
                   if valid_rejects len code_point then None else Some (drop len rest)
               end
      end
  end.

Fixpoint valid_loop (fuel : nat) (rest : list N) : bool :=
  match rest with
  | [] => true
  | _ :: _ =>
      match fuel with
      | O => false
      | S fuel' =>
          match valid_step rest with
          | None => false
          | Some rest' => valid_loop fuel' rest'
          end
      end
  end.

Definition valid_utf8 (value : string) : bool :=
  valid_loop (String.length value) (bytes value).

(** ** Decimal input sequences *)

Definition digit_value (c : ascii) : N := byte_of c - 48.

(** [std::from_chars] on a run of decimal digits: the value and whether the
    whole run was consumed without overflow. *)
Fixpoint from_chars (value : N) (text : list ascii) : option N :=
  match text with
  | [] => Some value
  | c :: text' =>
      if is_digit c then
        let next := value * 10 + digit_value c in
        if next <? 2 ^ 64 then from_chars next text' else None
      else None
  end.

(** [text > bound] on strings: lexicographic, by bytes. *)
Definition string_greater (a b : list ascii) : bool :=
  negb (lex_le (byte_of <$> a) (byte_of <$> b)).

Definition u64_max_text : list ascii := chars "18446744073709551615".

Definition parse_sequence_text (s : string) : option N :=
  let text := chars s in
  if is_empty text || (20 <? N.of_nat (length text)) ||
     ascii_eqb (value_or (head text) " "%char) "0" || negb (forallb is_digit text)
  then None
  else if bool_decide (length text = 20%nat) && string_greater text u64_max_text
  then None
  else from_chars 0 text.

(** [std::to_string] of a [std::uint64_t]: at most 20 digits. *)
Fixpoint decimal (fuel : nat) (n : N) : list ascii :=
  match fuel with
  | O => []
  | S fuel' =>
      if n <? 10 then [ascii_of_N (n + 48)]
      else decimal fuel' (n / 10) ++ [ascii_of_N (n mod 10 + 48)]
  end.

Definition to_string (n : N) : string := String.string_of_list_ascii (decimal 20 n).

(** ** Bytes and decimal digits *)

Lemma byte_of_lt c : byte_of c < 256.
Proof. apply N_ascii_bounded. Qed.

Lemma byte_of_inj c d : byte_of c = byte_of d → c = d.
Proof. intros H%(f_equal ascii_of_N). unfold byte_of in H. by rewrite !ascii_N_embedding in H. Qed.

Lemma bytes_lt s : Forall (λ b, b < 256) (bytes s).
Proof. apply Forall_fmap, Forall_true. intros; apply byte_of_lt. Qed.

Lemma length_chars s : length (chars s) = String.length s.
Proof. induction s; simpl; congruence. Qed.

Lemma is_digit_spec c : is_digit c = true ↔ 48 ≤ byte_of c ≤ 57.
Proof. unfold is_digit, char_in. rewrite andb_true_iff, !N.leb_le. done. Qed.

Lemma digit_value_lt c : is_digit c = true → digit_value c < 10.
Proof. rewrite is_digit_spec. unfold digit_value. lia. Qed.

Lemma digit_char_value d : d < 10 → digit_value (ascii_of_N (d + 48)) = d.
Proof. intros. unfold digit_value, byte_of. rewrite N_ascii_embedding by lia. lia. Qed.

Lemma digit_char_digit d : d < 10 → is_digit (ascii_of_N (d + 48)) = true.
Proof. intros. apply is_digit_spec. unfold byte_of. rewrite N_ascii_embedding by lia. lia. Qed.

Lemma digit_char_of_value c : is_digit c = true → ascii_of_N (digit_value c + 48) = c.
Proof.
  rewrite is_digit_spec. unfold digit_value, byte_of. intros.
  replace (N_of_ascii c - 48 + 48) with (N_of_ascii c) by lia. apply ascii_N_embedding.
Qed.

(** The number a run of digits denotes. *)
Definition decimal_value (start : N) (text : list ascii) : N :=
  foldl (λ v c, v * 10 + digit_value c) start text.

Lemma decimal_value_app v a b :
  decimal_value v (a ++ b) = decimal_value (decimal_value v a) b.
Proof. apply foldl_app. Qed.

Lemma decimal_value_shift v text :
  decimal_value v text = v * 10 ^ N.of_nat (length text) + decimal_value 0 text.
Proof.
  revert v; induction text as [|c text IH]; intros v; cbn [decimal_value foldl length].
  { unfold decimal_value; simpl; lia. }
  change (foldl _ ?a ?b) with (decimal_value a b).
  rewrite IH, (IH (0 * 10 + digit_value c)).
  rewrite Nat2N.inj_succ, N.pow_succ_r'. lia.
Qed.

Lemma decimal_value_bound text :
  Forall (λ c, is_digit c = true) text → decimal_value 0 text < 10 ^ N.of_nat (length text).
Proof.
  induction text as [|c text IH] using rev_ind; intros Hd.
  { unfold decimal_value; simpl; lia. }
  apply Forall_app in Hd as [Hd Hc]. apply Forall_cons in Hc as [Hc _].
  rewrite decimal_value_app, length_app, Nat2N.inj_add. cbn.
  rewrite N.add_1_r, N.pow_succ_r'. specialize (IH Hd). apply digit_value_lt in Hc.
  fold (decimal_value 0 text). lia.
Qed.

Lemma decimal_value_mono v text : v ≤ decimal_value v text.
Proof.
  revert v; induction text as [|c text IH]; intros v; cbn; [done|].
  change (foldl _ ?a ?b) with (decimal_value a b).
  etrans; [|apply IH]. lia.
Qed.

Lemma from_chars_spec v text :
  Forall (λ c, is_digit c = true) text → v < 2 ^ 64 →
  from_chars v text =
    if decimal_value v text <? 2 ^ 64 then Some (decimal_value v text) else None.
Proof.
  intros Hd. revert v; induction Hd as [|c text Hc Hd IH]; intros v Hv; cbn [from_chars].
  { cbn. by rewrite (proj2 (N.ltb_lt _ _) Hv). }
  rewrite Hc. cbn [decimal_value foldl]. change (foldl _ ?a ?b) with (decimal_value a b).
  destruct (v * 10 + digit_value c <? 2 ^ 64) eqn:E; bool_to_prop; [by apply IH|].
  pose proof (decimal_value_mono (v * 10 + digit_value c) text).
  by rewrite (proj2 (N.ltb_ge _ _)) by lia.
Qed.

(** Digit strings of one length compare as the numbers they denote. *)
Lemma digits_lex_le a b :
  Forall (λ c, is_digit c = true) a → Forall (λ c, is_digit c = true) b →
  length a = length b →
  lex_le (byte_of <$> a) (byte_of <$> b) = true ↔ decimal_value 0 a ≤ decimal_value 0 b.
Proof.
  intros Ha; revert b; induction Ha as [|c a Hc Ha IH]; intros [|d b] Hb Hlen; try done.
  apply Forall_cons in Hb as [Hd Hb]. injection Hlen as Hlen. cbn -[N.mul N.add].
  change (foldl _ ?a ?b) with (decimal_value a b).
  rewrite (decimal_value_shift _ a), (decimal_value_shift _ b), Hlen.
  rewrite orb_true_iff, andb_true_iff, N.ltb_lt, N.eqb_eq, (IH b Hb Hlen).
  pose proof (decimal_value_bound a Ha) as Ba. pose proof (decimal_value_bound b Hb) as Bb.
  rewrite Hlen in Ba. set (p := 10 ^ N.of_nat (length b)) in *.
  apply is_digit_spec in Hc, Hd. unfold digit_value.
  assert (0 < p) by (unfold p; apply N.neq_0_lt_0, N.pow_nonzero; done).
  split; [intros [?|[E ?]]|intros Hle].
  - assert (byte_of c - 48 + 1 ≤ byte_of d - 48) by lia. nia.
  - rewrite E. lia.
  - destruct (N.lt_trichotomy (byte_of c) (byte_of d)) as [?|[E|?]]; [by left| |].
    + right. rewrite E in Hle. split; [done|lia].
    + exfalso. assert (byte_of d - 48 + 1 ≤ byte_of c - 48) by lia. nia.
Qed.

Lemma decimal_digits fuel n : Forall (λ c, is_digit c = true) (decimal fuel n).
Proof.
  revert n; induction fuel as [|fuel IH]; intros n; simpl; [constructor|].
  destruct (n <? 10) eqn:E; bool_to_prop.
  - constructor; [|constructor]. by apply digit_char_digit.
  - apply Forall_app. split; [apply IH|]. constructor; [|constructor].
    apply digit_char_digit, N.mod_lt. done.
Qed.

Lemma decimal_length fuel n : (length (decimal fuel n) ≤ fuel)%nat.
Proof.
  revert n; induction fuel as [|fuel IH]; intros n; simpl; [done|].
  destruct (n <? 10); simpl; [lia|]. rewrite length_app; simpl. specialize (IH (n / 10)). lia.
Qed.

Lemma decimal_value_decimal fuel n :
  n < 10 ^ N.of_nat fuel → decimal_value 0 (decimal fuel n) = n.
Proof.
  revert n; induction fuel as [|fuel IH]; intros n Hn; cbn [decimal].
  { simpl in Hn. unfold decimal_value; simpl. lia. }
  rewrite Nat2N.inj_succ, N.pow_succ_r' in Hn.
  destruct (n <? 10) eqn:E; bool_to_prop.
  - cbn -[N.mul N.add]. rewrite digit_char_value by done. lia.
  - rewrite decimal_value_app, IH by (apply N.Div0.div_lt_upper_bound; lia).
    cbn -[N.mul N.add]. rewrite digit_char_value by (by apply N.mod_lt).
    pose proof (N.div_mod' n 10). lia.
Qed.

Lemma decimal_head fuel n :
  0 < n → n < 10 ^ N.of_nat fuel → ∃ c t, decimal fuel n = c :: t ∧ c ≠ "0"%char.
Proof.
  revert n; induction fuel as [|fuel IH]; intros n Hpos Hn; cbn [decimal].
  { simpl in Hn. lia. }
  rewrite Nat2N.inj_succ, N.pow_succ_r' in Hn.
  destruct (n <? 10) eqn:E; bool_to_prop.
  - exists (ascii_of_N (n + 48)), []. split; [done|]. intros Hc%(f_equal N_of_ascii).
    rewrite N_ascii_embedding in Hc by lia. change (N_of_ascii "0") with 48 in Hc. lia.
  - destruct (IH (n / 10)) as (c & t & Hct & Hc).
    + apply N.div_str_pos. lia.
    + apply N.Div0.div_lt_upper_bound. lia.
    + exists c, (t ++ [ascii_of_N (n mod 10 + 48)]). by rewrite Hct.
Qed.

Lemma canonical_positive c t :
  is_digit c = true → c ≠ "0"%char → 0 < decimal_value 0 (c :: t).
Proof.
  intros Hc%is_digit_spec Hne.
  change (decimal_value 0 (c :: t)) with (decimal_value (0 * 10 + digit_value c) t).
  eapply N.lt_le_trans; [|apply decimal_value_mono].
  assert (byte_of c ≠ 48) by (intros E; apply Hne, byte_of_inj; by rewrite E).
  unfold digit_value. lia.
Qed.

Lemma decimal_canonical fuel c t :
  Forall (λ c, is_digit c = true) (c :: t) → c ≠ "0"%char →
  (length (c :: t) ≤ fuel)%nat → decimal fuel (decimal_value 0 (c :: t)) = c :: t.
Proof.
  revert fuel; induction t as [|d t IH] using rev_ind; intros fuel Hd Hc Hlen.
  - apply Forall_cons in Hd as [Hd _]. destruct fuel as [|fuel]; [simpl in Hlen; lia|].
    cbn -[N.mul N.add]. rewrite N.mul_0_l, N.add_0_l.
    rewrite (proj2 (N.ltb_lt _ _)) by (by apply digit_value_lt). by rewrite digit_char_of_value.
  - rewrite app_comm_cons in Hd |- *. apply Forall_app in Hd as [Hd Hd'].
    apply Forall_cons in Hd' as [Hd' _]. rewrite length_cons, length_app in Hlen. simpl in Hlen.
    assert (0 < decimal_value 0 (c :: t)) by
      (apply canonical_positive; [by apply Forall_cons in Hd as [? _]|done]).
    pose proof (digit_value_lt d Hd') as Hd10.
    destruct fuel as [|fuel]; [lia|]. rewrite decimal_value_app. cbn [decimal].
    change (decimal_value (decimal_value 0 (c :: t)) [d])
      with (decimal_value 0 (c :: t) * 10 + digit_value d).
    rewrite (proj2 (N.ltb_ge _ _)) by lia.
    rewrite N.div_add_l, (N.div_small (digit_value d)), N.add_0_r by done.
    rewrite (N.add_comm (_ * 10)), N.Div0.mod_add, N.mod_small by done.
    rewrite IH by (simpl; try done; lia). by rewrite digit_char_of_value.
Qed.

Lemma chars_inj s t : chars s = chars t → s = t.
Proof.
  intros H%(f_equal String.string_of_list_ascii).
  by rewrite !String.string_of_list_ascii_of_string in H.
Qed.

Lemma chars_of_list l : chars (String.string_of_list_ascii l) = l.
Proof. apply String.list_ascii_of_string_of_list_ascii. Qed.

Lemma pow_64_20 : 2 ^ 64 < 10 ^ N.of_nat 20.
Proof. done. Qed.

Lemma forallb_digits l : forallb is_digit l = true ↔ Forall (λ c, is_digit c = true) l.
Proof. rewrite forallb_forall, Forall_forall. setoid_rewrite list_elem_of_In. done. Qed.

Lemma u64_max_value : decimal_value 0 u64_max_text = 2 ^ 64 - 1.
Proof. done. Qed.

(** The 20-digit guard of the parser is exactly the 64-bit bound. *)
Lemma string_greater_max text :
  Forall (λ c, is_digit c = true) text → length text = 20%nat →
  string_greater text u64_max_text = false ↔ decimal_value 0 text < 2 ^ 64.
Proof.
  intros Hd Hlen. unfold string_greater. rewrite negb_false_iff.
  change (2 ^ 64) with 18446744073709551616.
  rewrite digits_lex_le, u64_max_value; [cbn; lia|done| |done].
  by apply forallb_digits.
Qed.

Lemma to_string_chars n : chars (to_string n) = decimal 20 n.
Proof. apply chars_of_list. Qed.

Lemma parse_to_string n : 0 < n → n < 2 ^ 64 → parse_sequence_text (to_string n) = Some n.
Proof.
  intros Hpos Hn. unfold parse_sequence_text. rewrite to_string_chars.
  pose proof (N.lt_trans _ _ _ Hn pow_64_20) as Hn20.
  pose proof (decimal_digits 20 n) as Hd. pose proof (decimal_length 20 n) as Hlen.
  pose proof (decimal_value_decimal 20 n Hn20) as Hv.
  destruct (decimal_head 20 n Hpos Hn20) as (c & t & Hct & Hc).
  rewrite Hct in *. cbn [is_empty value_or head orb].
  rewrite (proj2 (N.ltb_ge _ _)) by lia.
  rewrite (proj2 (forallb_digits _) Hd). unfold ascii_eqb.
  rewrite (proj2 (Ascii.eqb_neq _ _) Hc). cbn [negb orb].
  rewrite from_chars_spec, Hv by done. rewrite (proj2 (N.ltb_lt _ _) Hn).
  case_bool_decide as Hl; [|done]. cbn [andb].
  by rewrite (proj2 (string_greater_max _ Hd Hl)) by lia.
Qed.

Lemma parse_is_to_string s n :
  parse_sequence_text s = Some n → 0 < n ∧ n < 2 ^ 64 ∧ s = to_string n.
Proof.
  unfold parse_sequence_text. destruct (chars s) as [|c t] eqn:Hs; [done|].
  cbn [is_empty orb value_or head].
  destruct (_ || _) eqn:E; [done|]. unfold ascii_eqb in E. bool_to_prop.
  match goal with H : forallb _ _ = true |- _ => apply forallb_digits in H as Hd end.
  match goal with H : Ascii.eqb _ _ = false |- _ => apply Ascii.eqb_neq in H as Hc end.
  destruct (_ && _); [done|].
  rewrite from_chars_spec by done. case_match eqn:Hlt; [|done]. bool_to_prop. intros [= <-].
  split; [|split; [done|]].
  - apply canonical_positive; [by apply Forall_cons in Hd as [? _]|done].
  - apply chars_inj. rewrite to_string_chars, Hs. symmetry. apply decimal_canonical; [done..|].
    simpl length in *. lia.
Qed.

(** ** SemVer accepts exactly three dotted numerals *)

Definition numeral (l : list ascii) : Prop :=
  l ≠ [] ∧ Forall (λ c, is_digit c = true) l ∧ (length l = 1%nat ∨ head l ≠ Some "0"%char).

Definition stops_digits (l : list ascii) : Prop :=
  match l with c :: _ => is_digit c = false | [] => True end.

Lemma skip_digits_split l :
  ∃ d, l = d ++ skip_digits l ∧ Forall (λ c, is_digit c = true) d ∧ stops_digits (skip_digits l).
Proof.
  induction l as [|c l (d & Hd & Hds & Hs)]; [by exists []|]. cbn [skip_digits].
  destruct (is_digit c) eqn:E.
  - exists (c :: d). split_and!; [by rewrite Hd at 1|by constructor|done].
  - exists []. split_and!; [done|constructor|done].
Qed.

Lemma skip_digits_app d l :
  Forall (λ c, is_digit c = true) d → stops_digits l → skip_digits (d ++ l) = l.
Proof.
  intros Hd Hl. induction Hd as [|c d Hc Hd IH]; cbn [app skip_digits].
  - destruct l as [|c l]; [done|]. simpl in *. by rewrite Hl.
  - by rewrite Hc.
Qed.

Lemma semver_part_spec part rest rest' :
  semver_part part rest = Some rest' ↔
  ∃ a, numeral a ∧ stops_digits rest' ∧
    rest = (if (0 <? N.of_nat part)%N then ["."%char] else []) ++ a ++ rest'.
Proof.
  assert (∀ start, (let r := skip_digits start in
      let digits := N.of_nat (length start - length r) in
      if (digits =? 0) || ((1 <? digits) && ascii_eqb (value_or (head start) " "%char) "0")
      then None else Some r) = Some rest' ↔
    ∃ a, numeral a ∧ stops_digits rest' ∧ start = a ++ rest') as Hstart.
  { intros start. cbv zeta. split.
    - destruct (skip_digits_split start) as (d & Hd & Hds & Hs).
      assert (length start - length (skip_digits start) = length d)%nat as Hlen
        by (rewrite Hd at 1; rewrite length_app; lia).
      rewrite Hlen. case_match eqn:E; [done|]. intros [= <-]. exists d.
      split_and!; [|done|done]. bool_to_prop.
      destruct d as [|c d]; [simpl in *; lia|]. split_and!; [done|done|].
      match goal with H : _ && _ = false |- _ => apply andb_false_iff in H as [Hz|Hz] end.
      + left. bool_to_prop. simpl in *. lia.
      + right. rewrite Hd in Hz. simpl in *. apply Ascii.eqb_neq in Hz. congruence.
    - intros (a & (Hne & Hd & Hz) & Hs & ->). rewrite skip_digits_app by done.
      rewrite length_app. destruct a as [|c a]; [done|].
      rewrite (proj2 (N.eqb_neq _ _)) by (simpl; lia). cbn [orb].
      destruct (_ && _) eqn:E; [|done]. bool_to_prop. simpl in *.
      match goal with H : ascii_eqb _ _ = true |- _ => apply Ascii.eqb_eq in H as -> end.
      destruct Hz as [Hz|Hz]; [lia|done]. }
  unfold semver_part, semver_separator. destruct (0 <? N.of_nat part).
  - split.
    + destruct rest as [|c rest]; [done|]. unfold ascii_eqb at 1.
      destruct (Ascii.eqb_spec c "."); [|done]. subst. intros (a & Ha & Hs & ->)%Hstart.
      by exists a.
    + intros (a & Ha & Hs & ->). cbn [app]. apply Hstart. eauto.
  - rewrite Hstart. done.
Qed.

Lemma semver_spec s :
  valid_soundset_semver s = true ↔
  ∃ a b c, numeral a ∧ numeral b ∧ numeral c ∧
    chars s = a ++ ["."%char] ++ b ++ ["."%char] ++ c.
Proof.
  unfold valid_soundset_semver. cbn [semver_parts]. split.
  - destruct (semver_part 0 (chars s)) as [r0|] eqn:E0; [|done]. cbn.
    destruct (semver_part 1 r0) as [r1|] eqn:E1; [|done]. cbn.
    destruct (semver_part 2 r1) as [r2|] eqn:E2; [|done]. cbn. destruct r2; [|done]. intros _.
    apply semver_part_spec in E0 as (a & Ha & _ & E0), E1 as (b & Hb & _ & ->),
      E2 as (c & Hc & _ & ->).
    exists a, b, c. split_and!; [done..|]. rewrite E0. cbn. by rewrite app_nil_r.
  - intros (a & b & c & Ha & Hb & Hc & ->).
    rewrite (proj2 (semver_part_spec 0 _ (["."%char] ++ b ++ ["."%char] ++ c))) by (by exists a).
    cbn [mbind option_bind].
    rewrite (proj2 (semver_part_spec 1 _ (["."%char] ++ c))) by (by exists b).
    cbn [mbind option_bind].
    rewrite (proj2 (semver_part_spec 2 _ [])); [done|]. exists c. by rewrite app_nil_r.
Qed.

(** ** Properties *)

(** The decimal text of an input sequence is parsed back, and the parser
    accepts nothing else: no sign, leading zero, zero or value of more than 64 bits. *)
Theorem input_sequence_roundtrip s n :
  parse_sequence_text s = Some n ↔ 0 < n ∧ n < 2 ^ 64 ∧ s = to_string n.
Proof.
  split; [apply parse_is_to_string|]. intros (H0 & Hn & ->). by apply parse_to_string.
Qed.

(** A SoundSet version is accepted exactly when it is three numerals without
    leading zeros, separated by dots. *)
Theorem soundset_semver_exact s :
  valid_soundset_semver s = true ↔
  ∃ a b c, numeral a ∧ numeral b ∧ numeral c ∧
    chars s = a ++ ["."%char] ++ b ++ ["."%char] ++ c.
Proof. apply semver_spec. Qed.
