(* ===== verification/Utf8.v ===== *)
(** UTF-8: the two decoders of the source agree and accept exactly UTF-8.

    project.cpp counts code points ([utf8_code_point_count]); foundation/json.cpp
    validates ([valid_utf8]).  Both are compared with the encoding of Unicode
    scalar values ([utf8_encode]). *)

From S2P Require Import Prelude Text.

(** ** The encoding *)

Definition is_scalar (cp : N) : Prop := cp < 0x110000 ∧ ¬ (0xd800 ≤ cp ∧ cp ≤ 0xdfff).

Definition utf8_encode (cp : N) : list N :=
  if cp <? 0x80 then [cp]
  else if cp <? 0x800 then [0xc0 + cp / 64; 0x80 + cp mod 64]
  else if cp <? 0x10000 then
    [0xe0 + cp / 64 / 64; 0x80 + cp / 64 mod 64; 0x80 + cp mod 64]
  else
    [0xf0 + cp / 64 / 64 / 64; 0x80 + cp / 64 / 64 mod 64;
     0x80 + cp / 64 mod 64; 0x80 + cp mod 64].

Definition utf8_encode_all (cps : list N) : list N := concat (utf8_encode <$> cps).

(** The lead byte, by ranges instead of masks. *)
Definition lead_range (first : N) : option (nat * N) :=
  if first <? 0x80 then Some (1%nat, first)
  else if (0xc0 <=? first) && (first <? 0xe0) then Some (2%nat, first - 0xc0)
  else if (0xe0 <=? first) && (first <? 0xf0) then Some (3%nat, first - 0xe0)
  else if (0xf0 <=? first) && (first <? 0xf8) then Some (4%nat, first - 0xf0)
  else None.

(** ** Facts about single bytes, by enumeration *)

Definition all_bytes : list N := N.of_nat <$> seq 0 256.

Lemma byte_enum (P : N → Prop) `{∀ b, Decision (P b)} :
  forallb (λ b, bool_decide (P b)) all_bytes = true → ∀ b, b < 256 → P b.
Proof.
  intros HP b Hb. rewrite forallb_forall in HP.
  apply (bool_decide_eq_true_1 (P b)), HP, list_elem_of_In, list_elem_of_fmap.
  exists (N.to_nat b). split; [lia|]. apply elem_of_seq. lia.
Qed.

Lemma count_lead_range b : b < 256 → count_lead b = lead_range b.
Proof. revert b. refine (byte_enum (λ b, count_lead b = lead_range b) _). by vm_compute. Qed.

Definition valid_lead_gap (b : N) : bool := ((0xc0 <=? b) && (b <? 0xc2)) || (0xf5 <=? b).

Lemma valid_lead_range b : b < 256 →
  valid_lead b = if valid_lead_gap b then None else lead_range b.
Proof.
  revert b.
  refine (byte_enum (λ b, valid_lead b = if valid_lead_gap b then None else lead_range b) _).
  by vm_compute.
Qed.

Lemma continuation_byte c : c < 256 →
  (N.land c 0xc0 =? 0x80) = (0x80 <=? c) && (c <? 0xc0).
Proof.
  revert c. refine (byte_enum (λ c, (N.land c 0xc0 =? 0x80) = (0x80 <=? c) && (c <? 0xc0)) _).
  by vm_compute.
Qed.

Lemma payload_bits c : N.land c 0x3f = c mod 64.
Proof. change 0x3f with (N.ones 6). by rewrite N.land_ones. Qed.

Lemma append_bits cp x : x < 64 → N.lor (N.shiftl cp 6) x = cp * 64 + x.
Proof.
  intros Hx. rewrite N.shiftl_mul_pow2. change (2 ^ 6) with 64.
  apply N.bits_inj. intros i. rewrite N.lor_spec.
  destruct (N.lt_ge_cases i 6) as [Hi|Hi].
  - change 64 with (2 ^ 6) at 1. rewrite N.mul_pow2_bits_low by done.
    rewrite <- (N.mod_pow2_bits_low (cp * 64 + x) 6 i) by done. change (2 ^ 6) with 64.
    rewrite N.add_comm, N.Div0.mod_add, N.mod_small by done. done.
  - replace i with (i - 6 + 6) by lia. rewrite <- (N.div_pow2_bits (cp * 64 + x)).
    rewrite <- (N.div_pow2_bits (cp * 64)), <- (N.div_pow2_bits x). change (2 ^ 6) with 64.
    rewrite N.div_mul, (N.div_small x), N.bits_0, orb_false_r by done.
    by rewrite N.div_add_l, N.div_small, N.add_0_r by done.
Qed.

Lemma continuation_cons cp c cs : c < 256 →
  continuation cp (c :: cs) =
    if (0x80 <=? c) && (c <? 0xc0) then continuation (cp * 64 + (c - 0x80)) cs else None.
Proof.
  intros Hc. cbn [continuation]. rewrite continuation_byte by done.
  destruct (_ && _) eqn:E; cbn [negb]; [|done]. bool_to_prop.
  rewrite payload_bits, append_bits by (by apply N.mod_lt).
  replace (c mod 64) with (c - 0x80); [done|].
  replace c with (c - 0x80 + 2 * 64) at 2 by lia. rewrite N.Div0.mod_add. symmetry.
  apply N.mod_small. lia.
Qed.

(** ** The two decoders take the same steps *)

Lemma continuation_cp_bounds cp c cs v : c < 256 →
  continuation cp (c :: cs) = Some v → cp * 64 ≤ v ∧ (cs = [] → v < cp * 64 + 64).
Proof.
  intros Hc. rewrite continuation_cons by done. destruct (_ && _) eqn:E; [|done]. bool_to_prop.
  assert (∀ a l v, continuation a l = Some v → a ≤ v) as Hmono.
  { clear. intros a l; revert a; induction l as [|b l IH]; intros a v; simpl; [by intros [= <-]|].
    case_match; [done|]. intros Hv%IH. etrans; [|exact Hv].
    rewrite payload_bits, append_bits by (by apply N.mod_lt).
    generalize (b mod 64). intros. lia. }
  intros Hv. split; [apply Hmono in Hv; lia|]. intros ->. injection Hv as <-. lia.
Qed.

Lemma step_agree rest : Forall (λ b, b < 256) rest → count_step rest = valid_step rest.
Proof.
  destruct rest as [|b tail]; [done|]. intros [Hb Ht]%Forall_cons. unfold count_step, valid_step.
  rewrite count_lead_range, valid_lead_range by done. unfold lead_range, valid_lead_gap.
  destruct (b <? 0x80) eqn:E1.
  { rewrite (proj2 (N.leb_le b 0x7f)) by (bool_to_prop; lia).
    rewrite bool_decide_eq_false_2 by (simpl; lia). bool_to_prop.
    change (continuation b (take (1 - 1) tail)) with (Some b). cbv iota beta.
    unfold count_rejects. rewrite (proj2 (N.ltb_ge 0x10ffff b)), (proj2 (N.leb_gt 0xd800 b)) by lia.
    done. }
  rewrite (proj2 (N.leb_gt b 0x7f)) by (bool_to_prop; lia).
  destruct ((0xc0 <=? b) && (b <? 0xe0)) eqn:E2.
  { rewrite (proj2 (N.leb_gt 0xf5 b)) by (bool_to_prop; lia). rewrite orb_false_r.
    destruct ((0xc0 <=? b) && (b <? 0xc2)) eqn:E3; (case_bool_decide as Hlen; [done|]);
      (destruct tail as [|c1 tail]; [simpl in Hlen; lia|]); apply Forall_cons in Ht as [Hc1 Ht];
      cbn [Nat.sub firstn]; rewrite ?take_0;
      (destruct (continuation (b - 0xc0) [c1]) as [v|] eqn:Hv; [|done]);
      apply continuation_cp_bounds in Hv as [Hlo Hhi]; try done; specialize (Hhi eq_refl);
      unfold count_rejects, valid_rejects; bool_to_prop.
    - by rewrite (proj2 (N.ltb_lt v 0x80)) by lia.
    - assert (0xc2 ≤ b) by (apply andb_false_iff in E3 as [E3|E3]; bool_to_prop; lia).
      by rewrite (proj2 (N.ltb_ge v 0x80)) by lia. }
  destruct ((0xe0 <=? b) && (b <? 0xf0)) eqn:E3.
  { bool_to_prop. rewrite (proj2 (N.leb_gt 0xf5 b)), (proj2 (N.ltb_ge b 0xc2)) by lia.
    rewrite andb_false_r. cbn [orb]. case_bool_decide; [done|].
    destruct (continuation _ _) as [v|]; [|done]. unfold count_rejects, valid_rejects. simpl.
    by rewrite !orb_false_r. }
  destruct ((0xf0 <=? b) && (b <? 0xf8)) eqn:E4; [|by destruct (_ || _)].
  bool_to_prop. rewrite (proj2 (N.ltb_ge b 0xc2)), andb_false_r by lia. cbn [orb].
  destruct (0xf5 <=? b) eqn:E5; bool_to_prop.
  - case_bool_decide as Hlen; [done|].
    destruct tail as [|c1 [|c2 [|c3 tail]]]; simpl in Hlen; try lia.
    rewrite !Forall_cons in Ht. destruct Ht as (Hc1 & Hc2 & Hc3 & Ht).
    cbn [Nat.sub firstn]. rewrite ?take_0.
    destruct (continuation (b - 0xf0) [c1; c2; c3]) as [v|] eqn:Hv; [|done].
    assert (0x10ffff < v) as Hbig.
    { rewrite continuation_cons in Hv by done. destruct ((0x80 <=? c1) && _); [|done].
      rewrite continuation_cons in Hv by done. destruct ((0x80 <=? c2) && _); [|done].
      apply continuation_cp_bounds in Hv as [Hlo _]; [|done]. lia. }
    unfold count_rejects. by rewrite (proj2 (N.ltb_lt 0x10ffff v)), orb_true_r by done.
  - case_bool_decide; [done|]. destruct (continuation _ _) as [v|]; [|done].
    unfold count_rejects, valid_rejects. done.
Qed.

Lemma valid_step_bytes rest rest' :
  Forall (λ b, b < 256) rest → count_step rest = Some rest' → Forall (λ b, b < 256) rest'.
Proof.
  intros Hr. unfold count_step. destruct rest as [|b tail]; [done|].
  destruct (count_lead b) as [[len lead]|]; [|done].
  case_bool_decide; [done|]. destruct (continuation _ _); [|done].
  case_match; [done|]. intros [= <-]. by apply Forall_drop.
Qed.

Lemma loops_agree fuel rest count :
  Forall (λ b, b < 256) rest →
  has_value (count_loop fuel rest count) = valid_loop fuel rest.
Proof.
  revert rest count; induction fuel as [|fuel IH]; intros [|b rest] count Hr; try done.
  cbn [count_loop valid_loop]. rewrite <- step_agree by done.
  destruct (count_step (b :: rest)) as [rest'|] eqn:E; [|done].
  apply IH. by eapply valid_step_bytes.
Qed.

(** ** The steps and the encoding *)

Lemma utf8_encode_length cp : (1 ≤ length (utf8_encode cp))%nat.
Proof. unfold utf8_encode. repeat case_match; simpl; lia. Qed.

Lemma cont_mod x : (0x80 <=? 0x80 + x mod 64) && (0x80 + x mod 64 <? 0xc0) = true.
Proof.
  pose proof (N.mod_lt x 64 ltac:(done)). apply andb_true_iff.
  split; [apply N.leb_le|apply N.ltb_lt]; dlia.
Qed.

Lemma cont_step cp cs :
  continuation (cp / 64) (0x80 + cp mod 64 :: cs) = continuation cp cs.
Proof.
  rewrite continuation_cons, cont_mod by dlia. f_equal. dlia.
Qed.

Lemma scalar_flags cp : is_scalar cp →
  (0x10ffff <? cp) = false ∧ ((0xd800 <=? cp) && (cp <=? 0xdfff)) = false.
Proof.
  intros [Hmax Hsur]. rewrite N.ltb_ge, andb_false_iff, !N.leb_gt. lia.
Qed.

(** A lead byte in range, then continuation bytes that encode [cp]. *)
Lemma count_step_multi first len lead cs cp rest :
  first < 256 → lead_range first = Some (len, lead) → length cs = (len - 1)%nat →
  continuation lead cs = Some cp → count_rejects len cp = false → (1 < len)%nat →
  count_step (first :: cs ++ rest) = Some rest.
Proof.
  intros Hf Hlead Hlen Hcp Hrej H1. unfold count_step.
  rewrite count_lead_range, Hlead by done.
  rewrite bool_decide_eq_false_2 by (simpl; rewrite length_app; lia).
  rewrite take_app_length', Hcp, Hrej by done.
  destruct len as [|len]; [lia|]. simpl in *. by rewrite drop_app_length' by lia.
Qed.

Ltac lead_tac := unfold lead_range; repeat case_match; try (exfalso; dlia); do 2 f_equal; dlia.

Lemma count_step_encode cp rest :
  is_scalar cp → count_step (utf8_encode cp ++ rest) = Some rest.
Proof.
  intros Hsc. pose proof (scalar_flags cp Hsc) as [Hm Hs]. destruct Hsc as [Hmax _].
  unfold utf8_encode.
  destruct (cp <? 0x80) eqn:E1; [|destruct (cp <? 0x800) eqn:E2; [|destruct (cp <? 0x10000) eqn:E3]].
  - cbn [app]. unfold count_step. apply N.ltb_lt in E1 as Hlt.
    rewrite count_lead_range by lia. unfold lead_range. rewrite E1.
    rewrite bool_decide_eq_false_2 by (simpl; lia).
    change (continuation cp _) with (Some cp). cbv iota beta. unfold count_rejects. by rewrite Hs, Hm.
  - apply count_step_multi with (len := 2%nat) (lead := cp / 64) (cp := cp) (cs := [_]); try (done || lia).
    + bool_to_prop; dlia.
    + lead_tac.
    + by rewrite cont_step.
    + unfold count_rejects. by rewrite Hs, Hm, E1.
  - apply count_step_multi with (len := 3%nat) (lead := cp / 64 / 64) (cp := cp) (cs := [_; _]); try (done || lia).
    + bool_to_prop; dlia.
    + lead_tac.
    + by rewrite !cont_step.
    + unfold count_rejects. by rewrite Hs, Hm, E2.
  - apply count_step_multi with (len := 4%nat) (lead := cp / 64 / 64 / 64) (cp := cp) (cs := [_; _; _]); try (done || lia).
    + bool_to_prop; dlia.
    + lead_tac.
    + by rewrite !cont_step.
    + unfold count_rejects. by rewrite Hs, Hm, E3.
Qed.

Lemma continuation_inv cp c cs v : c < 256 →
  continuation cp (c :: cs) = Some v →
  0x80 ≤ c < 0xc0 ∧ continuation (cp * 64 + (c - 0x80)) cs = Some v.
Proof. intros Hc. rewrite continuation_cons by done. case_match; [|done]. intros. split; [lia|done]. Qed.

Lemma rejects_scalar len cp : count_rejects len cp = false →
  is_scalar cp ∧ (len = 2%nat → 0x80 ≤ cp) ∧ (len = 3%nat → 0x800 ≤ cp) ∧
  (len = 4%nat → 0x10000 ≤ cp).
Proof.
  unfold count_rejects, is_scalar. intros H. bool_to_prop.
  repeat split; try lia; intros ->; simpl in *; lia.
Qed.

(** Every accepted step reads the encoding of one scalar value. *)
Lemma count_step_inv rest rest' : Forall (λ b, b < 256) rest →
  count_step rest = Some rest' → ∃ cp, is_scalar cp ∧ rest = utf8_encode cp ++ rest'.
Proof.
  destruct rest as [|b tail]; [done|]. intros [Hb Ht]%Forall_cons. unfold count_step.
  rewrite count_lead_range by done.
  destruct (lead_range b) as [[len lead]|] eqn:Hlead; [|done].
  case_bool_decide as Hlen; [done|].
  destruct (continuation _ _) as [cp|] eqn:Hcp; [|done].
  destruct (count_rejects len cp) eqn:Hrej; [done|]. intros [= <-].
  apply rejects_scalar in Hrej as (Hsc & H2 & H3 & H4). exists cp. split; [done|].
  unfold lead_range in Hlead. unfold utf8_encode.
  destruct (b <? 0x80) eqn:E1.
  { injection Hlead as <- <-. injection Hcp as <-. by rewrite E1. }
  repeat (case_match; [|try done]); simplify_eq; simpl in Hlen;
    (destruct tail as [|c1 tail]; [simpl in Hlen; lia|]);
    try (destruct tail as [|c2 tail]; [simpl in Hlen; lia|]);
    try (destruct tail as [|c3 tail]; [simpl in Hlen; lia|]);
    cbn [Nat.sub firstn] in Hcp; rewrite ?take_0 in Hcp; rewrite !Forall_cons in Ht;
    destruct_and!; repeat (apply continuation_inv in Hcp as [? Hcp]; [|done]);
    injection Hcp as Hcp.
  all: try (exfalso; unfold is_scalar in *; dlia).
  all: cbn [app skipn]; rewrite ?drop_0; repeat (f_equal; [dlia|]); f_equal; dlia.
Qed.

(** ** Whole strings *)

Lemma count_loop_encode cps fuel count :
  Forall is_scalar cps → (length (utf8_encode_all cps) ≤ fuel)%nat →
  count_loop fuel (utf8_encode_all cps) count = Some (count + N.of_nat (length cps)).
Proof.
  intros Hcps. revert fuel count.
  induction Hcps as [|cp cps Hcp Hcps IH]; intros fuel count Hfuel.
  { destruct fuel; cbn; by rewrite N.add_0_r. }
  change (utf8_encode_all (cp :: cps)) with (utf8_encode cp ++ utf8_encode_all cps) in *.
  pose proof (utf8_encode_length cp). rewrite length_app in Hfuel.
  destruct fuel as [|fuel]; [lia|].
  destruct (utf8_encode cp ++ utf8_encode_all cps) as [|b bs] eqn:E.
  { apply (f_equal length) in E. rewrite length_app in E. simpl in E. lia. }
  cbn [count_loop]. rewrite <- E, count_step_encode, IH by (done || lia). f_equal. simpl. lia.
Qed.

Lemma count_loop_inv fuel rest count n : Forall (λ b, b < 256) rest →
  count_loop fuel rest count = Some n →
  ∃ cps, Forall is_scalar cps ∧ rest = utf8_encode_all cps ∧ n = count + N.of_nat (length cps).
Proof.
  revert rest count; induction fuel as [|fuel IH]; intros [|b rest] count Hb; cbn [count_loop];
    try done; try (intros [= <-]; exists []; by rewrite N.add_0_r).
  destruct (count_step (b :: rest)) as [rest'|] eqn:E; [|done]. intros Hn.
  pose proof (valid_step_bytes _ _ Hb E) as Hb'.
  apply count_step_inv in E as (cp & Hcp & ->); [|done].
  destruct (IH rest' (count + 1) Hb' Hn) as (cps & Hcps & -> & ->).
  exists (cp :: cps). split_and!; [by constructor|done|simpl; lia].
Qed.

Lemma length_bytes s : length (bytes s) = String.length s.
Proof. unfold bytes. by rewrite length_fmap, length_chars. Qed.

(** [utf8_code_point_count] counts the scalar values of the text a string
    encodes, and refuses every string that encodes no text. *)
Lemma code_point_count_spec s n :
  utf8_code_point_count s = Some n ↔
  ∃ cps, Forall is_scalar cps ∧ bytes s = utf8_encode_all cps ∧ n = N.of_nat (length cps).
Proof.
  unfold utf8_code_point_count. split.
  - intros H%count_loop_inv; [exact H|apply bytes_lt].
  - intros (cps & Hcps & Hs & ->). rewrite Hs, count_loop_encode; [done..|].
    by rewrite <- Hs, length_bytes.
Qed.

(** ** Properties *)

(** The code points of a name are counted exactly: the count is defined when
    the bytes are the shortest-form UTF-8 encoding of Unicode scalar values and
    is their number, and the SoundSet text check accepts the same byte strings. *)
Theorem utf8_count_exact s :
  (∀ n, utf8_code_point_count s = Some n ↔
     ∃ cps, Forall is_scalar cps ∧ bytes s = utf8_encode_all cps ∧ n = N.of_nat (length cps)) ∧
  valid_utf8 s = has_value (utf8_code_point_count s).
Proof.
  split; [intros n; apply code_point_count_spec|].
  unfold valid_utf8, utf8_code_point_count. rewrite loops_agree; [done|apply bytes_lt].
Qed.
