(* ===== verification/Project.v ===== *)
(** Project Truth: the data model.

    Models packages/authoring-domain/include/lmdj/domain/project.hpp: the enums,
    the Pad, Asset, Pattern and Performance structs and [ProjectState].  Unsigned
    fields are [N], signed fields are [Z]; [std::map] is [gmap]; a
    [std::array<T, n>] is a list whose length is part of [state_shape].
    An enum holds one of its enumerators. *)

From S2P Require Import Prelude Json Foundation Text.

(** ** Constants *)

Definition kPpq : N := 960.
Definition kSixteenthTicks : N := 240.
Definition kBarTicks4x4 : N := 3840.
Definition kSwingPercentMin : N := 50.
Definition kSwingPercentMax : N := 75.
Definition kPerformanceNameMax : N := 64.
Definition kPerformancePadSlotMax : N := 63.
Definition kBankPadCount : nat := 16.
Definition kPatternSlotCount : N := 16.
Definition kPatternSlotMin : N := 0.
Definition kPatternSlotMax : N := 15.
Definition kFxValueMin : N := 0.
Definition kFxValueMax : N := 1000.
Definition kFxCount : N := 8.
Definition kPerformancePadSlotCount : N := 64.
Definition kFilterCutoffHzMin : N := 20.
Definition kFilterCutoffHzMax : N := 20000.
Definition kFilterResonanceMilliMax : N := 1000.
Definition kPadPitchCentsMin : Z := -2400.
Definition kPadPitchCentsMax : Z := 2400.
Definition kPadPanMin : Z := -100.
Definition kPadPanMax : Z := 100.
Definition kPadAttackMsMax : Z := 2000.
Definition kPadReleaseMsMax : Z := 4000.
Definition kPadToneMin : Z := -100.
Definition kPadToneMax : Z := 100.
Definition kPadEqGainMillidbMin : Z := -18000.
Definition kPadEqGainMillidbMax : Z := 18000.
Definition kPadEqLowFreqHzMin : Z := 20.
Definition kPadEqLowFreqHzMax : Z := 2000.
Definition kPadEqMidFreqHzMin : Z := 100.
Definition kPadEqMidFreqHzMax : Z := 10000.
Definition kPadEqMidQMilliMin : Z := 100.
Definition kPadEqMidQMilliMax : Z := 10000.
Definition kPadEqHighFreqHzMin : Z := 1000.
Definition kPadEqHighFreqHzMax : Z := 20000.
Definition kPadColourCount : N := 5.
Definition kSoundSetSlotCount : N := 16.

(** ** Enums

    Each [enum class] is a module, so an enumerator reads as in the source. *)

Module ProjectContract.
Inductive ProjectContract := v1 | v2 | v3 | v4 | v5.
End ProjectContract.
Abbreviation ProjectContract := ProjectContract.ProjectContract.

Module TriggerMode.
Inductive TriggerMode := one_shot | gate | loop_gate | loop_toggle.
End TriggerMode.
Abbreviation TriggerMode := TriggerMode.TriggerMode.

Module LoopMode.
Inductive LoopMode := forward | ping_pong.
End LoopMode.
Abbreviation LoopMode := LoopMode.LoopMode.

Module EqBandKind.
Inductive EqBandKind := shelf | cut.
End EqBandKind.
Abbreviation EqBandKind := EqBandKind.EqBandKind.

Module AssetCategory.
Inductive AssetCategory := drums | bass | melodic | vocal | texture.
End AssetCategory.
Abbreviation AssetCategory := AssetCategory.AssetCategory.

Module PerformanceEventKind.
Inductive PerformanceEventKind :=
  | pad_hit | pattern_launch | fx_engage | fx_move | fx_release | hold_on | hold_off
  | filter_change | pad_gates_set.
End PerformanceEventKind.
Abbreviation PerformanceEventKind := PerformanceEventKind.PerformanceEventKind.

Module PerformanceFx.
Inductive PerformanceFx := filter | delay | reverb | stutter | gate | reverse | crush | cutter.
End PerformanceFx.
Abbreviation PerformanceFx := PerformanceFx.PerformanceFx.

Module PerformanceFilterType.
Inductive PerformanceFilterType := lp | hp | bp.
End PerformanceFilterType.
Abbreviation PerformanceFilterType := PerformanceFilterType.PerformanceFilterType.

Module PerformanceFilterPhase.
Inductive PerformanceFilterPhase := engage | move | release.
End PerformanceFilterPhase.
Abbreviation PerformanceFilterPhase := PerformanceFilterPhase.PerformanceFilterPhase.

#[export] Instance ProjectContract_eq_dec : EqDecision ProjectContract.
Proof. solve_decision. Defined.
#[export] Instance TriggerMode_eq_dec : EqDecision TriggerMode.
Proof. solve_decision. Defined.
#[export] Instance LoopMode_eq_dec : EqDecision LoopMode.
Proof. solve_decision. Defined.
#[export] Instance EqBandKind_eq_dec : EqDecision EqBandKind.
Proof. solve_decision. Defined.
#[export] Instance AssetCategory_eq_dec : EqDecision AssetCategory.
Proof. solve_decision. Defined.
#[export] Instance PerformanceFx_eq_dec : EqDecision PerformanceFx.
Proof. solve_decision. Defined.
#[export] Instance PerformanceFilterType_eq_dec : EqDecision PerformanceFilterType.
Proof. solve_decision. Defined.
#[export] Instance PerformanceFilterPhase_eq_dec : EqDecision PerformanceFilterPhase.
Proof. solve_decision. Defined.

(** The order of [enum class ProjectContract]. *)
Definition contract_rank (c : ProjectContract) : N :=
  match c with
  | ProjectContract.v1 => 0 | ProjectContract.v2 => 1 | ProjectContract.v3 => 2
  | ProjectContract.v4 => 3 | ProjectContract.v5 => 4
  end.
Definition contract_lt (a b : ProjectContract) : bool := contract_rank a <? contract_rank b.
Definition contract_max (a b : ProjectContract) : ProjectContract :=
  if contract_lt a b then b else a.

(** [static_cast<std::uint8_t>] of an effect. *)
Definition fx_ordinal (fx : PerformanceFx) : N :=
  match fx with
  | PerformanceFx.filter => 0 | PerformanceFx.delay => 1 | PerformanceFx.reverb => 2
  | PerformanceFx.stutter => 3 | PerformanceFx.gate => 4 | PerformanceFx.reverse => 5
  | PerformanceFx.crush => 6 | PerformanceFx.cutter => 7
  end.

(** ** Pads *)

Record PadEqShelf := MkPadEqShelf {
  shelf_kind : EqBandKind;
  shelf_freq_hz : Z;
  shelf_gain_millidb : Z
}.

Record PadEqBell := MkPadEqBell {
  bell_freq_hz : Z;
  bell_gain_millidb : Z;
  bell_q_milli : Z
}.

Record PadEq := MkPadEq {
  eq_low : option PadEqShelf;
  eq_mid : option PadEqBell;
  eq_high : option PadEqShelf
}.

Record PadPlayback := MkPadPlayback {
  trim_start_frame : N;
  trim_end_frame : option N;
  trigger_mode : TriggerMode;
  gain_millidb : Z;
  muted : bool;
  reverse : bool;
  pitch_cents : Z;
  pan : Z;
  loop_mode : LoopMode;
  loop_start_frame : option N;
  loop_crossfade_frames : N;
  attack_ms : Z;
  release_ms : Z;
  tone : Z;
  pad_eq : PadEq
}.

(** [PadPlayback{}]. *)
Definition default_playback : PadPlayback :=
  MkPadPlayback 0 None TriggerMode.one_shot 0 false false 0 0 LoopMode.forward None 0 0 0 0
    (MkPadEq None None None).

Record PadSlotId := MkPadSlotId { bank : N; pad : N }.

Record PadPaletteEntry := MkPadPaletteEntry { palette_category : AssetCategory; rgb_hex : string }.

Definition kPadPalette : list PadPaletteEntry :=
  [MkPadPaletteEntry AssetCategory.drums "#F3B580";
   MkPadPaletteEntry AssetCategory.bass "#DFF779";
   MkPadPaletteEntry AssetCategory.melodic "#B49DE8";
   MkPadPaletteEntry AssetCategory.vocal "#94D2DC";
   MkPadPaletteEntry AssetCategory.texture "#E6ED98"].

Record PadSlot := MkPadSlot {
  pad_id : PadSlotId;
  pad_asset_id : option AssetId;
  pad_playback : PadPlayback;
  pad_colour : option N
}.

(** ** Assets and their lineage *)

Inductive PerformanceIdTag : Set := .
Abbreviation PerformanceId := (StrongId PerformanceIdTag).

Record AssetArtifactLineageSource := MkAssetArtifactLineageSource {
  source_artifact_sha256 : string;
  source_project_revision : N
}.

Record ResampleFrameRange := MkResampleFrameRange {
  range_start_frame : N;
  range_end_frame : N
}.

Record ResampleLineageDerivation := MkResampleLineageDerivation {
  resample_range : ResampleFrameRange;
  resample_performance_id : PerformanceId
}.

Record SoundSetLineageSource := MkSoundSetLineageSource {
  source_set_id : string;
  source_set_version : string;
  source_manifest_sha256 : string;
  source_slot_index : N;
  source_set_artifact_sha256 : string
}.

Record CapabilityLineageIdentity := MkCapabilityLineageIdentity {
  capability_id : string;
  capability_contract : string;
  capability_version : string
}.

Record ImplementationLineageIdentity := MkImplementationLineageIdentity {
  implementation_id : string;
  implementation_version : string;
  implementation_artifact_sha256 : string
}.

Record SliceIntervalRecipe := MkSliceIntervalRecipe {
  recipe_start_frame : N;
  recipe_end_frame : N;
  recipe_frame_rate : N
}.

Record CapabilityAdoptionLineageDerivation := MkCapabilityAdoption {
  adoption_capability : CapabilityLineageIdentity;
  adoption_provider : ImplementationLineageIdentity;
  adoption_model_identity : option ImplementationLineageIdentity;
  adoption_parameters_sha256 : string;
  adoption_attempt_id : AttemptId;
  adoption_source_asset_id : AssetId;
  adoption_output_artifact : ArtifactRef;
  adoption_recipe : SliceIntervalRecipe
}.

Inductive AssetLineageSource :=
  | asset_artifact_source (s : AssetArtifactLineageSource)
  | soundset_source (s : SoundSetLineageSource).

Inductive AssetLineageDerivation :=
  | resample_derivation (d : ResampleLineageDerivation)
  | soundset_install_derivation
  | capability_adoption_derivation (d : CapabilityAdoptionLineageDerivation).

Record AssetLineage := MkAssetLineage {
  lineage_source : AssetLineageSource;
  lineage_derivation : AssetLineageDerivation
}.

Record Asset := MkAsset {
  asset_id : AssetId;
  asset_artifact : ArtifactRef;
  asset_lineage : option AssetLineage;
  asset_category : option AssetCategory
}.

(** ** Patterns *)

Record PatternEvent := MkPatternEvent {
  slot : PadSlotId;
  onset_tick : N;
  duration_tick : N;
  velocity : N
}.

Record Pattern := MkPattern {
  pattern_id : PatternId;
  bars : N;
  events : list PatternEvent
}.

(** ** Performances *)

Inductive PerformanceEventPayload :=
  | PadHitPerformanceEvent (slot onset_tick duration_tick velocity : N)
  | PatternLaunchPerformanceEvent (pattern_slot effective_tick : N)
  | FxEngagePerformanceEvent (fx : PerformanceFx) (fx_value tick : N)
  | FxMovePerformanceEvent (fx : PerformanceFx) (fx_value tick : N)
  | FxReleasePerformanceEvent (fx : PerformanceFx) (tick : N)
  | HoldOnPerformanceEvent (tick : N)
  | HoldOffPerformanceEvent (tick : N)
  | FilterChangePerformanceEvent (phase : PerformanceFilterPhase)
      (type : PerformanceFilterType) (cutoff_hz resonance_milli tick : N)
  | PadGatesSetPerformanceEvent (muted_mask solo_mask tick : N).

Record PerformanceEvent := MkPerformanceEvent {
  payload : PerformanceEventPayload;
  input_sequence : option N
}.

Record LegacyFilterLiveState := MkLegacyFilter {
  legacy_engaged : bool;
  legacy_frozen : bool;
  legacy_value : N
}.

Record IndependentFilterLiveState := MkIndependentFilter {
  independent_engaged : bool;
  independent_frozen : bool;
  independent_type : PerformanceFilterType;
  independent_cutoff_hz : N;
  independent_resonance_milli : N
}.

Inductive PerformanceFilterLiveState :=
  | legacy_filter (s : LegacyFilterLiveState)
  | independent_filter (s : IndependentFilterLiveState).

Record PerformanceFxGateState := MkFxGate {
  gate_engaged : bool;
  gate_frozen : bool;
  gate_value : N
}.

Record PerformanceInitialLiveState := MkInitialLiveState {
  hold : bool;
  live_filter : PerformanceFilterLiveState;
  other_fx : list PerformanceFxGateState;
  muted_mask : N;
  solo_mask : N
}.

Record Performance := MkPerformance {
  performance_id : PerformanceId;
  performance_name : string;
  created_bpm : N;
  recording_revision : N;
  recording_artifact : option ArtifactRef;
  performance_events : list PerformanceEvent;
  initial_live_state : option PerformanceInitialLiveState
}.

(** ** The Project *)

Record ProjectState := MkProjectState {
  contract : ProjectContract;
  project_id : ProjectId;
  revision : N;
  bpm : N;
  quantize_enabled : bool;
  swing_percent : N;
  banks : list (list PadSlot);
  assets : gmap AssetId Asset;
  patterns : gmap PatternId Pattern;
  performances : gmap PerformanceId Performance;
  pattern_slots : list (option PatternId)
}.

(** ** Decidable equality: [operator== = default] *)

#[export] Instance PadEqShelf_eq_dec : EqDecision PadEqShelf.
Proof. solve_decision. Defined.
#[export] Instance PadEqBell_eq_dec : EqDecision PadEqBell.
Proof. solve_decision. Defined.
#[export] Instance PadEq_eq_dec : EqDecision PadEq.
Proof. solve_decision. Defined.
#[export] Instance PadPlayback_eq_dec : EqDecision PadPlayback.
Proof. solve_decision. Defined.
#[export] Instance PadSlotId_eq_dec : EqDecision PadSlotId.
Proof. solve_decision. Defined.
#[export] Instance PadSlotId_countable : Countable PadSlotId.
Proof. apply (inj_countable' (λ s, (bank s, pad s)) (λ p, MkPadSlotId p.1 p.2)). by intros []. Defined.
#[export] Instance PadSlot_eq_dec : EqDecision PadSlot.
Proof. solve_decision. Defined.
#[export] Instance AssetArtifactLineageSource_eq_dec : EqDecision AssetArtifactLineageSource.
Proof. solve_decision. Defined.
#[export] Instance ResampleFrameRange_eq_dec : EqDecision ResampleFrameRange.
Proof. solve_decision. Defined.
#[export] Instance ResampleLineageDerivation_eq_dec : EqDecision ResampleLineageDerivation.
Proof. solve_decision. Defined.
#[export] Instance SoundSetLineageSource_eq_dec : EqDecision SoundSetLineageSource.
Proof. solve_decision. Defined.
#[export] Instance CapabilityLineageIdentity_eq_dec : EqDecision CapabilityLineageIdentity.
Proof. solve_decision. Defined.
#[export] Instance ImplementationLineageIdentity_eq_dec : EqDecision ImplementationLineageIdentity.
Proof. solve_decision. Defined.
#[export] Instance SliceIntervalRecipe_eq_dec : EqDecision SliceIntervalRecipe.
Proof. solve_decision. Defined.
#[export] Instance CapabilityAdoption_eq_dec : EqDecision CapabilityAdoptionLineageDerivation.
Proof. solve_decision. Defined.
#[export] Instance AssetLineageSource_eq_dec : EqDecision AssetLineageSource.
Proof. solve_decision. Defined.
#[export] Instance AssetLineageDerivation_eq_dec : EqDecision AssetLineageDerivation.
Proof. solve_decision. Defined.
#[export] Instance AssetLineage_eq_dec : EqDecision AssetLineage.
Proof. solve_decision. Defined.
#[export] Instance Asset_eq_dec : EqDecision Asset.
Proof. solve_decision. Defined.
#[export] Instance PatternEvent_eq_dec : EqDecision PatternEvent.
Proof. solve_decision. Defined.
#[export] Instance Pattern_eq_dec : EqDecision Pattern.
Proof. solve_decision. Defined.
#[export] Instance PerformanceEventPayload_eq_dec : EqDecision PerformanceEventPayload.
Proof. solve_decision. Defined.
#[export] Instance PerformanceEvent_eq_dec : EqDecision PerformanceEvent.
Proof. solve_decision. Defined.
#[export] Instance LegacyFilterLiveState_eq_dec : EqDecision LegacyFilterLiveState.
Proof. solve_decision. Defined.
#[export] Instance IndependentFilterLiveState_eq_dec : EqDecision IndependentFilterLiveState.
Proof. solve_decision. Defined.
#[export] Instance PerformanceFilterLiveState_eq_dec : EqDecision PerformanceFilterLiveState.
Proof. solve_decision. Defined.
#[export] Instance PerformanceFxGateState_eq_dec : EqDecision PerformanceFxGateState.
Proof. solve_decision. Defined.
#[export] Instance PerformanceInitialLiveState_eq_dec : EqDecision PerformanceInitialLiveState.
Proof. solve_decision. Defined.
#[export] Instance Performance_eq_dec : EqDecision Performance.
Proof. solve_decision. Defined.
#[export] Instance ProjectState_eq_dec : EqDecision ProjectState.
Proof. solve_decision. Defined.

(** ** Access and update *)

(** [banks.at(slot.bank).at(slot.pad)]. *)
Definition pad_at (bs : list (list PadSlot)) (s : PadSlotId) : option PadSlot :=
  bs !! N.to_nat (bank s) ≫= λ row, row !! N.to_nat (pad s).

Definition set_pad_at (bs : list (list PadSlot)) (s : PadSlotId) (p : PadSlot) :
    list (list PadSlot) :=
  alter (λ row, <[N.to_nat (pad s) := p]> row) (N.to_nat (bank s)) bs.

(** [pattern_slots.at(slot)]. *)
Definition slot_at (slots : list (option PatternId)) (s : N) : option (option PatternId) :=
  slots !! N.to_nat s.

Definition set_slot_at (slots : list (option PatternId)) (s : N) (v : option PatternId) :
    list (option PatternId) :=
  <[N.to_nat s := v]> slots.

Definition with_contract (st : ProjectState) (c : ProjectContract) : ProjectState :=
  MkProjectState c (project_id st) (revision st) (bpm st) (quantize_enabled st)
    (swing_percent st) (banks st) (assets st) (patterns st) (performances st) (pattern_slots st).
Definition with_revision (st : ProjectState) (r : N) : ProjectState :=
  MkProjectState (contract st) (project_id st) r (bpm st) (quantize_enabled st)
    (swing_percent st) (banks st) (assets st) (patterns st) (performances st) (pattern_slots st).
Definition with_bpm (st : ProjectState) (b : N) : ProjectState :=
  MkProjectState (contract st) (project_id st) (revision st) b (quantize_enabled st)
    (swing_percent st) (banks st) (assets st) (patterns st) (performances st) (pattern_slots st).
Definition with_quantize (st : ProjectState) (q : bool) : ProjectState :=
  MkProjectState (contract st) (project_id st) (revision st) (bpm st) q
    (swing_percent st) (banks st) (assets st) (patterns st) (performances st) (pattern_slots st).
Definition with_swing (st : ProjectState) (s : N) : ProjectState :=
  MkProjectState (contract st) (project_id st) (revision st) (bpm st) (quantize_enabled st)
    s (banks st) (assets st) (patterns st) (performances st) (pattern_slots st).
Definition with_banks (st : ProjectState) (b : list (list PadSlot)) : ProjectState :=
  MkProjectState (contract st) (project_id st) (revision st) (bpm st) (quantize_enabled st)
    (swing_percent st) b (assets st) (patterns st) (performances st) (pattern_slots st).
Definition with_assets (st : ProjectState) (a : gmap AssetId Asset) : ProjectState :=
  MkProjectState (contract st) (project_id st) (revision st) (bpm st) (quantize_enabled st)
    (swing_percent st) (banks st) a (patterns st) (performances st) (pattern_slots st).
Definition with_patterns (st : ProjectState) (p : gmap PatternId Pattern) : ProjectState :=
  MkProjectState (contract st) (project_id st) (revision st) (bpm st) (quantize_enabled st)
    (swing_percent st) (banks st) (assets st) p (performances st) (pattern_slots st).
Definition with_performances (st : ProjectState) (p : gmap PerformanceId Performance) :
    ProjectState :=
  MkProjectState (contract st) (project_id st) (revision st) (bpm st) (quantize_enabled st)
    (swing_percent st) (banks st) (assets st) (patterns st) p (pattern_slots st).
Definition with_pattern_slots (st : ProjectState) (s : list (option PatternId)) : ProjectState :=
  MkProjectState (contract st) (project_id st) (revision st) (bpm st) (quantize_enabled st)
    (swing_percent st) (banks st) (assets st) (patterns st) (performances st) s.

Definition pad_with_asset (p : PadSlot) (a : option AssetId) : PadSlot :=
  MkPadSlot (pad_id p) a (pad_playback p) (pad_colour p).
Definition pad_with_playback (p : PadSlot) (pb : PadPlayback) : PadSlot :=
  MkPadSlot (pad_id p) (pad_asset_id p) pb (pad_colour p).
Definition pad_with_colour (p : PadSlot) (c : option N) : PadSlot :=
  MkPadSlot (pad_id p) (pad_asset_id p) (pad_playback p) c.

Definition is_valid_slot (s : PadSlotId) : bool := (bank s <? 4) && (pad s <? 16).

(** [value == std::optional<Id>] for a [std::map] key: [contains]. *)
Definition map_contains {Tag V} (m : gmap (StrongId Tag) V) (k : StrongId Tag) : bool :=
  has_value (m !! k).

(** ** Creation *)

Definition empty_banks : list (list PadSlot) :=
  (λ b, (λ p, MkPadSlot (MkPadSlotId (N.of_nat b) (N.of_nat p)) None default_playback None)
          <$> seq 0 16) <$> seq 0 4.

Definition create_project `{JsonLib} (id : ProjectId) (b : N) : Result ProjectState :=
  if negb (is_valid_uuid (value id)) then
    failure (plain_error invalid_argument "project id must be a lowercase UUID")
  else if (b <? 40) || (240 <? b) then
    failure (MkError _ invalid_argument "project BPM must be between 40 and 240"
               (j_object [("bpm", j_uint b)]))
  else
    success (MkProjectState ProjectContract.v5 id 0 b true 50 empty_banks ∅ ∅ ∅
               (replicate 16 None)).

(** ** Assets of Pads and colours *)

Definition resolve_slot_asset `{JsonLib} (st : ProjectState) (s : PadSlotId) :
    Result (option Asset) :=
  if negb (is_valid_slot s) then success None
  else
    p ← throwing (pad_at (banks st) s);
    success (match pad_asset_id p with
             | None => None
             | Some id => assets st !! id
             end).

Definition pad_colour_index (c : AssetCategory) : N :=
  match c with
  | AssetCategory.drums => 0 | AssetCategory.bass => 1 | AssetCategory.melodic => 2
  | AssetCategory.vocal => 3 | AssetCategory.texture => 4
  end.

Definition soundset_role_category (role : string) : option AssetCategory :=
  if bool_decide (role ∈ ["kick"; "snare"; "clap"; "hat_closed"; "hat_open"; "perc"; "cymbal"])
  then Some AssetCategory.drums
  else if bool_decide (role = "bass") then Some AssetCategory.bass
  else if bool_decide (role = "melody") || bool_decide (role = "chord")
  then Some AssetCategory.melodic
  else if bool_decide (role = "vocal") then Some AssetCategory.vocal
  else if bool_decide (role = "fx") then Some AssetCategory.texture
  else None.

Definition stem_label_category (label : string) : option AssetCategory :=
  if bool_decide (label = "drums") then Some AssetCategory.drums
  else if bool_decide (label = "bass") then Some AssetCategory.bass
  else if bool_decide (label = "vocals") then Some AssetCategory.vocal
  else None.

Definition effective_pad_colour `{JsonLib} (st : ProjectState) (s : PadSlotId) :
    Result (option N) :=
  if negb (is_valid_slot s) then success None
  else
    p ← throwing (pad_at (banks st) s);
    if has_value (pad_colour p) then success (pad_colour p)
    else match pad_asset_id p with
    | None => success None
    | Some id =>
        match assets st !! id with
        | Some a => success (pad_colour_index <$> asset_category a)
        | None => success None
        end
    end.

(** ** The shape of a Project: the array sizes of its type *)

Record state_shape (st : ProjectState) : Prop := {
  shape_banks : length (banks st) = 4%nat;
  shape_rows : Forall (λ row, length row = 16%nat) (banks st);
  shape_slots : length (pattern_slots st) = 16%nat
}.

(** ** Lemmas *)

Lemma is_valid_slot_spec s : is_valid_slot s = true ↔ bank s < 4 ∧ pad s < 16.
Proof. unfold is_valid_slot. lia. Qed.

Lemma pad_at_valid st s :
  state_shape st → is_valid_slot s = true → ∃ p, pad_at (banks st) s = Some p.
Proof.
  intros [Hb Hr _] [H4 H16]%is_valid_slot_spec. unfold pad_at.
  destruct (banks st !! N.to_nat (bank s)) as [row|] eqn:E; cbn.
  - pose proof (Forall_lookup_1 _ _ _ _ Hr E) as Hrow. simpl in Hrow.
    destruct (lookup_lt_is_Some_2 row (N.to_nat (pad s))) as [p Hp]; [lia|]. eauto.
  - apply lookup_ge_None in E. lia.
Qed.

Lemma pad_at_set_eq bs s p q :
  pad_at bs s = Some q → pad_at (set_pad_at bs s p) s = Some p.
Proof.
  unfold pad_at, set_pad_at. destruct (bs !! N.to_nat (bank s)) as [row|] eqn:E; [|done]. cbn.
  intros Hq. rewrite list_lookup_alter_eq, E. cbn.
  by apply list_lookup_insert_eq, (lookup_lt_Some _ _ _ Hq).
Qed.

Lemma pad_at_set_ne bs s s' p : s ≠ s' → pad_at (set_pad_at bs s p) s' = pad_at bs s'.
Proof.
  intros Hne. unfold pad_at, set_pad_at.
  destruct (decide (bank s = bank s')) as [Eb|Eb].
  - assert (pad s ≠ pad s') as Ep by (intros Ep; apply Hne; destruct s, s'; simpl in *; congruence).
    rewrite <- Eb, list_lookup_alter_eq. destruct (bs !! N.to_nat (bank s)); [|done]. cbn.
    apply list_lookup_insert_ne. lia.
  - rewrite list_lookup_alter_ne by lia. done.
Qed.

Lemma set_pad_at_shape bs s p :
  length bs = 4%nat → Forall (λ row, length row = 16%nat) bs →
  length (set_pad_at bs s p) = 4%nat ∧ Forall (λ row, length row = 16%nat) (set_pad_at bs s p).
Proof.
  intros Hb Hr. unfold set_pad_at. split; [by rewrite length_alter|].
  apply Forall_alter; [done|]. intros row Hrow Hl. by rewrite length_insert.
Qed.

Lemma pad_at_set bs s s' p q :
  pad_at bs s = Some q →
  pad_at (set_pad_at bs s p) s' = if decide (s = s') then Some p else pad_at bs s'.
Proof.
  intros Hq. case_decide as E; [subst; by eapply pad_at_set_eq|by apply pad_at_set_ne].
Qed.

Lemma slot_at_set slots s s' v :
  s < N.of_nat (length slots) →
  slot_at (set_slot_at slots s v) s' = if decide (s = s') then Some v else slot_at slots s'.
Proof.
  intros Hlt. unfold slot_at, set_slot_at. case_decide as E.
  - subst. apply list_lookup_insert_eq. lia.
  - apply list_lookup_insert_ne. lia.
Qed.

Lemma empty_banks_pad b p : b < 4 → p < 16 →
  pad_at empty_banks (MkPadSlotId b p) =
    Some (MkPadSlot (MkPadSlotId b p) None default_playback None).
Proof.
  intros Hb Hp. unfold pad_at. simpl bank. simpl pad.
  unfold empty_banks. rewrite list_lookup_fmap, lookup_seq_lt by lia. cbn [fmap option_fmap option_map mbind option_bind].
  rewrite list_lookup_fmap, lookup_seq_lt by lia. cbn [fmap option_fmap option_map]. by rewrite !Nat.add_0_l, !N2Nat.id.
Qed.

Lemma contract_max_le a b :
  contract_rank a ≤ contract_rank (contract_max a b) ∧
  contract_rank b ≤ contract_rank (contract_max a b).
Proof. unfold contract_max, contract_lt. case_match; lia. Qed.
