(* ===== verification/Fields.v ===== *)
(** Reading JSON members.

    Models the helpers of packages/authoring-domain/src/project.cpp that the
    decoders share: exact object keys, unsigned and bounded numbers, the input
    sequence and the live slot masks. *)

From S2P Require Import Prelude Json Foundation Text Project.

Section fields.
Context `{JL : JsonLib}.

(** ** Definitions *)

Definition exact_object_keys (input : json) (keys : list string) : bool :=
  if negb (is_object input) || negb (Nat.eqb (j_size input) (length keys)) then false
  else forallb (j_contains input) keys.

Definition unsigned_value (input : json) : option N :=
  if is_number_unsigned input then get_u64 input
  else if is_number_integer input then
    match get_i64 input with
    | Some v => if (0 <=? v)%Z then Some (Z.to_N v) else None
    | None => None
    end
  else None.

Definition bounded_unsigned (input : json) (maximum : N) : option N :=
  match unsigned_value input with
  | Some v => if maximum <? v then None else Some v
  | None => None
  end.

Definition parse_input_sequence (input : json) : option N :=
  if negb (is_string input) then None
  else match get_string input with
  | Some text => parse_sequence_text text
  | None => None
  end.

Fixpoint slot_mask_loop (items : list json) (mask previous : N) (first : bool) : option N :=
  match items with
  | [] => Some mask
  | encoded :: items' =>
      match bounded_unsigned encoded kPerformancePadSlotMax with
      | None => None
      | Some s =>
          if negb first && (s <=? previous) then None
          else slot_mask_loop items' (N.lor mask (N.shiftl 1 s)) s false
      end
  end.

Definition slot_mask_from_json (input : json) : option N :=
  if negb (is_array input) then None
  else slot_mask_loop (j_items input) 0 0 true.

Definition slot_mask_json (mask : N) : json :=
  foldl (λ encoded s, if negb (N.land mask (N.shiftl 1 s) =? 0)
                      then j_push_back encoded (j_uint s) else encoded)
    (j_array []) (N.of_nat <$> seq 0 (N.to_nat kPerformancePadSlotCount)).

(** [input.at(key)], and [input.at(key).get<T>()] for the types the decoders read. *)
Definition at_key (input : json) (key : string) : Result json := throwing (j_at input key).
Definition string_at (input : json) (key : string) : Result string :=
  j ← at_key input key; throwing (get_string j).
Definition bool_at (input : json) (key : string) : Result bool :=
  j ← at_key input key; throwing (get_bool j).

(** [input.at(key).is_string()] and the like. *)
Definition test_at (input : json) (key : string) (test : json → bool) : Result bool :=
  j ← at_key input key; success (test j).

(** [a || b], where evaluating [b] may throw. *)
Definition or_else (a : Result bool) (b : Result bool) : Result bool :=
  x ← a; if x : bool then success true else b.

(** ** Lemmas *)

Lemma slot_mask_loop_spec l mask previous first : JsonLaws JL →
  Forall (λ s, s ≤ 63) l → StronglySorted N.lt l →
  (first = false → Forall (λ s, previous < s) l) →
  slot_mask_loop (j_uint <$> l) mask previous first =
    Some (foldl (λ m s, N.lor m (N.shiftl 1 s)) mask l).
Proof.
  intros HL Hb Hs. revert mask previous first.
  induction Hs as [|s l Hl IH Hlt]; intros mask previous first Hf; [done|].
  apply Forall_cons in Hb as [Hb0 Hb]. rewrite fmap_cons. cbn [slot_mask_loop foldl].
  unfold bounded_unsigned, unsigned_value, kPerformancePadSlotMax.
  rewrite uint_is_unsigned, uint_get by u_lia.
  rewrite (proj2 (N.ltb_ge _ _)) by done.
  assert (negb first && (s <=? previous) = false) as ->.
  { destruct first; [done|]. specialize (Hf eq_refl). apply Forall_cons in Hf as [? _].
    cbn. by apply N.leb_gt. }
  apply IH; [done|]. intros _. done.
Qed.

Lemma testbit_shifted s i : N.testbit (N.shiftl 1 s) i = bool_decide (i = s).
Proof.
  rewrite N.shiftl_1_l, N.pow2_bits_eqb. case_bool_decide; [subst; apply N.eqb_refl|].
  by apply N.eqb_neq.
Qed.

Lemma foldl_lor_testbit l mask i :
  N.testbit (foldl (λ m s, N.lor m (N.shiftl 1 s)) mask l) i =
    N.testbit mask i || bool_decide (i ∈ l).
Proof.
  revert mask; induction l as [|s l IH]; intros mask; cbn [foldl].
  { rewrite bool_decide_eq_false_2 by apply not_elem_of_nil. by rewrite orb_false_r. }
  rewrite IH, N.lor_spec, testbit_shifted, <- orb_assoc. f_equal.
  case_bool_decide; case_bool_decide; symmetry; cbn [orb];
    (apply bool_decide_eq_true_2 || apply bool_decide_eq_false_2); set_solver.
Qed.

Lemma land_shifted mask s : negb (N.land mask (N.shiftl 1 s) =? 0) = N.testbit mask s.
Proof.
  destruct (N.testbit mask s) eqn:E.
  - apply negb_true_iff, N.eqb_neq. intros H0.
    assert (N.testbit (N.land mask (N.shiftl 1 s)) s = false) as H by (by rewrite H0, N.bits_0).
    rewrite N.land_spec, E, testbit_shifted, bool_decide_eq_true_2 in H by done. done.
  - apply negb_false_iff, N.eqb_eq, N.bits_inj_0. intros i.
    rewrite N.land_spec, testbit_shifted. case_bool_decide; [subst; by rewrite E|].
    apply andb_false_r.
Qed.

(** The slots a mask encodes. *)
Definition mask_slots (mask : N) : list N :=
  filter (λ s, N.testbit mask s = true) (N.of_nat <$> seq 0 64).

Lemma slot_mask_json_spec mask : JsonLaws JL →
  slot_mask_json mask = j_array (j_uint <$> mask_slots mask).
Proof.
  intros HL. unfold slot_mask_json, mask_slots, kPerformancePadSlotCount.
  change (N.to_nat 64) with 64%nat. generalize (N.of_nat <$> seq 0 64). intros l.
  change (j_array (j_uint <$> filter (λ s, N.testbit mask s = true) l))
    with (j_array ([] ++ (j_uint <$> filter (λ s, N.testbit mask s = true) l))).
  generalize (@nil json). induction l as [|s l IH]; intros acc; cbn [foldl].
  { by rewrite filter_nil, fmap_nil, app_nil_r. }
  rewrite land_shifted, filter_cons. destruct (N.testbit mask s); rewrite ?decide_True, ?decide_False by done.
  - by rewrite push_back_array, IH, fmap_cons, <- app_assoc.
  - apply IH.
Qed.

Lemma seq_N_sorted a n : StronglySorted N.lt (N.of_nat <$> seq a n).
Proof.
  revert a; induction n as [|n IH]; intros a; [constructor|]. cbn [seq]. rewrite fmap_cons.
  constructor; [apply IH|]. apply Forall_fmap, Forall_forall. intros x [? _]%elem_of_seq. simpl. lia.
Qed.

Lemma mask_slots_elem mask i : i ∈ mask_slots mask ↔ N.testbit mask i = true ∧ i < 64.
Proof.
  unfold mask_slots. rewrite list_elem_of_filter, list_elem_of_fmap. split.
  - intros [? (n & -> & [_ ?]%elem_of_seq)]. split; [done|lia].
  - intros [? ?]. split; [done|]. exists (N.to_nat i). rewrite elem_of_seq. lia.
Qed.

Lemma mask_bits mask i : mask < 2 ^ 64 → N.testbit mask i = true → i < 64.
Proof.
  intros Hm Hi. destruct (N.lt_ge_cases i 64) as [|Hge]; [done|exfalso].
  rewrite N.testbit_true in Hi. rewrite N.div_small in Hi; [done|].
  eapply N.lt_le_trans; [exact Hm|]. by apply N.pow_le_mono_r.
Qed.

Lemma slot_mask_roundtrip_lemma mask : JsonLaws JL → mask < 2 ^ 64 →
  slot_mask_from_json (slot_mask_json mask) = Some mask.
Proof.
  intros HL Hm. unfold slot_mask_from_json.
  rewrite (slot_mask_json_spec mask HL), array_is_array, array_items. cbn [negb].
  rewrite slot_mask_loop_spec; [|done| | |done].
  - f_equal. apply N.bits_inj. intros i. rewrite foldl_lor_testbit, N.bits_0. cbn [orb].
    apply bool_decide_is_bool. rewrite mask_slots_elem. split; [tauto|].
    intros Hi. split; [done|]. by eapply mask_bits.
  - apply Forall_forall. intros i [_ ?]%mask_slots_elem. lia.
  - apply StronglySorted_filter, seq_N_sorted.
Qed.

(** ** Reading an object whose members are known *)

Lemma exact_keys_fields j l keys : fields j l →
  exact_object_keys j keys =
    Nat.eqb (length l) (length keys) && forallb (λ k, has_value (assoc k l)) keys.
Proof.
  intros [Ho Hs Hc _]. unfold exact_object_keys. rewrite Ho, Hs. cbn [negb orb].
  destruct (Nat.eqb _ _); cbn [negb andb]; [|done].
  induction keys as [|k keys IH]; cbn [forallb]; [done|]. by rewrite Hc, IH.
Qed.

Lemma at_key_fields j l k v : fields j l → assoc k l = Some v → at_key j k = success v.
Proof. intros H E. unfold at_key. by rewrite (fields_at _ _ H), E. Qed.

Lemma test_at_fields j l k v t : fields j l → assoc k l = Some v →
  test_at j k t = success (t v).
Proof. intros H E. unfold test_at. by rewrite (at_key_fields _ _ _ _ H E). Qed.

Lemma string_at_fields j l k s : JsonLaws JL → fields j l →
  assoc k l = Some (j_string s) → string_at j k = success s.
Proof.
  intros HL H E. unfold string_at. rewrite (at_key_fields _ _ _ _ H E). cbn.
  by rewrite string_get.
Qed.

Lemma bool_at_fields j l k b : JsonLaws JL → fields j l →
  assoc k l = Some (j_bool b) → bool_at j k = success b.
Proof.
  intros HL H E. unfold bool_at. rewrite (at_key_fields _ _ _ _ H E). cbn. by rewrite bool_get.
Qed.

Lemma unsigned_uint n : JsonLaws JL → n < 2 ^ 64 → unsigned_value (j_uint n) = Some n.
Proof. intros HL Hn. unfold unsigned_value. by rewrite uint_is_unsigned, uint_get. Qed.

Lemma bounded_uint n maximum : JsonLaws JL → n < 2 ^ 64 → n ≤ maximum →
  bounded_unsigned (j_uint n) maximum = Some n.
Proof.
  intros HL Hn Hm. unfold bounded_unsigned. rewrite unsigned_uint by done.
  by rewrite (proj2 (N.ltb_ge _ _) Hm).
Qed.

Lemma bounded_unsigned_le j maximum n : bounded_unsigned j maximum = Some n → n ≤ maximum.
Proof.
  unfold bounded_unsigned. destruct (unsigned_value j); [|done]. case_match eqn:E; [done|].
  intros [= <-]. by apply N.ltb_ge in E.
Qed.

Lemma parse_sequence_string n : JsonLaws JL → 0 < n → n < 2 ^ 64 →
  parse_input_sequence (j_string (to_string n)) = Some n.
Proof.
  intros HL H0 Hn. unfold parse_input_sequence. rewrite string_is_string, string_get. cbn [negb].
  by apply parse_to_string.
Qed.
End fields.

(** Compute the members of an object literal. *)
Ltac assoc_cbn := cbn [assoc String.eqb Ascii.eqb Bool.eqb has_value negb andb orb
  length Nat.eqb forallb mbind result_bind or_else].

(** Evaluate the reads of the object [j], whose members [H : fields j l] lists. *)
Ltac read_fields H :=
  repeat first
    [ rewrite (exact_keys_fields _ _ _ H)
    | rewrite (fields_object _ _ H)
    | rewrite (fields_contains _ _ H)
    | erewrite (test_at_fields _ _ _ _ _ H) by reflexivity
    | erewrite (string_at_fields _ _ _ _ _ H) by reflexivity
    | erewrite (bool_at_fields _ _ _ _ _ H) by reflexivity
    | erewrite (at_key_fields _ _ _ _ H) by reflexivity ];
  assoc_cbn.

(** Name the object literal whose first member is [k], and its members. *)
Ltac name_object k j H :=
  match goal with |- context [j_object ((k, ?v) :: ?l)] =>
    pose proof (fields_j_object ((k, v) :: l) eq_refl) as H;
    set (j := j_object ((k, v) :: l)) in *; clearbody j
  end.
