(* ===== verification/Lineage.v ===== *)
(** Asset Lineage: where the sound of an Asset comes from.

    Models the Asset Lineage functions of packages/authoring-domain/src/project.cpp:
    the kinds, the validator and the JSON codec. *)

From S2P Require Import Prelude Json Foundation Text Project Fields.

(** ** Kinds *)

Inductive AssetLineageSourceKind := kind_asset_artifact | kind_soundset.
Inductive AssetLineageDerivationKind :=
  | kind_resample | kind_soundset_install | kind_capability_adoption.

#[export] Instance AssetLineageDerivationKind_eq_dec : EqDecision AssetLineageDerivationKind.
Proof. solve_decision. Defined.

Definition asset_lineage_source_kind (l : AssetLineage) : AssetLineageSourceKind :=
  match lineage_source l with
  | soundset_source _ => kind_soundset
  | asset_artifact_source _ => kind_asset_artifact
  end.

Definition asset_lineage_derivation_kind (l : AssetLineage) : AssetLineageDerivationKind :=
  match lineage_derivation l with
  | capability_adoption_derivation _ => kind_capability_adoption
  | soundset_install_derivation => kind_soundset_install
  | resample_derivation _ => kind_resample
  end.

Section lineage.
Context `{JL : JsonLib}.

(** ** Validation *)

Definition invalid_asset_lineage {A} (m : string) : Result A :=
  failure (plain_error invalid_argument m).

Definition valid_identity (i : ImplementationLineageIdentity) : bool :=
  negb (bool_decide (implementation_id i = "")) &&
  negb (bool_decide (implementation_version i = "")) &&
  valid_sha256 (implementation_artifact_sha256 i).

Definition attempt_char (c : ascii) : bool :=
  char_in c "a" "z" || char_in c "A" "Z" || char_in c "0" "9" ||
  ascii_eqb c "." || ascii_eqb c "_" || ascii_eqb c "-".

Definition valid_attempt (id : string) : bool :=
  negb (bool_decide (id = "")) && (Nat.leb (String.length id) 128) &&
  forallb attempt_char (chars id).

Definition kMaximumFrame : N := 9007199254740991.

Definition validate_source (s : AssetLineageSource) : Result () :=
  match s with
  | asset_artifact_source a =>
      if negb (valid_sha256 (source_artifact_sha256 a)) then
        invalid_asset_lineage "asset Lineage source digest must be lowercase SHA-256"
      else success ()
  | soundset_source s =>
      if negb (is_valid_uuid (source_set_id s)) then
        invalid_asset_lineage "asset Lineage Sound Set id must be a lowercase UUID"
      else if negb (valid_soundset_semver (source_set_version s)) then
        invalid_asset_lineage "asset Lineage Sound Set version must be SemVer"
      else if negb (valid_sha256 (source_manifest_sha256 s)) ||
              negb (valid_sha256 (source_set_artifact_sha256 s)) then
        invalid_asset_lineage "asset Lineage source digest must be lowercase SHA-256"
      else if kSoundSetSlotCount <=? source_slot_index s then
        invalid_asset_lineage "asset Lineage Sound Set slot index is out of range"
      else success ()
  end.

Definition adoption_invalid (s : AssetLineageSource) (a : CapabilityAdoptionLineageDerivation) :
    bool :=
  negb (match s with asset_artifact_source _ => true | _ => false end) ||
  negb (bool_decide (capability_id (adoption_capability a) = "sample.slice.v1")) ||
  negb (bool_decide (capability_contract (adoption_capability a) = "lmdj.capability.v2")) ||
  negb (valid_soundset_semver (capability_version (adoption_capability a))) ||
  negb (valid_identity (adoption_provider a)) ||
  negb (valid_soundset_semver (implementation_version (adoption_provider a))) ||
  match adoption_model_identity a with Some m => negb (valid_identity m) | None => false end ||
  negb (valid_sha256 (adoption_parameters_sha256 a)) ||
  negb (valid_attempt (value (adoption_attempt_id a))) ||
  negb (is_valid_uuid (value (adoption_source_asset_id a))) ||
  negb (valid_sha256 (sha256 (adoption_output_artifact a))) ||
  negb (bool_decide (media_type (adoption_output_artifact a) = "application/json")) ||
  (byte_length (adoption_output_artifact a) =? 0) ||
  (262144 <? byte_length (adoption_output_artifact a)) ||
  (recipe_end_frame (adoption_recipe a) <=? recipe_start_frame (adoption_recipe a)) ||
  (kMaximumFrame <? recipe_end_frame (adoption_recipe a)) ||
  (negb (recipe_frame_rate (adoption_recipe a) =? 44100) &&
   negb (recipe_frame_rate (adoption_recipe a) =? 48000)).

Definition validate_derivation (s : AssetLineageSource) (d : AssetLineageDerivation) : Result () :=
  match d with
  | resample_derivation r =>
      if negb (is_valid_uuid (value (resample_performance_id r))) then
        invalid_asset_lineage "asset Lineage Performance id must be a lowercase UUID"
      else if range_end_frame (resample_range r) <=? range_start_frame (resample_range r) then
        invalid_asset_lineage "asset Lineage frame range must be non-empty and increasing"
      else success ()
  | capability_adoption_derivation a =>
      if adoption_invalid s a then
        invalid_asset_lineage "capability adoption evidence is invalid"
      else success ()
  | soundset_install_derivation => success ()
  end.

Definition validate_asset_lineage (l : AssetLineage) : Result () :=
  _ ← validate_source (lineage_source l);
  validate_derivation (lineage_source l) (lineage_derivation l).

(** ** Encoding *)

Definition asset_lineage_source_json (s : AssetLineageSource) : json :=
  match s with
  | asset_artifact_source a =>
      j_object [("kind", j_string "asset_artifact");
                ("artifact_sha256", j_string (source_artifact_sha256 a));
                ("project_revision", j_uint (source_project_revision a))]
  | soundset_source s =>
      j_object [("kind", j_string "soundset");
                ("set_id", j_string (source_set_id s));
                ("set_version", j_string (source_set_version s));
                ("manifest_sha256", j_string (source_manifest_sha256 s));
                ("slot_index", j_uint (source_slot_index s));
                ("artifact_sha256", j_string (source_set_artifact_sha256 s))]
  end.

Definition identity_json (i : ImplementationLineageIdentity) : json :=
  j_object [("id", j_string (implementation_id i));
            ("version", j_string (implementation_version i));
            ("artifact_sha256", j_string (implementation_artifact_sha256 i))].

Definition capability_json (c : CapabilityLineageIdentity) : json :=
  j_object [("id", j_string (capability_id c)); ("contract", j_string (capability_contract c));
            ("version", j_string (capability_version c))].

Definition recipe_json (r : SliceIntervalRecipe) : json :=
  j_object [("kind", j_string "slice_interval_v1");
            ("start_frame", j_uint (recipe_start_frame r));
            ("end_frame", j_uint (recipe_end_frame r));
            ("frame_rate", j_uint (recipe_frame_rate r))].

Definition asset_lineage_derivation_json (d : AssetLineageDerivation) : json :=
  match d with
  | resample_derivation r =>
      j_object [("kind", j_string "resample");
                ("range", j_object [("start_frame", j_uint (range_start_frame (resample_range r)));
                                    ("end_frame", j_uint (range_end_frame (resample_range r)))]);
                ("performance_id", j_string (value (resample_performance_id r)))]
  | capability_adoption_derivation a =>
      j_object [("kind", j_string "capability_adoption");
                ("capability", capability_json (adoption_capability a));
                ("provider", identity_json (adoption_provider a));
                ("model_identity", match adoption_model_identity a with
                                   | Some m => identity_json m | None => j_null end);
                ("parameters_sha256", j_string (adoption_parameters_sha256 a));
                ("attempt_id", j_string (value (adoption_attempt_id a)));
                ("source_asset_id", j_string (value (adoption_source_asset_id a)));
                ("output_artifact",
                  j_object [("sha256", j_string (sha256 (adoption_output_artifact a)));
                            ("media_type", j_string (media_type (adoption_output_artifact a)));
                            ("byte_length", j_uint (byte_length (adoption_output_artifact a)))]);
                ("recipe", recipe_json (adoption_recipe a))]
  | soundset_install_derivation => j_object [("kind", j_string "soundset_install")]
  end.

Definition asset_lineage_json (l : AssetLineage) : json :=
  j_object [("source", asset_lineage_source_json (lineage_source l));
            ("derivation", asset_lineage_derivation_json (lineage_derivation l))].

(** ** Decoding *)

(** A condition of the decoder, whose operands may throw; a true one refuses. *)
Definition refuse_if {A} (bad : Result bool) (m : string) (k : Result A) : Result A :=
  b ← bad; if b : bool then invalid_asset_lineage m else k.

Definition not_ (r : Result bool) : Result bool := b ← r; success (negb b).
Definition pure (b : bool) : Result bool := success b.

Definition decode_source (source : json) (source_kind : string) : Result AssetLineageSource :=
  if String.eqb source_kind "asset_artifact" then
    refuse_if
      (or_else (pure (negb (exact_object_keys source
                              ["kind"; "artifact_sha256"; "project_revision"])))
         (not_ (test_at source "artifact_sha256" is_string)))
      "asset Lineage source shape or value is invalid"
      (r ← at_key source "project_revision";
       match unsigned_value r with
       | None => invalid_asset_lineage "asset Lineage integer value is invalid"
       | Some project_revision =>
           s ← string_at source "artifact_sha256";
           success (asset_artifact_source (MkAssetArtifactLineageSource s project_revision))
       end)
  else if String.eqb source_kind "soundset" then
    refuse_if
      (or_else (pure (negb (exact_object_keys source
          ["kind"; "set_id"; "set_version"; "manifest_sha256"; "slot_index"; "artifact_sha256"])))
      (or_else (not_ (test_at source "set_id" is_string))
      (or_else (not_ (test_at source "set_version" is_string))
      (or_else (not_ (test_at source "manifest_sha256" is_string))
               (not_ (test_at source "artifact_sha256" is_string))))))
      "asset Lineage source shape or value is invalid"
      (i ← at_key source "slot_index";
       match bounded_unsigned i (kSoundSetSlotCount - 1) with
       | None => invalid_asset_lineage "asset Lineage integer value is invalid"
       | Some slot_index =>
           set_id ← string_at source "set_id";
           set_version ← string_at source "set_version";
           manifest ← string_at source "manifest_sha256";
           artifact ← string_at source "artifact_sha256";
           success (soundset_source
             (MkSoundSetLineageSource set_id set_version manifest (wrap 8 slot_index) artifact))
       end)
  else invalid_asset_lineage "asset Lineage source shape or value is invalid".

Definition decode_identity (v : json) : Result ImplementationLineageIdentity :=
  if negb (exact_object_keys v ["id"; "version"; "artifact_sha256"]) then thrown
  else
    i ← string_at v "id"; ver ← string_at v "version"; a ← string_at v "artifact_sha256";
    success (MkImplementationLineageIdentity i ver a).

Definition decode_adoption (derivation : json) : Result AssetLineageDerivation :=
  capability ← at_key derivation "capability";
  output ← at_key derivation "output_artifact";
  recipe ← at_key derivation "recipe";
  refuse_if
    (or_else (pure (negb (exact_object_keys derivation
        ["kind"; "capability"; "provider"; "model_identity"; "parameters_sha256"; "attempt_id";
         "source_asset_id"; "output_artifact"; "recipe"])))
    (or_else (pure (negb (exact_object_keys capability ["id"; "contract"; "version"])))
    (or_else (pure (negb (exact_object_keys output ["sha256"; "media_type"; "byte_length"])))
    (or_else (pure (negb (exact_object_keys recipe
                            ["kind"; "start_frame"; "end_frame"; "frame_rate"])))
             (not_ (test_at recipe "kind" (λ k, j_eq_string k "slice_interval_v1")))))))
    "capability adoption shape is invalid"
    (start ← at_key recipe "start_frame";
     end_ ← at_key recipe "end_frame";
     rate ← at_key recipe "frame_rate";
     len ← at_key output "byte_length";
     match unsigned_value start, unsigned_value end_, bounded_unsigned rate 48000,
           unsigned_value len with
     | Some start, Some end_, Some rate, Some len =>
         m ← at_key derivation "model_identity";
         model ← (if is_null m then success None
                  else i ← decode_identity m; success (Some i));
         cid ← string_at capability "id";
         contract ← string_at capability "contract";
         version ← string_at capability "version";
         p ← at_key derivation "provider";
         provider ← decode_identity p;
         parameters ← string_at derivation "parameters_sha256";
         attempt ← string_at derivation "attempt_id";
         source_asset ← string_at derivation "source_asset_id";
         out_sha ← string_at output "sha256";
         out_media ← string_at output "media_type";
         success (capability_adoption_derivation
           (MkCapabilityAdoption (MkCapabilityLineageIdentity cid contract version)
              provider model parameters (MkId attempt) (MkId source_asset)
              (MkArtifactRef out_sha out_media len)
              (MkSliceIntervalRecipe start end_ (wrap 32 rate))))
     | _, _, _, _ => invalid_asset_lineage "capability adoption integer is invalid"
     end).

Definition decode_derivation (derivation : json) (derivation_kind : string) :
    Result AssetLineageDerivation :=
  if String.eqb derivation_kind "resample" then
    refuse_if
      (or_else (pure (negb (exact_object_keys derivation ["kind"; "range"; "performance_id"])))
         (not_ (test_at derivation "performance_id" is_string)))
      "asset Lineage derivation shape or value is invalid"
      (range ← at_key derivation "range";
       if negb (exact_object_keys range ["start_frame"; "end_frame"]) then
         invalid_asset_lineage "asset Lineage range shape is invalid"
       else
         s ← at_key range "start_frame";
         e ← at_key range "end_frame";
         match unsigned_value s, unsigned_value e with
         | Some start_frame, Some end_frame =>
             id ← string_at derivation "performance_id";
             success (resample_derivation
               (MkResampleLineageDerivation (MkResampleFrameRange start_frame end_frame)
                  (MkId id)))
         | _, _ => invalid_asset_lineage "asset Lineage integer value is invalid"
         end)
  else if String.eqb derivation_kind "capability_adoption" then decode_adoption derivation
  else if String.eqb derivation_kind "soundset_install" then
    if negb (exact_object_keys derivation ["kind"]) then
      invalid_asset_lineage "asset Lineage derivation shape or value is invalid"
    else success soundset_install_derivation
  else invalid_asset_lineage "asset Lineage derivation shape or value is invalid".

(** [!value.is_object() || !value.contains("kind") || !value.at("kind").is_string()]. *)
Definition lacks_kind (v : json) : Result bool :=
  or_else (pure (negb (is_object v)))
  (or_else (pure (negb (j_contains v "kind"))) (not_ (test_at v "kind" is_string))).

Definition decode_lineage (input : json) : Result AssetLineage :=
  if negb (exact_object_keys input ["source"; "derivation"]) then
    invalid_asset_lineage "asset Lineage must contain exact source and derivation objects"
  else
    source ← at_key input "source";
    derivation ← at_key input "derivation";
    refuse_if (or_else (lacks_kind source) (lacks_kind derivation))
      "asset Lineage must declare a supported source and derivation kind"
      (source_kind ← string_at source "kind";
       derivation_kind ← string_at derivation "kind";
       parsed_source ← decode_source source source_kind;
       parsed_derivation ← decode_derivation derivation derivation_kind;
       let lineage := MkAssetLineage parsed_source parsed_derivation in
       _ ← validate_asset_lineage lineage;
       success lineage).

Definition asset_lineage_from_json (input : json) : Result AssetLineage :=
  catching (invalid_asset_lineage "asset Lineage shape or value is invalid")
    (decode_lineage input).
End lineage.

(** ** Lemmas *)

(** The numbers of a Lineage fit the width of their fields. *)
Definition lineage_width (l : AssetLineage) : Prop :=
  match lineage_source l with
  | asset_artifact_source a => source_project_revision a < 2 ^ 64
  | soundset_source _ => True
  end ∧
  match lineage_derivation l with
  | resample_derivation r =>
      range_start_frame (resample_range r) < 2 ^ 64 ∧ range_end_frame (resample_range r) < 2 ^ 64
  | _ => True
  end.

Section lineage_lemmas.
Context `{JL : JsonLib}.

Lemma validate_asset_lineage_inv l : validate_asset_lineage l = success () ↔
  validate_source (lineage_source l) = success () ∧
  validate_derivation (lineage_source l) (lineage_derivation l) = success ().
Proof.
  unfold validate_asset_lineage. rewrite result_bind_success.
  split; [by intros ([] & ? & ?)|intros [? ?]; eauto].
Qed.

Lemma validate_asset_lineage_no_throw l : validate_asset_lineage l ≠ thrown.
Proof.
  unfold validate_asset_lineage, validate_source, validate_derivation.
  destruct (lineage_source l); cbn [mbind result_bind]; repeat (case_match; try done);
    simplify_eq/=; done.
Qed.

Lemma adoption_numbers s a : adoption_invalid s a = false →
  byte_length (adoption_output_artifact a) < 2 ^ 64 ∧
  recipe_start_frame (adoption_recipe a) < 2 ^ 64 ∧
  recipe_end_frame (adoption_recipe a) < 2 ^ 64 ∧
  recipe_frame_rate (adoption_recipe a) ≤ 48000.
Proof.
  unfold adoption_invalid, kMaximumFrame. intros H.
  repeat match goal with H : _ || _ = false |- _ => apply orb_false_iff in H as [? ?] end.
  u_lia.
Qed.

Context `{!JsonLaws JL}.

Lemma lacks_kind_fields v l k : fields v l → assoc "kind" l = Some (j_string k) →
  lacks_kind v = success false.
Proof.
  intros H E. unfold lacks_kind, pure, not_.
  rewrite (fields_object _ _ H), (fields_contains _ _ H), (test_at_fields _ _ _ _ _ H E), E.
  cbn. by rewrite string_is_string.
Qed.

Lemma decode_source_json s : validate_source s = success () →
  match s with asset_artifact_source a => source_project_revision a < 2 ^ 64 | _ => True end →
  decode_source (asset_lineage_source_json s)
    match s with asset_artifact_source _ => "asset_artifact" | _ => "soundset" end = success s.
Proof.
  intros Hv Hw. destruct s as [[sha rev]|[si sv ms ix sa]]; cbn [asset_lineage_source_json];
    name_object "kind" j H; unfold decode_source, refuse_if, pure, not_; assoc_cbn.
  - read_fields H. rewrite string_is_string. assoc_cbn. cbn in Hw. by rewrite unsigned_uint.
  - assert (ix < 16) as Hix.
    { cbn in Hv. repeat (case_match; try done). bool_to_prop. unfold kSoundSetSlotCount in *. lia. }
    read_fields H. rewrite !string_is_string. assoc_cbn.
        cbn [source_slot_index].
    rewrite bounded_uint by (done || unfold kSoundSetSlotCount; u_lia). assoc_cbn.
    by rewrite wrap_small by (simpl; u_lia).
Qed.

Lemma decode_identity_json i : decode_identity (identity_json i) = success i.
Proof.
  destruct i as [a b c]. unfold identity_json, decode_identity.
  name_object "id" j H. read_fields H. done.
Qed.

Lemma identity_json_not_null i : is_null (identity_json i) = false.
Proof. apply object_not_null. Qed.

Lemma decode_adoption_json s a : adoption_invalid s a = false →
  decode_adoption (asset_lineage_derivation_json (capability_adoption_derivation a)) =
    success (capability_adoption_derivation a).
Proof.
  intros (Hlen & Hstart & Hend & Hrate)%adoption_numbers.
  destruct a as [[c1 c2 c3] p m ps [at_] [sa] [o1 o2 o3] [r1 r2 r3]].
  cbn [asset_lineage_derivation_json capability_json recipe_json adoption_capability
    adoption_output_artifact adoption_recipe capability_id capability_contract capability_version
    sha256 media_type byte_length recipe_start_frame recipe_end_frame recipe_frame_rate
    adoption_provider adoption_model_identity adoption_parameters_sha256 adoption_attempt_id
    adoption_source_asset_id value] in *.
  unfold capability_json, recipe_json. cbn [capability_id capability_contract capability_version
    recipe_start_frame recipe_end_frame recipe_frame_rate].
  name_object "id" cap Hc. name_object "sha256" out Ho.
  match goal with |- context [("recipe", j_object ?l)] =>
    pose proof (fields_j_object l eq_refl) as Hr; set (rec := j_object l) in *; clearbody rec end.
  name_object "kind" der Hd.
  unfold decode_adoption, refuse_if, pure, not_.
  read_fields Hd. read_fields Hc. read_fields Ho. read_fields Hr.
  rewrite string_eq, bool_decide_eq_true_2 by done. assoc_cbn.
  rewrite !unsigned_uint, bounded_uint by (done || u_lia). assoc_cbn.
  rewrite decode_identity_json, wrap_small by (simpl; u_lia).
  destruct m as [m|]; rewrite ?null_is_null, ?identity_json_not_null, ?decode_identity_json; done.
Qed.

Lemma decode_derivation_json s d : validate_derivation s d = success () →
  match d with
  | resample_derivation r =>
      range_start_frame (resample_range r) < 2 ^ 64 ∧ range_end_frame (resample_range r) < 2 ^ 64
  | _ => True
  end →
  decode_derivation (asset_lineage_derivation_json d)
    match d with
    | resample_derivation _ => "resample"
    | capability_adoption_derivation _ => "capability_adoption"
    | soundset_install_derivation => "soundset_install"
    end = success d.
Proof.
  intros Hv Hw. destruct d as [[[r1 r2] [id]]| |a].
  - destruct Hw as [H1 H2]. cbn [asset_lineage_derivation_json resample_range range_start_frame
      range_end_frame resample_performance_id value] in *.
    name_object "start_frame" rng Hr. name_object "kind" der Hd.
    unfold decode_derivation, refuse_if, pure, not_. assoc_cbn.
    read_fields Hd. rewrite string_is_string. assoc_cbn. read_fields Hr.
    by rewrite !unsigned_uint.
  - unfold decode_derivation. assoc_cbn. cbn [asset_lineage_derivation_json].
    name_object "kind" der Hd. by read_fields Hd.
  - unfold decode_derivation. assoc_cbn. eapply decode_adoption_json.
    cbn in Hv. by destruct (adoption_invalid s a) eqn:E.
Qed.
End lineage_lemmas.

(** ** Properties *)

(** A valid Asset Lineage, encoded and decoded, is the same Lineage. *)
Theorem lineage_roundtrip `{JL : JsonLib} `{!JsonLaws JL} l
    (Hv : validate_asset_lineage l = success ()) (Hw : lineage_width l) :
  asset_lineage_from_json (asset_lineage_json l) = success l.
Proof.
  pose proof (proj1 (validate_asset_lineage_inv l) Hv) as [Hs Hd].
  destruct l as [s d], Hw as [Hws Hwd]. cbn [lineage_source lineage_derivation] in *.
  unfold asset_lineage_json. cbn [lineage_source lineage_derivation].
  pose proof (decode_source_json s Hs Hws) as Es.
  pose proof (decode_derivation_json s d Hd Hwd) as Ed.
  set (js := asset_lineage_source_json s) in *. set (jd := asset_lineage_derivation_json d) in *.
  assert (lacks_kind js = success false ∧ string_at js "kind" =
    success match s with asset_artifact_source _ => "asset_artifact" | _ => "soundset" end)
    as [Ls Ks].
  { subst js. destruct s; cbn [asset_lineage_source_json]; name_object "kind" j H;
      (split; [by eapply lacks_kind_fields|by eapply string_at_fields]). }
  assert (lacks_kind jd = success false ∧ string_at jd "kind" =
    success match d with
    | resample_derivation _ => "resample"
    | capability_adoption_derivation _ => "capability_adoption"
    | soundset_install_derivation => "soundset_install" end) as [Ld Kd].
  { subst jd. destruct d; cbn [asset_lineage_derivation_json]; name_object "kind" j H;
      (split; [by eapply lacks_kind_fields|by eapply string_at_fields]). }
  clearbody js jd. name_object "source" obj Ht.
  unfold asset_lineage_from_json, decode_lineage, refuse_if.
  read_fields Ht. rewrite Ls. assoc_cbn. rewrite Ld. assoc_cbn. rewrite Ks, Kd. assoc_cbn.
  rewrite Es, Ed. assoc_cbn. by rewrite Hv.
Qed.

Definition example_adoption : AssetLineage :=
  MkAssetLineage
    (asset_artifact_source (MkAssetArtifactLineageSource
       "0123456789abcdef0123456789abcdef0123456789abcdef0123456789abcdef" 12))
    (capability_adoption_derivation (MkCapabilityAdoption
       (MkCapabilityLineageIdentity "sample.slice.v1" "lmdj.capability.v2" "1.0.0")
       (MkImplementationLineageIdentity "local.slice" "1.2.0"
          "0123456789abcdef0123456789abcdef0123456789abcdef0123456789abcdef")
       None "00000000000000000000000000000000000000000000000000000000000000ff"
       (MkId "attempt-7.a_B") (MkId "0a1b2c3d-4e5f-4061-8283-94a5b6c7d8e9")
       (MkArtifactRef "1111111111111111111111111111111111111111111111111111111111111111"
          "application/json" 512)
       (MkSliceIntervalRecipe 0 24000 48000))).

Lemma lineage_roundtrip_witness :
  asset_lineage_from_json (JL := dom_lib) (asset_lineage_json (JL := dom_lib) example_adoption) =
    success example_adoption.
Proof. apply (lineage_roundtrip (JL := dom_lib) example_adoption); [reflexivity|split; reflexivity]. Defined.

(** The Lineage decoder is total: it never lets an exception out, and what it
    accepts is a Lineage the validator accepts. *)
Theorem lineage_decoder_total `{JL : JsonLib} input :
  asset_lineage_from_json input ≠ thrown ∧
  ∀ l, asset_lineage_from_json input = success l → validate_asset_lineage l = success ().
Proof.
  unfold asset_lineage_from_json. split.
  - by destruct (decode_lineage input).
  - intros l. destruct (decode_lineage input) as [l'| |] eqn:E; cbn [catching]; [|done..].
    intros [= ->]. unfold decode_lineage, refuse_if in E. case_match; [done|].
    repeat (apply result_bind_success in E as (? & ? & E)). case_match; [done|].
    repeat (apply result_bind_success in E as (? & ? & E)).
    match goal with u : () |- _ => destruct u end. congruence.
Qed.
