(* ===== verification/Soundset.v ===== *)
(** Sound Set manifests.

    Models packages/foundation/src/soundset_manifest.cpp and json.cpp: the
    manifest types, the structural parser and the license eligibility check.
    The regular expressions of the source are values of a small matcher; the
    JSON text parser and printer of the library are parameters. *)

From S2P Require Import Prelude Json Foundation Text Fields.

(** ** Regular expressions

    The part of the ECMAScript syntax that the source uses, matched against the
    whole string by derivatives. *)

Inductive regex :=
  | Never
  | Empty
  | Chars (p : ascii → bool)
  | Cat (r s : regex)
  | Alt (r s : regex)
  | Star (r : regex).

Fixpoint nullable (r : regex) : bool :=
  match r with
  | Never => false
  | Empty => true
  | Chars _ => false
  | Cat r s => nullable r && nullable s
  | Alt r s => nullable r || nullable s
  | Star _ => true
  end.

Fixpoint derive (c : ascii) (r : regex) : regex :=
  match r with
  | Never | Empty => Never
  | Chars p => if p c then Empty else Never
  | Cat r s => if nullable r then Alt (Cat (derive c r) s) (derive c s) else Cat (derive c r) s
  | Alt r s => Alt (derive c r) (derive c s)
  | Star r => Cat (derive c r) (Star r)
  end.

Definition matches (r : regex) (text : list ascii) : bool :=
  nullable (foldl (λ r c, derive c r) r text).

(** [std::regex_match]. *)
Definition regex_match (s : string) (r : regex) : bool := matches r (chars s).

Definition one_char (c : ascii) : regex := Chars (ascii_eqb c).

Fixpoint repeat_regex (n : nat) (r : regex) : regex :=
  match n with O => Empty | S n' => Cat r (repeat_regex n' r) end.

Definition hex_digit : regex := Chars is_lower_hex.

Definition kUuid : regex :=
  Cat (repeat_regex 8 hex_digit) (Cat (one_char "-")
  (Cat (repeat_regex 4 hex_digit) (Cat (one_char "-")
  (Cat (Chars (λ c, char_in c "1" "5")) (Cat (repeat_regex 3 hex_digit) (Cat (one_char "-")
  (Cat (Chars (λ c, ascii_eqb c "8" || ascii_eqb c "9" || ascii_eqb c "a" || ascii_eqb c "b"))
  (Cat (repeat_regex 3 hex_digit) (Cat (one_char "-") (repeat_regex 12 hex_digit)))))))))).

Definition semver_number : regex :=
  Alt (one_char "0") (Cat (Chars (λ c, char_in c "1" "9")) (Star (Chars is_digit))).

Definition kSemver : regex :=
  Cat semver_number (Cat (one_char ".") (Cat semver_number (Cat (one_char ".") semver_number))).

Definition kSha256 : regex := repeat_regex 64 hex_digit.

(** ** The manifest *)

Definition kSoundSetContract : string := "lmdj.soundset.v1".

Definition kSoundSetRoles : list string :=
  ["kick"; "snare"; "clap"; "hat_closed"; "hat_open"; "perc"; "cymbal"; "bass"; "melody";
   "chord"; "vocal"; "fx"; "other"].

Definition kSoundSetSpdxAllowlist : list string := ["CC0-1.0"; "CC-BY-4.0"].

Record SoundSetLicense := MkSoundSetLicense {
  spdx_id : string;
  rights_holder : string;
  copyright : string;
  attribution : string
}.

Record SoundSetOccupiedSlot := MkSoundSetOccupiedSlot {
  role : string;
  occupied_name : string;
  occupied_artifact : ArtifactRef;
  occupied_bpm : option Z;
  occupied_key : option string
}.

Record SoundSetSlot := MkSoundSetSlot {
  index : Z;
  occupied : option SoundSetOccupiedSlot
}.

Record SoundSetManifest := MkSoundSetManifest {
  set_id : string;
  version : string;
  manifest_name : string;
  publisher : string;
  description : option string;
  manifest_bpm : option Z;
  manifest_key : option string;
  license : SoundSetLicense;
  demo : option ArtifactRef;
  slots : list SoundSetSlot;
  canonical_bytes : string
}.

Record CatalogLicenseSummary := MkCatalogLicenseSummary {
  summary_spdx_id : string;
  summary_rights_holder : string
}.

Section soundset.
Context `{JL : JsonLib}.

Definition reason_error (c : ErrorCode) (reason : string) (m : string) : Error :=
  MkError _ c m (j_object [("reason", j_string reason)]).
Definition manifest_invalid {A} (m : string) : Result A :=
  failure (reason_error invalid_argument "soundset_manifest_invalid" m).
Definition slot_invalid {A} (m : string) : Result A :=
  failure (reason_error invalid_argument "soundset_slot_invalid" m).
Definition license_ineligible {A} (m : string) : Result A :=
  failure (reason_error permission_denied "soundset_license_ineligible" m).

Definition has_only_keys (input : json) (required optional : list string) : bool :=
  if negb (is_object input) then false
  else if negb (forallb (j_contains input) required) then false
  else forallb (λ key, bool_decide (key ∈ required) || bool_decide (key ∈ optional))
         (j_entries input).*1.

Definition is_nonempty_string (v : json) : bool :=
  is_string v && negb (bool_decide (get_string v = Some "")).

Definition kInt64Max : N := 9223372036854775807.

Definition integer_value (v : json) : option Z :=
  if negb (is_number_integer v) then None
  else if is_number_unsigned v then
    match get_u64 v with
    | Some raw => if kInt64Max <? raw then None else Some (Z.of_N raw)
    | None => None
    end
  else get_i64 v.

Definition bpm_value (v : json) : option Z :=
  match integer_value v with
  | Some bpm => if (bpm <? 40)%Z || (240 <? bpm)%Z then None else Some bpm
  | None => None
  end.

Definition optional_bpm (object : json) (key : string) : Result (option Z) :=
  if negb (j_contains object key) then success None
  else v ← at_key object key; success (bpm_value v).

Definition known_role (r : string) : bool := bool_decide (r ∈ kSoundSetRoles).

(** A check of a member, and the refusal when it does not hold. *)
Definition require {A} (ok : Result bool) (refusal k : Result A) : Result A :=
  b ← ok; if b : bool then k else refusal.

Definition both (a b : Result bool) : Result bool := x ← a; if x : bool then b else success false.

Definition matches_at (input : json) (key : string) (r : regex) : Result bool :=
  both (test_at input key is_string) (s ← string_at input key; success (regex_match s r)).

Definition parse_artifact (input : json) : Result ArtifactRef :=
  if negb (exact_object_keys input ["sha256"; "media_type"; "byte_length"]) then
    manifest_invalid "artifact ref keys must be sha256, media_type, byte_length"
  else
    require (matches_at input "sha256" kSha256)
      (manifest_invalid "artifact sha256 must be 64 lowercase hex characters")
    (require (test_at input "media_type" is_nonempty_string)
      (manifest_invalid "artifact media_type must be a non-empty string")
    (require (test_at input "byte_length" (λ v,
                is_number_unsigned v &&
                match get_u64 v with Some n => 1 <=? n | None => false end))
      (manifest_invalid "artifact byte_length must be a positive integer")
      (s ← string_at input "sha256";
       m ← string_at input "media_type";
       b ← at_key input "byte_length";
       n ← throwing (get_u64 b);
       success (MkArtifactRef s m n)))).

Definition parse_license (input : json) : Result SoundSetLicense :=
  if negb (exact_object_keys input ["spdx_id"; "rights_holder"; "copyright"; "attribution"]) then
    manifest_invalid
      "license must contain exactly spdx_id, rights_holder, copyright, attribution"
  else
    require (both (test_at input "spdx_id" is_nonempty_string)
            (both (test_at input "rights_holder" is_nonempty_string)
            (both (test_at input "copyright" is_nonempty_string)
                  (test_at input "attribution" is_string))))
      (manifest_invalid
        "license.spdx_id, rights_holder and copyright must be non-empty strings")
      (a ← string_at input "spdx_id";
       b ← string_at input "rights_holder";
       c ← string_at input "copyright";
       d ← string_at input "attribution";
       success (MkSoundSetLicense a b c d)).

(** An optional member that must pass a test when it is there. *)
Definition optional_test (input : json) (key : string) (test : json → bool) : Result bool :=
  if j_contains input key then test_at input key test else success true.

Definition optional_string (input : json) (key : string) : Result (option string) :=
  if j_contains input key then s ← string_at input key; success (Some s) else success None.

(** The BPM member: absent, or an integer in range. *)
Definition checked_bpm {A} (input : json) (m : string) (k : option Z → Result A) : Result A :=
  if j_contains input "bpm" then
    bpm ← optional_bpm input "bpm";
    match bpm with
    | None => manifest_invalid m
    | Some _ => k bpm
    end
  else k None.

Definition parse_occupied (input : json) (i : Z) : Result SoundSetSlot :=
  if negb (has_only_keys input ["slot"; "role"; "name"; "artifact"] ["bpm"; "key"]) then
    manifest_invalid "occupied slot has unknown or missing keys"
  else
    require (both (test_at input "role" is_nonempty_string)
                  (test_at input "name" is_nonempty_string))
      (slot_invalid "occupied slot role and name must be non-empty strings")
      (r ← string_at input "role";
       if negb (known_role r) then
         slot_invalid "occupied slot role is not in the v1 closed enum"
       else
         require (optional_test input "key" is_nonempty_string)
           (manifest_invalid "occupied slot key must be a non-empty string when present")
           (checked_bpm input "occupied slot bpm must be an integer in 40..240" (λ bpm,
              a ← at_key input "artifact";
              artifact ← parse_artifact a;
              key ← optional_string input "key";
              name ← string_at input "name";
              success (MkSoundSetSlot i
                (Some (MkSoundSetOccupiedSlot r name artifact bpm key)))))).

Definition parse_slot (input : json) : Result SoundSetSlot :=
  require (both (success (is_object input && j_contains input "slot"))
                (test_at input "slot" is_number_integer))
    (slot_invalid "each slot object must contain an integer slot index")
    (v ← at_key input "slot";
     match integer_value v with
     | None => slot_invalid "slot index must be in 0..15"
     | Some raw =>
         if (raw <? 0)%Z || (16 <=? raw)%Z then slot_invalid "slot index must be in 0..15"
         else if exact_object_keys input ["slot"] then success (MkSoundSetSlot raw None)
         else parse_occupied input raw
     end).

(** The loop over the slots: the flags of the seen indices and the slots placed. *)
Definition place_slot (st : list bool * list SoundSetSlot) (entry : json) :
    Result (list bool * list SoundSetSlot) :=
  s ← parse_slot entry;
  let i := Z.to_nat (index s) in
  seen ← throwing (st.1 !! i);
  if seen : bool then slot_invalid "each slot index 0..15 must appear exactly once"
  else success (<[i := true]> st.1, <[i := s]> st.2).

(** The parser after the text checks: [parsed] is the document. *)
Definition parse_manifest (parsed : json) (canonical : string) : Result SoundSetManifest :=
  if negb (has_only_keys parsed
      ["contract"; "set_id"; "version"; "name"; "publisher"; "license"; "slots"]
      ["description"; "bpm"; "key"; "demo"]) then
    manifest_invalid "sound set root has unknown or missing keys"
  else
    require (both (test_at parsed "contract" is_string)
                  (s ← string_at parsed "contract";
                   success (bool_decide (s = kSoundSetContract))))
      (manifest_invalid "contract must be lmdj.soundset.v1")
    (require (matches_at parsed "set_id" kUuid)
      (manifest_invalid "set_id must be a lowercase UUID")
    (require (matches_at parsed "version" kSemver)
      (manifest_invalid "version must be a SemVer string")
    (require (both (test_at parsed "name" is_nonempty_string)
                   (test_at parsed "publisher" is_nonempty_string))
      (manifest_invalid "name and publisher must be non-empty strings")
    (require (optional_test parsed "description" is_nonempty_string)
      (manifest_invalid "description must be a non-empty string when present")
    (require (optional_test parsed "key" is_nonempty_string)
      (manifest_invalid "set key must be a non-empty string when present")
    (checked_bpm parsed "set bpm must be an integer in 40..240" (λ bpm,
       l ← at_key parsed "license";
       license ← parse_license l;
       demo ← (if j_contains parsed "demo"
               then d ← at_key parsed "demo"; a ← parse_artifact d; success (Some a)
               else success None);
       slots ← at_key parsed "slots";
       if negb (is_array slots) || negb (Nat.eqb (j_size slots) 16) then
         slot_invalid "slots must contain exactly 16 entries"
       else
         set_id ← string_at parsed "set_id";
         version ← string_at parsed "version";
         name ← string_at parsed "name";
         publisher ← string_at parsed "publisher";
         description ← optional_string parsed "description";
         key ← optional_string parsed "key";
         placed ← fold_result place_slot
           (replicate 16 false, replicate 16 (MkSoundSetSlot 0 None)) (j_items slots);
         success (MkSoundSetManifest set_id version name publisher description bpm key license
                    demo placed.2 canonical)))))))).

(** ** The text of a manifest *)

(** The third-party parser, refusing containers nested more than a depth deep,
    and the third-party printer. *)
Context (parse_guarded : nat → string → option json) (dump : json → string).

Definition kMaximumJsonContainerDepth : nat := 64.

Definition parse_bounded_json (bytes : string) : option json :=
  parse_guarded kMaximumJsonContainerDepth bytes.

(** [fuel] bounds the container depth, which the parser above limits. *)
Fixpoint canonicalize (fuel : nat) (v : json) : json :=
  match fuel with
  | O => v
  | S fuel' =>
      if is_object v then
        foldl (λ o e, j_set o e.1 (canonicalize fuel' e.2)) (j_object []) (j_entries v)
      else if is_array v then
        foldl (λ a x, j_push_back a (canonicalize fuel' x)) (j_array []) (j_items v)
      else v
  end.

Definition canonical_json (v : json) : string :=
  dump (canonicalize (S kMaximumJsonContainerDepth) v).

Definition parse_soundset_manifest (bytes : string) : Result SoundSetManifest :=
  if negb (valid_utf8 bytes) then
    manifest_invalid "sound set object must be well-formed UTF-8"
  else match parse_bounded_json bytes with
  | None => manifest_invalid "sound set object must be bounded JSON object"
  | Some parsed =>
      if negb (is_object parsed) then
        manifest_invalid "sound set object must be bounded JSON object"
      else
        let canonical := canonical_json parsed in
        if negb (bool_decide (canonical = bytes)) then
          manifest_invalid
            "sound set object must equal canonical_json bytes with no trailing newline"
        else parse_manifest parsed canonical
  end.

(** ** Eligibility *)

Definition spdx_allowed (id : string) : bool := bool_decide (id ∈ kSoundSetSpdxAllowlist).

Definition check_soundset_eligibility (m : SoundSetManifest)
    (catalog_summary : option CatalogLicenseSummary) : Result () :=
  if negb (spdx_allowed (spdx_id (license m))) then
    license_ineligible "spdx_id is not on the v1 Sound Set allowlist"
  else if bool_decide (spdx_id (license m) = "CC-BY-4.0") &&
          bool_decide (attribution (license m) = "") then
    license_ineligible "CC-BY-4.0 requires a non-empty attribution string"
  else match catalog_summary with
  | Some c =>
      if negb (bool_decide (summary_spdx_id c = spdx_id (license m))) ||
         negb (bool_decide (summary_rights_holder c = rights_holder (license m))) then
        license_ineligible
          "catalog license_summary must equal manifest spdx_id and rights_holder"
      else success ()
  | None => success ()
  end.
End soundset.
