(* ===== verification/Playback.v ===== *)
(** Pad playback rules.

    Models [is_valid_playback] and [is_valid_playback_for_source] of
    packages/authoring-domain/src/project.cpp with their helpers. *)

From S2P Require Import Prelude Json Foundation Text Project.

(** ** Validation *)

Definition in_range (v low high : Z) : bool := (low <=? v)%Z && (v <=? high)%Z.

Definition is_valid_eq_kind (kind : EqBandKind) : bool :=
  match kind with EqBandKind.shelf | EqBandKind.cut => true end.

Definition is_valid_eq_shelf (band : option PadEqShelf) (freq_min freq_max : Z) : bool :=
  match band with
  | None => true
  | Some b =>
      is_valid_eq_kind (shelf_kind b) && in_range (shelf_freq_hz b) freq_min freq_max &&
      in_range (shelf_gain_millidb b) kPadEqGainMillidbMin kPadEqGainMillidbMax
  end.

Definition is_valid_tone_playback (p : PadPlayback) : bool :=
  in_range (attack_ms p) 0 kPadAttackMsMax &&
  in_range (release_ms p) 0 kPadReleaseMsMax &&
  in_range (tone p) kPadToneMin kPadToneMax &&
  is_valid_eq_shelf (eq_low (pad_eq p)) kPadEqLowFreqHzMin kPadEqLowFreqHzMax &&
  is_valid_eq_shelf (eq_high (pad_eq p)) kPadEqHighFreqHzMin kPadEqHighFreqHzMax &&
  match eq_mid (pad_eq p) with
  | None => true
  | Some mid =>
      in_range (bell_freq_hz mid) kPadEqMidFreqHzMin kPadEqMidFreqHzMax &&
      in_range (bell_gain_millidb mid) kPadEqGainMillidbMin kPadEqGainMillidbMax &&
      in_range (bell_q_milli mid) kPadEqMidQMilliMin kPadEqMidQMilliMax
  end.

(** The trim end, when there is one, compared with a frame. *)
Definition trim_end_is (p : PadPlayback) (test : N → bool) : bool :=
  match trim_end_frame p with Some e => test e | None => false end.

Definition is_valid_playback (p : PadPlayback) : bool :=
  if negb (is_valid_tone_playback p) then false
  else if negb (match trigger_mode p with
                | TriggerMode.one_shot | TriggerMode.gate
                | TriggerMode.loop_gate | TriggerMode.loop_toggle => true end) then false
  else if negb (match loop_mode p with LoopMode.forward | LoopMode.ping_pong => true end)
  then false
  else if (gain_millidb p <? -60000)%Z || (6000 <? gain_millidb p)%Z ||
          (pitch_cents p <? kPadPitchCentsMin)%Z || (kPadPitchCentsMax <? pitch_cents p)%Z ||
          (pan p <? kPadPanMin)%Z || (kPadPanMax <? pan p)%Z then false
  else if trim_end_is p (λ e, e <=? trim_start_frame p) then false
  else
    let loop_start := value_or (loop_start_frame p) (trim_start_frame p) in
    if (loop_start <? trim_start_frame p) || trim_end_is p (λ e, e <=? loop_start) then false
    else if bool_decide (loop_mode p = LoopMode.ping_pong) &&
            negb (loop_crossfade_frames p =? 0) then false
    else match trim_end_frame p with
    | None => true
    | Some e => loop_crossfade_frames p <=? u64_sub e loop_start / 2
    end.

Definition is_valid_playback_for_source (p : PadPlayback) (source_frames : N) : bool :=
  if negb (is_valid_playback p) then false
  else
    let end_ := value_or (trim_end_frame p) source_frames in
    if (end_ <=? trim_start_frame p) || (source_frames <? end_) then false
    else
      let loop_start := value_or (loop_start_frame p) (trim_start_frame p) in
      (loop_start <? end_) && (loop_crossfade_frames p <=? u64_sub end_ loop_start / 2).

(** ** What the rules promise *)

(** The frames of the loop region when the region ends at [end_]. *)
Record plays_within (p : PadPlayback) (end_ : N) : Prop := {
  within_trim : trim_start_frame p < end_;
  within_loop : trim_start_frame p ≤ value_or (loop_start_frame p) (trim_start_frame p) < end_;
  within_fade : 2 * loop_crossfade_frames p ≤
                  end_ - value_or (loop_start_frame p) (trim_start_frame p)
}.

(** The rules that do not look at frames. *)
Record sound_ranges (p : PadPlayback) : Prop := {
  range_tone : is_valid_tone_playback p = true;
  range_gain : (-60000 ≤ gain_millidb p ≤ 6000)%Z;
  range_pitch : (-2400 ≤ pitch_cents p ≤ 2400)%Z;
  range_pan : (-100 ≤ pan p ≤ 100)%Z;
  range_seam : loop_mode p = LoopMode.ping_pong → loop_crossfade_frames p = 0
}.

(** ** Lemmas *)

Lemma half_le a b : a ≤ b / 2 ↔ 2 * a ≤ b.
Proof. split; intros; dlia. Qed.

(** The ping-pong rule, from the guard that the validator has passed. *)
Ltac seam_tac :=
  intros ?; match goal with
  | H : bool_decide (_ = LoopMode.ping_pong) && _ = false |- _ =>
      apply andb_false_iff in H as [?|?]; bool_to_prop; congruence
  | _ => congruence
  end.

Lemma valid_playback_open p : trim_end_frame p = None →
  is_valid_playback p = true ↔
  sound_ranges p ∧ trim_start_frame p ≤ value_or (loop_start_frame p) (trim_start_frame p).
Proof.
  intros He. unfold is_valid_playback, trim_end_is. rewrite He. cbn zeta.
  unfold kPadPitchCentsMin, kPadPitchCentsMax, kPadPanMin, kPadPanMax. split.
  - intros H. repeat (case_match; try discriminate H); bool_to_prop;
      (split; [split|]; try lia; try done; seam_tac).
  - intros [[Ht Hg Hp Hn Hs] Hl]. rewrite Ht. cbn [negb].
    destruct (trigger_mode p); cbn [negb]; (destruct (loop_mode p) eqn:Em; cbn [negb];
      (case_match; [lia|]); (case_match; [lia|]); try done;
      by rewrite Hs by done).
Qed.

Lemma valid_playback_closed p e : trim_end_frame p = Some e → e < 2 ^ 64 →
  is_valid_playback p = true ↔ sound_ranges p ∧ plays_within p e.
Proof.
  intros He Hw. unfold is_valid_playback, trim_end_is. rewrite He. cbn zeta.
  unfold kPadPitchCentsMin, kPadPitchCentsMax, kPadPanMin, kPadPanMax. split.
  - intros H. repeat (case_match; try discriminate H); bool_to_prop;
      rewrite u64_sub_le, half_le in H by lia;
      (split; split; try lia; try done; seam_tac).
  - intros [[Ht Hg Hp Hn Hs] [Hlt Hl Hf]]. rewrite Ht. cbn [negb].
    rewrite u64_sub_le by lia.
    assert (loop_crossfade_frames p <=? (e - value_or (loop_start_frame p) (trim_start_frame p)) / 2
            = true) as -> by (apply N.leb_le, half_le; done).
    destruct (trigger_mode p); cbn [negb]; (destruct (loop_mode p) eqn:Em; cbn [negb];
      (case_match; [lia|]); (case_match; [lia|]); (case_match; [lia|]); try done;
      by rewrite Hs by done).
Qed.

(** Shared by the open and the closed trim. *)
Lemma valid_for_source_aux p n : n < 2 ^ 64 →
  (∀ e, trim_end_frame p = Some e → e < 2 ^ 64) →
  is_valid_playback_for_source p n = true ↔
  sound_ranges p ∧ plays_within p (value_or (trim_end_frame p) n) ∧
  value_or (trim_end_frame p) n ≤ n.
Proof.
  intros Hn He. unfold is_valid_playback_for_source. cbn zeta.
  destruct (trim_end_frame p) as [e|] eqn:Ee; cbn [value_or].
  - rewrite (and_assoc (sound_ranges p)), <- (valid_playback_closed p e Ee) by eauto.
    specialize (He e eq_refl). destruct (is_valid_playback p) eqn:Ev; cbn [negb]; [|naive_solver].
    apply valid_playback_closed with (e := e) in Ev as [_ [Hlt Hl Hf]]; [|done..].
    rewrite u64_sub_le by lia. split.
    + case_match; [done|]. lia.
    + intros [_ Hle]. case_match; [lia|]. apply andb_true_iff.
      rewrite N.leb_le, half_le. lia.
  - split.
    + intros H. destruct (is_valid_playback p) eqn:Ev; [|done]. cbn [negb] in H.
      apply valid_playback_open in Ev as [Hs Hl]; [|done]. case_match; [done|].
      apply andb_true_iff in H as [Hlt Hf]. rewrite u64_sub_le in Hf by lia.
      apply N.leb_le, half_le in Hf. split_and!; [done| |done]. split; lia.
    + intros (Hs & [Hlt Hl Hf] & _).
      rewrite (proj2 (valid_playback_open p Ee)) by (split; [done|lia]). cbn [negb].
      case_match; [lia|]. rewrite u64_sub_le by lia. apply andb_true_iff.
      rewrite N.leb_le, half_le. lia.
Qed.

Lemma default_playback_valid : is_valid_playback default_playback = true.
Proof. done. Qed.

#[export] Hint Resolve default_playback_valid : lmdj.

(** ** Properties *)

(** A playback is accepted for a source of [n] frames exactly when its
    numbers are in range, its trim is a non-empty part of the source, its loop
    point lies inside the trim, and its crossfade is at most half of the loop
    that ends at the trim end (or at the last frame of the source). *)
Theorem playback_for_source_exact p n (Hn : n < 2 ^ 64)
    (He : ∀ e, trim_end_frame p = Some e → e < 2 ^ 64) :
  is_valid_playback_for_source p n = true ↔
  sound_ranges p ∧ plays_within p (value_or (trim_end_frame p) n) ∧
  value_or (trim_end_frame p) n ≤ n.
Proof. by apply valid_for_source_aux. Qed.

(** A looped Pad with an open trim end on a source of 1000 frames. *)
Definition example_loop : PadPlayback :=
  MkPadPlayback 100 None TriggerMode.loop_gate (-3000) false false 0 0 LoopMode.forward
    (Some 200) 400 0 0 0 (MkPadEq None None None).

Lemma playback_for_source_exact_witness :
  is_valid_playback_for_source example_loop 1000 = true ∧
  plays_within example_loop 1000.
Proof.
  assert (is_valid_playback_for_source example_loop 1000 = true) as H by reflexivity.
  split; [exact H|]. apply playback_for_source_exact in H as (_ & H & _);
    [exact H|reflexivity|intros e; discriminate].
Defined.
