(* ===== verification/Sequence.v ===== *)
(** Patterns and the tick grid.

    Models the Pattern functions of packages/authoring-domain/src/project.cpp
    (pattern length, quantization with swing, duration normalization, merging of
    events, Pattern slots) and [validate_pattern] of command_handler.cpp. *)

From S2P Require Import Prelude Json Foundation Text Project.

(** ** Ticks *)

Definition pattern_length_ticks (bars : N) : N := u32_mul bars kBarTicks4x4.

Definition quantize_onset_tick (raw_tick loop_length_ticks : N) (quantize_enabled : bool)
    (swing_percent : N) : N :=
  if loop_length_ticks =? 0 then 0
  else
    let loop_tick := wrap 32 (raw_tick mod loop_length_ticks) in
    if negb quantize_enabled then loop_tick
    else
      let grid_index :=
        u32_sub (u32_add loop_tick (kSixteenthTicks / 2)) 1 / kSixteenthTicks in
      let quantized := u32_mul grid_index kSixteenthTicks mod loop_length_ticks in
      if (quantized =? 0) || (grid_index mod 2 =? 0) then quantized
      else
        let bounded_swing := clamp swing_percent kSwingPercentMin kSwingPercentMax in
        let pair_start := u32_mul (u32_sub grid_index 1) kSixteenthTicks in
        let quantized := u32_add pair_start
          (u32_add (u32_mul (u32_mul 2 kSixteenthTicks) bounded_swing) 50 / 100) in
        quantized mod loop_length_ticks.

Definition normalize_duration_tick
    (raw_attack_tick raw_release_tick onset_tick loop_length_ticks : N) : N :=
  if (loop_length_ticks =? 0) || (loop_length_ticks <=? onset_tick) then 0
  else
    let remainder := u32_sub loop_length_ticks onset_tick in
    let raw_duration :=
      if raw_attack_tick <? raw_release_tick then u64_sub raw_release_tick raw_attack_tick
      else 1 in
    wrap 32 (clamp raw_duration 1 remainder).

(** ** Merging events *)

(** [std::tuple{slot.bank, slot.pad, onset_tick}]. *)
Definition event_key (e : PatternEvent) : N * N * N :=
  (bank (slot e), pad (slot e), onset_tick e).

Definition event_sort_key (e : PatternEvent) : list N :=
  [onset_tick e; bank (slot e); pad (slot e); duration_tick e; velocity e].

Abbreviation event_map := (gmap (N * N * N) PatternEvent).

Definition insert_or_replace (by_key : event_map) (e : PatternEvent) : event_map :=
  <[event_key e := e]> by_key.

(** The values of the map, sorted by the whole event.  The sort key determines
    the event, so the iteration order of the map does not matter. *)
Definition sorted_events (by_key : event_map) : list PatternEvent :=
  stable_sort event_sort_key (snd <$> map_to_list by_key).

Definition merge_pattern_events (stored incoming : list PatternEvent) : list PatternEvent :=
  let by_key := foldl insert_or_replace ∅ stored in
  let by_key := foldl insert_or_replace by_key incoming in
  sorted_events by_key.

(** ** Pattern slots *)

Section slots.
Context `{JL : JsonLib}.

Definition check_slot (patterns : gmap PatternId Pattern) (occupied : gset PatternId)
    (s : option PatternId) : Result (gset PatternId) :=
  match s with
  | None => success occupied
  | Some id =>
      if negb (is_valid_uuid (value id)) || negb (map_contains patterns id) then
        failure (plain_error invalid_argument
                   "Pattern slot references an invalid or missing Pattern")
      else if bool_decide (id ∈ occupied) then
        failure (plain_error invalid_argument "Pattern occupies more than one Pattern slot")
      else success ({[id]} ∪ occupied)
  end.

Definition validate_pattern_slots (st : ProjectState) : Result () :=
  _ ← fold_result (check_slot (patterns st)) ∅ (pattern_slots st); success ().

(** ** Pattern validation *)

Definition valid_velocity (velocity : N) : bool := (1 <=? velocity) && (velocity <=? 127).

Definition valid_bars (bars : N) : bool :=
  (bars =? 1) || (bars =? 2) || (bars =? 4) || (bars =? 8).

(** The condition under which the loop of [validate_pattern] refuses an event. *)
Definition event_invalid (tick_limit : N) (e : PatternEvent) : bool :=
  negb (is_valid_slot (slot e)) || negb (valid_velocity (velocity e)) ||
  (tick_limit <=? onset_tick e) || (duration_tick e =? 0) ||
  (u32_sub tick_limit (onset_tick e) <? duration_tick e).

Definition validate_pattern (p : Pattern) : Result () :=
  if negb (is_valid_uuid (value (pattern_id p))) then
    failure (plain_error invalid_argument "pattern id must be a lowercase UUID")
  else if negb (valid_bars (bars p)) then
    failure (plain_error invalid_argument "pattern bars must be one of 1, 2, 4, or 8")
  else
    let tick_limit := pattern_length_ticks (bars p) in
    fold_result (λ _ e, if event_invalid tick_limit e
                        then failure (plain_error invalid_argument "pattern event is invalid")
                        else success ()) () (events p).
End slots.

(** ** What canonical and audible mean *)

(** The event lists the Domain stores: in event order, one event per key. *)
Record canonical_events (l : list PatternEvent) : Prop := {
  canonical_sorted : StronglySorted (key_le event_sort_key) l;
  canonical_keys : NoDup (event_key <$> l)
}.

(** The event lies inside a loop of [tick_limit] ticks and cannot cross its seam. *)
Record event_fits (tick_limit : N) (e : PatternEvent) : Prop := {
  fits_slot : bank (slot e) < 4 ∧ pad (slot e) < 16;
  fits_velocity : 1 ≤ velocity e ≤ 127;
  fits_duration : 1 ≤ duration_tick e;
  fits_seam : onset_tick e + duration_tick e ≤ tick_limit
}.

Definition keyed (m : event_map) : Prop := map_Forall (λ k e, event_key e = k) m.

(** The last event of a list with a key. *)
Definition last_with_key (k : N * N * N) (l : list PatternEvent) : option PatternEvent :=
  last (filter (λ e, event_key e = k) l).

(** ** Lemmas on ticks *)

Lemma valid_bars_spec b : valid_bars b = true ↔ b = 1 ∨ b = 2 ∨ b = 4 ∨ b = 8.
Proof. unfold valid_bars. lia. Qed.

Lemma pattern_length_valid b : valid_bars b = true →
  pattern_length_ticks b = b * 3840 ∧ 3840 ≤ pattern_length_ticks b ≤ 30720.
Proof. by intros [->|[->|[->| ->]]]%valid_bars_spec. Qed.

Lemma pattern_length_small b : b < 256 → pattern_length_ticks b = b * 3840.
Proof. intros. unfold pattern_length_ticks, kBarTicks4x4. apply u32_mul_small. lia. Qed.

Lemma event_invalid_spec limit e : limit < 2 ^ 32 →
  event_invalid limit e = false ↔ event_fits limit e.
Proof.
  intros Hl. unfold event_invalid, is_valid_slot, valid_velocity. split.
  - intros H. bool_to_prop. rewrite u32_sub_le in * by lia. split; lia.
  - intros [Hs Hv Hd Hf]. rewrite u32_sub_le by lia. lia.
Qed.

Lemma quantize_lt raw loop q s : loop ≠ 0 → loop < 2 ^ 32 →
  quantize_onset_tick raw loop q s < loop.
Proof.
  intros Hl Hw. unfold quantize_onset_tick. rewrite (proj2 (N.eqb_neq _ _) Hl).
  assert (∀ x, x mod loop < loop) as Hm by (intros; by apply N.mod_lt).
  destruct q; cbn [negb]; [|rewrite wrap_small; [apply Hm|]; by eapply N.lt_trans].
  case_match; apply Hm.
Qed.

(** The straight grid line nearest to a tick; a tick half-way goes down. *)
Definition grid_line (tick : N) : N := (tick + 119) / 240 * 240.

Lemma quantize_on raw loop s : loop ≠ 0 → loop < 2 ^ 31 →
  let g := (raw mod loop + 119) / 240 in
  quantize_onset_tick raw loop true s =
    if (g * 240 mod loop =? 0) || (g mod 2 =? 0) then g * 240 mod loop
    else ((g - 1) * 240 + (480 * clamp s 50 75 + 50) / 100) mod loop.
Proof.
  intros Hl Hw. unfold quantize_onset_tick. rewrite (proj2 (N.eqb_neq _ _) Hl).
  pose proof (N.mod_lt raw loop Hl) as Hm. revert Hm. generalize (raw mod loop). intros m Hm. set (g := (m + 119) / 240).
  change (kSixteenthTicks / 2) with 120. unfold kSixteenthTicks, kSwingPercentMin, kSwingPercentMax.
  rewrite (wrap_small 32 m) by u_lia. cbn [negb]. cbv zeta.
  rewrite (u32_add_small _ 120) by u_lia. rewrite (u32_sub_le _ 1) by u_lia.
  replace (m + 120 - 1) with (m + 119) by u_lia. fold g.
  assert (g ≤ (2 ^ 31 + 119) / 240) as Hg by (apply N.Div0.div_le_mono; lia).
  change ((2 ^ 31 + 119) / 240) with 8947849 in Hg.
  rewrite (u32_mul_small g 240) by u_lia.
  pose proof (clamp_bounds s 50 75 ltac:(u_lia)) as Hc.
  destruct (_ || _) eqn:E; [done|].
  assert (1 ≤ g) as Hg1.
  { apply orb_false_iff in E as [E _]. apply N.eqb_neq in E.
    destruct (N.eq_dec g 0) as [E0|]; [|u_lia]. rewrite E0 in E. by rewrite N.Div0.mod_0_l in E. }
  rewrite (u32_sub_le g 1) by u_lia. rewrite (u32_mul_small (g - 1) 240) by u_lia.
  rewrite (u32_mul_small 2 240) by u_lia. change (2 * 240) with 480.
  rewrite (u32_mul_small 480) by u_lia. rewrite (u32_add_small (480 * _) 50) by u_lia.
  rewrite u32_add_small; [done|].
  assert ((480 * clamp s 50 75 + 50) / 100 ≤ (480 * 75 + 50) / 100)
    by (apply N.Div0.div_le_mono; u_lia).
  change ((480 * 75 + 50) / 100) with 360 in *. u_lia.
Qed.

Lemma normalize_duration_bounds attack release onset loop :
  onset < loop → loop < 2 ^ 32 →
  1 ≤ normalize_duration_tick attack release onset loop ∧
  onset + normalize_duration_tick attack release onset loop ≤ loop.
Proof.
  intros Ho Hw. unfold normalize_duration_tick.
  rewrite (proj2 (N.eqb_neq loop 0)), (proj2 (N.leb_gt loop onset)) by lia. cbn [orb].
  rewrite u32_sub_le by lia.
  pose proof (clamp_bounds (if attack <? release then u64_sub release attack else 1) 1
                (loop - onset) ltac:(lia)).
  rewrite wrap_small by lia. lia.
Qed.

(** ** Lemmas on the keyed map *)

Lemma keyed_empty : keyed ∅.
Proof. apply map_Forall_empty. Qed.

Lemma keyed_insert m e : keyed m → keyed (insert_or_replace m e).
Proof. intros. by apply map_Forall_insert_2. Qed.

Lemma keyed_foldl m l : keyed m → keyed (foldl insert_or_replace m l).
Proof. revert m; induction l as [|e l IH]; intros m Hm; simpl; [done|]. by apply IH, keyed_insert. Qed.

Lemma last_with_key_app k l1 l2 :
  last_with_key k (l1 ++ l2) = match last_with_key k l2 with
                               | Some e => Some e | None => last_with_key k l1 end.
Proof. unfold last_with_key. by rewrite filter_app, last_app. Qed.

(** The map built from a list holds the last event of each key. *)
Lemma foldl_insert_lookup m l k :
  foldl insert_or_replace m l !! k =
    match last_with_key k l with Some e => Some e | None => m !! k end.
Proof.
  revert m; induction l as [|e l IH]; intros m; [done|]. simpl foldl. rewrite IH.
  change (e :: l) with ([e] ++ l). rewrite last_with_key_app.
  destruct (last_with_key k l); [done|]. unfold last_with_key, insert_or_replace.
  rewrite filter_cons, filter_nil. case_decide as E; simpl.
  - subst. by rewrite lookup_insert_eq.
  - by rewrite lookup_insert_ne.
Qed.

Lemma sorted_events_elem m e : keyed m → e ∈ sorted_events m ↔ m !! event_key e = Some e.
Proof.
  intros Hm. unfold sorted_events. rewrite elem_of_stable_sort, list_elem_of_fmap. split.
  - intros ([k e'] & -> & Hin%elem_of_map_to_list). simpl. by rewrite (Hm k e' Hin) in *.
  - intros Hl. exists (event_key e, e). split; [done|]. by apply elem_of_map_to_list.
Qed.

Lemma sort_key_inj e e' : event_sort_key e = event_sort_key e' → e = e'.
Proof. destruct e as [[] ? ? ?], e' as [[] ? ? ?]. unfold event_sort_key. simpl. congruence. Qed.

Lemma NoDup_event_keys m : keyed m → NoDup (event_key <$> (snd <$> map_to_list m)).
Proof.
  intros Hm. assert (event_key <$> (snd <$> map_to_list m) = (map_to_list m).*1) as ->.
  { rewrite <- list_fmap_compose. apply list_fmap_ext. intros i [k e] Hi. simpl.
    apply list_elem_of_lookup_2 in Hi. apply elem_of_map_to_list in Hi. by rewrite (Hm k e Hi). }
  apply NoDup_fst_map_to_list.
Qed.

Lemma sorted_events_canonical m : keyed m → canonical_events (sorted_events m).
Proof.
  intros Hm. split; [apply stable_sort_sorted|].
  unfold sorted_events. rewrite stable_sort_perm. by apply NoDup_event_keys.
Qed.

(** Canonical lists with the same events are equal. *)
Lemma canonical_unique l1 l2 :
  canonical_events l1 → canonical_events l2 → (∀ e, e ∈ l1 ↔ e ∈ l2) → l1 = l2.
Proof.
  intros [Hs1 Hk1] [Hs2 Hk2] Heq. eapply stable_sort_unique; [|done..|].
  - intros. by apply sort_key_inj.
  - apply NoDup_Permutation; [by eapply NoDup_fmap_1|by eapply NoDup_fmap_1|done].
Qed.

Lemma last_with_key_canonical l e :
  NoDup (event_key <$> l) → last_with_key (event_key e) l = Some e ↔ e ∈ l.
Proof.
  intros Hk. split.
  - intros Hl%last_Some_elem_of. by apply list_elem_of_filter in Hl as [_ ?].
  - induction l as [|x l IH]; [by intros ?%elem_of_nil|].
    rewrite fmap_cons in Hk. apply NoDup_cons in Hk as [Hx Hk].
    change (x :: l) with ([x] ++ l). rewrite last_with_key_app.
    intros [->|Hin]%elem_of_cons.
    + destruct (last_with_key (event_key x) l) as [y|] eqn:Ey.
      * apply last_Some_elem_of, list_elem_of_filter in Ey as [Ey1 Ey2].
        exfalso. apply Hx. rewrite <- Ey1. by apply list_elem_of_fmap_2.
      * unfold last_with_key. rewrite filter_cons, filter_nil. by case_decide.
    + by rewrite (IH Hk Hin).
Qed.

Lemma last_with_key_Some k l e : last_with_key k l = Some e → event_key e = k ∧ e ∈ l.
Proof. intros H%last_Some_elem_of. by apply list_elem_of_filter in H. Qed.

Lemma last_with_key_None k l : last_with_key k l = None ↔ k ∉ event_key <$> l.
Proof.
  unfold last_with_key. rewrite last_None. split.
  - intros Hf Hin. apply list_elem_of_fmap in Hin as (e & -> & Hin).
    eapply (filter_nil_not_elem_of _ _ e Hf); done.
  - intros Hn. destruct (filter _ l) as [|e l'] eqn:E; [done|]. exfalso.
    assert (e ∈ filter (λ e, event_key e = k) l) as [<- Hin]%list_elem_of_filter
      by (rewrite E; left). apply Hn. by apply list_elem_of_fmap_2.
Qed.

Definition merged_map (l : list PatternEvent) : event_map := foldl insert_or_replace ∅ l.

Lemma merged_map_keyed l : keyed (merged_map l).
Proof. apply keyed_foldl, keyed_empty. Qed.

Lemma merged_map_lookup l k : merged_map l !! k = last_with_key k l.
Proof.
  unfold merged_map. rewrite foldl_insert_lookup, lookup_empty. by destruct (last_with_key k l).
Qed.

Lemma merge_unfold stored incoming :
  merge_pattern_events stored incoming = sorted_events (merged_map (stored ++ incoming)).
Proof. unfold merge_pattern_events, merged_map. by rewrite foldl_app. Qed.

Lemma merge_elem stored incoming e :
  e ∈ merge_pattern_events stored incoming ↔
  last_with_key (event_key e) (stored ++ incoming) = Some e.
Proof.
  rewrite merge_unfold, sorted_events_elem by apply merged_map_keyed.
  by rewrite merged_map_lookup.
Qed.

Lemma merge_canonical stored incoming : canonical_events (merge_pattern_events stored incoming).
Proof. rewrite merge_unfold. apply sorted_events_canonical, merged_map_keyed. Qed.

(** Looking a key up in the merged list finds the last event given with it. *)
Lemma merge_lookup stored incoming k :
  last_with_key k (merge_pattern_events stored incoming) = last_with_key k (stored ++ incoming).
Proof.
  pose proof (merge_canonical stored incoming) as [_ Hk].
  destruct (last_with_key k (stored ++ incoming)) as [e|] eqn:E.
  - pose proof (last_with_key_Some _ _ _ E) as [<- _].
    by apply last_with_key_canonical; [done|apply merge_elem].
  - apply last_with_key_None. intros (e & -> & He)%list_elem_of_fmap.
    apply merge_elem in He. congruence.
Qed.

Lemma merge_ext s1 i1 s2 i2 :
  (∀ k, last_with_key k (s1 ++ i1) = last_with_key k (s2 ++ i2)) →
  merge_pattern_events s1 i1 = merge_pattern_events s2 i2.
Proof.
  intros H. apply canonical_unique; [apply merge_canonical..|].
  intros e. by rewrite !merge_elem, H.
Qed.

Lemma merge_forall (P : PatternEvent → Prop) stored incoming :
  Forall P stored → Forall P incoming → Forall P (merge_pattern_events stored incoming).
Proof.
  intros Hs Hi. apply Forall_forall. intros e He%merge_elem.
  apply last_with_key_Some in He as [_ [He|He]%elem_of_app];
    [by eapply Forall_forall in Hs|by eapply Forall_forall in Hi].
Qed.

(** Canonical order is strict on the Pad and onset alone, so it survives a
    change of durations or velocities. *)
Definition place_key (e : PatternEvent) : list N := [onset_tick e; bank (slot e); pad (slot e)].

Definition before (e e' : PatternEvent) : Prop :=
  lex_le (place_key e) (place_key e') = true ∧ place_key e ≠ place_key e'.

Lemma place_key_event_key e e' : place_key e = place_key e' ↔ event_key e = event_key e'.
Proof. unfold place_key, event_key. split; congruence. Qed.

Lemma before_sort_key e e' : event_key e ≠ event_key e' →
  before e e' ↔ key_le event_sort_key e e'.
Proof.
  rewrite <- place_key_event_key. unfold before, key_le, place_key, event_sort_key.
  cbn [lex_le]. intros Hne.
  assert (¬ (onset_tick e = onset_tick e' ∧ bank (slot e) = bank (slot e') ∧
             pad (slot e) = pad (slot e'))) by (intros (E1 & E2 & E3); congruence).
  split; [intros [? _]; lia|]. intros ?. split; [lia|done].
Qed.

Lemma canonical_before l : canonical_events l ↔ StronglySorted before l.
Proof.
  split.
  - intros [Hs Hn]. induction Hs as [|e l Hl IH He]; [constructor|].
    rewrite fmap_cons in Hn. apply NoDup_cons in Hn as [Hk Hn].
    constructor; [by apply IH|]. rewrite Forall_forall in *. intros e' He'.
    apply before_sort_key; [|by apply He]. intros E. apply Hk. rewrite E.
    by apply list_elem_of_fmap_2.
  - intros Hs. induction Hs as [|e l Hl [IHs IHn] He]; [by repeat constructor|].
    rewrite Forall_forall in He.
    assert (∀ e', e' ∈ l → event_key e ≠ event_key e') as Hne.
    { intros e' He'. rewrite <- place_key_event_key. by apply He. }
    split.
    + constructor; [done|]. apply Forall_forall. intros e' He'.
      apply before_sort_key; auto.
    + rewrite fmap_cons. constructor; [|done].
      intros (e' & E & He')%list_elem_of_fmap. by apply (Hne e').
Qed.

Lemma canonical_map (f : PatternEvent → PatternEvent) l :
  (∀ e, place_key (f e) = place_key e) → canonical_events l → canonical_events (f <$> l).
Proof.
  intros Hf. rewrite !canonical_before. induction 1 as [|e l Hl IH He]; [constructor|].
  rewrite fmap_cons. constructor; [done|]. apply Forall_fmap. eapply Forall_impl; [exact He|].
  intros e'. unfold before, compose. by rewrite !Hf.
Qed.

Lemma canonical_filter (P : PatternEvent → Prop) `{∀ e, Decision (P e)} l :
  canonical_events l → canonical_events (filter P l).
Proof. rewrite !canonical_before. apply StronglySorted_filter. Qed.

(** ** Lemmas on validation *)

Section validation.
Context `{JL : JsonLib}.

Lemma check_events_ok limit l : limit < 2 ^ 32 →
  fold_result (λ _ e, if event_invalid limit e
                      then failure (plain_error invalid_argument "pattern event is invalid")
                      else success ()) () l = success () ↔ Forall (event_fits limit) l.
Proof.
  intros Hl. induction l as [|e l IH]; cbn [fold_result]; [split; [constructor|done]|].
  rewrite Forall_cons, <- (event_invalid_spec limit e Hl), <- IH.
  destruct (event_invalid limit e); cbn [mbind result_bind]; [|tauto].
  split; [discriminate|by intros []].
Qed.

Lemma validate_pattern_ok p :
  validate_pattern p = success () ↔
  is_valid_uuid (value (pattern_id p)) = true ∧ valid_bars (bars p) = true ∧
  Forall (event_fits (pattern_length_ticks (bars p))) (events p).
Proof.
  unfold validate_pattern. destruct (is_valid_uuid _); cbn [negb]; [|naive_solver].
  destruct (valid_bars (bars p)) eqn:Eb; cbn [negb]; [|naive_solver].
  pose proof (pattern_length_valid _ Eb) as [_ Hl].
  cbn zeta. rewrite check_events_ok by u_lia. tauto.
Qed.

Lemma validate_pattern_no_throw p : validate_pattern p ≠ thrown.
Proof.
  unfold validate_pattern. repeat case_match; try done.
  apply fold_result_no_throw. intros. by case_match.
Qed.

Definition slots_ok (m : gmap PatternId Pattern) (l : list (option PatternId)) : Prop :=
  Forall (λ s, match s with
               | Some id => is_valid_uuid (value id) = true ∧ is_Some (m !! id)
               | None => True end) l ∧
  NoDup (omap id l).

Lemma check_slot_ok m occ s occ' :
  check_slot m occ s = success occ' ↔
  match s with
  | None => occ' = occ
  | Some id => is_valid_uuid (value id) = true ∧ is_Some (m !! id) ∧ id ∉ occ ∧
               occ' = {[id]} ∪ occ
  end.
Proof.
  destruct s as [id|]; simpl; [|split; [by intros [= ->]|by intros ->]].
  unfold map_contains. destruct (is_valid_uuid _); simpl; [|naive_solver].
  destruct (m !! id); simpl; [|split; [done|intros (?&[? ?]&?); done]].
  case_bool_decide; split.
  - done.
  - naive_solver.
  - intros [= <-]. eauto.
  - by intros (_ & _ & _ & ->).
Qed.

Lemma slots_fold_ok m l occ :
  (∃ occ', fold_result (check_slot m) occ l = success occ') ↔
  slots_ok m l ∧ (∀ id, Some id ∈ l → id ∉ occ).
Proof.
  revert occ; induction l as [|s l IH]; intros occ; cbn [fold_result].
  { split; [|eauto]. intros _. split; [split; constructor|]. intros ? ?%elem_of_nil. done. }
  split.
  - intros (occ' & (occ1 & Hs & Hf)%result_bind_success).
    destruct (proj1 (IH occ1) (ex_intro _ _ Hf)) as [[Hl Hn] Hout].
    apply check_slot_ok in Hs. destruct s as [id|].
    + destruct Hs as (Hu & Hm & Hi & ->). split; [split|].
      * by constructor.
      * simpl. constructor; [|done]. intros Hin. apply list_elem_of_omap in Hin as (o & Ho & Hid).
        cbn in Hid. subst o. specialize (Hout _ Ho). set_solver.
      * intros id' [[= ->]|Hin]%elem_of_cons; [done|]. specialize (Hout _ Hin). set_solver.
    + subst. split; [split; [by constructor|done]|].
      intros id' [|Hin]%elem_of_cons; [done|by apply Hout].
  - intros [[Hl Hn] Hout]. apply Forall_cons in Hl as [Hs Hl]. destruct s as [id|].
    + destruct Hs as [Hu Hm]. simpl in Hn. apply NoDup_cons in Hn as [Hid Hn].
      assert (check_slot m occ (Some id) = success ({[id]} ∪ occ)) as ->.
      { apply check_slot_ok. split_and!; [done..| |done]. apply Hout. left. }
      apply IH. split; [done|]. intros id' Hin.
      assert (id ≠ id') by (intros ->; apply Hid, list_elem_of_omap; by exists (Some id')).
      assert (id' ∉ occ) by (apply Hout; by right). set_solver.
    + apply IH. split; [done|]. intros id' Hin. apply Hout. by right.
Qed.

Lemma validate_pattern_slots_ok st :
  validate_pattern_slots st = success () ↔ slots_ok (patterns st) (pattern_slots st).
Proof.
  unfold validate_pattern_slots. split.
  - intros (occ & Hf & _)%result_bind_success.
    by apply (proj1 (slots_fold_ok _ _ ∅) (ex_intro _ _ Hf)).
  - intros Hok. destruct (proj2 (slots_fold_ok (patterns st) (pattern_slots st) ∅)) as [occ ->];
      [|done]. split; [done|]. set_solver.
Qed.

Lemma validate_pattern_slots_no_throw st : validate_pattern_slots st ≠ thrown.
Proof.
  unfold validate_pattern_slots.
  assert (fold_result (check_slot (patterns st)) ∅ (pattern_slots st) ≠ thrown) as H.
  { apply fold_result_no_throw. intros occ s _. unfold check_slot. by repeat case_match. }
  by destruct (fold_result _ _ _).
Qed.
End validation.

(** ** Properties *)

(** An event recorded by the sequencer (its onset quantized into the loop,
    its duration normalized against the loop seam) is always an event that
    [validate_pattern] accepts. *)
Theorem recorded_event_valid `{JL : JsonLib} id b s v attack release q swing
    (Hid : is_valid_uuid (value id) = true) (Hb : valid_bars b = true)
    (Hs : is_valid_slot s = true) (Hv : valid_velocity v = true) :
  let loop := pattern_length_ticks b in
  let onset := quantize_onset_tick attack loop q swing in
  validate_pattern (MkPattern id b
    [MkPatternEvent s onset (normalize_duration_tick attack release onset loop) v]) = success ().
Proof.
  cbn zeta. apply validate_pattern_ok. split_and!; [done..|]. constructor; [|constructor].
  cbn [bars]. pose proof (pattern_length_valid b Hb) as [_ Hl].
  pose proof (quantize_lt attack (pattern_length_ticks b) q swing ltac:(lia) ltac:(u_lia)) as Hq.
  pose proof (normalize_duration_bounds attack release _ _ Hq ltac:(u_lia)) as [H1 H2].
  unfold is_valid_slot, valid_velocity in *. split; simpl; lia.
Qed.

Definition example_pattern_id : PatternId := MkId "6f1d2c3b-4a5e-4f60-8a7b-1c2d3e4f5a6b".

Lemma recorded_event_valid_witness :
  validate_pattern (JL := dom_lib) (MkPattern example_pattern_id 2
    [MkPatternEvent (MkPadSlotId 1 5) 260 200 100]) = success ().
Proof.
  apply (recorded_event_valid (JL := dom_lib) example_pattern_id 2 (MkPadSlotId 1 5) 100
           (7680 * 3 + 241) (7680 * 3 + 441) true 54); reflexivity.
Defined.

(** Quantization moves an onset to the nearest straight sixteenth (a tick
    half-way goes down) and then delays only the odd sixteenths, by the swing:
    by nothing at 50 percent and by at most 120 ticks at 75 percent. *)
Theorem quantize_swing_grid b raw swing (Hb : valid_bars b = true) :
  let loop := pattern_length_ticks b in
  let t := raw mod loop in
  ∃ line delay,
    quantize_onset_tick raw loop true swing = (line + delay) mod loop ∧
    line mod 240 = 0 ∧ line ≤ t + 119 ∧ t ≤ line + 120 ∧
    delay = (if line / 240 mod 2 =? 0 then 0 else (480 * clamp swing 50 75 + 50) / 100 - 240) ∧
    delay ≤ 120 ∧ (swing ≤ 50 → delay = 0).
Proof.
  cbn zeta. pose proof (pattern_length_valid b Hb) as [Hlen Hl].
  rewrite quantize_on by u_lia. cbn zeta.
  set (loop := pattern_length_ticks b) in *.
  generalize (raw mod loop). intros t. set (g := (t + 119) / 240).
  assert (t ≤ g * 240 + 120 ∧ g * 240 ≤ t + 119) as [Ht1 Ht2] by (unfold g; dlia).
  pose proof (clamp_bounds swing 50 75 ltac:(lia)) as Hc.
  assert (240 ≤ (480 * clamp swing 50 75 + 50) / 100 ≤ 360) as Hd by dlia.
  exists (g * 240), (if g * 240 / 240 mod 2 =? 0 then 0
                     else (480 * clamp swing 50 75 + 50) / 100 - 240).
  rewrite N.div_mul by done. split_and!; [|by apply N.Div0.mod_mul|done|done|done| |].
  - destruct (g mod 2 =? 0) eqn:Eg; [by rewrite orb_true_r, N.add_0_r|].
    destruct (g * 240 mod loop =? 0) eqn:E0; cbn [orb].
    + exfalso. apply N.eqb_eq, N.Div0.mod_divides in E0 as [c Hc0].
      apply N.eqb_neq in Eg. apply Eg. rewrite Hlen in Hc0.
      assert (g = 2 * (8 * b * c)) as -> by nia. by rewrite N.mul_comm, N.Div0.mod_mul.
    + f_equal. apply N.eqb_neq in Eg. assert (g ≠ 0) by (intros ->; done). lia.
  - case_match; lia.
  - intros Hs. case_match; [done|]. unfold clamp. case_match; [done|].
    assert (swing = 50) as -> by lia. done.
Qed.

Lemma quantize_swing_grid_witness :
  quantize_onset_tick 250 3840 true 60 = 288 ∧ ∃ line delay, 288 = (line + delay) mod 3840.
Proof.
  split; [reflexivity|].
  destruct (quantize_swing_grid 1 250 60 eq_refl) as (line & delay & H & _).
  exists line, delay. exact H.
Defined.

(** Merging keeps, for each Pad and onset, exactly the event given last
    (incoming events replace stored ones), and stores the result in the canonical
    order with one event per key. *)
Theorem merge_last_wins stored incoming :
  canonical_events (merge_pattern_events stored incoming) ∧
  (∀ k, last_with_key k (merge_pattern_events stored incoming) =
        match last_with_key k incoming with
        | Some e => Some e
        | None => last_with_key k stored
        end).
Proof.
  split; [apply merge_canonical|]. intros k. by rewrite merge_lookup, last_with_key_app.
Qed.

(** Merging is the identity on canonical events, is idempotent, and merging
    two batches one after the other is merging their concatenation. *)
Theorem merge_algebra stored first second :
  (canonical_events stored → merge_pattern_events stored [] = stored) ∧
  merge_pattern_events (merge_pattern_events stored first) first =
    merge_pattern_events stored first ∧
  merge_pattern_events (merge_pattern_events stored first) second =
    merge_pattern_events stored (first ++ second).
Proof.
  split_and!.
  - intros Hc. apply canonical_unique; [apply merge_canonical|done|].
    intros e. rewrite merge_elem, app_nil_r. apply last_with_key_canonical, Hc.
  - apply merge_ext. intros k. rewrite last_with_key_app, merge_lookup, last_with_key_app.
    by destruct (last_with_key k first).
  - apply merge_ext. intros k. by rewrite app_assoc, !(last_with_key_app _ _ second), merge_lookup.
Qed.
