(* ===== verification/Performance.v ===== *)
(** Performances: event order, the live-control machine and validation.

    Models the Performance functions of packages/authoring-domain/src/project.cpp:
    the canonical orders of the two recording profiles, the event validator with
    its optional header, the header validator and [validate_performance].
    [live_step] is the specification of the live controls: a small state machine
    over the open effects, the independent Filter and HOLD. *)

From S2P Require Import Prelude Json Foundation Text Utf8 Project.

(** ** Events *)

Definition kind_of (p : PerformanceEventPayload) : PerformanceEventKind :=
  match p with
  | PadHitPerformanceEvent _ _ _ _ => PerformanceEventKind.pad_hit
  | PatternLaunchPerformanceEvent _ _ => PerformanceEventKind.pattern_launch
  | FxEngagePerformanceEvent _ _ _ => PerformanceEventKind.fx_engage
  | FxMovePerformanceEvent _ _ _ => PerformanceEventKind.fx_move
  | FxReleasePerformanceEvent _ _ => PerformanceEventKind.fx_release
  | HoldOnPerformanceEvent _ => PerformanceEventKind.hold_on
  | HoldOffPerformanceEvent _ => PerformanceEventKind.hold_off
  | FilterChangePerformanceEvent _ _ _ _ _ => PerformanceEventKind.filter_change
  | PadGatesSetPerformanceEvent _ _ _ => PerformanceEventKind.pad_gates_set
  end.

Definition performance_event_kind (e : PerformanceEvent) : PerformanceEventKind :=
  kind_of (payload e).

Definition kind_ordinal (k : PerformanceEventKind) : N :=
  match k with
  | PerformanceEventKind.pad_hit => 0 | PerformanceEventKind.pattern_launch => 1
  | PerformanceEventKind.fx_engage => 2 | PerformanceEventKind.fx_move => 3
  | PerformanceEventKind.fx_release => 4 | PerformanceEventKind.hold_on => 5
  | PerformanceEventKind.hold_off => 6 | PerformanceEventKind.filter_change => 7
  | PerformanceEventKind.pad_gates_set => 8
  end.

Definition performance_event_tick (e : PerformanceEvent) : N :=
  match payload e with
  | PadHitPerformanceEvent _ onset _ _ => onset
  | PatternLaunchPerformanceEvent _ effective => effective
  | FxEngagePerformanceEvent _ _ tick | FxMovePerformanceEvent _ _ tick
  | FxReleasePerformanceEvent _ tick | HoldOnPerformanceEvent tick
  | HoldOffPerformanceEvent tick | FilterChangePerformanceEvent _ _ _ _ tick
  | PadGatesSetPerformanceEvent _ _ tick => tick
  end.

Definition performance_event_fx_or_slot (e : PerformanceEvent) : N :=
  match payload e with
  | PadHitPerformanceEvent s _ _ _ => s
  | PatternLaunchPerformanceEvent s _ => s
  | FxEngagePerformanceEvent fx _ _ | FxMovePerformanceEvent fx _ _
  | FxReleasePerformanceEvent fx _ => fx_ordinal fx
  | _ => 0
  end.

(** ** Profiles and canonical order *)

Inductive PerformanceEventProfile := legacy | header_input_sequence.

Definition performance_event_profile (p : Performance) : PerformanceEventProfile :=
  if has_value (initial_live_state p) then header_input_sequence else legacy.

Definition legacy_key (e : PerformanceEvent) : list N :=
  [performance_event_tick e; kind_ordinal (performance_event_kind e);
   performance_event_fx_or_slot e].

Definition header_key (e : PerformanceEvent) : list N :=
  [performance_event_tick e; value_or (input_sequence e) 0].

Definition canonical_legacy_events (evs : list PerformanceEvent) : list PerformanceEvent :=
  stable_sort legacy_key evs.

Definition canonical_performance_events (evs : list PerformanceEvent)
    (profile : PerformanceEventProfile) : list PerformanceEvent :=
  match profile with
  | legacy => canonical_legacy_events evs
  | header_input_sequence => stable_sort header_key evs
  end.

(** ** The event validator *)

Definition valid_fx (fx : PerformanceFx) : bool := fx_ordinal fx <? kFxCount.

Definition valid_filter_type (t : PerformanceFilterType) : bool :=
  match t with
  | PerformanceFilterType.lp | PerformanceFilterType.hp | PerformanceFilterType.bp => true
  end.

Definition valid_filter_phase (p : PerformanceFilterPhase) : bool :=
  match p with
  | PerformanceFilterPhase.engage | PerformanceFilterPhase.move
  | PerformanceFilterPhase.release => true
  end.

(** The locals of the validation loop. *)
Record controls := MkControls {
  engaged : list bool;
  independent_filter_active : bool;
  hold_enabled : bool
}.

Definition with_engaged (c : controls) (e : list bool) : controls :=
  MkControls e (independent_filter_active c) (hold_enabled c).

Section validator.
Context `{JL : JsonLib}.

Definition invalid_performance {A} (m : string) : Result A :=
  failure (plain_error invalid_argument m).

Definition seed_gate (engaged : list bool) (ig : nat * PerformanceFxGateState) : list bool :=
  if gate_engaged ig.2 || gate_frozen ig.2 then <[S ig.1 := true]> engaged else engaged.

Definition seed_controls (seed : option PerformanceInitialLiveState) : controls :=
  match seed with
  | None => MkControls (replicate 8 false) false false
  | Some s =>
      let gates := foldl seed_gate (replicate 8 false) (imap pair (other_fx s)) in
      match live_filter s with
      | legacy_filter f =>
          MkControls (<[0%nat := legacy_engaged f || legacy_frozen f]> gates) false (hold s)
      | independent_filter f =>
          MkControls gates (independent_engaged f || independent_frozen f) (hold s)
      end
  end.

Definition engaged_at (c : controls) (fx : PerformanceFx) : Result bool :=
  throwing (engaged c !! N.to_nat (fx_ordinal fx)).

Definition set_engaged (c : controls) (fx : PerformanceFx) (b : bool) : controls :=
  with_engaged c (<[N.to_nat (fx_ordinal fx) := b]> (engaged c)).

Definition visit_filter_change (c : controls) (phase : PerformanceFilterPhase) :
    Result controls :=
  match phase with
  | PerformanceFilterPhase.engage =>
      if independent_filter_active c then
        invalid_performance
          "filter_change engage requires a disengaged independent Filter"
      else success (MkControls (<[0%nat := false]> (engaged c)) true (hold_enabled c))
  | PerformanceFilterPhase.move | PerformanceFilterPhase.release =>
      if negb (independent_filter_active c) then
        invalid_performance
          "filter_change requires a matching active independent Filter gesture"
      else if bool_decide (phase = PerformanceFilterPhase.release) then
        success (MkControls (engaged c) false (hold_enabled c))
      else success c
  end.

Definition visit_payload (headered : bool) (c : controls) (p : PerformanceEventPayload) :
    Result controls :=
  match p with
  | PadHitPerformanceEvent s _ duration v =>
      if (kPerformancePadSlotMax <? s) || (duration =? 0) || (v =? 0) || (127 <? v) then
        invalid_performance "pad_hit event is invalid"
      else success c
  | PatternLaunchPerformanceEvent s _ =>
      if (s <? kPatternSlotMin) || (kPatternSlotMax <? s) then
        invalid_performance "pattern_launch event is invalid"
      else success c
  | FxEngagePerformanceEvent fx v _ =>
      if negb (valid_fx fx) || (v <? kFxValueMin) || (kFxValueMax <? v) then
        invalid_performance "fx_engage event is invalid"
      else
        active ← engaged_at c fx;
        if active : bool then invalid_performance "fx_engage requires a disengaged effect"
        else
          let c' := set_engaged c fx true in
          success (if bool_decide (fx = PerformanceFx.filter)
                   then MkControls (engaged c') false (hold_enabled c') else c')
  | FxMovePerformanceEvent fx v _ =>
      if negb (valid_fx fx) || (v <? kFxValueMin) || (kFxValueMax <? v) then
        invalid_performance "fx_move event is invalid"
      else
        active ← engaged_at c fx;
        if negb active then invalid_performance "fx_move requires a matching open fx_engage"
        else success c
  | FxReleasePerformanceEvent fx _ =>
      if negb (valid_fx fx) then invalid_performance "fx_release event is invalid"
      else
        active ← engaged_at c fx;
        if negb active then invalid_performance "fx_release requires a matching open fx_engage"
        else success (set_engaged c fx false)
  | HoldOnPerformanceEvent _ =>
      if hold_enabled c then invalid_performance "hold_on requires HOLD to be off"
      else success (MkControls (engaged c) (independent_filter_active c) true)
  | HoldOffPerformanceEvent _ =>
      if negb (hold_enabled c) then invalid_performance "hold_off requires HOLD to be on"
      else success (MkControls (engaged c) (independent_filter_active c) false)
  | FilterChangePerformanceEvent phase type cutoff resonance _ =>
      if negb headered then
        invalid_performance "filter_change requires the headered recording profile"
      else if negb (valid_filter_phase phase) || negb (valid_filter_type type) ||
              (cutoff <? kFilterCutoffHzMin) || (kFilterCutoffHzMax <? cutoff) ||
              (kFilterResonanceMilliMax <? resonance) then
        invalid_performance "filter_change event is invalid"
      else visit_filter_change c phase
  | PadGatesSetPerformanceEvent _ _ _ =>
      if negb headered then
        invalid_performance "pad_gates_set requires the headered recording profile"
      else success c
  end.

Definition visit_event (headered : bool) (c : controls) (e : PerformanceEvent) : Result controls :=
  if negb (bool_decide (headered = has_value (input_sequence e))) then
    invalid_performance
      (if headered then "headered performance event is missing its input sequence"
       else "legacy performance event must not carry an input sequence")
  else visit_payload headered c (payload e).

Definition validate_performance_events_with_seed (evs : list PerformanceEvent)
    (seed : option PerformanceInitialLiveState) : Result () :=
  _ ← fold_result (visit_event (has_value seed)) (seed_controls seed) evs; success ().

(** The two public overloads. *)
Definition validate_legacy_performance_events (evs : list PerformanceEvent) : Result () :=
  validate_performance_events_with_seed (canonical_legacy_events evs) None.

Definition validate_headered_performance_events (evs : list PerformanceEvent)
    (seed : PerformanceInitialLiveState) : Result () :=
  validate_performance_events_with_seed
    (canonical_performance_events evs header_input_sequence) (Some seed).

(** ** The header and the whole Performance *)

Definition frozen_requires_hold (s : PerformanceInitialLiveState) (frozen : bool) : bool :=
  negb frozen || hold s.

Definition validate_initial_live_state (s : PerformanceInitialLiveState) : Result () :=
  let filter_invalid :=
    match live_filter s with
    | legacy_filter f =>
        (kFxValueMax <? legacy_value f) || negb (frozen_requires_hold s (legacy_frozen f))
    | independent_filter f =>
        negb (valid_filter_type (independent_type f)) ||
        (independent_cutoff_hz f <? kFilterCutoffHzMin) ||
        (kFilterCutoffHzMax <? independent_cutoff_hz f) ||
        (kFilterResonanceMilliMax <? independent_resonance_milli f) ||
        negb (frozen_requires_hold s (independent_frozen f))
    end in
  if filter_invalid then
    invalid_performance "performance initial live Filter state is invalid"
  else
    fold_result (λ _ g,
      if (kFxValueMax <? gate_value g) || negb (frozen_requires_hold s (gate_frozen g))
      then invalid_performance "performance initial live FX state is invalid"
      else success ()) () (other_fx s).

Definition check_sequence (sequences : gset N) (e : PerformanceEvent) : Result (gset N) :=
  match input_sequence e with
  | Some n =>
      if bool_decide (n ∈ sequences) then
        invalid_performance "headered performance events must carry unique input sequences"
      else success ({[n]} ∪ sequences)
  | None =>
      invalid_performance "headered performance events must carry unique input sequences"
  end.

Definition name_valid (name : string) : bool :=
  match utf8_code_point_count name with
  | None => false
  | Some n => negb (n =? 0) && negb (kPerformanceNameMax <? n)
  end.

Definition recording_artifact_valid (a : option ArtifactRef) : bool :=
  match a with
  | None => true
  | Some a => valid_sha256 (sha256 a) && negb (bool_decide (media_type a = ""))
  end.

(** The checks of the header: its values, then the unique sequences. *)
Definition validate_header (p : Performance) : Result () :=
  match initial_live_state p with
  | None => success ()
  | Some s =>
      _ ← validate_initial_live_state s;
      _ ← fold_result check_sequence ∅ (performance_events p); success ()
  end.

Definition validate_performance (p : Performance) : Result () :=
  if negb (is_valid_uuid (value (performance_id p))) then
    invalid_performance "performance id must be a lowercase UUID"
  else if negb (name_valid (performance_name p)) then
    invalid_performance "performance name must contain 1 to 64 UTF-8 code points"
  else if (created_bpm p <? 40) || (240 <? created_bpm p) then
    invalid_performance "performance created BPM must be between 40 and 240"
  else if negb (recording_artifact_valid (recording_artifact p)) then
    invalid_performance "performance recording artifact is invalid"
  else
    _ ← validate_header p;
    if negb (bool_decide (performance_events p =
          canonical_performance_events (performance_events p) (performance_event_profile p)))
    then invalid_performance "performance events must use canonical ordering"
    else match initial_live_state p with
    | Some s => validate_headered_performance_events (performance_events p) s
    | None => validate_legacy_performance_events (performance_events p)
    end.
End validator.

(** ** Specification: the live controls *)

#[export] Instance PerformanceFx_countable : Countable PerformanceFx.
Proof.
  apply (inj_countable fx_ordinal (λ n,
    nth_error [PerformanceFx.filter; PerformanceFx.delay; PerformanceFx.reverb;
               PerformanceFx.stutter; PerformanceFx.gate; PerformanceFx.reverse;
               PerformanceFx.crush; PerformanceFx.cutter] (N.to_nat n))).
  by intros [].
Defined.

Record live := MkLive { open_fx : gset PerformanceFx; independent : bool; holding : bool }.

Inductive live_step (headered : bool) : live → PerformanceEventPayload → live → Prop :=
  | step_pad_hit l s onset duration v :
      s ≤ 63 → 1 ≤ duration → 1 ≤ v ≤ 127 →
      live_step headered l (PadHitPerformanceEvent s onset duration v) l
  | step_launch l s tick : s ≤ 15 →
      live_step headered l (PatternLaunchPerformanceEvent s tick) l
  | step_fx_engage l fx v tick : v ≤ 1000 → fx ∉ open_fx l →
      live_step headered l (FxEngagePerformanceEvent fx v tick)
        (MkLive ({[fx]} ∪ open_fx l)
           (if bool_decide (fx = PerformanceFx.filter) then false else independent l) (holding l))
  | step_fx_move l fx v tick : v ≤ 1000 → fx ∈ open_fx l →
      live_step headered l (FxMovePerformanceEvent fx v tick) l
  | step_fx_release l fx tick : fx ∈ open_fx l →
      live_step headered l (FxReleasePerformanceEvent fx tick)
        (MkLive (open_fx l ∖ {[fx]}) (independent l) (holding l))
  | step_hold_on l tick : holding l = false →
      live_step headered l (HoldOnPerformanceEvent tick) (MkLive (open_fx l) (independent l) true)
  | step_hold_off l tick : holding l = true →
      live_step headered l (HoldOffPerformanceEvent tick)
        (MkLive (open_fx l) (independent l) false)
  | step_filter_engage l t c r tick :
      headered = true → 20 ≤ c ≤ 20000 → r ≤ 1000 → independent l = false →
      live_step headered l
        (FilterChangePerformanceEvent PerformanceFilterPhase.engage t c r tick)
        (MkLive (open_fx l ∖ {[PerformanceFx.filter]}) true (holding l))
  | step_filter_move l t c r tick :
      headered = true → 20 ≤ c ≤ 20000 → r ≤ 1000 → independent l = true →
      live_step headered l (FilterChangePerformanceEvent PerformanceFilterPhase.move t c r tick) l
  | step_filter_release l t c r tick :
      headered = true → 20 ≤ c ≤ 20000 → r ≤ 1000 → independent l = true →
      live_step headered l
        (FilterChangePerformanceEvent PerformanceFilterPhase.release t c r tick)
        (MkLive (open_fx l) false (holding l))
  | step_gates l m s tick : headered = true →
      live_step headered l (PadGatesSetPerformanceEvent m s tick) l.

Inductive live_run (headered : bool) : live → list PerformanceEvent → live → Prop :=
  | run_nil l : live_run headered l [] l
  | run_cons l e l' evs l'' :
      headered = has_value (input_sequence e) →
      live_step headered l (payload e) l' → live_run headered l' evs l'' →
      live_run headered l (e :: evs) l''.

(** The controls that are active when a recording begins. *)
Definition gate_fx : list PerformanceFx :=
  [PerformanceFx.delay; PerformanceFx.reverb; PerformanceFx.stutter; PerformanceFx.gate;
   PerformanceFx.reverse; PerformanceFx.crush; PerformanceFx.cutter].

Definition seed_gates (s : PerformanceInitialLiveState) : gset PerformanceFx :=
  list_to_set (omap (λ '(fx, g), if gate_engaged g || gate_frozen g then Some fx else None)
                 (zip gate_fx (other_fx s))).

Definition seed_live (seed : option PerformanceInitialLiveState) : live :=
  match seed with
  | None => MkLive ∅ false false
  | Some s =>
      match live_filter s with
      | legacy_filter f =>
          MkLive ((if legacy_engaged f || legacy_frozen f then {[PerformanceFx.filter]} else ∅)
                  ∪ seed_gates s) false (hold s)
      | independent_filter f =>
          MkLive (seed_gates s) (independent_engaged f || independent_frozen f) (hold s)
      end
  end.

(** ** The validator implements the machine *)

Record controls_agree (c : controls) (l : live) : Prop := {
  agree_length : length (engaged c) = 8%nat;
  agree_fx fx : engaged c !! N.to_nat (fx_ordinal fx) = Some (bool_decide (fx ∈ open_fx l));
  agree_independent : independent_filter_active c = independent l;
  agree_hold : hold_enabled c = holding l
}.

Lemma fx_ordinal_inj fx fx' : fx_ordinal fx = fx_ordinal fx' → fx = fx'.
Proof. by destruct fx, fx'. Qed.

Lemma fx_ordinal_lt fx : (N.to_nat (fx_ordinal fx) < 8)%nat.
Proof. destruct fx; simpl; lia. Qed.

Lemma agree_insert eng i0 h0 l fx b O i h : controls_agree (MkControls eng i0 h0) l →
  (∀ fx', bool_decide (fx' ∈ O) = if decide (fx = fx') then b else bool_decide (fx' ∈ open_fx l)) →
  controls_agree (MkControls (<[N.to_nat (fx_ordinal fx) := b]> eng) i h) (MkLive O i h).
Proof.
  intros [Hl Hfx _ _] HO. simpl in *. split; simpl; [by rewrite length_insert| |done..].
  intros fx'. rewrite HO. case_decide as E.
  - subst. apply list_lookup_insert_eq. rewrite Hl. apply fx_ordinal_lt.
  - rewrite list_lookup_insert_ne; [apply Hfx|].
    intros E'. apply E, fx_ordinal_inj. lia.
Qed.

Lemma agree_same eng i0 h0 O i h : controls_agree (MkControls eng i0 h0) (MkLive O i0 h0) →
  controls_agree (MkControls eng i h) (MkLive O i h).
Proof. by intros [? ? _ _]. Qed.

Lemma union_decide (fx fx' : PerformanceFx) (O : gset PerformanceFx) :
  bool_decide (fx' ∈ {[fx]} ∪ O) = if decide (fx = fx') then true else bool_decide (fx' ∈ O).
Proof. case_decide; [apply bool_decide_eq_true_2|apply bool_decide_ext]; set_solver. Qed.

Lemma difference_decide (fx fx' : PerformanceFx) (O : gset PerformanceFx) :
  bool_decide (fx' ∈ O ∖ {[fx]}) = if decide (fx = fx') then false else bool_decide (fx' ∈ O).
Proof. case_decide; [apply bool_decide_eq_false_2|apply bool_decide_ext]; set_solver. Qed.

Lemma valid_fx_true fx : valid_fx fx = true.
Proof. by destruct fx. Qed.

Lemma valid_filter_type_true t : valid_filter_type t = true.
Proof. by destruct t. Qed.

Section refinement.
Context `{JL : JsonLib}.

Lemma engaged_at_agree c l fx : controls_agree c l →
  engaged_at c fx = success (bool_decide (fx ∈ open_fx l)).
Proof. intros H. unfold engaged_at. by rewrite (agree_fx _ _ H). Qed.

Lemma visit_payload_step headered c l p c' : controls_agree c l →
  visit_payload headered c p = success c' →
  ∃ l', live_step headered l p l' ∧ controls_agree c' l'.
Proof.
  intros Hc Hv. pose proof (agree_independent _ _ Hc) as Ei. pose proof (agree_hold _ _ Hc) as Eh.
  destruct l as [O i h], c as [eng i' h']. simpl in Ei, Eh. subst i' h'.
  destruct p; simpl in Hv;
    unfold kPerformancePadSlotMax, kPatternSlotMin, kPatternSlotMax, kFxValueMin, kFxValueMax,
      kFilterCutoffHzMin, kFilterCutoffHzMax, kFilterResonanceMilliMax in Hv;
    rewrite ?valid_fx_true in Hv; cbn [negb orb] in Hv;
    try rewrite (engaged_at_agree _ _ _ Hc) in Hv.
  - case_match; [done|]. injection Hv as <-. eexists. split; [|done]. constructor; lia.
  - case_match; [done|]. injection Hv as <-. eexists. split; [|done]. constructor; lia.
  - case_match; [done|]. simpl in Hv. case_bool_decide as Hin; [done|]. injection Hv as <-.
    eexists. split; [apply step_fx_engage; [lia|done]|]. simpl.
    case_bool_decide; simpl; eapply (agree_insert _ _ _ _ fx); try done;
      intros; apply union_decide.
  - case_match; [done|]. simpl in Hv. case_bool_decide as Hin; [|done]. injection Hv as <-.
    eexists. split; [|done]. constructor; [lia|done].
  - simpl in Hv. case_bool_decide as Hin; [|done]. injection Hv as <-.
    eexists. split; [by apply step_fx_release|].
    eapply (agree_insert _ _ _ _ fx); [done|]. intros; apply difference_decide.
  - destruct h; [done|]. injection Hv as <-.
    eexists. split; [by apply step_hold_on|]. by eapply agree_same.
  - destruct h; [|done]. injection Hv as <-.
    eexists. split; [by apply step_hold_off|]. by eapply agree_same.
  - destruct headered; [|done]. cbn [negb] in Hv. case_match eqn:Er; [done|].
    destruct phase, i; simpl in Hv; try done; injection Hv as <-;
      (eexists; split; [constructor; simpl; (done || lia)|]); simpl; try done.
    + eapply (agree_insert _ _ _ _ PerformanceFx.filter); [done|].
      intros; apply difference_decide.
    + by eapply agree_same.
  - destruct headered; [|done]. injection Hv as <-. eexists. split; [by constructor|done].
Qed.

Lemma step_visit_payload headered c l p l' : controls_agree c l →
  live_step headered l p l' →
  ∃ c', visit_payload headered c p = success c' ∧ controls_agree c' l'.
Proof.
  intros Hc Hs. pose proof (agree_independent _ _ Hc) as Ei. pose proof (agree_hold _ _ Hc) as Eh.
  destruct l as [O i h], c as [eng i' h']. simpl in Ei, Eh. subst i' h'.
  inversion Hs; subst; simpl in *; subst;
    unfold kPerformancePadSlotMax, kPatternSlotMin, kPatternSlotMax, kFxValueMin, kFxValueMax,
      kFilterCutoffHzMin, kFilterCutoffHzMax, kFilterResonanceMilliMax;
    rewrite ?valid_fx_true, ?valid_filter_type_true; cbn [negb orb]; try rewrite (engaged_at_agree _ _ _ Hc);
    try match goal with |- context [if ?g || ?r then _ else _] => destruct (g || r) eqn:?; [lia|] end;
    cbn [mbind result_bind open_fx].
  all: try (eexists; split; [reflexivity|done]).
  - rewrite bool_decide_eq_false_2 by done. eexists. split; [reflexivity|].
    case_bool_decide; simpl; eapply (agree_insert _ _ _ _ fx); try done;
      intros; apply union_decide.
  - rewrite bool_decide_eq_true_2 by done. eexists. split; [reflexivity|done].
  - rewrite bool_decide_eq_true_2 by done. eexists. split; [reflexivity|].
    eapply (agree_insert _ _ _ _ fx); [done|]. intros; apply difference_decide.
  - eexists. split; [reflexivity|]. by eapply agree_same.
  - eexists. split; [reflexivity|]. by eapply agree_same.
  - eexists. split; [reflexivity|].
    eapply (agree_insert _ _ _ _ PerformanceFx.filter); [done|].
    intros; apply difference_decide.
  - eexists. split; [reflexivity|]. by eapply agree_same.
Qed.

Lemma visit_events_run headered evs c l : controls_agree c l →
  (∃ c', fold_result (visit_event headered) c evs = success c') ↔
  (∃ l', live_run headered l evs l').
Proof.
  revert c l. induction evs as [|e evs IH]; intros c l Hc; cbn [fold_result].
  { split; intros _; eexists; [constructor|done]. }
  split.
  - intros (c' & (c1 & Hv & Hf)%result_bind_success).
    unfold visit_event in Hv. case_bool_decide as Hs; cbn [negb] in Hv; [|done].
    destruct (visit_payload_step _ _ _ _ _ Hc Hv) as (l1 & Hstep & Hc1).
    destruct (proj1 (IH c1 l1 Hc1) (ex_intro _ _ Hf)) as [l' Hrun].
    exists l'. by econstructor.
  - intros (l' & Hrun). inversion Hrun as [|? ? l1 ? ? Hs Hstep Hrun']; subst.
    assert (visit_event (has_value (input_sequence e)) c e =
      visit_payload (has_value (input_sequence e)) c (payload e)) as ->
      by (unfold visit_event; by rewrite bool_decide_eq_true_2).
    destruct (step_visit_payload _ _ _ _ _ Hc Hstep) as (c1 & -> & Hc1). cbn [mbind result_bind].
    apply (IH c1 l1 Hc1). eauto.
Qed.

Lemma seed_gates_fold gs eng k fx :
  (S k + length gs ≤ length eng)%nat →
  foldl seed_gate eng (imap (λ i g, ((k + i)%nat, g)) gs) !! fx =
    if decide (k < fx ≤ k + length gs)%nat
    then match gs !! (fx - S k)%nat with
         | Some g => if gate_engaged g || gate_frozen g then Some true else eng !! fx
         | None => eng !! fx end
    else eng !! fx.
Proof.
  revert eng k. induction gs as [|g gs IH]; intros eng k Hlen; simpl in Hlen |- *.
  { case_decide; [lia|done]. }
  rewrite (imap_ext _ (λ i g, ((S k + i)%nat, g))) by (intros; simpl; f_equal; lia).
  rewrite Nat.add_0_r.
  assert (length (seed_gate eng (k, g)) = length eng) as Hl
    by (unfold seed_gate; case_match; [apply length_insert|done]).
  rewrite IH by (rewrite Hl; lia).
  destruct (decide (fx = S k)) as [->|Hne].
  - rewrite decide_False by lia. rewrite decide_True by lia.
    replace (S k - S k)%nat with 0%nat by lia. simpl. unfold seed_gate. simpl.
    case_match; [|done]. apply list_lookup_insert_eq. lia.
  - assert (seed_gate eng (k, g) !! fx = eng !! fx) as ->.
    { unfold seed_gate. simpl. case_match; [|done]. by apply list_lookup_insert_ne. }
    case_decide; [rewrite decide_True by lia|rewrite ?decide_False by lia; done].
    replace (fx - S k)%nat with (S (fx - S (S k))) by lia. done.
Qed.

Lemma seed_gates_elem s fx :
  fx ∈ seed_gates s ↔
  ∃ g, (fx, g) ∈ zip gate_fx (other_fx s) ∧ gate_engaged g || gate_frozen g = true.
Proof.
  unfold seed_gates. rewrite elem_of_list_to_set, list_elem_of_omap. split.
  - intros ([fx' g] & Hin & Hg). case_match eqn:E; [|done]. injection Hg as ->. eauto.
  - intros (g & Hin & Hg). exists (fx, g). by rewrite Hg.
Qed.

(** One gate of [seed_gates_agree]. *)
Ltac gate_case g :=
  rewrite (bool_decide_is_bool _ (gate_engaged g || gate_frozen g)); [by case_match|];
  rewrite seed_gates_elem; simpl; split;
  [intros (g' & Hin & ?); rewrite !elem_of_cons, elem_of_nil in Hin; naive_solver
  |intros ?; exists g; split; [|done]; rewrite !elem_of_cons; tauto].

(** The loop of the source and the set of the specification agree, gate by gate. *)
Lemma seed_gates_agree s fx : length (other_fx s) = 7%nat →
  foldl seed_gate (replicate 8 false) (imap pair (other_fx s)) !! N.to_nat (fx_ordinal fx) =
    Some (bool_decide (fx ∈ seed_gates s)).
Proof.
  destruct s as [h f gs m so]. simpl other_fx. intros Hlen.
  change (imap pair gs) with (imap (λ i g, ((0 + i)%nat, g)) gs).
  rewrite seed_gates_fold by (rewrite length_replicate; lia). rewrite Hlen.
  destruct gs as [|g1 [|g2 [|g3 [|g4 [|g5 [|g6 [|g7 [|]]]]]]]]; try discriminate Hlen.
  destruct fx; cbn [fx_ordinal]; cbv [N.to_nat Pos.to_nat Pos.iter_op Nat.add];
    [rewrite decide_False by lia|rewrite decide_True by lia..]; simpl.
  - rewrite bool_decide_eq_false_2; [done|]. rewrite seed_gates_elem. simpl.
    intros (g & Hin & _). rewrite !elem_of_cons, elem_of_nil in Hin. naive_solver.
  - gate_case g1.
  - gate_case g2.
  - gate_case g3.
  - gate_case g4.
  - gate_case g5.
  - gate_case g6.
  - gate_case g7.
Qed.

Lemma seed_agree seed :
  (∀ s, seed = Some s → length (other_fx s) = 7%nat) →
  controls_agree (seed_controls seed) (seed_live seed).
Proof.
  intros Hlen. destruct seed as [s|]; cbn [seed_controls seed_live].
  - specialize (Hlen s eq_refl). pose proof (λ fx, seed_gates_agree s fx Hlen) as Hg.
    assert (length (foldl seed_gate (replicate 8 false) (imap pair (other_fx s))) = 8%nat) as H8.
    { assert (∀ l eng, length (foldl seed_gate eng l) = length eng) as Hf.
      { intros l. induction l as [|g l IH]; intros eng; simpl; [done|]. rewrite IH.
        unfold seed_gate. case_match; [apply length_insert|done]. }
      by rewrite Hf, length_replicate. }
    assert (PerformanceFx.filter ∉ seed_gates s) as Hnf.
    { rewrite seed_gates_elem. intros (g & Hin & _). apply elem_of_zip_l in Hin.
      unfold gate_fx in Hin. rewrite !elem_of_cons, elem_of_nil in Hin. naive_solver. }
    revert Hg H8. generalize (foldl seed_gate (replicate 8 false) (imap pair (other_fx s))).
    intros gates Hg H8.
    destruct (live_filter s) as [f|f]; split; cbn [engaged open_fx independent independent_filter_active hold_enabled holding]; try done; [by rewrite length_insert|].
    intros fx. destruct (decide (fx = PerformanceFx.filter)) as [->|Hne].
    + cbn [fx_ordinal]. change (N.to_nat 0) with 0%nat.
      rewrite list_lookup_insert_eq by lia. f_equal.
      case_match; symmetry; [apply bool_decide_eq_true_2|apply bool_decide_eq_false_2]; set_solver.
    + rewrite list_lookup_insert_ne, Hg by (destruct fx; simpl; done || lia).
      f_equal. apply bool_decide_ext. case_match; set_solver.
  - split; try done. intros fx. rewrite bool_decide_eq_false_2 by set_solver. by destruct fx.
Qed.

(** The validator accepts exactly the runs of the machine. *)
Lemma validate_with_seed_run evs seed :
  (∀ s, seed = Some s → length (other_fx s) = 7%nat) →
  validate_performance_events_with_seed evs seed = success () ↔
  ∃ l', live_run (has_value seed) (seed_live seed) evs l'.
Proof.
  intros Hlen. rewrite <- (visit_events_run _ _ _ _ (seed_agree seed Hlen)).
  unfold validate_performance_events_with_seed. destruct (fold_result _ _ _) as [c| |]; simpl.
  - split; eauto.
  - split; [done|by intros []].
  - split; [done|by intros []].
Qed.
End refinement.

(** ** Lemmas on the whole Performance *)

Definition profile_key (profile : PerformanceEventProfile) : PerformanceEvent → list N :=
  match profile with legacy => legacy_key | header_input_sequence => header_key end.

Lemma canonical_is_sort profile evs :
  canonical_performance_events evs profile = stable_sort (profile_key profile) evs.
Proof. by destruct profile. Qed.

Lemma canonical_fixpoint profile evs :
  evs = canonical_performance_events evs profile ↔
  StronglySorted (key_le (profile_key profile)) evs.
Proof.
  rewrite canonical_is_sort. split.
  - intros ->. apply stable_sort_sorted.
  - intros H. by rewrite stable_sort_id.
Qed.

Lemma canonical_idempotent profile evs :
  canonical_performance_events (canonical_performance_events evs profile) profile =
  canonical_performance_events evs profile.
Proof. symmetry. apply canonical_fixpoint. rewrite canonical_is_sort. apply stable_sort_sorted. Qed.

(** The header's values: every scalar in its range, frozen only under HOLD. *)
Definition live_state_ok (s : PerformanceInitialLiveState) : Prop :=
  match live_filter s with
  | legacy_filter f => legacy_value f ≤ 1000 ∧ (legacy_frozen f = true → hold s = true)
  | independent_filter f =>
      20 ≤ independent_cutoff_hz f ≤ 20000 ∧ independent_resonance_milli f ≤ 1000 ∧
      (independent_frozen f = true → hold s = true)
  end ∧
  Forall (λ g, gate_value g ≤ 1000 ∧ (gate_frozen g = true → hold s = true)) (other_fx s).

Definition header_ok (p : Performance) : Prop :=
  match initial_live_state p with
  | None => True
  | Some s =>
      live_state_ok s ∧
      ∃ ns, input_sequence <$> performance_events p = Some <$> ns ∧ NoDup ns
  end.

Section performance_lemmas.
Context `{JL : JsonLib}.

Lemma frozen_requires_hold_ok s b :
  frozen_requires_hold s b = true ↔ (b = true → hold s = true).
Proof. unfold frozen_requires_hold. destruct b, (hold s); simpl; naive_solver. Qed.

Lemma live_gates_ok s gs :
  fold_result (λ _ g,
      if (kFxValueMax <? gate_value g) || negb (frozen_requires_hold s (gate_frozen g))
      then invalid_performance "performance initial live FX state is invalid"
      else success ()) () gs = success () ↔
  Forall (λ g, gate_value g ≤ 1000 ∧ (gate_frozen g = true → hold s = true)) gs.
Proof.
  induction gs as [|g gs IH]; cbn [fold_result]; [split; [constructor|done]|].
  rewrite Forall_cons, <- IH, <- frozen_requires_hold_ok. unfold kFxValueMax.
  destruct (_ || _) eqn:E; cbn [mbind result_bind].
  - split; [done|]. intros [[? Hf] _]. rewrite Hf in E. exfalso. cbn in E. lia.
  - apply orb_false_iff in E as [E1 E2]. apply negb_false_iff in E2. split; [|tauto].
    intros H. split; [split; [lia|done]|done].
Qed.

Lemma validate_initial_live_state_ok s :
  validate_initial_live_state s = success () ↔ live_state_ok s.
Proof.
  unfold validate_initial_live_state, live_state_ok. rewrite <- live_gates_ok. cbn zeta.
  unfold kFxValueMax, kFilterCutoffHzMin, kFilterCutoffHzMax, kFilterResonanceMilliMax.
  destruct (live_filter s) as [f|f]; rewrite <- frozen_requires_hold_ok;
    rewrite ?valid_filter_type_true; cbn [negb orb];
    (destruct (_ || _) eqn:E; [split; [done|]|]).
  - intros [[? Hf] _]. rewrite Hf in E. cbn in E. lia.
  - apply orb_false_iff in E as [E1 E2]. apply negb_false_iff in E2.
    split; [|tauto]. intros H. split; [split; [lia|done]|done].
  - intros [(? & ? & Hf) _]. rewrite Hf in E. cbn in E. lia.
  - rewrite !orb_false_iff in E. destruct E as [[[E1 E2] E3] E4]. apply negb_false_iff in E4.
    split; [|tauto]. intros H. split; [split_and!; [lia..|done]|done].
Qed.

Lemma check_sequence_ok evs seen :
  (∃ seen', fold_result check_sequence seen evs = success seen') ↔
  ∃ ns, input_sequence <$> evs = Some <$> ns ∧ NoDup ns ∧ ∀ n, n ∈ ns → n ∉ seen.
Proof.
  revert seen. induction evs as [|e evs IH]; intros seen; cbn [fold_result].
  { split; [|eauto]. intros _. exists []. split_and!; [done|constructor|].
    by intros n ?%elem_of_nil. }
  unfold check_sequence at 1. split.
  - intros (seen' & (s1 & Hv & Hf)%result_bind_success).
    unfold check_sequence in Hv. destruct (input_sequence e) as [n|] eqn:En; [|done].
    case_bool_decide as Hn; [done|]. injection Hv as <-.
    destruct (proj1 (IH _) (ex_intro _ _ Hf)) as (ns & Hns & Hd & Hout).
    exists (n :: ns). split_and!.
    + by rewrite !fmap_cons, En, Hns.
    + constructor; [|done]. intros Hin. specialize (Hout n Hin). set_solver.
    + intros m [->|Hin]%elem_of_cons; [done|]. specialize (Hout m Hin). set_solver.
  - intros (ns & Hns & Hd & Hout). destruct ns as [|n ns]; [done|].
    rewrite !fmap_cons in Hns. injection Hns as En Hns. apply NoDup_cons in Hd as [Hn Hd].
    assert (check_sequence seen e = success ({[n]} ∪ seen)) as ->.
    { unfold check_sequence. rewrite En, bool_decide_eq_false_2; [done|]. apply Hout. left. }
    apply IH. exists ns. split_and!; [done..|]. intros m Hm.
    assert (m ∉ seen) by (apply Hout; by right). assert (m ≠ n) by (by intros ->). set_solver.
Qed.

Lemma validate_header_ok p : validate_header p = success () ↔ header_ok p.
Proof.
  unfold validate_header, header_ok. destruct (initial_live_state p) as [s|]; [|done].
  rewrite <- validate_initial_live_state_ok.
  assert ((∃ seen', fold_result check_sequence ∅ (performance_events p) = success seen') ↔
    ∃ ns, input_sequence <$> performance_events p = Some <$> ns ∧ NoDup ns) as <-.
  { rewrite check_sequence_ok. split.
    - intros (ns & ? & ? & _). eauto.
    - intros (ns & ? & ?). exists ns. split_and!; [done..|]. set_solver. }
  split.
  - intros ([] & -> & (seen & Hf & _)%result_bind_success)%result_bind_success. eauto.
  - intros [-> [seen Hf]]. cbn [mbind result_bind]. by rewrite Hf.
Qed.

Lemma name_valid_ok name : name_valid name = true ↔
  ∃ cps, Forall is_scalar cps ∧ bytes name = utf8_encode_all cps ∧ (1 ≤ length cps ≤ 64)%nat.
Proof.
  unfold name_valid, kPerformanceNameMax. split.
  - destruct (utf8_code_point_count name) as [n|] eqn:E; [|done]. intros H.
    apply code_point_count_spec in E as (cps & ? & ? & ->). exists cps. split_and!; [done..|lia|lia].
  - intros (cps & Hs & Hb & Hl).
    rewrite (proj2 (code_point_count_spec name (N.of_nat (length cps)))) by eauto. lia.
Qed.

Definition performance_shape (p : Performance) : Prop :=
  ∀ s, initial_live_state p = Some s → length (other_fx s) = 7%nat.

(** What [validate_performance] accepts, in the terms of the specification. *)
Record performance_ok (p : Performance) : Prop := {
  ok_id : is_valid_uuid (value (performance_id p)) = true;
  ok_name : ∃ cps, Forall is_scalar cps ∧
              bytes (performance_name p) = utf8_encode_all cps ∧ (1 ≤ length cps ≤ 64)%nat;
  ok_bpm : 40 ≤ created_bpm p ≤ 240;
  ok_artifact : recording_artifact_valid (recording_artifact p) = true;
  ok_header : header_ok p;
  ok_order : StronglySorted (key_le (profile_key (performance_event_profile p)))
               (performance_events p);
  ok_run : ∃ l, live_run (has_value (initial_live_state p)) (seed_live (initial_live_state p))
                  (performance_events p) l
}.

Lemma validate_performance_ok p : performance_shape p →
  validate_performance p = success () ↔ performance_ok p.
Proof.
  intros Hshape. unfold validate_performance.
  assert (match initial_live_state p with
          | Some s => validate_headered_performance_events
                        (canonical_performance_events (performance_events p)
                           (performance_event_profile p)) s
          | None => validate_legacy_performance_events
                      (canonical_performance_events (performance_events p)
                         (performance_event_profile p))
          end = success () ↔
          ∃ l, live_run (has_value (initial_live_state p)) (seed_live (initial_live_state p))
            (canonical_performance_events (performance_events p) (performance_event_profile p)) l)
    as Hrun.
  { rewrite <- (validate_with_seed_run _ _ Hshape). unfold performance_event_profile.
    destruct (initial_live_state p); cbn [has_value];
      unfold validate_headered_performance_events, validate_legacy_performance_events.
    - by rewrite canonical_idempotent.
    - by rewrite <- (canonical_idempotent legacy (performance_events p)) at 2. }
  split.
  - intros H. destruct (is_valid_uuid _) eqn:E1; cbn [negb] in H; [|done].
    destruct (name_valid _) eqn:E2; cbn [negb] in H; [|done].
    destruct ((created_bpm p <? 40) || _) eqn:E3; [done|].
    destruct (recording_artifact_valid _) eqn:E4; cbn [negb] in H; [|done].
    apply result_bind_success in H as ([] & Hh & H). apply validate_header_ok in Hh.
    case_bool_decide as Ho; cbn [negb] in H; [|done]. rewrite <- Ho in Hrun.
    split; try done; [by apply name_valid_ok|lia|by apply canonical_fixpoint|by apply Hrun].
  - intros [Hid Hname Hbpm Hart Hhead Hord Hr].
    rewrite Hid, (proj2 (name_valid_ok _) Hname), Hart. cbn [negb].
    destruct ((created_bpm p <? 40) || _) eqn:E3; [lia|].
    rewrite (proj2 (validate_header_ok p) Hhead). cbn [mbind result_bind].
    apply canonical_fixpoint in Hord. rewrite bool_decide_eq_true_2 by done. cbn [negb].
    rewrite <- Hord in Hrun. by apply Hrun.
Qed.
End performance_lemmas.

(** ** Exclusive filter stages *)

Definition exclusive (l : live) : Prop := PerformanceFx.filter ∈ open_fx l → independent l = false.

Lemma live_step_exclusive headered l p l' :
  live_step headered l p l' → exclusive l → exclusive l'.
Proof.
  unfold exclusive. intros Hs Hl. destruct Hs; simpl; try done.
  - case_bool_decide; set_solver.
  - set_solver.
  - set_solver.
Qed.

Lemma seed_live_exclusive seed : exclusive (seed_live seed).
Proof.
  unfold exclusive. destruct seed as [s|]; [|done]. simpl.
  destruct (live_filter s) as [f|f]; simpl; [done|].
  intros Hin. exfalso. unfold seed_gates in Hin.
  apply elem_of_list_to_set, list_elem_of_omap in Hin as ([fx g] & Hin & Hg).
  case_match; [|done]. injection Hg as ->. apply elem_of_zip_l in Hin.
  unfold gate_fx in Hin. rewrite !elem_of_cons, elem_of_nil in Hin. naive_solver.
Qed.

Section stage_lemmas.
Context `{JL : JsonLib}.

Lemma visit_event_payload headered c e c' : visit_event headered c e = success c' →
  headered = has_value (input_sequence e) ∧ visit_payload headered c (payload e) = success c'.
Proof. unfold visit_event. by case_bool_decide. Qed.

Lemma visit_events_exclusive headered evs c l c' :
  controls_agree c l → exclusive l →
  fold_result (visit_event headered) c evs = success c' →
  ∃ l', controls_agree c' l' ∧ exclusive l'.
Proof.
  revert c l. induction evs as [|e evs IH]; intros c l Hc He; cbn [fold_result].
  { intros [= <-]. eauto. }
  intros (c1 & [_ Hv]%visit_event_payload & Hf)%result_bind_success.
  destruct (visit_payload_step _ _ _ _ _ Hc Hv) as (l1 & Hs & Hc1).
  eapply IH; [done| |done]. by eapply live_step_exclusive.
Qed.
End stage_lemmas.

(** ** Properties *)


(** A headered recording that begins with the Delay frozen under HOLD. *)
Definition example_gate : PerformanceFxGateState := MkFxGate false false 0.

Definition example_header : PerformanceInitialLiveState :=
  MkInitialLiveState true
    (independent_filter (MkIndependentFilter false false PerformanceFilterType.lp 20000 0))
    (MkFxGate false true 500 :: replicate 6 example_gate) 0 0.

Definition example_performance : Performance :=
  MkPerformance (MkId "0a1b2c3d-4e5f-4061-8283-94a5b6c7d8e9") "take 1" 96 3 None
    [MkPerformanceEvent (FilterChangePerformanceEvent PerformanceFilterPhase.engage
       PerformanceFilterType.lp 800 200 0) (Some 4);
     MkPerformanceEvent (FxMovePerformanceEvent PerformanceFx.delay 700 0) (Some 7);
     MkPerformanceEvent (FxEngagePerformanceEvent PerformanceFx.filter 10 480) (Some 8);
     MkPerformanceEvent (HoldOffPerformanceEvent 960) (Some 9)]
    (Some example_header).


(** While a recording is validated, the legacy Filter effect and the
    independent Filter are never both open: engaging one closes the other. *)
Theorem filter_stage_exclusive `{JL : JsonLib} evs seed c
    (Hs : ∀ s, seed = Some s → length (other_fx s) = 7%nat)
    (Hf : fold_result (visit_event (has_value seed)) (seed_controls seed) evs = success c) :
  ¬ (engaged c !! 0%nat = Some true ∧ independent_filter_active c = true).
Proof.
  destruct (visit_events_exclusive _ _ _ _ _ (seed_agree seed Hs) (seed_live_exclusive seed) Hf)
    as (l & Hc & He). intros [H0 Hi].
  pose proof (agree_fx _ _ Hc PerformanceFx.filter) as Hfx. change (N.to_nat _) with 0%nat in Hfx.
  rewrite H0 in Hfx. injection Hfx as Hfx. symmetry in Hfx. apply bool_decide_eq_true_1 in Hfx.
  specialize (He Hfx). rewrite (agree_independent _ _ Hc) in Hi. congruence.
Qed.

Lemma filter_stage_exclusive_witness :
  ∃ c, engaged c !! 0%nat = Some true ∧
       ¬ (engaged c !! 0%nat = Some true ∧ independent_filter_active c = true).
Proof.
  exists (MkControls [true; true; false; false; false; false; false; false] false true).
  split; [reflexivity|].
  apply (filter_stage_exclusive (JL := dom_lib) (take 3 (performance_events example_performance))
           (Some example_header)); [|reflexivity].
  intros s Hs. injection Hs as <-. reflexivity.
Defined.

(** The canonical order of a recording, in both profiles, is a sorted
    permutation of the events that keeps the order of events with equal keys;
    ordering twice is ordering once. *)
Theorem canonical_order_stable evs profile :
  canonical_performance_events evs profile ≡ₚ evs ∧
  StronglySorted (key_le (profile_key profile)) (canonical_performance_events evs profile) ∧
  (∀ k, filter (λ e, profile_key profile e = k) (canonical_performance_events evs profile) =
        filter (λ e, profile_key profile e = k) evs) ∧
  canonical_performance_events (canonical_performance_events evs profile) profile =
    canonical_performance_events evs profile.
Proof.
  split_and!; [| | |apply canonical_idempotent]; rewrite canonical_is_sort.
  - apply stable_sort_perm.
  - apply stable_sort_sorted.
  - intros k. apply stable_sort_filter.
Qed.
