(* ===== verification/Commands.v ===== *)
(** Commands on a Project and their handlers.

    Models packages/authoring-domain/include/lmdj/domain/commands.hpp and
    src/command_handler.cpp: every command struct, one handler per command
    ([apply_new_command], an overload set in the source and a class here), the
    receipt and revision checks of [apply_checked], and the public overloads of
    [apply].  The handlers mutate a copy of the state; here they build the new
    state from the old one. *)

From S2P Require Import Prelude Json Foundation Text Project Playback Fields Lineage Soundset Sequence.

(** ** Commands *)

Record CommandMeta := MkCommandMeta { command_id : CommandId; expected_revision : N }.

Record ImportAsset := MkImportAsset { import_meta : CommandMeta; import_asset : Asset }.

Record AssignPad := MkAssignPad {
  assign_meta : CommandMeta;
  assign_slot : PadSlotId;
  assign_asset_id : option AssetId
}.

Record DeletePad := MkDeletePad { delete_meta : CommandMeta; delete_slot : PadSlotId }.

(** [DeletePad::assignment]. *)
Definition assignment (c : DeletePad) : AssignPad :=
  MkAssignPad (delete_meta c) (delete_slot c) None.

Record ImportAssignSample := MkImportAssignSample {
  sample_meta : CommandMeta;
  sample_asset : Asset;
  sample_slot : PadSlotId
}.

Record SetPadColour := MkSetPadColour {
  colour_meta : CommandMeta;
  colour_slot : PadSlotId;
  colour : option N
}.

Record UpdatePadPlayback := MkUpdatePadPlayback {
  playback_meta : CommandMeta;
  playback_slot : PadSlotId;
  playback : PadPlayback
}.

Record ResetPadPlayback := MkResetPadPlayback {
  reset_meta : CommandMeta;
  reset_slot : PadSlotId
}.

Record CreatePattern := MkCreatePattern { create_meta : CommandMeta; create_pattern : Pattern }.

Record AssignPatternSlot := MkAssignPatternSlot {
  assign_slot_meta : CommandMeta;
  assigned_slot : N;
  assigned_pattern_id : PatternId
}.

Record ClearPatternSlot := MkClearPatternSlot { clear_meta : CommandMeta; cleared_slot : N }.

Record MovePatternSlot := MkMovePatternSlot {
  move_meta : CommandMeta;
  from_slot : N;
  to_slot : N
}.

Record MergePatternEvents := MkMergePatternEvents {
  merge_meta : CommandMeta;
  merge_pattern_id : PatternId;
  merge_events : list PatternEvent
}.

Record PatternEventKey := MkPatternEventKey { key_slot : PadSlotId; key_onset_tick : N }.

#[export] Instance PatternEventKey_eq_dec : EqDecision PatternEventKey.
Proof. solve_decision. Defined.
#[export] Instance PatternEventKey_countable : Countable PatternEventKey.
Proof.
  apply (inj_countable' (λ k, (key_slot k, key_onset_tick k))
           (λ p, MkPatternEventKey p.1 p.2)). by intros [].
Defined.

Record EditPatternEvents := MkEditPatternEvents {
  edit_meta : CommandMeta;
  edit_pattern_id : PatternId;
  edit_remove : list PatternEventKey;
  edit_put : list PatternEvent
}.

Record ResizePattern := MkResizePattern {
  resize_meta : CommandMeta;
  resize_pattern_id : PatternId;
  resize_bars : N
}.

Record DoubleUpPattern := MkDoubleUpPattern {
  double_meta : CommandMeta;
  double_pattern_id : PatternId
}.

Record CopyPattern := MkCopyPattern {
  copy_meta : CommandMeta;
  copy_source_pattern_id : PatternId;
  copy_pattern_id : PatternId
}.

Record UpdateSequenceSettings := MkUpdateSequenceSettings {
  settings_meta : CommandMeta;
  settings_bpm : option N;
  settings_quantize_enabled : option bool;
  settings_swing_percent : option N
}.

Record SoundSetInstallAssignment := MkInstallAssignment {
  install_slot : PadSlotId;
  install_asset : Asset
}.

Record InstallSoundSet := MkInstallSoundSet {
  install_meta : CommandMeta;
  install_assignments : list SoundSetInstallAssignment
}.

Record CandidateAdoptionAssignment := MkAdoptionAssignment {
  adopt_slot : PadSlotId;
  adopt_asset : Asset
}.

Record AdoptCandidates := MkAdoptCandidates {
  adopt_meta : CommandMeta;
  adopt_project_id : ProjectId;
  adopt_source_asset_id : AssetId;
  adopt_source_artifact : ArtifactRef;
  adopt_assignments : list CandidateAdoptionAssignment
}.

(** [using Command = std::variant<...>]. *)
Inductive Command :=
  | CImportAsset (c : ImportAsset)
  | CAssignPad (c : AssignPad)
  | CCreatePattern (c : CreatePattern)
  | CAssignPatternSlot (c : AssignPatternSlot)
  | CClearPatternSlot (c : ClearPatternSlot)
  | CMovePatternSlot (c : MovePatternSlot)
  | CMergePatternEvents (c : MergePatternEvents)
  | CUpdateSequenceSettings (c : UpdateSequenceSettings).

(** ** Results *)

Record AppliedCommand `{JL : JsonLib} := MkApplied {
  applied_state : ProjectState;
  applied_event : json;
  replayed : bool
}.

Record CommandReceipt `{JL : JsonLib} := MkReceipt {
  committed_revision : N;
  receipt_event : json
}.

(** ** Sound Set mapping *)

Inductive OccupiedPadPolicy := keep | replace.

#[export] Instance OccupiedPadPolicy_eq_dec : EqDecision OccupiedPadPolicy.
Proof. solve_decision. Defined.

Record SoundSetProposedPad := MkProposedPad {
  proposed_slot_index : N;
  proposed_pad : N;
  proposed_artifact : ArtifactRef;
  proposed_category : option AssetCategory
}.

Record SoundSetMapping := MkSoundSetMapping {
  proposed : list SoundSetProposedPad;
  collisions : list N;
  kept : list N
}.

Section mapping.
Context `{JL : JsonLib}.

(** One iteration of the loop of [map_soundset]. *)
Definition map_soundset_pad (slots : list SoundSetSlot) (m : SoundSetMapping)
    (ip : nat * PadSlot) : Result SoundSetMapping :=
  let pad := wrap 8 (N.of_nat ip.1) in
  s ← throwing (slots !! ip.1);
  success (match occupied s with
  | None => MkSoundSetMapping (proposed m) (collisions m) (kept m ++ [pad])
  | Some o =>
      MkSoundSetMapping
        (proposed m ++
           [MkProposedPad pad pad (occupied_artifact o) (soundset_role_category (role o))])
        (if has_value (pad_asset_id ip.2) then collisions m ++ [pad] else collisions m)
        (kept m)
  end).

Definition map_soundset (manifest : SoundSetManifest) (pads : list PadSlot) :
    Result SoundSetMapping :=
  fold_result (map_soundset_pad (slots manifest)) (MkSoundSetMapping [] [] []) (imap pair pads).

Definition resolve_soundset_write_set (m : SoundSetMapping) (policy : option OccupiedPadPolicy) :
    Result (list SoundSetProposedPad) :=
  if negb (is_empty (collisions m)) && negb (has_value policy) then
    failure (MkError _ invalid_argument "installing this Sound Set needs an occupied Pad policy"
      (j_object [("collisions", j_array (j_uint <$> collisions m));
                 ("reason", j_string "soundset_occupied_conflict")]))
  else if bool_decide (value_or policy replace = replace) then success (proposed m)
  else success (filter (λ p, proposed_pad p ∉ collisions m) (proposed m)).
End mapping.

(** ** Building results *)

Section handlers.
Context `{JL : JsonLib}.

Definition invalid {A} (m : string) : Result A := failure (plain_error invalid_argument m).

(** [if (!r.has_value()) return invalid(r.error().message)], then go on. *)
Definition or_invalid {A} (r : Result ()) (k : Result A) : Result A :=
  match r with
  | success _ => k
  | failure e => invalid (message e)
  | thrown => thrown
  end.

Definition duplicate {A} (m : string) : Result A := failure (plain_error duplicate_id m).

Definition edit_refused {A} (c : ErrorCode) (m reason : string) : Result A :=
  failure (MkError _ c m (j_object [("reason", j_string reason)])).

Definition valid_artifact (a : ArtifactRef) : bool :=
  valid_sha256 (sha256 a) && negb (bool_decide (media_type a = "")).

Definition command_event (type : string) (meta : CommandMeta) (revision : N) : json :=
  j_object [("command_id", j_string (value (command_id meta)));
            ("revision", j_uint revision);
            ("type", j_string type)].

Definition applied (st : ProjectState) (type : string) (meta : CommandMeta)
    (c : ProjectContract) : AppliedCommand :=
  let st := with_contract st (contract_max (contract st) c) in
  let st := with_revision st (u64_add (revision st) 1) in
  MkApplied _ st (command_event type meta (revision st)) false.

(** [result.value().event[key] = v]. *)
Definition with_event_member (a : AppliedCommand) (key : string) (v : json) : AppliedCommand :=
  MkApplied _ (applied_state a) (j_set (applied_event a) key v) (replayed a).

(** [std::map::emplace]: an existing entry stays. *)
Definition emplace {Tag V} (m : gmap (StrongId Tag) V) (k : StrongId Tag) (v : V) :
    gmap (StrongId Tag) V :=
  if map_contains m k then m else <[k := v]> m.

(** ** Pattern slots *)

Definition apply_assign_pattern_slot (st : ProjectState) (c : AssignPatternSlot) :
    Result AppliedCommand :=
  or_invalid (validate_pattern_slots st)
  (if kPatternSlotCount <=? assigned_slot c then invalid "Pattern slot is out of range"
   else if negb (is_valid_uuid (value (assigned_pattern_id c))) ||
           negb (map_contains (patterns st) (assigned_pattern_id c)) then
     invalid "assigned Pattern does not exist"
   else
     current ← throwing (slot_at (pattern_slots st) (assigned_slot c));
     if has_value current then invalid "Pattern slot is already occupied"
     else if bool_decide (Some (assigned_pattern_id c) ∈ pattern_slots st) then
       invalid "Pattern is already assigned to a slot"
     else
       let copy := with_pattern_slots st
         (set_slot_at (pattern_slots st) (assigned_slot c) (Some (assigned_pattern_id c))) in
       let result := applied copy "pattern.slot_assigned" (assign_slot_meta c)
                       ProjectContract.v4 in
       let result := with_event_member result "pattern_id"
                       (j_string (value (assigned_pattern_id c))) in
       success (with_event_member result "pattern_slot" (j_uint (assigned_slot c)))).

Definition apply_clear_pattern_slot (st : ProjectState) (c : ClearPatternSlot) :
    Result AppliedCommand :=
  or_invalid (validate_pattern_slots st)
  (if kPatternSlotCount <=? cleared_slot c then invalid "Pattern slot is out of range"
   else
     current ← throwing (slot_at (pattern_slots st) (cleared_slot c));
     match current with
     | None => invalid "Pattern slot is empty"
     | Some id =>
         let copy := with_pattern_slots st
           (set_slot_at (pattern_slots st) (cleared_slot c) None) in
         let result := applied copy "pattern.slot_cleared" (clear_meta c) ProjectContract.v4 in
         let result := with_event_member result "pattern_id" (j_string (value id)) in
         success (with_event_member result "pattern_slot" (j_uint (cleared_slot c)))
     end).

Definition apply_move_pattern_slot (st : ProjectState) (c : MovePatternSlot) :
    Result AppliedCommand :=
  or_invalid (validate_pattern_slots st)
  (if (kPatternSlotCount <=? from_slot c) || (kPatternSlotCount <=? to_slot c) then
     invalid "Pattern slot is out of range"
   else if from_slot c =? to_slot c then
     invalid "Pattern slot move requires different slots"
   else
     source ← throwing (slot_at (pattern_slots st) (from_slot c));
     match source with
     | None => invalid "Pattern slot move source is empty"
     | Some id =>
         target ← throwing (slot_at (pattern_slots st) (to_slot c));
         if has_value target then invalid "Pattern slot move target is occupied"
         else
           let slots := set_slot_at (pattern_slots st) (from_slot c) None in
           let slots := set_slot_at slots (to_slot c) (Some id) in
           let result := applied (with_pattern_slots st slots) "pattern.slot_moved"
                           (move_meta c) ProjectContract.v4 in
           let result := with_event_member result "from_slot" (j_uint (from_slot c)) in
           let result := with_event_member result "pattern_id" (j_string (value id)) in
           success (with_event_member result "to_slot" (j_uint (to_slot c)))
     end).

(** ** Assets and Pads *)

(** The Lineage checks shared by the two import handlers. *)
Definition check_import_lineage (st : ProjectState) (a : Asset) : Result () :=
  match asset_lineage a with
  | None => success ()
  | Some l =>
      _ ← validate_asset_lineage l;
      if contract_lt (contract st) ProjectContract.v4 ||
         (bool_decide (asset_lineage_derivation_kind l = kind_capability_adoption) &&
          contract_lt (contract st) ProjectContract.v5) then
        invalid "Asset Lineage is not supported by this Project Contract"
      else success ()
  end.

Definition apply_import_asset (st : ProjectState) (c : ImportAsset) : Result AppliedCommand :=
  if negb (is_valid_uuid (value (asset_id (import_asset c)))) then
    invalid "asset id must be a lowercase UUID"
  else if negb (valid_artifact (asset_artifact (import_asset c))) then
    invalid "artifact reference is invalid"
  else
    _ ← check_import_lineage st (import_asset c);
    if map_contains (assets st) (asset_id (import_asset c)) then
      duplicate "asset id already exists"
    else
      let copy := with_assets st
        (emplace (assets st) (asset_id (import_asset c)) (import_asset c)) in
      success (applied copy "asset.imported" (import_meta c) ProjectContract.v3).

Definition apply_assign_pad (st : ProjectState) (c : AssignPad) : Result AppliedCommand :=
  if negb (is_valid_slot (assign_slot c)) then invalid "pad slot is invalid"
  else if match assign_asset_id c with
          | Some id => negb (is_valid_uuid (value id)) | None => false end then
    invalid "asset id must be a lowercase UUID"
  else if match assign_asset_id c with
          | Some id => negb (map_contains (assets st) id) | None => false end then
    failure (plain_error missing_asset "assigned asset does not exist")
  else
    pad ← throwing (pad_at (banks st) (assign_slot c));
    let resets_playback := negb (has_value (assign_asset_id c)) ||
                           negb (bool_decide (pad_asset_id pad = assign_asset_id c)) in
    let pad := pad_with_asset pad (assign_asset_id c) in
    let pad := if resets_playback then pad_with_playback pad default_playback else pad in
    let pad := if negb (has_value (assign_asset_id c)) then pad_with_colour pad None else pad in
    success (applied (with_banks st (set_pad_at (banks st) (assign_slot c) pad))
               "pad.assigned" (assign_meta c) ProjectContract.v3).

(** The Asset lands in the Project and on the Pad, which keeps its colour. *)
Definition place_asset (st : ProjectState) (s : PadSlotId) (a : Asset) : Result ProjectState :=
  let copy := with_assets st (emplace (assets st) (asset_id a) a) in
  pad ← throwing (pad_at (banks copy) s);
  let pad := pad_with_playback (pad_with_asset pad (Some (asset_id a))) default_playback in
  success (with_banks copy (set_pad_at (banks copy) s pad)).

Definition apply_import_assign_sample (st : ProjectState) (c : ImportAssignSample) :
    Result AppliedCommand :=
  if negb (is_valid_slot (sample_slot c)) then invalid "pad slot is invalid"
  else if negb (is_valid_uuid (value (asset_id (sample_asset c)))) then
    invalid "asset id must be a lowercase UUID"
  else if negb (valid_artifact (asset_artifact (sample_asset c))) then
    invalid "artifact reference is invalid"
  else
    _ ← check_import_lineage st (sample_asset c);
    if map_contains (assets st) (asset_id (sample_asset c)) then
      duplicate "asset id already exists"
    else
      copy ← place_asset st (sample_slot c) (sample_asset c);
      success (applied copy "sample.imported_assigned" (sample_meta c) ProjectContract.v3).

(** ** Adopting candidates *)

Definition validate_candidate_source (st : ProjectState) (project : ProjectId)
    (expected : N) (source_asset_id : AssetId) (source_artifact : ArtifactRef) : Result () :=
  if negb (bool_decide (project_id st = project)) || negb (revision st =? expected) then
    failure (plain_error revision_conflict "Adoption Project identity or revision changed")
  else match assets st !! source_asset_id with
  | None => edit_refused not_found "Candidate source Asset is missing" "source_asset_missing"
  | Some source =>
      if negb (bool_decide (asset_artifact source = source_artifact)) then
        edit_refused revision_conflict "Candidate source binding changed"
          "candidate_source_changed"
      else success ()
  end.

(** The sets of the loop and the evidence of its first assignment. *)
Record adoption_seen := MkAdoptionSeen {
  adoption_targets : gset (N * N);
  adoption_ids : gset AssetId;
  adoption_evidence : option (CapabilityAdoptionLineageDerivation * AssetArtifactLineageSource)
}.

Definition with_recipe (d : CapabilityAdoptionLineageDerivation) (r : SliceIntervalRecipe) :
    CapabilityAdoptionLineageDerivation :=
  MkCapabilityAdoption (adoption_capability d) (adoption_provider d) (adoption_model_identity d)
    (adoption_parameters_sha256 d) (adoption_attempt_id d) (adoption_source_asset_id d)
    (adoption_output_artifact d) r.

(** The part of the loop body after the Lineage is known to be present. *)
Definition check_adoption_lineage (st : ProjectState) (c : AdoptCandidates)
    (seen : adoption_seen) (lineage : AssetLineage) : Result adoption_seen :=
  or_invalid (validate_asset_lineage lineage)
  match lineage_source lineage, lineage_derivation lineage with
  | asset_artifact_source source, capability_adoption_derivation derivation =>
      if negb (bool_decide (source_artifact_sha256 source = sha256 (adopt_source_artifact c))) ||
         (revision st <? source_project_revision source) ||
         negb (bool_decide (adoption_source_asset_id derivation = adopt_source_asset_id c)) then
        invalid "adoption lineage must match its source binding"
      else match adoption_evidence seen with
      | Some (evidence, analysis) =>
          let comparable := with_recipe derivation (adoption_recipe evidence) in
          if negb (bool_decide (comparable = evidence)) || negb (bool_decide (source = analysis))
          then invalid "adoption requires one analysis identity"
          else success seen
      | None =>
          success (MkAdoptionSeen (adoption_targets seen) (adoption_ids seen)
                     (Some (derivation, source)))
      end
  | _, _ => invalid "adoption lineage must match its source binding"
  end.

Definition check_adoption (st : ProjectState) (c : AdoptCandidates)
    (seen : adoption_seen) (a : CandidateAdoptionAssignment) : Result adoption_seen :=
  let target := (bank (adopt_slot a), pad (adopt_slot a)) in
  let id := asset_id (adopt_asset a) in
  if negb (is_valid_slot (adopt_slot a)) || bool_decide (target ∈ adoption_targets seen) then
    invalid "adoption targets must be valid and unique"
  else if negb (is_valid_uuid (value id)) || bool_decide (id ∈ adoption_ids seen) ||
          map_contains (assets st) id then
    invalid "adoption Asset IDs must be new and unique"
  else if negb (valid_artifact (asset_artifact (adopt_asset a))) ||
          negb (bool_decide (media_type (asset_artifact (adopt_asset a)) = "audio/wav")) then
    invalid "adoption requires WAV artifacts and valid lineage"
  else match asset_lineage (adopt_asset a) with
  | None => invalid "adoption requires WAV artifacts and valid lineage"
  | Some lineage =>
      check_adoption_lineage st c
        (MkAdoptionSeen ({[target]} ∪ adoption_targets seen) ({[id]} ∪ adoption_ids seen)
           (adoption_evidence seen)) lineage
  end.

Definition apply_adopt_candidates (st : ProjectState) (c : AdoptCandidates) :
    Result AppliedCommand :=
  _ ← validate_candidate_source st (adopt_project_id c) (expected_revision (adopt_meta c))
        (adopt_source_asset_id c) (adopt_source_artifact c);
  if is_empty (adopt_assignments c) || Nat.ltb 64 (length (adopt_assignments c)) then
    invalid "adoption requires explicit Pad targets"
  else
    _ ← fold_result (check_adoption st c) (MkAdoptionSeen ∅ ∅ None) (adopt_assignments c);
    copy ← fold_result (λ copy a, place_asset copy (adopt_slot a) (adopt_asset a)) st
             (adopt_assignments c);
    success (applied copy "candidate.adopted" (adopt_meta c) ProjectContract.v5).

(** ** Installing a Sound Set *)

Record install_seen := MkInstallSeen {
  install_pads : gset N;
  install_ids : gset AssetId;
  install_identity : option SoundSetLineageSource
}.

(** The part of the loop body after the Lineage is known to be a Sound Set's. *)
Definition check_install_source (seen : install_seen) (a : SoundSetInstallAssignment)
    (source : SoundSetLineageSource) : Result install_seen :=
  if negb (source_slot_index source =? pad (install_slot a)) then
    invalid "soundset Lineage slot index must match the installed Pad Slot"
  else if negb (bool_decide (source_set_artifact_sha256 source =
                             sha256 (asset_artifact (install_asset a)))) then
    invalid "soundset Lineage artifact digest must match the installed Asset"
  else match install_identity seen with
  | None => success (MkInstallSeen (install_pads seen) (install_ids seen) (Some source))
  | Some first =>
      if negb (bool_decide (source_set_id first = source_set_id source)) ||
         negb (bool_decide (source_set_version first = source_set_version source)) ||
         negb (bool_decide (source_manifest_sha256 first = source_manifest_sha256 source)) then
        invalid "a Sound Set install carries exactly one Set identity"
      else success seen
  end.

Definition check_install (st : ProjectState) (b : N) (seen : install_seen)
    (a : SoundSetInstallAssignment) : Result install_seen :=
  let id := asset_id (install_asset a) in
  if negb (is_valid_slot (install_slot a)) then invalid "pad slot is invalid"
  else if negb (bank (install_slot a) =? b) then
    invalid "a Sound Set install targets exactly one Bank"
  else if bool_decide (pad (install_slot a) ∈ install_pads seen) then
    invalid "a Sound Set install assigns each Pad at most once"
  else if negb (is_valid_uuid (value id)) then invalid "asset id must be a lowercase UUID"
  else if bool_decide (id ∈ install_ids seen) then
    invalid "a Sound Set install introduces each asset id once"
  else if negb (valid_artifact (asset_artifact (install_asset a))) then
    invalid "artifact reference is invalid"
  else if map_contains (assets st) id then duplicate "asset id already exists"
  else
    let seen := MkInstallSeen ({[pad (install_slot a)]} ∪ install_pads seen)
                  ({[id]} ∪ install_ids seen) (install_identity seen) in
    match asset_lineage (install_asset a) with
    | Some (MkAssetLineage (soundset_source source) soundset_install_derivation as lineage) =>
        or_invalid (validate_asset_lineage lineage) (check_install_source seen a source)
    | _ => invalid "an installed Sound Set slot must carry soundset Lineage"
    end.

Definition apply_install_soundset (st : ProjectState) (c : InstallSoundSet) :
    Result AppliedCommand :=
  if contract_lt (contract st) ProjectContract.v4 then
    invalid "installing a Sound Set requires lmdj.project.v4 Project Truth"
  else match install_assignments c with
  | [] => invalid "installing a Sound Set needs at least one assignment"
  | front :: _ =>
      _ ← fold_result (check_install st (bank (install_slot front))) (MkInstallSeen ∅ ∅ None)
            (install_assignments c);
      copy ← fold_result (λ copy a, place_asset copy (install_slot a) (install_asset a)) st
               (install_assignments c);
      success (applied copy "soundset.installed" (install_meta c) ProjectContract.v4)
  end.
End handlers.

(** ** Patterns *)

Section pattern_handlers.
Context `{JL : JsonLib}.

Definition pattern_with_events (p : Pattern) (es : list PatternEvent) : Pattern :=
  MkPattern (pattern_id p) (bars p) es.
Definition pattern_with_bars (p : Pattern) (b : N) : Pattern :=
  MkPattern (pattern_id p) b (events p).
Definition pattern_with_id (p : Pattern) (id : PatternId) : Pattern :=
  MkPattern id (bars p) (events p).

Definition key_of (e : PatternEvent) : PatternEventKey := MkPatternEventKey (slot e) (onset_tick e).

(** The first loop of the grid edit: the removed keys. *)
Definition collect_removed (removed : gset PatternEventKey) (key : PatternEventKey) :
    Result (gset PatternEventKey) :=
  if negb (is_valid_slot (key_slot key)) then invalid "pattern event key is invalid"
  else if bool_decide (key ∈ removed) then
    edit_refused invalid_argument "pattern edit removes an event twice"
      "pattern_edit_duplicate_key"
  else success ({[key]} ∪ removed).

(** The second loop: the keys of the put events. *)
Definition collect_put (put : gset PatternEventKey) (e : PatternEvent) :
    Result (gset PatternEventKey) :=
  if bool_decide (key_of e ∈ put) then
    edit_refused invalid_argument "pattern edit puts an event twice"
      "pattern_edit_duplicate_key"
  else success ({[key_of e]} ∪ put).

(** The third loop: the kept events and the number of events removed. *)
Definition keep_or_count (removed : gset PatternEventKey) (s : list PatternEvent * nat)
    (e : PatternEvent) : list PatternEvent * nat :=
  if bool_decide (key_of e ∈ removed) then (s.1, S s.2) else (s.1 ++ [e], s.2).

(** [copy.patterns.at(id)] replaced. *)
Definition update_pattern (st : ProjectState) (id : PatternId) (f : Pattern → Pattern) :
    Result ProjectState :=
  p ← throwing (patterns st !! id);
  success (with_patterns st (<[id := f p]> (patterns st))).

Definition apply_edit_pattern_events (st : ProjectState) (c : EditPatternEvents) :
    Result AppliedCommand :=
  if negb (is_valid_uuid (value (edit_pattern_id c))) then
    invalid "pattern id must be a lowercase UUID"
  else match patterns st !! edit_pattern_id c with
  | None => edit_refused not_found "pattern does not exist" "pattern_not_found"
  | Some found =>
      removed ← fold_result collect_removed ∅ (edit_remove c);
      put ← fold_result collect_put ∅ (edit_put c);
      if bool_decide (removed = ∅) && bool_decide (put = ∅) then
        edit_refused invalid_argument "pattern edit is empty" "pattern_edit_empty"
      else
        _ ← validate_pattern (MkPattern (edit_pattern_id c) (bars found) (edit_put c));
        let '(kept, matched) := foldl (keep_or_count removed) ([], 0%nat) (events found) in
        if negb (Nat.eqb matched (size removed)) then
          edit_refused not_found "pattern event to remove does not exist"
            "pattern_event_missing"
        else
          let es := merge_pattern_events kept (edit_put c) in
          if bool_decide (es = events found) then
            edit_refused invalid_argument "pattern edit changes nothing"
              "pattern_edit_unchanged"
          else
            copy ← update_pattern st (edit_pattern_id c) (λ p, pattern_with_events p es);
            success (applied copy "pattern.events_edited" (edit_meta c) ProjectContract.v3)
  end.

(** The loop of a resize: what is audible before the new end. *)
Definition cut_events (tick_limit : N) (es : list PatternEvent) : list PatternEvent :=
  foldl (λ out e,
    if tick_limit <=? onset_tick e then out
    else out ++ [MkPatternEvent (slot e) (onset_tick e)
                   (N.min (duration_tick e) (u32_sub tick_limit (onset_tick e))) (velocity e)])
    [] es.

Definition apply_resize_pattern (st : ProjectState) (c : ResizePattern) : Result AppliedCommand :=
  if negb (is_valid_uuid (value (resize_pattern_id c))) then
    invalid "pattern id must be a lowercase UUID"
  else if negb (valid_bars (resize_bars c)) then
    invalid "pattern bars must be one of 1, 2, 4, or 8"
  else match patterns st !! resize_pattern_id c with
  | None => edit_refused not_found "pattern does not exist" "pattern_not_found"
  | Some found =>
      if bars found =? resize_bars c then
        edit_refused invalid_argument "pattern already has this length"
          "pattern_length_unchanged"
      else
        let tick_limit := pattern_length_ticks (resize_bars c) in
        let es := cut_events tick_limit (events found) in
        copy ← update_pattern st (resize_pattern_id c)
                 (λ p, pattern_with_events (pattern_with_bars p (resize_bars c)) es);
        let result := applied copy "pattern.resized" (resize_meta c) ProjectContract.v3 in
        let result := with_event_member result "pattern_id"
                        (j_string (value (resize_pattern_id c))) in
        success (with_event_member result "bars" (j_uint (resize_bars c)))
  end.

Definition repeat_event (len : N) (e : PatternEvent) : PatternEvent :=
  MkPatternEvent (slot e) (u32_add (onset_tick e) len) (duration_tick e) (velocity e).

Definition apply_double_up_pattern (st : ProjectState) (c : DoubleUpPattern) :
    Result AppliedCommand :=
  if negb (is_valid_uuid (value (double_pattern_id c))) then
    invalid "pattern id must be a lowercase UUID"
  else match patterns st !! double_pattern_id c with
  | None => edit_refused not_found "pattern does not exist" "pattern_not_found"
  | Some found =>
      if 8 <=? bars found then
        edit_refused invalid_argument "pattern is already at the longest length"
          "pattern_length_maximum"
      else
        let len := pattern_length_ticks (bars found) in
        let repeated := repeat_event len <$> events found in
        let b := u8_mul (bars found) 2 in
        copy ← update_pattern st (double_pattern_id c)
                 (λ p, pattern_with_events (pattern_with_bars p b)
                         (merge_pattern_events (events found) repeated));
        let result := applied copy "pattern.doubled" (double_meta c) ProjectContract.v3 in
        let result := with_event_member result "pattern_id"
                        (j_string (value (double_pattern_id c))) in
        success (with_event_member result "bars" (j_uint b))
  end.

(** The slot of a copy: the lowest empty one after the source's. *)
Definition copy_slot (slots : list (option PatternId)) (source : PatternId) : option N :=
  match list_find (λ s, s = Some source) slots with
  | None => None
  | Some (held, _) =>
      match list_find (λ s, s = None) (drop (S held) slots) with
      | None => None
      | Some (offset, _) => Some (wrap 8 (N.of_nat (S held + offset)))
      end
  end.

Definition apply_copy_pattern (st : ProjectState) (c : CopyPattern) : Result AppliedCommand :=
  if negb (is_valid_uuid (value (copy_source_pattern_id c))) ||
     negb (is_valid_uuid (value (copy_pattern_id c))) then
    invalid "pattern id must be a lowercase UUID"
  else match patterns st !! copy_source_pattern_id c with
  | None => edit_refused not_found "pattern does not exist" "pattern_not_found"
  | Some source =>
      if map_contains (patterns st) (copy_pattern_id c) then
        duplicate "pattern id already exists"
      else
        or_invalid (validate_pattern_slots st)
        (let slot := copy_slot (pattern_slots st) (copy_source_pattern_id c) in
         let pattern := pattern_with_id source (copy_pattern_id c) in
         let copy := with_patterns st
                       (emplace (patterns st) (pattern_id pattern) pattern) in
         copy ← match slot with
                | None => success copy
                | Some s =>
                    _ ← throwing (slot_at (pattern_slots copy) s);
                    success (with_pattern_slots copy
                      (set_slot_at (pattern_slots copy) s (Some (copy_pattern_id c))))
                end;
         let result := applied copy "pattern.copied" (copy_meta c)
           (if has_value slot then ProjectContract.v4 else ProjectContract.v3) in
         let result := with_event_member result "pattern_id"
                         (j_string (value (copy_pattern_id c))) in
         let result := with_event_member result "source_pattern_id"
                         (j_string (value (copy_source_pattern_id c))) in
         success (with_event_member result "pattern_slot"
                    match slot with Some s => j_uint s | None => j_null end))
  end.

Definition apply_create_pattern (st : ProjectState) (c : CreatePattern) : Result AppliedCommand :=
  _ ← validate_pattern (create_pattern c);
  if map_contains (patterns st) (pattern_id (create_pattern c)) then
    duplicate "pattern id already exists"
  else
    let pattern := pattern_with_events (create_pattern c)
                     (merge_pattern_events [] (events (create_pattern c))) in
    let copy := with_patterns st (emplace (patterns st) (pattern_id pattern) pattern) in
    success (applied copy "pattern.created" (create_meta c) ProjectContract.v3).

Definition apply_merge_pattern_events (st : ProjectState) (c : MergePatternEvents) :
    Result AppliedCommand :=
  if negb (is_valid_uuid (value (merge_pattern_id c))) then
    invalid "pattern id must be a lowercase UUID"
  else match patterns st !! merge_pattern_id c with
  | None => failure (plain_error invalid_argument "pattern does not exist")
  | Some found =>
      _ ← validate_pattern (MkPattern (merge_pattern_id c) (bars found) (merge_events c));
      copy ← update_pattern st (merge_pattern_id c)
               (λ p, pattern_with_events p (merge_pattern_events (events found) (merge_events c)));
      success (applied copy "pattern.events_merged" (merge_meta c) ProjectContract.v3)
  end.

(** ** Pad sound and settings *)

Definition apply_set_pad_colour (st : ProjectState) (c : SetPadColour) : Result AppliedCommand :=
  if negb (is_valid_slot (colour_slot c)) then invalid "pad slot is invalid"
  else if match colour c with Some i => kPadColourCount <=? i | None => false end then
    edit_refused invalid_argument "pad colour is not a palette index"
      "pad_colour_out_of_range"
  else
    current ← throwing (pad_at (banks st) (colour_slot c));
    if negb (has_value (pad_asset_id current)) then
      edit_refused invalid_argument "an empty Pad has no colour" "pad_empty"
    else if bool_decide (pad_colour current = colour c) then
      edit_refused invalid_argument "pad colour is unchanged" "pad_colour_unchanged"
    else
      success (applied (with_banks st (set_pad_at (banks st) (colour_slot c)
                                         (pad_with_colour current (colour c))))
                 "pad.colour_set" (colour_meta c) ProjectContract.v3).

Definition apply_update_pad_playback (st : ProjectState) (c : UpdatePadPlayback) :
    Result AppliedCommand :=
  if negb (is_valid_slot (playback_slot c)) then invalid "pad slot is invalid"
  else if negb (is_valid_playback (playback c)) then invalid "pad playback is invalid"
  else
    pad ← throwing (pad_at (banks st) (playback_slot c));
    success (applied (with_banks st (set_pad_at (banks st) (playback_slot c)
                                       (pad_with_playback pad (playback c))))
               "pad.playback_updated" (playback_meta c) ProjectContract.v3).

Definition apply_reset_pad_playback (st : ProjectState) (c : ResetPadPlayback) :
    Result AppliedCommand :=
  if negb (is_valid_slot (reset_slot c)) then invalid "pad slot is invalid"
  else
    pad ← throwing (pad_at (banks st) (reset_slot c));
    success (applied (with_banks st (set_pad_at (banks st) (reset_slot c)
                                       (pad_with_playback pad default_playback)))
               "pad.playback_reset" (reset_meta c) ProjectContract.v3).

Definition out_of_range (o : option N) (lo hi : N) : bool :=
  match o with Some v => (v <? lo) || (hi <? v) | None => false end.

Definition apply_update_sequence_settings (st : ProjectState) (c : UpdateSequenceSettings) :
    Result AppliedCommand :=
  if negb (has_value (settings_bpm c)) && negb (has_value (settings_quantize_enabled c)) &&
     negb (has_value (settings_swing_percent c)) then
    invalid "sequence settings update is empty"
  else if out_of_range (settings_bpm c) 40 240 then
    invalid "project BPM must be between 40 and 240"
  else if out_of_range (settings_swing_percent c) kSwingPercentMin kSwingPercentMax then
    invalid "swing percent must be between 50 and 75"
  else
    let copy := match settings_bpm c with Some b => with_bpm st b | None => st end in
    let copy := match settings_quantize_enabled c with
                | Some q => with_quantize copy q | None => copy end in
    let copy := match settings_swing_percent c with
                | Some s => with_swing copy s | None => copy end in
    success (applied copy "sequence.settings_updated" (settings_meta c) ProjectContract.v3).
End pattern_handlers.

(** ** The overload set of [apply_new_command], and [apply] *)

Class HandledCommand `{JL : JsonLib} (C : Type) := {
  command_meta : C → CommandMeta;
  apply_new_command : ProjectState → C → Result AppliedCommand
}.

Section overloads.
Context `{JL : JsonLib}.

#[export] Instance handled_assign_pattern_slot : HandledCommand AssignPatternSlot :=
  {| command_meta := assign_slot_meta; apply_new_command := apply_assign_pattern_slot |}.
#[export] Instance handled_clear_pattern_slot : HandledCommand ClearPatternSlot :=
  {| command_meta := clear_meta; apply_new_command := apply_clear_pattern_slot |}.
#[export] Instance handled_move_pattern_slot : HandledCommand MovePatternSlot :=
  {| command_meta := move_meta; apply_new_command := apply_move_pattern_slot |}.
#[export] Instance handled_import_asset : HandledCommand ImportAsset :=
  {| command_meta := import_meta; apply_new_command := apply_import_asset |}.
#[export] Instance handled_assign_pad : HandledCommand AssignPad :=
  {| command_meta := assign_meta; apply_new_command := apply_assign_pad |}.
#[export] Instance handled_import_assign_sample : HandledCommand ImportAssignSample :=
  {| command_meta := sample_meta; apply_new_command := apply_import_assign_sample |}.
#[export] Instance handled_adopt_candidates : HandledCommand AdoptCandidates :=
  {| command_meta := adopt_meta; apply_new_command := apply_adopt_candidates |}.
#[export] Instance handled_install_soundset : HandledCommand InstallSoundSet :=
  {| command_meta := install_meta; apply_new_command := apply_install_soundset |}.
#[export] Instance handled_edit_pattern_events : HandledCommand EditPatternEvents :=
  {| command_meta := edit_meta; apply_new_command := apply_edit_pattern_events |}.
#[export] Instance handled_resize_pattern : HandledCommand ResizePattern :=
  {| command_meta := resize_meta; apply_new_command := apply_resize_pattern |}.
#[export] Instance handled_double_up_pattern : HandledCommand DoubleUpPattern :=
  {| command_meta := double_meta; apply_new_command := apply_double_up_pattern |}.
#[export] Instance handled_copy_pattern : HandledCommand CopyPattern :=
  {| command_meta := copy_meta; apply_new_command := apply_copy_pattern |}.
#[export] Instance handled_set_pad_colour : HandledCommand SetPadColour :=
  {| command_meta := colour_meta; apply_new_command := apply_set_pad_colour |}.
#[export] Instance handled_update_pad_playback : HandledCommand UpdatePadPlayback :=
  {| command_meta := playback_meta; apply_new_command := apply_update_pad_playback |}.
#[export] Instance handled_reset_pad_playback : HandledCommand ResetPadPlayback :=
  {| command_meta := reset_meta; apply_new_command := apply_reset_pad_playback |}.
#[export] Instance handled_create_pattern : HandledCommand CreatePattern :=
  {| command_meta := create_meta; apply_new_command := apply_create_pattern |}.
#[export] Instance handled_merge_pattern_events : HandledCommand MergePatternEvents :=
  {| command_meta := merge_meta; apply_new_command := apply_merge_pattern_events |}.
#[export] Instance handled_update_sequence_settings : HandledCommand UpdateSequenceSettings :=
  {| command_meta := settings_meta; apply_new_command := apply_update_sequence_settings |}.

Definition apply_checked {C} `{!HandledCommand C} (st : ProjectState) (c : C)
    (receipts : gmap CommandId CommandReceipt) : Result AppliedCommand :=
  let meta := command_meta c in
  if negb (is_valid_uuid (value (command_id meta))) then
    invalid "command id must be a lowercase UUID"
  else match receipts !! command_id meta with
  | Some receipt => success (MkApplied _ st (receipt_event receipt) true)
  | None =>
      if negb (expected_revision meta =? revision st) then
        failure (MkError _ revision_conflict "command expected a different project revision"
          (j_object [("actual_revision", j_uint (revision st));
                     ("expected_revision", j_uint (expected_revision meta))]))
      else apply_new_command st c
  end.

(** The public overloads of [apply]. *)
Definition apply (st : ProjectState) (c : Command)
    (receipts : gmap CommandId CommandReceipt) : Result AppliedCommand :=
  match c with
  | CImportAsset c => apply_checked st c receipts
  | CAssignPad c => apply_checked st c receipts
  | CCreatePattern c => apply_checked st c receipts
  | CAssignPatternSlot c => apply_checked st c receipts
  | CClearPatternSlot c => apply_checked st c receipts
  | CMovePatternSlot c => apply_checked st c receipts
  | CMergePatternEvents c => apply_checked st c receipts
  | CUpdateSequenceSettings c => apply_checked st c receipts
  end.

Definition apply_delete_pad (st : ProjectState) (c : DeletePad)
    (receipts : gmap CommandId CommandReceipt) : Result AppliedCommand :=
  apply st (CAssignPad (assignment c)) receipts.

Definition apply_adoption (st : ProjectState) (c : AdoptCandidates)
    (receipts : gmap CommandId CommandReceipt) : Result AppliedCommand :=
  _ ← validate_candidate_source st (adopt_project_id c) (expected_revision (adopt_meta c))
        (adopt_source_asset_id c) (adopt_source_artifact c);
  if map_contains receipts (command_id (adopt_meta c)) then
    invalid "adoption requires a new explicit command identity"
  else apply_checked st c receipts.
End overloads.
