(* ===== verification/Invariant.v ===== *)
(** The well-formedness of a Project.

    [project_ok] is what every stored Project satisfies: the sizes of its arrays,
    the ranges of its settings, valid Assets, Patterns and Performances under
    their own ids, Pads that name existing Assets, Pattern slots that name
    existing Patterns at most once, and a contract that admits the content.
    The lemmas say which updates keep it. *)

From S2P Require Import Prelude Json Foundation Text Project Playback Fields Lineage Soundset Sequence Performance Commands.

(** ** Definitions *)

Definition contract_admits (c : ProjectContract) (l : AssetLineage) : Prop :=
  contract_rank ProjectContract.v4 ≤ contract_rank c ∧
  (asset_lineage_derivation_kind l = kind_capability_adoption →
   contract_rank ProjectContract.v5 ≤ contract_rank c).

Section invariant.
Context `{JL : JsonLib}.

Record asset_ok (c : ProjectContract) (id : AssetId) (a : Asset) : Prop := {
  asset_ok_id : asset_id a = id;
  asset_ok_uuid : is_valid_uuid (value id) = true;
  asset_ok_artifact : valid_artifact (asset_artifact a) = true;
  asset_ok_lineage : ∀ l, asset_lineage a = Some l →
    validate_asset_lineage l = success () ∧ contract_admits c l
}.

Record pad_ok (m : gmap AssetId Asset) (s : PadSlotId) (p : PadSlot) : Prop := {
  pad_ok_id : pad_id p = s;
  pad_ok_asset : ∀ id, pad_asset_id p = Some id → is_Some (m !! id);
  pad_ok_playback : is_valid_playback (pad_playback p) = true;
  pad_ok_colour : ∀ i, pad_colour p = Some i → i < kPadColourCount ∧ is_Some (pad_asset_id p)
}.

Definition banks_ok (m : gmap AssetId Asset) (bs : list (list PadSlot)) : Prop :=
  ∀ s p, pad_at bs s = Some p → pad_ok m s p.

Record pattern_ok (id : PatternId) (p : Pattern) : Prop := {
  pattern_ok_id : pattern_id p = id;
  pattern_ok_valid : validate_pattern p = success ();
  pattern_ok_canonical : canonical_events (events p)
}.

(** The content rules under a contract. *)
Record content_ok (c : ProjectContract) (st : ProjectState) : Prop := {
  ok_shape : state_shape st;
  ok_uuid : is_valid_uuid (value (project_id st)) = true;
  ok_tempo : 40 ≤ bpm st ≤ 240;
  ok_swing : 50 ≤ swing_percent st ≤ 75;
  ok_assets : map_Forall (asset_ok c) (assets st);
  ok_banks : banks_ok (assets st) (banks st);
  ok_patterns : map_Forall pattern_ok (patterns st);
  ok_slots : slots_ok (patterns st) (pattern_slots st);
  ok_slot_contract : contract_rank c < contract_rank ProjectContract.v4 →
    ∀ o, o ∈ pattern_slots st → o = None;
  ok_performances : map_Forall (λ id p, performance_id p = id ∧ performance_shape p ∧
    validate_performance p = success ()) (performances st)
}.

Definition project_ok (st : ProjectState) : Prop := content_ok (contract st) st.

(** What a handler does not touch. *)
Record same_frame (st st' : ProjectState) : Prop := {
  frame_contract : contract st' = contract st;
  frame_id : project_id st' = project_id st;
  frame_revision : revision st' = revision st;
  frame_performances : performances st' = performances st
}.

#[export] Instance same_frame_preorder : PreOrder same_frame.
Proof. split; [by intros st|]. intros ? ? ? [] []. split; congruence. Qed.

(** ** Contracts *)

Lemma contract_lt_false a b : contract_lt a b = false ↔ contract_rank b ≤ contract_rank a.
Proof. unfold contract_lt. apply N.ltb_ge. Qed.

Lemma asset_ok_mono c c' id a : contract_rank c ≤ contract_rank c' →
  asset_ok c id a → asset_ok c' id a.
Proof.
  intros Hle [? ? ? Hl]. split; try done. intros l El. destruct (Hl l El) as (? & ? & H5).
  split; [done|]. split; [lia|]. intros E. specialize (H5 E). lia.
Qed.

Lemma content_ok_mono c c' st : contract_rank c ≤ contract_rank c' →
  content_ok c st → content_ok c' st.
Proof.
  intros Hle [? ? ? ? Ha ? ? ? Hs ?]. split; try done.
  - eapply map_Forall_impl; [exact Ha|]. intros id a. by apply asset_ok_mono.
  - intros. apply Hs; [lia|done].
Qed.

(** ** Updates of the Pads *)

Lemma banks_ok_set m bs s p q : banks_ok m bs → pad_at bs s = Some q → pad_ok m s p →
  banks_ok m (set_pad_at bs s p).
Proof.
  intros Hb Hq Hp s' p'. rewrite (pad_at_set _ _ _ _ _ Hq). case_decide as E.
  - subst. by intros [= <-].
  - apply Hb.
Qed.

Lemma banks_ok_assets m m' bs : (∀ id, is_Some (m !! id) → is_Some (m' !! id)) →
  banks_ok m bs → banks_ok m' bs.
Proof.
  intros Hm Hb s p Hp. destruct (Hb s p Hp). split; eauto.
Qed.

Lemma with_pad_ok c st s p q : content_ok c st → pad_at (banks st) s = Some q →
  pad_ok (assets st) s p → content_ok c (with_banks st (set_pad_at (banks st) s p)).
Proof.
  intros [[Hb Hr Hs] ? ? ? ? Hbk ? ? ? ?] Hq Hp.
  destruct (set_pad_at_shape (banks st) s p Hb Hr). split; try (done || by split).
  by eapply banks_ok_set.
Qed.

Lemma with_pad_frame st bs : same_frame st (with_banks st bs).
Proof. by split. Qed.

(** ** Updates of the Assets *)

Lemma emplace_new {Tag V} (m : gmap (StrongId Tag) V) k v :
  m !! k = None → emplace m k v = <[k := v]> m.
Proof. intros H. unfold emplace, map_contains. by rewrite H. Qed.

Lemma map_contains_false {Tag V} (m : gmap (StrongId Tag) V) k :
  map_contains m k = false ↔ m !! k = None.
Proof. unfold map_contains. by destruct (m !! k). Qed.

Lemma map_contains_true {Tag V} (m : gmap (StrongId Tag) V) k :
  map_contains m k = true ↔ is_Some (m !! k).
Proof. unfold map_contains. destruct (m !! k); by split. Qed.

Lemma with_asset_ok c st a : content_ok c st → assets st !! asset_id a = None →
  asset_ok c (asset_id a) a →
  content_ok c (with_assets st (emplace (assets st) (asset_id a) a)).
Proof.
  intros [[] ? ? ? Ha Hbk ? ? ? ?] Hn Hok. split; try (done || by split); cbn [assets with_assets];
    rewrite emplace_new by done.
  - by apply map_Forall_insert_2.
  - eapply banks_ok_assets; [|exact Hbk]. intros id Hid.
    destruct (decide (asset_id a = id)); simplify_map_eq; eauto.
Qed.

Lemma place_asset_spec st s a st' : place_asset st s a = success st' →
  ∃ q, pad_at (banks st) s = Some q ∧
  st' = with_banks (with_assets st (emplace (assets st) (asset_id a) a))
          (set_pad_at (banks st) s
             (pad_with_playback (pad_with_asset q (Some (asset_id a))) default_playback)).
Proof.
  unfold place_asset. intros (q & Hq%throwing_success & [= <-])%result_bind_success.
  cbn [banks with_assets] in *. eauto.
Qed.

Lemma place_asset_ok c st s a st' : content_ok c st → assets st !! asset_id a = None →
  asset_ok c (asset_id a) a → place_asset st s a = success st' →
  content_ok c st' ∧ same_frame st st' ∧ assets st' = <[asset_id a := a]> (assets st).
Proof.
  intros Hst Hn Ha (q & Hq & ->)%place_asset_spec.
  split_and!; [|by split|cbn; by apply emplace_new].
  pose proof (with_asset_ok c st a Hst Hn Ha) as Hst'.
  eapply with_pad_ok with (st := with_assets st _); [done|exact Hq|].
  destruct (ok_banks _ _ Hst s q Hq) as [? ? ? Hcol]. split; cbn; try done.
  - intros id [= <-]. rewrite emplace_new, lookup_insert_eq by done. eauto.
  - intros i Hi. destruct (Hcol i Hi). eauto.
Qed.

Lemma place_asset_total st s a : state_shape st → is_valid_slot s = true →
  ∃ st', place_asset st s a = success st' ∧ state_shape st'.
Proof.
  intros Hsh Hs. destruct (pad_at_valid st s Hsh Hs) as [q Hq]. unfold place_asset.
  cbn [banks with_assets]. rewrite Hq. cbn [throwing mbind result_bind]. eexists. split; [done|].
  destruct Hsh as [Hb Hr Hp]. split; cbn; [by apply set_pad_at_shape..|done].
Qed.

(** ** Updates of the Patterns and their slots *)

Lemma slots_ok_patterns m m' l : (∀ id, is_Some (m !! id) → is_Some (m' !! id)) →
  slots_ok m l → slots_ok m' l.
Proof.
  intros Hm [Hf Hn]. split; [|done]. eapply Forall_impl; [exact Hf|].
  intros [id|] Hid; [|done]. naive_solver.
Qed.

Lemma with_pattern_ok c st id p : content_ok c st → pattern_ok id p →
  content_ok c (with_patterns st (<[id := p]> (patterns st))).
Proof.
  intros [[] ? ? ? ? ? Hp Hs ? ?] Hok. split; try (done || by split); cbn [patterns with_patterns].
  - by apply map_Forall_insert_2.
  - eapply slots_ok_patterns; [|exact Hs]. intros id' Hid.
    destruct (decide (id = id')); simplify_map_eq; eauto.
Qed.

Lemma with_slots_ok c st l : content_ok c st → length l = 16%nat →
  slots_ok (patterns st) l →
  (contract_rank c < contract_rank ProjectContract.v4 → ∀ o, o ∈ l → o = None) →
  content_ok c (with_pattern_slots st l).
Proof. intros [[] ? ? ? ? ? ? ? ? ?] ? ? ?. by split; try (done || by split). Qed.

Lemma slots_uuid m l id : slots_ok m l → Some id ∈ l →
  is_valid_uuid (value id) = true ∧ is_Some (m !! id).
Proof. intros [Hf _] Hin. rewrite Forall_forall in Hf. by apply (Hf (Some id)). Qed.

(** Occupied slots hold distinct Patterns. *)
Lemma slots_distinct l : NoDup (omap id l) ↔
  ∀ i j (p : PatternId), l !! i = Some (Some p) → l !! j = Some (Some p) → i = j.
Proof.
  induction l as [|o l IH].
  { split; [|constructor]. by intros _ i j p. }
  assert (∀ p, p ∈ omap id l ↔ ∃ i, l !! i = Some (Some p)) as Hin.
  { intros p. rewrite list_elem_of_omap. split.
    - intros (x & Hx & Hid). cbn in Hid. subst. by apply list_elem_of_lookup in Hx.
    - intros [i Hi]. exists (Some p). split; [|done]. by eapply list_elem_of_lookup_2. }
  destruct o as [p0|]; cbn [omap list_omap id].
  - rewrite NoDup_cons, IH, Hin. split.
    + intros [Hn H] [|i] [|j] p Hi Hj; simpl in *; try done; simplify_eq.
      * exfalso. eauto.
      * exfalso. eauto.
      * f_equal. eauto.
    + intros H. split.
      * intros [i Hi]. by specialize (H 0%nat (S i) p0 eq_refl Hi).
      * intros i j p Hi Hj. specialize (H (S i) (S j) p Hi Hj). lia.
  - rewrite IH. split.
    + intros H [|i] [|j] p Hi Hj; simpl in *; simplify_eq. f_equal. eauto.
    + intros H i j p Hi Hj. specialize (H (S i) (S j) p Hi Hj). lia.
Qed.

(** Filling an empty slot with a Pattern that holds none. *)
Lemma slots_ok_fill m l i id : slots_ok m l → is_valid_uuid (value id) = true →
  is_Some (m !! id) → Some id ∉ l → slots_ok m (<[i := Some id]> l).
Proof.
  intros [Hf Hn] Hu Hm Hout. split.
  - apply Forall_insert; [done|]. eauto.
  - rewrite slots_distinct in Hn |- *. intros j k p Hj Hk.
    rewrite list_lookup_insert_Some in Hj, Hk.
    destruct Hj as [(? & Hj & ?)|[? Hj]], Hk as [(? & Hk & ?)|[? Hk]]; simplify_eq; eauto.
    + exfalso. by apply Hout; eapply list_elem_of_lookup_2.
    + exfalso. by apply Hout; eapply list_elem_of_lookup_2.
Qed.

Lemma slots_ok_clear m l i : slots_ok m l → slots_ok m (<[i := None]> l).
Proof.
  intros [Hf Hn]. split; [by apply Forall_insert|].
  rewrite slots_distinct in Hn |- *. intros j k p Hj Hk.
  rewrite list_lookup_insert_Some in Hj, Hk.
  destruct Hj as [(? & Hj & ?)|[? Hj]], Hk as [(? & Hk & ?)|[? Hk]]; simplify_eq; eauto.
Qed.
End invariant.
