(* ===== verification/CommandLaws.v ===== *)
(** Every command keeps a Project well formed and commits one revision.

    [LawfulCommand] is the contract between the handlers and [apply_checked]:
    from a well-formed Project a handler lets no exception out, and when it
    succeeds it commits exactly one revision to a well-formed Project.  The
    instances discharge it handler by handler. *)

From S2P Require Import Prelude Json Foundation Text Project Playback Fields Lineage Soundset Sequence Performance Commands Invariant.

(** Walk a handler: refusals are trivial, guards become hypotheses. *)
Ltac guards := repeat match goal with
  | |- post _ (failure _) => exact I
  | |- post _ (invalid _) => exact I
  | |- post _ (duplicate _) => exact I
  | |- post _ (edit_refused _ _ _) => exact I
  | |- post _ (if ?b then _ else _) => destruct b eqn:?
  end; bool_to_prop.

(** ** The contract of a handler *)

Section contract.
Context `{JL : JsonLib}.

Record committed (st : ProjectState) (meta : CommandMeta) (a : AppliedCommand) : Prop := {
  committed_ok : project_ok (applied_state a);
  committed_next : revision (applied_state a) = u64_add (revision st) 1;
  committed_id : project_id (applied_state a) = project_id st;
  committed_performances : performances (applied_state a) = performances st;
  committed_contract : contract_rank (contract st) ≤ contract_rank (contract (applied_state a));
  committed_fresh : replayed a = false;
  committed_event : ∃ l, fields (applied_event a) l ∧
    assoc "command_id" l = Some (j_string (value (command_id meta))) ∧
    assoc "revision" l = Some (j_uint (revision (applied_state a)))
}.

Class LawfulCommand (C : Type) `{!HandledCommand C} : Prop :=
  lawful_command st c : project_ok st →
    post (committed st (command_meta c)) (apply_new_command st c).
End contract.

Section laws.
Context `{JL : JsonLib} `{!JsonLaws JL}.

Lemma applied_committed st st' type meta c : same_frame st st' →
  content_ok (contract_max (contract st) c) st' →
  committed st meta (applied st' type meta c).
Proof.
  intros [Hc Hi Hr Hp] Hok. split.
  - unfold project_ok, applied. cbn [applied_state contract with_revision with_contract].
    rewrite Hc. by destruct Hok as [[] ? ? ? ? ? ? ? ? ?]; split; try (done || by split).
  - unfold applied. cbn. by rewrite Hr.
  - done.
  - done.
  - unfold applied. cbn [applied_state contract with_revision with_contract]. rewrite Hc.
    apply contract_max_le.
  - done.
  - eexists. split; [by apply fields_j_object|]. done.
Qed.

Lemma committed_member st meta a key v : committed st meta a →
  key ≠ "command_id" → key ≠ "revision" →
  committed st meta (with_event_member a key v).
Proof.
  intros [? ? ? ? ? ? (l & Hl & Hc & Hr)] H1 H2. split; try done.
  exists (assoc_set key v l). split; [by apply fields_j_set|].
  rewrite !assoc_set_assoc, !bool_decide_eq_false_2 by congruence. done.
Qed.

Lemma contract_max_l c c' : contract_rank c ≤ contract_rank (contract_max c c').
Proof. apply contract_max_le. Qed.

Lemma contract_max_r c c' : contract_rank c' ≤ contract_rank (contract_max c c').
Proof. apply contract_max_le. Qed.

Lemma ok_bumped c st : project_ok st → content_ok (contract_max (contract st) c) st.
Proof. apply content_ok_mono, contract_max_l. Qed.

Lemma post_or_invalid {A} (Q : A → Prop) r k : r ≠ thrown →
  (r = success () → post Q k) → post Q (or_invalid r k).
Proof. destruct r as [[]| |]; cbn; eauto. Qed.

(** A Pad handler replaces one Pad by a valid one. *)
Lemma set_pad_committed st s p q type meta c : project_ok st →
  pad_at (banks st) s = Some q → (pad_ok (assets st) s q → pad_ok (assets st) s p) →
  committed st meta (applied (with_banks st (set_pad_at (banks st) s p)) type meta c).
Proof.
  intros Hst Hq Hp. apply applied_committed; [by split|]. eapply with_pad_ok.
  - by apply ok_bumped.
  - exact Hq.
  - apply Hp. by apply (ok_banks _ _ Hst).
Qed.

#[export] Instance lawful_assign_pad : LawfulCommand AssignPad.
Proof.
  intros st c Hst. cbn [apply_new_command handled_assign_pad command_meta].
  unfold apply_assign_pad. guards.
  destruct (pad_at_valid st (assign_slot c) (ok_shape _ _ Hst)) as [q Hq]; [done|].
  eapply post_throwing; [exact Hq|]. cbn zeta. cbn [post].
  eapply set_pad_committed; [done|exact Hq|]. intros [H1 H2 H3 H4].
  destruct (assign_asset_id c) as [id|] eqn:Ea; cbn [has_value negb orb].
  - bool_to_prop. repeat match goal with H : map_contains _ _ = true |- _ =>
      apply map_contains_true in H end.
    case_bool_decide; cbn [negb]; split; cbn; try done; try (by intros ? [= <-]);
      intros i Hi; destruct (H4 i Hi); eauto.
  - by split; cbn.
Qed.

#[export] Instance lawful_set_pad_colour : LawfulCommand SetPadColour.
Proof.
  intros st c Hst. cbn [apply_new_command handled_set_pad_colour command_meta].
  unfold apply_set_pad_colour. guards.
  destruct (pad_at_valid st (colour_slot c) (ok_shape _ _ Hst)) as [q Hq]; [done|].
  eapply post_throwing; [exact Hq|]. guards. cbn [post].
  eapply set_pad_committed; [done|exact Hq|]. intros [H1 H2 H3 H4].
  split; cbn; try done. intros i Hi. split.
  - destruct (colour c); simplify_eq. by apply N.leb_gt.
  - destruct (pad_asset_id q) eqn:E; [eauto|]. done.
Qed.

#[export] Instance lawful_update_pad_playback : LawfulCommand UpdatePadPlayback.
Proof.
  intros st c Hst. cbn [apply_new_command handled_update_pad_playback command_meta].
  unfold apply_update_pad_playback. guards.
  destruct (pad_at_valid st (playback_slot c) (ok_shape _ _ Hst)) as [q Hq]; [done|].
  eapply post_throwing; [exact Hq|]. cbn [post].
  eapply set_pad_committed; [done|exact Hq|]. intros [H1 H2 H3 H4]. by split.
Qed.

#[export] Instance lawful_reset_pad_playback : LawfulCommand ResetPadPlayback.
Proof.
  intros st c Hst. cbn [apply_new_command handled_reset_pad_playback command_meta].
  unfold apply_reset_pad_playback. guards.
  destruct (pad_at_valid st (reset_slot c) (ok_shape _ _ Hst)) as [q Hq]; [done|].
  eapply post_throwing; [exact Hq|]. cbn [post].
  eapply set_pad_committed; [done|exact Hq|]. intros [H1 H2 H3 H4]. by split.
Qed.

(** ** Imports *)

Lemma check_import_lineage_post st a :
  post (λ _, ∀ l, asset_lineage a = Some l →
          validate_asset_lineage l = success () ∧ contract_admits (contract st) l)
    (check_import_lineage st a).
Proof.
  unfold check_import_lineage. destruct (asset_lineage a) as [l|]; [|done].
  eapply post_bind_eq; [apply validate_asset_lineage_no_throw|]. intros [] Hv.
  guards. cbn [post]. intros l' [= <-]. split; [done|].
  match goal with H : contract_lt _ ProjectContract.v4 = false |- _ =>
    apply contract_lt_false in H end.
  split; [done|]. intros Hk.
  match goal with H : _ && _ = false |- _ => apply andb_false_iff in H as [H|H] end.
  - by apply bool_decide_eq_false_1 in H0.
  - by apply contract_lt_false.
Qed.

Lemma imported_asset_ok c st a : contract_rank (contract st) ≤ contract_rank c →
  is_valid_uuid (value (asset_id a)) = true → valid_artifact (asset_artifact a) = true →
  (∀ l, asset_lineage a = Some l →
     validate_asset_lineage l = success () ∧ contract_admits (contract st) l) →
  asset_ok c (asset_id a) a.
Proof.
  intros Hc Hu Ha Hl. eapply asset_ok_mono; [exact Hc|]. by split.
Qed.

#[export] Instance lawful_import_asset : LawfulCommand ImportAsset.
Proof.
  intros st c Hst. cbn [apply_new_command handled_import_asset command_meta].
  unfold apply_import_asset. guards.
  eapply post_bind; [apply check_import_lineage_post|]. intros ? Hl. cbn beta in Hl. guards. cbn zeta. cbn [post].
  apply applied_committed; [by split|].
  apply with_asset_ok; [by apply ok_bumped|by apply map_contains_false|].
  eapply imported_asset_ok; [apply contract_max_l|done..].
Qed.

#[export] Instance lawful_import_assign_sample : LawfulCommand ImportAssignSample.
Proof.
  intros st c Hst. cbn [apply_new_command handled_import_assign_sample command_meta].
  unfold apply_import_assign_sample. guards.
  eapply post_bind; [apply check_import_lineage_post|]. intros ? Hl. cbn beta in Hl. guards.
  destruct (place_asset_total st (sample_slot c) (sample_asset c) (ok_shape _ _ Hst))
    as (st' & Hp & _); [done|]. rewrite Hp. cbn [mbind result_bind post].
  edestruct place_asset_ok as (Hok & Hf & _); [by apply (ok_bumped ProjectContract.v3)
    |by apply map_contains_false| |exact Hp|by apply applied_committed].
  eapply imported_asset_ok; [apply contract_max_l|done..].
Qed.

(** ** Adoption and installation *)

Section place_all.
Context {T : Type} (fs : T → PadSlotId) (fa : T → Asset).

Definition placeable (c : ProjectContract) (st : ProjectState) (t : T) : Prop :=
  is_valid_slot (fs t) = true ∧ asset_ok c (asset_id (fa t)) (fa t) ∧
  assets st !! asset_id (fa t) = None.

Lemma place_all_post c st l : content_ok c st → Forall (placeable c st) l →
  NoDup ((λ t, asset_id (fa t)) <$> l) →
  post (λ st', content_ok c st' ∧ same_frame st st')
    (fold_result (λ copy t, place_asset copy (fs t) (fa t)) st l).
Proof.
  revert st. induction l as [|t l IH]; intros st Hst Hl Hn; cbn [fold_result]; [by split|].
  apply Forall_cons in Hl as [(Hs & Ha & Hnew) Hl].
  rewrite fmap_cons in Hn. apply NoDup_cons in Hn as [Hid Hn].
  destruct (place_asset_total st (fs t) (fa t) (ok_shape _ _ Hst) Hs) as (st1 & Hp & _).
  destruct (place_asset_ok c st _ _ st1 Hst Hnew Ha Hp) as (Hok & Hf & Has).
  rewrite Hp. cbn [mbind result_bind]. eapply post_weaken.
  - apply IH; [done| |done]. rewrite Forall_forall in *. intros t' Ht'.
    destruct (Hl t' Ht') as (? & ? & ?). split_and!; [done..|]. rewrite Has.
    rewrite lookup_insert_ne; [done|]. intros E. apply Hid. rewrite E.
    by apply list_elem_of_fmap_2 with (f := λ t, asset_id (fa t)).
  - intros st' [? ?]. split; [done|]. by etransitivity.
Qed.
End place_all.

Lemma validate_candidate_source_no_throw st p r a art :
  validate_candidate_source st p r a art ≠ thrown.
Proof. unfold validate_candidate_source. by repeat case_match. Qed.

(** The loop of the adoption has seen the assignments [done]. *)
Definition adoption_inv (st : ProjectState) (done : list CandidateAdoptionAssignment)
    (seen : adoption_seen) : Prop :=
  adoption_ids seen = list_to_set ((λ a, asset_id (adopt_asset a)) <$> done) ∧
  NoDup ((λ a, asset_id (adopt_asset a)) <$> done) ∧
  Forall (placeable adopt_slot adopt_asset ProjectContract.v5 st) done.

Lemma admits_v5 l : contract_admits ProjectContract.v5 l.
Proof. split; [cbn; lia|done]. Qed.

Lemma check_adoption_post st c done seen a : adoption_inv st done seen →
  post (adoption_inv st (done ++ [a])) (check_adoption st c seen a).
Proof.
  intros (Hids & Hn & Hf). unfold check_adoption. cbn zeta. guards.
  destruct (asset_lineage (adopt_asset a)) as [l|] eqn:El; [|done].
  unfold check_adoption_lineage. apply post_or_invalid; [apply validate_asset_lineage_no_throw|].
  intros Hv.
  assert (∀ ev t, adoption_inv st (done ++ [a]) (MkAdoptionSeen t
            ({[asset_id (adopt_asset a)]} ∪ adoption_ids seen) ev)) as Hinv.
  { intros ev t. rewrite Hids in *. split_and!; cbn [adoption_ids].
    - rewrite fmap_app, list_to_set_app_L. cbn. set_solver.
    - rewrite fmap_app. apply NoDup_app. split_and!; [done| |apply NoDup_singleton].
      intros x Hx Hx'. apply list_elem_of_singleton in Hx'. subst. set_solver.
    - apply Forall_app. split; [done|]. apply Forall_cons. split; [|done]. split_and!; [done| |].
      + split; try done. intros l' El'. rewrite El in El'. injection El' as <-.
        split; [done|apply admits_v5].
      + by apply map_contains_false. }
  destruct (lineage_source l); [|done]. destruct (lineage_derivation l); try done. guards.
  cbn [adoption_evidence].
  destruct (adoption_evidence seen) as [[ev an]|]; guards; cbn [post]; apply Hinv.
Qed.

#[export] Instance lawful_adopt_candidates : LawfulCommand AdoptCandidates.
Proof.
  intros st c Hst. cbn [apply_new_command handled_adopt_candidates command_meta].
  unfold apply_adopt_candidates.
  eapply post_bind_eq; [apply validate_candidate_source_no_throw|]. intros _ _. guards.
  eapply post_bind.
  { eapply (post_fold (adoption_inv st) _ _ []); [|split_and!; [done|constructor|constructor]].
    intros done seen a _. apply check_adoption_post. }
  cbn [app]. intros seen (_ & Hn & Hf). eapply post_bind.
  { apply (place_all_post adopt_slot adopt_asset
      (contract_max (contract st) ProjectContract.v5)); [by apply ok_bumped| |done].
    eapply Forall_impl; [exact Hf|]. intros a (? & Ha & ?). split_and!; [done| |done].
    eapply asset_ok_mono; [apply contract_max_r|done]. }
  intros copy [Hok Hfr]. cbn [post]. by apply applied_committed.
Qed.

Definition install_inv (st : ProjectState) (done : list SoundSetInstallAssignment)
    (seen : install_seen) : Prop :=
  install_ids seen = list_to_set ((λ a, asset_id (install_asset a)) <$> done) ∧
  NoDup ((λ a, asset_id (install_asset a)) <$> done) ∧
  Forall (placeable install_slot install_asset ProjectContract.v4 st) done.

Lemma check_install_post st b done seen a : install_inv st done seen →
  post (install_inv st (done ++ [a])) (check_install st b seen a).
Proof.
  intros (Hids & Hn & Hf). unfold check_install. cbn zeta. guards.
  destruct (asset_lineage (install_asset a)) as [[[|src] d]|] eqn:El; try done.
  destruct d; try done.
  apply post_or_invalid; [apply validate_asset_lineage_no_throw|]. intros Hv.
  assert (∀ ev t, install_inv st (done ++ [a]) (MkInstallSeen t
            ({[asset_id (install_asset a)]} ∪ install_ids seen) ev)) as Hinv.
  { intros ev t. rewrite Hids in *. split_and!; cbn [install_ids].
    - rewrite fmap_app, list_to_set_app_L. cbn. set_solver.
    - rewrite fmap_app. apply NoDup_app. split_and!; [done| |apply NoDup_singleton].
      intros x Hx Hx'. apply list_elem_of_singleton in Hx'. subst. set_solver.
    - apply Forall_app. split; [done|]. apply Forall_cons. split; [|done]. split_and!; [done| |].
      + split; try done. intros l' El'. rewrite El in El'. injection El' as <-.
        split; [done|]. by split.
      + by apply map_contains_false. }
  unfold check_install_source. guards. cbn [install_identity].
  destruct (install_identity seen); guards; cbn [post]; apply Hinv.
Qed.

#[export] Instance lawful_install_soundset : LawfulCommand InstallSoundSet.
Proof.
  intros st c Hst. cbn [apply_new_command handled_install_soundset command_meta].
  unfold apply_install_soundset. guards.
  destruct (install_assignments c) as [|front rest] eqn:Ec; [done|]. rewrite <- Ec.
  eapply post_bind.
  { eapply (post_fold (install_inv st) _ _ []); [|split_and!; [done|constructor|constructor]].
    intros done seen a _. apply check_install_post. }
  cbn [app]. intros seen (_ & Hn & Hf). eapply post_bind.
  { apply (place_all_post install_slot install_asset
      (contract_max (contract st) ProjectContract.v4)); [by apply ok_bumped| |done].
    eapply Forall_impl; [exact Hf|]. intros a (? & Ha & ?). split_and!; [done| |done].
    eapply asset_ok_mono; [apply contract_max_r|done]. }
  intros copy [Hok Hfr]. cbn [post]. by apply applied_committed.
Qed.
End laws.

(** The extra members of an event do not matter. *)
Ltac members := repeat (apply committed_member; [|done|done]).
