(* ===== verification/PatternLaws.v ===== *)
(** The Pattern, slot and settings handlers satisfy the contract of a handler.

    Also what the Pattern edits compute: the events a resize keeps, the events
    a grid edit keeps, and the slot a copy takes. *)

From S2P Require Import Prelude Json Foundation Text Project Playback Fields Lineage Soundset Sequence Performance Commands Invariant CommandLaws.

(** ** What the loops compute *)

Lemma keep_or_count_spec removed l k n :
  foldl (keep_or_count removed) (k, n) l =
    (k ++ filter (λ e, key_of e ∉ removed) l,
     (n + length (filter (λ e, key_of e ∈ removed) l))%nat).
Proof.
  revert k n. induction l as [|e l IH]; intros k n; cbn [foldl].
  { by rewrite !filter_nil, app_nil_r, Nat.add_0_r. }
  unfold keep_or_count at 2. cbn [fst snd]. rewrite !filter_cons.
  case_bool_decide as He; rewrite IH.
  - rewrite (decide_True (P := key_of e ∈ removed)), decide_False by (tauto || done). cbn. f_equal. lia.
  - rewrite (decide_False (P := key_of e ∈ removed)), decide_True by done.
    by rewrite <- app_assoc.
Qed.

(** One event cut to a new end. *)
Definition cut_event (limit : N) (e : PatternEvent) : PatternEvent :=
  MkPatternEvent (slot e) (onset_tick e) (N.min (duration_tick e) (limit - onset_tick e))
    (velocity e).

Lemma foldl_collect {A B} (keep : A → bool) (f : A → B) out l :
  foldl (λ out x, if keep x then out else out ++ [f x]) out l =
    out ++ (f <$> filter (λ x, keep x = false) l).
Proof.
  revert out. induction l as [|x l IH]; intros out; cbn [foldl].
  { by rewrite filter_nil, fmap_nil, app_nil_r. }
  rewrite IH, filter_cons. destruct (keep x); [done|].
  by rewrite decide_True, fmap_cons, <- app_assoc by done.
Qed.

Lemma cut_events_spec limit l : limit < 2 ^ 32 →
  cut_events limit l = cut_event limit <$> filter (λ e, onset_tick e < limit) l.
Proof.
  intros Hl. unfold cut_events.
  rewrite (foldl_collect (λ e, limit <=? onset_tick e)
    (λ e, MkPatternEvent (slot e) (onset_tick e)
            (N.min (duration_tick e) (u32_sub limit (onset_tick e))) (velocity e))).
  cbn [app]. rewrite (list_filter_iff _ (λ e, onset_tick e < limit)) by (intros; lia).
  apply list_fmap_ext. intros i e Hi%list_elem_of_lookup_2.
  apply list_elem_of_filter in Hi as [Hi _]. unfold cut_event. by rewrite u32_sub_le by lia.
Qed.

Lemma repeat_event_onset len e : onset_tick e + len < 2 ^ 32 →
  onset_tick (repeat_event len e) = onset_tick e + len.
Proof. intros. by apply u32_add_small. Qed.

Section pattern_laws.
Context `{JL : JsonLib} `{!JsonLaws JL}.

Lemma pattern_ok_inv id p : pattern_ok id p ↔
  pattern_id p = id ∧ is_valid_uuid (value id) = true ∧ valid_bars (bars p) = true ∧
  Forall (event_fits (pattern_length_ticks (bars p))) (events p) ∧ canonical_events (events p).
Proof.
  split.
  - intros [<- (? & ? & ?)%validate_pattern_ok ?]. done.
  - intros (<- & ? & ? & ? & ?). split; [done| |done]. by apply validate_pattern_ok.
Qed.

Lemma stored_pattern c st id p : content_ok c st → patterns st !! id = Some p → pattern_ok id p.
Proof. intros [? ? ? ? ? ? Hp ? ? ?] H. by apply Hp. Qed.

Lemma update_pattern_committed st id p f type meta c : project_ok st →
  patterns st !! id = Some p → (pattern_ok id p → pattern_ok id (f p)) →
  ∃ st', update_pattern st id f = success st' ∧ committed st meta (applied st' type meta c) ∧
    st' = with_patterns st (<[id := f p]> (patterns st)).
Proof.
  intros Hst Hp Hf. unfold update_pattern. rewrite Hp. cbn [throwing mbind result_bind].
  eexists. split; [done|]. split; [|done]. apply applied_committed; [by split|].
  apply with_pattern_ok; [by apply ok_bumped|]. apply Hf. by eapply stored_pattern.
Qed.

(** ** Events *)

Lemma collect_removed_no_throw s l : fold_result collect_removed s l ≠ thrown.
Proof. apply fold_result_no_throw. intros. unfold collect_removed. by repeat case_match. Qed.

Lemma collect_put_no_throw s l : fold_result collect_put s l ≠ thrown.
Proof. apply fold_result_no_throw. intros. unfold collect_put. by repeat case_match. Qed.

#[export] Instance lawful_edit_pattern_events : LawfulCommand EditPatternEvents.
Proof.
  intros st c Hst. cbn [apply_new_command handled_edit_pattern_events command_meta].
  unfold apply_edit_pattern_events. guards.
  destruct (patterns st !! edit_pattern_id c) as [found|] eqn:Ef; [|done].
  eapply post_bind_eq; [apply collect_removed_no_throw|]. intros removed _.
  eapply post_bind_eq; [apply collect_put_no_throw|]. intros put _. guards.
  eapply post_bind_eq; [apply validate_pattern_no_throw|]. intros [] Hv.
  rewrite keep_or_count_spec. cbn [app]. guards. cbn zeta. guards.
  apply validate_pattern_ok in Hv as (_ & _ & Hput). cbn [bars events] in Hput.
  edestruct update_pattern_committed as (st' & -> & Hc & _); [done|exact Ef| |exact Hc].
  rewrite !pattern_ok_inv. intros (? & ? & ? & Hfit & ?). cbn [pattern_with_events pattern_id bars events].
  split_and!; [done..| |apply merge_canonical]. apply merge_forall; [|done].
  by apply Forall_filter_sub.
Qed.

#[export] Instance lawful_merge_pattern_events : LawfulCommand MergePatternEvents.
Proof.
  intros st c Hst. cbn [apply_new_command handled_merge_pattern_events command_meta].
  unfold apply_merge_pattern_events. guards.
  destruct (patterns st !! merge_pattern_id c) as [found|] eqn:Ef; [|done].
  eapply post_bind_eq; [apply validate_pattern_no_throw|]. intros [] Hv.
  apply validate_pattern_ok in Hv as (_ & _ & Hput). cbn [bars events] in Hput.
  edestruct update_pattern_committed as (st' & -> & Hc & _); [done|exact Ef| |exact Hc].
  rewrite !pattern_ok_inv. intros (? & ? & ? & Hfit & ?). cbn [pattern_with_events pattern_id bars events].
  split_and!; [done..| |apply merge_canonical]. by apply merge_forall.
Qed.

#[export] Instance lawful_create_pattern : LawfulCommand CreatePattern.
Proof.
  intros st c Hst. cbn [apply_new_command handled_create_pattern command_meta].
  unfold apply_create_pattern.
  eapply post_bind_eq; [apply validate_pattern_no_throw|]. intros [] Hv. guards. cbn zeta.
  apply validate_pattern_ok in Hv as (? & ? & Hput). cbn [post].
  apply applied_committed; [by split|].
  rewrite emplace_new by by apply map_contains_false.
  apply with_pattern_ok; [by apply ok_bumped|].
  rewrite pattern_ok_inv. cbn [pattern_with_events pattern_id bars events].
  split_and!; [done..| |apply merge_canonical]. by apply merge_forall.
Qed.

(** ** Length *)

Lemma cut_events_fit limit limit' l : limit < 2 ^ 32 → Forall (event_fits limit') l →
  Forall (event_fits limit) (cut_events limit l).
Proof.
  intros Hl Hf. rewrite cut_events_spec by done. apply Forall_fmap, Forall_forall.
  intros e [Ho He]%list_elem_of_filter. rewrite Forall_forall in Hf.
  destruct (Hf e He) as [Hs Hv Hd Hseam]. split; unfold cut_event; cbn; lia.
Qed.

Lemma cut_events_canonical limit l : limit < 2 ^ 32 → canonical_events l →
  canonical_events (cut_events limit l).
Proof.
  intros Hl Hc. rewrite cut_events_spec by done. apply canonical_map; [done|].
  by apply canonical_filter.
Qed.

#[export] Instance lawful_resize_pattern : LawfulCommand ResizePattern.
Proof.
  intros st c Hst. cbn [apply_new_command handled_resize_pattern command_meta].
  unfold apply_resize_pattern. guards.
  destruct (patterns st !! resize_pattern_id c) as [found|] eqn:Ef; [|done]. guards. cbn zeta.
  edestruct update_pattern_committed as (st' & -> & Hc & _);
    [done|exact Ef| |cbn [mbind result_bind post]; members; exact Hc].
  rewrite !pattern_ok_inv. intros (? & ? & ? & Hfit & ?).
  cbn [pattern_with_events pattern_with_bars pattern_id bars events].
  pose proof (pattern_length_valid (resize_bars c) ltac:(done)) as [_ ?].
  split_and!; [done..| |].
  - eapply cut_events_fit; [u_lia|done].
  - apply cut_events_canonical; [u_lia|done].
Qed.

#[export] Instance lawful_double_up_pattern : LawfulCommand DoubleUpPattern.
Proof.
  intros st c Hst. cbn [apply_new_command handled_double_up_pattern command_meta].
  unfold apply_double_up_pattern. guards.
  destruct (patterns st !! double_pattern_id c) as [found|] eqn:Ef; [|done]. guards. cbn zeta.
  edestruct update_pattern_committed as (st' & -> & Hc & _);
    [done|exact Ef| |cbn [mbind result_bind post]; members; exact Hc].
  rewrite !pattern_ok_inv. intros (? & ? & Hb & Hfit & ?).
  cbn [pattern_with_events pattern_with_bars pattern_id bars events].
  assert (pattern_length_ticks (u8_mul (bars found) 2) = 2 * pattern_length_ticks (bars found) ∧
          valid_bars (u8_mul (bars found) 2) = true ∧ pattern_length_ticks (bars found) ≤ 15360)
    as (Hlen & Hvb & Hmax).
  { apply valid_bars_spec in Hb as [Hb|[Hb|[Hb|Hb]]]; rewrite Hb in *; [done..|lia]. }
  split_and!; [done..| |apply merge_canonical]. rewrite Hlen. apply merge_forall.
  - eapply Forall_impl; [exact Hfit|]. intros e []. split; lia.
  - apply Forall_fmap. eapply Forall_impl; [exact Hfit|]. intros e [Hs Hv Hd Hseam].
    unfold compose. split; cbn [repeat_event slot velocity duration_tick onset_tick]; try done.
    rewrite u32_add_small by u_lia. lia.
Qed.

(** ** Slots *)

Lemma slot_at_bound st s : state_shape st → s < kPatternSlotCount →
  ∃ v, slot_at (pattern_slots st) s = Some v.
Proof.
  intros [_ _ Hs] Hlt. unfold slot_at, kPatternSlotCount in *.
  apply lookup_lt_is_Some_2. lia.
Qed.

Lemma below_v4_bumped c :
  ¬ contract_rank (contract_max c ProjectContract.v4) < contract_rank ProjectContract.v4.
Proof. pose proof (contract_max_r c ProjectContract.v4). lia. Qed.

(** A slot handler stores valid slots under the contract it commits. *)
Lemma set_slots_committed st l type meta : project_ok st → length l = 16%nat →
  slots_ok (patterns st) l →
  committed st meta (applied (with_pattern_slots st l) type meta ProjectContract.v4).
Proof.
  intros Hst Hlen Hl. apply applied_committed; [by split|].
  apply with_slots_ok; [by apply ok_bumped|done..|]. intros H. by apply below_v4_bumped in H.
Qed.

#[export] Instance lawful_assign_pattern_slot : LawfulCommand AssignPatternSlot.
Proof.
  intros st c Hst. cbn [apply_new_command handled_assign_pattern_slot command_meta].
  unfold apply_assign_pattern_slot.
  apply post_or_invalid; [apply validate_pattern_slots_no_throw|]. intros Hsl. guards.
  destruct (slot_at_bound st (assigned_slot c) (ok_shape _ _ Hst)) as [v Hv]; [done|].
  eapply post_throwing; [exact Hv|]. guards. cbn zeta. cbn [post]. members.
  apply set_slots_committed; [done| |].
  - unfold set_slot_at. rewrite length_insert. apply (shape_slots _ (ok_shape _ _ Hst)).
  - apply slots_ok_fill; [apply (ok_slots _ _ Hst)|done|by apply map_contains_true|done].
Qed.

#[export] Instance lawful_clear_pattern_slot : LawfulCommand ClearPatternSlot.
Proof.
  intros st c Hst. cbn [apply_new_command handled_clear_pattern_slot command_meta].
  unfold apply_clear_pattern_slot.
  apply post_or_invalid; [apply validate_pattern_slots_no_throw|]. intros Hsl. guards.
  destruct (slot_at_bound st (cleared_slot c) (ok_shape _ _ Hst)) as [v Hv]; [done|].
  eapply post_throwing; [exact Hv|]. destruct v as [id|]; [|done]. cbn zeta. cbn [post]. members.
  apply set_slots_committed; [done| |].
  - unfold set_slot_at. rewrite length_insert. apply (shape_slots _ (ok_shape _ _ Hst)).
  - apply slots_ok_clear, (ok_slots _ _ Hst).
Qed.

(** Once its slot is cleared, a Pattern holds no slot. *)
Lemma slot_cleared_out m l i (id : PatternId) : slots_ok m l → l !! i = Some (Some id) →
  Some id ∉ <[i := None]> l.
Proof.
  intros [_ Hn] Hi (j & Hj)%list_elem_of_lookup. rewrite slots_distinct in Hn.
  apply list_lookup_insert_Some in Hj as [(? & ? & ?)|[Hne Hj]]; [done|].
  apply Hne. eauto.
Qed.

#[export] Instance lawful_move_pattern_slot : LawfulCommand MovePatternSlot.
Proof.
  intros st c Hst. cbn [apply_new_command handled_move_pattern_slot command_meta].
  unfold apply_move_pattern_slot.
  apply post_or_invalid; [apply validate_pattern_slots_no_throw|]. intros Hsl. guards.
  destruct (slot_at_bound st (from_slot c) (ok_shape _ _ Hst)) as [v Hv]; [done|].
  eapply post_throwing; [exact Hv|]. destruct v as [id|]; [|done].
  destruct (slot_at_bound st (to_slot c) (ok_shape _ _ Hst)) as [w Hw]; [done|].
  eapply post_throwing; [exact Hw|]. guards. cbn zeta. cbn [post]. members.
  pose proof (ok_slots _ _ Hst) as Hok.
  destruct (slots_uuid _ _ id Hok) as [Hu Hm]; [by eapply list_elem_of_lookup_2|].
  apply set_slots_committed; [done| |]; unfold set_slot_at.
  - rewrite !length_insert. apply (shape_slots _ (ok_shape _ _ Hst)).
  - apply slots_ok_fill; [by apply slots_ok_clear|done..|]. by eapply slot_cleared_out.
Qed.

(** The slot of a copy is an empty slot after the one its source holds. *)
Lemma copy_slot_spec l source s : length l = 16%nat → copy_slot l source = Some s →
  s < 16 ∧ ∃ h, l !! h = Some (Some source) ∧ (h < N.to_nat s)%nat ∧
    l !! N.to_nat s = Some None ∧
    ∀ j, (h < j < N.to_nat s)%nat → l !! j ≠ Some None.
Proof.
  intros Hlen. unfold copy_slot.
  destruct (list_find _ l) as [[h o]|] eqn:Eh; [|done].
  destruct (list_find _ (drop _ l)) as [[k o']|] eqn:Ek; [|done]. intros [= <-].
  apply list_find_Some in Eh as (Hh & -> & _).
  apply list_find_Some in Ek as (Hk & -> & Hmin). rewrite lookup_drop in Hk.
  pose proof (lookup_lt_Some _ _ _ Hk).
  rewrite wrap_small by (simpl; lia). rewrite Nat2N.id. split; [lia|].
  exists h. split_and!; [done|lia|done|]. intros j Hj Hjn.
  apply (Hmin (j - S h)%nat None); [|lia|done]. rewrite lookup_drop.
  replace (S h + (j - S h))%nat with j by lia. done.
Qed.

#[export] Instance lawful_copy_pattern : LawfulCommand CopyPattern.
Proof.
  intros st c Hst. cbn [apply_new_command handled_copy_pattern command_meta].
  unfold apply_copy_pattern. guards.
  destruct (patterns st !! copy_source_pattern_id c) as [source|] eqn:Es; [|done]. guards.
  match goal with H : map_contains _ _ = false |- _ => apply map_contains_false in H as Hnew end.
  apply post_or_invalid; [apply validate_pattern_slots_no_throw|]. intros Hsl. cbn zeta.
  rewrite emplace_new by done. cbn [pattern_slots with_patterns pattern_with_id pattern_id].
  pose proof (stored_pattern _ _ _ _ Hst Es) as Hp. apply pattern_ok_inv in Hp.
  pose proof (ok_slots _ _ Hst) as Hok. pose proof (ok_shape _ _ Hst) as Hsh.
  assert (∀ ct, content_ok (contract_max (contract st) ct)
    (with_patterns st (<[copy_pattern_id c := pattern_with_id source (copy_pattern_id c)]>
                         (patterns st)))) as Hcopy.
  { intros ct. apply with_pattern_ok; [by apply ok_bumped|]. apply pattern_ok_inv.
    cbn [pattern_with_id pattern_id bars events]. tauto. }
  destruct (copy_slot (pattern_slots st) (copy_source_pattern_id c)) as [s|] eqn:Ec.
  - destruct (copy_slot_spec _ _ _ (shape_slots _ Hsh) Ec) as (Hs & h & _ & _ & Hn & _).
    change (slot_at (pattern_slots st) s = Some None) in Hn. rewrite Hn.
    cbn [throwing mbind result_bind post has_value]. members.
    apply applied_committed; [by split|]. apply with_slots_ok; [apply Hcopy| | |].
    + unfold set_slot_at. rewrite length_insert. apply (shape_slots _ Hsh).
    + cbn [patterns with_patterns]. apply slots_ok_fill.
      * apply (ok_slots _ _ (Hcopy ProjectContract.v4)).
      * tauto.
      * rewrite lookup_insert_eq. eauto.
      * intros Hin. destruct (slots_uuid _ _ _ Hok Hin) as [_ [? ?]]. congruence.
    + intros Hlt. by apply below_v4_bumped in Hlt.
  - cbn [mbind result_bind post has_value]. members. by apply applied_committed.
Qed.

(** ** Settings *)

#[export] Instance lawful_update_sequence_settings : LawfulCommand UpdateSequenceSettings.
Proof.
  intros st c Hst. cbn [apply_new_command handled_update_sequence_settings command_meta].
  unfold apply_update_sequence_settings. guards. cbn zeta. cbn [post].
  unfold out_of_range, kSwingPercentMin, kSwingPercentMax in *.
  apply applied_committed.
  - destruct (settings_bpm c), (settings_quantize_enabled c), (settings_swing_percent c); by split.
  - destruct (ok_bumped ProjectContract.v3 st Hst) as [[] ? ? ? ? ? ? ? ? ?].
    destruct (settings_bpm c), (settings_quantize_enabled c), (settings_swing_percent c); bool_to_prop;
      split; try (done || by split); cbn; lia.
Qed.
End pattern_laws.
