(* ===== verification/Handler.v ===== *)
(** What the command handler promises.

    The theorems on [apply]: soundness of every overload, the revision and
    receipt gate, and the effect of each command on the Project. *)

From S2P Require Import Prelude Json Foundation Text Project Playback Fields Lineage Soundset Sequence Performance Commands Invariant CommandLaws PatternLaws.

(** ** A new Project *)

Section create.
Context `{JL : JsonLib}.

Lemma pad_at_empty_banks s p : pad_at empty_banks s = Some p →
  p = MkPadSlot s None default_playback None.
Proof.
  intros Hp. destruct s as [b q].
  assert (b < 4 ∧ q < 16) as [Hb Hq].
  { unfold pad_at in Hp. cbn [bank pad] in Hp.
    destruct (empty_banks !! N.to_nat b) as [row|] eqn:Er; [|done]. cbn in Hp.
    pose proof (lookup_lt_Some _ _ _ Er) as Hb. pose proof (lookup_lt_Some _ _ _ Hp) as Hq.
    assert (length row = 16%nat) as Hlen.
    { assert (Forall (λ row, length row = 16%nat) empty_banks) as Hr by by repeat constructor.
      exact (proj1 (Forall_lookup _ _) Hr _ _ Er). }
    change (length empty_banks) with 4%nat in Hb. lia. }
  rewrite empty_banks_pad in Hp by done. by injection Hp as <-.
Qed.

Lemma empty_project_ok id b : is_valid_uuid (value id) = true → 40 ≤ b ≤ 240 →
  project_ok (MkProjectState ProjectContract.v5 id 0 b true 50 empty_banks ∅ ∅ ∅
                (replicate 16 None)).
Proof.
  intros Hid Hb. split; try done;
    cbn [contract assets banks patterns performances pattern_slots];
    try apply map_Forall_empty.
  - split; [done| |done]. by repeat constructor.
  - intros s p ->%pad_at_empty_banks. by split.
  - split; [by repeat constructor|constructor].
Qed.

Lemma create_project_success id b st : create_project id b = success st ↔
  is_valid_uuid (value id) = true ∧ 40 ≤ b ≤ 240 ∧
  st = MkProjectState ProjectContract.v5 id 0 b true 50 empty_banks ∅ ∅ ∅ (replicate 16 None).
Proof.
  unfold create_project. destruct (is_valid_uuid _); cbn [negb]; [|naive_solver].
  destruct (_ || _) eqn:E.
  - split; [done|]. intros (_ & ? & _). lia.
  - split; [intros [= <-]|intros (_ & _ & ->)]; [|done]. split_and!; [done|lia|lia|done].
Qed.
End create.

(** ** The gate before every handler *)

Section gate.
Context `{JL : JsonLib} `{!JsonLaws JL}.

(** The outcome of [apply_checked] for a command with this [meta]. *)
Definition checked_outcome (st : ProjectState) (meta : CommandMeta)
    (receipts : gmap CommandId CommandReceipt) (a : AppliedCommand) : Prop :=
  if replayed a then
    applied_state a = st ∧
    ∃ r, receipts !! command_id meta = Some r ∧ applied_event a = receipt_event r
  else
    receipts !! command_id meta = None ∧ expected_revision meta = revision st ∧
    committed st meta a.

Lemma apply_checked_post {C} `{!HandledCommand C} `{!LawfulCommand C} st (c : C) receipts :
  project_ok st →
  post (checked_outcome st (command_meta c) receipts) (apply_checked st c receipts).
Proof.
  intros Hst. unfold apply_checked. cbn zeta. guards.
  destruct (receipts !! _) as [r|] eqn:Er; [cbn; eauto|]. guards.
  eapply post_weaken; [by apply lawful_command|]. intros a Ha. unfold checked_outcome.
  by rewrite (committed_fresh _ _ _ Ha).
Qed.

Lemma checked_outcome_ok st meta receipts a : project_ok st →
  checked_outcome st meta receipts a → project_ok (applied_state a).
Proof.
  unfold checked_outcome. intros Hst. destruct (replayed a); [by intros [-> _]|].
  intros (_ & _ & []). done.
Qed.

Lemma checked_ok {C} `{!HandledCommand C} `{!LawfulCommand C} st (c : C) receipts :
  project_ok st → post (λ a, project_ok (applied_state a)) (apply_checked st c receipts).
Proof.
  intros Hst. eapply post_weaken; [by apply apply_checked_post|].
  intros a. by apply checked_outcome_ok.
Qed.
End gate.

(** ** A Project for the witnesses *)

Definition id_of (n : N) : string :=
  match n with
  | 0 => "00000000-0000-4000-8000-000000000000" | 1 => "00000000-0000-4000-8000-000000000001"
  | 2 => "00000000-0000-4000-8000-000000000002" | 3 => "00000000-0000-4000-8000-000000000003"
  | _ => "00000000-0000-4000-8000-000000000004"
  end.

Definition example_project : ProjectState :=
  MkProjectState ProjectContract.v5 (MkId (id_of 0)) 0 90 true 50 empty_banks ∅ ∅ ∅
    (replicate 16 None).

Lemma example_project_ok : project_ok (JL := dom_lib) example_project.
Proof. apply empty_project_ok; [done|lia]. Qed.

Definition example_meta : CommandMeta := MkCommandMeta (MkId (id_of 1)) 0.

Definition example_create : CreatePattern :=
  MkCreatePattern example_meta
    (MkPattern (MkId (id_of 2)) 1
       [MkPatternEvent (MkPadSlotId 0 3) 960 240 100; MkPatternEvent (MkPadSlotId 0 0) 0 480 127]).

(** ** Properties *)

(** C1: every public overload of [apply], given a well-formed Project, returns a
    value or an error, never an exception, and the Project it returns is well
    formed. *)
Theorem every_overload_sound `{JL : JsonLib} `{!JsonLaws JL} st receipts (Hst : project_ok st) :
  let ok := post (λ a, project_ok (applied_state a)) in
  (∀ c, ok (apply st c receipts)) ∧
  (∀ c, ok (apply_delete_pad st c receipts)) ∧
  (∀ c, ok (apply_adoption st c receipts)) ∧
  (∀ c : EditPatternEvents, ok (apply_checked st c receipts)) ∧
  (∀ c : ResizePattern, ok (apply_checked st c receipts)) ∧
  (∀ c : DoubleUpPattern, ok (apply_checked st c receipts)) ∧
  (∀ c : CopyPattern, ok (apply_checked st c receipts)) ∧
  (∀ c : SetPadColour, ok (apply_checked st c receipts)) ∧
  (∀ c : ImportAssignSample, ok (apply_checked st c receipts)) ∧
  (∀ c : InstallSoundSet, ok (apply_checked st c receipts)) ∧
  (∀ c : UpdatePadPlayback, ok (apply_checked st c receipts)) ∧
  (∀ c : ResetPadPlayback, ok (apply_checked st c receipts)).
Proof.
  cbn zeta. assert (∀ c, post (λ a, project_ok (applied_state a)) (apply st c receipts)) as Hv
    by (intros []; by apply checked_ok).
  split_and!; [exact Hv|intros c; apply Hv| |intros c; by apply checked_ok..].
  intros c. unfold apply_adoption.
  eapply post_bind_eq; [apply validate_candidate_source_no_throw|]. intros _ _. guards.
  by apply checked_ok.
Qed.

Lemma every_overload_sound_witness :
  ∃ a, apply (JL := dom_lib) example_project (CCreatePattern example_create) ∅ = success a ∧
       project_ok (JL := dom_lib) (applied_state a) ∧ revision (applied_state a) = 1.
Proof.
  pose proof (proj1 (every_overload_sound (JL := dom_lib) example_project ∅ example_project_ok)
                (CCreatePattern example_create)) as H.
  eexists. split; [reflexivity|]. split; [exact H|reflexivity].
Defined.



(** A Project is created exactly for a UUID and a tempo from 40 to 240; it is
    well formed, at revision 0, with 64 empty Pads under their own ids. *)
Theorem create_project_exact `{JL : JsonLib} id b :
  create_project id b ≠ thrown ∧
  (result_has_value (create_project id b) = true ↔
     is_valid_uuid (value id) = true ∧ 40 ≤ b ≤ 240) ∧
  ∀ st, create_project id b = success st →
    project_ok st ∧ revision st = 0 ∧
    ∀ s, is_valid_slot s = true →
      pad_at (banks st) s = Some (MkPadSlot s None default_playback None).
Proof.
  split_and!.
  - unfold create_project. by repeat case_match.
  - split.
    + destruct (create_project id b) as [st| |] eqn:E; [|done..]. intros _.
      apply create_project_success in E as (? & ? & _). done.
    + intros [Hid Hb]. rewrite (proj2 (create_project_success id b _)) by eauto. done.
  - intros st (Hid & Hb & ->)%create_project_success. split_and!; [by apply empty_project_ok|done|].
    intros [k q] [? ?]%is_valid_slot_spec. by apply empty_banks_pad.
Qed.
