(* ===== verification/GridEdit.v ===== *)
(** Grid editing: when an edit is accepted and what it does to the events. *)

From S2P Require Import Prelude Json Foundation Text Project Playback Fields Lineage Soundset Sequence Performance Commands Invariant CommandLaws PatternLaws Handler.

(** ** Events by key *)

(** The event of a list with a key: its Pad and onset. *)
Definition find_event (k : PatternEventKey) (l : list PatternEvent) : option PatternEvent :=
  last_with_key (bank (key_slot k), pad (key_slot k), key_onset_tick k) l.

Lemma key_of_event_key e e' : key_of e = key_of e' ↔ event_key e = event_key e'.
Proof.
  unfold key_of, event_key. destruct e as [[] ? ? ?], e' as [[] ? ? ?]. simpl.
  split; congruence.
Qed.

Lemma event_key_is k e :
  event_key e = (bank (key_slot k), pad (key_slot k), key_onset_tick k) ↔ key_of e = k.
Proof.
  unfold key_of, event_key. destruct e as [[] ? ? ?], k as [[] ?]. simpl. split; congruence.
Qed.

Lemma NoDup_keys l : NoDup (key_of <$> l) ↔ NoDup (event_key <$> l).
Proof.
  induction l as [|e l IH]; [by split; constructor|].
  rewrite !fmap_cons, !NoDup_cons, IH.
  assert (key_of e ∈ key_of <$> l ↔ event_key e ∈ event_key <$> l) as ->; [|done].
  rewrite !list_elem_of_fmap. split; intros (e' & E & He'); exists e';
    (split; [by apply key_of_event_key|done]).
Qed.

Lemma find_event_app k l1 l2 :
  find_event k (l1 ++ l2) = match find_event k l2 with
                            | Some e => Some e | None => find_event k l1 end.
Proof. apply last_with_key_app. Qed.

Lemma find_event_None k l : find_event k l = None ↔ k ∉ key_of <$> l.
Proof.
  unfold find_event. rewrite last_with_key_None, !list_elem_of_fmap.
  split; intros H (e & E & He); apply H; exists e; (split; [|done]); symmetry in E;
    symmetry; by apply event_key_is.
Qed.

Lemma find_event_filter (P : PatternEventKey → Prop) `{∀ k, Decision (P k)} k l :
  find_event k (filter (λ e, P (key_of e)) l) = if decide (P k) then find_event k l else None.
Proof.
  unfold find_event, last_with_key. rewrite list_filter_filter. case_decide as HP.
  - f_equal. apply list_filter_iff. intros e. rewrite event_key_is. naive_solver.
  - apply last_None. destruct (filter _ l) as [|e l'] eqn:E; [done|exfalso].
    assert (e ∈ e :: l') as Hin by left. rewrite <- E in Hin.
    apply list_elem_of_filter in Hin as [[Hk HP'] _]. apply event_key_is in Hk. by subst.
Qed.

(** ** The loops of the handler *)

Section loops.
Context `{JL : JsonLib}.

Lemma collect_removed_step s k s' : collect_removed s k = success s' ↔
  is_valid_slot (key_slot k) = true ∧ k ∉ s ∧ s' = {[k]} ∪ s.
Proof.
  unfold collect_removed. destruct (is_valid_slot _); cbn [negb]; [|by split; [|intros []]].
  case_bool_decide; split; try done; [by intros (_ & ? & _)|by intros [= <-]|].
  by intros (_ & _ & ->).
Qed.

Lemma collect_put_step s e s' : collect_put s e = success s' ↔
  key_of e ∉ s ∧ s' = {[key_of e]} ∪ s.
Proof.
  unfold collect_put. case_bool_decide; split; try done; [by intros (? & _)|by intros [= <-]|].
  by intros (_ & ->).
Qed.

Lemma collect_removed_ok s l s' :
  fold_result collect_removed s l = success s' ↔
  Forall (λ k, is_valid_slot (key_slot k) = true) l ∧ NoDup l ∧ (∀ k, k ∈ l → k ∉ s) ∧
  s' = list_to_set l ∪ s.
Proof.
  revert s. induction l as [|k l IH]; intros s; cbn [fold_result].
  { rewrite list_to_set_nil, (left_id_L ∅ (∪)). split; [intros [= <-]|by intros (_ & _ & _ & ->)].
    split_and!; [constructor|constructor|by intros ? ?%elem_of_nil|done]. }
  rewrite result_bind_success. setoid_rewrite IH. setoid_rewrite collect_removed_step.
  rewrite Forall_cons, NoDup_cons, list_to_set_cons. split.
  - intros (s1 & (Hv & Hk & ->) & Hf & Hn & Hout & ->).
    assert (k ∉ l) by (intros Hin; specialize (Hout k Hin); set_solver).
    split_and!; try done; [|set_solver]. intros k' [->|Hin]%elem_of_cons; [done|].
    specialize (Hout k' Hin). set_solver.
  - intros ([Hv Hf] & [Hk Hn] & Hout & ->). exists ({[k]} ∪ s).
    split_and!; try done; [apply Hout; left| |set_solver].
    intros k' Hin. assert (k' ≠ k) by (by intros ->).
    assert (k' ∉ s) by (apply Hout; by right). set_solver.
Qed.

Lemma collect_put_ok s l s' :
  fold_result collect_put s l = success s' ↔
  NoDup (key_of <$> l) ∧ (∀ k, k ∈ key_of <$> l → k ∉ s) ∧
  s' = list_to_set (key_of <$> l) ∪ s.
Proof.
  revert s. induction l as [|e l IH]; intros s; cbn [fold_result].
  { rewrite fmap_nil, list_to_set_nil, (left_id_L ∅ (∪)). split; [intros [= <-]|by intros (_ & _ & ->)].
    split_and!; [constructor|by intros ? ?%elem_of_nil|done]. }
  rewrite result_bind_success. setoid_rewrite IH. setoid_rewrite collect_put_step.
  rewrite fmap_cons, NoDup_cons, list_to_set_cons. split.
  - intros (s1 & (Hk & ->) & Hn & Hout & ->).
    assert (key_of e ∉ key_of <$> l) by (intros Hin; specialize (Hout _ Hin); set_solver).
    split_and!; try done; [|set_solver]. intros k' [->|Hin]%elem_of_cons; [done|].
    specialize (Hout k' Hin). set_solver.
  - intros ([Hk Hn] & Hout & ->). exists ({[key_of e]} ∪ s).
    split_and!; try done; [apply Hout; left| |set_solver].
    intros k' Hin. assert (k' ≠ key_of e) by (by intros ->).
    assert (k' ∉ s) by (apply Hout; by right). set_solver.
Qed.
End loops.

(** With distinct event keys, the count of removed events is right exactly when
    every removed key is the key of a stored event. *)
Lemma removed_count (removed : list PatternEventKey) l :
  NoDup removed → NoDup (key_of <$> l) →
  length (filter (λ e, key_of e ∈ (list_to_set removed : gset PatternEventKey)) l) =
    size (list_to_set removed : gset PatternEventKey) ↔
  ∀ k, k ∈ removed → k ∈ key_of <$> l.
Proof.
  intros Hr Hl. rewrite size_list_to_set by done.
  set (hit := filter _ l). assert (NoDup (key_of <$> hit)) as Hh.
  by by apply NoDup_fmap_filter.
  assert (∀ k, k ∈ key_of <$> hit ↔ k ∈ removed ∧ k ∈ key_of <$> l) as Hk.
  { intros k. rewrite !list_elem_of_fmap. split.
    - intros (e & -> & [He ?]%list_elem_of_filter).
      rewrite elem_of_list_to_set in He. split; [done|]. eauto.
    - intros [Hk (e & -> & He)]. exists e. split; [done|]. apply list_elem_of_filter.
      by rewrite elem_of_list_to_set. }
  rewrite <- (length_fmap key_of hit). split.
  - intros Hlen k Hin.
    assert (key_of <$> hit ≡ₚ removed) as Hp.
    { apply submseteq_length_Permutation; [|lia]. apply NoDup_submseteq; [done|].
      intros x Hx. by apply Hk. }
    rewrite <- Hp in Hin. by apply Hk.
  - intros Hall. apply Permutation_length, NoDup_Permutation; [done..|].
    intros k. rewrite Hk. naive_solver.
Qed.

Lemma list_to_set_empty (l : list PatternEventKey) :
  (list_to_set l : gset PatternEventKey) = ∅ → l = [].
Proof. destruct l as [|k l]; [done|]. rewrite list_to_set_cons. set_solver. Qed.

(** ** The edit as a whole *)

Section edit.
Context `{JL : JsonLib}.

(** The events an accepted edit stores. *)
Definition edited_events (c : EditPatternEvents) (found : list PatternEvent) : list PatternEvent :=
  merge_pattern_events (filter (λ e, key_of e ∉ edit_remove c) found) (edit_put c).

(** When an edit of the stored Pattern [found] is accepted. *)
Record edit_accepted (c : EditPatternEvents) (found : Pattern) : Prop := {
  accepted_remove : Forall (λ k, is_valid_slot (key_slot k) = true) (edit_remove c);
  accepted_remove_once : NoDup (edit_remove c);
  accepted_put_once : NoDup (key_of <$> edit_put c);
  accepted_put : Forall (event_fits (pattern_length_ticks (bars found))) (edit_put c);
  accepted_present : ∀ k, k ∈ edit_remove c → k ∈ key_of <$> events found;
  accepted_change : edited_events c (events found) ≠ events found
}.

Lemma edited_lookup c found k :
  find_event k (edited_events c found) =
    match find_event k (edit_put c) with
    | Some e => Some e
    | None => if decide (k ∈ edit_remove c) then None else find_event k found
    end.
Proof.
  unfold edited_events, find_event. rewrite merge_lookup. rewrite last_with_key_app.
  destruct (last_with_key _ (edit_put c)); [done|].
  pose proof (find_event_filter (λ k, k ∉ edit_remove c) k found) as H.
  unfold find_event in H. rewrite H. repeat case_decide; try done; tauto.
Qed.

Lemma edit_success st c found a : project_ok st → patterns st !! edit_pattern_id c = Some found →
  apply_edit_pattern_events st c = success a ↔
  edit_accepted c found ∧
  a = applied (with_patterns st (<[edit_pattern_id c :=
        pattern_with_events found (edited_events c (events found))]> (patterns st)))
        "pattern.events_edited" (edit_meta c) ProjectContract.v3.
Proof.
  intros Hst Hf. pose proof (stored_pattern _ _ _ _ Hst Hf) as Hp.
  apply pattern_ok_inv in Hp as (Hid & Hu & Hb & Hfit & Hcan).
  unfold apply_edit_pattern_events. rewrite Hu, Hf. cbn [negb].
  assert (∀ r : gset PatternEventKey, r = list_to_set (edit_remove c) →
    filter (λ e, key_of e ∉ r) (events found) =
    filter (λ e, key_of e ∉ edit_remove c) (events found)) as Hkept.
  { intros r ->. apply list_filter_iff. intros e. by rewrite elem_of_list_to_set. }
  pose proof (removed_count (edit_remove c) (events found)) as Hcount.
  split.
  - intros (r & Hr & H)%result_bind_success. apply collect_removed_ok in Hr as (Hv & Hn & _ & ->).
    rewrite (right_id_L ∅ (∪)) in H.
    apply result_bind_success in H as (p & Hp & H).
    apply collect_put_ok in Hp as (Hn' & _ & ->). case_match; [done|].
    apply result_bind_success in H as ([] & Hput & H).
    apply validate_pattern_ok in Hput as (_ & _ & Hput).
    rewrite keep_or_count_spec, Hkept in H by done. cbn [app] in H. case_match eqn:Em; [done|].
    apply negb_false_iff, Nat.eqb_eq in Em. rewrite Nat.add_0_l in Em.
    cbn zeta in H. case_bool_decide as Hch; [done|].
    unfold update_pattern in H. rewrite Hf in H. cbn [throwing mbind result_bind] in H.
    injection H as <-. split; [|done]. split; try done.
    apply Hcount; [done|by apply NoDup_keys, canonical_keys|done].
  - intros [[Hv Hn Hn' Hput Hpres Hch] ->].
    rewrite (proj2 (collect_removed_ok ∅ (edit_remove c) (list_to_set (edit_remove c))))
      by (split_and!; [done|done|set_solver|by rewrite (right_id_L ∅ (∪))]).
    cbn [mbind result_bind].
    rewrite (proj2 (collect_put_ok ∅ (edit_put c) (list_to_set (key_of <$> edit_put c))))
      by (split_and!; [done|set_solver|by rewrite (right_id_L ∅ (∪))]).
    cbn [mbind result_bind].
    assert (bool_decide ((list_to_set (edit_remove c) : gset PatternEventKey) = ∅) &&
            bool_decide ((list_to_set (key_of <$> edit_put c) : gset PatternEventKey) = ∅) = false)
      as ->.
    { apply not_true_iff_false. intros [H1 H2]%andb_true_iff. bool_to_prop. apply Hch.
      apply list_to_set_empty in H1, H2. apply fmap_nil_inv in H2.
      unfold edited_events. rewrite H1, H2.
      rewrite (list_filter_iff _ (λ _, True)) by (intros; set_solver).
      assert (filter (λ _ : PatternEvent, True) (events found) = events found) as ->.
      { clear. induction (events found) as [|e l IH]; [done|].
        by rewrite filter_cons_True, IH. }
      apply canonical_unique; [apply merge_canonical|done|]. intros e.
      rewrite merge_elem, app_nil_r. apply last_with_key_canonical. by destruct Hcan. }
    rewrite (proj2 (validate_pattern_ok _)) by done. cbn [mbind result_bind].
    rewrite keep_or_count_spec, Hkept by done. cbn [app].
    rewrite (proj2 (Hcount Hn ltac:(by apply NoDup_keys, canonical_keys)) Hpres).
    rewrite Nat.add_0_l, Nat.eqb_refl. cbn [negb]. cbn zeta.
    rewrite bool_decide_eq_false_2 by done.
    unfold update_pattern. by rewrite Hf.
Qed.
End edit.

(** ** Properties *)

(** C24: a grid edit of a stored Pattern is accepted exactly when its keys are
    valid and distinct, its put events fit the loop, every removed event exists
    and something changes; afterwards each key holds the put event, nothing if
    it was removed, and otherwise what it held, in the canonical order, and no
    other Pattern changes. *)
Theorem grid_edit_exact `{JL : JsonLib} st c found (Hst : project_ok st)
    (Hf : patterns st !! edit_pattern_id c = Some found) :
  (result_has_value (apply_edit_pattern_events st c) = true ↔ edit_accepted c found) ∧
  ∀ a, apply_edit_pattern_events st c = success a →
    ∃ p, patterns (applied_state a) = <[edit_pattern_id c := p]> (patterns st) ∧
      bars p = bars found ∧ canonical_events (events p) ∧
      ∀ k, find_event k (events p) =
        match find_event k (edit_put c) with
        | Some e => Some e
        | None => if decide (k ∈ edit_remove c) then None else find_event k (events found)
        end.
Proof.
  split.
  - split.
    + destruct (apply_edit_pattern_events st c) as [a| |] eqn:E; [|done..]. intros _.
      by apply (edit_success st c found a Hst Hf) in E as [? _].
    + intros Hacc. by rewrite (proj2 (edit_success st c found _ Hst Hf) (conj Hacc eq_refl)).
  - intros a [_ ->]%(edit_success st c found a Hst Hf). eexists. split; [done|].
    split_and!; [done|apply merge_canonical|]. intros k. apply edited_lookup.
Qed.

Definition example_stored : ProjectState :=
  with_patterns example_project
    {[MkId (id_of 2) := MkPattern (MkId (id_of 2)) 1 [MkPatternEvent (MkPadSlotId 0 0) 0 480 127]]}.

Lemma example_stored_ok : project_ok (JL := dom_lib) example_stored.
Proof.
  destruct (example_project_ok) as [[] ? ? ? ? ? ? ? ? ?].
  split; try (done || by split); cbn [patterns example_stored with_patterns pattern_slots].
  - apply map_Forall_singleton. apply pattern_ok_inv. cbn [pattern_id bars events].
    split_and!; try done.
    + constructor; [|constructor]. by split.
    + split; [by repeat constructor|]. cbn. apply NoDup_singleton.
  - split; [by repeat constructor|constructor].
Qed.

Definition example_edit : EditPatternEvents :=
  MkEditPatternEvents example_meta (MkId (id_of 2))
    [MkPatternEventKey (MkPadSlotId 0 0) 0] [MkPatternEvent (MkPadSlotId 0 0) 240 120 90].

Lemma grid_edit_exact_witness :
  ∃ a p, apply_edit_pattern_events (JL := dom_lib) example_stored example_edit = success a ∧
    patterns (applied_state a) = <[edit_pattern_id example_edit := p]> (patterns example_stored) ∧
    find_event (MkPatternEventKey (MkPadSlotId 0 0) 0) (events p) = None.
Proof.
  destruct (grid_edit_exact (JL := dom_lib) example_stored example_edit
    (MkPattern (MkId (id_of 2)) 1 [MkPatternEvent (MkPadSlotId 0 0) 0 480 127])
    example_stored_ok eq_refl) as [_ H].
  edestruct H as (p & Hp & _ & _ & Hk); [reflexivity|].
  eexists. exists p. split; [reflexivity|]. split; [exact Hp|]. apply Hk.
Defined.
