(* ===== verification/PatternEdits.v ===== *)
(** Pattern length, copies and slots: what the handlers do to the Project. *)

From S2P Require Import Prelude Json Foundation Text Project Playback Fields Lineage Soundset Sequence Performance Commands Invariant CommandLaws PatternLaws Handler GridEdit.

(** ** Lemmas on cutting and repeating *)

Lemma cut_fit_id limit limit' l : limit < 2 ^ 32 → limit' ≤ limit →
  Forall (event_fits limit') l → cut_events limit l = l.
Proof.
  intros Hl Hle Hf. rewrite cut_events_spec by done. induction Hf as [|e l He Hf IH]; [done|].
  destruct He as [Hs Hv Hd Hseam]. rewrite filter_cons_True by lia. rewrite fmap_cons, IH.
  f_equal. unfold cut_event. rewrite N.min_l by lia. by destruct e.
Qed.

Lemma repeat_event_key len e e' : onset_tick e + len < 2 ^ 32 → onset_tick e' + len < 2 ^ 32 →
  event_key (repeat_event len e) = event_key (repeat_event len e') ↔ event_key e = event_key e'.
Proof.
  intros H H'. unfold event_key. rewrite !repeat_event_onset by done. cbn.
  split; intros E; simplify_eq; [f_equal; [f_equal; done|lia]|congruence].
Qed.

(** Doubling the events of a loop: the two halves do not meet. *)
Section doubling.
Context (len : N) (l : list PatternEvent).
Context (Hlen : len ≤ 15360) (Hfit : Forall (event_fits len) l) (Hcan : canonical_events l).

Lemma repeated_onset e : e ∈ l →
  onset_tick (repeat_event len e) = onset_tick e + len ∧ onset_tick e < len.
Proof.
  intros He. rewrite Forall_forall in Hfit. destruct (Hfit e He) as [? ? ? ?].
  rewrite repeat_event_onset by u_lia. split; [done|lia].
Qed.

Lemma doubled_keys : NoDup (event_key <$> l ++ (repeat_event len <$> l)).
Proof using Hcan Hfit Hlen.
  rewrite fmap_app. apply NoDup_app. split_and!; [by destruct Hcan| |].
  - intros k (e & -> & He)%list_elem_of_fmap (e' & E & He')%list_elem_of_fmap.
    apply list_elem_of_fmap in He' as (e0 & -> & He0).
    destruct (repeated_onset e He), (repeated_onset e0 He0).
    assert (onset_tick e = onset_tick (repeat_event len e0)) by (unfold event_key in E; congruence).
    lia.
  - rewrite <- list_fmap_compose. destruct Hcan as [_ Hn].
    assert (∀ e e', e ∈ l → e' ∈ l → (event_key ∘ repeat_event len) e =
              (event_key ∘ repeat_event len) e' → e = e') as Hinj.
    { intros e e' He He' E. cbn [compose] in E. unfold compose in E.
      destruct (repeated_onset e He), (repeated_onset e' He').
      apply repeat_event_key in E; [|u_lia..].
      pose proof (proj2 (last_with_key_canonical l e Hn) He) as HL1.
      pose proof (proj2 (last_with_key_canonical l e' Hn) He') as HL2.
      rewrite E in HL1. congruence. }
    assert (NoDup l) as Hnl by (by eapply NoDup_fmap_1).
    clear - Hinj Hnl. induction Hnl as [|e l He Hl IH]; [constructor|].
    rewrite fmap_cons. constructor.
    + intros (e' & E & He')%list_elem_of_fmap. apply He.
      by rewrite (Hinj e e') by (done || by left || by right).
    + apply IH. intros; apply Hinj; [by right..|done].
Qed.

Lemma doubled_elem e :
  e ∈ merge_pattern_events l (repeat_event len <$> l) ↔ e ∈ l ∨ e ∈ repeat_event len <$> l.
Proof using Hcan Hfit Hlen.
  rewrite merge_elem, last_with_key_canonical by apply doubled_keys. apply elem_of_app.
Qed.

Lemma doubled_length :
  length (merge_pattern_events l (repeat_event len <$> l)) = (2 * length l)%nat.
Proof using Hcan Hfit Hlen.
  assert (merge_pattern_events l (repeat_event len <$> l) ≡ₚ l ++ (repeat_event len <$> l)) as ->.
  { apply NoDup_Permutation.
    - apply (NoDup_fmap_1 event_key). by destruct (merge_canonical l (repeat_event len <$> l)).
    - apply (NoDup_fmap_1 event_key), doubled_keys.
    - intros e. by rewrite doubled_elem, elem_of_app. }
  rewrite length_app, length_fmap. lia.
Qed.

Lemma doubled_cut : cut_events len (merge_pattern_events l (repeat_event len <$> l)) = l.
Proof using Hcan Hfit Hlen.
  apply canonical_unique; [apply cut_events_canonical; [u_lia|apply merge_canonical]|done|].
  intros e. rewrite cut_events_spec, list_elem_of_fmap by u_lia. split.
  - intros (e' & -> & [Ho He']%list_elem_of_filter). apply doubled_elem in He' as [He'|He'].
    + rewrite Forall_forall in Hfit. destruct (Hfit e' He').
      assert (cut_event len e' = e') as ->; [|done].
      unfold cut_event. rewrite N.min_l by lia. by destruct e'.
    + apply list_elem_of_fmap in He' as (e0 & -> & He0). destruct (repeated_onset e0 He0). lia.
  - intros He. exists e. destruct (repeated_onset e He) as [_ Ho]. split.
    + rewrite Forall_forall in Hfit. destruct (Hfit e He).
      unfold cut_event. rewrite N.min_l by lia. by destruct e.
    + apply list_elem_of_filter. split; [done|]. apply doubled_elem. by left.
Qed.
End doubling.

(** ** Moving a slot *)

Section slots.
Context `{JL : JsonLib}.

Lemma move_success st c id : project_ok st →
  from_slot c < 16 → to_slot c < 16 → from_slot c ≠ to_slot c →
  slot_at (pattern_slots st) (from_slot c) = Some (Some id) →
  slot_at (pattern_slots st) (to_slot c) = Some None →
  ∃ a, apply_move_pattern_slot st c = success a ∧
    pattern_slots (applied_state a) =
      set_slot_at (set_slot_at (pattern_slots st) (from_slot c) None) (to_slot c) (Some id) ∧
    patterns (applied_state a) = patterns st.
Proof.
  intros Hst H1 H2 Hne Hf Ht. unfold apply_move_pattern_slot, kPatternSlotCount.
  rewrite (proj2 (validate_pattern_slots_ok st) (ok_slots _ _ Hst)). cbn [or_invalid].
  rewrite (proj2 (N.leb_gt _ _) H1), (proj2 (N.leb_gt _ _) H2), (proj2 (N.eqb_neq _ _) Hne).
  cbn [orb]. rewrite Hf. cbn [throwing mbind result_bind]. rewrite Ht.
  cbn [throwing mbind result_bind has_value]. cbn zeta. eexists. split; [done|]. by split.
Qed.

Lemma move_inv st c a : apply_move_pattern_slot st c = success a →
  from_slot c < 16 ∧ to_slot c < 16 ∧ from_slot c ≠ to_slot c ∧
  ∃ id, slot_at (pattern_slots st) (from_slot c) = Some (Some id) ∧
        slot_at (pattern_slots st) (to_slot c) = Some None.
Proof.
  unfold apply_move_pattern_slot, kPatternSlotCount. intros H.
  destruct (validate_pattern_slots st) as [[]| |]; cbn [or_invalid] in H; [|done..].
  case_match; [done|]. case_match; [done|]. bool_to_prop.
  apply result_bind_success in H as ([id|] & Hf%throwing_success & H); [|done].
  apply result_bind_success in H as (t & Ht%throwing_success & H).
  destruct t; [done|]. split_and!; [lia..|]. eauto.
Qed.
End slots.

(** ** Properties *)

(** Resizing a stored Pattern to another valid length succeeds; a longer loop
    keeps every event, a shorter one keeps the events that start before the new
    end, cut to it; the other Patterns and the slots do not change. *)
Theorem resize_keeps_audible `{JL : JsonLib} st c found (Hst : project_ok st)
    (Hf : patterns st !! resize_pattern_id c = Some found)
    (Hb : valid_bars (resize_bars c) = true) (Hne : bars found ≠ resize_bars c) :
  ∃ a p, apply_resize_pattern st c = success a ∧
    patterns (applied_state a) = <[resize_pattern_id c := p]> (patterns st) ∧
    pattern_slots (applied_state a) = pattern_slots st ∧ bars p = resize_bars c ∧
    events p = cut_event (pattern_length_ticks (resize_bars c)) <$>
      filter (λ e, onset_tick e < pattern_length_ticks (resize_bars c)) (events found) ∧
    (bars found < resize_bars c → events p = events found).
Proof.
  pose proof (stored_pattern _ _ _ _ Hst Hf) as Hp.
  apply pattern_ok_inv in Hp as (Hid & Hu & Hbf & Hfit & Hcan).
  pose proof (pattern_length_valid _ Hb) as [Hlen Hmax].
  pose proof (pattern_length_valid _ Hbf) as [Hlenf Hmaxf].
  unfold apply_resize_pattern, update_pattern. rewrite Hu, Hb, Hf. cbn [negb].
  rewrite (proj2 (N.eqb_neq _ _) Hne). cbn zeta. cbn [throwing mbind result_bind].
  eexists _, _. split; [done|]. split; [done|]. split; [done|].
  cbn [bars events pattern_with_events pattern_with_bars]. split; [done|].
  split; [apply cut_events_spec; u_lia|]. intros Hlt. eapply cut_fit_id; [u_lia| |exact Hfit]. lia.
Qed.

Lemma resize_keeps_audible_witness :
  ∃ a p, apply_resize_pattern (JL := dom_lib) example_stored
           (MkResizePattern example_meta (MkId (id_of 2)) 4) = success a ∧
    patterns (applied_state a) = <[MkId (id_of 2) := p]> (patterns example_stored) ∧ bars p = 4.
Proof.
  destruct (resize_keeps_audible (JL := dom_lib) example_stored
    (MkResizePattern example_meta (MkId (id_of 2)) 4)
    (MkPattern (MkId (id_of 2)) 1 [MkPatternEvent (MkPadSlotId 0 0) 0 480 127])
    example_stored_ok eq_refl eq_refl ltac:(discriminate)) as (a & p & H1 & H2 & _ & H3 & _).
  exists a, p. split; [exact H1|]. split; [exact H2|exact H3].
Defined.

(** Doubling a stored Pattern of less than 8 bars succeeds, doubles its
    length and stores each event twice, once where it was and once a loop
    later; cutting the result to the old length gives the old events back. *)
Theorem double_up_repeats `{JL : JsonLib} st c found (Hst : project_ok st)
    (Hf : patterns st !! double_pattern_id c = Some found) (Hb : bars found < 8) :
  let len := pattern_length_ticks (bars found) in
  ∃ a p, apply_double_up_pattern st c = success a ∧
    patterns (applied_state a) = <[double_pattern_id c := p]> (patterns st) ∧
    bars p = 2 * bars found ∧ length (events p) = (2 * length (events found))%nat ∧
    (∀ e, e ∈ events p ↔ e ∈ events found ∨ e ∈ repeat_event len <$> events found) ∧
    cut_events len (events p) = events found.
Proof.
  cbn zeta. pose proof (stored_pattern _ _ _ _ Hst Hf) as Hp.
  apply pattern_ok_inv in Hp as (Hid & Hu & Hbf & Hfit & Hcan).
  assert (u8_mul (bars found) 2 = 2 * bars found ∧ pattern_length_ticks (bars found) ≤ 15360)
    as [Hb2 Hlen].
  { apply valid_bars_spec in Hbf as [E|[E|[E|E]]]; rewrite E in *; [done..|lia]. }
  unfold apply_double_up_pattern, update_pattern. rewrite Hu, Hf. cbn [negb].
  rewrite (proj2 (N.leb_gt _ _) Hb), Hb2. cbn zeta. cbn [throwing mbind result_bind].
  eexists _, _. split; [done|]. split; [done|].
  cbn [bars events pattern_with_events pattern_with_bars].
  split_and!; [done|by apply doubled_length|intros e; by apply doubled_elem|by apply doubled_cut].
Qed.

Lemma double_up_repeats_witness :
  ∃ a p, apply_double_up_pattern (JL := dom_lib) example_stored
           (MkDoubleUpPattern example_meta (MkId (id_of 2))) = success a ∧
    bars p = 2 ∧ length (events p) = 2%nat.
Proof.
  destruct (double_up_repeats (JL := dom_lib) example_stored
    (MkDoubleUpPattern example_meta (MkId (id_of 2)))
    (MkPattern (MkId (id_of 2)) 1 [MkPatternEvent (MkPadSlotId 0 0) 0 480 127])
    example_stored_ok eq_refl eq_refl) as (a & p & H1 & _ & H2 & H3 & _).
  exists a, p. split; [exact H1|]. split; [exact H2|exact H3].
Defined.

(** A copy of a Pattern has its length and events under the new id; when the
    source holds a slot, the copy takes the lowest empty slot after it, and no
    slot when there is none or when the source holds none. *)
Theorem copy_takes_next_slot `{JL : JsonLib} st c a (Hst : project_ok st)
    (H : apply_copy_pattern st c = success a) :
  ∃ source, patterns st !! copy_source_pattern_id c = Some source ∧
    patterns (applied_state a) =
      <[copy_pattern_id c := pattern_with_id source (copy_pattern_id c)]> (patterns st) ∧
    match copy_slot (pattern_slots st) (copy_source_pattern_id c) with
    | None => pattern_slots (applied_state a) = pattern_slots st
    | Some s =>
        pattern_slots (applied_state a) =
          <[N.to_nat s := Some (copy_pattern_id c)]> (pattern_slots st) ∧
        ∃ h, pattern_slots st !! h = Some (Some (copy_source_pattern_id c)) ∧
          (h < N.to_nat s)%nat ∧ pattern_slots st !! N.to_nat s = Some None ∧
          ∀ j, (h < j < N.to_nat s)%nat → pattern_slots st !! j ≠ Some None
    end.
Proof.
  unfold apply_copy_pattern in H. case_match; [done|].
  destruct (patterns st !! copy_source_pattern_id c) as [source|] eqn:Es; [|done].
  case_match eqn:Ed; [done|]. apply map_contains_false in Ed.
  destruct (validate_pattern_slots st) as [[]| |]; cbn [or_invalid] in H; [|done..].
  cbn zeta in H. rewrite emplace_new in H by done.
  exists source. split; [done|].
  destruct (copy_slot (pattern_slots st) (copy_source_pattern_id c)) as [s|] eqn:Ec.
  - destruct (copy_slot_spec _ _ _ (shape_slots _ (ok_shape _ _ Hst)) Ec)
      as (_ & h & Hh & Hlt & Hs & Hmin).
    change (slot_at (pattern_slots st) s = Some None) in Hs.
    cbn [pattern_slots with_patterns] in H. rewrite Hs in H.
    cbn [throwing mbind result_bind] in H. injection H as <-.
    split; [done|]. split; [done|]. eauto.
  - cbn [mbind result_bind] in H. by injection H as <-.
Qed.

Definition example_slotted : ProjectState :=
  with_pattern_slots example_stored (<[0%nat := Some (MkId (id_of 2))]> (replicate 16 None)).

Lemma example_slotted_ok : project_ok (JL := dom_lib) example_slotted.
Proof.
  apply (with_slots_ok ProjectContract.v5 example_stored); [apply example_stored_ok|done| |].
  - apply slots_ok_fill; [apply (ok_slots _ _ example_stored_ok)|done|by eexists|].
    intros Hin. by apply elem_of_replicate in Hin as [? _].
  - done.
Qed.

Lemma copy_takes_next_slot_witness :
  ∃ a, apply_copy_pattern (JL := dom_lib) example_slotted
         (MkCopyPattern example_meta (MkId (id_of 2)) (MkId (id_of 3))) = success a ∧
    pattern_slots (applied_state a) =
      <[1%nat := Some (MkId (id_of 3))]> (pattern_slots example_slotted).
Proof.
  eexists. split; [reflexivity|].
  edestruct (copy_takes_next_slot (JL := dom_lib) example_slotted
    (MkCopyPattern example_meta (MkId (id_of 2)) (MkId (id_of 3)))) as (source & _ & _ & H);
    [apply example_slotted_ok|reflexivity|exact (proj1 H)].
Defined.

(** Moving a Pattern between slots keeps every other slot and the Patterns,
    and moving it back restores the slots. *)
Theorem move_slot_undone `{JL : JsonLib} `{!JsonLaws JL} st c a (Hst : project_ok st)
    (H : apply_move_pattern_slot st c = success a) :
  (∃ id, slot_at (pattern_slots st) (from_slot c) = Some (Some id) ∧
     ∀ s, slot_at (pattern_slots (applied_state a)) s =
       if decide (s = to_slot c) then Some (Some id)
       else if decide (s = from_slot c) then Some None else slot_at (pattern_slots st) s) ∧
  ∀ meta, ∃ b,
    apply_move_pattern_slot (applied_state a) (MkMovePatternSlot meta (to_slot c) (from_slot c)) =
      success b ∧ pattern_slots (applied_state b) = pattern_slots st ∧
      patterns (applied_state b) = patterns st.
Proof.
  pose proof (move_inv st c a H) as (H1 & H2 & Hne & id & Hf & Ht).
  destruct (move_success st c id Hst H1 H2 Hne Hf Ht) as (a' & Ha' & Hsl & Hpt).
  rewrite H in Ha'. injection Ha' as <-.
  pose proof (shape_slots _ (ok_shape _ _ Hst)) as Hlen.
  assert (∀ s, slot_at (pattern_slots (applied_state a)) s =
       if decide (s = to_slot c) then Some (Some id)
       else if decide (s = from_slot c) then Some None else slot_at (pattern_slots st) s) as Hat.
  { intros s. rewrite Hsl.
    rewrite slot_at_set by (unfold set_slot_at; rewrite length_insert; lia).
    destruct (decide (to_slot c = s)); [by rewrite decide_True|]. rewrite decide_False by congruence.
    rewrite slot_at_set by lia.
    destruct (decide (from_slot c = s)); [by rewrite decide_True|by rewrite decide_False by congruence]. }
  split; [by exists id|]. intros meta.
  pose proof (lawful_command st c Hst) as Hok. cbn [apply_new_command handled_move_pattern_slot] in Hok.
  rewrite H in Hok. destruct Hok as [Hok _ _ _ _ _ _].
  destruct (move_success (applied_state a) (MkMovePatternSlot meta (to_slot c) (from_slot c)) id)
    as (b & Hb & Hbs & Hbp); cbn [from_slot to_slot] in *; [done|done|done|congruence| | |].
  - by rewrite Hat, decide_True.
  - by rewrite Hat, decide_False, decide_True by congruence.
  - exists b. split; [done|]. split; [|congruence]. rewrite Hbs, Hsl.
    unfold slot_at, set_slot_at in *. apply list_eq. intros i.
    destruct (decide (i = N.to_nat (from_slot c))) as [->|Hi].
    + rewrite list_lookup_insert_eq by (rewrite !length_insert; lia). by rewrite Hf.
    + rewrite list_lookup_insert_ne by done.
      destruct (decide (i = N.to_nat (to_slot c))) as [->|Hi'].
      * rewrite list_lookup_insert_eq by (rewrite !length_insert; lia). by rewrite Ht.
      * by rewrite !list_lookup_insert_ne by done.
Qed.

Lemma move_slot_undone_witness :
  ∃ a b, apply_move_pattern_slot (JL := dom_lib) example_slotted
           (MkMovePatternSlot example_meta 0 5) = success a ∧
    apply_move_pattern_slot (JL := dom_lib) (applied_state a)
      (MkMovePatternSlot example_meta 5 0) = success b ∧
    pattern_slots (applied_state b) = pattern_slots example_slotted.
Proof.
  destruct (apply_move_pattern_slot (JL := dom_lib) example_slotted
              (MkMovePatternSlot example_meta 0 5)) as [a| |] eqn:E;
    [|discriminate E..].
  destruct (move_slot_undone (JL := dom_lib) example_slotted (MkMovePatternSlot example_meta 0 5) a
              example_slotted_ok E) as [_ H].
  destruct (H example_meta) as (b & H1 & H2 & _).
  exists a, b. split; [reflexivity|]. split; [exact H1|exact H2].
Defined.
