(* ===== verification/PadEdits.v ===== *)
(** Pads, colours and Sound Sets: what the handlers do to the Project. *)

From S2P Require Import Prelude Json Foundation Text Project Playback Fields Lineage Soundset Sequence Performance Commands Invariant CommandLaws PatternLaws Handler.

(** ** Placing a batch of Assets *)

Section place_all.
Context `{JL : JsonLib} {T : Type} (fs : T → PadSlotId) (fa : T → Asset).

(** A Pad that has just received an Asset keeps only its id and colour. *)
Definition received (q : PadSlot) (id : AssetId) : PadSlot :=
  MkPadSlot (pad_id q) (Some id) default_playback (pad_colour q).

Record all_placed (st st' : ProjectState) (l : list T) : Prop := {
  placed_pad t : t ∈ l → ∃ q, pad_at (banks st) (fs t) = Some q ∧
    pad_at (banks st') (fs t) = Some (received q (asset_id (fa t)));
  placed_other_pads s : s ∉ fs <$> l → pad_at (banks st') s = pad_at (banks st) s;
  placed_asset t : t ∈ l → assets st' !! asset_id (fa t) = Some (fa t);
  placed_other_assets i : i ∉ (λ t, asset_id (fa t)) <$> l → assets st' !! i = assets st !! i;
  placed_patterns : patterns st' = patterns st;
  placed_slots : pattern_slots st' = pattern_slots st
}.

Lemma place_all_placed l st st' :
  NoDup (fs <$> l) → NoDup ((λ t, asset_id (fa t)) <$> l) →
  (∀ t, t ∈ l → assets st !! asset_id (fa t) = None) →
  fold_result (λ copy t, place_asset copy (fs t) (fa t)) st l = success st' →
  all_placed st st' l.
Proof.
  revert st. induction l as [|t l IH]; intros st Hs Hi Hn; cbn [fold_result].
  { intros [= <-]. split; try done; by intros t ?%elem_of_nil. }
  rewrite fmap_cons, NoDup_cons in Hs. destruct Hs as [Hs0 Hs].
  rewrite fmap_cons, NoDup_cons in Hi. destruct Hi as [Hi0 Hi].
  assert (assets st !! asset_id (fa t) = None) as Ht by (apply Hn; left).
  intros (st1 & (q & Hq & Hst1)%place_asset_spec & Hf)%result_bind_success.
  assert (assets st1 = <[asset_id (fa t) := fa t]> (assets st)) as Has
    by (rewrite Hst1; cbn; by apply emplace_new).
  assert (∀ s, pad_at (banks st1) s = if decide (fs t = s) then Some (received q (asset_id (fa t)))
                                      else pad_at (banks st) s) as Hpad.
  { intros s. rewrite Hst1. cbn [banks with_banks]. by rewrite (pad_at_set _ _ _ _ _ Hq). }
  destruct (IH st1 Hs Hi) as [Hp Hop Ha Hoa Hpt Hsl]; [|done|].
  { intros t' Ht'. rewrite Has, lookup_insert_ne; [apply Hn; by right|].
    intros E. apply Hi0. rewrite E. by apply (list_elem_of_fmap_2 (λ t, asset_id (fa t))). }
  split.
  - intros t' [->|Hin]%elem_of_cons.
    + exists q. split; [done|]. rewrite Hop, Hpad by done. by rewrite decide_True.
    + destruct (Hp t' Hin) as (q' & Hq' & Hr). exists q'. split; [|done].
      rewrite Hpad, decide_False in Hq'; [done|]. intros E. apply Hs0. rewrite E.
      by apply list_elem_of_fmap_2.
  - intros s [Hne Hout]%not_elem_of_cons. rewrite Hop, Hpad by done. by rewrite decide_False.
  - intros t' [->|Hin]%elem_of_cons; [|by apply Ha]. rewrite Hoa, Has by done.
    apply lookup_insert_eq.
  - intros i [Hne Hout]%not_elem_of_cons. rewrite Hoa, Has by done. by rewrite lookup_insert_ne.
  - by rewrite Hpt, Hst1.
  - by rewrite Hsl, Hst1.
Qed.
End place_all.

(** ** The loops of the two batch handlers *)

Section batches.
Context `{JL : JsonLib} `{!JsonLaws JL}.

(** What the loop of [apply_install_soundset] has established. *)
Definition install_checked (st : ProjectState) (b : N) (done : list SoundSetInstallAssignment)
    (seen : install_seen) : Prop :=
  install_pads seen = list_to_set ((λ a, pad (install_slot a)) <$> done) ∧
  NoDup ((λ a, pad (install_slot a)) <$> done) ∧
  Forall (λ a, bank (install_slot a) = b ∧ is_valid_slot (install_slot a) = true ∧
    ∃ s, lineage_source <$> asset_lineage (install_asset a) = Some (soundset_source s) ∧
      source_slot_index s = pad (install_slot a)) done.

Lemma check_install_checked st b done seen a : install_checked st b done seen →
  post (install_checked st b (done ++ [a])) (check_install st b seen a).
Proof.
  intros (Hids & Hn & Hf). unfold check_install. cbn zeta. guards.
  destruct (asset_lineage (install_asset a)) as [[[|src] d]|] eqn:El; try done.
  destruct d; try done.
  apply post_or_invalid; [apply validate_asset_lineage_no_throw|]. intros Hv.
  unfold check_install_source. guards. cbn [install_identity].
  assert (∀ ev t, install_checked st b (done ++ [a]) (MkInstallSeen
            ({[pad (install_slot a)]} ∪ install_pads seen) t ev)) as Hinv.
  { intros ev t. rewrite Hids in *. split_and!; cbn [install_pads].
    - rewrite fmap_app, list_to_set_app_L. cbn. set_solver.
    - rewrite fmap_app. apply NoDup_app. split_and!; [done| |apply NoDup_singleton].
      intros x Hx Hx'. apply list_elem_of_singleton in Hx'. subst. set_solver.
    - apply Forall_app. split; [done|]. apply Forall_cons. split; [|done].
      split_and!; [done|done|]. exists src. by rewrite El. }
  destruct (install_identity seen); guards; cbn [post]; apply Hinv.
Qed.

Lemma install_inv_success st c a : apply_install_soundset st c = success a →
  ∃ front st', head (install_assignments c) = Some front ∧
    a = applied st' "soundset.installed" (install_meta c) ProjectContract.v4 ∧
    Forall (λ a, bank (install_slot a) = bank (install_slot front) ∧
      is_valid_slot (install_slot a) = true ∧
      ∃ s, lineage_source <$> asset_lineage (install_asset a) = Some (soundset_source s) ∧
        source_slot_index s = pad (install_slot a)) (install_assignments c) ∧
    all_placed install_slot install_asset st st' (install_assignments c).
Proof.
  unfold apply_install_soundset. case_match; [done|].
  destruct (install_assignments c) as [|front rest] eqn:Ec; [done|]. rewrite <- Ec.
  intros (seen & Hs & (st' & Hp & [= <-])%result_bind_success)%result_bind_success.
  pose proof (post_fold (install_inv st) (check_install st (bank (install_slot front)))
    (install_assignments c) [] (MkInstallSeen ∅ ∅ None)
    (λ done s a _, check_install_post st _ done s a)) as H1.
  pose proof (post_fold (install_checked st (bank (install_slot front)))
    (check_install st (bank (install_slot front)))
    (install_assignments c) [] (MkInstallSeen ∅ ∅ None)
    (λ done s a _, check_install_checked st _ done s a)) as H2.
  rewrite Hs in H1, H2. cbn [post app] in H1, H2.
  destruct H1 as (_ & Hid & Hpl); [by split_and!; [|constructor|constructor]|].
  destruct H2 as (_ & Hpad & Hck); [by split_and!; [|constructor|constructor]|].
  exists front, st'. split; [by rewrite Ec|]. split; [done|]. split; [done|].
  eapply place_all_placed; [|done| |exact Hp].
  - apply (NoDup_fmap_1 pad). by rewrite <- list_fmap_compose.
  - intros t Ht. rewrite Forall_forall in Hpl. by apply (Hpl t Ht).
Qed.

(** What the loop of [apply_adopt_candidates] has established: distinct valid
    targets, and one analysis behind every assignment. *)
Definition adoption_bound (st : ProjectState) (c : AdoptCandidates)
    (e : CapabilityAdoptionLineageDerivation) (s : AssetArtifactLineageSource)
    (a : CandidateAdoptionAssignment) : Prop :=
  is_valid_slot (adopt_slot a) = true ∧
  (∃ r, asset_lineage (adopt_asset a) =
     Some (MkAssetLineage (asset_artifact_source s)
             (capability_adoption_derivation (with_recipe e r)))) ∧
  source_artifact_sha256 s = sha256 (adopt_source_artifact c) ∧
  source_project_revision s ≤ revision st ∧
  adoption_source_asset_id e = adopt_source_asset_id c.

Definition adoption_checked (st : ProjectState) (c : AdoptCandidates)
    (done : list CandidateAdoptionAssignment) (seen : adoption_seen) : Prop :=
  adoption_targets seen = list_to_set ((λ a, (bank (adopt_slot a), pad (adopt_slot a))) <$> done) ∧
  NoDup ((λ a, (bank (adopt_slot a), pad (adopt_slot a))) <$> done) ∧
  match adoption_evidence seen with
  | None => done = []
  | Some (e, s) => Forall (adoption_bound st c e s) done
  end.

Lemma with_recipe_same d : with_recipe d (adoption_recipe d) = d.
Proof. by destruct d. Qed.

Lemma with_recipe_inv d e : with_recipe d (adoption_recipe e) = e →
  d = with_recipe e (adoption_recipe d).
Proof. destruct d, e. unfold with_recipe. cbn. congruence. Qed.

Lemma check_adoption_checked st c done seen a : adoption_checked st c done seen →
  post (adoption_checked st c (done ++ [a])) (check_adoption st c seen a).
Proof.
  intros (Hids & Hn & Hf). unfold check_adoption. cbn zeta. guards.
  destruct (asset_lineage (adopt_asset a)) as [[src der]|] eqn:El; [|done].
  unfold check_adoption_lineage. apply post_or_invalid; [apply validate_asset_lineage_no_throw|].
  intros Hv. cbn [lineage_source lineage_derivation] in *.
  destruct src as [src|]; [|done]. destruct der as [| |d]; try done. guards.
  cbn [adoption_evidence adoption_targets adoption_ids].
  assert (∀ e t, (∀ x, x ∈ done ++ [a] → adoption_bound st c e src x) →
    adoption_checked st c (done ++ [a]) (MkAdoptionSeen
      ({[(bank (adopt_slot a), pad (adopt_slot a))]} ∪ adoption_targets seen) t (Some (e, src))))
    as Hinv.
  { intros e t Hall. split_and!; cbn [adoption_targets adoption_evidence].
    - rewrite Hids, fmap_app, list_to_set_app_L. cbn. set_solver.
    - rewrite fmap_app. apply NoDup_app. split_and!; [done| |apply NoDup_singleton].
      intros x Hx ->%list_elem_of_singleton.
      match goal with H : _ ∉ adoption_targets seen |- _ => apply H end.
      rewrite Hids. by apply elem_of_list_to_set.
    - by apply Forall_forall. }
  destruct (adoption_evidence seen) as [[e s]|]; cbn [adoption_checked] in *.
  - guards. cbn [post]. repeat match goal with H : negb _ = false |- _ => apply negb_false_iff in H end.
    bool_to_prop. subst s.
    match goal with H : with_recipe _ _ = _ |- _ => apply with_recipe_inv in H as Hd end.
    apply Hinv. intros x [Hin|Hin]%elem_of_app; [rewrite Forall_forall in Hf; by apply Hf|].
    apply list_elem_of_singleton in Hin as ->. split_and!; [done| |done|done|].
    + exists (adoption_recipe d). rewrite El. by rewrite <- Hd.
    + match goal with H : adoption_source_asset_id d = _ |- _ => rewrite Hd in H end. done.
  - cbn [post]. subst done. apply Hinv. intros x Hin. apply list_elem_of_singleton in Hin as ->.
    split_and!; try done. exists (adoption_recipe d). by rewrite El, with_recipe_same.
Qed.

Lemma adopt_inv_success st c a : apply_adopt_candidates st c = success a →
  ∃ st' e s, a = applied st' "candidate.adopted" (adopt_meta c) ProjectContract.v5 ∧
    (1 ≤ length (adopt_assignments c) ≤ 64)%nat ∧
    Forall (adoption_bound st c e s) (adopt_assignments c) ∧
    all_placed adopt_slot adopt_asset st st' (adopt_assignments c).
Proof.
  unfold apply_adopt_candidates. intros ([] & _ & H)%result_bind_success.
  case_match eqn:Elen; [done|]. apply orb_false_iff in Elen as [Hne Hlen].
  apply Nat.ltb_ge in Hlen.
  apply result_bind_success in H as (seen & Hs & H).
  apply result_bind_success in H as (st' & Hp & H). injection H as <-.
  pose proof (post_fold (adoption_inv st) (check_adoption st c)
    (adopt_assignments c) [] (MkAdoptionSeen ∅ ∅ None)
    (λ done s a _, check_adoption_post st _ done s a)) as H1.
  pose proof (post_fold (adoption_checked st c) (check_adoption st c)
    (adopt_assignments c) [] (MkAdoptionSeen ∅ ∅ None)
    (λ done s a _, check_adoption_checked st _ done s a)) as H2.
  rewrite Hs in H1, H2. cbn [post app] in H1, H2.
  destruct H1 as (_ & Hid & Hpl); [by split_and!; [|constructor|constructor]|].
  destruct H2 as (_ & Hpad & Hck); [by split_and!; [|constructor|]|].
  destruct (adoption_evidence seen) as [[e s]|]; [|by rewrite Hck in Hne].
  exists st', e, s. split; [done|]. split; [destruct (adopt_assignments c); [done|]; cbn [length] in *; lia|].
  split; [done|]. eapply place_all_placed; [|done| |exact Hp].
  - apply (NoDup_fmap_1 (λ s, (bank s, pad s))). by rewrite <- list_fmap_compose.
  - intros t Ht. rewrite Forall_forall in Hpl. by apply (Hpl t Ht).
Qed.

(** ** Sound Set mapping *)

(** What the Set slot [n] proposes for the Pad [n]. *)
Definition proposal (m : SoundSetManifest) (n : nat) : option SoundSetProposedPad :=
  s ← slots m !! n; o ← occupied s;
  Some (MkProposedPad (N.of_nat n) (N.of_nat n) (occupied_artifact o)
          (soundset_role_category (role o))).

Definition collides (m : SoundSetManifest) (ip : nat * PadSlot) : bool :=
  has_value (proposal m ip.1) && has_value (pad_asset_id ip.2).

Definition vacant (m : SoundSetManifest) (ip : nat * PadSlot) : bool :=
  negb (has_value (proposal m ip.1)).

Lemma map_soundset_fold m l mp :
  Forall (λ ip, ip.1 < length (slots m) ∧ ip.1 < 256)%nat l →
  fold_result (map_soundset_pad (slots m)) mp l =
    success (MkSoundSetMapping (proposed mp ++ omap (λ ip, proposal m ip.1) l)
      (collisions mp ++ ((λ ip, N.of_nat ip.1) <$> filter (λ ip, collides m ip = true) l))
      (kept mp ++ ((λ ip, N.of_nat ip.1) <$> filter (λ ip, vacant m ip = true) l))).
Proof.
  intros Hl. revert mp. induction Hl as [|[n p] l [Hn H256] Hl IH]; intros mp; cbn [fold_result].
  { cbn. rewrite !app_nil_r. by destruct mp. }
  cbn [fst] in *. destruct (lookup_lt_is_Some_2 (slots m) n Hn) as [s Hs].
  assert (proposal m n = o ← occupied s;
    Some (MkProposedPad (N.of_nat n) (N.of_nat n) (occupied_artifact o)
            (soundset_role_category (role o)))) as Hp by (unfold proposal; by rewrite Hs).
  assert (map_soundset_pad (slots m) mp (n, p) = success (match occupied s with
    | None => MkSoundSetMapping (proposed mp) (collisions mp) (kept mp ++ [N.of_nat n])
    | Some o => MkSoundSetMapping
        (proposed mp ++ [MkProposedPad (N.of_nat n) (N.of_nat n) (occupied_artifact o)
                           (soundset_role_category (role o))])
        (if has_value (pad_asset_id p) then collisions mp ++ [N.of_nat n] else collisions mp)
        (kept mp) end)) as ->.
  { unfold map_soundset_pad. cbn [fst snd]. rewrite Hs, wrap_small by (simpl; lia).
    cbn [throwing mbind result_bind]. by destruct (occupied s). }
  cbn [mbind result_bind]. rewrite IH. rewrite !filter_cons. unfold collides, vacant.
  cbn [omap list_omap fst snd]. rewrite Hp. f_equal.
  destruct (occupied s); cbn [mbind option_bind has_value proposed collisions kept negb andb].
  - rewrite (decide_False (P := false = true)) by done.
    destruct (has_value (pad_asset_id p)).
    + rewrite decide_True by done. by rewrite fmap_cons, <- !app_assoc.
    + rewrite decide_False by done. by rewrite <- !app_assoc.
  - rewrite decide_False, decide_True by done. by rewrite fmap_cons, <- app_assoc.
Qed.
End batches.

(** ** Properties *)

(** Assigning an Asset to a Pad keeps its playback exactly when the Pad held
    that Asset, and always keeps its colour; assigning none (deleting the Pad)
    empties it: default playback and no colour.  Other Pads, Assets, Patterns
    and slots do not change. *)
Theorem assign_pad_effect `{JL : JsonLib} st c a (Hst : project_ok st)
    (H : apply_assign_pad st c = success a) :
  ∃ old, pad_at (banks st) (assign_slot c) = Some old ∧
    (∀ s, pad_at (banks (applied_state a)) s =
      if decide (s = assign_slot c) then
        Some (match assign_asset_id c with
              | None => MkPadSlot s None default_playback None
              | Some id => MkPadSlot s (Some id)
                  (if decide (pad_asset_id old = Some id) then pad_playback old
                   else default_playback) (pad_colour old)
              end)
      else pad_at (banks st) s) ∧
    assets (applied_state a) = assets st ∧ patterns (applied_state a) = patterns st ∧
    pattern_slots (applied_state a) = pattern_slots st.
Proof.
  unfold apply_assign_pad in H. do 3 (case_match; [done|]).
  apply result_bind_success in H as (old & Hold%throwing_success & H). injection H as <-.
  exists old. split; [done|]. split_and!; try done. intros s.
  pose proof (pad_ok_id _ _ _ (ok_banks _ _ Hst _ _ Hold)) as Hid.
  cbn [applied_state banks with_banks applied with_revision with_contract].
  rewrite (pad_at_set _ _ _ _ _ Hold). destruct (decide (assign_slot c = s)) as [<-|Hne].
  - rewrite decide_True by done.
    destruct (assign_asset_id c) as [id|]; cbn [has_value negb orb]; [|by rewrite <- Hid].
    case_bool_decide; [rewrite decide_True by done|rewrite decide_False by done];
      cbn; by rewrite <- Hid.
  - by rewrite decide_False by congruence.
Qed.

(** A Project whose first Pad plays an unclassified Asset. *)
Definition example_sha : string :=
  "0123456789abcdef0123456789abcdef0123456789abcdef0123456789abcdef".
Definition example_asset (n : N) : Asset :=
  MkAsset (MkId (id_of n)) (MkArtifactRef example_sha "audio/wav" 44) None
    (Some AssetCategory.bass).

Definition example_sample : ImportAssignSample :=
  MkImportAssignSample example_meta (example_asset 2) (MkPadSlotId 0 0).

Definition example_loaded : ProjectState :=
  match apply_import_assign_sample (JL := dom_lib) example_project example_sample with
  | success a => applied_state a
  | _ => example_project
  end.

Lemma example_loaded_ok : project_ok (JL := dom_lib) example_loaded.
Proof.
  pose proof (lawful_import_assign_sample (JL := dom_lib) example_project example_sample
                example_project_ok) as H.
  unfold example_loaded. cbn [apply_new_command handled_import_assign_sample] in H.
  destruct (apply_import_assign_sample _ _) as [a| |]; [|apply example_project_ok..].
  by destruct H.
Qed.

Lemma assign_pad_effect_witness :
  ∃ a, apply_assign_pad (JL := dom_lib) example_loaded
         (assignment (MkDeletePad example_meta (MkPadSlotId 0 0))) = success a ∧
    pad_at (banks (applied_state a)) (MkPadSlotId 0 0) =
      Some (MkPadSlot (MkPadSlotId 0 0) None default_playback None).
Proof.
  eexists. split; [reflexivity|].
  edestruct (assign_pad_effect (JL := dom_lib) example_loaded
    (assignment (MkDeletePad example_meta (MkPadSlotId 0 0)))) as (old & _ & H & _);
    [exact example_loaded_ok|reflexivity|exact (H (MkPadSlotId 0 0))].
Defined.

(** The colour shown for a Pad is always a palette index; after a colour
    command the Pad shows the override, or its Asset's category colour when the
    override is removed, and no other Pad's colour changes. *)
Theorem pad_colour_effect `{JL : JsonLib} st (Hst : project_ok st) :
  (∀ s, post (λ o, ∀ i, o = Some i → i < kPadColourCount) (effective_pad_colour st s)) ∧
  ∀ c a, apply_set_pad_colour st c = success a →
    (∃ id x, pad_asset_id <$> pad_at (banks st) (colour_slot c) = Some (Some id) ∧
      assets st !! id = Some x ∧
      effective_pad_colour (applied_state a) (colour_slot c) =
        success (match colour c with
                 | Some i => Some i
                 | None => pad_colour_index <$> asset_category x
                 end)) ∧
    ∀ s, s ≠ colour_slot c → effective_pad_colour (applied_state a) s = effective_pad_colour st s.
Proof.
  split.
  - intros s. unfold effective_pad_colour. guards; [done|].
    destruct (pad_at_valid st s (ok_shape _ _ Hst)) as [p Hp]; [done|].
    eapply post_throwing; [exact Hp|].
    destruct (has_value (pad_colour p)) eqn:Ec; cbn [post].
    + intros i Hi. by apply (pad_ok_colour _ _ _ (ok_banks _ _ Hst _ _ Hp)).
    + destruct (pad_asset_id p); [|done]. destruct (assets st !! _) as [x|]; [|done].
      destruct (asset_category x) as [[]|]; intros i Hi; by simplify_eq/=.
  - intros c a H. unfold apply_set_pad_colour in H. case_match eqn:Ev; [done|].
    apply negb_false_iff in Ev. case_match; [done|].
    apply result_bind_success in H as (p & Hp%throwing_success & H).
    case_match eqn:Ea; [done|]. case_match; [done|]. injection H as <-.
    destruct (pad_asset_id p) as [id|] eqn:Eid; [|done].
    destruct (pad_ok_asset _ _ _ (ok_banks _ _ Hst _ _ Hp) id Eid) as [x Hx].
    split.
    + exists id, x. rewrite Hp. cbn [fmap option_fmap option_map]. rewrite Eid.
      split_and!; [done..|]. unfold effective_pad_colour. rewrite Ev. cbn [negb].
      cbn [applied_state banks with_banks applied with_revision with_contract assets].
      rewrite (pad_at_set_eq _ _ _ _ Hp). cbn [throwing mbind result_bind].
      cbn [pad_with_colour pad_colour pad_asset_id]. rewrite Eid, Hx. by destruct (colour c).
    + intros s Hne. unfold effective_pad_colour.
      cbn [applied_state banks with_banks applied with_revision with_contract assets].
      by rewrite pad_at_set_ne by done.
Qed.

Lemma pad_colour_effect_witness :
  ∃ a, apply_set_pad_colour (JL := dom_lib) example_loaded
         (MkSetPadColour example_meta (MkPadSlotId 0 0) (Some 4)) = success a ∧
    ∀ s, s ≠ MkPadSlotId 0 0 →
      effective_pad_colour (H := dom_lib) (applied_state a) s =
      effective_pad_colour (H := dom_lib) example_loaded s.
Proof.
  eexists. split; [reflexivity|].
  apply (pad_colour_effect (JL := dom_lib) example_loaded example_loaded_ok)
    with (c := MkSetPadColour example_meta (MkPadSlotId 0 0) (Some 4)). reflexivity.
Defined.

(** A Sound Set of 16 slots maps slot by slot: Pad [i] is proposed what Set
    slot [i] holds and kept when it is empty; collisions are the proposed Pads
    that already hold an Asset.  Installing needs a policy exactly when there are
    collisions, and the keep policy never writes an occupied Pad. *)
Theorem soundset_mapping_exact `{JL : JsonLib} m pads (Hs : length (slots m) = 16%nat)
    (Hp : length pads = 16%nat) :
  ∃ mp, map_soundset m pads = success mp ∧
    proposed mp = omap (proposal m) (seq 0 16) ∧
    kept mp = N.of_nat <$> filter (λ n, proposal m n = None) (seq 0 16) ∧
    (∀ n p, pads !! n = Some p →
       N.of_nat n ∈ collisions mp ↔ is_Some (proposal m n) ∧ is_Some (pad_asset_id p)) ∧
    (∀ policy, ¬ result_has_value (resolve_soundset_write_set mp policy) = true ↔
       policy = None ∧ collisions mp ≠ []) ∧
    resolve_soundset_write_set mp (Some replace) = success (proposed mp) ∧
    ∃ ws, resolve_soundset_write_set mp (Some keep) = success ws ∧
      ∀ x, x ∈ ws ↔ x ∈ proposed mp ∧ proposed_pad x ∉ collisions mp.
Proof.
  unfold map_soundset. rewrite map_soundset_fold.
  2:{ rewrite Hs. apply Forall_forall. intros [n p] Hin. apply elem_of_lookup_imap in Hin
        as (i & q & [= -> ->] & Hq). apply lookup_lt_Some in Hq. cbn. lia. }
  eexists. split; [done|]. cbn [proposed kept collisions app].
  assert ((imap pair pads).*1 = seq 0 16) as Hseq.
  { rewrite <- Hp. apply list_eq. intros i. rewrite list_lookup_fmap, list_lookup_imap.
    destruct (pads !! i) eqn:E; cbn.
    - apply lookup_lt_Some in E. by rewrite lookup_seq_lt.
    - apply lookup_ge_None in E. by rewrite lookup_seq_ge. }
  split_and!.
  - rewrite <- Hseq. by rewrite omap_of_fmap.
  - rewrite <- Hseq. rewrite filter_of_fmap, <- list_fmap_compose.
    f_equal. apply list_filter_iff. intros [n p]. unfold vacant. cbn.
    destruct (proposal m n); naive_solver.
  - intros n p Hn. rewrite list_elem_of_fmap. unfold collides. split.
    + intros ([n' p'] & E & [Hc Hin]%list_elem_of_filter). cbn in *. apply Nat2N.inj in E as <-.
      apply elem_of_lookup_imap in Hin as (i & q & [= -> ->] & Hq). rewrite Hn in Hq.
      injection Hq as <-. destruct (proposal m i), (pad_asset_id p); done.
    + intros [[x Hx] [y Hy]]. exists (n, p). split; [done|]. apply list_elem_of_filter.
      cbn. rewrite Hx, Hy. split; [done|]. apply elem_of_lookup_imap. eauto.
  - intros policy. unfold resolve_soundset_write_set. cbn [collisions].
    generalize ((λ ip : nat * PadSlot, N.of_nat ip.1)
                  <$> filter (λ ip, collides m ip = true) (imap pair pads)). intros cs.
    destruct policy as [pol|]; cbn [has_value negb andb value_or].
    + rewrite andb_false_r. split; [|by intros [? _]]. intros H. exfalso. apply H.
      by case_bool_decide.
    + destruct cs; cbn; naive_solver.
  - unfold resolve_soundset_write_set. cbn [has_value negb]. by rewrite andb_false_r.
  - unfold resolve_soundset_write_set. cbn [has_value negb value_or]. rewrite andb_false_r.
    cbn [collisions proposed]. eexists. split; [done|]. intros x. rewrite list_elem_of_filter.
    tauto.
Qed.

Definition example_occupied : SoundSetOccupiedSlot :=
  MkSoundSetOccupiedSlot "kick" "Kick 1" (MkArtifactRef example_sha "audio/wav" 44) None None.

Definition example_manifest : SoundSetManifest :=
  MkSoundSetManifest (id_of 3) "1.0.0" "Set" "Publisher" None None None
    (MkSoundSetLicense "CC0-1.0" "Holder" "2026" "") None
    (MkSoundSetSlot 0 (Some example_occupied) ::
       ((λ i, MkSoundSetSlot (Z.of_nat i) None) <$> seq 1 15)) "".

Lemma soundset_mapping_exact_witness :
  ∃ row mp, banks example_loaded !! 0%nat = Some row ∧
    map_soundset (JL := dom_lib) example_manifest row = success mp ∧
    kept mp = N.of_nat <$> filter (λ n, proposal example_manifest n = None) (seq 0 16).
Proof.
  destruct (banks example_loaded !! 0%nat) as [row|] eqn:E; [|discriminate E].
  destruct (soundset_mapping_exact (JL := dom_lib) example_manifest row eq_refl) as (mp & H & _ & K & _).
  - apply (f_equal (option_map length)) in E. cbn [option_map] in E.
    assert (option_map length (banks example_loaded !! 0%nat) = Some 16%nat) as E' by reflexivity.
    congruence.
  - exists row, mp. split; [reflexivity|]. split; [exact H|exact K].
Defined.

(** Installing a Sound Set writes one Bank and all of its assignments: each
    assigned Pad holds the Set slot of its own index with default playback and
    its old colour, each Asset is in the Project, and nothing else changes. *)
Theorem install_lands_whole `{JL : JsonLib} `{!JsonLaws JL} st c a
    (H : apply_install_soundset st c = success a) :
  (∃ b, Forall (λ x, bank (install_slot x) = b ∧ is_valid_slot (install_slot x) = true ∧
     ∃ s, lineage_source <$> asset_lineage (install_asset x) = Some (soundset_source s) ∧
          source_slot_index s = pad (install_slot x)) (install_assignments c)) ∧
  all_placed install_slot install_asset st (applied_state a) (install_assignments c).
Proof.
  destruct (install_inv_success st c a H) as (front & st' & _ & -> & Hf & [? ? ? ? ? ?]).
  split; [by exists (bank (install_slot front))|by split].
Qed.

Definition example_install : InstallSoundSet :=
  MkInstallSoundSet example_meta
    [MkInstallAssignment (MkPadSlotId 2 0)
       (MkAsset (MkId (id_of 3)) (MkArtifactRef example_sha "audio/wav" 44)
          (Some (MkAssetLineage
             (soundset_source (MkSoundSetLineageSource (id_of 3) "1.0.0" example_sha 0 example_sha))
             soundset_install_derivation)) (Some AssetCategory.drums))].

Lemma install_lands_whole_witness :
  ∃ a, apply_install_soundset (JL := dom_lib) example_project example_install = success a ∧
    all_placed install_slot install_asset example_project (applied_state a)
      (install_assignments example_install).
Proof.
  eexists. split; [reflexivity|].
  apply (install_lands_whole (JL := dom_lib) example_project example_install). reflexivity.
Defined.

(** Adopting candidates places 1 to 64 Assets, each on its own valid Pad, and
    records one analysis for all of them: the same capability evidence up to the
    slice recipe, taken from the source the command names at a revision that
    already exists.  Nothing else in the Project changes. *)
Theorem adoption_one_analysis `{JL : JsonLib} `{!JsonLaws JL} st c a
    (H : apply_adopt_candidates st c = success a) :
  (1 ≤ length (adopt_assignments c) ≤ 64)%nat ∧
  (∃ e s, Forall (adoption_bound st c e s) (adopt_assignments c)) ∧
  all_placed adopt_slot adopt_asset st (applied_state a) (adopt_assignments c).
Proof.
  destruct (adopt_inv_success st c a H) as (st' & e & s & -> & Hl & Hf & [? ? ? ? ? ?]).
  split; [done|]. split; [by exists e, s|by split].
Qed.

Definition example_adopt : AdoptCandidates :=
  MkAdoptCandidates (MkCommandMeta (MkId (id_of 4)) 1) (MkId (id_of 0)) (MkId (id_of 2))
    (MkArtifactRef example_sha "audio/wav" 44)
    [MkAdoptionAssignment (MkPadSlotId 3 15)
       (MkAsset (MkId (id_of 3)) (MkArtifactRef example_sha "audio/wav" 44)
          (Some (MkAssetLineage
             (asset_artifact_source (MkAssetArtifactLineageSource example_sha 1))
             (capability_adoption_derivation (MkCapabilityAdoption
                (MkCapabilityLineageIdentity "sample.slice.v1" "lmdj.capability.v2" "1.0.0")
                (MkImplementationLineageIdentity "local.slice" "1.2.0" example_sha) None
                example_sha (MkId "attempt-7") (MkId (id_of 2))
                (MkArtifactRef example_sha "application/json" 512)
                (MkSliceIntervalRecipe 0 24000 48000))))) None)].

Lemma adoption_one_analysis_witness :
  ∃ a, apply_adopt_candidates (JL := dom_lib) example_loaded example_adopt = success a ∧
    all_placed adopt_slot adopt_asset example_loaded (applied_state a)
      (adopt_assignments example_adopt).
Proof.
  eexists. split; [reflexivity|].
  apply (adoption_one_analysis (JL := dom_lib) example_loaded example_adopt). reflexivity.
Defined.
