(* ===== verification/Delta.v ===== *)
(** Authoring deltas: the difference of two Projects as data.

    Models packages/authoring-domain/include/lmdj/domain/authoring_delta.hpp and
    src/authoring_delta.cpp: differences, composition, reversal and the command
    that applies a delta.  A loop over a [std::map] whose result does not depend
    on the order is a fold of the map; the loop over the slot changes, whose
    first failure decides the error, runs in key order. *)

From S2P Require Import Prelude Json Foundation Text Project Playback Fields Lineage Soundset Sequence Performance Commands Invariant.

(** ** Data *)

Record AuthoringChange (T : Type) := MkChange { before : T; after : T }.
Arguments MkChange {_} _ _.
Arguments before {_} _.
Arguments after {_} _.

#[export] Instance AuthoringChange_eq_dec T `{!EqDecision T} : EqDecision (AuthoringChange T).
Proof. solve_decision. Defined.

Record AuthoringDelta := MkDelta {
  delta_project_id : ProjectId;
  delta_bpm : option (AuthoringChange N);
  delta_quantize : option (AuthoringChange bool);
  delta_swing : option (AuthoringChange N);
  delta_pads : list (AuthoringChange PadSlot);
  delta_assets : gmap AssetId (AuthoringChange (option Asset));
  delta_patterns : gmap PatternId (AuthoringChange (option Pattern));
  delta_performances : gmap PerformanceId (AuthoringChange (option Performance));
  delta_slots : gmap N (AuthoringChange (option PatternId))
}.

#[export] Instance AuthoringDelta_eq_dec : EqDecision AuthoringDelta.
Proof. solve_decision. Defined.

Record ApplyAuthoringDelta := MkApplyDelta { apply_meta : CommandMeta; apply_delta : AuthoringDelta }.

Definition map_is_empty `{Countable K} {V} (m : gmap K V) : bool := Nat.eqb (size m) 0.

(** [AuthoringDelta::empty]. *)
Definition delta_empty (d : AuthoringDelta) : bool :=
  negb (has_value (delta_bpm d)) && negb (has_value (delta_quantize d)) &&
  negb (has_value (delta_swing d)) && is_empty (delta_pads d) &&
  map_is_empty (delta_assets d) && map_is_empty (delta_patterns d) &&
  map_is_empty (delta_performances d) && map_is_empty (delta_slots d).

(** ** Values *)

Section values.
Context {T : Type} `{!EqDecision T}.

Definition difference (b a : T) : option (AuthoringChange T) :=
  if bool_decide (b = a) then None else Some (MkChange b a).

(** [None] is the source's [false]. *)
Definition change_value (v : T) (change : option (AuthoringChange T)) : option T :=
  match change with
  | None => Some v
  | Some c =>
      if negb (bool_decide (v = before c)) || bool_decide (before c = after c) then None
      else Some (after c)
  end.

Definition compose_value (first second : option (AuthoringChange T)) :
    option (option (AuthoringChange T)) :=
  match second with
  | None => Some first
  | Some s =>
      match first with
      | None => Some second
      | Some f =>
          if negb (bool_decide (after f = before s)) then None
          else
            let f := MkChange (before f) (after s) in
            Some (if bool_decide (before f = after f) then None else Some f)
      end
  end.

Definition reverse_change (c : AuthoringChange T) : AuthoringChange T :=
  MkChange (after c) (before c).
End values.

(** ** Maps *)

Section maps.
Context {K : Type} `{Countable K}.

Definition map_difference {V} `{!EqDecision V} (b a : gmap K V) :
    gmap K (AuthoringChange (option V)) :=
  map_imap (λ key v, if bool_decide (a !! key = Some v) then None
                     else Some (MkChange (Some v) (a !! key))) b ∪
  map_imap (λ key v, if has_value (b !! key) then None
                     else Some (MkChange None (Some v))) a.

Definition change_entry {V} `{!EqDecision V} (key : K) (c : AuthoringChange (option V))
    (values : option (gmap K V)) : option (gmap K V) :=
  m ← values;
  if negb (bool_decide (m !! key = before c)) || bool_decide (before c = after c) then None
  else Some (match after c with Some v => <[key := v]> m | None => base.delete key m end).

Definition change_map {V} `{!EqDecision V} (values : gmap K V)
    (changes : gmap K (AuthoringChange (option V))) : option (gmap K V) :=
  map_fold change_entry (Some values) changes.

Definition compose_entry {V} `{!EqDecision V} (key : K) (c : AuthoringChange V)
    (first : option (gmap K (AuthoringChange V))) : option (gmap K (AuthoringChange V)) :=
  m ← first;
  match m !! key with
  | None => Some (<[key := c]> m)
  | Some found =>
      if negb (bool_decide (after found = before c)) then None
      else
        let found := MkChange (before found) (after c) in
        Some (if bool_decide (before found = after found) then base.delete key m
              else <[key := found]> m)
  end.

Definition compose_map {V} `{!EqDecision V} (first second : gmap K (AuthoringChange V)) :
    option (gmap K (AuthoringChange V)) :=
  map_fold compose_entry (Some first) second.

Definition reverse_map {V} (m : gmap K (AuthoringChange V)) : gmap K (AuthoringChange V) :=
  reverse_change <$> m.
End maps.

(** The entries of a map with unsigned keys, in key order. *)
Definition in_key_order {V} (m : gmap N V) : list (N * V) :=
  stable_sort (λ kv, [kv.1]) (map_to_list m).

(** ** Deltas *)

Section deltas.
Context `{JL : JsonLib}.

Definition conflict {A} : Result A :=
  failure (MkError _ revision_conflict
    "Authoring history no longer matches the current Project content"
    (j_object [("reason", j_string "authoring_history_conflict");
               ("remedy", j_string "reopen the Project to start a new authoring session")])).

Definition invalid_delta {A} : Result A :=
  failure (plain_error invalid_argument
    "Authoring change must preserve valid Project content and identity").

(** The Pads of the banks, with their positions, in the order of the two loops. *)
Definition indexed_pads (bs : list (list PadSlot)) : list (PadSlotId * PadSlot) :=
  mjoin (imap (λ b row, imap (λ p x, (MkPadSlotId (N.of_nat b) (N.of_nat p), x)) row) bs).

Definition pads_difference (b a : list (list PadSlot)) :
    Result (list (AuthoringChange PadSlot)) :=
  fold_result (λ out '(s, x),
      y ← throwing (pad_at a s);
      success (if bool_decide (x = y) then out else out ++ [MkChange x y]))
    [] (indexed_pads b).

(** One iteration of the loop over the slots; [emplace] keeps an existing key. *)
Definition slots_difference_step (a : list (option PatternId))
    (out : gmap N (AuthoringChange (option PatternId))) (ix : nat * option PatternId) :
    Result (gmap N (AuthoringChange (option PatternId))) :=
  y ← throwing (a !! ix.1);
  success (if bool_decide (ix.2 = y) then out
           else let key := wrap 8 (N.of_nat ix.1) in
                if has_value (out !! key) then out else <[key := MkChange ix.2 y]> out).

Definition slots_difference (b a : list (option PatternId)) :
    Result (gmap N (AuthoringChange (option PatternId))) :=
  fold_result (slots_difference_step a) ∅ (imap pair b).

Definition authoring_difference (b a : ProjectState) : Result AuthoringDelta :=
  if negb (bool_decide (project_id b = project_id a)) then conflict
  else
    pads ← pads_difference (banks b) (banks a);
    slots ← slots_difference (pattern_slots b) (pattern_slots a);
    success (MkDelta (project_id b) (difference (bpm b) (bpm a))
      (difference (quantize_enabled b) (quantize_enabled a))
      (difference (swing_percent b) (swing_percent a)) pads
      (map_difference (assets b) (assets a)) (map_difference (patterns b) (patterns a))
      (map_difference (performances b) (performances a)) slots).

Definition reverse_authoring_delta (d : AuthoringDelta) : AuthoringDelta :=
  MkDelta (delta_project_id d) (reverse_change <$> delta_bpm d)
    (reverse_change <$> delta_quantize d) (reverse_change <$> delta_swing d)
    (reverse_change <$> delta_pads d) (reverse_map (delta_assets d))
    (reverse_map (delta_patterns d)) (reverse_map (delta_performances d))
    (reverse_map (delta_slots d)).

(** One Pad change composed into the list; [find_if] by the Pad's id. *)
Fixpoint compose_pad (pads : list (AuthoringChange PadSlot)) (next : AuthoringChange PadSlot) :
    option (list (AuthoringChange PadSlot)) :=
  match pads with
  | [] => Some [next]
  | old :: rest =>
      if bool_decide (pad_id (before old) = pad_id (before next)) then
        if negb (bool_decide (after old = before next)) then None
        else
          let found := MkChange (before old) (after next) in
          Some (if bool_decide (before found = after found) then rest else found :: rest)
      else rest' ← compose_pad rest next; Some (old :: rest')
  end.

Definition compose_pads (first second : list (AuthoringChange PadSlot)) :
    option (list (AuthoringChange PadSlot)) :=
  foldl (λ acc next, pads ← acc; compose_pad pads next) (Some first) second.

Definition position (s : PadSlotId) : N := bank s * 16 + pad s.

Definition or_conflict {A B} (o : option A) (k : A → Result B) : Result B :=
  match o with Some a => k a | None => conflict end.

Definition compose_authoring_deltas (first second : AuthoringDelta) : Result AuthoringDelta :=
  if negb (bool_decide (delta_project_id first = delta_project_id second)) then conflict
  else
    or_conflict (compose_value (delta_bpm first) (delta_bpm second)) (λ bpm,
    or_conflict (compose_value (delta_quantize first) (delta_quantize second)) (λ quantize,
    or_conflict (compose_value (delta_swing first) (delta_swing second)) (λ swing,
    or_conflict (compose_map (delta_assets first) (delta_assets second)) (λ assets,
    or_conflict (compose_map (delta_patterns first) (delta_patterns second)) (λ patterns,
    or_conflict (compose_map (delta_performances first) (delta_performances second))
      (λ performances,
    or_conflict (compose_map (delta_slots first) (delta_slots second)) (λ slots,
    or_conflict (compose_pads (delta_pads first) (delta_pads second)) (λ pads,
    success (MkDelta (delta_project_id first) bpm quantize swing
      (stable_sort (λ c, [position (pad_id (before c))]) pads)
      assets patterns performances slots))))))))).

(** ** The content rules *)

Definition valid_asset_entry (id : AssetId) (a : Asset) : bool :=
  bool_decide (id = asset_id a) && is_valid_uuid (value id) &&
  bool_decide (String.length (sha256 (asset_artifact a)) = 64%nat) &&
  negb (bool_decide (media_type (asset_artifact a) = "")) &&
  forallb is_lower_hex (chars (sha256 (asset_artifact a))) &&
  match asset_lineage a with
  | Some l => result_has_value (validate_asset_lineage l)
  | None => true
  end.

Definition valid_pad_entry (m : gmap AssetId Asset) (s : PadSlotId) (x : PadSlot) : bool :=
  (bank (pad_id x) =? bank s) && (pad (pad_id x) =? pad s) &&
  match pad_asset_id x with Some id => map_contains m id | None => true end &&
  match pad_colour x with
  | Some i => has_value (pad_asset_id x) && (i <? kPadColourCount)
  | None => true
  end &&
  is_valid_playback (pad_playback x).

Definition valid_pattern_entry (id : PatternId) (p : Pattern) : bool :=
  bool_decide (id = pattern_id p) && is_valid_uuid (value id) && valid_bars (bars p) &&
  forallb (λ e, negb (event_invalid (pattern_length_ticks (bars p)) e)) (events p).

Definition valid_performance_entry (id : PerformanceId) (p : Performance) : bool :=
  bool_decide (id = performance_id p) && result_has_value (validate_performance p).

Definition map_forallb `{Countable K} {V} (test : K → V → bool) (m : gmap K V) : bool :=
  forallb (λ kv, test kv.1 kv.2) (map_to_list m).

Definition valid_content (st : ProjectState) : bool :=
  negb ((bpm st <? 40) || (240 <? bpm st) || (swing_percent st <? kSwingPercentMin) ||
        (kSwingPercentMax <? swing_percent st) ||
        negb (result_has_value (validate_pattern_slots st))) &&
  map_forallb valid_asset_entry (assets st) &&
  forallb (λ sx, valid_pad_entry (assets st) sx.1 sx.2) (indexed_pads (banks st)) &&
  map_forallb valid_pattern_entry (patterns st) &&
  map_forallb valid_performance_entry (performances st).

(** ** Applying a delta *)

Definition apply_pad_change (s : gset N * list (list PadSlot)) (c : AuthoringChange PadSlot) :
    Result (gset N * list (list PadSlot)) :=
  let slot := pad_id (before c) in
  if negb (is_valid_slot slot) || negb (bool_decide (slot = pad_id (after c))) ||
     bool_decide (position slot ∈ s.1) || bool_decide (before c = after c) then invalid_delta
  else
    pad ← throwing (pad_at s.2 slot);
    if negb (bool_decide (pad = before c)) then conflict
    else success ({[position slot]} ∪ s.1, set_pad_at s.2 slot (after c)).

Definition apply_slot_change (slots : list (option PatternId))
    (kc : N * AuthoringChange (option PatternId)) : Result (list (option PatternId)) :=
  if (kPatternSlotCount <=? kc.1) || bool_decide (before kc.2 = after kc.2) then invalid_delta
  else
    current ← throwing (slot_at slots kc.1);
    if negb (bool_decide (current = before kc.2)) then conflict
    else success (set_slot_at slots kc.1 (after kc.2)).

(** The fields of the Project after the scalar and map changes. *)
Definition change_fields (st : ProjectState) (d : AuthoringDelta) : option ProjectState :=
  bpm ← change_value (bpm st) (delta_bpm d);
  quantize ← change_value (quantize_enabled st) (delta_quantize d);
  swing ← change_value (swing_percent st) (delta_swing d);
  assets ← change_map (assets st) (delta_assets d);
  patterns ← change_map (patterns st) (delta_patterns d);
  performances ← change_map (performances st) (delta_performances d);
  Some (MkProjectState (contract st) (project_id st) (revision st) bpm quantize swing (banks st)
          assets patterns performances (pattern_slots st)).

Definition kRevisionMax : N := 18446744073709551615.

Definition apply_authoring_delta (st : ProjectState) (c : ApplyAuthoringDelta)
    (receipts : gmap CommandId CommandReceipt) : Result AppliedCommand :=
  let meta := apply_meta c in
  let delta := apply_delta c in
  if negb (is_valid_uuid (value (command_id meta))) || delta_empty delta then invalid_delta
  else match receipts !! command_id meta with
  | Some receipt => success (MkApplied _ st (receipt_event receipt) true)
  | None =>
      if negb (bool_decide (project_id st = delta_project_id delta)) ||
         negb (revision st =? expected_revision meta) then conflict
      else if revision st =? kRevisionMax then invalid_delta
      else
        or_conflict (change_fields st delta) (λ next,
          banks' ← fold_result apply_pad_change (∅, banks next) (delta_pads delta);
          let next := with_banks next banks'.2 in
          slots' ← fold_result apply_slot_change (pattern_slots next)
                     (in_key_order (delta_slots delta));
          let next := with_pattern_slots next slots' in
          if negb (valid_content next) then invalid_delta
          else
            let next := with_revision next (u64_add (revision next) 1) in
            success (MkApplied _ next
              (j_object [("type", j_string "project.history_applied");
                         ("command_id", j_string (value (command_id meta)));
                         ("revision", j_uint (revision next))]) false))
  end.
End deltas.
