(* ===== verification/DeltaLaws.v ===== *)
(** The algebra of authoring deltas.

    Looking a key up in a difference, a composition or a changed map gives a
    value of the two or three originals; from this follow the laws of the whole
    delta: applying the difference of two Projects turns one into the other,
    reversing it goes back, and composing two differences is the difference. *)

From S2P Require Import Prelude Json Foundation Text Project Playback Fields Lineage Soundset Sequence Performance Commands Invariant CommandLaws Delta.

(** ** Values *)

Section value_laws.
Context {T : Type} `{!EqDecision T}.
Implicit Types x y z : T.

Lemma difference_same x : difference x x = None.
Proof. unfold difference. by rewrite bool_decide_eq_true_2. Qed.

Lemma difference_ne x y : x ≠ y → difference x y = Some (MkChange x y).
Proof. intros. unfold difference. by rewrite bool_decide_eq_false_2. Qed.

Lemma difference_Some x y c : difference x y = Some c → c = MkChange x y ∧ x ≠ y.
Proof. unfold difference. case_bool_decide; [done|]. by intros [= <-]. Qed.

Lemma reverse_difference x y : reverse_change <$> difference x y = difference y x.
Proof.
  destruct (decide (x = y)) as [->|Hne]; [by rewrite difference_same|].
  by rewrite !difference_ne by congruence.
Qed.

Lemma change_difference x y : change_value x (difference x y) = Some y.
Proof.
  destruct (decide (x = y)) as [->|Hne]; [by rewrite difference_same|].
  rewrite difference_ne by done. cbn. by rewrite bool_decide_eq_true_2, bool_decide_eq_false_2.
Qed.

Lemma compose_difference x y z :
  compose_value (difference x y) (difference y z) = Some (difference x z).
Proof.
  destruct (decide (y = z)) as [->|Hyz]; [by rewrite (difference_same z)|].
  rewrite (difference_ne y z) by done. cbn [compose_value].
  destruct (decide (x = y)) as [->|Hxy].
  - by rewrite difference_same, difference_ne by done.
  - rewrite (difference_ne x y) by done. cbn. rewrite (bool_decide_eq_true_2 (y = y)) by done.
    unfold difference. cbn. by case_bool_decide.
Qed.
End value_laws.

(** ** Maps *)

Section map_laws.
Context {K : Type} `{Countable K}.

Lemma map_difference_lookup {V} `{!EqDecision V} (b a : gmap K V) k :
  map_difference b a !! k = difference (b !! k) (a !! k).
Proof.
  unfold map_difference, difference. rewrite lookup_union, !map_lookup_imap.
  destruct (b !! k) as [x|]; destruct (a !! k) as [y|]; cbn;
    repeat case_bool_decide; simplify_eq; done.
Qed.

Lemma reverse_map_difference {V} `{!EqDecision V} (b a : gmap K V) :
  reverse_map (map_difference b a) = map_difference a b.
Proof.
  apply map_eq. intros k. unfold reverse_map.
  by rewrite lookup_fmap, !map_difference_lookup, reverse_difference.
Qed.

(** What a change of a map gives at a key. *)
Lemma change_map_spec {V} `{!EqDecision V} (m : gmap K V) changes :
  match change_map m changes with
  | Some m' =>
      ∀ k, change_value (m !! k) (changes !! k) = Some (m' !! k)
  | None => ∃ k, change_value (m !! k) (changes !! k) = None
  end.
Proof.
  unfold change_map. eapply (map_fold_weak_ind (λ r changes, match r with
    | Some m' => ∀ k, change_value (m !! k) (changes !! k) = Some (m' !! k)
    | None => ∃ k, change_value (m !! k) (changes !! k) = None end)).
  - intros k. by rewrite lookup_empty.
  - intros key c done r Hkey IH. unfold change_entry. destruct r as [m'|]; cbn [mbind option_bind].
    + assert (m' !! key = m !! key) as Hm'.
      { specialize (IH key). rewrite Hkey in IH. cbn in IH. congruence. }
      rewrite Hm'. destruct (_ || _) eqn:E.
      * exists key. rewrite lookup_insert_eq. cbn. by rewrite E.
      * intros k. destruct (decide (key = k)) as [<-|Hne].
        -- rewrite lookup_insert_eq. cbn. rewrite E. f_equal.
           destruct (after c); [by rewrite lookup_insert_eq|by rewrite fin_maps.lookup_delete_eq].
        -- rewrite lookup_insert_ne by done. rewrite IH. f_equal.
           destruct (after c); [by rewrite lookup_insert_ne|by rewrite fin_maps.lookup_delete_ne].
    + destruct IH as [k Hk]. exists k. rewrite lookup_insert_ne; [done|].
      intros ->. rewrite Hkey in Hk. done.
Qed.

Lemma change_map_difference {V} `{!EqDecision V} (b a : gmap K V) :
  change_map b (map_difference b a) = Some a.
Proof.
  pose proof (change_map_spec b (map_difference b a)) as Hs.
  destruct (change_map b (map_difference b a)) as [m|].
  - f_equal. apply map_eq. intros k. specialize (Hs k).
    rewrite map_difference_lookup, change_difference in Hs. congruence.
  - destruct Hs as [k Hk]. by rewrite map_difference_lookup, change_difference in Hk.
Qed.

Lemma compose_map_spec {V} `{!EqDecision V} (first second : gmap K (AuthoringChange V)) :
  match compose_map first second with
  | Some r => ∀ k, compose_value (first !! k) (second !! k) = Some (r !! k)
  | None => ∃ k, compose_value (first !! k) (second !! k) = None
  end.
Proof.
  unfold compose_map. eapply (map_fold_weak_ind (λ r second, match r with
    | Some r => ∀ k, compose_value (first !! k) (second !! k) = Some (r !! k)
    | None => ∃ k, compose_value (first !! k) (second !! k) = None end)).
  - intros k. by rewrite lookup_empty.
  - intros key c done r Hkey IH. unfold compose_entry. destruct r as [m|]; cbn [mbind option_bind].
    + assert (m !! key = first !! key) as Hm.
      { specialize (IH key). rewrite Hkey in IH. cbn in IH. congruence. }
      rewrite Hm. destruct (first !! key) as [found|] eqn:Ef.
      * destruct (negb _) eqn:E.
        -- exists key. rewrite lookup_insert_eq, Ef. cbn. by rewrite E.
        -- intros k. destruct (decide (key = k)) as [<-|Hne].
           ++ rewrite lookup_insert_eq, Ef. cbn. rewrite E. f_equal.
              repeat case_bool_decide;
                by rewrite ?fin_maps.lookup_delete_eq, ?lookup_insert_eq.
           ++ rewrite lookup_insert_ne by done. rewrite IH. f_equal.
              repeat case_bool_decide;
                by rewrite ?fin_maps.lookup_delete_ne, ?lookup_insert_ne.
      * intros k. destruct (decide (key = k)) as [<-|Hne].
        -- by rewrite !lookup_insert_eq, Ef.
        -- by rewrite !lookup_insert_ne by done.
    + destruct IH as [k Hk]. exists k. rewrite lookup_insert_ne; [done|].
      intros ->. rewrite Hkey in Hk. done.
Qed.

(** A composition whose value is known at each key. *)
Lemma compose_map_is {V} `{!EqDecision V} (first second r : gmap K (AuthoringChange V)) :
  (∀ k, compose_value (first !! k) (second !! k) = Some (r !! k)) →
  compose_map first second = Some r.
Proof.
  intros Hr. pose proof (compose_map_spec first second) as Hs.
  destruct (compose_map first second) as [m|].
  - f_equal. apply map_eq. intros k. specialize (Hs k). rewrite Hr in Hs. congruence.
  - destruct Hs as [k Hk]. by rewrite Hr in Hk.
Qed.

Lemma compose_map_difference {V} `{!EqDecision V} (a b c : gmap K V) :
  compose_map (map_difference a b) (map_difference b c) = Some (map_difference a c).
Proof.
  apply compose_map_is. intros k. rewrite !map_difference_lookup. apply compose_difference.
Qed.
End map_laws.

(** ** Pads *)

Definition all_slots : list PadSlotId :=
  mjoin ((λ b, (λ p, MkPadSlotId (N.of_nat b) (N.of_nat p)) <$> seq 0 16) <$> seq 0 4).

Record banks_shape (bs : list (list PadSlot)) : Prop := {
  banks_four : length bs = 4%nat;
  banks_sixteen : Forall (λ row, length row = 16%nat) bs
}.

Definition pads_named (bs : list (list PadSlot)) : Prop :=
  ∀ s x, pad_at bs s = Some x → pad_id x = s.

Lemma all_slots_sorted : StronglySorted (key_le (λ s, [position s])) all_slots.
Proof.
  assert (stable_sort (λ s, [position s]) all_slots = all_slots) as E by reflexivity.
  rewrite <- E. apply stable_sort_sorted.
Qed.

Lemma all_slots_nodup : NoDup all_slots.
Proof. apply (bool_decide_eq_true_1 (NoDup all_slots)). reflexivity. Qed.

Lemma all_slots_valid : Forall (λ s, is_valid_slot s = true) all_slots.
Proof. apply (bool_decide_eq_true_1 (Forall _ all_slots)). reflexivity. Qed.

Lemma all_slots_elem s : is_valid_slot s = true → s ∈ all_slots.
Proof.
  intros [Hb Hp]%is_valid_slot_spec. destruct s as [b p]. cbn [bank pad] in *. unfold all_slots.
  rewrite list_elem_of_join. exists ((λ q, MkPadSlotId b (N.of_nat q)) <$> seq 0 16). split.
  - apply list_elem_of_fmap. exists (N.to_nat p). rewrite N2Nat.id. split; [done|].
    apply elem_of_seq. lia.
  - apply list_elem_of_fmap. exists (N.to_nat b). rewrite N2Nat.id. split; [done|].
    apply elem_of_seq. lia.
Qed.

Lemma pad_at_shape bs s : banks_shape bs → is_valid_slot s = true → ∃ x, pad_at bs s = Some x.
Proof.
  intros [Hb Hr] [H4 H16]%is_valid_slot_spec. unfold pad_at.
  destruct (lookup_lt_is_Some_2 bs (N.to_nat (bank s))) as [row Hrow]; [lia|].
  rewrite Hrow. cbn. apply lookup_lt_is_Some_2.
  pose proof (proj1 (Forall_lookup _ _) Hr _ _ Hrow) as Hl. cbn in Hl. lia.
Qed.

Lemma pad_at_inv bs s x : banks_shape bs → pad_at bs s = Some x → is_valid_slot s = true.
Proof.
  intros [Hb Hr]. unfold pad_at.
  destruct (bs !! N.to_nat (bank s)) as [row|] eqn:E; [|done]. cbn. intros Hx.
  apply lookup_lt_Some in Hx. pose proof (lookup_lt_Some _ _ _ E).
  pose proof (proj1 (Forall_lookup _ _) Hr _ _ E) as Hl. cbn in Hl.
  apply is_valid_slot_spec. lia.
Qed.

Lemma banks_ext bs bs' : banks_shape bs → banks_shape bs' →
  (∀ s, pad_at bs s = pad_at bs' s) → bs = bs'.
Proof.
  intros [Hb Hr] [Hb' Hr'] H. apply list_eq. intros i.
  destruct (decide (i < 4)%nat) as [Hi|Hi].
  - destruct (lookup_lt_is_Some_2 bs i) as [row Hrow]; [lia|].
    destruct (lookup_lt_is_Some_2 bs' i) as [row' Hrow']; [lia|].
    rewrite Hrow, Hrow'. f_equal. apply list_eq. intros j.
    specialize (H (MkPadSlotId (N.of_nat i) (N.of_nat j))). unfold pad_at in H. cbn in H.
    rewrite !Nat2N.id, Hrow, Hrow' in H. exact H.
  - rewrite !lookup_ge_None_2 by lia. done.
Qed.

Section pads.
Context `{JL : JsonLib}.

(** The changed Pads of two banks. *)
Definition pad_change (b a : list (list PadSlot)) (s : PadSlotId) :
    option (AuthoringChange PadSlot) :=
  x ← pad_at b s; y ← pad_at a s; difference x y.

Lemma indexed_pads_spec bs : banks_shape bs →
  indexed_pads bs = omap (λ s, x ← pad_at bs s; Some (s, x)) all_slots.
Proof.
  intros Hsh. pose proof Hsh as [Hb Hr].
  destruct bs as [|r0 [|r1 [|r2 [|r3 [|]]]]]; try discriminate Hb.
  assert (∀ (b : nat) (row : list PadSlot), length row = 16%nat →
    (∀ p, pad_at [r0; r1; r2; r3] (MkPadSlotId (N.of_nat b) (N.of_nat p)) = row !! p) →
    imap (λ p x, (MkPadSlotId (N.of_nat b) (N.of_nat p), x)) row =
    omap (λ s, x ← pad_at [r0; r1; r2; r3] s; Some (s, x))
      ((λ p, MkPadSlotId (N.of_nat b) (N.of_nat p)) <$> seq 0 16)) as Hrow.
  { intros b row Hl Hat. rewrite omap_of_fmap. rewrite <- Hl. clear Hl.
    assert (∀ k l, (∀ p, l !! p = row !! (k + p)%nat) →
      imap (λ p x, (MkPadSlotId (N.of_nat b) (N.of_nat (k + p)), x)) l =
      omap (λ p, x ← pad_at [r0; r1; r2; r3] (MkPadSlotId (N.of_nat b) (N.of_nat p));
              Some (MkPadSlotId (N.of_nat b) (N.of_nat p), x)) (seq k (length l))) as H.
    { intros k l. revert k. induction l as [|x l IH]; intros k Hlk; [done|].
      cbn [length seq imap omap list_omap]. rewrite Hat.
      pose proof (Hlk 0%nat) as H0. rewrite Nat.add_0_r in H0. cbn in H0. rewrite <- H0.
      cbn [mbind option_bind]. rewrite Nat.add_0_r. f_equal.
      rewrite (imap_ext _ (λ p x, (MkPadSlotId (N.of_nat b) (N.of_nat (S k + p)), x)))
        by (intros; unfold compose; do 3 f_equal; lia).
      apply IH. intros p. specialize (Hlk (S p)).
      change ((x :: l) !! S p) with (l !! p) in Hlk. rewrite Hlk. f_equal. lia. }
    apply (H 0%nat row). done. }
  unfold indexed_pads, all_slots. cbn [imap seq fmap list_fmap mjoin list_join].
  rewrite !omap_app. rewrite !Forall_cons in Hr. destruct Hr as (? & ? & ? & ? & _).
  unfold compose. rewrite (Hrow 0%nat r0), (Hrow 1%nat r1), (Hrow 2%nat r2), (Hrow 3%nat r3)
    by (done || intros p; unfold pad_at; cbn [bank pad]; by rewrite !Nat2N.id). done.
Qed.

Lemma pad_change_at b a s x y : pad_at b s = Some x → pad_at a s = Some y →
  pad_change b a s = difference x y.
Proof. intros Hx Hy. unfold pad_change. by rewrite Hx, Hy. Qed.

Lemma pads_difference_spec b a : banks_shape b → banks_shape a →
  pads_difference b a = success (omap (pad_change b a) all_slots).
Proof.
  intros Hb Ha. unfold pads_difference. rewrite indexed_pads_spec by done.
  assert (∀ l out, Forall (λ s, is_valid_slot s = true) l →
    fold_result (λ out '(s, x), y ← throwing (pad_at a s);
        success (if bool_decide (x = y) then out else out ++ [MkChange x y])) out
      (omap (λ s, x ← pad_at b s; Some (s, x)) l) =
    success (out ++ omap (pad_change b a) l)) as H; [|apply (H all_slots []), all_slots_valid].
  intros l out Hv. revert out. induction Hv as [|s l Hs Hv IH]; intros out.
  { cbn. by rewrite app_nil_r. }
  destruct (pad_at_shape b s Hb Hs) as [x Hx], (pad_at_shape a s Ha Hs) as [y Hy].
  cbn [omap list_omap]. rewrite (pad_change_at _ _ _ _ _ Hx Hy), Hx.
  cbn [mbind option_bind fold_result]. rewrite Hy. cbn [throwing mbind result_bind].
  unfold difference. case_bool_decide; rewrite IH; [done|]. by rewrite <- app_assoc.
Qed.

(** ** Applying Pad changes *)

Lemma position_inj s s' : is_valid_slot s = true → is_valid_slot s' = true →
  position s = position s' → s = s'.
Proof.
  intros [? ?]%is_valid_slot_spec [? ?]%is_valid_slot_spec. unfold position.
  destruct s, s'. cbn in *. intros. assert (bank = bank0 ∧ pad = pad0) as [-> ->] by lia. done.
Qed.

(** The state of the loop after the slots [done]. *)
Lemma apply_pads_difference b a l seen bs :
  banks_shape b → banks_shape a → banks_shape bs → pads_named b → pads_named a →
  NoDup l → Forall (λ s, is_valid_slot s = true) l →
  (∀ s, s ∈ l → pad_at bs s = pad_at b s) →
  (∀ s, s ∈ l → position s ∉ seen) →
  ∃ seen' bs', fold_result apply_pad_change (seen, bs) (omap (pad_change b a) l) =
      success (seen', bs') ∧ banks_shape bs' ∧
    (∀ s, pad_at bs' s = if decide (s ∈ l) then pad_at a s else pad_at bs s).
Proof.
  intros Hb Ha Hbs Hnb Hna Hn Hv. revert seen bs Hbs.
  induction l as [|s l IH]; intros seen bs Hbs Heq Hseen.
  { exists seen, bs. split; [done|]. split; [done|]. intros s. by rewrite decide_False by set_solver. }
  apply NoDup_cons in Hn as [Hs Hn]. apply Forall_cons in Hv as [Hvs Hv].
  destruct (pad_at_shape b s Hb Hvs) as [x Hx], (pad_at_shape a s Ha Hvs) as [y Hy].
  pose proof (Hnb s x Hx) as Hidx. pose proof (Hna s y Hy) as Hidy.
  cbn [omap list_omap]. rewrite (pad_change_at _ _ _ _ _ Hx Hy).
  assert (pad_at bs s = Some x) as Hbsx by (rewrite Heq by left; done).
  assert (∀ s', s' ∈ l → s ≠ s') as Hne by (intros s' Hs' ->; done).
  unfold difference. case_bool_decide as Exy.
  - destruct (IH Hn Hv seen bs Hbs) as (seen' & bs' & Hf & Hsh & Hat);
      [intros; apply Heq; by right|intros; apply Hseen; by right|].
    exists seen', bs'. split; [done|]. split; [done|]. intros s'. rewrite Hat.
    destruct (decide (s' ∈ l)); [by rewrite decide_True by by right|].
    destruct (decide (s' = s)) as [->|]; [rewrite decide_True by left; congruence|].
    rewrite decide_False; [done|]. by intros [|]%elem_of_cons.
  - cbn [fold_result]. unfold apply_pad_change at 2. cbn [before after fst snd].
    rewrite Hidx, Hidy, Hvs, Hbsx. cbn [negb orb throwing mbind result_bind].
    rewrite (bool_decide_eq_true_2 (s = s)), (bool_decide_eq_false_2 (x = y)) by done.
    rewrite (bool_decide_eq_false_2 (position s ∈ seen)) by (apply Hseen; left). cbn [negb orb].
    rewrite (bool_decide_eq_true_2 (x = x)) by done. cbn [negb].
    destruct Hbs as [H4 H16]. pose proof (set_pad_at_shape bs s y H4 H16) as [H4' H16'].
    destruct (IH Hn Hv ({[position s]} ∪ seen) (set_pad_at bs s y)) as (seen' & bs' & Hf & Hsh & Hat).
    + by split.
    + intros s' Hs'. rewrite pad_at_set_ne by auto. apply Heq. by right.
    + intros s' Hs'. rewrite not_elem_of_union, not_elem_of_singleton. split.
      * intros E. apply (Hne s' Hs'). symmetry. rewrite Forall_forall in Hv.
        apply position_inj; [by apply Hv|done|done].
      * apply Hseen. by right.
    + exists seen', bs'. split; [done|]. split; [done|]. intros s'. rewrite Hat.
      destruct (decide (s' ∈ l)); [by rewrite decide_True by by right|].
      destruct (decide (s' = s)) as [->|].
      * rewrite decide_True by left. rewrite Hy. by eapply pad_at_set_eq.
      * rewrite decide_False by by intros [|]%elem_of_cons. by apply pad_at_set_ne.
Qed.

Lemma apply_pads b a : banks_shape b → banks_shape a → pads_named b → pads_named a →
  ∃ seen, fold_result apply_pad_change (∅, b) (omap (pad_change b a) all_slots) =
    success (seen, a).
Proof.
  intros Hb Ha Hnb Hna.
  destruct (apply_pads_difference b a all_slots ∅ b) as (seen & bs & Hf & Hsh & Hat);
    [done..|apply all_slots_nodup|apply all_slots_valid|done|set_solver|].
  exists seen. rewrite Hf. do 2 f_equal. apply banks_ext; [done..|]. intros s. rewrite Hat.
  case_decide as Hs; [done|].
  assert (is_valid_slot s ≠ true) as Hnv by (intros Hv; by apply Hs, all_slots_elem).
  destruct (pad_at b s) eqn:E1; [by apply pad_at_inv in E1|].
  destruct (pad_at a s) eqn:E2; [by apply pad_at_inv in E2|done].
Qed.
End pads.

(** ** Pattern slots *)

Section slots.
Context `{JL : JsonLib}.

Definition slot_change (b a : list (option PatternId)) (k : N) :
    option (AuthoringChange (option PatternId)) :=
  x ← b !! N.to_nat k; y ← a !! N.to_nat k; difference x y.

Lemma slots_difference_spec b a : length a = length b → (length b ≤ 256)%nat →
  ∃ m, slots_difference b a = success m ∧ ∀ k, m !! k = slot_change b a k.
Proof.
  intros Hlen H256. unfold slots_difference.
  assert (∀ l k0 (m : gmap N (AuthoringChange (option PatternId))),
    (k0 + length l = length b)%nat → (∀ i, l !! i = b !! (k0 + i)%nat) →
    (∀ k, k0 ≤ N.to_nat k → m !! k = None)%nat →
    ∃ m', fold_result (slots_difference_step a) m
      (imap (λ i x, ((k0 + i)%nat, x)) l) = success m' ∧
    ∀ k, m' !! k = if decide (k0 ≤ N.to_nat k)%nat then slot_change b a k else m !! k) as H.
  { intros l. induction l as [|x l IH]; intros k0 m Hk Hl Hm.
    - exists m. split; [done|]. intros k. case_decide; [|done]. rewrite Hm by done.
      unfold slot_change. destruct (b !! N.to_nat k) eqn:E; [|done].
      apply lookup_lt_Some in E. cbn [length] in Hk. lia.
    - cbn [imap]. rewrite Nat.add_0_r. cbn [length] in Hk.
      rewrite (imap_ext _ (λ i x, ((S k0 + i)%nat, x)))
        by (intros; unfold compose; f_equal; lia).
      destruct (lookup_lt_is_Some_2 a k0) as [y Hy]; [lia|].
      assert (b !! k0 = Some x) as Hx by (rewrite <- (Nat.add_0_r k0), <- Hl; done).
      assert (slots_difference_step a m (k0, x) =
        success (if bool_decide (x = y) then m else <[N.of_nat k0 := MkChange x y]> m)) as Hstep.
      { unfold slots_difference_step. cbn [fst snd]. rewrite Hy. cbn [throwing mbind result_bind].
        rewrite wrap_small by (simpl; lia). cbn zeta. by rewrite (Hm (N.of_nat k0)) by lia. }
      cbn [fold_result]. rewrite Hstep. cbn [mbind result_bind].
      destruct (IH (S k0) (if bool_decide (x = y) then m
                           else <[N.of_nat k0 := MkChange x y]> m)) as (m' & -> & Hm').
      + lia.
      + intros i. specialize (Hl (S i)). change ((x :: l) !! S i) with (l !! i) in Hl.
        rewrite Hl. f_equal. lia.
      + intros k Hk'. case_bool_decide; [apply Hm; lia|]. rewrite lookup_insert_ne by lia. apply Hm. lia.
      + exists m'. split; [done|]. intros k. rewrite Hm'.
        destruct (decide (S k0 ≤ N.to_nat k)%nat); [by rewrite decide_True by lia|].
        destruct (decide (k = N.of_nat k0)) as [->|Hne].
        * rewrite decide_True by lia. unfold slot_change. rewrite Nat2N.id, Hx, Hy.
          cbn [mbind option_bind]. unfold difference.
          case_bool_decide; [apply Hm; lia|apply lookup_insert_eq].
        * rewrite decide_False by lia. case_bool_decide; [done|]. by apply lookup_insert_ne. }
  destruct (H b 0%nat ∅) as (m & Hf & Hm); [done|done|intros; apply lookup_empty|].
  exists m. split; [exact Hf|]. intros k. rewrite Hm. by rewrite decide_True by lia.
Qed.

(** A list of entries with distinct keys that each match the slots. *)
Lemma apply_slot_entries l slots : length slots = 16%nat → NoDup l.*1 →
  Forall (λ kc, kc.1 < 16 ∧ before kc.2 ≠ after kc.2 ∧
                slot_at slots kc.1 = Some (before kc.2)) l →
  ∃ slots', fold_result apply_slot_change slots l = success slots' ∧ length slots' = 16%nat ∧
    (∀ k c, (k, c) ∈ l → slot_at slots' k = Some (after c)) ∧
    (∀ k, k ∉ l.*1 → slot_at slots' k = slot_at slots k).
Proof.
  revert slots. induction l as [|[k c] l IH]; intros slots Hlen Hn Hf.
  { exists slots. split_and!; [done|done|by intros ? ? ?%elem_of_nil|done]. }
  rewrite fmap_cons in Hn. apply NoDup_cons in Hn as [Hk Hn].
  apply Forall_cons in Hf as [(H16 & Hne & Hat) Hf]. cbn [fst snd] in *.
  cbn [fold_result]. unfold apply_slot_change at 2. cbn [fst snd]. unfold kPatternSlotCount.
  rewrite (proj2 (N.leb_gt 16 k)) by done.
  rewrite bool_decide_eq_false_2 by done. cbn [orb]. rewrite Hat.
  cbn [throwing mbind result_bind]. rewrite bool_decide_eq_true_2 by done. cbn [negb].
  destruct (IH (set_slot_at slots k (after c))) as (slots' & Hfold & Hl' & Hin & Hout).
  - unfold set_slot_at. by rewrite length_insert.
  - done.
  - rewrite Forall_forall in *. intros [k' c'] Hin. destruct (Hf _ Hin) as (? & ? & ?).
    split_and!; [done..|]. rewrite slot_at_set by lia. rewrite decide_False; [done|].
    intros ->. apply Hk. apply list_elem_of_fmap. by exists (k', c').
  - exists slots'. split_and!; [done|done| |].
    + intros k' c' [[= -> ->]|Hin']%elem_of_cons; [|by apply Hin].
      rewrite Hout by done. rewrite slot_at_set by lia. by rewrite decide_True.
    + intros k' [Hne' Hk']%not_elem_of_cons. rewrite Hout by done.
      rewrite slot_at_set by lia. by rewrite decide_False by (cbn in *; congruence).
Qed.

Lemma in_key_order_elem {V} (m : gmap N V) k v : (k, v) ∈ in_key_order m ↔ m !! k = Some v.
Proof. unfold in_key_order. rewrite elem_of_stable_sort. apply elem_of_map_to_list. Qed.

Lemma in_key_order_nodup {V} (m : gmap N V) : NoDup (in_key_order m).*1.
Proof. unfold in_key_order. rewrite stable_sort_perm. apply NoDup_fst_map_to_list. Qed.

Lemma apply_slots b a m : length b = 16%nat → length a = 16%nat →
  (∀ k, m !! k = slot_change b a k) →
  fold_result apply_slot_change b (in_key_order m) = success a.
Proof.
  intros Hb Ha Hm.
  assert (∀ k c, m !! k = Some c → k < 16 ∧ before c ≠ after c ∧
    slot_at b k = Some (before c) ∧ slot_at a k = Some (after c)) as Hc.
  { intros k c. rewrite Hm. unfold slot_change, slot_at.
    destruct (b !! N.to_nat k) as [x|] eqn:Ex; [|done].
    destruct (a !! N.to_nat k) as [y|] eqn:Ey; [|done]. cbn.
    intros [-> ?]%difference_Some. apply lookup_lt_Some in Ex. split_and!; [lia|done..]. }
  destruct (apply_slot_entries (in_key_order m) b Hb (in_key_order_nodup m))
    as (slots & Hf & Hl & Hin & Hout).
  { apply Forall_forall. intros [k c] Hkc%in_key_order_elem. cbn. by apply Hc in Hkc as (? & ? & ? & _). }
  rewrite Hf. f_equal. apply list_eq. intros i.
  destruct (m !! N.of_nat i) as [c|] eqn:E.
  - pose proof (Hin _ _ (proj2 (in_key_order_elem _ _ _) E)) as H1.
    destruct (Hc _ _ E) as (_ & _ & _ & H2). unfold slot_at in *. rewrite Nat2N.id in *. congruence.
  - assert (N.of_nat i ∉ (in_key_order m).*1) as Hni.
    { intros Hin'. apply list_elem_of_fmap in Hin' as ([k c] & E' & Hkc%in_key_order_elem). cbn in E'. congruence. }
    pose proof (Hout _ Hni) as H1. unfold slot_at in H1. rewrite Nat2N.id in H1. rewrite H1.
    rewrite Hm in E. unfold slot_change in E. rewrite Nat2N.id in E.
    destruct (b !! i) as [x|] eqn:Ex.
    + pose proof (lookup_lt_Some _ _ _ Ex). destruct (lookup_lt_is_Some_2 a i) as [y Hy]; [lia|].
      rewrite Hy in *. cbn in E. unfold difference in E. case_bool_decide; [by subst|done].
    + symmetry. apply lookup_ge_None. apply lookup_ge_None in Ex. lia.
Qed.
End slots.

(** ** Composing Pad changes *)

Definition change_id (c : AuthoringChange PadSlot) : PadSlotId := pad_id (before c).

Definition pads_map (l : list (AuthoringChange PadSlot)) :
    gmap PadSlotId (AuthoringChange PadSlot) :=
  list_to_map ((λ c, (change_id c, c)) <$> l).

Lemma pads_map_cons c l k :
  pads_map (c :: l) !! k = if decide (k = change_id c) then Some c else pads_map l !! k.
Proof.
  unfold pads_map. rewrite fmap_cons. cbn [list_to_map foldr]. case_decide as E.
  - subst. apply lookup_insert_eq.
  - by apply lookup_insert_ne.
Qed.

Lemma pads_map_None l k : pads_map l !! k = None ↔ k ∉ change_id <$> l.
Proof.
  unfold pads_map. rewrite <- not_elem_of_list_to_map, <- list_fmap_compose. done.
Qed.

Lemma pads_map_elem l c : NoDup (change_id <$> l) → c ∈ l ↔ pads_map l !! change_id c = Some c.
Proof.
  intros Hn. unfold pads_map. rewrite <- elem_of_list_to_map.
  - rewrite list_elem_of_fmap. split; [eauto|]. by intros (c' & [= _ ->] & ?).
  - by rewrite <- list_fmap_compose.
Qed.

Lemma compose_pad_ok l next r : NoDup (change_id <$> l) →
  compose_value (pads_map l !! change_id next) (Some next) = Some r →
  ∃ l', compose_pad l next = Some l' ∧ NoDup (change_id <$> l') ∧
    ∀ k, pads_map l' !! k = if decide (k = change_id next) then r else pads_map l !! k.
Proof.
  induction l as [|old l IH]; cbn [compose_pad]; intros Hn Hc.
  { cbn in Hc. injection Hc as <-. exists [next]. split; [done|].
    split; [apply NoDup_singleton|]. intros k. by rewrite pads_map_cons. }
  rewrite fmap_cons in Hn. apply NoDup_cons in Hn as [Hold Hn].
  rewrite pads_map_cons in Hc. change (pad_id (before old)) with (change_id old).
  change (pad_id (before next)) with (change_id next). case_bool_decide as Eid.
  - symmetry in Eid. pose proof Eid as Hid. rewrite decide_True in Hc by done.
    cbn [compose_value] in Hc. destruct (negb _) eqn:En; [done|]. injection Hc as <-. cbn [before after].
    destruct (bool_decide (before old = after next)).
    + exists l. split; [done|]. split; [done|]. intros k. rewrite pads_map_cons, Hid.
      destruct (decide (k = change_id old)) as [->|]; [|done]. by apply pads_map_None.
    + eexists. split; [done|]. split; [rewrite fmap_cons; by constructor|].
      intros k. rewrite !pads_map_cons, Hid.
      change (change_id (MkChange (before old) (after next))) with (change_id old).
      by destruct (decide (k = change_id old)).
  - rewrite decide_False in Hc by congruence. destruct (IH Hn Hc) as (l' & Hl' & Hn' & Hm).
    rewrite Hl'. cbn [mbind option_bind]. eexists. split; [done|]. split.
    + rewrite fmap_cons. constructor; [|done]. apply pads_map_None. rewrite Hm.
      rewrite decide_False by done. by apply pads_map_None.
    + intros k. rewrite !pads_map_cons, Hm. repeat case_decide; congruence.
Qed.

Lemma compose_pads_ok l1 l2 (g : PadSlotId → option (AuthoringChange PadSlot)) :
  NoDup (change_id <$> l1) → NoDup (change_id <$> l2) →
  (∀ k, compose_value (pads_map l1 !! k) (pads_map l2 !! k) = Some (g k)) →
  ∃ r, compose_pads l1 l2 = Some r ∧ NoDup (change_id <$> r) ∧ ∀ k, pads_map r !! k = g k.
Proof.
  unfold compose_pads. revert l1. induction l2 as [|n l2 IH]; intros l1 H1 H2 Hg.
  { exists l1. split; [done|]. split; [done|]. intros k. specialize (Hg k).
    assert (pads_map [] !! k = None) as E by (apply pads_map_None, not_elem_of_nil).
    rewrite E in Hg. by injection Hg. }
  rewrite fmap_cons in H2. apply NoDup_cons in H2 as [Hn H2]. cbn [foldl mbind option_bind].
  pose proof (Hg (change_id n)) as Hgn. rewrite pads_map_cons, decide_True in Hgn by done.
  destruct (compose_pad_ok l1 n _ H1 Hgn) as (l1' & -> & Hn1 & Hm1).
  apply IH; [done..|]. intros k. rewrite Hm1. specialize (Hg k). rewrite pads_map_cons in Hg.
  destruct (decide (k = change_id n)) as [->|]; [|done].
  rewrite (proj2 (pads_map_None _ _) Hn). done.
Qed.

(** The differences of banks, as maps by Pad. *)
Section pad_differences.
Context (b a : list (list PadSlot)) (Hnamed : pads_named b).

Lemma pad_change_id s c : pad_change b a s = Some c → change_id c = s.
Proof using Hnamed.
  unfold pad_change. destruct (pad_at b s) as [x|] eqn:Ex; [|done]. cbn.
  destruct (pad_at a s) as [y|]; [|done]. cbn. intros [-> _]%difference_Some. by apply Hnamed.
Qed.

Lemma pad_changes_ids l : NoDup l → NoDup (change_id <$> omap (pad_change b a) l).
Proof using Hnamed.
  induction 1 as [|s l Hs Hl IH]; [constructor|]. cbn [omap list_omap].
  destruct (pad_change b a s) as [c|] eqn:E; [|done]. rewrite fmap_cons. constructor; [|done].
  rewrite (pad_change_id _ _ E). intros (c' & -> & Hc')%list_elem_of_fmap.
  apply list_elem_of_omap in Hc' as (s' & Hs' & E'). apply pad_change_id in E'. by subst.
Qed.

Lemma pad_changes_map s :
  pads_map (omap (pad_change b a) all_slots) !! s =
    if decide (s ∈ all_slots) then pad_change b a s else None.
Proof using Hnamed.
  destruct (pads_map (omap (pad_change b a) all_slots) !! s) as [c|] eqn:E.
  - assert (change_id c = s ∧ c ∈ omap (pad_change b a) all_slots) as [Hid Hin].
    { unfold pads_map in E. apply elem_of_list_to_map_2 in E.
      apply list_elem_of_fmap in E as (c' & [= -> ->] & Hc'). done. }
    apply list_elem_of_omap in Hin as (s' & Hs' & E').
    pose proof (pad_change_id _ _ E'). subst. subst. by rewrite decide_True.
  - case_decide as Hs; [|done]. apply pads_map_None in E.
    destruct (pad_change b a s) as [c|] eqn:Ec; [|done]. exfalso. apply E.
    apply list_elem_of_fmap. exists c. rewrite (pad_change_id _ _ Ec). split; [done|].
    apply list_elem_of_omap. eauto.
Qed.

Lemma pad_changes_sorted :
  StronglySorted (key_le (λ c, [position (change_id c)])) (omap (pad_change b a) all_slots).
Proof using Hnamed.
  pose proof all_slots_sorted as H. revert H. generalize all_slots. intros l.
  induction 1 as [|s l Hl IH Hs]; [constructor|]. cbn [omap list_omap].
  destruct (pad_change b a s) as [c|] eqn:E; [|done]. constructor; [done|].
  apply Forall_forall. intros c' Hc'. apply list_elem_of_omap in Hc' as (s' & Hs' & E').
  unfold key_le. rewrite (pad_change_id _ _ E), (pad_change_id _ _ E').
  rewrite Forall_forall in Hs. by apply Hs.
Qed.
End pad_differences.

Lemma pad_change_compose a b c s : banks_shape a → banks_shape b → banks_shape c →
  is_valid_slot s = true →
  compose_value (pad_change a b s) (pad_change b c s) = Some (pad_change a c s).
Proof.
  intros Ha Hb Hc Hs. unfold pad_change.
  destruct (pad_at_shape a s Ha Hs) as [x ->], (pad_at_shape b s Hb Hs) as [y ->],
    (pad_at_shape c s Hc Hs) as [z ->]. apply compose_difference.
Qed.

Lemma compose_pad_differences a b c :
  banks_shape a → banks_shape b → banks_shape c → pads_named a → pads_named b →
  ∃ r, compose_pads (omap (pad_change a b) all_slots) (omap (pad_change b c) all_slots) = Some r ∧
    stable_sort (λ x, [position (pad_id (before x))]) r = omap (pad_change a c) all_slots.
Proof.
  intros Ha Hb Hc Hna Hnb.
  destruct (compose_pads_ok (omap (pad_change a b) all_slots) (omap (pad_change b c) all_slots)
    (λ s, if decide (s ∈ all_slots) then pad_change a c s else None)) as (r & Hr & Hn & Hm).
  - apply pad_changes_ids, all_slots_nodup. done.
  - apply pad_changes_ids, all_slots_nodup. done.
  - intros s. rewrite !pad_changes_map by done. case_decide as Hs; [|done].
    apply pad_change_compose; [done..|]. pose proof all_slots_valid as Hv.
    rewrite Forall_forall in Hv. by apply Hv.
  - exists r. split; [done|]. change (λ x, [position (pad_id (before x))])
      with (λ x, [position (change_id x)]).
    assert (r ≡ₚ omap (pad_change a c) all_slots) as Hp.
    { pose proof (pad_changes_ids a c Hna all_slots all_slots_nodup) as Hn'.
      apply NoDup_Permutation; [by eapply NoDup_fmap_1|by eapply NoDup_fmap_1|].
      intros x. rewrite !pads_map_elem by done. by rewrite Hm, pad_changes_map. }
    apply (stable_sort_unique (λ x, [position (change_id x)]));
      [|apply stable_sort_sorted|by apply pad_changes_sorted|by rewrite stable_sort_perm].
    intros x y Hx Hy. rewrite elem_of_stable_sort, Hp in Hx. rewrite elem_of_stable_sort, Hp in Hy.
    apply list_elem_of_omap in Hx as (s & Hs & Ex), Hy as (s' & Hs' & Ey).
    intros E. rewrite (pad_change_id _ _ Hna _ _ Ex), (pad_change_id _ _ Hna _ _ Ey) in E.
    pose proof all_slots_valid as Hv. rewrite Forall_forall in Hv.
    injection E as E. apply position_inj in E; [|by apply Hv..]. congruence.
Qed.
