(* ===== verification/DeltaEdits.v ===== *)
(** Authoring deltas between Projects: the specification and its refinement.

    [delta_between] says what the difference of two Projects is, field by field,
    without a loop; the operations of authoring_delta.cpp are shown to compute
    on it: [authoring_difference] returns it, [reverse_authoring_delta] swaps its
    ends, [compose_authoring_deltas] joins two of them, and the command that
    applies it moves a Project from the one content to the other. *)

From S2P Require Import Prelude Json Foundation Text Project Playback Fields Lineage Soundset Sequence Performance Commands Invariant CommandLaws PatternLaws Handler GridEdit Delta DeltaLaws.

(** ** Content *)

(** Two Projects with the same content: all but the contract and the revision. *)
Record same_content (st st' : ProjectState) : Prop := {
  same_id : project_id st = project_id st';
  same_bpm : bpm st = bpm st';
  same_quantize : quantize_enabled st = quantize_enabled st';
  same_swing : swing_percent st = swing_percent st';
  same_banks : banks st = banks st';
  same_assets : assets st = assets st';
  same_patterns : patterns st = patterns st';
  same_performances : performances st = performances st';
  same_slots : pattern_slots st = pattern_slots st'
}.

#[export] Instance same_content_equivalence : Equivalence same_content.
Proof. split; [by split|intros ? ? []; by split|]. intros ? ? ? [] []. split; congruence. Qed.

(** What the operations on deltas rely on. *)
Record delta_ready (st : ProjectState) : Prop := {
  ready_banks : banks_shape (banks st);
  ready_named : pads_named (banks st);
  ready_slots : length (pattern_slots st) = 16%nat
}.

#[export] Instance delta_ready_proper : Proper (same_content ==> iff) delta_ready.
Proof.
  assert (∀ st st', same_content st st' → delta_ready st → delta_ready st') as H.
  { intros st st' [_ _ _ _ Eb _ _ _ Es] [? ? ?]. by split; rewrite <- ?Eb, <- ?Es. }
  intros st st' E. split; [by apply H|by apply H; symmetry].
Qed.

Section deltas.
Context `{JL : JsonLib}.

#[export] Instance authoring_difference_proper :
  Proper (same_content ==> same_content ==> eq) authoring_difference.
Proof.
  intros b b' [] a a' []. unfold authoring_difference.
  repeat match goal with E : _ = _ |- _ => rewrite E; clear E end. done.
Qed.

Lemma project_ready st : project_ok st → delta_ready st.
Proof.
  intros Hst. destruct (ok_shape _ _ Hst) as [Hb Hr Hs]. split; [by split| |done].
  intros s x Hx. apply (pad_ok_id _ _ _ (ok_banks _ _ Hst s x Hx)).
Qed.

(** ** The specification *)

Definition slots_between (b a : list (option PatternId)) :
    gmap N (AuthoringChange (option PatternId)) :=
  match slots_difference b a with success m => m | _ => ∅ end.

Definition delta_between (b a : ProjectState) : AuthoringDelta :=
  MkDelta (project_id b) (difference (bpm b) (bpm a))
    (difference (quantize_enabled b) (quantize_enabled a))
    (difference (swing_percent b) (swing_percent a))
    (omap (pad_change (banks b) (banks a)) all_slots)
    (map_difference (assets b) (assets a)) (map_difference (patterns b) (patterns a))
    (map_difference (performances b) (performances a))
    (slots_between (pattern_slots b) (pattern_slots a)).

Lemma slots_between_spec b a : length b = 16%nat → length a = 16%nat →
  slots_difference b a = success (slots_between b a) ∧
  ∀ k, slots_between b a !! k = slot_change b a k.
Proof.
  intros Hb Ha. destruct (slots_difference_spec b a) as (m & Hm & Hk); [lia..|].
  unfold slots_between. by rewrite Hm.
Qed.

Lemma difference_between b a : delta_ready b → delta_ready a → project_id b = project_id a →
  authoring_difference b a = success (delta_between b a).
Proof.
  intros [Hb _ Hsb] [Ha _ Hsa] Hid. unfold authoring_difference.
  rewrite bool_decide_eq_true_2 by done. cbn [negb].
  rewrite (pads_difference_spec _ _ Hb Ha). cbn [mbind result_bind].
  by rewrite (proj1 (slots_between_spec _ _ Hsb Hsa)).
Qed.

(** ** Reversal *)

Lemma reverse_pads b a :
  reverse_change <$> omap (pad_change b a) all_slots = omap (pad_change a b) all_slots.
Proof.
  generalize all_slots. intros l. induction l as [|s l IH]; [done|].
  cbn [omap list_omap]. rewrite <- IH.
  assert (reverse_change <$> pad_change b a s = pad_change a b s) as E.
  { unfold pad_change. destruct (pad_at b s) as [x|], (pad_at a s) as [y|]; try done.
    apply reverse_difference. }
  rewrite <- E. by destruct (pad_change b a s).
Qed.

Lemma reverse_slots b a : length b = 16%nat → length a = 16%nat →
  reverse_map (slots_between b a) = slots_between a b.
Proof.
  intros Hb Ha. apply map_eq. intros k. unfold reverse_map. rewrite lookup_fmap.
  rewrite (proj2 (slots_between_spec b a Hb Ha)), (proj2 (slots_between_spec a b Ha Hb)).
  unfold slot_change. destruct (b !! N.to_nat k), (a !! N.to_nat k); try done.
  apply reverse_difference.
Qed.

Lemma reverse_between b a : delta_ready b → delta_ready a → project_id b = project_id a →
  reverse_authoring_delta (delta_between b a) = delta_between a b.
Proof.
  intros [_ _ Hb] [_ _ Ha] Hid. unfold reverse_authoring_delta, delta_between.
  cbn [delta_project_id delta_bpm delta_quantize delta_swing delta_pads delta_assets
       delta_patterns delta_performances delta_slots].
  by rewrite !reverse_difference, reverse_pads, !reverse_map_difference, reverse_slots, Hid.
Qed.

(** ** Composition *)

Lemma compose_slots a b c : length a = 16%nat → length b = 16%nat → length c = 16%nat →
  compose_map (slots_between a b) (slots_between b c) = Some (slots_between a c).
Proof.
  intros Ha Hb Hc. apply compose_map_is. intros k.
  rewrite (proj2 (slots_between_spec a b Ha Hb)), (proj2 (slots_between_spec b c Hb Hc)),
    (proj2 (slots_between_spec a c Ha Hc)).
  unfold slot_change. destruct (decide (N.to_nat k < 16)%nat) as [Hk|Hk].
  - destruct (lookup_lt_is_Some_2 a (N.to_nat k)) as [x ->]; [lia|].
    destruct (lookup_lt_is_Some_2 b (N.to_nat k)) as [y ->]; [lia|].
    destruct (lookup_lt_is_Some_2 c (N.to_nat k)) as [z ->]; [lia|]. apply compose_difference.
  - by rewrite !lookup_ge_None_2 by lia.
Qed.

Lemma compose_between a b c : delta_ready a → delta_ready b → delta_ready c →
  project_id a = project_id b → project_id b = project_id c →
  compose_authoring_deltas (delta_between a b) (delta_between b c) =
    success (delta_between a c).
Proof.
  intros [Ha Hna Hsa] [Hb Hnb Hsb] [Hc Hnc Hsc] Hab Hbc. unfold compose_authoring_deltas.
  cbn [delta_project_id delta_bpm delta_quantize delta_swing delta_pads delta_assets
       delta_patterns delta_performances delta_slots delta_between].
  rewrite (bool_decide_eq_true_2 (project_id a = project_id b)) by done. cbn [negb].
  rewrite !compose_difference. cbn [or_conflict]. rewrite !compose_map_difference.
  cbn [or_conflict]. rewrite compose_slots by done. cbn [or_conflict].
  destruct (compose_pad_differences _ _ _ Ha Hb Hc Hna Hnb) as (r & -> & Hr).
  cbn [or_conflict]. by rewrite Hr.
Qed.

(** ** The empty delta *)

Lemma map_is_empty_spec `{Countable K} {V} (m : gmap K V) : map_is_empty m = true ↔ m = ∅.
Proof. unfold map_is_empty. rewrite Nat.eqb_eq. apply map_size_empty_iff. Qed.

Lemma difference_None {T} `{!EqDecision T} (x y : T) :
  negb (has_value (difference x y)) = true ↔ x = y.
Proof. unfold difference. by case_bool_decide. Qed.

Lemma map_difference_empty {V} `{!EqDecision V} `{Countable K} (b a : gmap K V) :
  map_is_empty (map_difference b a) = true ↔ b = a.
Proof.
  rewrite map_is_empty_spec. split.
  - intros E. apply map_eq. intros k.
    assert (difference (b !! k) (a !! k) = None) as Hd by by rewrite <- map_difference_lookup, E.
    unfold difference in Hd. by case_bool_decide.
  - intros ->. apply map_eq. intros k. by rewrite map_difference_lookup, difference_same.
Qed.

Lemma pads_empty b a : banks_shape b → banks_shape a →
  is_empty (omap (pad_change b a) all_slots) = true ↔ b = a.
Proof.
  intros Hb Ha. split.
  - intros E. apply banks_ext; [done..|]. intros s.
    destruct (is_valid_slot s) eqn:Hs.
    + destruct (pad_at_shape b s Hb Hs) as [x Hx], (pad_at_shape a s Ha Hs) as [y Hy].
      rewrite Hx, Hy. f_equal. destruct (decide (x = y)) as [|Hne]; [done|]. exfalso.
      assert (MkChange x y ∈ omap (pad_change b a) all_slots) as Hin.
      { apply list_elem_of_omap. exists s. split; [by apply all_slots_elem|].
        by rewrite (pad_change_at _ _ _ _ _ Hx Hy), difference_ne. }
      destruct (omap _ _); [by apply elem_of_nil in Hin|done].
    + destruct (pad_at b s) eqn:E1; [apply pad_at_inv in E1; [congruence|done]|].
      destruct (pad_at a s) eqn:E2; [apply pad_at_inv in E2; [congruence|done]|done].
  - intros <-. generalize all_slots. intros l. induction l as [|s l IH]; [done|].
    cbn [omap list_omap]. unfold pad_change at 1.
    destruct (pad_at b s); [|done]. cbn [mbind option_bind]. by rewrite difference_same.
Qed.

Lemma slots_empty b a : length b = 16%nat → length a = 16%nat →
  map_is_empty (slots_between b a) = true ↔ b = a.
Proof.
  intros Hb Ha. rewrite map_is_empty_spec. pose proof (proj2 (slots_between_spec b a Hb Ha)) as Hk.
  split.
  - intros E. apply list_eq. intros i. specialize (Hk (N.of_nat i)).
    rewrite E, lookup_empty in Hk. unfold slot_change in Hk. rewrite Nat2N.id in Hk.
    destruct (decide (i < 16)%nat) as [Hi|Hi]; [|by rewrite !lookup_ge_None_2 by lia].
    destruct (lookup_lt_is_Some_2 b i) as [x Hx]; [lia|].
    destruct (lookup_lt_is_Some_2 a i) as [y Hy]; [lia|]. rewrite Hx, Hy in *.
    cbn in Hk. unfold difference in Hk. case_bool_decide; [by subst|done].
  - intros <-. apply map_eq. intros k. rewrite Hk. unfold slot_change.
    destruct (b !! N.to_nat k); [|done]. cbn. by rewrite difference_same.
Qed.

Lemma between_empty b a : delta_ready b → delta_ready a → project_id b = project_id a →
  delta_empty (delta_between b a) = true ↔ same_content b a.
Proof.
  intros [Hb _ Hsb] [Ha _ Hsa] Hid. unfold delta_empty.
  cbn [delta_project_id delta_bpm delta_quantize delta_swing delta_pads delta_assets
       delta_patterns delta_performances delta_slots delta_between].
  rewrite !andb_true_iff, !difference_None, !map_difference_empty, pads_empty, slots_empty by done.
  split; [intros H; destruct_and!; by split|]. intros []. by split_and!.
Qed.
End deltas.

(** ** The content rules hold for a well-formed Project *)

Lemma map_forallb_spec `{Countable K} {V} (f : K → V → bool) (m : gmap K V) :
  map_forallb f m = true ↔ map_Forall (λ k v, f k v = true) m.
Proof.
  unfold map_forallb. rewrite forallb_forall. split.
  - intros H' k v Hk. apply (H' (k, v)), list_elem_of_In, elem_of_map_to_list, Hk.
  - intros H' [k v] Hin%list_elem_of_In%elem_of_map_to_list. by apply H'.
Qed.

Lemma forallb_Forall {A} (f : A → bool) l : forallb f l = true ↔ Forall (λ x, f x = true) l.
Proof. rewrite forallb_forall, Forall_forall. by setoid_rewrite list_elem_of_In. Qed.

Section content.
Context `{JL : JsonLib}.

Lemma asset_entry_ok c id a : asset_ok c id a → valid_asset_entry id a = true.
Proof.
  intros [Hid Hu Ha Hl]. unfold valid_asset_entry, valid_artifact, valid_sha256 in *.
  rewrite bool_decide_eq_true_2, Hu by done.
  destruct (bool_decide (String.length _ = 64%nat)); [|done]. cbn [negb andb] in *.
  apply andb_prop in Ha as [-> ->]. cbn [andb].
  destruct (asset_lineage a) as [l|]; [|done]. by destruct (Hl l eq_refl) as [-> _].
Qed.

Lemma pad_entry_ok m s x : pad_ok m s x → valid_pad_entry m s x = true.
Proof.
  intros [<- Ha Hp Hc]. unfold valid_pad_entry. rewrite !N.eqb_refl, Hp. cbn [andb].
  assert (match pad_asset_id x with Some id => map_contains m id | None => true end = true) as ->.
  { destruct (pad_asset_id x) as [id|]; [|done]. by apply map_contains_true, Ha. }
  destruct (pad_colour x) as [i|]; [|done]. destruct (Hc i eq_refl) as [Hi [id ->]].
  cbn [has_value andb]. rewrite andb_true_r. by apply N.ltb_lt.
Qed.

Lemma pattern_entry_ok id p : pattern_ok id p → valid_pattern_entry id p = true.
Proof.
  intros [Hid (Hu & Hb & Hf)%validate_pattern_ok _]. unfold valid_pattern_entry.
  rewrite <- Hid, bool_decide_eq_true_2, Hu, Hb by done. cbn [andb].
  apply forallb_Forall. eapply Forall_impl; [exact Hf|]. intros e He.
  destruct (pattern_length_valid _ Hb) as [_ Hl].
  assert (pattern_length_ticks (bars p) < 2 ^ 32) as Hw by u_lia.
  by rewrite (proj2 (event_invalid_spec _ _ Hw) He).
Qed.

Lemma indexed_pads_ok (f : PadSlotId → PadSlot → bool) bs : banks_shape bs →
  (∀ s x, pad_at bs s = Some x → f s x = true) →
  forallb (λ sx, f sx.1 sx.2) (indexed_pads bs) = true.
Proof.
  intros Hb Hf. rewrite indexed_pads_spec by done. apply forallb_Forall, Forall_forall.
  intros [s x] (s' & _ & E)%list_elem_of_omap. destruct (pad_at bs s') as [y|] eqn:Ey; [|done].
  injection E as -> ->. by apply Hf.
Qed.

(** The content rules do not read the contract or the revision. *)
#[export] Instance valid_content_proper : Proper (same_content ==> eq) valid_content.
Proof.
  intros st st' []. unfold valid_content, validate_pattern_slots.
  repeat match goal with E : _ = _ |- _ => rewrite E; clear E end. done.
Qed.

Lemma content_valid c st : content_ok c st → valid_content st = true.
Proof.
  intros Hst. pose proof Hst as [[Hb Hr _] _ Ht Hw Ha Hbk Hp Hs _ Hpf]. unfold valid_content.
  rewrite (proj2 (validate_pattern_slots_ok st) Hs). unfold kSwingPercentMin, kSwingPercentMax.
  rewrite (proj2 (N.ltb_ge _ _)), (proj2 (N.ltb_ge _ _)), (proj2 (N.ltb_ge _ _)),
    (proj2 (N.ltb_ge _ _)) by lia. cbn [orb negb result_has_value andb].
  rewrite !andb_true_iff, !map_forallb_spec. split_and!.
  - eapply map_Forall_impl; [exact Ha|]. intros id a. apply asset_entry_ok.
  - apply indexed_pads_ok; [by split|]. intros s x Hx. by apply pad_entry_ok, Hbk.
  - eapply map_Forall_impl; [exact Hp|]. apply pattern_entry_ok.
  - eapply map_Forall_impl; [exact Hpf|]. intros id p (Hid & _ & Hv). unfold valid_performance_entry.
    by rewrite <- Hid, bool_decide_eq_true_2, Hv.
Qed.
End content.

(** ** Applying a delta *)

(** The commit of the content of [a] over [st]. *)
Definition committed_content (st a : ProjectState) : ProjectState :=
  MkProjectState (contract st) (project_id st) (u64_add (revision st) 1) (bpm a)
    (quantize_enabled a) (swing_percent a) (banks a) (assets a) (patterns a) (performances a)
    (pattern_slots a).

Lemma committed_same st a : project_id st = project_id a →
  same_content (committed_content st a) a.
Proof. intros. by split. Qed.

Section apply.
Context `{JL : JsonLib}.

(** What the scalar and map changes leave. *)
Lemma change_fields_frame st d st' : change_fields st d = Some st' →
  contract st' = contract st ∧ project_id st' = project_id st ∧ revision st' = revision st ∧
  banks st' = banks st ∧ pattern_slots st' = pattern_slots st.
Proof.
  unfold change_fields. intros H.
  repeat (apply bind_Some in H as (? & _ & H)). by injection H as <-.
Qed.

Lemma apply_pads_post l seen bs : banks_shape bs →
  post (λ s, banks_shape s.2) (fold_result apply_pad_change (seen, bs) l).
Proof.
  intros Hb. apply post_fold_inv; [|done]. clear. intros [seen bs] c _ Hb. cbn [snd] in *.
  unfold apply_pad_change. cbn [fst snd]. destruct (_ || _) eqn:E; [done|].
  rewrite !orb_false_iff, negb_false_iff in E. destruct E as [[[Hs _] _] _].
  destruct (pad_at_shape bs _ Hb Hs) as [x ->]. cbn [throwing mbind result_bind].
  case_match; [done|]. destruct Hb as [H4 H16]. by split; apply set_pad_at_shape.
Qed.

Lemma apply_slots_post l slots : length slots = 16%nat →
  post (λ s, length s = 16%nat) (fold_result apply_slot_change slots l).
Proof.
  intros Hl. apply post_fold_inv; [|done]. clear. intros slots kc _ Hl. unfold apply_slot_change.
  destruct (_ || _) eqn:E; [done|]. apply orb_false_elim in E as [Hk _]. apply N.leb_gt in Hk.
  unfold kPatternSlotCount, slot_at in *.
  destruct (lookup_lt_is_Some_2 slots (N.to_nat kc.1)) as [x ->]; [lia|].
  cbn [throwing mbind result_bind]. case_match; [done|]. unfold set_slot_at. cbn [post].
  by rewrite length_insert.
Qed.

Definition history_event (c : ApplyAuthoringDelta) (r : N) : json :=
  j_object [("type", j_string "project.history_applied");
            ("command_id", j_string (value (command_id (apply_meta c))));
            ("revision", j_uint r)].

Lemma change_fields_between st b a : same_content st b →
  change_fields st (delta_between b a) =
    Some (MkProjectState (contract st) (project_id st) (revision st) (bpm a)
      (quantize_enabled a) (swing_percent a) (banks st) (assets a) (patterns a) (performances a)
      (pattern_slots st)).
Proof.
  intros [_ E1 E2 E3 _ E4 E5 E6 _]. unfold change_fields.
  cbn [delta_bpm delta_quantize delta_swing delta_assets delta_patterns delta_performances
       delta_between].
  rewrite E1, E2, E3, E4, E5, E6, !change_difference. cbn [mbind option_bind].
  by rewrite !change_map_difference.
Qed.

(** When a delta is looked at: a lawful command id without a receipt, the
    current revision, and a revision left to take. *)
Record applicable (st : ProjectState) (c : ApplyAuthoringDelta)
    (receipts : gmap CommandId CommandReceipt) : Prop := {
  appl_uuid : is_valid_uuid (value (command_id (apply_meta c))) = true;
  appl_new : receipts !! command_id (apply_meta c) = None;
  appl_revision : expected_revision (apply_meta c) = revision st;
  appl_room : revision st < kRevisionMax
}.

Lemma apply_between st b a meta receipts : same_content st b →
  delta_ready b → delta_ready a → project_id b = project_id a →
  valid_content a = true → ¬ same_content b a →
  let c := MkApplyDelta meta (delta_between b a) in
  applicable st c receipts →
  apply_authoring_delta st c receipts =
    success (MkApplied _ (committed_content st a) (history_event c (u64_add (revision st) 1)) false).
Proof.
  intros Hst Hb Ha Hid Hval Hne c [Hu Hn Hr Hm].
  assert (delta_empty (delta_between b a) = false) as He.
  { destruct (delta_empty _) eqn:E; [|done]. exfalso. by apply Hne, between_empty. }
  unfold apply_authoring_delta. cbn zeta. rewrite Hu. cbn [negb orb].
  cbn [apply_meta apply_delta c] in *. rewrite He, Hn.
  cbn [delta_project_id delta_pads delta_slots delta_between].
  rewrite bool_decide_eq_true_2 by apply Hst.
  rewrite Hr, N.eqb_refl. cbn [negb orb]. rewrite (proj2 (N.eqb_neq _ _)) by lia.
  fold (delta_between b a). rewrite (change_fields_between st b a Hst). cbn [or_conflict banks].
  destruct Hb as [Hb Hnb Hsb], Ha as [Ha Hna Hsa]. rewrite (same_banks _ _ Hst).
  destruct (apply_pads _ _ Hb Ha Hnb Hna) as [seen ->]. cbn [mbind result_bind snd].
  cbn [pattern_slots with_banks]. rewrite (same_slots _ _ Hst).
  rewrite (apply_slots _ _ _ Hsb Hsa (proj2 (slots_between_spec _ _ Hsb Hsa))).
  cbn [mbind result_bind].
  rewrite (valid_content_proper _ a), Hval; [done|]. split; try done. cbn. rewrite <- Hid. apply Hst.
Qed.
End apply.

Lemma example_difference :
  authoring_difference (JL := dom_lib) example_project example_stored =
    success (delta_between (JL := dom_lib) example_project example_stored).
Proof.
  apply difference_between; [apply (project_ready (JL := dom_lib)), example_project_ok|
    apply (project_ready (JL := dom_lib)), example_stored_ok|done].
Qed.

Lemma example_difference_back :
  authoring_difference (JL := dom_lib) example_stored example_project =
    success (delta_between (JL := dom_lib) example_stored example_project).
Proof.
  apply difference_between; [apply (project_ready (JL := dom_lib)), example_stored_ok|
    apply (project_ready (JL := dom_lib)), example_project_ok|done].
Qed.

(** ** Properties *)

(** C29: [authoring_difference] of two well-formed Projects with one id is their
    field-by-field difference: it never raises, is empty exactly when they have
    the same content, and names a key of a map exactly when the two sides differ
    there, with both sides. *)
Theorem difference_exact `{JL : JsonLib} b a (Hb : project_ok b) (Ha : project_ok a)
    (Hid : project_id b = project_id a) :
  ∃ d, authoring_difference b a = success d ∧
    (delta_empty d = true ↔ same_content b a) ∧
    (∀ id, delta_assets d !! id = difference (assets b !! id) (assets a !! id)) ∧
    (∀ id, delta_patterns d !! id = difference (patterns b !! id) (patterns a !! id)) ∧
    (∀ id, delta_performances d !! id = difference (performances b !! id) (performances a !! id)) ∧
    (∀ k, delta_slots d !! k = slot_change (pattern_slots b) (pattern_slots a) k) ∧
    (∀ c, c ∈ delta_pads d ↔ ∃ s, is_valid_slot s = true ∧ before c ≠ after c ∧
            pad_at (banks b) s = Some (before c) ∧ pad_at (banks a) s = Some (after c)).
Proof.
  pose proof (project_ready b Hb) as Hrb. pose proof (project_ready a Ha) as Hra.
  exists (delta_between b a). split_and!; [by apply difference_between|by apply between_empty|..];
    cbn [delta_assets delta_patterns delta_performances delta_slots delta_pads delta_between].
  1-3: intros; by rewrite map_difference_lookup.
  - apply slots_between_spec; [apply Hrb|apply Hra].
  - intros c. rewrite list_elem_of_omap. split.
    + intros (s & Hs & E). exists s. pose proof all_slots_valid as Hv. rewrite Forall_forall in Hv.
      unfold pad_change in E. destruct (pad_at (banks b) s) as [x|]; [|done].
      destruct (pad_at (banks a) s) as [y|]; [|done]. cbn in E.
      apply difference_Some in E as [-> ?]. split_and!; [by apply Hv|done..].
    + intros (s & Hs & Hne & Hx & Hy). exists s. split; [by apply all_slots_elem|].
      rewrite (pad_change_at _ _ _ _ _ Hx Hy), difference_ne by done. by destruct c.
Qed.

Lemma difference_exact_witness :
  ∃ d, authoring_difference (JL := dom_lib) example_project example_stored = success d ∧
    delta_patterns d !! MkId (id_of 2) =
      Some (MkChange None (patterns example_stored !! MkId (id_of 2))).
Proof.
  destruct (difference_exact (JL := dom_lib) example_project example_stored
    example_project_ok example_stored_ok eq_refl) as (d & Hd & _ & _ & Hp & _).
  exists d. split; [exact Hd|]. rewrite Hp. reflexivity.
Defined.

(** C6: Undo and Redo.  The difference of two well-formed Projects, applied to a
    Project with the content of the first, commits the content of the second as
    one new revision under the Project's own contract; its reversal, applied to a
    Project with the content of the second, commits the content of the first. *)
Theorem delta_moves_content `{JL : JsonLib} b a st st' d meta receipts
    (Hb : project_ok b) (Ha : project_ok a) (Hd : authoring_difference b a = success d)
    (Hne : ¬ same_content b a)
    (Hst : same_content st b) (Hst' : same_content st' a) :
  (applicable st (MkApplyDelta meta d) receipts →
   ∃ r, apply_authoring_delta st (MkApplyDelta meta d) receipts = success r ∧
     same_content (applied_state r) a ∧ contract (applied_state r) = contract st ∧
     revision (applied_state r) = revision st + 1 ∧ replayed r = false) ∧
  (applicable st' (MkApplyDelta meta (reverse_authoring_delta d)) receipts →
   ∃ r, apply_authoring_delta st' (MkApplyDelta meta (reverse_authoring_delta d)) receipts =
       success r ∧
     same_content (applied_state r) b ∧ contract (applied_state r) = contract st' ∧
     revision (applied_state r) = revision st' + 1 ∧ replayed r = false).
Proof.
  pose proof (project_ready b Hb) as Hrb. pose proof (project_ready a Ha) as Hra.
  assert (project_id b = project_id a) as Hid.
  { unfold authoring_difference in Hd. by case_bool_decide. }
  rewrite (difference_between b a) in Hd by done. injection Hd as <-.
  split; intros Hap; pose proof (appl_room _ _ _ Hap) as Hroom; unfold kRevisionMax in Hroom.
  - eexists. rewrite (apply_between st b a) by (done || by eapply content_valid). split; [done|].
    cbn [applied_state replayed]. split_and!; [|done| |done].
    + apply committed_same. by rewrite (same_id _ _ Hst).
    + apply u64_add_small. u_lia.
  - rewrite reverse_between in Hap |- * by done.
    eexists. rewrite (apply_between st' a b) by (done || by eapply content_valid).
    split; [done|]. cbn [applied_state replayed]. split_and!; [|done| |done].
    + apply committed_same. by rewrite (same_id _ _ Hst').
    + apply u64_add_small. u_lia.
Qed.

Lemma delta_moves_content_witness :
  ∃ d r, authoring_difference (JL := dom_lib) example_project example_stored = success d ∧
    apply_authoring_delta (JL := dom_lib) example_project (MkApplyDelta example_meta d) ∅ =
      success r ∧ same_content (applied_state r) example_stored.
Proof.
  eexists. destruct (delta_moves_content (JL := dom_lib) example_project example_stored
    example_project example_stored (delta_between (JL := dom_lib) example_project example_stored)
    example_meta ∅ example_project_ok example_stored_ok example_difference)
    as [H _]; [intros []; done|done|done|].
  destruct H as (r & Hr & Hc & _); [by split|]. exists r.
  split; [apply example_difference|split; [exact Hr|exact Hc]].
Defined.

(** C40: composing the difference of two Projects with the difference of the
    second and a third is the difference of the first and the third, order of the
    Pads included. *)
Theorem delta_composes `{JL : JsonLib} a b c d1 d2
    (Ha : project_ok a) (Hb : project_ok b) (Hc : project_ok c)
    (H1 : authoring_difference a b = success d1) (H2 : authoring_difference b c = success d2) :
  compose_authoring_deltas d1 d2 = authoring_difference a c ∧
  compose_authoring_deltas d1 (reverse_authoring_delta d1) = authoring_difference a a.
Proof.
  pose proof (project_ready a Ha) as Hra. pose proof (project_ready b Hb) as Hrb.
  pose proof (project_ready c Hc) as Hrc.
  assert (project_id a = project_id b ∧ project_id b = project_id c) as [Hab Hbc].
  { unfold authoring_difference in H1, H2. by repeat case_bool_decide. }
  rewrite difference_between in H1, H2 by done. injection H1 as <-. injection H2 as <-.
  rewrite reverse_between, !compose_between, !difference_between by congruence. done.
Qed.

Lemma delta_composes_witness :
  ∃ d1 d2, compose_authoring_deltas (JL := dom_lib) d1 d2 =
      authoring_difference (JL := dom_lib) example_project example_project ∧
    delta_empty d1 = false.
Proof.
  eexists _, _. split.
  - apply (delta_composes (JL := dom_lib) example_project example_stored example_project _ _
      example_project_ok example_stored_ok example_project_ok
      example_difference example_difference_back).
  - reflexivity.
Defined.

(** Any delta, however it was made: applying it never raises; it succeeds by
    replaying a receipt, or by committing one revision to content that satisfies
    the content rules, under the same id and contract, from the expected
    revision; a delta for another Project or another revision is a conflict. *)
Theorem delta_apply_guarded `{JL : JsonLib} st c receipts (Hsh : state_shape st)
    (Hmax : revision st ≤ kRevisionMax) :
  post (λ r, (replayed r = true ∧ applied_state r = st) ∨
             (replayed r = false ∧ expected_revision (apply_meta c) = revision st ∧
              revision (applied_state r) = revision st + 1 ∧
              project_id (applied_state r) = project_id st ∧
              contract (applied_state r) = contract st ∧
              valid_content (applied_state r) = true))
    (apply_authoring_delta st c receipts) ∧
  (is_valid_uuid (value (command_id (apply_meta c))) = true →
   delta_empty (apply_delta c) = false → receipts !! command_id (apply_meta c) = None →
   project_id st ≠ delta_project_id (apply_delta c) ∨
     revision st ≠ expected_revision (apply_meta c) →
   apply_authoring_delta st c receipts = conflict).
Proof.
  split.
  - unfold apply_authoring_delta. cbn zeta. destruct (_ || delta_empty _) eqn:Eu; [done|]. clear Eu.
    destruct (receipts !! _) as [r|]; [by left; split|].
    destruct (_ || _) eqn:E; [done|]. apply orb_false_elim in E as [Hid Hrev].
    destruct (revision st =? kRevisionMax) eqn:Hroom; [exact I|].
    destruct (change_fields st (apply_delta c)) as [next|] eqn:En; [|done]. cbn [or_conflict].
    apply change_fields_frame in En as (Ec & Ei & Er & Eb & Es).
    apply (post_bind (λ s, banks_shape s.2)).
    { apply apply_pads_post. rewrite Eb. destruct Hsh. by split. }
    intros [seen bs] _. cbn [snd]. apply (post_bind (λ l, length l = 16%nat)).
    { apply apply_slots_post. cbn. rewrite Es. apply Hsh. }
    intros l _. destruct (valid_content _) eqn:Ev; [|done]. cbn [negb]. right.
    cbn [applied_state replayed revision contract project_id with_revision with_pattern_slots
         with_banks]. bool_to_prop. unfold kRevisionMax in *. split_and!; [done|congruence| |done..|].
    + rewrite u64_add_small by u_lia. congruence.
    + rewrite <- Ev. apply valid_content_proper. by split.
  - intros Hu He Hr Hne. unfold apply_authoring_delta. cbn zeta. rewrite Hu, He, Hr.
    cbn [negb orb]. destruct Hne as [Hne|Hne].
    + by rewrite bool_decide_eq_false_2.
    + rewrite (proj2 (N.eqb_neq _ _) Hne). by rewrite orb_true_r.
Qed.

Lemma delta_apply_guarded_witness :
  apply_authoring_delta (JL := dom_lib) example_project
    (MkApplyDelta (MkCommandMeta (MkId (id_of 1)) 7)
       (delta_between (JL := dom_lib) example_project example_stored)) ∅ = conflict (JL := dom_lib).
Proof.
  apply (delta_apply_guarded (JL := dom_lib) example_project); [|apply N.le_0_l|reflexivity..|right; done].
  split; [done|by repeat constructor|done].
Defined.
