(* ===== verification/History.v ===== *)
(** The authoring history of a session.

    Models packages/project-io/include/lmdj/project_io/authoring_history.hpp and
    src/authoring_history.cpp: the Undo and Redo stacks of the open Project, kept
    in memory by the Facade.

    [state_], [pending_before_] and [pending_after_] are shared pointers, also
    held by a [Publication], and two operations write through them; so a
    [State] lives in a store and the members hold locations.  A location is
    never reused; when C++ frees a [State] nothing points to it.  Every operation
    holds the recursive mutex for its whole body, so operations do not interleave;
    [acquire] is not modelled. *)

From S2P Require Import Prelude Json Foundation Text Project Playback Fields Lineage Soundset Sequence Performance Commands Invariant Delta.

(** ** Paths *)

(** The names between the separators of a path; [std::filesystem] on POSIX. *)
Fixpoint split_path (cs : list ascii) : list string :=
  match cs with
  | [] => [""]
  | c :: cs =>
      if ascii_eqb c "/" then "" :: split_path cs
      else match split_path cs with
           | name :: names => String c name :: names
           | [] => []
           end
  end.

(** One name of the path: the names kept, last first, and whether the path would
    now end with a separator. *)
Definition normal_step (absolute : bool) (s : list string * bool) (name : string) :
    list string * bool :=
  if bool_decide (name = "") || bool_decide (name = ".") then (s.1, true)
  else if bool_decide (name = "..") then
    match s.1 with
    | [] => if absolute then ([], true) else ([".."], false)
    | top :: rest => if bool_decide (top = "..") then (".." :: s.1, false) else (rest, true)
    end
  else (name :: s.1, false).

Definition join_path (names : list string) : string := String.concat "/" names.

(** [path::lexically_normal]. *)
Definition lexically_normal (path : string) : string :=
  if bool_decide (path = "") then ""
  else
    let absolute := ascii_eqb (char_at path 0) "/" in
    let s := foldl (normal_step absolute) ([], false) (split_path (chars path)) in
    let slash := match s.1 with
                 | top :: _ => s.2 && negb (bool_decide (top = ".."))
                 | [] => false
                 end in
    let relative := (join_path (rev s.1) ++ (if slash then "/" else ""))%string in
    let normal := if absolute then ("/" ++ relative)%string else relative in
    if bool_decide (normal = "") then "." else normal.

(** ** Data *)

Record Entry := MkEntry { entry_delta : AuthoringDelta; label : string; group : string }.

Record State := MkState {
  bundle : string;
  session_id : string;
  history_project : ProjectId;
  history_revision : N;
  fingerprint : string;
  undo : list Entry;
  redo : list Entry;
  displaced_redo : list Entry;
  displaced_oldest : option Entry;
  disabled_reason : string
}.

Record AuthoringHistory := MkHistory {
  store : gmap N State;
  next_location : N;
  state_ : option N;
  pending_before : option N;
  pending_after : option N
}.

Record AuthoringHistoryStatus := MkStatus {
  status_session : string;
  status_revision : N;
  undo_count : nat;
  redo_count : nat;
  undo_label : string;
  redo_label : string;
  status_disabled : string
}.

(** [None] is a Publication without an owner. *)
Definition Publication : Type := option (option N * option N).

Definition kMaximumActions : nat := 100.

Definition empty_history : AuthoringHistory := MkHistory ∅ 0 None None None.

(** The stacks of a [State]; the other members are the caller's. *)
Record stacks := MkStacks {
  undo_of : list Entry;
  redo_of : list Entry;
  displaced_of : list Entry;
  oldest_of : option Entry
}.

Definition stacks_of (s : State) : stacks :=
  MkStacks (undo s) (redo s) (displaced_redo s) (displaced_oldest s).

Definition with_stacks (s : State) (k : stacks) : State :=
  MkState (bundle s) (session_id s) (history_project s) (history_revision s) (fingerprint s)
    (undo_of k) (redo_of k) (displaced_of k) (oldest_of k) (disabled_reason s).
Definition with_disabled (s : State) (reason : string) : State :=
  MkState (bundle s) (session_id s) (history_project s) (history_revision s) (fingerprint s)
    (undo s) (redo s) (displaced_redo s) (displaced_oldest s) reason.
Definition at_commit (s : State) (revision : N) (print : string) : State :=
  MkState (bundle s) (session_id s) (history_project s) revision print
    (undo s) (redo s) (displaced_redo s) (displaced_oldest s) (disabled_reason s).

Definition clear_group (e : Entry) : Entry := MkEntry (entry_delta e) (label e) "".

(** [if (!entries.empty()) entries.back().group.clear()]. *)
Definition seal_back (entries : list Entry) : list Entry :=
  match last entries with
  | Some e => removelast entries ++ [clear_group e]
  | None => entries
  end.

(** ** The store *)

Definition deref (h : AuthoringHistory) (p : option N) : option State := l ← p; store h !! l.

(** [std::make_shared<State>]. *)
Definition allocate (h : AuthoringHistory) (s : State) : AuthoringHistory * N :=
  (MkHistory (<[next_location h := s]> (store h)) (next_location h + 1) (state_ h)
     (pending_before h) (pending_after h), next_location h).

Definition write (h : AuthoringHistory) (l : N) (s : State) : AuthoringHistory :=
  MkHistory (<[l := s]> (store h)) (next_location h) (state_ h) (pending_before h)
    (pending_after h).

Definition point (h : AuthoringHistory) (p : option N) : AuthoringHistory :=
  MkHistory (store h) (next_location h) p (pending_before h) (pending_after h).

Definition pend (h : AuthoringHistory) (b a : option N) : AuthoringHistory :=
  MkHistory (store h) (next_location h) (state_ h) b a.

(** The [State] of an open bundle, with its location. *)
Definition opened (h : AuthoringHistory) (path : string) : option (N * State) :=
  l ← state_ h;
  s ← store h !! l;
  if bool_decide (bundle s = lexically_normal path) then Some (l, s) else None.

(** ** Operations *)

Section operations.
Context `{JL : JsonLib}.

Definition matches (s : State) (st : ProjectState) (print : string) : bool :=
  bool_decide (history_project s = project_id st) && (history_revision s =? revision st) &&
  bool_decide (fingerprint s = print).

Definition unavailable {A} (reason : string) : Result A :=
  failure (MkError _ invalid_argument "Undo or Redo is unavailable in this authoring session"
    (j_object [("reason", j_string reason);
               ("remedy", j_string "inspect authoring history before retrying")])).

Definition start (h : AuthoringHistory) (path session : string) (st : ProjectState)
    (print : string) : AuthoringHistory :=
  let '(h, l) := allocate h (MkState (lexically_normal path) session (project_id st)
                               (revision st) print [] [] [] None "") in
  pend (point h (Some l)) None None.

Definition close (h : AuthoringHistory) : AuthoringHistory := pend (point h None) None None.

Definition invalidate (h : AuthoringHistory) (path reason : string) : AuthoringHistory :=
  match opened h path with
  | Some (l, s) =>
      pend (write h l (with_disabled (with_stacks s (MkStacks [] [] [] None)) reason)) None None
  | None => h
  end.

(** A test on the [State] a pointer holds. *)
Definition points_to_match (h : AuthoringHistory) (p : option N) (st : ProjectState)
    (print : string) : bool :=
  match deref h p with Some s => matches s st print | None => false end.

(** The pending commit decided by what was read back. *)
Definition settle (h : AuthoringHistory) (st : ProjectState) (print : string) :
    option AuthoringHistory :=
  match pending_after h with
  | None => Some h
  | Some _ =>
      if points_to_match h (pending_after h) st print then
        Some (pend (point h (pending_after h)) None None)
      else if has_value (pending_before h) && points_to_match h (pending_before h) st print then
        Some (pend (point h (pending_before h)) None None)
      else None
  end.

Definition reconcile (h : AuthoringHistory) (path : string) (st : ProjectState)
    (print : string) : AuthoringHistory :=
  match opened h path with
  | None => h
  | Some _ =>
      match settle h st print with
      | None => invalidate h path "authoring_history_invalidated"
      | Some h =>
          if points_to_match h (state_ h) st print then h
          else invalidate h path "authoring_history_invalidated"
      end
  end.

Definition back_label (entries : list Entry) : string :=
  match last entries with Some e => label e | None => "" end.

Definition status (h : AuthoringHistory) (path : string) : AuthoringHistoryStatus :=
  match opened h path with
  | None => MkStatus "" 0 0 0 "" "" "authoring_history_not_open"
  | Some (_, s) =>
      MkStatus (session_id s) (history_revision s) (length (undo s)) (length (redo s))
        (back_label (undo s)) (back_label (redo s))
        (if has_value (pending_after h) then "authoring_history_result_unknown"
         else disabled_reason s)
  end.

Definition selected (h : AuthoringHistory) (path session : string) (forward : bool) :
    Result AuthoringDelta :=
  let current := status h path in
  if negb (bool_decide (status_disabled current = "")) then unavailable (status_disabled current)
  else if negb (bool_decide (status_session current = session)) then
    unavailable "authoring_history_session_mismatch"
  else
    s ← throwing (deref h (state_ h));
    match last (if forward then redo s else undo s) with
    | None => unavailable "authoring_history_empty"
    | Some e => success (if forward then entry_delta e else reverse_authoring_delta (entry_delta e))
    end.

(** The stacks after an Undo or a Redo. *)
Definition move_back (k : stacks) (forward : bool) (delta : AuthoringDelta) : Result stacks :=
  let from := if forward then redo_of k else undo_of k in
  let to := if forward then undo_of k else redo_of k in
  match last from with
  | None => unavailable "authoring_history_empty"
  | Some e =>
      let expected := if forward then entry_delta e else reverse_authoring_delta (entry_delta e) in
      if negb (bool_decide (delta = expected)) then unavailable "authoring_history_conflict"
      else
        let from := removelast from in
        let to := to ++ [clear_group e] in
        success (if forward then MkStacks to from [] None else MkStacks from to [] None)
  end.

(** A commit of the action [e] is the last entry. *)
Definition merge_back (k : stacks) (e : Entry) (delta : AuthoringDelta) : Result stacks :=
  combined ← compose_authoring_deltas (entry_delta e) delta;
  let rest := removelast (undo_of k) in
  success
    (if delta_empty combined then
       match oldest_of k with
       | Some oldest => MkStacks (oldest :: rest) (displaced_of k) [] None
       | None => MkStacks rest (displaced_of k) [] None
       end
     else MkStacks (rest ++ [MkEntry combined (label e) (group e)]) (redo_of k)
            (displaced_of k) (oldest_of k)).

(** A commit that begins an action. *)
Definition push_new (k : stacks) (e : Entry) : stacks :=
  let displaced := if bool_decide (group e = "") then [] else redo_of k in
  let entries := seal_back (undo_of k) ++ [e] in
  if (kMaximumActions <? length entries)%nat then
    MkStacks (tail entries) [] displaced
      (if bool_decide (group e = "") then None else head entries)
  else MkStacks entries [] displaced None.

(** The entry whose group the commit continues. *)
Definition merge_target (k : stacks) (name : string) : option Entry :=
  e ← last (undo_of k);
  if negb (bool_decide (name = "")) && bool_decide (group e = name) then Some e else None.

Definition next_stacks (k : stacks) (delta : AuthoringDelta) (name action : string)
    (forward : option bool) : Result stacks :=
  match forward with
  | Some forward => move_back k forward delta
  | None =>
      if delta_empty delta then success k
      else match merge_target k action with
           | Some e => merge_back k e delta
           | None => success (push_new k (MkEntry delta name action))
           end
  end.

Definition prepare (h : AuthoringHistory) (path : string) (b a : ProjectState)
    (before_print after_print name action : string) (forward : option bool) :
    AuthoringHistory * Result Publication :=
  let h := reconcile h path b before_print in
  let closed : Result Publication :=
    if has_value forward then unavailable "authoring_history_invalidated" else success None in
  match opened h path with
  | None => (h, closed)
  | Some (_, s) =>
      if negb (bool_decide (disabled_reason s = "")) then (h, closed)
      else
        let next := delta ← authoring_difference b a;
                    next_stacks (stacks_of s) delta name action forward in
        match next with
        | success k =>
            let '(h', l) := allocate h (with_stacks (at_commit s (revision a) after_print) k) in
            (h', success (Some (state_ h, Some l)))
        | failure e => (h, failure e)
        | thrown => (h, thrown)
        end
  end.

Definition seal_group (h : AuthoringHistory) (path : string) : AuthoringHistory :=
  match opened h path with
  | Some (l, s) =>
      if has_value (pending_after h) then h
      else write h l (with_stacks s (MkStacks (seal_back (undo s)) (redo s) [] None))
  | None => h
  end.

(** [Publication::begin] and [Publication::confirm]. *)
Definition begin (h : AuthoringHistory) (p : Publication) : AuthoringHistory :=
  match p with
  | Some (before_, after_) => pend h before_ after_
  | None => h
  end.

Definition confirm (h : AuthoringHistory) (p : Publication) : AuthoringHistory :=
  match p with
  | Some (_, after_) => pend (point h after_) None None
  | None => h
  end.
End operations.

(** ** Retained artifacts *)

Definition side_refs {V} (artifact : V → option ArtifactRef) (c : AuthoringChange (option V)) :
    list string :=
  sha256 <$> omap (λ v, v ≫= artifact) [before c; after c].

Definition retain_entry (e : Entry) : list string :=
  (map_to_list (delta_assets (entry_delta e)) ≫=
     λ kc, side_refs (λ a, Some (asset_artifact a)) kc.2) ++
  (map_to_list (delta_performances (entry_delta e)) ≫=
     λ kc, side_refs recording_artifact kc.2).

Definition retain (refs : gset string) (entries : list Entry) : gset string :=
  foldl (λ refs e, refs ∪ list_to_set (retain_entry e)) refs entries.

Definition state_entries (s : State) : list Entry :=
  undo s ++ redo s ++ displaced_redo s ++ option_list (displaced_oldest s).

Definition retained_artifacts (h : AuthoringHistory) (path : string) : gset string :=
  foldl (λ refs p,
      match deref h p with
      | Some s => if bool_decide (bundle s = lexically_normal path)
                  then retain refs (state_entries s) else refs
      | None => refs
      end) ∅ [state_ h; pending_before h; pending_after h].

Example normal_examples :
  lexically_normal <$> ["a//b/./c"; "a/b/.."; "/.."; "a/.."; "../a/.."; "./x/"; "/a/../b"] =
    ["a/b/c"; "a/"; "/"; "."; ".."; "x/"; "/b"].
Proof. reflexivity. Qed.
