(* ===== verification/HistoryLaws.v ===== *)
(** The authoring history keeps a trail of Projects.

    The stacks are read against contents of the Project: the Undo entries lead
    from some earlier content to the current one, the Redo entries from the
    current one to a later one.  Every operation keeps this reading and the
    bounds on the number of entries, and so an Undo or a Redo always applies. *)

From S2P Require Import Prelude Json Foundation Text Project Playback Fields Lineage Soundset Sequence Performance Commands Invariant CommandLaws PatternLaws Handler GridEdit Delta DeltaLaws DeltaEdits History.

(** ** Trails *)

Section trails.
Context `{JL : JsonLib}.

(** A content that a delta may lead to. *)
Record sound (st : ProjectState) : Prop := {
  sound_ready : delta_ready st;
  sound_valid : valid_content st = true
}.

#[export] Instance sound_proper : Proper (same_content ==> iff) sound.
Proof.
  assert (∀ x y, same_content x y → sound x → sound y) as H.
  { intros x y E [Hr Hv]. split; [by rewrite <- E|by rewrite <- (valid_content_proper _ _ E)]. }
  intros x y E. split; apply H; [done|by symmetry].
Qed.

Lemma project_sound st : project_ok st → sound st.
Proof. intros Hst. split; [by apply project_ready|by eapply content_valid]. Qed.

#[export] Instance delta_between_proper :
  Proper (same_content ==> same_content ==> eq) delta_between.
Proof.
  intros b b' [] a a' []. unfold delta_between.
  repeat match goal with E : _ = _ |- _ => rewrite E; clear E end. done.
Qed.

(** The entry records the change from one content to another. *)
Record change (b : ProjectState) (e : Entry) (a : ProjectState) : Prop := {
  change_from : sound b;
  change_to : sound a;
  change_project : project_id b = project_id a;
  change_delta : entry_delta e = delta_between b a;
  change_real : ¬ same_content b a
}.

Lemma change_same b b' e e' a a' : same_content b b' → same_content a a' →
  entry_delta e = entry_delta e' → change b e a → change b' e' a'.
Proof.
  intros Eb Ea Ee [Hb Ha Hp Hd Hr]. split.
  - by rewrite <- Eb.
  - by rewrite <- Ea.
  - by rewrite <- (same_id _ _ Eb), Hp, (same_id _ _ Ea).
  - by rewrite <- Ee, Hd, Eb, Ea.
  - by rewrite <- Eb, <- Ea.
Qed.

Inductive trail : ProjectState → list Entry → ProjectState → Prop :=
| trail_nil a b : same_content a b → trail a [] b
| trail_cons a e m l b : change a e m → trail m l b → trail a (e :: l) b.

Lemma trail_end a l b b' : trail a l b → same_content b b' → trail a l b'.
Proof.
  induction 1 as [a b E|a e m l b He Hl IH]; intros E'.
  - constructor. by etrans.
  - econstructor; [exact He|auto].
Qed.

Lemma trail_start a a' l b : trail a l b → same_content a a' → trail a' l b.
Proof.
  intros Hl E. destruct Hl as [a b E'|a e m l b He Hl].
  - constructor. by rewrite <- E.
  - econstructor; [|exact Hl]. by eapply change_same; [exact E|reflexivity|reflexivity|].
Qed.

Lemma trail_snoc a l m e b : trail a l m → change m e b → trail a (l ++ [e]) b.
Proof.
  intros Hl He. induction Hl as [a m E|a e' m' l m He' Hl IH]; cbn [app].
  - econstructor; [|by constructor].
    eapply change_same; [symmetry; exact E|reflexivity|reflexivity|exact He].
  - econstructor; eauto.
Qed.

Lemma trail_snoc_inv a l e b : trail a (l ++ [e]) b → ∃ m, trail a l m ∧ change m e b.
Proof.
  revert a. induction l as [|e' l IH]; cbn [app]; intros a H; inversion H as [|? ? m ? ? He Hl]; subst.
  - inversion Hl; subst. exists a. split; [by constructor|]. by eapply change_same.
  - destruct (IH m Hl) as (m' & Hm & He'). exists m'. split; [|done]. by econstructor.
Qed.

(** Only the deltas of the entries matter. *)
Lemma trail_deltas a l l' b : entry_delta <$> l = entry_delta <$> l' → trail a l b → trail a l' b.
Proof.
  intros E H. revert l' E. induction H as [a b E'|a e m l b He Hl IH]; intros [|e' l'] E;
    rewrite ?fmap_cons in E; try discriminate E.
  - by constructor.
  - injection E as Ee El. econstructor; [|by apply IH].
    by eapply change_same; [reflexivity|reflexivity|exact Ee|].
Qed.

Lemma trail_project a l b : trail a l b → project_id a = project_id b.
Proof.
  induction 1 as [a b E|a e m l b He _ IH]; [apply (same_id _ _ E)|].
  by rewrite (change_project _ _ _ He).
Qed.

(** What follows a content determines it: the difference is injective. *)
Lemma delta_between_inj b a a' : sound b → sound a → sound a' →
  project_id b = project_id a → project_id b = project_id a' →
  delta_between b a = delta_between b a' → same_content a a'.
Proof.
  intros [Hb _] [Ha _] [Ha' _] Hi Hi' E. apply between_empty; [done..|congruence|].
  assert (delta_between a b = delta_between a' b) as E'.
  { by rewrite <- (reverse_between b a), <- (reverse_between b a'), E by done. }
  pose proof (compose_between a b a' Ha Hb Ha' (eq_sym Hi) Hi') as H1.
  pose proof (compose_between a' b a' Ha' Hb Ha' (eq_sym Hi') Hi') as H2.
  rewrite E', H2 in H1. apply success_inj in H1. rewrite <- H1. by apply between_empty.
Qed.
End trails.

(** ** The stacks *)

Lemma seal_back_deltas l : entry_delta <$> seal_back l = entry_delta <$> l.
Proof.
  destruct l as [|e l _] using rev_ind; [done|]. unfold seal_back.
  by rewrite last_snoc, removelast_last, !fmap_app.
Qed.

Lemma length_seal_back l : length (seal_back l) = length l.
Proof. by rewrite <- (length_fmap entry_delta), seal_back_deltas, length_fmap. Qed.

Lemma last_some_snoc {A} (l : list A) x : last l = Some x → l = removelast l ++ [x].
Proof.
  destruct l as [|y l _] using rev_ind; [done|]. rewrite last_snoc, removelast_last.
  by intros [= ->].
Qed.

Definition closed (e : Entry) : Prop := group e = "".

Lemma forall_removelast {A} (P : A → Prop) l : Forall P l → Forall P (removelast l).
Proof.
  destruct l as [|x l _] using rev_ind; [done|]. rewrite removelast_last.
  by intros [? _]%Forall_app.
Qed.

Lemma forall_last {A} (P : A → Prop) l x : last l = Some x → Forall P l → P x.
Proof. intros ->%last_some_snoc [_ H]%Forall_app. by inversion H. Qed.

Lemma length_removelast_last {A} (l : list A) x : last l = Some x →
  length l = S (length (removelast l)).
Proof. intros E%last_some_snoc. rewrite E at 1. rewrite length_app. cbn. lia. Qed.

Lemma seal_back_closed l : Forall closed (removelast l) → Forall closed (seal_back l).
Proof.
  destruct l as [|x l _] using rev_ind; [by constructor|]. unfold seal_back.
  rewrite last_snoc, removelast_last. intros Hl. apply Forall_app. split; [done|].
  by repeat constructor.
Qed.

(** The arithmetic of the bounds. *)
Ltac stack_lia :=
  cbn [undo_of redo_of displaced_of oldest_of] in *;
  rewrite ?length_app, ?length_seal_back in *; cbn [length] in *; lia.

Section tracking.
Context `{JL : JsonLib}.

(** What an open action holds back: the Redo branch it displaced, and the oldest
    entry it pushed out. *)
Definition held (k : stacks) (first cur : ProjectState) : Prop :=
  (displaced_of k = [] ∧ oldest_of k = None) ∨
  ∃ l e m, undo_of k = l ++ [e] ∧ trail first l m ∧ change m e cur ∧
    (∃ final, trail m (rev (displaced_of k)) final) ∧
    (∀ o, oldest_of k = Some o → ∃ z, change z o first).

Definition tracked (k : stacks) (cur : ProjectState) : Prop :=
  ∃ first, trail first (undo_of k) cur ∧ (∃ final, trail cur (rev (redo_of k)) final) ∧
    held k first cur.

(** The bounds, and that only the newest entry may belong to an open action,
    which has no Redo branch. *)
Record disciplined (k : stacks) : Prop := {
  bounded_actions : (length (undo_of k) + length (redo_of k) ≤ kMaximumActions)%nat;
  bounded_held : (length (undo_of k) + length (displaced_of k) +
                  (if oldest_of k then 1 else 0) ≤ S kMaximumActions)%nat;
  closed_groups : Forall (λ e, group e = "") (removelast (undo_of k));
  open_group : ∀ e, last (undo_of k) = Some e → group e ≠ "" → redo_of k = [];
  closed_oldest : ∀ o, oldest_of k = Some o → group o = ""
}.

(** Stacks without an open action. *)
Lemma disciplined_closed u r :
  (length u + length r ≤ kMaximumActions)%nat → (length u ≤ S kMaximumActions)%nat →
  Forall closed u → disciplined (MkStacks u r [] None).
Proof.
  intros H1 H2 H3. split; cbn [undo_of redo_of displaced_of oldest_of]; [stack_lia..| | |done].
  - by apply forall_removelast.
  - intros e He Hg. by destruct (Hg (forall_last _ _ _ He H3)).
Qed.

Lemma all_closed k : disciplined k → redo_of k ≠ [] → Forall closed (undo_of k).
Proof.
  intros [_ _ Hg Ho _] Hr. destruct (last (undo_of k)) as [e|] eqn:El.
  - pose proof (last_some_snoc _ _ El) as E. rewrite E. apply Forall_app. split; [done|].
    constructor; [|constructor]. destruct (decide (group e = "")) as [|Hne]; [done|].
    by destruct Hr; eapply Ho.
  - apply last_None in El. by rewrite El.
Qed.

Lemma tracked_same k b a : tracked k b → same_content b a → tracked k a.
Proof.
  intros (first & Hu & (final & Hr) & Hh) E. exists first. split_and!.
  - by eapply trail_end.
  - exists final. by eapply trail_start.
  - destruct Hh as [Hh|(l & e & m & Hl & Ht & He & Hrest)]; [by left|right].
    exists l, e, m. split_and!; [done|done| |apply Hrest..].
    by eapply change_same; [reflexivity|exact E|reflexivity|].
Qed.

(** The entry a merge would continue, with where it started. *)
Lemma held_back k e first cur : last (undo_of k) = Some e → trail first (undo_of k) cur →
  held k first cur →
  ∃ m, trail first (removelast (undo_of k)) m ∧ change m e cur ∧
    (∃ final, trail m (rev (displaced_of k)) final) ∧
    (∀ o, oldest_of k = Some o → ∃ z, change z o first).
Proof.
  intros Hlast Ht Hh. apply last_some_snoc in Hlast as E.
  destruct Hh as [[Hd Ho]|(l & e' & m & Hl & Htl & He & Hf & Ho)].
  - rewrite E in Ht. apply trail_snoc_inv in Ht as (m & Htl & He). exists m.
    split_and!; [done|done| |by rewrite Ho]. exists m. rewrite Hd. by constructor.
  - rewrite Hl in E. apply app_inj_tail in E as [E1 E2]. rewrite Hl, removelast_last.
    rewrite Hl, last_snoc in Hlast. injection Hlast as <-. by exists m.
Qed.

(** An Undo or a Redo that succeeds. *)
Lemma move_back_tracked k b a forward k' : tracked k b → disciplined k → sound b → sound a →
  project_id b = project_id a → move_back k forward (delta_between b a) = success k' →
  tracked k' a ∧ disciplined k'.
Proof.
  intros (first & Hu & (final & Hr) & _) Hdis Hsb Hsa Hid Hm.
  pose proof Hdis as [Hb1 Hb2 Hg Hog Hco]. unfold move_back in Hm.
  destruct forward.
  - destruct (last (redo_of k)) as [e|] eqn:El; [|done].
    pose proof (length_removelast_last _ _ El) as Hl. apply last_some_snoc in El.
    rewrite El, rev_app_distr in Hr. cbn [rev app] in Hr.
    inversion Hr as [|? ? m ? ? He Ht]; subst.
    case_bool_decide as Ed; [|done]. cbn [negb] in Hm. injection Hm as <-.
    assert (same_content a m) as E.
    { destruct He as [? Hm1 Hp Hd _]. rewrite Hd in Ed. by apply (delta_between_inj b). }
    split; [|apply disciplined_closed; [stack_lia..|]; cbn [undo_of]; apply Forall_app; split].
    2: by apply all_closed; [|rewrite El; destruct (removelast _)].
    2: by repeat constructor.
    exists first. cbn [undo_of redo_of displaced_of oldest_of]. split_and!; [| |by left].
    + eapply trail_snoc; [exact Hu|].
      by eapply change_same; [reflexivity|symmetry; exact E| |exact He].
    + exists final. eapply trail_start; [exact Ht|by symmetry].
  - destruct (last (undo_of k)) as [e|] eqn:El; [|done].
    pose proof (length_removelast_last _ _ El) as Hl. apply last_some_snoc in El.
    rewrite El in Hu. apply trail_snoc_inv in Hu as (m & Ht & He).
    case_bool_decide as Ed; [|done]. cbn [negb] in Hm. injection Hm as <-.
    assert (same_content a m) as E.
    { destruct He as [Hm1 ? Hp Hd _]. rewrite Hd, reverse_between in Ed by
        (done || apply Hm1 || apply Hsb). by apply (delta_between_inj b). }
    split; [|by apply disciplined_closed; [stack_lia..|]].
    exists first. cbn [undo_of redo_of displaced_of oldest_of]. split_and!; [| |by left].
    + eapply trail_end; [exact Ht|by symmetry].
    + exists final. rewrite rev_app_distr. cbn [rev app]. econstructor; [|exact Hr].
      by eapply change_same; [symmetry; exact E|reflexivity| |exact He].
Qed.

(** A commit that continues an action. *)
Lemma merge_back_tracked k e b a : tracked k b → disciplined k → sound b → sound a →
  project_id b = project_id a → last (undo_of k) = Some e → group e ≠ "" →
  ∃ k', merge_back k e (delta_between b a) = success k' ∧ tracked k' a ∧ disciplined k'.
Proof.
  intros (first & Hu & (final & Hr) & Hh) [Hb1 Hb2 Hg Hog Hco] Hsb Hsa Hid Hlast Hopen.
  destruct (held_back k e first b Hlast Hu Hh) as (m & Ht & He & [final' Hf] & Ho).
  apply last_some_snoc in Hlast as El.
  pose proof (length_removelast_last _ _ Hlast) as Hl.
  pose proof He as [Hsm _ Hp Hd Hne]. unfold merge_back.
  rewrite Hd, (compose_between m b a) by (apply Hsm || apply Hsb || apply Hsa || done).
  cbn [mbind result_bind]. eexists. split; [done|].
  destruct (delta_empty (delta_between m a)) eqn:Em.
  - apply between_empty in Em; [|apply Hsm|apply Hsa|congruence].
    assert (trail first (removelast (undo_of k)) a) as Hta by by eapply trail_end.
    assert (trail a (rev (displaced_of k)) final') as Hfa by by eapply trail_start.
    destruct (oldest_of k) as [o|] eqn:Eo.
    + destruct (Ho o eq_refl) as [z Hz]. split; [|apply disciplined_closed; [stack_lia..|constructor; [by apply Hco|done]]].
      exists z. split_and!; [by econstructor|by exists final'|by left].
    + split; [|by apply disciplined_closed; [stack_lia..|]].
      exists first. split_and!; [done|by exists final'|by left].
  - assert (¬ same_content m a) as Hma.
    { intros E. rewrite <- between_empty in E; [congruence|apply Hsm|apply Hsa|congruence]. }
    assert (change m (MkEntry (delta_between m a) (label e) (group e)) a) as Hc.
    { split; [done|done|congruence|done|done]. }
    split; [|split; [stack_lia..| | |]; cbn [undo_of redo_of oldest_of]].
    2: by rewrite removelast_last.
    2: intros e'; rewrite last_snoc; by intros [= <-] _; eapply Hog.
    2: done.
    exists first. cbn [undo_of redo_of]. split_and!.
    + by eapply trail_snoc.
    + exists a. rewrite (Hog e Hlast Hopen). by constructor.
    + right. exists (removelast (undo_of k)), (MkEntry (delta_between m a) (label e) (group e)), m.
      split_and!; eauto.
Qed.

(** A commit that begins an action. *)
Lemma push_new_tracked k e b a : tracked k b → disciplined k → change b e a →
  tracked (push_new k e) a ∧ disciplined (push_new k e).
Proof.
  intros (first & Hu & (final & Hr) & _) [Hb1 Hb2 Hg Hog Hco] He.
  pose proof (seal_back_closed _ Hg) as Hc.
  assert (trail first (seal_back (undo_of k)) b) as Hs
    by by eapply trail_deltas; [symmetry; apply seal_back_deltas|].
  pose proof (length_seal_back (undo_of k)) as Hl. unfold push_new.
  assert (∃ f, trail b (rev (if bool_decide (group e = "") then [] else redo_of k)) f) as Hd.
  { case_bool_decide; [exists b; by constructor|by exists final]. }
  assert (trail a (rev []) a) as Ha by by constructor.
  destruct (_ <? _)%nat eqn:Hlong.
  - apply Nat.ltb_lt in Hlong. rewrite length_app in Hlong. cbn [length] in Hlong.
    destruct (seal_back (undo_of k)) as [|e0 rest]; [cbn in *; unfold kMaximumActions in *; lia|].
    cbn [app tail head]. inversion Hs as [|? ? m ? ? He0 Hrest]; subst.
    apply Forall_cons in Hc as [He0c Hc].
    split.
    + exists m. cbn [undo_of redo_of]. split_and!; [by eapply trail_snoc|by exists a|].
      unfold held. cbn [displaced_of oldest_of undo_of]. right. exists rest, e, b.
      split_and!; [done|done|done|done|].
      case_bool_decide; [done|]. intros o [= <-]. by exists first.
    + split; cbn [undo_of redo_of displaced_of oldest_of].
      * stack_lia.
      * assert (redo_of k = []) as -> by (apply nil_length_inv; cbn [length] in *; unfold kMaximumActions in *; lia).
        case_bool_decide; stack_lia.
      * by rewrite removelast_last.
      * done.
      * case_bool_decide; [done|]. by intros o [= <-].
  - apply Nat.ltb_ge in Hlong. rewrite length_app in Hlong. cbn [length] in Hlong. split.
    + exists first. cbn [undo_of redo_of]. split_and!; [by eapply trail_snoc|by exists a|].
      right. cbn [displaced_of oldest_of undo_of]. by exists (seal_back (undo_of k)), e, b.
    + split; cbn [undo_of redo_of displaced_of oldest_of].
      * stack_lia.
      * case_bool_decide; stack_lia.
      * by rewrite removelast_last.
      * done.
      * done.
Qed.

Lemma merge_target_spec k name e : merge_target k name = Some e →
  last (undo_of k) = Some e ∧ group e = name ∧ name ≠ "".
Proof.
  unfold merge_target. intros (e' & Hl & H)%bind_Some.
  repeat case_bool_decide; cbn in H; simplify_eq. done.
Qed.

(** A commit keeps the trail. *)
Lemma next_stacks_commit k b a name action : tracked k b → disciplined k →
  sound b → sound a → project_id b = project_id a →
  ∃ k', next_stacks k (delta_between b a) name action None = success k' ∧
    tracked k' a ∧ disciplined k'.
Proof.
  intros Hk Hd Hb Ha Hid. unfold next_stacks.
  pose proof (between_empty b a (sound_ready b Hb) (sound_ready a Ha) Hid) as Hempty.
  destruct (delta_empty (delta_between b a)).
  - exists k. split; [done|]. split; [|done]. by apply (tracked_same k b), Hempty.
  - destruct (merge_target k action) as [e|] eqn:Em.
    + apply merge_target_spec in Em as (Hl & Hg & Hn). apply merge_back_tracked; congruence.
    + eexists. split; [done|]. apply (push_new_tracked k _ b); [done..|]. split; try done.
      intros E. by apply Hempty in E.
Qed.

Lemma next_stacks_tracked k b a name action forward k' : tracked k b → disciplined k →
  sound b → sound a → project_id b = project_id a →
  next_stacks k (delta_between b a) name action forward = success k' →
  tracked k' a ∧ disciplined k'.
Proof.
  intros Hk Hd Hb Ha Hid Hn. destruct forward as [forward|].
  - by eapply move_back_tracked.
  - destruct (next_stacks_commit k b a name action) as (k'' & E & H); [done..|].
    rewrite Hn in E. injection E as <-. done.
Qed.

Lemma push_new_last k e : last (undo_of (push_new k e)) = Some e.
Proof.
  unfold push_new. destruct (_ <? _)%nat eqn:H; cbn [undo_of]; [|by rewrite last_snoc].
  apply Nat.ltb_lt in H. destruct (seal_back (undo_of k)) as [|x l]; cbn [app tail] in *;
    [cbn in H; unfold kMaximumActions in H; lia|by rewrite last_snoc].
Qed.

(** Dropping the entry of an action that came to nothing. *)
Lemma push_new_cancelled k e : group e ≠ "" →
  match oldest_of (push_new k e) with
  | Some oldest => MkStacks (oldest :: removelast (undo_of (push_new k e)))
                     (displaced_of (push_new k e)) [] None
  | None => MkStacks (removelast (undo_of (push_new k e))) (displaced_of (push_new k e)) [] None
  end = MkStacks (seal_back (undo_of k)) (redo_of k) [] None.
Proof.
  intros Hg. unfold push_new. rewrite bool_decide_eq_false_2 by done.
  destruct (_ <? _)%nat eqn:H; cbn [undo_of oldest_of displaced_of].
  - apply Nat.ltb_lt in H. destruct (seal_back (undo_of k)) as [|x l]; cbn [app tail head] in *;
      [cbn in H; unfold kMaximumActions in H; lia|by rewrite removelast_last].
  - by rewrite removelast_last.
Qed.

(** An Undo or a Redo of a content that was there. *)
Lemma move_back_undo k b a l e : undo_of k = l ++ [e] → sound b → sound a →
  change a e b →
  move_back k false (delta_between b a) =
    success (MkStacks l (redo_of k ++ [clear_group e]) [] None).
Proof.
  intros Hu Hb Ha [_ _ Hp Hd _]. unfold move_back. rewrite Hu, last_snoc, removelast_last.
  rewrite Hd, reverse_between by (apply Ha || apply Hb || done).
  by rewrite bool_decide_eq_true_2.
Qed.

Lemma move_back_redo k b a l e : redo_of k = l ++ [e] → change b e a →
  move_back k true (delta_between b a) =
    success (MkStacks (undo_of k ++ [clear_group e]) l [] None).
Proof.
  intros Hr [_ _ Hp Hd _]. unfold move_back. rewrite Hr, last_snoc, removelast_last.
  by rewrite Hd, bool_decide_eq_true_2.
Qed.
End tracking.

(** ** The history *)

Section histories.
Context `{JL : JsonLib}.

(** The history of the open bundle follows the Project: no commit is pending, and
    the recorded revision and fingerprint are the Project's. *)
Record live (h : AuthoringHistory) (path session : string) (st : ProjectState)
    (print : string) (k : stacks) (l : N) (s : State) : Prop := {
  live_fresh : map_Forall (λ l _, l < next_location h) (store h);
  live_opened : opened h path = Some (l, s);
  live_settled : pending_after h = None;
  live_matches : matches s st print = true;
  live_session : session_id s = session;
  live_enabled : disabled_reason s = "";
  live_stacks : stacks_of s = k
}.

Definition publish (h : AuthoringHistory) (p : Publication) : AuthoringHistory :=
  confirm (begin h p) p.

Lemma opened_spec h path l s : opened h path = Some (l, s) ↔
  state_ h = Some l ∧ store h !! l = Some s ∧ bundle s = lexically_normal path.
Proof.
  unfold opened. split.
  - intros H. apply bind_Some in H as (l' & Hl & H). apply bind_Some in H as (s' & Hs & H).
    case_bool_decide; simplify_eq. done.
  - intros (-> & Hs & Hb). cbn. rewrite Hs. cbn. by rewrite bool_decide_eq_true_2.
Qed.

Lemma matches_spec s st print : matches s st print = true ↔
  history_project s = project_id st ∧ history_revision s = revision st ∧ fingerprint s = print.
Proof. unfold matches. rewrite !andb_true_iff, !bool_decide_eq_true, N.eqb_eq. tauto. Qed.

Lemma reconcile_live h path session st print k l s : live h path session st print k l s →
  reconcile h path st print = h.
Proof.
  intros [_ Ho Hp Hm _ _ _]. unfold reconcile, settle. rewrite Ho, Hp.
  apply opened_spec in Ho as (Hs & Hl & _). unfold points_to_match, deref. rewrite Hs. cbn.
  by rewrite Hl, Hm.
Qed.

(** A prepared commit, published, is the new state of the history. *)
Lemma prepare_live h path session b a print print' name action forward k l s k' :
  live h path session b print k l s → project_id b = project_id a →
  authoring_difference b a = success (delta_between b a) →
  next_stacks k (delta_between b a) name action forward = success k' →
  ∃ h' p l' s', prepare h path b a print print' name action forward = (h', success p) ∧
    live (publish h' p) path session a print' k' l' s' ∧
    live h' path session b print k l s ∧ p = Some (Some l, Some l') ∧
    store h' !! l' = Some s' ∧ bundle s' = lexically_normal path.
Proof.
  intros Hl Hid Hd Hn. pose proof Hl as [Hf Ho Hp Hm Hse He Hk]. unfold prepare.
  rewrite (reconcile_live _ _ _ _ _ _ _ _ Hl), Ho, bool_decide_eq_true_2 by done. cbn [negb].
  rewrite Hd. cbn [mbind result_bind]. rewrite Hk, Hn. cbn [allocate].
  pose proof Ho as (Hs & Hlk & Hb)%opened_spec.
  assert (map_Forall (λ l' _, l' < next_location h + 1)
    (<[next_location h := with_stacks (at_commit s (revision a) print') k']> (store h))) as Hf'.
  { apply map_Forall_insert_2; [lia|]. eapply map_Forall_impl; [exact Hf|]. cbn. lia. }
  eexists _, _, (next_location h), (with_stacks (at_commit s (revision a) print') k').
  split; [done|]. split_and!.
  - split; try done.
    + apply opened_spec. split_and!; [done|apply lookup_insert_eq|done].
    + apply matches_spec in Hm as (Hpr & _ & _). apply matches_spec. cbn. split_and!; congruence.
    + by destruct k'.
  - split; try done. apply opened_spec. cbn [state_ store]. split_and!; [done| |done].
    rewrite lookup_insert_ne; [done|]. specialize (Hf _ _ Hlk). cbn in Hf. lia.
  - by rewrite Hs.
  - apply lookup_insert_eq.
  - done.
Qed.
End histories.
