(* ===== verification/HistoryEdits.v ===== *)
(** What a session's Undo and Redo promise.

    The theorems on the authoring history: commits and edits keep it in step with
    the Project, Undo and Redo restore contents, an action cancelled before it is
    closed leaves no trace, and what is read back after a commit decides between
    its two states. *)

From S2P Require Import Prelude Json Foundation Text Project Playback Fields Lineage Soundset Sequence Performance Commands Invariant CommandLaws PatternLaws Handler GridEdit Delta DeltaLaws DeltaEdits History HistoryLaws.

(** ** Lemmas *)

Section lemmas.
Context `{JL : JsonLib}.

Lemma start_live h path session st print :
  map_Forall (λ l _, l < next_location h) (store h) →
  ∃ s, live (start h path session st print) path session st print (MkStacks [] [] [] None)
         (next_location h) s.
Proof.
  intros Hf. exists (MkState (lexically_normal path) session (project_id st) (revision st) print
                       [] [] [] None ""). split; try done.
  - cbn. apply map_Forall_insert_2; [lia|]. eapply map_Forall_impl; [exact Hf|]. cbn. lia.
  - apply opened_spec. split_and!; [done|apply lookup_insert_eq|done].
  - by apply matches_spec.
Qed.

(** A bundle is known by its normal path. *)
Lemma live_path h path path' session st print k l s :
  lexically_normal path = lexically_normal path' →
  live h path session st print k l s → live h path' session st print k l s.
Proof.
  intros E [? Ho ? ? ? ? ?]. split; try done. unfold opened in *. by rewrite <- E.
Qed.

Lemma empty_tracked st : tracked (MkStacks [] [] [] None) st.
Proof. exists st. split_and!; [by constructor|exists st; by constructor|by left]. Qed.

Lemma empty_disciplined : disciplined (MkStacks [] [] [] None).
Proof. apply disciplined_closed; [cbn; lia..|constructor]. Qed.

Lemma sealed_tracked k st : tracked k st → disciplined k →
  tracked (MkStacks (seal_back (undo_of k)) (redo_of k) [] None) st ∧
  disciplined (MkStacks (seal_back (undo_of k)) (redo_of k) [] None).
Proof.
  intros (first & Hu & Hr & _) [Hb1 Hb2 Hg Ho _]. split.
  - exists first. cbn. split_and!; [|done|by left].
    eapply trail_deltas; [symmetry; apply seal_back_deltas|done].
  - apply disciplined_closed; [stack_lia..|]. by apply seal_back_closed.
Qed.

Lemma seal_live h path session st print k l s : live h path session st print k l s →
  ∃ s', live (seal_group h path) path session st print
    (MkStacks (seal_back (undo_of k)) (redo_of k) [] None) l s'.
Proof.
  intros [Hf Ho Hp Hm Hse He <-]. unfold seal_group. rewrite Ho, Hp. cbn [has_value].
  pose proof Ho as (Hs & Hlk & Hb)%opened_spec.
  exists (with_stacks s (MkStacks (seal_back (undo s)) (redo s) [] None)). split; try done.
  - cbn. apply map_Forall_insert_2; [|done]. by apply (Hf _ s).
  - apply opened_spec. split_and!; [done|apply lookup_insert_eq|done].
Qed.

(** What [prepare] does to a live history. *)
Lemma prepare_success h path session b a print print' name action forward k l s h' p :
  live h path session b print k l s → sound b → sound a →
  prepare h path b a print print' name action forward = (h', success p) →
  project_id b = project_id a ∧
  ∃ k', next_stacks k (delta_between b a) name action forward = success k'.
Proof.
  intros Hl Hb Ha H. pose proof Hl as [Hf Ho Hp Hm Hse He Hk]. unfold prepare in H.
  rewrite (reconcile_live _ _ _ _ _ _ _ _ Hl), Ho, bool_decide_eq_true_2 in H by done.
  cbn [negb] in H. destruct (decide (project_id b = project_id a)) as [Hid|Hid].
  - split; [done|]. rewrite (difference_between b a) in H by (apply Hb || apply Ha || done).
    cbn [mbind result_bind] in H. rewrite Hk in H.
    destruct (next_stacks k _ _ _ _) as [k'| |]; [by exists k'|done..].
  - unfold authoring_difference in H. rewrite bool_decide_eq_false_2 in H by done. done.
Qed.

Lemma selected_live h path session st print k l s forward : live h path session st print k l s →
  selected h path session forward =
    match last (if forward then redo_of k else undo_of k) with
    | None => unavailable "authoring_history_empty"
    | Some e => success (if forward then entry_delta e
                         else reverse_authoring_delta (entry_delta e))
    end.
Proof.
  intros [_ Ho Hp Hm Hse He <-]. unfold selected, status. rewrite Ho, Hp.
  pose proof Ho as (Hs & Hlk & _)%opened_spec.
  cbn [status_disabled status_session has_value]. rewrite He, Hse. cbn [negb bool_decide].
  rewrite (bool_decide_eq_true_2 (session = session)) by done. cbn [negb].
  unfold deref. rewrite Hs. cbn [mbind option_bind]. rewrite Hlk. cbn. by destruct forward.
Qed.

(** A selected delta, applied to the Project. *)
Lemma apply_step b a meta receipts : sound b → sound a → project_id b = project_id a →
  ¬ same_content b a → applicable b (MkApplyDelta meta (delta_between b a)) receipts →
  ∃ r, apply_authoring_delta b (MkApplyDelta meta (delta_between b a)) receipts = success r ∧
    same_content (applied_state r) a ∧ revision (applied_state r) = revision b + 1.
Proof.
  intros [Hb _] [Ha Hv] Hid Hne Hap.
  eexists. split; [by apply (apply_between b b a)|].
  cbn [applied_state]. split; [by apply committed_same|].
  pose proof (appl_room _ _ _ Hap) as Hr. unfold kRevisionMax in Hr. apply u64_add_small. u_lia.
Qed.

(** An open history after [invalidate]. *)
Lemma invalidate_opened h path reason l s : opened (invalidate h path reason) path = Some (l, s) →
  pending_after (invalidate h path reason) = None ∧ disabled_reason s = reason ∧
  stacks_of s = MkStacks [] [] [] None.
Proof.
  unfold invalidate. destruct (opened h path) as [[l0 s0]|] eqn:E; [|congruence].
  apply opened_spec in E as (Hs & Hl & Hb). intros (Hs' & Hl' & _)%opened_spec.
  cbn [pend write state_ store] in *. rewrite Hs in Hs'. injection Hs' as <-.
  rewrite lookup_insert_eq in Hl'. injection Hl' as <-. done.
Qed.

Lemma settle_settled h st print h1 : settle h st print = Some h1 → pending_after h1 = None.
Proof.
  unfold settle. intros H. destruct (pending_after h) eqn:E; [|congruence].
  repeat case_match; simplify_eq; done.
Qed.

Lemma reconcile_cases h path st print l s :
  opened (reconcile h path st print) path = Some (l, s) →
  pending_after (reconcile h path st print) = None ∧
  (matches s st print = true ∨
   (disabled_reason s = "authoring_history_invalidated" ∧ stacks_of s = MkStacks [] [] [] None)).
Proof.
  unfold reconcile. destruct (opened h path) as [[l0 s0]|] eqn:Eo; [|congruence].
  destruct (settle h st print) as [h1|] eqn:Es.
  - destruct (points_to_match h1 (state_ h1) st print) eqn:Em.
    + intros Ho. split; [by eapply settle_settled|]. left.
      apply opened_spec in Ho as (Hs & Hl & _). unfold points_to_match, deref in Em.
      rewrite Hs in Em. cbn in Em. by rewrite Hl in Em.
    + intros (? & ? & ?)%invalidate_opened. split; [done|]. by right.
  - intros (? & ? & ?)%invalidate_opened. split; [done|]. by right.
Qed.

(** A commit that is begun: reading the Project back decides it. *)
Lemma pending_decided h path session b a print print' k k' l l' s s' :
  revision a ≠ revision b → live h path session b print k l s →
  store h !! l' = Some s' → bundle s' = lexically_normal path →
  let p := Some (Some l, Some l') in
  live (publish h p) path session a print' k' l' s' →
  reconcile (begin h p) path a print' = publish h p ∧
  live (reconcile (begin h p) path b print) path session b print k l s.
Proof.
  intros Hne Hl Hs' Hb' p Hl'. pose proof Hl as [Hf Ho Hp Hm Hse He Hk].
  pose proof (live_matches _ _ _ _ _ _ _ _ Hl') as Hm'.
  pose proof Ho as (Hst & Hlk & Hb)%opened_spec.
  assert (opened (begin h p) path = Some (l, s)) as Hob by by apply opened_spec.
  assert (matches s' b print = false) as Hmb.
  { apply not_true_is_false. intros (_ & Hr & _)%matches_spec.
    apply matches_spec in Hm' as (_ & Hr' & _). congruence. }
  unfold reconcile. rewrite Hob. unfold settle, points_to_match, deref.
  cbn [begin p pend pending_after pending_before store mbind option_bind].
  rewrite Hs', Hm', Hmb, Hlk, Hm. cbn [has_value andb point state_ store pend mbind option_bind].
  rewrite Hs', Hm', Hlk, Hm. split; [done|]. split; try done.
  by apply opened_spec.
Qed.
End lemmas.

(** ** An example *)

Lemma example_sound : sound (JL := dom_lib) example_project.
Proof. apply project_sound, example_project_ok. Qed.

Lemma example_stored_sound : sound (JL := dom_lib) example_stored.
Proof. apply project_sound, example_stored_ok. Qed.

Lemma example_differ : ¬ same_content example_project example_stored.
Proof. intros []. done. Qed.

Definition example_history : AuthoringHistory :=
  start empty_history "projects/demo/" "session" example_project "print".

Lemma example_live : ∃ s, live example_history "projects/./demo/" "session"
  example_project "print" (MkStacks [] [] [] None) 0 s.
Proof.
  destruct (start_live empty_history "projects/demo/" "session" example_project "print") as [s Hs].
  { apply map_Forall_empty. }
  exists s. by apply (live_path _ "projects/demo/").
Qed.

(** A history with one Undo entry. *)
Lemma example_edited : ∃ h k l s,
  live h "projects/demo/" "session" example_stored "print2" k l s ∧
  tracked (JL := dom_lib) k example_stored ∧ undo_of k ≠ [].
Proof.
  destruct example_live as [s0 Hl].
  assert (change (JL := dom_lib) example_project
    (MkEntry (delta_between (JL := dom_lib) example_project example_stored) "edit" "")
    example_stored) as Hc.
  { split; [apply example_sound|apply example_stored_sound|done|done|apply example_differ]. }
  destruct (prepare_live (JL := dom_lib) _ _ _ example_project example_stored "print" "print2" "edit" "" None _ _ _
    (push_new (MkStacks [] [] [] None)
      (MkEntry (delta_between (JL := dom_lib) example_project example_stored) "edit" "")) Hl)
    as (h' & p & l' & s' & _ & Hl' & _); [done|apply example_difference|reflexivity|].
  eexists _, _, l', s'. split; [by apply (live_path _ "projects/./demo/")|]. split; [|done].
  apply (push_new_tracked (JL := dom_lib) _ _ example_project); [apply empty_tracked|apply empty_disciplined|done].
Qed.

(** ** Properties *)

(** C28: the history follows the Project.  Whatever a live history holds leads from
    an earlier content to the current one (Undo) and on to a later one (Redo), in
    at most 100 actions: opening a session starts such a history; any commit of
    the Project is accepted and keeps it; an accepted Undo or Redo keeps it; so
    does closing the current action. *)
Theorem history_tracks_project `{JL : JsonLib} h path session b a print print' name action k l s
    (Hl : live h path session b print k l s) (Hk : tracked k b) (Hd : disciplined k)
    (Hb : sound b) (Ha : sound a) (Hid : project_id b = project_id a) :
  let follows h st print := ∃ k l s, live h path session st print k l s ∧
                                     tracked k st ∧ disciplined k in
  (∀ st print, follows (start h path session st print) st print) ∧
  (∃ h' p, prepare h path b a print print' name action None = (h', success p) ∧
           follows (publish h' p) a print') ∧
  (∀ forward h' p, prepare h path b a print print' name action (Some forward) = (h', success p) →
     follows (publish h' p) a print') ∧
  follows (seal_group h path) b print.
Proof.
  cbn zeta. split_and!.
  - intros st print0. destruct (start_live h path session st print0) as [s' Hs].
    { apply (live_fresh _ _ _ _ _ _ _ _ Hl). }
    eexists _, _, s'. split_and!; [exact Hs|apply empty_tracked|apply empty_disciplined].
  - destruct (next_stacks_commit k b a name action) as (k' & Hn & Hk' & Hd'); [done..|].
    destruct (prepare_live h path session b a print print' name action None k l s k')
      as (h' & p & l' & s' & Hp & Hlive & _); [done|done| |done|].
    { by apply difference_between; [apply Hb|apply Ha|]. }
    exists h', p. split; [done|]. by exists k', l', s'.
  - intros forward h' p Hp. destruct (prepare_success _ _ _ _ _ _ _ _ _ _ _ _ _ _ _ Hl Hb Ha Hp)
      as (_ & k' & Hn).
    destruct (prepare_live h path session b a print print' name action (Some forward) k l s k')
      as (h'' & p' & l' & s' & Hp' & Hlive & _); [done|done| |done|].
    { by apply difference_between; [apply Hb|apply Ha|]. }
    rewrite Hp in Hp'. injection Hp' as -> ->. exists k', l', s'. split; [done|].
    by eapply next_stacks_tracked.
  - destruct (seal_live _ _ _ _ _ _ _ _ Hl) as [s' Hs]. eexists _, l, s'. split; [exact Hs|].
    by apply sealed_tracked.
Qed.

Lemma history_tracks_project_witness :
  ∃ h' p k l s, prepare (JL := dom_lib) example_history "projects/demo/" example_project
      example_stored "print" "print2" "edit" "" None = (h', success p) ∧
    live (publish h' p) "projects/demo/" "session" example_stored "print2" k l s ∧
    tracked (JL := dom_lib) k example_stored.
Proof.
  destruct example_live as [s0 Hl]. apply (live_path _ _ "projects/demo/") in Hl; [|done].
  destruct (history_tracks_project (JL := dom_lib) _ _ _ example_project example_stored
    "print" "print2" "edit" "" _ _ _ Hl (empty_tracked _) empty_disciplined example_sound
    example_stored_sound eq_refl) as (_ & (h' & p & Hp & k & l & s & Hf & Hk & _) & _).
  exists h', p, k, l, s. split_and!; [exact Hp|exact Hf|exact Hk].
Defined.



(** An action that is cancelled leaves no trace.  A first commit of a new
    action displaces the Redo branch, and the oldest entry when there are already
    100; when a later commit of the same action brings the content back, the
    Undo and Redo entries are those before the action, with no action left open. *)
Theorem history_group_cancelled `{JL : JsonLib} h path session b a b' print print1 print2
    name action k l s
    (Hl : live h path session b print k l s)
    (Hb : sound b) (Ha : sound a) (Hid : project_id b = project_id a)
    (Hne : ¬ same_content b a) (Hback : same_content b b')
    (Hact : action ≠ "") (Hnew : merge_target k action = None) :
  ∃ h1 p1 h2 p2 l2 s2,
    prepare h path b a print print1 name action None = (h1, success p1) ∧
    prepare (publish h1 p1) path a b' print1 print2 name action None = (h2, success p2) ∧
    live (publish h2 p2) path session b' print2
      (MkStacks (seal_back (undo_of k)) (redo_of k) [] None) l2 s2.
Proof.
  assert (sound b') as Hb' by by rewrite <- Hback.
  assert (project_id a = project_id b') as Hid' by by rewrite <- Hid, (same_id _ _ Hback).
  set (e := MkEntry (delta_between b a) name action).
  assert (next_stacks k (delta_between b a) name action None = success (push_new k e)) as Hn.
  { unfold next_stacks. rewrite Hnew. destruct (delta_empty _) eqn:E; [|done].
    apply between_empty in E; [done|apply Hb|apply Ha|done]. }
  destruct (prepare_live h path session b a print print1 name action None k l s
    (push_new k e) Hl Hid)
    as (h1 & p1 & l1 & s1 & Hp1 & Hlive1 & _); [|exact Hn|].
  { by apply difference_between; [apply Hb|apply Ha|]. }
  assert (last (undo_of (push_new k e)) = Some e) as Hlast by by apply push_new_last.
  assert (next_stacks (push_new k e) (delta_between a b') name action None =
    success (MkStacks (seal_back (undo_of k)) (redo_of k) [] None)) as Hn2.
  { unfold next_stacks.
    destruct (delta_empty (delta_between a b')) eqn:Ee.
    { apply between_empty in Ee; [|apply Ha|apply Hb'|done]. destruct Hne.
      by rewrite Hback, Ee. }
    assert (merge_target (push_new k e) action = Some e) as ->.
    { unfold merge_target. rewrite Hlast. cbn.
      by rewrite bool_decide_eq_false_2, bool_decide_eq_true_2. }
    unfold merge_back. cbn [entry_delta e].
    rewrite (compose_between b a b') by (apply Hb || apply Ha || apply Hb' || done).
    cbn [mbind result_bind].
    rewrite (proj2 (between_empty b b' (sound_ready _ Hb) (sound_ready _ Hb')
      (eq_trans Hid Hid')) Hback). by rewrite push_new_cancelled. }
  destruct (prepare_live (publish h1 p1) path session a b' print1 print2 name action None
    (push_new k e) l1 s1 (MkStacks (seal_back (undo_of k)) (redo_of k) [] None) Hlive1 Hid') as (h2 & p2 & l2 & s2 & Hp2 & Hlive2 & _); [|exact Hn2|].
  { by apply difference_between; [apply Ha|apply Hb'|]. }
  by exists h1, p1, h2, p2, l2, s2.
Qed.

Lemma history_group_cancelled_witness :
  ∃ h l s, live h "projects/./demo/" "session" example_project "print3"
    (MkStacks [] [] [] None) l s.
Proof.
  destruct example_live as [s0 Hl].
  destruct (history_group_cancelled (JL := dom_lib) _ _ _ example_project example_stored
    example_project "print" "print2" "print3" "draft" "draft:1" _ _ _ Hl example_sound
    example_stored_sound eq_refl example_differ (reflexivity _) ltac:(done) eq_refl)
    as (_ & _ & h2 & p2 & l2 & s2 & _ & _ & H).
  exists (publish h2 p2), l2, s2. exact H.
Defined.

(** What is read back decides.  After [reconcile] an open history either
    follows the Project or is disabled and holds nothing; a commit that was begun
    and never confirmed is kept when the Project has its result, and dropped, with
    the stacks as they were, when the Project is still the old one. *)
Theorem history_reconciles `{JL : JsonLib} h path st print :
  (∀ l s, opened (reconcile h path st print) path = Some (l, s) →
     pending_after (reconcile h path st print) = None ∧
     (matches s st print = true ∨
      (disabled_reason s = "authoring_history_invalidated" ∧
       stacks_of s = MkStacks [] [] [] None))) ∧
  (∀ session a print' name action forward k l s h' p,
     live h path session st print k l s → sound st → sound a → revision a ≠ revision st →
     prepare h path st a print print' name action forward = (h', success p) →
     reconcile (begin h' p) path a print' = publish h' p ∧
     live (reconcile (begin h' p) path st print) path session st print k l s).
Proof.
  split.
  - intros l s Ho. apply reconcile_cases in Ho as (Hp & H). by split.
  - intros session a print' name action forward k l s h' p Hl Hst Ha Hne Hp.
    destruct (prepare_success _ _ _ _ _ _ _ _ _ _ _ _ _ _ _ Hl Hst Ha Hp) as (Hid & k' & Hn).
    destruct (prepare_live h path session st a print print' name action forward k l s k')
      as (h'' & p' & l' & s' & Hp' & Hlive' & Hlive & -> & Hl' & Hb'); [done|done| |done|].
    { by apply difference_between; [apply Hst|apply Ha|]. }
    rewrite Hp in Hp'. injection Hp' as -> ->.
    by apply (pending_decided h'' path session st a print print' k k' l l' s s').
Qed.

Lemma history_reconciles_witness :
  ∃ h' p, prepare (JL := dom_lib) example_history "projects/./demo/" example_project
      (committed_content example_project example_stored) "print" "print2" "edit" "" None =
      (h', success p) ∧
    reconcile (begin h' p) "projects/./demo/" (committed_content example_project example_stored)
      "print2" = publish h' p.
Proof.
  destruct example_live as [s0 Hl].
  assert (same_content (committed_content example_project example_stored) example_stored) as Hs
    by by split.
  assert (sound (JL := dom_lib) (committed_content example_project example_stored)) as Ha
    by by apply (sound_proper _ _ Hs), example_stored_sound.
  destruct (next_stacks_commit (JL := dom_lib) (MkStacks [] [] [] None) example_project
    (committed_content example_project example_stored) "edit" "" (empty_tracked _)
    empty_disciplined example_sound Ha eq_refl) as (k' & Hn & _).
  destruct (prepare_live (JL := dom_lib) _ _ _ example_project
    (committed_content example_project example_stored) _ "print2" _ _ _ _ _ _ _ Hl eq_refl
    (difference_between (JL := dom_lib) _ _ (sound_ready _ example_sound) (sound_ready _ Ha)
       eq_refl) Hn) as (h' & p & _ & _ & Hp & _).
  exists h', p. split; [exact Hp|].
  apply (history_reconciles (JL := dom_lib) example_history "projects/./demo/" example_project
    "print" ) with (1 := Hl) (2 := example_sound) (3 := Ha) (5 := Hp). done.
Defined.
