(* ===== verification/PerformanceCodec.v ===== *)
(** The JSON form of Performance events and of the initial live state.

    Models the encoders and decoders at the end of
    packages/authoring-domain/src/project.cpp.  A decoder runs under a catch-all
    handler, so its body is a [Result] whose exceptions become a refusal. *)

From S2P Require Import Prelude Json Foundation Text Project Fields Performance.

(** ** Names of enumerators *)

Definition filter_type_from_string (value : string) : option PerformanceFilterType :=
  if String.eqb value "lp" then Some PerformanceFilterType.lp
  else if String.eqb value "hp" then Some PerformanceFilterType.hp
  else if String.eqb value "bp" then Some PerformanceFilterType.bp
  else None.

Definition filter_type_string (type : PerformanceFilterType) : string :=
  match type with
  | PerformanceFilterType.lp => "lp"
  | PerformanceFilterType.hp => "hp"
  | PerformanceFilterType.bp => "bp"
  end.

Definition filter_phase_from_string (value : string) : option PerformanceFilterPhase :=
  if String.eqb value "engage" then Some PerformanceFilterPhase.engage
  else if String.eqb value "move" then Some PerformanceFilterPhase.move
  else if String.eqb value "release" then Some PerformanceFilterPhase.release
  else None.

Definition filter_phase_string (phase : PerformanceFilterPhase) : string :=
  match phase with
  | PerformanceFilterPhase.engage => "engage"
  | PerformanceFilterPhase.move => "move"
  | PerformanceFilterPhase.release => "release"
  end.

(** [static_cast<PerformanceFx>(value)] of a value that was checked to be below 8. *)
Definition fx_of_ordinal (n : N) : PerformanceFx :=
  match n with
  | 0 => PerformanceFx.filter
  | 1 => PerformanceFx.delay
  | 2 => PerformanceFx.reverb
  | 3 => PerformanceFx.stutter
  | 4 => PerformanceFx.gate
  | 5 => PerformanceFx.reverse
  | 6 => PerformanceFx.crush
  | _ => PerformanceFx.cutter
  end.

Section codec.
Context `{JL : JsonLib}.

Definition invalid_event {A} (m : string) : Result A :=
  failure (plain_error invalid_argument m).

(** ** Events *)

(** The numbers read from members: [None] is the source's [nullopt]. *)
Definition unsigned_at (input : json) (key : string) : Result (option N) :=
  v ← at_key input key; success (unsigned_value v).
Definition bounded_at (input : json) (key : string) (maximum : N) : Result (option N) :=
  v ← at_key input key; success (bounded_unsigned v maximum).
Definition sequence_at (input : json) (key : string) : Result (option N) :=
  v ← at_key input key; success (parse_input_sequence v).
Definition mask_at (input : json) (key : string) : Result (option N) :=
  v ← at_key input key; success (slot_mask_from_json v).

(** [input.at(key).is_string() ? from_string(input.at(key).get<std::string>()) : nullopt]. *)
Definition named_at {A} (input : json) (key : string) (from_string : string → option A) :
    Result (option A) :=
  b ← test_at input key is_string;
  if b : bool then s ← string_at input key; success (from_string s) else success None.

Definition optional_sequence (input : json) : Result (option (option N)) :=
  if negb (j_contains input "input_sequence") then success (Some None)
  else
    parsed ← sequence_at input "input_sequence";
    success (match parsed with Some n => Some (Some n) | None => None end).

(** The exact members of a legacy kind, with or without the input sequence. *)
Definition legacy_shape (input : json) (keys : list string) : bool :=
  exact_object_keys input keys || exact_object_keys input (keys ++ ["input_sequence"]).

Definition shape_invalid {A} : Result A :=
  invalid_event "performance event shape or value is invalid".

Definition decode_pad_hit (input : json) : Result PerformanceEvent :=
  s ← bounded_at input "slot" kPerformancePadSlotMax;
  onset ← unsigned_at input "onset_tick";
  duration ← unsigned_at input "duration_tick";
  v ← bounded_at input "velocity" 127;
  sequence ← optional_sequence input;
  match s, onset, duration, v, sequence with
  | Some s, Some onset, Some duration, Some v, Some sequence =>
      if (0 <? duration) && (0 <? v) then
        success (MkPerformanceEvent
                   (PadHitPerformanceEvent (wrap 8 s) onset duration (wrap 8 v)) sequence)
      else shape_invalid
  | _, _, _, _, _ => shape_invalid
  end.

Definition decode_pattern_launch (input : json) : Result PerformanceEvent :=
  s ← bounded_at input "pattern_slot" kPatternSlotMax;
  tick ← unsigned_at input "effective_tick";
  sequence ← optional_sequence input;
  match s, tick, sequence with
  | Some s, Some tick, Some sequence =>
      success (MkPerformanceEvent (PatternLaunchPerformanceEvent (wrap 8 s) tick) sequence)
  | _, _, _ => shape_invalid
  end.

Definition decode_fx (input : json) (engage : bool) : Result PerformanceEvent :=
  fx ← bounded_at input "fx" (kFxCount - 1);
  v ← bounded_at input "value" kFxValueMax;
  tick ← unsigned_at input "tick";
  sequence ← optional_sequence input;
  match fx, v, tick, sequence with
  | Some fx, Some v, Some tick, Some sequence =>
      success (MkPerformanceEvent
        (if engage then FxEngagePerformanceEvent (fx_of_ordinal fx) (wrap 16 v) tick
         else FxMovePerformanceEvent (fx_of_ordinal fx) (wrap 16 v) tick) sequence)
  | _, _, _, _ => shape_invalid
  end.

Definition decode_fx_release (input : json) : Result PerformanceEvent :=
  fx ← bounded_at input "fx" (kFxCount - 1);
  tick ← unsigned_at input "tick";
  sequence ← optional_sequence input;
  match fx, tick, sequence with
  | Some fx, Some tick, Some sequence =>
      success (MkPerformanceEvent (FxReleasePerformanceEvent (fx_of_ordinal fx) tick) sequence)
  | _, _, _ => shape_invalid
  end.

Definition decode_hold (input : json) (on : bool) : Result PerformanceEvent :=
  tick ← unsigned_at input "tick";
  sequence ← optional_sequence input;
  match tick, sequence with
  | Some tick, Some sequence =>
      success (MkPerformanceEvent
        (if on then HoldOnPerformanceEvent tick else HoldOffPerformanceEvent tick) sequence)
  | _, _ => shape_invalid
  end.

Definition decode_filter_change (input : json) : Result PerformanceEvent :=
  tick ← unsigned_at input "tick";
  sequence ← sequence_at input "input_sequence";
  cutoff ← bounded_at input "cutoff_hz" kFilterCutoffHzMax;
  resonance ← bounded_at input "resonance_milli" kFilterResonanceMilliMax;
  type ← named_at input "type" filter_type_from_string;
  phase ← named_at input "phase" filter_phase_from_string;
  match tick, sequence, cutoff, resonance, type, phase with
  | Some tick, Some sequence, Some cutoff, Some resonance, Some type, Some phase =>
      if kFilterCutoffHzMin <=? cutoff then
        success (MkPerformanceEvent
          (FilterChangePerformanceEvent phase type (wrap 16 cutoff) (wrap 16 resonance) tick)
          (Some sequence))
      else shape_invalid
  | _, _, _, _, _, _ => shape_invalid
  end.

Definition decode_pad_gates (input : json) : Result PerformanceEvent :=
  tick ← unsigned_at input "tick";
  sequence ← sequence_at input "input_sequence";
  muted ← mask_at input "muted_slots";
  solo ← mask_at input "solo_slots";
  match tick, sequence, muted, solo with
  | Some tick, Some sequence, Some muted, Some solo =>
      success (MkPerformanceEvent (PadGatesSetPerformanceEvent muted solo tick) (Some sequence))
  | _, _, _, _ => shape_invalid
  end.

(** The branch of a kind. *)
Definition decode_kind (input : json) (kind : string) : Result PerformanceEvent :=
  if String.eqb kind "pad_hit" &&
     legacy_shape input ["kind"; "slot"; "onset_tick"; "duration_tick"; "velocity"] then
    decode_pad_hit input
  else if String.eqb kind "pattern_launch" &&
          legacy_shape input ["kind"; "pattern_slot"; "effective_tick"] then
    decode_pattern_launch input
  else if (String.eqb kind "fx_engage" || String.eqb kind "fx_move") &&
          legacy_shape input ["kind"; "fx"; "value"; "tick"] then
    decode_fx input (String.eqb kind "fx_engage")
  else if String.eqb kind "fx_release" && legacy_shape input ["kind"; "fx"; "tick"] then
    decode_fx_release input
  else if (String.eqb kind "hold_on" || String.eqb kind "hold_off") &&
          legacy_shape input ["kind"; "tick"] then
    decode_hold input (String.eqb kind "hold_on")
  else if String.eqb kind "filter_change" &&
          exact_object_keys input ["kind"; "tick"; "input_sequence"; "phase"; "type";
                                   "cutoff_hz"; "resonance_milli"] then
    decode_filter_change input
  else if String.eqb kind "pad_gates_set" &&
          exact_object_keys input ["kind"; "tick"; "input_sequence"; "muted_slots";
                                   "solo_slots"] then
    decode_pad_gates input
  else shape_invalid.

Definition decode_event (input : json) : Result PerformanceEvent :=
  no_kind ← or_else (success (negb (is_object input)))
    (or_else (success (negb (j_contains input "kind")))
             (b ← test_at input "kind" is_string; success (negb b)));
  if no_kind : bool then invalid_event "performance event must declare a supported kind"
  else kind ← string_at input "kind"; decode_kind input kind.

Definition performance_event_from_json (input : json) : Result PerformanceEvent :=
  catching shape_invalid (decode_event input).

(** The members of an event, without the input sequence. *)
Definition payload_members (p : PerformanceEventPayload) : list (string * json) :=
  match p with
  | PadHitPerformanceEvent s onset duration v =>
      [("duration_tick", j_uint duration); ("kind", j_string "pad_hit");
       ("onset_tick", j_uint onset); ("slot", j_uint s); ("velocity", j_uint v)]
  | PatternLaunchPerformanceEvent s tick =>
      [("effective_tick", j_uint tick); ("kind", j_string "pattern_launch");
       ("pattern_slot", j_uint s)]
  | FxEngagePerformanceEvent fx v tick =>
      [("fx", j_uint (fx_ordinal fx)); ("kind", j_string "fx_engage"); ("tick", j_uint tick);
       ("value", j_uint v)]
  | FxMovePerformanceEvent fx v tick =>
      [("fx", j_uint (fx_ordinal fx)); ("kind", j_string "fx_move"); ("tick", j_uint tick);
       ("value", j_uint v)]
  | FxReleasePerformanceEvent fx tick =>
      [("fx", j_uint (fx_ordinal fx)); ("kind", j_string "fx_release"); ("tick", j_uint tick)]
  | HoldOnPerformanceEvent tick => [("kind", j_string "hold_on"); ("tick", j_uint tick)]
  | HoldOffPerformanceEvent tick => [("kind", j_string "hold_off"); ("tick", j_uint tick)]
  | FilterChangePerformanceEvent phase type cutoff resonance tick =>
      [("cutoff_hz", j_uint cutoff); ("kind", j_string "filter_change");
       ("phase", j_string (filter_phase_string phase)); ("resonance_milli", j_uint resonance);
       ("tick", j_uint tick); ("type", j_string (filter_type_string type))]
  | PadGatesSetPerformanceEvent muted solo tick =>
      [("kind", j_string "pad_gates_set"); ("muted_slots", slot_mask_json muted);
       ("solo_slots", slot_mask_json solo); ("tick", j_uint tick)]
  end.

Definition performance_event_json (e : PerformanceEvent) : json :=
  let encoded := j_object (payload_members (payload e)) in
  match input_sequence e with
  | Some n => j_set encoded "input_sequence" (j_string (to_string n))
  | None => j_erase encoded "input_sequence"
  end.

(** ** The initial live state *)

Definition kLiveGateFxNames : list string :=
  ["delay"; "reverb"; "stutter"; "gate"; "reverse"; "crush"; "cutter"].

Definition gate_state_from_json (input : json) : Result PerformanceFxGateState :=
  let refused := invalid_event "live FX gate state shape is invalid" in
  bad ← or_else (success (negb (exact_object_keys input ["engaged"; "frozen"; "value"])))
    (or_else (b ← test_at input "engaged" is_boolean; success (negb b))
             (b ← test_at input "frozen" is_boolean; success (negb b)));
  if bad : bool then refused
  else
    v ← bounded_at input "value" kFxValueMax;
    match v with
    | None => refused
    | Some v =>
        e ← bool_at input "engaged"; f ← bool_at input "frozen";
        success (MkFxGate e f (wrap 16 v))
    end.

Definition gate_state_json (g : PerformanceFxGateState) : json :=
  j_object [("engaged", j_bool (gate_engaged g)); ("frozen", j_bool (gate_frozen g));
            ("value", j_uint (gate_value g))].

Definition filter_invalid {A} : Result A :=
  invalid_event "performance initial live Filter shape is invalid".

Definition decode_legacy_filter (filter : json) : Result PerformanceFilterLiveState :=
  bad ← or_else
    (success (negb (exact_object_keys filter ["mode"; "engaged"; "frozen"; "value"])))
    (or_else (b ← test_at filter "engaged" is_boolean; success (negb b))
             (b ← test_at filter "frozen" is_boolean; success (negb b)));
  if bad : bool then filter_invalid
  else
    v ← bounded_at filter "value" kFxValueMax;
    match v with
    | None => filter_invalid
    | Some v =>
        e ← bool_at filter "engaged"; f ← bool_at filter "frozen";
        success (legacy_filter (MkLegacyFilter e f (wrap 16 v)))
    end.

Definition decode_independent_filter (filter : json) : Result PerformanceFilterLiveState :=
  bad ← or_else
    (success (negb (exact_object_keys filter
                      ["mode"; "engaged"; "frozen"; "type"; "cutoff_hz"; "resonance_milli"])))
    (or_else (b ← test_at filter "engaged" is_boolean; success (negb b))
    (or_else (b ← test_at filter "frozen" is_boolean; success (negb b))
             (b ← test_at filter "type" is_string; success (negb b))));
  if bad : bool then filter_invalid
  else
    name ← string_at filter "type";
    cutoff ← bounded_at filter "cutoff_hz" kFilterCutoffHzMax;
    resonance ← bounded_at filter "resonance_milli" kFilterResonanceMilliMax;
    match filter_type_from_string name, cutoff, resonance with
    | Some type, Some cutoff, Some resonance =>
        if cutoff <? kFilterCutoffHzMin then filter_invalid
        else
          e ← bool_at filter "engaged"; f ← bool_at filter "frozen";
          success (independent_filter
                     (MkIndependentFilter e f type (wrap 16 cutoff) (wrap 16 resonance)))
    | _, _, _ => filter_invalid
    end.

Definition decode_filter (filter : json) : Result PerformanceFilterLiveState :=
  bad ← or_else (success (negb (is_object filter)))
    (or_else (success (negb (j_contains filter "mode")))
             (b ← test_at filter "mode" is_string; success (negb b)));
  if bad : bool then filter_invalid
  else
    mode ← string_at filter "mode";
    if String.eqb mode "legacy" then decode_legacy_filter filter
    else if String.eqb mode "independent" then decode_independent_filter filter
    else filter_invalid.

(** One iteration over the gate names; the array is filled in order. *)
Definition decode_gate (other : json) (gates : list PerformanceFxGateState) (name : string) :
    Result (list PerformanceFxGateState) :=
  if negb (j_contains other name) then
    invalid_event "performance initial live state other_fx is invalid"
  else
    v ← at_key other name;
    g ← gate_state_from_json v;
    success (gates ++ [g]).

Definition decode_other_fx (other : json) : Result (list PerformanceFxGateState) :=
  if negb (is_object other) || negb (Nat.eqb (j_size other) (length kLiveGateFxNames)) then
    invalid_event "performance initial live state other_fx is invalid"
  else fold_result (decode_gate other) [] kLiveGateFxNames.

Definition decode_live_state (input : json) : Result PerformanceInitialLiveState :=
  bad ← or_else (success (negb (exact_object_keys input
                    ["hold"; "filter"; "other_fx"; "muted_slots"; "solo_slots"])))
    (b ← test_at input "hold" is_boolean; success (negb b));
  if bad : bool then invalid_event "performance initial live state shape is invalid"
  else
    held ← bool_at input "hold";
    f ← at_key input "filter";
    filter ← decode_filter f;
    o ← at_key input "other_fx";
    gates ← decode_other_fx o;
    muted ← mask_at input "muted_slots";
    solo ← mask_at input "solo_slots";
    match muted, solo with
    | Some muted, Some solo => success (MkInitialLiveState held filter gates muted solo)
    | _, _ => invalid_event "performance initial live state slot masks are invalid"
    end.

Definition performance_initial_live_state_from_json (input : json) :
    Result PerformanceInitialLiveState :=
  catching (invalid_event "performance initial live state shape is invalid")
    (decode_live_state input).

Definition live_filter_json (f : PerformanceFilterLiveState) : json :=
  match f with
  | legacy_filter l =>
      j_object [("engaged", j_bool (legacy_engaged l)); ("frozen", j_bool (legacy_frozen l));
                ("mode", j_string "legacy"); ("value", j_uint (legacy_value l))]
  | independent_filter i =>
      j_object [("cutoff_hz", j_uint (independent_cutoff_hz i));
                ("engaged", j_bool (independent_engaged i));
                ("frozen", j_bool (independent_frozen i)); ("mode", j_string "independent");
                ("resonance_milli", j_uint (independent_resonance_milli i));
                ("type", j_string (filter_type_string (independent_type i)))]
  end.

Definition other_fx_json (gates : list PerformanceFxGateState) : json :=
  foldl (λ encoded ng, j_set encoded ng.1 (gate_state_json ng.2)) (j_object [])
    (zip kLiveGateFxNames gates).

Definition performance_initial_live_state_json (s : PerformanceInitialLiveState) : json :=
  j_object [("filter", live_filter_json (live_filter s)); ("hold", j_bool (hold s));
            ("muted_slots", slot_mask_json (muted_mask s));
            ("other_fx", other_fx_json (other_fx s));
            ("solo_slots", slot_mask_json (solo_mask s))].
End codec.

(** ** Reading what was written *)

(** The numbers of an event fit the width of their fields. *)
Definition payload_width (p : PerformanceEventPayload) : Prop :=
  match p with
  | PadHitPerformanceEvent _ onset duration _ => onset < 2 ^ 64 ∧ duration < 2 ^ 64
  | PatternLaunchPerformanceEvent _ tick | FxEngagePerformanceEvent _ _ tick
  | FxMovePerformanceEvent _ _ tick | FxReleasePerformanceEvent _ tick
  | HoldOnPerformanceEvent tick | HoldOffPerformanceEvent tick
  | FilterChangePerformanceEvent _ _ _ _ tick => tick < 2 ^ 64
  | PadGatesSetPerformanceEvent muted solo tick =>
      muted < 2 ^ 64 ∧ solo < 2 ^ 64 ∧ tick < 2 ^ 64
  end.

Record event_width (e : PerformanceEvent) : Prop := {
  width_payload : payload_width (payload e);
  width_sequence : ∀ n, input_sequence e = Some n → n < 2 ^ 64
}.

(** The ranges the decoder requires. *)
Definition payload_range (p : PerformanceEventPayload) : Prop :=
  match p with
  | PadHitPerformanceEvent s _ duration v => s ≤ 63 ∧ 0 < duration ∧ 0 < v ≤ 127
  | PatternLaunchPerformanceEvent s _ => s ≤ 15
  | FxEngagePerformanceEvent _ v _ | FxMovePerformanceEvent _ v _ => v ≤ 1000
  | FilterChangePerformanceEvent _ _ cutoff resonance _ => 20 ≤ cutoff ≤ 20000 ∧ resonance ≤ 1000
  | _ => True
  end.

Definition needs_sequence (p : PerformanceEventPayload) : bool :=
  match p with
  | FilterChangePerformanceEvent _ _ _ _ _ | PadGatesSetPerformanceEvent _ _ _ => true
  | _ => false
  end.

Lemma fx_of_ordinal_spec fx : fx_of_ordinal (fx_ordinal fx) = fx.
Proof. by destruct fx. Qed.

Lemma fx_ordinal_small fx : fx_ordinal fx ≤ 7.
Proof. by destruct fx. Qed.

Lemma filter_type_string_spec t : filter_type_from_string (filter_type_string t) = Some t.
Proof. by destruct t. Qed.

Lemma filter_phase_string_spec p : filter_phase_from_string (filter_phase_string p) = Some p.
Proof. by destruct p. Qed.

Section codec_lemmas.
Context `{JL : JsonLib} `{!JsonLaws JL}.

Lemma unsigned_at_fields j l k n : fields j l → assoc k l = Some (j_uint n) → n < 2 ^ 64 →
  unsigned_at j k = success (Some n).
Proof.
  intros H E Hn. unfold unsigned_at. rewrite (at_key_fields _ _ _ _ H E). cbn [mbind result_bind].
  by rewrite unsigned_uint.
Qed.

Lemma bounded_at_fields j l k n m : fields j l → assoc k l = Some (j_uint n) → n ≤ m →
  m < 2 ^ 64 → bounded_at j k m = success (Some n).
Proof.
  intros H E Hn Hm. unfold bounded_at. rewrite (at_key_fields _ _ _ _ H E). cbn [mbind result_bind].
  rewrite bounded_uint; [done..| |done]. lia.
Qed.

Lemma mask_at_fields j l k m : fields j l → assoc k l = Some (slot_mask_json m) → m < 2 ^ 64 →
  mask_at j k = success (Some m).
Proof.
  intros H E Hm. unfold mask_at. rewrite (at_key_fields _ _ _ _ H E). cbn [mbind result_bind].
  by rewrite slot_mask_roundtrip_lemma.
Qed.

Lemma named_at_fields {A} j l k s (f : string → option A) : fields j l →
  assoc k l = Some (j_string s) → named_at j k f = success (f s).
Proof.
  intros H E. unfold named_at. rewrite (test_at_fields _ _ _ _ _ H E). cbn.
  rewrite string_is_string. by rewrite (string_at_fields _ _ _ _ _ H E).
Qed.

Definition sequence_member (seq : option N) : option json :=
  n ← seq; Some (j_string (to_string n)).

Lemma sequence_at_fields j l n : fields j l →
  assoc "input_sequence" l = Some (j_string (to_string n)) → 0 < n < 2 ^ 64 →
  sequence_at j "input_sequence" = success (Some n).
Proof.
  intros H E [H0 Hn]. unfold sequence_at. rewrite (at_key_fields _ _ _ _ H E). cbn [mbind result_bind].
  by rewrite parse_sequence_string.
Qed.

Lemma optional_sequence_fields j l seq : fields j l →
  assoc "input_sequence" l = sequence_member seq →
  (∀ n, seq = Some n → 0 < n < 2 ^ 64) →
  optional_sequence j = success (Some seq).
Proof.
  intros H E Hn. unfold optional_sequence. rewrite (fields_contains _ _ H), E.
  destruct seq as [n|]; [|done]. cbn [sequence_member mbind option_bind has_value negb].
  by rewrite (sequence_at_fields _ _ n H) by auto.
Qed.

Lemma event_json_fields e :
  fields (performance_event_json e)
    match input_sequence e with
    | Some n => assoc_set "input_sequence" (j_string (to_string n)) (payload_members (payload e))
    | None => payload_members (payload e)
    end.
Proof.
  assert (fields (j_object (payload_members (payload e))) (payload_members (payload e))) as H.
  { apply fields_j_object. by destruct (payload e). }
  unfold performance_event_json. destruct (input_sequence e) as [n|].
  - by apply fields_j_set.
  - rewrite erase_absent; [done|apply H|]. rewrite (fields_contains _ _ H).
    by destruct (payload e).
Qed.
End codec_lemmas.

Ltac range_lia :=
  unfold kPerformancePadSlotMax, kPatternSlotMax, kFxCount, kFxValueMax, kFilterCutoffHzMax,
    kFilterResonanceMilliMax; u_lia.

(** Read the numbers, names and sequences of an object. *)
Ltac read_members H :=
  repeat first
    [ rewrite (fields_object _ _ H)
    | rewrite (fields_contains _ _ H)
    | rewrite (exact_keys_fields _ _ _ H)
    | erewrite (test_at_fields _ _ _ _ _ H) by reflexivity
    | erewrite (string_at_fields _ _ _ _ _ H) by reflexivity
    | erewrite (bool_at_fields _ _ _ _ _ H) by reflexivity
    | erewrite (unsigned_at_fields _ _ _ _ H) by (reflexivity || u_lia)
    | erewrite (bounded_at_fields _ _ _ _ _ H) by (reflexivity || range_lia)
    | erewrite (mask_at_fields _ _ _ _ H) by (reflexivity || u_lia)
    | erewrite (named_at_fields _ _ _ _ _ H) by reflexivity ];
  assoc_cbn.

Section codec_roundtrip.
Context `{JL : JsonLib} `{!JsonLaws JL}.

Lemma decode_encoded e : payload_range (payload e) → event_width e →
  (∀ n, input_sequence e = Some n → 0 < n) →
  (needs_sequence (payload e) = true → has_value (input_sequence e) = true) →
  performance_event_from_json (performance_event_json e) = success e.
Proof.
  intros Hr [Hw Hs] Hp Hneed. pose proof (event_json_fields e) as H.
  set (j := performance_event_json e) in *. clearbody j.
  destruct e as [p seq]. cbn [payload input_sequence] in *.
  assert (∀ n, seq = Some n → 0 < n < 2 ^ 64) as Hn by auto.
  assert (optional_sequence j = success (Some seq)) as Hseq.
  { eapply optional_sequence_fields; [exact H| |done]. destruct seq; by destruct p. }
  assert (∀ n, seq = Some n → sequence_at j "input_sequence" = success (Some n)) as Hat.
  { intros n ->. eapply sequence_at_fields; [exact H| |auto]. by destruct p. }
  unfold performance_event_from_json, decode_event, decode_kind, legacy_shape. cbn [app].
  destruct p; destruct seq as [n|]; cbn [payload_members assoc_set String.eqb Ascii.eqb Bool.eqb
    needs_sequence has_value] in *; try (by discriminate Hneed).
  all: read_members H; rewrite ?string_is_string; assoc_cbn.
  all: unfold decode_pad_hit, decode_pattern_launch, decode_fx, decode_fx_release, decode_hold,
    decode_filter_change, decode_pad_gates; cbn [payload_range payload_width] in *;
    try pose proof (fx_ordinal_small fx);
    rewrite ?Hseq, ?(Hat _ eq_refl); read_members H.
  all: rewrite ?filter_type_string_spec, ?filter_phase_string_spec, ?fx_of_ordinal_spec,
    ?(wrap_small 8), ?(wrap_small 16) by (simpl; lia).
  1, 2: rewrite !(proj2 (N.ltb_lt _ _)) by lia; done.
  all: try done.
  unfold kFilterCutoffHzMin. by rewrite (proj2 (N.leb_le _ _)) by lia.
Qed.

(** What the validator accepts is in the decoder's ranges. *)
Lemma visited_range headered c e c' : visit_event headered c e = success c' →
  payload_range (payload e) ∧
  (needs_sequence (payload e) = true → has_value (input_sequence e) = true).
Proof.
  unfold visit_event. case_bool_decide as Hh; [|done]. cbn [negb]. rewrite <- Hh. clear Hh.
  destruct (payload e); cbn [visit_payload payload_range needs_sequence];
    unfold kPerformancePadSlotMax, kPatternSlotMax, kPatternSlotMin, kFxValueMax, kFxValueMin,
      kFilterCutoffHzMin, kFilterCutoffHzMax, kFilterResonanceMilliMax;
    intros H; split; try done; destruct headered; try done.
  all: destruct (_ || _) eqn:E in H; [done|]; bool_to_prop; lia.
Qed.

(** ** The live state *)

Lemma gate_roundtrip g : gate_value g ≤ 1000 → gate_state_from_json (gate_state_json g) = success g.
Proof.
  intros Hv. destruct g as [e f v]. unfold gate_state_json, gate_state_from_json.
  cbn [gate_engaged gate_frozen gate_value] in *. name_object "engaged" j H.
  read_members H. rewrite !bool_is_boolean. assoc_cbn. read_members H.
  by rewrite wrap_small by (simpl; lia).
Qed.

Lemma filter_roundtrip s : live_state_ok s →
  decode_filter (live_filter_json (live_filter s)) = success (live_filter s).
Proof.
  intros [Hf _]. unfold decode_filter.
  destruct (live_filter s) as [[e f v]|[e f t c r]]; cbn [live_filter_json legacy_engaged
    legacy_frozen legacy_value independent_engaged independent_frozen independent_type
    independent_cutoff_hz independent_resonance_milli] in *.
  - name_object "engaged" j H. read_members H. rewrite string_is_string. assoc_cbn.
    read_members H. unfold decode_legacy_filter. read_members H. rewrite !bool_is_boolean.
    assoc_cbn. read_members H. by rewrite wrap_small by (simpl; lia).
  - name_object "cutoff_hz" j H. read_members H. rewrite string_is_string. assoc_cbn.
    read_members H. unfold decode_independent_filter. read_members H.
    rewrite !bool_is_boolean, string_is_string. assoc_cbn. read_members H.
    rewrite filter_type_string_spec. unfold kFilterCutoffHzMin.
    rewrite (proj2 (N.ltb_ge _ _)), !wrap_small by (simpl; lia). by read_members H.
Qed.

Lemma fields_set_all (kvs : list (string * PerformanceFxGateState)) j l : fields j l →
  fields (foldl (λ encoded ng, j_set encoded ng.1 (gate_state_json ng.2)) j kvs)
    (foldl (λ l ng, assoc_set ng.1 (gate_state_json ng.2) l) l kvs).
Proof.
  revert j l. induction kvs as [|[k g] kvs IH]; intros j l H; [done|]. by apply IH, fields_j_set.
Qed.

(** The object of the gates has their members. *)
Lemma other_fx_fields gates : length gates = 7%nat →
  fields (other_fx_json gates) (zip kLiveGateFxNames (gate_state_json <$> gates)).
Proof.
  intros Hl. destruct gates as [|g0 [|g1 [|g2 [|g3 [|g4 [|g5 [|g6 [|]]]]]]]]; try discriminate Hl.
  unfold other_fx_json.
  exact (fields_set_all (zip kLiveGateFxNames [g0; g1; g2; g3; g4; g5; g6]) _ []
           (fields_j_object [] eq_refl)).
Qed.

Lemma decode_gate_fields j l acc name g : fields j l →
  assoc name l = Some (gate_state_json g) → gate_value g ≤ 1000 →
  decode_gate j acc name = success (acc ++ [g]).
Proof.
  intros H E Hg. unfold decode_gate. rewrite (fields_contains _ _ H), E. cbn [has_value negb].
  rewrite (at_key_fields _ _ _ _ H E). assoc_cbn. by rewrite gate_roundtrip.
Qed.

Lemma other_fx_roundtrip gates : length gates = 7%nat → Forall (λ g, gate_value g ≤ 1000) gates →
  decode_other_fx (other_fx_json gates) = success gates.
Proof.
  intros Hl Hg. pose proof (other_fx_fields gates Hl) as H.
  set (j := other_fx_json gates) in *. clearbody j.
  destruct gates as [|g0 [|g1 [|g2 [|g3 [|g4 [|g5 [|g6 [|]]]]]]]]; try discriminate Hl.
  rewrite !Forall_cons in Hg. destruct Hg as (? & ? & ? & ? & ? & ? & ? & _).
  cbn [zip zip_with kLiveGateFxNames fmap list_fmap] in H.
  unfold decode_other_fx, kLiveGateFxNames. rewrite (fields_object _ _ H), (fields_size _ _ H).
  cbn [negb orb length Nat.eqb fold_result].
  do 7 (erewrite (decode_gate_fields _ _ _ _ _ H) by (reflexivity || done); assoc_cbn).
  done.
Qed.
End codec_roundtrip.

(** ** Properties *)

(** An event that the validator accepts, with a durable input sequence (from 1)
    if it has one, is read back from its JSON form unchanged. *)
Theorem performance_event_roundtrip `{JL : JsonLib} `{!JsonLaws JL} headered c e c'
    (Hv : visit_event headered c e = success c') (Hw : event_width e)
    (Hs : input_sequence e ≠ Some 0) :
  performance_event_from_json (performance_event_json e) = success e.
Proof.
  destruct (visited_range _ _ _ _ Hv) as [Hr Hn]. apply decode_encoded; [done..| |done].
  intros n E. destruct (decide (n = 0)) as [->|]; [done|lia].
Qed.

Definition example_hit : PerformanceEvent :=
  MkPerformanceEvent (FilterChangePerformanceEvent PerformanceFilterPhase.engage
    PerformanceFilterType.bp 440 250 1920) (Some 7).

Lemma performance_event_roundtrip_witness :
  performance_event_from_json (JL := dom_lib) (performance_event_json example_hit) =
    success example_hit.
Proof.
  eapply (performance_event_roundtrip (JL := dom_lib) true
    (MkControls (replicate 8 false) false false) example_hit); [reflexivity| |done].
  split; [done|]. intros n [= <-]. done.
Defined.

(** A valid initial live state is read back from its JSON form unchanged: its
    HOLD state, its Filter in either form, the seven gates by name and the slot
    masks. *)
Theorem live_state_roundtrip `{JL : JsonLib} `{!JsonLaws JL} s
    (Hv : validate_initial_live_state s = success ()) (Hl : length (other_fx s) = 7%nat)
    (Hm : muted_mask s < 2 ^ 64) (Hs : solo_mask s < 2 ^ 64) :
  performance_initial_live_state_from_json (performance_initial_live_state_json s) = success s.
Proof.
  apply validate_initial_live_state_ok in Hv. pose proof (filter_roundtrip s Hv) as Hf.
  assert (decode_other_fx (other_fx_json (other_fx s)) = success (other_fx s)) as Ho.
  { apply other_fx_roundtrip; [done|]. destruct Hv as [_ Hg].
    eapply Forall_impl; [exact Hg|]. by intros g []. }
  unfold performance_initial_live_state_json, performance_initial_live_state_from_json,
    decode_live_state.
  set (fj := live_filter_json (live_filter s)) in *. set (oj := other_fx_json (other_fx s)) in *.
  clearbody fj oj. name_object "filter" j H. read_members H. rewrite bool_is_boolean. assoc_cbn.
  read_members H. read_fields H. rewrite Hf. assoc_cbn. read_fields H. rewrite Ho. assoc_cbn.
  read_members H. by destruct s.
Qed.

Lemma live_state_roundtrip_witness :
  performance_initial_live_state_from_json (JL := dom_lib)
    (performance_initial_live_state_json example_header) = success example_header.
Proof. apply (live_state_roundtrip (JL := dom_lib)); reflexivity. Defined.

(** The validator accepts a headered recording whose event has input sequence 0,
    which no decoder reads back: a durable sequence counts from 1. *)
Definition zero_sequence_performance : Performance :=
  MkPerformance (MkId "6f1d2c3b-4a5e-4f60-8a7b-1c2d3e4f5a6b")
    "Take" 120 0 None [MkPerformanceEvent (PatternLaunchPerformanceEvent 0 0) (Some 0)]
    (Some example_header).

Lemma zero_sequence_not_read_back :
  validate_performance (JL := dom_lib) zero_sequence_performance = success () ∧
  ∀ e, e ∈ performance_events zero_sequence_performance →
    result_has_value (performance_event_from_json (JL := dom_lib) (performance_event_json e)) =
      false.
Proof.
  split; [reflexivity|]. intros e. cbn [performance_events zero_sequence_performance].
  intros ->%list_elem_of_singleton. reflexivity.
Qed.
