(* ===== verification/Migration.v ===== *)
(** The migration of a stored Project from contract v3 to v4.

    Models packages/authoring-domain/src/migration.cpp.  The C++ code changes a
    copy of the document in place; here each assignment is a [j_set]. *)

From S2P Require Import Prelude Json Foundation Text Project Fields.

Section migration.
Context `{JL : JsonLib}.

Definition refused {A} (m : string) : Result A := failure (plain_error invalid_project m).

(** A condition of the form [!contains(key) || !test(at(key))]. *)
Definition lacks (v : json) (key : string) (test : json → bool) : Result bool :=
  if negb (j_contains v key) then success true
  else b ← test_at v key test; success (negb b).

Definition legacy_asset (asset : json) : bool :=
  is_object asset && Nat.eqb (j_size asset) 2 && j_contains asset "asset_id" &&
  j_contains asset "artifact" && negb (j_contains asset "lineage").

Definition null_slots : json :=
  foldl (λ slots _, j_push_back slots j_null) (j_array []) (seq 0 (N.to_nat kPatternSlotCount)).

Definition migrate_project_v3_to_v4 (project_v3 : json) : Result json :=
  no_contract ← (if negb (is_object project_v3) then success true
                 else lacks project_v3 "contract"
                        (λ c, is_string c && j_eq_string c "lmdj.project.v3"));
  if no_contract : bool then refused "v3 to v4 migration requires a v3-declared Project"
  else if j_contains project_v3 "performances" || j_contains project_v3 "pattern_slots" then
    refused "a v3-declared Project must not carry v4 fields"
  else
    no_assets ← lacks project_v3 "assets" is_array;
    if no_assets : bool then refused "v3 to v4 migration requires an Asset array"
    else
      assets ← at_key project_v3 "assets";
      if negb (forallb legacy_asset (j_items assets)) then
        refused "a v3-declared Asset must use the exact legacy shape"
      else
        let project_v4 := j_set project_v3 "contract" (j_string "lmdj.project.v4") in
        let project_v4 := j_set project_v4 "assets"
          (j_array ((λ asset, j_set asset "lineage" j_null) <$> j_items assets)) in
        let project_v4 := j_set project_v4 "pattern_slots" null_slots in
        success (j_set project_v4 "performances" (j_array [])).

(** ** What a v3 Project is *)

Record v3_project (p : json) (assets : json) : Prop := {
  v3_object : is_object p = true;
  v3_contract : ∃ c, j_at p "contract" = Some c ∧ is_string c = true ∧
                     j_eq_string c "lmdj.project.v3" = true;
  v3_no_performances : j_at p "performances" = None;
  v3_no_slots : j_at p "pattern_slots" = None;
  v3_assets : j_at p "assets" = Some assets;
  v3_array : is_array assets = true;
  v3_legacy : Forall (λ a, legacy_asset a = true) (j_items assets)
}.

Context `{!JsonLaws JL}.

Lemma lacks_spec v key test : is_object v = true →
  lacks v key test = success match j_at v key with Some x => negb (test x) | None => true end.
Proof.
  intros Ho. unfold lacks, test_at, at_key. rewrite contains_at by done.
  by destruct (j_at v key).
Qed.

Lemma null_slots_spec : null_slots = j_array (replicate 16 j_null).
Proof.
  unfold null_slots. change (N.to_nat kPatternSlotCount) with 16%nat. cbn [seq foldl].
  by rewrite !push_back_array.
Qed.

Lemma migrate_cases p :
  (∃ assets, v3_project p assets ∧ migrate_project_v3_to_v4 p =
     success (j_set (j_set (j_set (j_set p "contract" (j_string "lmdj.project.v4")) "assets"
       (j_array ((λ a, j_set a "lineage" j_null) <$> j_items assets)))
       "pattern_slots" (j_array (replicate 16 j_null))) "performances" (j_array []))) ∨
  ((∀ assets, ¬ v3_project p assets) ∧ ∃ m, migrate_project_v3_to_v4 p = refused m).
Proof.
  unfold migrate_project_v3_to_v4. destruct (is_object p) eqn:Ho; cbn [negb mbind result_bind];
    [|right; split; [by intros ? []; congruence|by eexists]].
  rewrite !lacks_spec, !contains_at by done. cbn [mbind result_bind]. unfold at_key.
  destruct (j_at p "contract") as [c|] eqn:Ec; cbn [negb];
    [|right; split; [by intros ? [? (? & ? & _)]; congruence|by eexists]].
  destruct (is_string c && _) eqn:E3; cbn [negb];
    [|right; split; [|by eexists]].
  2: { intros a [_ (c' & Ec' & Hs & Hq) _ _ _ _ _]. rewrite Ec in Ec'. injection Ec' as <-.
       by rewrite Hs, Hq in E3. }
  apply andb_prop in E3 as [Es Eq].
  destruct (j_at p "performances") as [x|] eqn:Ep; cbn [has_value orb];
    [right; split; [by intros ? []; congruence|by eexists]|].
  destruct (j_at p "pattern_slots") as [x|] eqn:Esl; cbn [has_value];
    [right; split; [by intros ? []; congruence|by eexists]|].
  destruct (j_at p "assets") as [assets|] eqn:Ea; cbn [negb throwing mbind result_bind];
    [|right; split; [by intros ? []; congruence|by eexists]].
  destruct (is_array assets) eqn:Earr; cbn [negb];
    [|right; split; [by intros ? []; congruence|by eexists]].
  destruct (forallb legacy_asset (j_items assets)) eqn:El; cbn [negb].
  - left. exists assets. rewrite null_slots_spec. split; [|done]. split; try done.
    + by exists c.
    + apply Forall_forall. intros a Ha. rewrite forallb_forall in El. by apply El, list_elem_of_In.
  - right. split; [|by eexists]. intros a [_ _ _ _ Ea' _ Hl]. rewrite Ea in Ea'.
    injection Ea' as <-. rewrite (proj2 (forallb_forall _ _)) in El; [done|].
    intros x Hx%list_elem_of_In. rewrite Forall_forall in Hl. by apply Hl.
Qed.
End migration.

(** ** Properties *)

(** The migration accepts exactly the v3 Projects with legacy Assets, without an
    exception; the result declares v4, gives every Asset a null Lineage, has 16
    empty Pattern slots and no Performance, keeps every other member, and is not
    accepted for migration again. *)
Theorem migration_exact `{JL : JsonLib} `{!JsonLaws JL} p :
  migrate_project_v3_to_v4 p ≠ thrown ∧
  (result_has_value (migrate_project_v3_to_v4 p) = true ↔ ∃ assets, v3_project p assets) ∧
  ∀ assets, v3_project p assets → ∃ q, migrate_project_v3_to_v4 p = success q ∧
    (∀ k, j_at q k =
       if bool_decide (k = "performances") then Some (j_array [])
       else if bool_decide (k = "pattern_slots") then Some (j_array (replicate 16 j_null))
       else if bool_decide (k = "assets") then
         Some (j_array ((λ a, j_set a "lineage" j_null) <$> j_items assets))
       else if bool_decide (k = "contract") then Some (j_string "lmdj.project.v4")
       else j_at p k) ∧
    result_has_value (migrate_project_v3_to_v4 q) = false.
Proof.
  destruct (migrate_cases p) as [(assets & Hp & E)|(Hn & m & E)]; rewrite E.
  - split_and!; [done|by split; [exists assets|]|]. intros assets' Hp'.
    assert (assets' = assets) as ->.
    { pose proof (v3_assets _ _ Hp). pose proof (v3_assets _ _ Hp'). congruence. }
    eexists. split; [done|]. pose proof (v3_object _ _ Hp) as Ho.
    match goal with |- ?Q ∧ _ => assert Q as Hq end.
    { intros k. by rewrite !set_at by (repeat apply set_is_object; done). }
    split; [exact Hq|].
    match goal with |- context [migrate_project_v3_to_v4 ?q] =>
      destruct (migrate_cases q) as [(a & Hv & _)|(_ & m & ->)]; [|done] end.
    destruct (v3_contract _ _ Hv) as (c & Hc & _ & Hs).
    rewrite Hq in Hc. repeat (rewrite bool_decide_eq_false_2 in Hc by done).
    rewrite bool_decide_eq_true_2 in Hc by done. injection Hc as <-. by rewrite string_eq in Hs.
  - split_and!; [done|by split; [|intros [a Ha]; by destruct (Hn a)]|].
    intros a Ha. by destruct (Hn a).
Qed.

Definition example_v3_assets : dom :=
  DArray [DObject [("asset_id", DString "a"); ("artifact", DObject [])]].

Definition example_v3 : dom :=
  DObject [("assets", example_v3_assets); ("bpm", DUint 120);
           ("contract", DString "lmdj.project.v3")].

Lemma migration_exact_witness :
  ∃ q, migrate_project_v3_to_v4 (JL := dom_lib) example_v3 = success q ∧
    j_at (JsonLib := dom_lib) q "bpm" = Some (DUint 120) ∧
    j_at (JsonLib := dom_lib) q "contract" = Some (DString "lmdj.project.v4").
Proof.
  destruct (proj2 (proj2 (migration_exact (JL := dom_lib) example_v3)) example_v3_assets)
    as (q & Hq & Hat & _).
  - split; try reflexivity; [by eexists|]. by repeat constructor.
  - exists q. split; [exact Hq|]. rewrite !Hat. split; reflexivity.
Defined.
