(* ===== verification/SoundsetLaws.v ===== *)
(** What the Sound Set parser accepts.

    The matcher of the regular expressions is characterised on the shapes the
    source uses, and its three expressions are shown to agree with the character
    loops the Authoring domain uses for the same texts.  A manifest that parses
    satisfies its rules. *)

From S2P Require Import Prelude Json Foundation Text Project Fields Lineage Soundset.

(** ** The matcher *)

Lemma matches_nil r : matches r [] = nullable r.
Proof. done. Qed.

Lemma matches_cons r c l : matches r (c :: l) = matches (derive c r) l.
Proof. done. Qed.

Lemma matches_never l : matches Never l = false.
Proof. induction l as [|c l IH]; [done|]. by rewrite matches_cons. Qed.

Lemma matches_empty l : matches Empty l = true ↔ l = [].
Proof.
  destruct l as [|c l]; [done|]. rewrite matches_cons. cbn [derive].
  by rewrite matches_never.
Qed.

Lemma matches_alt r s l : matches (Alt r s) l = matches r l || matches s l.
Proof. revert r s. induction l as [|c l IH]; intros r s; [done|]. apply IH. Qed.

Lemma matches_chars p l : matches (Chars p) l = true ↔ ∃ c, l = [c] ∧ p c = true.
Proof.
  destruct l as [|c l]; [by split; [|intros (? & ? & _)]|]. rewrite matches_cons.
  cbn [derive]. destruct (p c) eqn:E.
  - rewrite matches_empty. split; [intros ->; by exists c|]. by intros (? & [= _ ->] & _).
  - rewrite matches_never. split; [done|]. intros (? & [= -> ->] & ?). congruence.
Qed.

Lemma matches_cat r s l : matches (Cat r s) l = true ↔
  ∃ l1 l2, l = l1 ++ l2 ∧ matches r l1 = true ∧ matches s l2 = true.
Proof.
  revert r. induction l as [|c l IH]; intros r.
  - rewrite matches_nil. cbn [nullable]. rewrite andb_true_iff. split.
    + intros [? ?]. by exists [], [].
    + intros (l1 & l2 & E & ? & ?). symmetry in E. apply app_eq_nil in E as [-> ->]. done.
  - rewrite matches_cons. cbn [derive].
    assert ((∃ l1 l2, c :: l = l1 ++ l2 ∧ matches r l1 = true ∧ matches s l2 = true) ↔
      (nullable r = true ∧ matches s (c :: l) = true) ∨ matches (Cat (derive c r) s) l = true) as ->.
    { rewrite IH. split.
      - intros ([|c' l1] & l2 & E & H1 & H2); cbn [app] in E.
        + left. by subst l2.
        + right. injection E as <- ->. by exists l1, l2.
      - intros [[H1 H2]|(l1 & l2 & -> & H1 & H2)].
        + by exists [], (c :: l).
        + by exists (c :: l1), l2. }
    destruct (nullable r); rewrite ?matches_alt, ?orb_true_iff, ?matches_cons;
      [split; intros [?|?]; auto; naive_solver|naive_solver].
Qed.

Lemma matches_star_chars p l : matches (Star (Chars p)) l = true ↔ Forall (λ c, p c = true) l.
Proof.
  assert (∀ l, matches (Cat Empty (Star (Chars p))) l = matches (Star (Chars p)) l) as Hunit.
  { intros l'. apply eq_true_iff_eq. rewrite matches_cat. split.
    - intros (l1 & l2 & -> & ->%matches_empty & H). done.
    - intros H. by exists [], l'. }
  induction l as [|c l IH]; [by split; [constructor|]|].
  rewrite matches_cons, Forall_cons. cbn [derive]. destruct (p c) eqn:E.
  - rewrite Hunit, IH. naive_solver.
  - rewrite matches_cat. split; [|naive_solver]. intros (l1 & l2 & _ & H & _).
    by rewrite matches_never in H.
Qed.

(** ** Expressions of a fixed length *)

Fixpoint fits (ps : list (ascii → bool)) (l : list ascii) : bool :=
  match ps, l with
  | [], [] => true
  | p :: ps, c :: l => p c && fits ps l
  | _, _ => false
  end.

Definition fixed (r : regex) (ps : list (ascii → bool)) : Prop :=
  ∀ l, matches r l = fits ps l.

Lemma fits_app ps qs l : fits (ps ++ qs) l = true ↔
  ∃ l1 l2, l = l1 ++ l2 ∧ fits ps l1 = true ∧ fits qs l2 = true.
Proof.
  revert l. induction ps as [|p ps IH]; intros l; cbn [app].
  - split; [intros H; by exists [], l|]. by intros ([|] & l2 & -> & ? & ?).
  - destruct l as [|c l]; cbn [fits].
    + split; [done|]. intros ([|] & ? & E & ? & ?); done.
    + rewrite andb_true_iff, IH. split.
      * intros (Hp & l1 & l2 & -> & H1 & H2). exists (c :: l1), l2. cbn. by rewrite Hp.
      * intros ([|c' l1] & l2 & E & H1 & H2); [done|]. cbn in E, H1.
        injection E as <- ->. apply andb_true_iff in H1 as [? ?]. eauto 6.
Qed.

Lemma fixed_chars p : fixed (Chars p) [p].
Proof.
  intros l. apply eq_true_iff_eq. rewrite matches_chars. split.
  - intros (c & -> & H). cbn. by rewrite H.
  - destruct l as [|c [|]]; cbn; rewrite ?andb_true_r, ?andb_false_r; try done. by exists c.
Qed.

Lemma fixed_cat r s ps qs : fixed r ps → fixed s qs → fixed (Cat r s) (ps ++ qs).
Proof.
  intros Hr Hs l. apply eq_true_iff_eq. rewrite matches_cat, fits_app.
  by setoid_rewrite Hr; setoid_rewrite Hs.
Qed.

Lemma fixed_repeat n p : fixed (repeat_regex n (Chars p)) (replicate n p).
Proof.
  induction n as [|n IH]; cbn [repeat_regex replicate].
  - intros l. apply eq_true_iff_eq. rewrite matches_empty. by destruct l.
  - apply (fixed_cat _ _ [p] _); [apply fixed_chars|done].
Qed.

Create HintDb regex.
#[export] Hint Resolve fixed_chars fixed_cat fixed_repeat : regex.

Lemma fits_length ps l : fits ps l = true → length l = length ps.
Proof.
  revert l. induction ps as [|p ps IH]; intros [|c l]; cbn; try done.
  intros [_ H]%andb_true_iff. by rewrite (IH l).
Qed.

Lemma fits_replicate n p l :
  fits (replicate n p) l = bool_decide (length l = n) && forallb p l.
Proof.
  revert l. induction n as [|n IH]; intros [|c l]; cbn; try done. rewrite IH.
  rewrite (bool_decide_ext (S (length l) = S n) (length l = n)) by lia.
  by destruct (p c), (bool_decide _).
Qed.

(** ** The three expressions *)

Lemma chars_length s : length (chars s) = String.length s.
Proof. unfold chars. induction s as [|c s IH]; [done|]. cbn. by rewrite IH. Qed.

Lemma sha256_regex s : regex_match s kSha256 = valid_sha256 s.
Proof.
  unfold regex_match, kSha256, valid_sha256, hex_digit. rewrite (fixed_repeat 64 is_lower_hex).
  rewrite fits_replicate, chars_length. by destruct (bool_decide _).
Qed.

Definition uuid_classes : list (ascii → bool) :=
  let hex n := replicate n is_lower_hex in
  let dash := [ascii_eqb "-"%char] in
  hex 8%nat ++ dash ++ hex 4%nat ++ dash ++ [λ c, char_in c "1" "5"] ++ hex 3%nat ++ dash ++
  [λ c, ascii_eqb c "8" || ascii_eqb c "9" || ascii_eqb c "a" || ascii_eqb c "b"] ++
  hex 3%nat ++ dash ++ hex 12%nat.

Lemma uuid_fixed : fixed kUuid uuid_classes.
Proof. unfold kUuid, uuid_classes, one_char, hex_digit. auto 30 with regex. Qed.

Lemma digit_range_hex c : char_in c "1" "5" = true → is_lower_hex c = true.
Proof. unfold is_lower_hex, char_in. cbn. intros. lia. Qed.

Lemma variant_hex c :
  ascii_eqb c "8" || ascii_eqb c "9" || ascii_eqb c "a" || ascii_eqb c "b" = true →
  is_lower_hex c = true.
Proof.
  unfold ascii_eqb. rewrite !orb_true_iff, !Ascii.eqb_eq. by intros [[[->| ->]| ->]| ->].
Qed.

Lemma ascii_eqb_sym a b : ascii_eqb a b = ascii_eqb b a.
Proof. apply Ascii.eqb_sym. Qed.

(** A string of 36 characters, read by position. *)
Lemma uuid_by_position l : length l = 36%nat →
  is_valid_uuid (String.string_of_list_ascii l) = fits uuid_classes l.
Proof.
  intros Hl. do 36 (destruct l as [|? l]; [discriminate Hl|]).
  destruct l; [|discriminate Hl].
  unfold is_valid_uuid. cbn [String.length String.string_of_list_ascii].
  cbn [char_at String.get value_or seq forallb uuid_classes replicate app fits].
  repeat match goal with |- context [bool_decide (?n ∈ uuid_dashes)] =>
    let b := eval vm_compute in (bool_decide (n ∈ uuid_dashes)) in
    change (bool_decide (n ∈ uuid_dashes)) with b end.
  rewrite (bool_decide_eq_true_2 (36%nat = 36%nat)) by done.
  cbn [negb orb andb]. rewrite !(ascii_eqb_sym "-"%char), !andb_true_r.
  apply eq_true_iff_eq. rewrite !andb_true_iff. split.
  - intros H. destruct (_ || _) eqn:E1 in H; [done|]. destruct (negb (_ && _)) eqn:E2 in H; [done|].
    rewrite !orb_false_iff, !negb_false_iff in E1. rewrite negb_false_iff, !andb_true_iff in E2.
    rewrite andb_true_iff in H. destruct_and!. split_and!; assumption.
  - intros H. destruct_and!.
    repeat match goal with E : ascii_eqb _ "-" = true |- _ => rewrite E; clear E end. cbn [negb orb].
    pose proof (digit_range_hex _ ltac:(eassumption)).
    pose proof (variant_hex _ ltac:(eassumption)).
    repeat match goal with E : is_lower_hex _ = true |- _ => rewrite E; clear E end.
    cbn [negb orb andb]. by apply andb_true_intro.
Qed.

Lemma chars_string s : String.string_of_list_ascii (chars s) = s.
Proof. apply chars_inj, chars_of_list. Qed.

Lemma uuid_regex s : regex_match s kUuid = is_valid_uuid s.
Proof.
  unfold regex_match. rewrite uuid_fixed. destruct (decide (length (chars s) = 36%nat)) as [H|H].
  - by rewrite <- uuid_by_position, chars_string.
  - assert (is_valid_uuid s = false) as ->.
    { unfold is_valid_uuid. rewrite chars_length in H. by rewrite bool_decide_eq_false_2. }
    destruct (fits _ _) eqn:E; [|done]. by apply fits_length in E.
Qed.

(** A numeral, as the expression writes it. *)
Lemma semver_number_regex l : matches semver_number l = true ↔ numeral l.
Proof.
  unfold semver_number. rewrite matches_alt, orb_true_iff, matches_cat. unfold one_char.
  rewrite matches_chars. setoid_rewrite matches_chars. setoid_rewrite matches_star_chars.
  unfold numeral. split.
  - intros [(c & -> & H)|(l1 & l2 & -> & (c & -> & Hc) & Hf)].
    + apply Ascii.eqb_eq in H as <-. split_and!; [done|by repeat constructor|by left].
    + cbn [app]. split_and!; [done|constructor; [|done]|right; intros [= ->]; done].
      unfold is_digit, char_in in *. cbn in *. lia.
  - intros (Hne & Hd & Hz). destruct l as [|c l]; [done|]. apply Forall_cons in Hd as [Hc Hd].
    destruct (decide (c = "0"%char)) as [->|Hc0].
    + left. exists "0"%char. split; [|done]. destruct Hz as [Hz|Hz]; [|done].
      destruct l; [done|discriminate Hz].
    + right. exists [c], l. split; [done|]. split; [|done]. exists c. split; [done|].
      unfold is_digit, char_in in *. cbn in *.
      assert (byte_of c ≠ 48) as Hne'. { intros E. apply Hc0. by apply byte_of_inj. } lia.
Qed.

Lemma semver_regex s : regex_match s kSemver = valid_soundset_semver s.
Proof.
  apply eq_true_iff_eq. rewrite semver_spec. unfold regex_match, kSemver, one_char.
  rewrite matches_cat. setoid_rewrite matches_cat. setoid_rewrite matches_cat.
  setoid_rewrite matches_cat. setoid_rewrite matches_chars. setoid_rewrite semver_number_regex.
  split.
  - intros (a & r1 & E & Ha & d1 & r2 & -> & (x & -> & Hx) & b & r3 & -> & Hb & d2 & c & -> &
      (y & -> & Hy) & Hc).
    apply Ascii.eqb_eq in Hx as <-, Hy as <-. exists a, b, c. split_and!; done.
  - intros (a & b & c & Ha & Hb & Hc & E). rewrite E.
    eexists a, _. split; [done|]. split; [done|]. eexists ["."%char], _. split; [done|].
    split; [by exists "."%char|]. eexists b, _. split; [done|]. split; [done|].
    eexists ["."%char], _. split; [done|]. split; [by exists "."%char|done].
Qed.

(** ** The parser *)

Record artifact_ok (a : ArtifactRef) : Prop := {
  artifact_sha256 : valid_sha256 (sha256 a) = true;
  artifact_media : media_type a ≠ "";
  artifact_bytes : 1 ≤ byte_length a
}.

Definition bpm_ok (b : option Z) : Prop := ∀ v, b = Some v → (40 ≤ v ≤ 240)%Z.
Definition text_ok (t : option string) : Prop := t ≠ Some "".

Record occupied_ok (o : SoundSetOccupiedSlot) : Prop := {
  occupied_role_ok : role o ∈ kSoundSetRoles;
  occupied_name_ok : occupied_name o ≠ "";
  occupied_artifact_ok : artifact_ok (occupied_artifact o);
  occupied_bpm_ok : bpm_ok (occupied_bpm o);
  occupied_key_ok : text_ok (occupied_key o)
}.

Definition slot_ok (s : SoundSetSlot) : Prop :=
  (0 ≤ index s < 16)%Z ∧ ∀ o, occupied s = Some o → occupied_ok o.

Record manifest_ok (m : SoundSetManifest) : Prop := {
  manifest_set_id : is_valid_uuid (set_id m) = true;
  manifest_version : valid_soundset_semver (version m) = true;
  manifest_name_ok : manifest_name m ≠ "";
  manifest_publisher : publisher m ≠ "";
  manifest_texts : text_ok (description m) ∧ text_ok (manifest_key m);
  manifest_bpm_ok : bpm_ok (manifest_bpm m);
  manifest_license : spdx_id (license m) ≠ "" ∧ rights_holder (license m) ≠ "" ∧
                     copyright (license m) ≠ "";
  manifest_demo : ∀ a, demo m = Some a → artifact_ok a;
  manifest_slots : length (slots m) = 16%nat;
  manifest_slot i s : slots m !! i = Some s → index s = Z.of_nat i ∧ slot_ok s
}.

Section parser.
Context `{JL : JsonLib} `{!JsonLaws JL}.

Lemma post_refused {A} (Q : A → Prop) e : post Q (failure e).
Proof. done. Qed.

(** A check that may refuse: it yields its meaning to what follows. *)
Definition checks (P : Prop) (ok : Result bool) : Prop := post (λ b, b = true → P) ok.

Lemma checks_require {A} (Q : A → Prop) P ok refusal k :
  checks P ok → post Q refusal → (P → post Q k) → post Q (require ok refusal k).
Proof.
  intros Hok Hr Hk. unfold require. eapply post_bind; [exact Hok|]. intros [] HP; eauto.
Qed.

Lemma checks_both P P' a b : checks P a → (P → checks P' b) → checks (P ∧ P') (both a b).
Proof.
  intros Ha Hb. unfold both. eapply post_bind; [exact Ha|]. intros [] HP; [|done].
  eapply post_weaken; [by apply Hb, HP|]. cbn. auto.
Qed.

Lemma checks_weaken P P' ok : checks P ok → (P → P') → checks P' ok.
Proof. intros H HP. eapply post_weaken; [exact H|]. cbn. auto. Qed.

(** ** Members *)

Lemma member_at v k : is_object v = true → j_contains v k = true → ∃ x, j_at v k = Some x.
Proof. intros Ho. rewrite contains_at by done. destruct (j_at v k); [eauto|done]. Qed.

Lemma checks_test_at v k x t : j_at v k = Some x → checks (t x = true) (test_at v k t).
Proof.
  intros E. unfold checks, test_at, at_key. rewrite E. cbn [throwing mbind result_bind post].
  intros H; exact H.
Qed.

Lemma string_at_value v k x : j_at v k = Some x → is_string x = true →
  ∃ s, string_at v k = success s ∧ get_string x = Some s.
Proof.
  intros E Hs. destruct (string_value x Hs) as [s Hg]. exists s.
  unfold string_at, at_key. by rewrite E; cbn; rewrite Hg.
Qed.

Lemma nonempty_value x : is_nonempty_string x = true →
  is_string x = true ∧ ∃ s, get_string x = Some s ∧ s ≠ "".
Proof.
  unfold is_nonempty_string. intros [Hs Hn]%andb_true_iff.
  destruct (string_value x Hs) as [s Hg]. split; [done|]. exists s. split; [done|].
  rewrite Hg in Hn. by intros ->.
Qed.

(** A non-empty string member. *)
Lemma nonempty_at v k x : j_at v k = Some x → is_nonempty_string x = true →
  ∃ s, string_at v k = success s ∧ s ≠ "".
Proof.
  intros E (Hs & s & Hg & Hne)%nonempty_value.
  destruct (string_at_value v k x E Hs) as (s' & H & Hg'). exists s'. split; [done|congruence].
Qed.

Lemma checks_matches_at v k x r : j_at v k = Some x →
  checks (∃ s, string_at v k = success s ∧ regex_match s r = true) (matches_at v k r).
Proof.
  intros E. unfold matches_at.
  apply (checks_weaken (is_string x = true ∧ ∃ s, string_at v k = success s ∧ regex_match s r = true)).
  - apply checks_both; [by apply checks_test_at|]. intros Hs.
    destruct (string_at_value v k x E Hs) as (s & H & _). rewrite H.
    unfold checks. cbn [mbind result_bind post]. intros Hm. exists s. split; [reflexivity|exact Hm].
  - by intros [_ H].
Qed.

Lemma checks_optional v k t : is_object v = true →
  checks (∀ x, j_at v k = Some x → t x = true) (optional_test v k t).
Proof.
  intros Ho. unfold optional_test. rewrite contains_at by done.
  destruct (j_at v k) as [x|] eqn:E; cbn [has_value]; [|done].
  eapply checks_weaken; [by apply checks_test_at|]. intros Ht y Hy. simplify_eq. exact Ht.
Qed.

Lemma optional_string_post v k : is_object v = true →
  (∀ x, j_at v k = Some x → is_nonempty_string x = true) →
  post text_ok (optional_string v k).
Proof.
  intros Ho Hx. unfold optional_string. rewrite contains_at by done.
  destruct (j_at v k) as [x|] eqn:E; cbn [has_value]; [|done].
  destruct (nonempty_at v k x E (Hx x eq_refl)) as (s & -> & Hne). cbn. by intros [= ->].
Qed.

Lemma has_only_keys_spec v req opt : has_only_keys v req opt = true →
  is_object v = true ∧ ∀ k, k ∈ req → ∃ x, j_at v k = Some x.
Proof.
  unfold has_only_keys. destruct (is_object v) eqn:Ho; [|done]. cbn [negb].
  destruct (forallb (j_contains v) req) eqn:Hr; [|done]. intros _. split; [done|].
  intros k Hk. apply member_at; [done|]. rewrite forallb_forall in Hr.
  by apply Hr, list_elem_of_In.
Qed.

Lemma exact_keys_spec v req : exact_object_keys v req = true →
  is_object v = true ∧ ∀ k, k ∈ req → ∃ x, j_at v k = Some x.
Proof.
  unfold exact_object_keys. destruct (is_object v) eqn:Ho; [|done]. cbn [negb orb].
  destruct (negb _); [done|]. intros Hr. split; [done|].
  intros k Hk. apply member_at; [done|]. rewrite forallb_forall in Hr.
  by apply Hr, list_elem_of_In.
Qed.

Lemma bpm_value_ok v b : bpm_value v = Some b → bpm_ok (Some b).
Proof.
  unfold bpm_value. destruct (integer_value v) as [x|]; [|done].
  destruct (_ || _) eqn:E; [done|]. intros [= ->] v' [= <-]. lia.
Qed.

Lemma checked_bpm_post {A} (Q : A → Prop) v m k : is_object v = true →
  (∀ b, bpm_ok b → post Q (k b)) → post Q (checked_bpm v m k).
Proof.
  intros Ho Hk. unfold checked_bpm, optional_bpm. rewrite contains_at by done. unfold at_key.
  destruct (j_at v "bpm") as [x|]; cbn [has_value negb throwing mbind result_bind];
    [|by apply Hk].
  destruct (bpm_value x) as [b|] eqn:E; [|done]. by eapply Hk, bpm_value_ok.
Qed.

(** Read a member that is known to be there. *)
Ltac member H k x E := destruct (H k) as [x E]; [set_solver|].

Lemma parse_artifact_post v : post artifact_ok (parse_artifact v).
Proof.
  unfold parse_artifact. destruct (exact_object_keys v _) eqn:Hk; [|done]. cbn [negb].
  apply exact_keys_spec in Hk as [Ho Hk].
  member Hk "sha256" a Ea. member Hk "media_type" b Eb. member Hk "byte_length" c Ec.
  eapply checks_require; [by eapply checks_matches_at|done|]. intros (s & Hs & Hm).
  eapply checks_require; [by eapply checks_test_at|done|].
  intros (t & Ht & Hne)%(nonempty_at v _ b Eb).
  eapply checks_require; [by eapply checks_test_at|done|]. intros [Hu Hc]%andb_true_iff.
  destruct (unsigned_number c Hu) as [n Hn]. rewrite Hn in Hc.
  rewrite Hs, Ht. cbn [mbind result_bind]. unfold at_key. rewrite Ec.
  cbn [throwing mbind result_bind]. rewrite Hn. cbn. split; cbn; [|done|lia].
  by rewrite <- sha256_regex.
Qed.

Lemma parse_license_post v :
  post (λ l, spdx_id l ≠ "" ∧ rights_holder l ≠ "" ∧ copyright l ≠ "") (parse_license v).
Proof.
  unfold parse_license. destruct (exact_object_keys v _) eqn:Hk; [|done]. cbn [negb].
  apply exact_keys_spec in Hk as [Ho Hk].
  member Hk "spdx_id" a Ea. member Hk "rights_holder" b Eb. member Hk "copyright" c Ec.
  member Hk "attribution" d Ed.
  eapply checks_require; [|done|].
  { repeat (apply checks_both; [by eapply checks_test_at|intros _]). by eapply checks_test_at. }
  intros (Ha & Hb & Hc & Hd).
  apply (nonempty_at v _ a Ea) in Ha as (? & -> & ?).
  apply (nonempty_at v _ b Eb) in Hb as (? & -> & ?).
  apply (nonempty_at v _ c Ec) in Hc as (? & -> & ?).
  destruct (string_at_value v _ d Ed Hd) as (? & -> & _). done.
Qed.

Lemma parse_occupied_post v i : (0 ≤ i < 16)%Z →
  post (λ s, index s = i ∧ slot_ok s) (parse_occupied v i).
Proof.
  intros Hi. unfold parse_occupied. destruct (has_only_keys v _ _) eqn:Hk; [|done]. cbn [negb].
  apply has_only_keys_spec in Hk as [Ho Hk].
  member Hk "role" r Er. member Hk "name" n En. member Hk "artifact" a Ea.
  eapply checks_require; [|done|].
  { apply checks_both; [by eapply checks_test_at|intros _]. by eapply checks_test_at. }
  intros [(rs & Hrs & _)%(nonempty_at v _ r Er) (ns & Hns & Hne)%(nonempty_at v _ n En)].
  rewrite Hrs. cbn [mbind result_bind]. destruct (known_role rs) eqn:Hrole; [|done].
  cbn [negb]. eapply checks_require; [by apply checks_optional|done|]. intros Hkey.
  apply checked_bpm_post; [done|]. intros bpm Hbpm. unfold at_key. rewrite Ea.
  cbn [throwing mbind result_bind].
  eapply post_bind; [apply parse_artifact_post|]. intros art Hart.
  eapply post_bind; [by apply optional_string_post|]. intros key Hk'.
  rewrite Hns. cbn. split; [done|]. split; [done|]. intros o [= <-].
  split; cbn; try done. by apply bool_decide_eq_true_1 in Hrole.
Qed.

Lemma parse_slot_post v : post slot_ok (parse_slot v).
Proof.
  unfold parse_slot.
  eapply (checks_require slot_ok (is_object v = true ∧ ∃ x, j_at v "slot" = Some x)); [|done|].
  { destruct (is_object v) eqn:Ho; cbn [andb both mbind result_bind]; [|done].
    unfold both. cbn [mbind result_bind]. destruct (j_contains v "slot") eqn:Hc; [|done].
    destruct (member_at v _ Ho Hc) as [x E].
    eapply checks_weaken; [by eapply checks_test_at|]. eauto. }
  intros (Ho & x & E). unfold at_key. rewrite E. cbn [throwing mbind result_bind].
  destruct (integer_value x) as [raw|]; [|done]. destruct (_ || _) eqn:Hr; [done|].
  destruct (exact_object_keys v _); [by split; cbn; [lia|]|].
  eapply post_weaken; [apply parse_occupied_post; lia|]. by intros s [_ ?].
Qed.
(** ** Placing the slots: every index once *)

Fixpoint marked (l : list bool) : nat :=
  match l with [] => 0 | b :: l' => (if b then 1 else 0) + marked l' end.

Lemma marked_insert l i : l !! i = Some false → marked (<[i := true]> l) = S (marked l).
Proof.
  revert i. induction l as [|b l IH]; intros [|i]; cbn [lookup list_lookup]; try done.
  - by intros [= ->].
  - intros H. cbn [insert list_insert marked]. rewrite IH by done. lia.
Qed.

Lemma marked_le l : (marked l ≤ length l)%nat.
Proof. induction l as [|[] l IH]; cbn [marked length]; lia. Qed.

Lemma marked_all l i b : marked l = length l → l !! i = Some b → b = true.
Proof.
  revert i. induction l as [|c l IH]; intros [|i]; cbn [marked length lookup list_lookup]; try done.
  - intros H [= <-]. pose proof (marked_le l). destruct c; [done|lia].
  - intros H. apply IH. pose proof (marked_le l). destruct c; lia.
Qed.

(** The state of the loop after [n] entries. *)
Record placing (n : nat) (st : list bool * list SoundSetSlot) : Prop := {
  placing_seen : length st.1 = 16%nat;
  placing_slots : length st.2 = 16%nat;
  placing_marked : marked st.1 = n;
  placing_slot i : st.1 !! i = Some true →
    ∃ s, st.2 !! i = Some s ∧ index s = Z.of_nat i ∧ slot_ok s
}.

Lemma place_slot_post n st entry :
  placing n st → post (placing (S n)) (place_slot st entry).
Proof.
  intros [Hseen Hslots Hn Hs]. unfold place_slot. eapply post_bind; [apply parse_slot_post|].
  intros s Hok. destruct (Hok) as [Hr _].
  destruct (lookup_lt_is_Some_2 st.1 (Z.to_nat (index s))) as [seen E]; [lia|].
  eapply post_throwing; [exact E|]. destruct seen; [done|].
  split; cbn [fst snd]; rewrite ?length_insert; [done|done|by rewrite marked_insert, Hn|].
  intros i Hi. destruct (decide (i = Z.to_nat (index s))) as [->|Hne].
  - exists s. rewrite list_lookup_insert_eq by lia. split_and!; [done|lia|done].
  - rewrite list_lookup_insert_ne by done. apply Hs. by rewrite list_lookup_insert_ne in Hi.
Qed.

Lemma place_slots_post entries :
  post (placing (length entries)) (fold_result place_slot
    (replicate 16 false, replicate 16 (MkSoundSetSlot 0 None)) entries).
Proof.
  apply (post_fold (λ done st, placing (length done) st) place_slot entries []).
  - intros placed st a _ H. rewrite length_app, Nat.add_comm. by apply place_slot_post.
  - split; cbn [fst snd]; rewrite ?length_replicate; [done..|].
    intros i [? ?]%lookup_replicate. done.
Qed.

Lemma placed_slots st i s : placing 16 st → st.2 !! i = Some s →
  index s = Z.of_nat i ∧ slot_ok s.
Proof.
  intros [Hseen Hslots Hn Hs] E. pose proof (lookup_lt_Some _ _ _ E) as Hi.
  destruct (lookup_lt_is_Some_2 st.1 i) as [b Eb]; [lia|].
  assert (b = true) as -> by (eapply marked_all; [|exact Eb]; lia).
  destruct (Hs i Eb) as (s' & E' & H). congruence.
Qed.

(** A manifest that was read carries the canonical text it was read with. *)
Definition read_as (text : string) (m : SoundSetManifest) : Prop :=
  manifest_ok m ∧ canonical_bytes m = text.

Lemma parse_manifest_post parsed text : post (read_as text) (parse_manifest parsed text).
Proof.
  unfold parse_manifest. destruct (has_only_keys parsed _ _) eqn:Hk; [|done]. cbn [negb].
  apply has_only_keys_spec in Hk as [Ho Hk].
  member Hk "contract" c Ec. member Hk "set_id" i Ei. member Hk "version" ve Eve.
  member Hk "name" n En. member Hk "publisher" p Ep. member Hk "license" l El.
  member Hk "slots" sl Esl.
  eapply (checks_require _ True); [|done|intros _].
  { apply (checks_weaken (is_string c = true ∧ True)); [|done].
    apply checks_both; [by apply checks_test_at|]. intros Hs.
    by destruct (string_at_value parsed "contract" c Ec Hs) as (? & -> & _). }
  eapply checks_require; [by eapply checks_matches_at|done|]. intros (id & Hid & Hmid).
  eapply checks_require; [by eapply checks_matches_at|done|]. intros (vs & Hvs & Hmvs).
  eapply checks_require; [|done|].
  { apply checks_both; [by eapply checks_test_at|intros _]. by eapply checks_test_at. }
  intros [(ns & Hns & Hne)%(nonempty_at parsed _ n En) (ps & Hps & Hpe)%(nonempty_at parsed _ p Ep)].
  eapply checks_require; [by apply checks_optional|done|]. intros Hdesc.
  eapply checks_require; [by apply checks_optional|done|]. intros Hkey.
  apply checked_bpm_post; [done|]. intros bpm Hbpm. unfold at_key. rewrite El.
  cbn [throwing mbind result_bind].
  eapply post_bind; [apply parse_license_post|]. intros lic Hlic.
  apply (post_bind (λ d, ∀ a, d = Some a → artifact_ok a)).
  { destruct (j_contains parsed "demo") eqn:Hd; [|done].
    destruct (member_at parsed _ Ho Hd) as [d Ed]. unfold at_key. rewrite Ed.
    cbn [throwing mbind result_bind]. eapply post_bind; [apply parse_artifact_post|].
    intros a Ha b [= <-]. done. }
  intros demo Hdemo. rewrite Esl. cbn [throwing mbind result_bind].
  destruct (is_array sl) eqn:Hsl; [|done]. destruct (Nat.eqb (j_size sl) 16) eqn:Hsz; [|done].
  cbn [negb orb]. rewrite Hid, Hvs, Hns, Hps. cbn [mbind result_bind].
  eapply post_bind; [by apply optional_string_post|]. intros desc Hdt.
  eapply post_bind; [by apply optional_string_post|]. intros key Hkt.
  eapply post_bind; [apply place_slots_post|]. intros placed Hplaced.
  rewrite <- array_size in Hplaced by done. apply Nat.eqb_eq in Hsz. rewrite Hsz in Hplaced.
  split; [|done]. split; cbn; try done.
  - by rewrite <- uuid_regex.
  - by rewrite <- semver_regex.
  - apply Hplaced.
  - intros j s. by apply placed_slots.
Qed.

Section text.
Context (parse_guarded : nat → string → option json) (dump : json → string).

(** The Sound Set parser never throws, whatever bytes it is given and
    whatever document they parse to, and what it returns is sound: the set id
    is a lowercase UUID and the version a SemVer text; name, publisher, license
    holder and every optional text are non-empty; tempos lie in 40..240; every
    artifact has a SHA-256 text and a positive length; the sixteen slots are in
    order, each index exactly once, each occupied slot with a known role; and
    the canonical text it keeps is the bytes it was given, which are well-formed
    UTF-8. *)
Theorem manifest_parsed_sound bytes :
  match parse_soundset_manifest parse_guarded dump bytes with
  | success m => manifest_ok m ∧ canonical_bytes m = bytes ∧ valid_utf8 bytes = true
  | failure _ => True
  | thrown => False
  end.
Proof.
  unfold parse_soundset_manifest. destruct (valid_utf8 bytes); [|done]. cbn [negb].
  destruct (parse_bounded_json parse_guarded bytes) as [parsed|]; [|done].
  destruct (is_object parsed); [|done]. cbn [negb].
  destruct (decide (canonical_json dump parsed = bytes)) as [E|Hne];
    [|by rewrite bool_decide_eq_false_2].
  rewrite bool_decide_eq_true_2 by done. cbn [negb].
  pose proof (parse_manifest_post parsed (canonical_json dump parsed)) as H.
  destruct (parse_manifest parsed _) as [m| |]; [|done..].
  destruct H as [Hok Ht]. split_and!; [done|congruence|done].
Qed.
End text.
End parser.

(** A document with one sample, for the witness: the parser is given as the
    function that knows this one text. *)
Definition example_document : dom :=
  DObject
    [("contract", DString "lmdj.soundset.v1");
     ("license", DObject [("attribution", DString ""); ("copyright", DString "2024 A");
                          ("rights_holder", DString "A"); ("spdx_id", DString "CC0-1.0")]);
     ("bpm", DUint 120); ("name", DString "Kit"); ("publisher", DString "A");
     ("set_id", DString "0a1b2c3d-4e5f-4061-8283-94a5b6c7d8e9");
     ("slots", DArray
        (DObject
           [("artifact", DObject
               [("byte_length", DUint 44); ("media_type", DString "audio/wav");
                ("sha256", DString
                   "0123456789abcdef0123456789abcdef0123456789abcdef0123456789abcdef")]);
            ("name", DString "Kick"); ("role", DString "kick"); ("slot", DUint 15)] ::
         ((λ i, DObject [("slot", DUint i)]) <$> [3; 1; 2; 0; 4; 5; 6; 7; 8; 9; 10; 11; 12; 13; 14])));
     ("version", DString "1.0.0")].

Definition example_parser (depth : nat) (bytes : string) : option dom :=
  if String.eqb bytes "kit" then Some example_document else None.

Lemma manifest_parsed_sound_witness :
  ∃ m, parse_soundset_manifest (JL := dom_lib) example_parser (λ _, "kit") "kit" = success m ∧
       index <$> slots m = Z.of_nat <$> seq 0 16 ∧ manifest_ok m.
Proof.
  pose proof (manifest_parsed_sound (JL := dom_lib) example_parser (λ _, "kit") "kit") as H.
  destruct (parse_soundset_manifest (JL := dom_lib) example_parser (λ _, "kit") "kit") as [m| |] eqn:E.
  - exists m. destruct H as (Hok & _). split_and!; [done| |exact Hok].
    assert (match parse_soundset_manifest (JL := dom_lib) example_parser (λ _, "kit") "kit" with
            | success m => Some (index <$> slots m) | _ => None end =
            Some (Z.of_nat <$> seq 0 16)) as Hi by reflexivity.
    rewrite E in Hi. by injection Hi.
  - discriminate (eq_trans (eq_sym E) eq_refl).
  - destruct H.
Defined.

(** The expressions of the Sound Set parser and the character loops of the
    Authoring domain recognise the same texts: a set id, an artifact checksum
    and a version pass the one exactly when they pass the other, so an identity
    that is read from a Sound Set is valid in a project and the other way
    round. *)
Theorem regexes_agree s :
  regex_match s kUuid = is_valid_uuid s ∧
  regex_match s kSha256 = valid_sha256 s ∧
  regex_match s kSemver = valid_soundset_semver s.
Proof. split_and!; [apply uuid_regex|apply sha256_regex|apply semver_regex]. Qed.
