(* ===== verification/Channels.v ===== *)
(** The lock-free channels between the control thread and the audio thread.

    [FixedSpscQueue] and [RuntimeSpscStorage] are one ring of cells with a read
    and a write index (module [Spsc]); [ValueChannel] is a triple buffer (module
    [Latest]).  Each operation is split at its atomic accesses: a state of the
    machine holds the shared fields and, for each of the two threads, how far
    its running call has come.  A step is one access by one thread, and a run
    is any interleaving of the two.

    The interleaving is sequentially consistent.  The release and acquire
    orderings of the source are what makes that enough for a program whose plain
    accesses never race, which is proved of every reachable state in
    ChannelLaws. *)

From stdpp Require Import relations.
From S2P Require Import Prelude.

#[local] Open Scope nat_scope.

(** Which thread takes a step. *)
Inductive thread := producer | consumer.

#[export] Instance thread_eq_dec : EqDecision thread.
Proof. solve_decision. Defined.

(** Runs of a labelled step relation. *)
Section runs.
Context {S L : Type} (step : S → thread → option L → S → Prop).

Inductive run : S → list (thread * option L) → S → Prop :=
  | run_nil s : run s [] s
  | run_snoc s tr s' t l s'' :
      run s tr s' → step s' t l s'' → run s (tr ++ [(t, l)]) s''.
End runs.

Module Spsc.
Section spsc.
Context {T : Type}.

(** [kStorage], or [storage_]: the capacity and one sentinel cell. *)
Context (capacity : nat).
Definition storage : nat := capacity + 1.

Record Queue := MkQueue {
  cells : list T;
  read_ : nat;
  write_ : nat
}.

Definition increment (value : nat) : nat :=
  if value + 1 =? storage then 0 else value + 1.

(** ** The operations, run by one thread without interference *)

Definition try_push (q : Queue) (value : T) : bool * Queue :=
  let write := write_ q in
  let next := increment write in
  if next =? read_ q then (false, q)
  else (true, MkQueue (<[write := value]> (cells q)) (read_ q) next).

(** The popped value; [None] when the call returns false and leaves its
    argument alone. *)
Definition try_pop (q : Queue) : option T * Queue :=
  let read := read_ q in
  if read =? write_ q then (None, q)
  else (cells q !! read, MkQueue (cells q) (increment read) (write_ q)).

Definition size_approx (q : Queue) : nat :=
  if read_ q <=? write_ q then write_ q - read_ q
  else storage - read_ q + write_ q.

Definition clear_quiescent (q : Queue) : nat * Queue :=
  (size_approx q, MkQueue (cells q) (write_ q) (write_ q)).

(** A queue as the constructor leaves it. *)
Definition create (zero : T) : Queue := MkQueue (replicate storage zero) 0 0.

(** ** The operations, one shared access at a time *)

Inductive Push :=
  | push_idle
  | push_entered (value : T) (write next : nat)    (* loaded [write_] *)
  | push_room (value : T) (write next : nat)       (* loaded [read_]: not full *)
  | push_stored (value : T) (next : nat).          (* wrote the cell *)

Inductive Pop :=
  | pop_idle
  | pop_entered (read : nat)                       (* loaded [read_] *)
  | pop_ready (read : nat)                         (* loaded [write_]: not empty *)
  | pop_copied (read : nat) (value : T).           (* read the cell *)

Record Machine := MkMachine {
  queue : Queue;
  pushing : Push;
  popping : Pop
}.

Definition start (zero : T) : Machine := MkMachine (create zero) push_idle pop_idle.

(** What a call did, at the access where it takes effect. *)
Inductive Effect :=
  | pushed (value : T)
  | push_refused (value : T)
  | popped (value : T)
  | pop_refused.

Inductive step : Machine → thread → option Effect → Machine → Prop :=
  | step_push_enter q c value :
      step (MkMachine q push_idle c) producer None
           (MkMachine q (push_entered value (write_ q) (increment (write_ q))) c)
  | step_push_full q c value write next :
      next = read_ q →
      step (MkMachine q (push_entered value write next) c) producer
           (Some (push_refused value)) (MkMachine q push_idle c)
  | step_push_room q c value write next :
      next ≠ read_ q →
      step (MkMachine q (push_entered value write next) c) producer None
           (MkMachine q (push_room value write next) c)
  | step_push_cell q c value write next :
      write < length (cells q) →
      step (MkMachine q (push_room value write next) c) producer None
           (MkMachine (MkQueue (<[write := value]> (cells q)) (read_ q) (write_ q))
                      (push_stored value next) c)
  | step_push_publish q c value next :
      step (MkMachine q (push_stored value next) c) producer (Some (pushed value))
           (MkMachine (MkQueue (cells q) (read_ q) next) push_idle c)
  | step_pop_enter q p :
      step (MkMachine q p pop_idle) consumer None (MkMachine q p (pop_entered (read_ q)))
  | step_pop_empty q p read :
      read = write_ q →
      step (MkMachine q p (pop_entered read)) consumer (Some pop_refused)
           (MkMachine q p pop_idle)
  | step_pop_ready q p read :
      read ≠ write_ q →
      step (MkMachine q p (pop_entered read)) consumer None (MkMachine q p (pop_ready read))
  | step_pop_cell q p read value :
      cells q !! read = Some value →
      step (MkMachine q p (pop_ready read)) consumer None
           (MkMachine q p (pop_copied read value))
  | step_pop_release q p read value :
      step (MkMachine q p (pop_copied read value)) consumer (Some (popped value))
           (MkMachine (MkQueue (cells q) (increment read) (write_ q)) p pop_idle).

(** ** The abstract queue: a list of at most [capacity] values *)

Inductive fifo : list T → Effect → list T → Prop :=
  | fifo_push l value : length l < capacity → fifo l (pushed value) (l ++ [value])
  | fifo_full l value : length l = capacity → fifo l (push_refused value) l
  | fifo_pop l value : fifo (value :: l) (popped value) l
  | fifo_empty : fifo [] pop_refused [].

Inductive fifo_run : list T → list Effect → list T → Prop :=
  | fifo_run_nil l : fifo_run l [] l
  | fifo_run_snoc l effects l' e l'' :
      fifo_run l effects l' → fifo l' e l'' → fifo_run l (effects ++ [e]) l''.

(** The effects of a run, in order. *)
Definition effects (tr : list (thread * option Effect)) : list Effect := omap snd tr.
End spsc.
End Spsc.

(** [RuntimeSpscStorage::allocation_bytes] for elements of [size] bytes, and the
    storage its constructor takes; [None] is [std::nullopt], and
    [std::bad_array_new_length] for the constructor. *)
Definition allocation_bytes (size capacity : N) : option N :=
  if (capacity =? 0)%N || ((2 ^ 64 - 1) / size <=? capacity)%N then None
  else Some ((capacity + 1) * size)%N.

Definition checked_storage (size capacity : N) : option N :=
  match allocation_bytes size capacity with
  | None => None
  | Some _ => Some (capacity + 1)%N
  end.

Module Latest.
Section latest.

(** A payload is [width] words; a copy of it is one access per word. *)
Context {W : Type} (width : nat).

Definition kDirty : nat := 4.
Definition kIndex : nat := 3.

Definition dirty (middle : nat) : bool := negb (Nat.land middle kDirty =? 0).
Definition index (middle : nat) : nat := Nat.land middle kIndex.

Record Channel := MkChannel {
  slots_ : list (list W);
  writer_ : nat;
  reader_ : nat;
  middle_ : nat
}.

Definition create_channel (zero : list W) : Channel := MkChannel (replicate 3 zero) 0 1 2.

(** ** The operations, run by one thread without interference *)

Definition publish (c : Channel) (value : list W) : Channel :=
  MkChannel (<[writer_ c := value]> (slots_ c)) (index (middle_ c)) (reader_ c)
            (Nat.lor (writer_ c) kDirty).

Definition acquire_read_slot (c : Channel) : Channel :=
  if dirty (middle_ c)
  then MkChannel (slots_ c) (writer_ c) (index (middle_ c)) (reader_ c)
  else c.

Definition read (c : Channel) : option (list W) * Channel :=
  let c := acquire_read_slot c in (slots_ c !! reader_ c, c).

(** ** The operations, one shared access at a time *)

Inductive Publish :=
  | publish_idle
  | publish_copying (value : list W) (done : nat).   (* [done] words stored *)

Inductive Read :=
  | read_idle
  | read_dirty                                       (* loaded a dirty [middle_] *)
  | read_copying (words : list W).                   (* the words copied so far *)

Record ChannelMachine := MkChannelMachine {
  channel : Channel;
  publishing : Publish;
  reading : Read
}.

Definition channel_start (zero : list W) : ChannelMachine :=
  MkChannelMachine (create_channel zero) publish_idle read_idle.

Inductive ChannelEffect :=
  | published (value : list W)
  | looked                       (* a read has loaded [middle_] *)
  | returned (value : list W).

Definition with_slot (c : Channel) (i : nat) (s : list W) : Channel :=
  MkChannel (<[i := s]> (slots_ c)) (writer_ c) (reader_ c) (middle_ c).

Inductive channel_step : ChannelMachine → thread → option ChannelEffect → ChannelMachine → Prop :=
  | step_publish_enter c r value :
      length value = width →
      channel_step (MkChannelMachine c publish_idle r) producer None
           (MkChannelMachine c (publish_copying value 0) r)
  | step_publish_word c r value done w slot :
      value !! done = Some w → slots_ c !! writer_ c = Some slot →
      channel_step (MkChannelMachine c (publish_copying value done) r) producer None
           (MkChannelMachine (with_slot c (writer_ c) (<[done := w]> slot))
                      (publish_copying value (S done)) r)
  | step_publish_exchange c r value :
      channel_step (MkChannelMachine c (publish_copying value width) r) producer (Some (published value))
           (MkChannelMachine (MkChannel (slots_ c) (index (middle_ c)) (reader_ c)
                                 (Nat.lor (writer_ c) kDirty)) publish_idle r)
  | step_read_clean c p :
      dirty (middle_ c) = false →
      channel_step (MkChannelMachine c p read_idle) consumer (Some looked)
           (MkChannelMachine c p (read_copying []))
  | step_read_dirty c p :
      dirty (middle_ c) = true →
      channel_step (MkChannelMachine c p read_idle) consumer (Some looked) (MkChannelMachine c p read_dirty)
  | step_read_exchange c p :
      channel_step (MkChannelMachine c p read_dirty) consumer None
           (MkChannelMachine (MkChannel (slots_ c) (writer_ c) (index (middle_ c)) (reader_ c))
                      p (read_copying []))
  | step_read_word c p words slot w :
      length words < width →
      slots_ c !! reader_ c = Some slot → slot !! length words = Some w →
      channel_step (MkChannelMachine c p (read_copying words)) consumer None
           (MkChannelMachine c p (read_copying (words ++ [w])))
  | step_read_return c p words :
      length words = width →
      channel_step (MkChannelMachine c p (read_copying words)) consumer (Some (returned words))
           (MkChannelMachine c p read_idle).
End latest.
End Latest.
