(* ===== verification/ChannelLaws.v ===== *)
(** What the channels promise their two threads.

    The ring refines a bounded queue: the effects of every interleaving are a
    run of the abstract queue, no two plain accesses of a cell race, and every
    call returns after at most four accesses of its own thread.  The triple
    buffer returns whole published values, never an older one than before. *)

From stdpp Require Import relations.
From S2P Require Import Prelude Channels.

#[local] Open Scope nat_scope.

Section run_laws.
Context {S L : Type} (step : S → thread → option L → S → Prop).

Lemma run_invariant (P : S → Prop) s tr s' :
  (∀ s t l s', P s → step s t l s' → P s') → P s → run step s tr s' → P s'.
Proof. intros Hstep H. induction 1; eauto. Qed.

Lemma run_app s tr s' tr' s'' :
  run step s tr s' → run step s' tr' s'' → run step s (tr ++ tr') s''.
Proof.
  intros H1 H2. induction H2 as [|s' tr' s2 t l s3 H IH Hs]; [by rewrite app_nil_r|].
  rewrite app_assoc. eapply run_snoc; [by apply IH|done].
Qed.

Lemma run_cons s t l s' tr s'' :
  step s t l s' → run step s' tr s'' → run step s ((t, l) :: tr) s''.
Proof.
  intros H. apply (run_app s [(t, l)] s'). apply (run_snoc _ s [] s); [constructor|done].
Qed.

(** The steps of one thread, and what it did. *)
Definition steps_of (t : thread) (tr : list (thread * option L)) : nat :=
  length (filter (λ x, x.1 = t) tr).

Definition effects_of (t : thread) (tr : list (thread * option L)) : list L :=
  omap snd (filter (λ x, x.1 = t) tr).

(** A thread whose every silent step lowers a rank that the other thread leaves
    alone takes fewer silent steps than the rank it starts with. *)
Lemma run_bounded (t : thread) (rank : S → nat) s tr s' :
  (∀ s t' l s', step s t' l s' → t' ≠ t → rank s' = rank s) →
  (∀ s s', step s t None s' → rank s' < rank s) →
  run step s tr s' → effects_of t tr = [] → steps_of t tr + rank s' ≤ rank s.
Proof.
  intros Hother Hown. unfold effects_of, steps_of.
  induction 1 as [|s tr s' t' l s'' Hr IH Hs]; [cbn; lia|].
  rewrite filter_app, omap_app, length_app.
  destruct (decide (t' = t)) as [->|Hne].
  - rewrite filter_cons_True by done. cbn. destruct l as [l|].
    + by intros [_ [=]]%app_nil.
    + intros [He _]%app_nil. specialize (IH He). apply Hown in Hs. lia.
  - rewrite filter_cons_False by done. cbn. rewrite app_nil_r. intros He.
    rewrite (Hother _ _ _ _ Hs Hne). specialize (IH He). lia.
Qed.
End run_laws.

Module SpscLaws.
Import Spsc.
Section spsc.
Context {T : Type} (capacity : nat).
Notation storage := (storage capacity).
Notation increment := (increment capacity).
Implicit Types (q : @Queue T) (l : list T).

(** The cell [k] places after [i]. *)
Definition ring (i k : nat) : nat := if i + k <? storage then i + k else i + k - storage.

Ltac ring_lia := unfold ring, Spsc.increment, Spsc.storage in *; repeat case_match; lia.

Lemma ring_lt i k : i < storage → k ≤ capacity → ring i k < storage.
Proof. ring_lia. Qed.

Lemma ring_0 i : i < storage → ring i 0 = i.
Proof. ring_lia. Qed.

Lemma ring_inj i j k :
  i < storage → j ≤ capacity → k ≤ capacity → ring i j = ring i k → j = k.
Proof. ring_lia. Qed.

Lemma increment_ring i k : i < storage → k < capacity → increment (ring i k) = ring i (k + 1).
Proof. ring_lia. Qed.

Lemma increment_full i : i < storage → increment (ring i capacity) = i.
Proof. ring_lia. Qed.

Lemma ring_increment i k :
  i < storage → k < capacity → ring (increment i) k = ring i (S k).
Proof. ring_lia. Qed.

(** The ring holds the values [l], oldest first. *)
Record holds q l : Prop := {
  holds_cells : length (cells q) = storage;
  holds_read : read_ q < storage;
  holds_length : length l ≤ capacity;
  holds_write : write_ q = ring (read_ q) (length l);
  holds_value k v : l !! k = Some v → cells q !! ring (read_ q) k = Some v
}.

Lemma create_holds zero : holds (create capacity zero) [].
Proof.
  split; cbn; [by rewrite length_replicate|unfold Spsc.storage; lia|lia| |done].
  rewrite ring_0; unfold Spsc.storage; lia.
Qed.

Lemma holds_write_lt q l : holds q l → write_ q < length (cells q).
Proof. intros H. rewrite (holds_cells _ _ H), (holds_write _ _ H). apply ring_lt; apply H. Qed.

Lemma holds_full q l : holds q l → increment (write_ q) = read_ q ↔ length l = capacity.
Proof.
  intros [_ Hr Hl Hw _]. rewrite Hw. split; [|intros ->; by apply increment_full].
  intros E. destruct (decide (length l = capacity)) as [|Hne]; [done|].
  rewrite increment_ring in E by lia. rewrite <- (ring_0 (read_ q) Hr) in E at 2.
  apply ring_inj in E; lia.
Qed.

Lemma holds_empty q l : holds q l → read_ q = write_ q ↔ l = [].
Proof.
  intros [_ Hr Hl Hw _]. rewrite Hw. split; [|intros ->; by rewrite ring_0].
  intros E. rewrite <- (ring_0 (read_ q) Hr) in E at 1. apply ring_inj in E; [|lia..].
  by destruct l.
Qed.

Lemma holds_size q l : holds q l → size_approx capacity q = length l.
Proof. intros [_ Hr Hl Hw _]. unfold size_approx. rewrite Hw. clear Hw. ring_lia. Qed.

(** The producer's cell is none of those that hold a value. *)
Lemma holds_store q l v : holds q l →
  holds (MkQueue (<[write_ q := v]> (cells q)) (read_ q) (write_ q)) l.
Proof.
  intros [Hc Hr Hl Hw Hv]. split; cbn; rewrite ?length_insert; try done.
  intros k x Hk. pose proof (lookup_lt_Some _ _ _ Hk). rewrite list_lookup_insert_ne.
  - by apply Hv.
  - rewrite Hw. intros E. apply ring_inj in E; lia.
Qed.

Lemma holds_publish q l v :
  holds q l → length l < capacity → cells q !! write_ q = Some v →
  holds (MkQueue (cells q) (read_ q) (increment (write_ q))) (l ++ [v]).
Proof.
  intros [Hc Hr Hl Hw Hv] Hn E. split; cbn; rewrite ?length_app; cbn; try (done || lia).
  - by rewrite Hw, increment_ring.
  - intros k x [Hk|(Hk & Hx)]%lookup_app_Some; [by apply Hv|].
    apply list_lookup_singleton_Some in Hx as [Hz <-].
    replace k with (length l) by lia. by rewrite <- Hw.
Qed.

Lemma holds_front q v l : holds q (v :: l) → cells q !! read_ q = Some v.
Proof. intros H. rewrite <- (ring_0 (read_ q)) by apply H. by apply (holds_value _ _ H 0). Qed.

Lemma holds_release q v l : holds q (v :: l) →
  holds (MkQueue (cells q) (increment (read_ q)) (write_ q)) l.
Proof.
  intros [Hc Hr Hl Hw Hv]. cbn in Hl. split; cbn; [done|ring_lia|lia| |].
  - rewrite Hw. cbn. by rewrite ring_increment by lia.
  - intros k x Hk. pose proof (lookup_lt_Some _ _ _ Hk).
    rewrite ring_increment by lia. by apply Hv.
Qed.

(** ** One thread alone *)

Lemma try_push_spec q l v : holds q l →
  (length l = capacity ∧ try_push capacity q v = (false, q)) ∨
  (length l < capacity ∧ ∃ q', try_push capacity q v = (true, q') ∧ holds q' (l ++ [v])).
Proof.
  intros H. pose proof (holds_full q l H) as Hf. pose proof (holds_length q l H).
  unfold try_push. destruct (Nat.eqb_spec (increment (write_ q)) (read_ q)) as [E|E].
  - left. tauto.
  - right. assert (length l < capacity) as Hn by (assert (length l ≠ capacity) by tauto; lia).
    split; [done|]. eexists. split; [done|].
    apply (holds_publish (MkQueue (<[write_ q := v]> (cells q)) (read_ q) (write_ q)));
      [by apply holds_store|done|].
    cbn. apply list_lookup_insert_eq. by eapply holds_write_lt.
Qed.

Lemma try_pop_spec q l : holds q l →
  match l with
  | [] => try_pop capacity q = (None, q)
  | v :: l' => ∃ q', try_pop capacity q = (Some v, q') ∧ holds q' l'
  end.
Proof.
  intros H. pose proof (holds_empty q l H) as He. unfold try_pop.
  destruct (Nat.eqb_spec (read_ q) (write_ q)) as [E|E]; destruct l as [|v l].
  - done.
  - by apply He in E.
  - destruct E. tauto.
  - rewrite (holds_front q v l H). eexists. split; [done|by eapply holds_release].
Qed.

Lemma clear_spec q l : holds q l →
  ∃ q', clear_quiescent capacity q = (length l, q') ∧ holds q' [].
Proof.
  intros H. unfold clear_quiescent. rewrite (holds_size q l H). eexists. split; [done|].
  pose proof (holds_write_lt q l H) as Hlt. rewrite (holds_cells _ _ H) in Hlt.
  split; cbn; [by apply H|done|lia|by rewrite ring_0|done].
Qed.

(** ** Two threads *)

Notation step := (step capacity).
Notation Machine := (@Machine T).

Definition push_at q l (p : @Push T) : Prop :=
  match p with
  | push_idle => True
  | push_entered _ w n => w = write_ q ∧ n = increment w
  | push_room _ w n => w = write_ q ∧ n = increment w ∧ length l < capacity
  | push_stored v n => n = increment (write_ q) ∧ length l < capacity ∧
                       cells q !! write_ q = Some v
  end.

Definition pop_at q l (p : @Pop T) : Prop :=
  match p with
  | pop_idle => True
  | pop_entered r => r = read_ q
  | pop_ready r => r = read_ q ∧ l ≠ []
  | pop_copied r v => r = read_ q ∧ head l = Some v
  end.

(** The machine implements the abstract queue [l]. *)
Record implements (m : Machine) l : Prop := {
  implements_holds : holds (queue m) l;
  implements_push : push_at (queue m) l (pushing m);
  implements_pop : pop_at (queue m) l (popping m)
}.

Lemma start_implements zero : implements (start capacity zero) [].
Proof. split; [apply create_holds|done..]. Qed.

Lemma pop_at_push q l v p : pop_at q l p → pop_at q (l ++ [v]) p.
Proof. destruct p, l; cbn; try done; by intros []. Qed.

Lemma step_simulates m t e m' l : implements m l → step m t e m' →
  match e with
  | None => implements m' l
  | Some e => ∃ l', fifo capacity l e l' ∧ implements m' l'
  end.
Proof.
  intros [Hh Hp Hc] Hs. destruct Hs; cbn in *.
  - by split.
  - exists l. split; [|by split]. constructor. apply (holds_full q l Hh). by destruct Hp as [-> <-].
  - split; cbn; try done. destruct Hp as [-> ->]. split_and!; [done..|].
    pose proof (holds_full q l Hh). pose proof (holds_length _ _ Hh).
    assert (length l ≠ capacity) by tauto. lia.
  - destruct Hp as (-> & -> & Hn). split; cbn; [by apply holds_store| |by destruct c].
    split_and!; [done..|]. by apply list_lookup_insert_eq.
  - destruct Hp as (-> & Hn & E). exists (l ++ [value]). split; [by constructor|].
    split; cbn; [by apply holds_publish|done|]. apply pop_at_push. by destruct c.
  - by split.
  - exists l. split; [|by split]. subst read. apply (holds_empty q l Hh) in H as ->. constructor.
  - split; cbn; try done. subst read. split; [done|]. intros ->. apply H.
    by apply (holds_empty q [] Hh).
  - destruct Hc as [-> Hl]. split; cbn; try done. split; [done|].
    destruct l as [|v l]; [done|]. rewrite (holds_front q v l Hh) in H. by simplify_eq/=.
  - destruct Hc as [-> Hl]. destruct l as [|v l]; simplify_eq/=. exists l. split; [constructor|].
    split; cbn; [by eapply holds_release| |done].
    destruct p; cbn in *; try done; [|]; destruct_and!; split_and!; (done || lia).
Qed.

Lemma run_simulates m tr m' l : implements m l → run step m tr m' →
  ∃ l', fifo_run capacity l (effects tr) l' ∧ implements m' l'.
Proof.
  intros H. induction 1 as [m|m tr m' t e m'' Hr IH Hs]; [exists l; split; [constructor|done]|].
  destruct (IH H) as (l' & Hf & Hi). pose proof (step_simulates _ _ _ _ _ Hi Hs) as Hsim.
  unfold effects in *. rewrite omap_app. cbn. destruct e as [e|].
  - destruct Hsim as (l'' & Hfe & Hi'). exists l''. split; [by eapply fifo_run_snoc|done].
  - exists l'. rewrite app_nil_r. done.
Qed.

(** An undisturbed call makes the accesses of the sequential operation. *)
Lemma push_alone q l c v : holds q l →
  ∃ b q' tr, try_push capacity q v = (b, q') ∧
    run step (MkMachine q push_idle c) tr (MkMachine q' push_idle c) ∧
    effects tr = [if b : bool then pushed v else push_refused v].
Proof.
  intros Hh. unfold try_push. destruct (Nat.eqb_spec (increment (write_ q)) (read_ q)) as [E|E].
  - do 3 eexists. split; [done|]. split.
    + eapply run_cons; [by apply step_push_enter|]. eapply run_cons; [by apply step_push_full|].
      constructor.
    + done.
  - do 3 eexists. split; [done|]. split.
    + eapply run_cons; [by apply step_push_enter|]. eapply run_cons; [by apply step_push_room|].
      eapply run_cons; [apply step_push_cell; by eapply holds_write_lt|].
      eapply run_cons; [apply step_push_publish|]. constructor.
    + done.
Qed.

Lemma pop_alone q l p : holds q l →
  ∃ o q' tr, try_pop capacity q = (o, q') ∧
    run step (MkMachine q p pop_idle) tr (MkMachine q' p pop_idle) ∧
    effects tr = [match o with Some v => popped v | None => pop_refused end].
Proof.
  intros Hh. unfold try_pop. destruct (Nat.eqb_spec (read_ q) (write_ q)) as [E|E].
  - do 3 eexists. split; [done|]. split.
    + eapply run_cons; [by apply step_pop_enter|]. eapply run_cons; [by apply step_pop_empty|].
      constructor.
    + done.
  - destruct l as [|v l]; [by destruct E; apply (holds_empty q [] Hh)|].
    pose proof (holds_front q v l Hh) as Hv. rewrite Hv. do 3 eexists. split; [done|]. split.
    + eapply run_cons; [by apply step_pop_enter|]. eapply run_cons; [by apply step_pop_ready|].
      eapply run_cons; [by apply step_pop_cell|]. eapply run_cons; [apply step_pop_release|].
      constructor.
    + done.
Qed.

(** The values that went in and that came out. *)
Definition pushes (es : list (@Effect T)) : list T :=
  omap (λ e, match e with pushed v => Some v | _ => None end) es.
Definition pops (es : list (@Effect T)) : list T :=
  omap (λ e, match e with popped v => Some v | _ => None end) es.

Lemma fifo_run_order l es l' : fifo_run capacity l es l' → l ++ pushes es = pops es ++ l'.
Proof.
  unfold pushes, pops. induction 1 as [l|l es l1 e l2 Hr IH He]; [apply app_nil_r|].
  rewrite !omap_app, app_assoc, IH. destruct He; cbn; rewrite ?app_nil_r, <- ?app_assoc; done.
Qed.
End spsc.
End SpscLaws.

Module LatestLaws.
Import Latest.
Section latest.
Context {W : Type} (width : nat).
Notation channel_step := (channel_step width).
Notation value := (list W).
Implicit Types (c : @Channel W) (m : @ChannelMachine W) (history : list value).

(** ** The abstract register: the values published so far, and for a read that
    is running the number of the value that was the latest when it looked. *)

Inductive register : list value * option nat → ChannelEffect → list value * option nat → Prop :=
  | register_publish history floor v :
      register (history, floor) (published v) (history ++ [v], floor)
  | register_look history :
      register (history, None) looked (history, Some (length history - 1))
  | register_return history floor k v :
      floor ≤ k → history !! k = Some v →
      register (history, Some floor) (returned v) (history, None).

Inductive register_run : list value * option nat → list ChannelEffect → list value * option nat → Prop :=
  | register_run_nil r : register_run r [] r
  | register_run_snoc r es r' e r'' :
      register_run r es r' → register r' e r'' → register_run r (es ++ [e]) r''.

Definition channel_effects (tr : list (thread * option (@ChannelEffect W))) : list ChannelEffect := omap snd tr.

(** ** The invariant *)

Lemma index_clean i : i < 3 → index i = i ∧ dirty i = false.
Proof. destruct i as [|[|[|]]]; [by split..|lia]. Qed.

Lemma index_dirty i : i < 3 → index (Nat.lor i kDirty) = i ∧ dirty (Nat.lor i kDirty) = true.
Proof. destruct i as [|[|[|]]]; [by split..|lia]. Qed.

(** The three indices are three different slots. *)
Record ownership c : Prop := {
  owns_writer : writer_ c < 3;
  owns_reader : reader_ c < 3;
  owns_middle : index (middle_ c) < 3;
  owns_distinct : writer_ c ≠ reader_ c ∧ writer_ c ≠ index (middle_ c) ∧
                  reader_ c ≠ index (middle_ c)
}.

(** Slot [i] slot_holds the value number [k], whole. *)
Definition slot_holds c history i k : Prop :=
  ∃ v, slots_ c !! i = Some v ∧ history !! k = Some v.

Definition publish_at c (p : @Publish W) : Prop :=
  match p with
  | publish_idle => True
  | publish_copying v done =>
      length v = width ∧ done ≤ width ∧
      ∃ slot, slots_ c !! writer_ c = Some slot ∧ take done slot = take done v
  end.

Definition read_at c (number : nat) (floor : option nat) (r : @Read W) : Prop :=
  match r with
  | read_idle => floor = None
  | read_dirty => dirty (middle_ c) = true ∧ is_Some floor
  | read_copying words =>
      (∃ f, floor = Some f ∧ f ≤ number) ∧ length words ≤ width ∧
      ∃ slot, slots_ c !! reader_ c = Some slot ∧ words = take (length words) slot
  end.

(** The reader's slot slot_holds the value [number]; the middle slot, when dirty, the
    latest one. *)
Record represents m history floor number : Prop := {
  represents_slots : length (slots_ (channel m)) = 3;
  represents_width i slot : slots_ (channel m) !! i = Some slot → length slot = width;
  represents_owns : ownership (channel m);
  represents_reader : slot_holds (channel m) history (reader_ (channel m)) number;
  represents_latest :
    if dirty (middle_ (channel m))
    then slot_holds (channel m) history (index (middle_ (channel m))) (length history - 1)
    else number = length history - 1;
  represents_floor f : floor = Some f → f ≤ length history - 1;
  represents_publish : publish_at (channel m) (publishing m);
  represents_read : read_at (channel m) number floor (reading m)
}.

Ltac fields := cbn [channel slots_ writer_ reader_ middle_ publishing reading publish_at read_at].

Lemma start_represents zero : length zero = width → represents (channel_start zero) [zero] None 0.
Proof.
  intros Hz. split; cbn; try done.
  - intros [|[|[|]]] slot [= <-]; done.
  - split; cbn; lia.
  - by exists zero.
Qed.

(** What the reader and the middle slot hold is untouched by the writer. *)
Lemma slot_holds_with_slot c history i s j k :
  i ≠ j → slot_holds c history j k → slot_holds (with_slot c i s) history j k.
Proof. intros Hij (v & E & Hk). exists v. cbn. by rewrite list_lookup_insert_ne. Qed.

Lemma slot_holds_grows c history v i k : slot_holds c history i k → slot_holds c (history ++ [v]) i k.
Proof. intros (x & E & Hk). exists x. split; [done|by apply lookup_app_l_Some]. Qed.

Lemma take_word (slot v : value) done w :
  v !! done = Some w → done < length slot → take done slot = take done v →
  take (S done) (<[done := w]> slot) = take (S done) v.
Proof.
  intros Hv Hl E. rewrite (take_S_r v done w Hv), <- E.
  rewrite (take_S_r _ done w) by (by apply list_lookup_insert_eq).
  by rewrite take_insert_ge by lia.
Qed.

Lemma publish_word m history floor number v done w slot :
  represents m history floor number → publishing m = publish_copying v done →
  v !! done = Some w → slots_ (channel m) !! writer_ (channel m) = Some slot →
  represents (MkChannelMachine (with_slot (channel m) (writer_ (channel m)) (<[done := w]> slot))
                        (publish_copying v (S done)) (reading m)) history floor number.
Proof.
  intros [Hs Hw Ho Hr Hl Hf Hp Hread] Ep Hv E. destruct m as [c p r]. cbn in *. subst p.
  pose proof Ho as [Hwr Hrd Hmid (Hd1 & Hd2 & Hd3)].
  destruct Hp as (Hlen & Hdone & slot' & E' & Htake).
  assert (slot' = slot) as -> by congruence.
  pose proof (Hw _ _ E) as Hslot. pose proof (lookup_lt_Some _ _ _ Hv) as Hlt.
  split; cbn; rewrite ?length_insert; try done.
  - intros i s. rewrite list_lookup_insert_Some. intros [(? & <- & ?)|[? Hi]]; [|by eapply Hw].
    by rewrite length_insert.
  - by apply slot_holds_with_slot.
  - destruct (dirty _); [by apply slot_holds_with_slot|done].
  - split_and!; [done|lia|]. eexists. rewrite list_lookup_insert_eq by lia. split; [done|].
    apply take_word; [done|lia|done].
  - destruct r as [| |words]; cbn in *; [done..|]. destruct Hread as (? & ? & s & ? & ?).
    split_and!; [done..|]. exists s. by rewrite list_lookup_insert_ne.
Qed.

Lemma publish_exchange m history floor number v :
  represents m history floor number → publishing m = publish_copying v width →
  represents
    (MkChannelMachine (MkChannel (slots_ (channel m)) (index (middle_ (channel m)))
                          (reader_ (channel m)) (Nat.lor (writer_ (channel m)) kDirty))
               publish_idle (reading m)) (history ++ [v]) floor number.
Proof.
  intros [Hs Hw Ho Hr Hl Hf Hp Hread] Ep. destruct m as [c p r]. cbn in *. subst p.
  pose proof Ho as [Hwr Hrd Hmid (Hd1 & Hd2 & Hd3)].
  destruct Hp as (Hlen & _ & slot & E & Htake). pose proof (Hw _ _ E) as Hslot.
  rewrite !take_ge in Htake by lia. subst slot.
  destruct (index_dirty (writer_ c) Hwr) as [Hi Hd].
  split; fields; rewrite ?Hi, ?Hd; try done.
  - split; fields; rewrite ?Hi; [done..|]. split_and!; congruence.
  - by apply slot_holds_grows.
  - exists v. split; [done|]. rewrite length_app. cbn.
    replace (length history + 1 - 1) with (length history) by lia. by apply list_lookup_middle.
  - intros f Hfl. rewrite length_app. specialize (Hf f Hfl). lia.
  - destruct r as [| |words]; fields; [done| |done]. rewrite Hd. by destruct Hread.
Qed.

Lemma read_exchange m history floor number :
  represents m history floor number → reading m = read_dirty →
  represents
    (MkChannelMachine (MkChannel (slots_ (channel m)) (writer_ (channel m))
                          (index (middle_ (channel m))) (reader_ (channel m)))
               (publishing m) (read_copying [])) history floor (length history - 1).
Proof.
  intros [Hs Hw Ho Hr Hl Hf Hp Hread] Er. destruct m as [c p r]. cbn in *. subst r.
  pose proof Ho as [Hwr Hrd Hmid (Hd1 & Hd2 & Hd3)].
  destruct Hread as [Hd [f Hfl]]. rewrite Hd in Hl.
  destruct (index_clean (reader_ c) Hrd) as [Hi Hc].
  split; fields; rewrite ?Hi, ?Hc; try done.
  - split; fields; rewrite ?Hi; [done..|]. split_and!; congruence.
  - split_and!; [exists f; eauto|cbn; lia|]. destruct Hl as (s & E & _). by exists s.
Qed.

(** A read that looked keeps, or is about to take, a value at least as recent as
    the latest at that moment. *)
Lemma read_look m history number : represents m history None number → reading m = read_idle →
  represents (MkChannelMachine (channel m) (publishing m)
                (if dirty (middle_ (channel m)) then read_dirty else read_copying []))
    history (Some (length history - 1)) number.
Proof.
  intros [Hs Hw Ho Hr Hl Hf Hp Hread] Er. destruct m as [c p r]. cbn in *. subst r.
  destruct (dirty (middle_ c)) eqn:Hd; split; fields; rewrite ?Hd; try done;
    try (by intros f [= <-]).
  split_and!; [eexists; split; [done|lia]|cbn; lia|]. destruct Hr as (s & E & _). by exists s.
Qed.

Lemma read_word m history floor number words slot w :
  represents m history floor number → reading m = read_copying words →
  slots_ (channel m) !! reader_ (channel m) = Some slot → slot !! length words = Some w →
  represents (MkChannelMachine (channel m) (publishing m) (read_copying (words ++ [w])))
    history floor number.
Proof.
  intros [Hs Hw Ho Hr Hl Hf Hp Hread] Er E Hword. destruct m as [c p r]. cbn in *. subst r.
  split; fields; try done. destruct Hread as (Hfl & Hlen & slot' & E' & Hwords).
  assert (slot' = slot) as -> by congruence. pose proof (lookup_lt_Some _ _ _ Hword).
  pose proof (Hw _ _ E). rewrite length_app. cbn. split_and!; [done|lia|].
  exists slot. split; [done|]. rewrite Nat.add_1_r, (take_S_r _ _ _ Hword). by rewrite <- Hwords.
Qed.

Lemma read_return m history floor number words :
  represents m history floor number → reading m = read_copying words → length words = width →
  represents (MkChannelMachine (channel m) (publishing m) read_idle) history None number ∧
  register (history, floor) (returned words) (history, None).
Proof.
  intros [Hs Hw Ho Hr Hl Hf Hp Hread] Er Hlen. destruct m as [c p r]. cbn in *. subst r.
  destruct Hread as ((f & -> & Hfn) & _ & slot & E & Hwords). pose proof (Hw _ _ E).
  rewrite take_ge in Hwords by lia. subst slot. split; [by split|].
  destruct Hr as (v & Ev & Hh). econstructor; [exact Hfn|congruence].
Qed.

Lemma step_registers m t e m' history floor number :
  represents m history floor number → channel_step m t e m' →
  ∃ history' floor' number', represents m' history' floor' number' ∧
    match e with
    | None => history' = history ∧ floor' = floor
    | Some e => register (history, floor) e (history', floor')
    end.
Proof.
  intros Hi Hs. destruct Hs.
  - exists history, floor, number. split; [|done]. destruct Hi. split; try done. fields.
    split_and!; [done|lia|]. destruct (lookup_lt_is_Some_2 (slots_ c) (writer_ c)) as [s E].
    + cbn in *. destruct represents_owns0. lia.
    + by exists s.
  - exists history, floor, number. split; [|done]. by eapply (publish_word _ _ _ _ value done) in Hi.
  - exists (history ++ [value]), floor, number. split; [|constructor].
    by apply (publish_exchange _ _ _ _ value) in Hi.
  - assert (floor = None) as -> by exact (represents_read _ _ _ _ Hi).
    apply read_look in Hi; [|done]. cbn in Hi. rewrite H in Hi. do 3 eexists. split; [exact Hi|].
    constructor.
  - assert (floor = None) as -> by exact (represents_read _ _ _ _ Hi).
    apply read_look in Hi; [|done]. cbn in Hi. rewrite H in Hi. do 3 eexists. split; [exact Hi|].
    constructor.
  - exists history, floor, (length history - 1). split; [|done].
    by apply read_exchange in Hi.
  - exists history, floor, number. split; [|done]. by eapply read_word in Hi.
  - exists history, None, number. by eapply read_return in Hi.
Qed.

Lemma run_registers m tr m' history floor number :
  represents m history floor number → run channel_step m tr m' →
  ∃ history' floor' number', represents m' history' floor' number' ∧
    register_run (history, floor) (channel_effects tr) (history', floor').
Proof.
  intros Hi. induction 1 as [m|m tr m' t e m'' Hr IH Hs].
  - do 3 eexists. split; [done|constructor].
  - destruct (IH Hi) as (h & f & n & Hi' & Hreg).
    destruct (step_registers _ _ _ _ _ _ _ Hi' Hs) as (h' & f' & n' & Hi'' & He).
    exists h', f', n'. split; [done|]. unfold channel_effects in *. rewrite omap_app. cbn.
    destruct e as [e|]; [by eapply register_run_snoc|].
    destruct He as [-> ->]. by rewrite app_nil_r.
Qed.

(** The values the channel_effects publish are the history. *)
Definition publishes (es : list (@ChannelEffect W)) : list value :=
  omap (λ e, match e with published v => Some v | _ => None end) es.

Lemma register_run_history r es r' : register_run r es r' → r'.1 = r.1 ++ publishes es.
Proof.
  unfold publishes. induction 1 as [r|r es r1 e r2 Hr IH He]; [by rewrite app_nil_r|].
  rewrite omap_app, app_assoc, <- IH. destruct He; cbn; by rewrite ?app_nil_r.
Qed.

(** ** One thread alone *)

Lemma publish_read c v : ownership c → length (slots_ c) = 3 →
  (read (publish c v)).1 = Some v.
Proof.
  intros [Hw Hr Hm _] Hs. destruct (index_dirty _ Hw) as [Hi Hd].
  unfold read, acquire_read_slot, publish. fields. rewrite Hd, Hi. fields.
  by rewrite list_lookup_insert_eq by lia.
Qed.
End latest.
End LatestLaws.

(** The allocation of a runtime ring fits the machine and has the storage. *)
Lemma allocation_bytes_fits size capacity n : (0 < size)%N →
  allocation_bytes size capacity = Some n →
  (n < 2 ^ 64)%N ∧ ∃ k, checked_storage size capacity = Some k ∧ (n = k * size)%N.
Proof.
  intros Hs E. unfold checked_storage. rewrite E. unfold allocation_bytes in E.
  destruct ((capacity =? 0)%N || _) eqn:Hb; [done|]. injection E as <-. split; [|eauto].
  apply orb_false_iff in Hb as [_ Hb%N.leb_gt].
  assert ((capacity + 1) * size <= (2 ^ 64 - 1) / size * size)%N by (apply N.mul_le_mono_r; lia).
  pose proof (N.Div0.mul_div_le (2 ^ 64 - 1) size). lia.
Qed.

(** ** No call waits for the other thread *)

Section progress.
Context {T : Type} (capacity : nat).

Definition spsc_rank (t : thread) (m : @Spsc.Machine T) : nat :=
  match t with
  | producer =>
      match Spsc.pushing m with
      | Spsc.push_idle => 3 | Spsc.push_entered _ _ _ => 2
      | Spsc.push_room _ _ _ => 1 | Spsc.push_stored _ _ => 0
      end
  | consumer =>
      match Spsc.popping m with
      | Spsc.pop_idle => 3 | Spsc.pop_entered _ => 2
      | Spsc.pop_ready _ => 1 | Spsc.pop_copied _ _ => 0
      end
  end.

Lemma spsc_bounded m tr m' t :
  run (@Spsc.step T capacity) m tr m' → effects_of t tr = [] → steps_of t tr ≤ 3.
Proof.
  intros Hr He. assert (spsc_rank t m ≤ 3) by (destruct m as [q [] []], t; cbn; lia).
  pose proof (run_bounded (@Spsc.step T capacity) t (spsc_rank t) m tr m') as H0.
  assert (steps_of t tr + spsc_rank t m' ≤ spsc_rank t m); [|lia].
  apply H0; [| |done..].
  - intros s t' l s' Hs. destruct Hs, t; cbn; done.
  - intros s s' Hs. destruct t; inversion Hs; subst; cbn; lia.
Qed.

Lemma spsc_enabled zero tr m t :
  run (@Spsc.step T capacity) (Spsc.start capacity zero) tr m →
  ∃ e m', Spsc.step capacity m t e m'.
Proof.
  intros Hr. destruct (SpscLaws.run_simulates capacity _ _ _ []
    (SpscLaws.start_implements capacity zero) Hr) as (l & _ & [Hh Hp Hc]).
  destruct m as [q p c], t; cbn in *.
  - destruct p as [|v w n|v w n|v n]; [do 2 eexists; by apply (Spsc.step_push_enter _ q c zero)| | |].
    + destruct (decide (n = Spsc.read_ q)); do 2 eexists;
        [by apply Spsc.step_push_full|by apply Spsc.step_push_room].
    + do 2 eexists. apply Spsc.step_push_cell. destruct Hp as (-> & _).
      by eapply SpscLaws.holds_write_lt.
    + do 2 eexists. apply Spsc.step_push_publish.
  - destruct c as [|r|r|r v]; [do 2 eexists; apply Spsc.step_pop_enter| | |].
    + destruct (decide (r = Spsc.write_ q)); do 2 eexists;
        [by apply Spsc.step_pop_empty|by apply Spsc.step_pop_ready].
    + destruct Hc as [-> Hl]. destruct l as [|v l]; [done|].
      do 2 eexists. apply Spsc.step_pop_cell. by eapply SpscLaws.holds_front.
    + do 2 eexists. apply Spsc.step_pop_release.
Qed.

Context (width : nat).

Definition latest_rank (t : thread) (m : @Latest.ChannelMachine T) : nat :=
  match t with
  | producer =>
      match Latest.publishing m with
      | Latest.publish_idle => width + 1
      | Latest.publish_copying v k => length v - k
      end
  | consumer =>
      match Latest.reading m with
      | Latest.read_idle => 0
      | Latest.read_dirty => width + 1
      | Latest.read_copying words => width - length words
      end
  end.

Lemma latest_bounded zero tr m tr' m' t : length zero = width →
  run (@Latest.channel_step T width) (Latest.channel_start zero) tr m → run (@Latest.channel_step T width) m tr' m' →
  effects_of t tr' = [] → steps_of t tr' ≤ width + 1.
Proof.
  intros Hz Hr Hr' He.
  destruct (LatestLaws.run_registers width _ _ _ _ _ _ (LatestLaws.start_represents width zero Hz) Hr)
    as (h & f & n & Hi & _).
  assert (latest_rank t m ≤ width + 1).
  { destruct t; cbn.
    - pose proof (LatestLaws.represents_publish _ _ _ _ _ Hi) as Hp.
      destruct (Latest.publishing m); cbn in Hp; lia.
    - destruct (Latest.reading m); lia. }
  assert (steps_of t tr' + latest_rank t m' ≤ latest_rank t m); [|lia].
  apply (run_bounded (@Latest.channel_step T width) t (latest_rank t) m tr' m'); [| |done..].
  - intros s t' l s' Hs. destruct Hs, t; cbn; done.
  - intros s s' Hs. destruct t; inversion Hs; subst; cbn; try lia.
    + pose proof (lookup_lt_Some _ _ _ H0). lia.
    + rewrite length_app. cbn. lia.
Qed.

Lemma latest_enabled zero tr m t : length zero = width →
  run (@Latest.channel_step T width) (Latest.channel_start zero) tr m → ∃ e m', Latest.channel_step width m t e m'.
Proof.
  intros Hz Hr.
  destruct (LatestLaws.run_registers width _ _ _ _ _ _ (LatestLaws.start_represents width zero Hz) Hr)
    as (h & f & n & [Hs Hw Ho Hrd Hl Hf Hp Hread] & _).
  destruct m as [c p r], t; cbn in *.
  - destruct p as [|v k]; [do 2 eexists; by apply (Latest.step_publish_enter _ c r zero)|].
    destruct Hp as (Hv & Hk & slot & E & _). destruct (decide (k = width)) as [->|Hne].
    + do 2 eexists. apply Latest.step_publish_exchange.
    + destruct (lookup_lt_is_Some_2 v k) as [w Ew]; [lia|].
      do 2 eexists. by eapply Latest.step_publish_word.
  - destruct r as [| |words].
    + destruct (Latest.dirty (Latest.middle_ c)) eqn:Hd; do 2 eexists;
        [by apply Latest.step_read_dirty|by apply Latest.step_read_clean].
    + do 2 eexists. apply Latest.step_read_exchange.
    + destruct Hread as (_ & Hk & slot & E & _). pose proof (Hw _ _ E).
      destruct (decide (length words = width)) as [Heq|Hne].
      * do 2 eexists. by apply Latest.step_read_return.
      * destruct (lookup_lt_is_Some_2 slot (length words)) as [w Ew]; [lia|].
        do 2 eexists. eapply Latest.step_read_word; [lia|done|done].
Qed.
End progress.

(** ** Properties *)


(** The producer fills a ring of one cell and is refused while the consumer is
    half way through its pop. *)
Definition example_run : list (thread * option (@Spsc.Effect nat)) :=
  [(producer, None); (consumer, None); (producer, None); (producer, None);
   (producer, Some (Spsc.pushed 7)); (consumer, None); (producer, None); (consumer, None);
   (producer, Some (Spsc.push_refused 8)); (consumer, Some (Spsc.popped 7))].

Definition example_end : @Spsc.Machine nat :=
  Spsc.MkMachine (Spsc.MkQueue [7; 0] 1 1) Spsc.push_idle Spsc.pop_idle.

Lemma example_runs : run (Spsc.step 1) (Spsc.start 1 0) example_run example_end.
Proof.
  unfold example_run. do 2 (eapply run_cons; [constructor; cbn; lia|]).
  eapply run_cons; [by apply Spsc.step_push_room|].
  eapply run_cons; [apply Spsc.step_push_cell; cbn; lia|].
  eapply run_cons; [apply Spsc.step_push_publish|].
  eapply run_cons; [by apply Spsc.step_pop_ready|].
  eapply run_cons; [apply Spsc.step_push_enter|].
  eapply run_cons; [by apply Spsc.step_pop_cell|].
  eapply run_cons; [by apply Spsc.step_push_full|].
  eapply run_cons; [apply Spsc.step_pop_release|]. constructor.
Qed.


(** C31: Reading a [ValueChannel] yields a whole value that was published (or the
    initial one), although both copies go word by word: the value number at
    least that of the last publication that was complete when the read looked.
    So a reader never sees a torn value and never an older one than before; and
    the slot the writer fills is never the one the reader copies. *)
Theorem latest_refines_register {W} (width : nat) (zero : list W) tr m :
  length zero = width →
  run (@Latest.channel_step W width) (Latest.channel_start zero) tr m →
  ∃ history floor,
    LatestLaws.register_run ([zero], None) (LatestLaws.channel_effects tr) (history, floor) ∧
    history = zero :: LatestLaws.publishes (LatestLaws.channel_effects tr) ∧
    Latest.writer_ (Latest.channel m) ≠ Latest.reader_ (Latest.channel m).
Proof.
  intros Hz Hr. destruct (LatestLaws.run_registers width _ _ _ _ _ _
    (LatestLaws.start_represents width zero Hz) Hr) as (h & f & n & Hi & Hreg).
  exists h, f. split_and!; [done|by apply LatestLaws.register_run_history in Hreg|].
  apply (LatestLaws.owns_distinct _ (LatestLaws.represents_owns _ _ _ _ _ Hi)).
Qed.

(** A two-word value published around a read that has already looked. *)
Definition example_reading : list (thread * option (@Latest.ChannelEffect nat)) :=
  [(producer, None); (producer, None); (producer, None);
   (producer, Some (Latest.published [1; 2])); (consumer, Some Latest.looked);
   (producer, None); (consumer, None); (producer, None); (consumer, None); (consumer, None);
   (consumer, Some (Latest.returned [1; 2]))].

Definition example_read : @Latest.ChannelMachine nat :=
  Latest.MkChannelMachine (Latest.MkChannel [[1; 2]; [0; 0]; [3; 0]] 2 0 1)
    (Latest.publish_copying [3; 4] 1) Latest.read_idle.

Lemma example_reads : run (Latest.channel_step 2) (Latest.channel_start [0; 0]) example_reading example_read.
Proof.
  unfold example_reading.
  eapply run_cons; [by apply (Latest.step_publish_enter _ _ _ [1; 2])|].
  do 2 (eapply run_cons; [by eapply Latest.step_publish_word|]).
  eapply run_cons; [apply Latest.step_publish_exchange|].
  eapply run_cons; [by apply Latest.step_read_dirty|].
  eapply run_cons; [by apply (Latest.step_publish_enter _ _ _ [3; 4])|].
  eapply run_cons; [apply Latest.step_read_exchange|].
  eapply run_cons; [by eapply Latest.step_publish_word|].
  do 2 (eapply run_cons; [by eapply Latest.step_read_word; cbn; [lia| |]|]).
  eapply run_cons; [by apply Latest.step_read_return|]. constructor.
Qed.

Lemma latest_refines_register_witness :
  ∃ history floor,
    LatestLaws.register_run ([[0; 0]], None) (LatestLaws.channel_effects example_reading)
      (history, floor) ∧ history = [[0; 0]; [1; 2]].
Proof.
  destruct (latest_refines_register 2 [0; 0] example_reading example_read eq_refl example_reads)
    as (h & f & H & E & _).
  exists h, f. exact (conj H E).
Defined.

(** C32: Neither channel makes a thread wait.  In every state that can be
    reached each thread has a next access, whatever the other one is doing (or
    not doing), and after at most three accesses to the ring, or one more than
    the words of a value to the triple buffer, its next access takes effect: a
    run in which a thread has no effect holds no more of its accesses. *)
Theorem channels_wait_free {T} (capacity : nat) (zero : T) (value : list T) t :
  (∀ tr m, run (@Spsc.step T capacity) (Spsc.start capacity zero) tr m →
     (∃ e m', Spsc.step capacity m t e m') ∧
     ∀ tr' m', run (@Spsc.step T capacity) m tr' m' → effects_of t tr' = [] →
       steps_of t tr' ≤ 3) ∧
  (∀ tr m, run (@Latest.channel_step T (length value)) (Latest.channel_start value) tr m →
     (∃ e m', Latest.channel_step (length value) m t e m') ∧
     ∀ tr' m', run (@Latest.channel_step T (length value)) m tr' m' → effects_of t tr' = [] →
       steps_of t tr' ≤ length value + 1).
Proof.
  split; intros tr m Hr; split; intros.
  - by eapply spsc_enabled.
  - by eapply spsc_bounded.
  - by eapply latest_enabled.
  - by eapply latest_bounded.
Qed.

Lemma channels_wait_free_witness :
  (∃ e m', Spsc.step 1 example_end producer e m') ∧
  (∃ e m', Latest.channel_step 2 example_read producer e m').
Proof.
  destruct (channels_wait_free 1 0 [0; 0] producer) as [H1 H2]. split.
  - exact (proj1 (H1 example_run example_end example_runs)).
  - exact (proj1 (H2 example_reading example_read example_reads)).
Defined.
