(* ===== verification/Wav.v ===== *)
(** WAV files: the decoder and the selection of frames.

    Models packages/project-cooker: wav_reader.cpp ([decode_wav]) and
    wav_selection.cpp ([select_wav] and its two entry points), with [PcmSample]
    of runtime_snapshot.hpp.  A span or vector of bytes is a list of characters.
    A read outside a span is undefined in the source and [thrown] here, so that
    a result that is not [thrown] made no such read.  [std::size_t] is 64 bits. *)

From S2P Require Import Prelude Json Foundation Text.

(** A decoded sample; an [std::int16_t] is an integer. *)
Record PcmSample := MkPcmSample {
  sample_rate : N;
  channels : N;
  interleaved : list Z
}.

(** [std::bit_cast<std::int16_t>] of a [std::uint16_t], and the conversion back. *)
Definition int16_of (bits : N) : Z :=
  if bits <? 2 ^ 15 then Z.of_N bits else (Z.of_N bits - 2 ^ 16)%Z.
Definition uint16_of (sample : Z) : N := Z.to_N (sample mod 2 ^ 16).

Section wav.
Context `{JL : JsonLib}.

Definition unsupported {A} (message : string) : Result A :=
  failure (plain_error unsupported_audio message).

(** ** Reading *)

Definition size (bytes : list ascii) : N := N.of_nat (length bytes).

(** [bytes[at]] of a span. *)
Definition byte_at (bytes : list ascii) (at_ : nat) : Result N :=
  match bytes !! at_ with Some c => success (byte_of c) | None => thrown end.

Definition fourcc (text : string) : list ascii := chars text.

Fixpoint bytes_equal (bytes : list ascii) (offset : nat) (expected : list ascii) : Result bool :=
  match expected with
  | [] => success true
  | c :: expected' =>
      b ← byte_at bytes offset;
      if b =? byte_of c then bytes_equal bytes (S offset) expected' else success false
  end.

Definition has_fourcc (bytes : list ascii) (offset : nat) (expected : list ascii) : Result bool :=
  if Nat.ltb (length bytes) offset || Nat.ltb (length bytes - offset) (length expected)
  then success false
  else bytes_equal bytes offset expected.

Definition read_u16 (bytes : list ascii) (offset : nat) : Result N :=
  b0 ← byte_at bytes offset;
  b1 ← byte_at bytes (offset + 1);
  success (wrap 16 (N.lor b0 (N.shiftl b1 8))).

Definition read_u32 (bytes : list ascii) (offset : nat) : Result N :=
  b0 ← byte_at bytes offset;
  b1 ← byte_at bytes (offset + 1);
  b2 ← byte_at bytes (offset + 2);
  b3 ← byte_at bytes (offset + 3);
  success (wrap 32 (N.lor (N.lor (N.lor b0 (N.shiftl b1 8)) (N.shiftl b2 16)) (N.shiftl b3 24))).

(** [bytes.subspan(offset, count)]. *)
Definition subspan (bytes : list ascii) (offset count : nat) : Result (list ascii) :=
  if Nat.ltb (length bytes) (offset + count) then thrown
  else success (take count (drop offset bytes)).

(** ** The decoder *)

(** The local variables of [decode_wav]; [format] holds what the [fmt ] chunk
    assigns. *)
Record WavFormat := MkWavFormat {
  audio_format : N;
  fmt_channels : N;
  fmt_sample_rate : N;
  byte_rate : N;
  block_align : N;
  bits_per_sample : N
}.

Record WavChunks := MkWavChunks {
  have_fmt : bool;
  have_data : bool;
  format : WavFormat;
  audio_bytes : list ascii
}.

Definition no_chunks : WavChunks := MkWavChunks false false (MkWavFormat 0 0 0 0 0 0) [].

Definition read_format (bytes : list ascii) (at_ : nat) : Result WavFormat :=
  f ← read_u16 bytes at_;
  c ← read_u16 bytes (at_ + 2);
  r ← read_u32 bytes (at_ + 4);
  br ← read_u32 bytes (at_ + 8);
  ba ← read_u16 bytes (at_ + 12);
  bps ← read_u16 bytes (at_ + 14);
  success (MkWavFormat f c r br ba bps).

(** The chunk at [offset], by its name. *)
Definition read_chunk (bytes : list ascii) (offset : nat) (chunk_size : N) (w : WavChunks) :
    Result WavChunks :=
  is_fmt ← has_fourcc bytes offset (fourcc "fmt ");
  if is_fmt : bool then
    if have_fmt w || negb (chunk_size =? 16) then
      unsupported "WAV must contain one PCM fmt chunk"
    else
      f ← read_format bytes (offset + 8);
      success (MkWavChunks true (have_data w) f (audio_bytes w))
  else
    is_data ← has_fourcc bytes offset (fourcc "data");
    if is_data : bool then
      if have_data w then unsupported "WAV must contain one data chunk"
      else
        data ← subspan bytes (offset + 8) (N.to_nat chunk_size);
        success (MkWavChunks (have_fmt w) true (format w) data)
    else success w.

(** The loop over the chunks; every pass advances by a header at least, so the
    length of the file is enough fuel. *)
Fixpoint read_chunks (fuel : nat) (bytes : list ascii) (offset : nat) (w : WavChunks) :
    Result (nat * WavChunks) :=
  if Nat.ltb offset (length bytes) then
    match fuel with
    | O => thrown
    | S fuel' =>
        if Nat.ltb (length bytes - offset) 8 then
          unsupported "WAV chunk header exceeds file length"
        else
          chunk_size ← read_u32 bytes (offset + 4);
          let data_offset := (offset + 8)%nat in
          if N.of_nat (length bytes - data_offset) <? chunk_size then
            unsupported "WAV chunk exceeds file length"
          else
            w' ← read_chunk bytes offset chunk_size w;
            let next := (data_offset + N.to_nat chunk_size)%nat in
            if N.odd chunk_size then
              if Nat.eqb next (length bytes) then
                unsupported "WAV odd-sized chunk is missing padding"
              else read_chunks fuel' bytes (S next) w'
            else read_chunks fuel' bytes next w'
    end
  else success (offset, w).

(** The samples of the data chunk: [fuel] bounds their number. *)
Fixpoint read_samples (fuel : nat) (audio : list ascii) (index : nat) : Result (list Z) :=
  if Nat.ltb index (length audio) then
    match fuel with
    | O => thrown
    | S fuel' =>
        bits ← read_u16 audio index;
        rest ← read_samples fuel' audio (index + 2);
        success (int16_of bits :: rest)
    end
  else success [].

Definition format_supported (f : WavFormat) : bool :=
  (audio_format f =? 1) && ((fmt_channels f =? 1) || (fmt_channels f =? 2)) &&
  ((fmt_sample_rate f =? 44100) || (fmt_sample_rate f =? 48000)) &&
  (bits_per_sample f =? 16) && (block_align f =? u32_mul (fmt_channels f) 2) &&
  (byte_rate f =? u32_mul (fmt_sample_rate f) (block_align f)).

(** [decode_wav] after the chunks. *)
Definition decode_samples (w : WavChunks) : Result PcmSample :=
  let f := format w in
  let data_size := size (audio_bytes w) in
  if negb (format_supported f) then
    unsupported "WAV encoding must be 44.1 or 48 kHz PCM16 mono or stereo"
  else if (data_size =? 0) || negb (data_size mod block_align f =? 0) then
    unsupported "WAV data is not aligned to complete frames"
  else
    let source_frames := data_size / block_align f in
    if (2 ^ 64 - 1) / fmt_channels f <? source_frames then
      unsupported "WAV sample count overflowed"
    else
      let sample_count := u64_mul source_frames (fmt_channels f) in
      if (2 ^ 64 - 1 <? sample_count) || ((2 ^ 64 - 1) / 2 <? sample_count) ||
         negb (u64_mul sample_count 2 =? data_size) then
        unsupported "WAV sample count exceeds supported range"
      else
        samples ← read_samples (length (audio_bytes w)) (audio_bytes w) 0;
        success (MkPcmSample (fmt_sample_rate f) (fmt_channels f) samples).

Definition decode_wav (bytes : list ascii) : Result PcmSample :=
  let not_wave := unsupported "audio is not a RIFF/WAVE file" in
  if size bytes <? 12 then not_wave
  else
    riff ← has_fourcc bytes 0 (fourcc "RIFF");
    if negb riff then not_wave
    else
      wave ← has_fourcc bytes 8 (fourcc "WAVE");
      if negb wave then not_wave
      else
        declared_riff_size ← read_u32 bytes 4;
        if negb (u64_add declared_riff_size 8 =? size bytes) then
          unsupported "RIFF chunk size does not match file length"
        else
          r ← read_chunks (length bytes) bytes 12 no_chunks;
          if negb (Nat.eqb r.1 (length bytes)) || negb (have_fmt r.2) || negb (have_data r.2)
          then unsupported "WAV must contain one fmt and one data chunk"
          else decode_samples r.2.

(** ** The selection *)

Definition invalid_range {A} (message : string) : Result A :=
  failure (plain_error invalid_argument message).

Definition byte_of_value (n : N) : ascii := ascii_of_N (N.land n 255).

Definition append_u16 (output : list ascii) (n : N) : list ascii :=
  output ++ [byte_of_value n; byte_of_value (N.shiftr n 8)].

Definition append_u32 (output : list ascii) (n : N) : list ascii :=
  output ++ ((λ shift, byte_of_value (N.shiftr n shift)) <$> [0; 8; 16; 24]).

Definition wav_header (rate channels data_bytes : N) : list ascii :=
  let output := fourcc "RIFF" in
  let output := append_u32 output (u32_add 36 data_bytes) in
  let output := output ++ fourcc "WAVE" ++ fourcc "fmt " in
  let output := append_u32 output 16 in
  let output := append_u16 output 1 in
  let output := append_u16 output channels in
  let output := append_u32 output rate in
  let output := append_u32 output (u32_mul (u32_mul rate channels) 2) in
  let output := append_u16 output (wrap 16 (u32_mul channels 2)) in
  let output := append_u16 output 16 in
  let output := output ++ fourcc "data" in
  append_u32 output (wrap 32 data_bytes).

(** The loop that appends the samples from [index]; [count] is the number of
    passes, [last_sample - first_sample]. *)
Fixpoint append_samples (count : nat) (samples : list Z) (index : nat) (output : list ascii) :
    Result (list ascii) :=
  match count with
  | O => success output
  | S count' =>
      s ← throwing (samples !! index);
      append_samples count' samples (S index) (append_u16 output (uint16_of s))
  end.

Definition select_wav (source : list ascii) (start_frame end_frame : N) (stereo_only : bool) :
    Result (list ascii) :=
  if end_frame <=? start_frame then
    invalid_range "WAV selection must be a non-empty half-open frame range"
  else if negb stereo_only && (16777216 <? size source) then
    invalid_range "Slice source exceeds byte bound"
  else
    pcm ← decode_wav source;
    let samples := N.of_nat (length (interleaved pcm)) in
    if stereo_only && (negb (sample_rate pcm =? 48000) || negb (channels pcm =? 2)) then
      unsupported "WAV selection requires PCM16 48 kHz stereo input"
    else if (negb (sample_rate pcm =? 48000) && negb (sample_rate pcm =? 44100)) ||
            (negb (channels pcm =? 1) && negb (channels pcm =? 2)) then
      unsupported "WAV selection requires PCM16 44.1/48 kHz mono/stereo input"
    else if negb (samples mod channels pcm =? 0) then
      unsupported "WAV selection source has incomplete frames"
    else if samples / channels pcm <? end_frame then
      invalid_range "WAV selection exceeds the source frame count"
    else
      let selected_frames := u64_sub end_frame start_frame in
      if (2 ^ 64 - 1) / 4 <? selected_frames then
        invalid_range "WAV selection byte length overflowed"
      else
        let data_bytes := u64_mul (u64_mul selected_frames (channels pcm)) 2 in
        if (2 ^ 32 - 1 <? data_bytes) || (2 ^ 64 - 1 - 44 <? data_bytes) ||
           (2 ^ 32 - 1 - 36 <? data_bytes) then
          invalid_range "WAV selection exceeds RIFF size limits"
        else if ((2 ^ 64 - 1) / 2 <? start_frame) || ((2 ^ 64 - 1) / 2 <? end_frame) then
          invalid_range "WAV selection sample index overflowed"
        else
          let first_sample := u64_mul start_frame (channels pcm) in
          let last_sample := u64_mul end_frame (channels pcm) in
          if (samples <? last_sample) || (2 ^ 64 - 1 <? first_sample) then
            invalid_range "WAV selection sample range is unsupported"
          else
            append_samples (N.to_nat (last_sample - first_sample)) (interleaved pcm)
              (N.to_nat first_sample) (wav_header (sample_rate pcm) (channels pcm) data_bytes).

Definition select_pcm16_wav (source : list ascii) (start_frame end_frame : N) :=
  select_wav source start_frame end_frame false.
Definition select_pcm16_stereo_wav (source : list ascii) (start_frame end_frame : N) :=
  select_wav source start_frame end_frame true.
End wav.
