(* ===== verification/WavLaws.v ===== *)
(** Decoding what the selection writes.

    Little-endian reads and writes are inverse; the header that [select_wav]
    writes decodes to the format it was given; so a selection decodes to the
    selected frames of its source. *)

From S2P Require Import Prelude Json Foundation Text Wav.

(** ** Bytes *)

Lemma byte_of_value_spec n : byte_of (byte_of_value n) = n mod 256.
Proof.
  unfold byte_of, byte_of_value. change 255 with (N.ones 8). rewrite N.land_ones.
  apply N_ascii_embedding. by apply N.mod_lt.
Qed.

(** Bytes below [2 ^ k] and a number above them share no bit. *)
Lemma lor_shiftl lo hi k : lo < 2 ^ k → N.lor lo (N.shiftl hi k) = lo + hi * 2 ^ k.
Proof.
  intros Hlo. rewrite <- N.shiftl_mul_pow2. symmetry. rewrite N.add_nocarry_lxor.
  - apply N.lxor_lor. apply N.bits_inj_0. intros i. rewrite N.land_spec.
    destruct (N.ltb_spec i k) as [Hi|Hi].
    + by rewrite N.shiftl_spec_low, andb_false_r.
    + destruct (N.eq_dec lo 0) as [->|Hne]; [by rewrite N.bits_0|].
      rewrite (N.bits_above_log2 lo i); [done|]. apply N.log2_lt_pow2 in Hlo; lia.
  - apply N.bits_inj_0. intros i. rewrite N.land_spec.
    destruct (N.ltb_spec i k) as [Hi|Hi].
    + by rewrite N.shiftl_spec_low, andb_false_r.
    + destruct (N.eq_dec lo 0) as [->|Hne]; [by rewrite N.bits_0|].
      rewrite (N.bits_above_log2 lo i); [done|]. apply N.log2_lt_pow2 in Hlo; lia.
Qed.

Definition le16 (n : N) : list ascii := [byte_of_value n; byte_of_value (N.shiftr n 8)].
Definition le32 (n : N) : list ascii :=
  (λ shift, byte_of_value (N.shiftr n shift)) <$> [0; 8; 16; 24].

Section reads.
Context `{JL : JsonLib}.
Implicit Type l : list ascii.

Lemma byte_at_drop l at_ k rest c : drop at_ l = rest → rest !! k = Some c →
  byte_at l (at_ + k) = success (byte_of c).
Proof. intros <-. rewrite lookup_drop. unfold byte_at. by intros ->. Qed.

Lemma read_u16_bytes l at_ a b rest : drop at_ l = a :: b :: rest →
  read_u16 l at_ = success (byte_of a + byte_of b * 256).
Proof.
  intros E. unfold read_u16. rewrite <- (Nat.add_0_r at_) at 1.
  rewrite (byte_at_drop l at_ 0 _ a E), (byte_at_drop l at_ 1 _ b E) by done.
  cbn [mbind result_bind]. pose proof (byte_of_lt a). pose proof (byte_of_lt b).
  rewrite lor_shiftl by lia. by rewrite wrap_small by lia.
Qed.

Lemma read_u32_bytes l at_ a b c d rest : drop at_ l = a :: b :: c :: d :: rest →
  read_u32 l at_ =
  success (byte_of a + byte_of b * 256 + byte_of c * 65536 + byte_of d * 16777216).
Proof.
  intros E. unfold read_u32. rewrite <- (Nat.add_0_r at_) at 1.
  rewrite (byte_at_drop l at_ 0 _ a E), (byte_at_drop l at_ 1 _ b E),
    (byte_at_drop l at_ 2 _ c E), (byte_at_drop l at_ 3 _ d E) by done.
  cbn [mbind result_bind]. pose proof (byte_of_lt a). pose proof (byte_of_lt b).
  pose proof (byte_of_lt c). pose proof (byte_of_lt d).
  rewrite (lor_shiftl (byte_of a) _ 8) by lia. rewrite (lor_shiftl _ _ 16) by lia.
  rewrite (lor_shiftl _ _ 24) by lia. rewrite wrap_small by lia. f_equal; lia.
Qed.

Lemma read_le16 l at_ n rest : drop at_ l = le16 n ++ rest → n < 2 ^ 16 →
  read_u16 l at_ = success n.
Proof.
  intros E Hn. rewrite (read_u16_bytes _ _ _ _ _ E), !byte_of_value_spec, N.shiftr_div_pow2.
  f_equal. change (2 ^ 8) with 256. dlia.
Qed.

Lemma read_le32 l at_ n rest : drop at_ l = le32 n ++ rest → n < 2 ^ 32 →
  read_u32 l at_ = success n.
Proof.
  intros E Hn. rewrite (read_u32_bytes _ _ _ _ _ _ _ E), !byte_of_value_spec, !N.shiftr_div_pow2.
  f_equal. change (2 ^ 8) with 256. change (2 ^ 16) with 65536. change (2 ^ 24) with 16777216.
  change (2 ^ 0) with 1. dlia.
Qed.

(** In range reads succeed. *)
Lemma read_u16_in l at_ : (at_ + 2 ≤ length l)%nat → ∃ n, read_u16 l at_ = success n ∧ n < 2 ^ 16.
Proof.
  intros H. destruct (drop at_ l) as [|a [|b rest]] eqn:E;
    [apply (f_equal length) in E; rewrite length_drop in E; cbn in E; lia..|].
  rewrite (read_u16_bytes _ _ _ _ _ E). pose proof (byte_of_lt a). pose proof (byte_of_lt b).
  eexists. split; [done|lia].
Qed.

Lemma read_u32_in l at_ : (at_ + 4 ≤ length l)%nat → ∃ n, read_u32 l at_ = success n ∧ n < 2 ^ 32.
Proof.
  intros H. destruct (drop at_ l) as [|a [|b [|c [|d rest]]]] eqn:E;
    [apply (f_equal length) in E; rewrite length_drop in E; cbn in E; lia..|].
  rewrite (read_u32_bytes _ _ _ _ _ _ _ E). pose proof (byte_of_lt a). pose proof (byte_of_lt b).
  pose proof (byte_of_lt c). pose proof (byte_of_lt d). eexists. split; [done|lia].
Qed.

(** ** Names *)

Lemma bytes_equal_spec l at_ expected : (at_ + length expected ≤ length l)%nat →
  bytes_equal l at_ expected =
  success (bool_decide (take (length expected) (drop at_ l) = expected)).
Proof.
  revert at_. induction expected as [|c expected IH]; intros at_ H; cbn [length] in *.
  { by rewrite take_0. }
  destruct (lookup_lt_is_Some_2 l at_) as [x Ex]; [lia|]. cbn [bytes_equal]. unfold byte_at.
  rewrite Ex. cbn [mbind result_bind]. rewrite (drop_S l x at_ Ex). cbn [take].
  destruct (N.eqb_spec (byte_of x) (byte_of c)) as [E|E].
  - apply byte_of_inj in E as ->. rewrite IH by lia. f_equal. apply bool_decide_ext.
    split; [by intros ->|congruence].
  - f_equal. symmetry. apply bool_decide_eq_false_2. intros [= -> ?]. done.
Qed.

Lemma has_fourcc_spec l at_ expected : (at_ + length expected ≤ length l)%nat →
  has_fourcc l at_ expected =
  success (bool_decide (take (length expected) (drop at_ l) = expected)).
Proof.
  intros H. unfold has_fourcc. destruct (Nat.ltb_spec (length l) at_); [lia|].
  destruct (Nat.ltb_spec (length l - at_) (length expected)); [lia|]. by apply bytes_equal_spec.
Qed.

Lemma subspan_in l at_ n : (at_ + n ≤ length l)%nat →
  subspan l at_ n = success (take n (drop at_ l)).
Proof. intros H. unfold subspan. destruct (Nat.ltb_spec (length l) (at_ + n)); [lia|done]. Qed.

Lemma read_format_in l at_ : (at_ + 16 ≤ length l)%nat → ∃ f, read_format l at_ = success f.
Proof.
  intros H. unfold read_format.
  destruct (read_u16_in l at_) as (? & -> & _); [lia|].
  destruct (read_u16_in l (at_ + 2)) as (? & -> & _); [lia|].
  destruct (read_u32_in l (at_ + 4)) as (? & -> & _); [lia|].
  destruct (read_u32_in l (at_ + 8)) as (? & -> & _); [lia|].
  destruct (read_u16_in l (at_ + 12)) as (? & -> & _); [lia|].
  destruct (read_u16_in l (at_ + 14)) as (? & -> & _); [lia|]. eexists. done.
Qed.

(** ** Samples *)

Definition sample_bytes (s : Z) : list ascii := le16 (uint16_of s).

Definition int16 (s : Z) : Prop := (-2 ^ 15 ≤ s < 2 ^ 15)%Z.

Lemma uint16_of_lt s : uint16_of s < 2 ^ 16.
Proof. unfold uint16_of. pose proof (Z.mod_pos_bound s (2 ^ 16)). lia. Qed.

Lemma int16_of_uint16 s : int16 s → int16_of (uint16_of s) = s.
Proof.
  unfold int16, int16_of, uint16_of. intros H.
  destruct (Z.ltb_spec s 0) as [Hs|Hs].
  - replace (s mod 2 ^ 16)%Z with (s + 2 ^ 16)%Z by (apply (Z.mod_unique _ _ (-1)); lia).
    destruct (N.ltb_spec (Z.to_N (s + 2 ^ 16)) (2 ^ 15)); lia.
  - rewrite Z.mod_small by lia. destruct (N.ltb_spec (Z.to_N s) (2 ^ 15)); lia.
Qed.

Lemma int16_of_range n : n < 2 ^ 16 → int16 (int16_of n).
Proof. unfold int16, int16_of. destruct (N.ltb_spec n (2 ^ 15)); lia. Qed.

(** Reading from [index] reads the rest of the data. *)
Lemma read_samples_le samples pre fuel :
  Forall int16 samples → (length samples ≤ fuel)%nat →
  read_samples fuel (pre ++ concat (sample_bytes <$> samples)) (length pre) = success samples.
Proof.
  revert pre fuel. induction samples as [|s samples IH]; intros pre fuel Hs Hf; cbn [length] in Hf.
  - change (concat (sample_bytes <$> [])) with (@nil ascii). rewrite app_nil_r.
    destruct fuel; cbn [read_samples];
      destruct (Nat.ltb_spec (length pre) (length pre)); (lia || done).
  - apply Forall_cons in Hs as [Hs Hss]. destruct fuel as [|fuel]; [lia|]. cbn [read_samples].
    rewrite fmap_cons. cbn [concat]. set (rest := concat (sample_bytes <$> samples)).
    destruct (Nat.ltb_spec (length pre) (length (pre ++ sample_bytes s ++ rest))) as [_|H];
      [|rewrite !length_app in H; cbn in H; lia].
    rewrite (read_le16 _ _ (uint16_of s) rest); [|by rewrite drop_app_length|apply uint16_of_lt].
    cbn [mbind result_bind]. rewrite app_assoc.
    replace (length pre + 2)%nat with (length (pre ++ sample_bytes s)) by (by rewrite length_app).
    rewrite IH by (done || lia). cbn. by rewrite int16_of_uint16.
Qed.
End reads.

(** ** A file of samples *)

(** The header of a file with [n] bytes of data, and the file. *)
Definition header_bytes (rate channels n : N) : list ascii :=
  fourcc "RIFF" ++ le32 (36 + n) ++ fourcc "WAVE" ++
  fourcc "fmt " ++ le32 16 ++ le16 1 ++ le16 channels ++ le32 rate ++ le32 (rate * channels * 2) ++
  le16 (channels * 2) ++ le16 16 ++ fourcc "data" ++ le32 n.

Definition data_of (samples : list Z) : list ascii := concat (sample_bytes <$> samples).

Definition wav_file (rate channels : N) (samples : list Z) : list ascii :=
  header_bytes rate channels (2 * N.of_nat (length samples)) ++ data_of samples.

(** A decoded sample: a supported format and whole frames, at least one. *)
Record pcm_ok (p : PcmSample) : Prop := {
  pcm_rate : sample_rate p = 44100 ∨ sample_rate p = 48000;
  pcm_channels : channels p = 1 ∨ channels p = 2;
  pcm_samples : Forall int16 (interleaved p);
  pcm_nonempty : interleaved p ≠ [];
  pcm_frames : N.of_nat (length (interleaved p)) mod channels p = 0
}.

Lemma length_data samples : length (data_of samples) = (2 * length samples)%nat.
Proof.
  unfold data_of. induction samples as [|s samples IH]; [done|].
  rewrite fmap_cons. cbn [concat]. rewrite length_app, IH. cbn. lia.
Qed.

Lemma length_wav_file rate channels samples :
  length (wav_file rate channels samples) = (44 + 2 * length samples)%nat.
Proof. unfold wav_file. rewrite length_app, length_data. done. Qed.

Section decode.
Context `{JL : JsonLib}.

Lemma append_le16 output n : append_u16 output n = output ++ le16 n.
Proof. done. Qed.
Lemma append_le32 output n : append_u32 output n = output ++ le32 n.
Proof. done. Qed.

Lemma wav_header_bytes rate channels n :
  rate = 44100 ∨ rate = 48000 → channels = 1 ∨ channels = 2 → 36 + n < 2 ^ 32 →
  wav_header rate channels n = header_bytes rate channels n.
Proof.
  intros Hr Hc Hn. unfold wav_header, header_bytes. rewrite !append_le32, !append_le16.
  assert (rate * channels * 2 < 2 ^ 32) by (by destruct Hr as [->| ->], Hc as [->| ->]).
  unfold u32_add, u32_mul. rewrite (wrap_small 32 (36 + n)), (wrap_small 32 (rate * channels)),
    (wrap_small 32 (rate * channels * 2)), (wrap_small 32 (channels * 2)),
    (wrap_small 16 (channels * 2)), (wrap_small 32 n) by lia.
  by rewrite <- !app_assoc.
Qed.

Lemma append_samples_bytes samples index count output :
  (index + count ≤ length samples)%nat →
  append_samples count samples index output =
  success (output ++ data_of (take count (drop index samples))).
Proof.
  revert index output. induction count as [|count IH]; intros index output H; cbn [append_samples].
  { unfold data_of. cbn. by rewrite app_nil_r. }
  destruct (lookup_lt_is_Some_2 samples index) as [s E]; [lia|]. rewrite E.
  cbn [throwing mbind result_bind]. rewrite IH by lia. rewrite (drop_S _ _ _ E).
  cbn [take]. unfold data_of. rewrite fmap_cons. cbn [concat]. by rewrite append_le16, <- app_assoc.
Qed.

(** One pass of the chunk loop over an even chunk. *)
Lemma read_chunks_even fuel bytes offset w n w' :
  (offset + 8 ≤ length bytes)%nat → read_u32 bytes (offset + 4) = success n → N.even n = true →
  n ≤ N.of_nat (length bytes - (offset + 8)) → read_chunk bytes offset n w = success w' →
  read_chunks (S fuel) bytes offset w = read_chunks fuel bytes (offset + 8 + N.to_nat n) w'.
Proof.
  intros Hlen Hn He Hle Hw. cbn [read_chunks].
  destruct (Nat.ltb_spec offset (length bytes)); [|lia].
  destruct (Nat.ltb_spec (length bytes - offset) 8); [lia|]. rewrite Hn. cbn [mbind result_bind].
  destruct (N.ltb_spec (N.of_nat (length bytes - (offset + 8))) n); [lia|].
  rewrite Hw. cbn [mbind result_bind]. by rewrite <- N.negb_even, He.
Qed.

Lemma read_chunks_end fuel bytes w :
  read_chunks fuel bytes (length bytes) w = success (length bytes, w).
Proof. destruct fuel; cbn [read_chunks]; destruct (Nat.ltb_spec (length bytes) (length bytes)); (lia || done). Qed.

Definition file_format (rate channels : N) : WavFormat :=
  MkWavFormat 1 channels rate (rate * channels * 2) (channels * 2) 16.

Lemma read_format_file rate channels samples :
  rate = 44100 ∨ rate = 48000 → channels = 1 ∨ channels = 2 →
  read_format (wav_file rate channels samples) 20 = success (file_format rate channels).
Proof.
  intros Hr Hc. set (file := wav_file rate channels samples). unfold read_format.
  rewrite (read_le16 file 20 1 _ eq_refl) by done.
  rewrite (read_le16 file (20 + 2) channels _ eq_refl) by lia.
  rewrite (read_le32 file (20 + 4) rate _ eq_refl) by lia.
  rewrite (read_le32 file (20 + 8) (rate * channels * 2) _ eq_refl)
    by (destruct Hr as [->| ->], Hc as [->| ->]; done).
  rewrite (read_le16 file (20 + 12) (channels * 2) _ eq_refl) by lia.
  by rewrite (read_le16 file (20 + 14) 16 _ eq_refl) by done.
Qed.

Lemma read_chunk_format rate channels samples :
  rate = 44100 ∨ rate = 48000 → channels = 1 ∨ channels = 2 →
  read_chunk (wav_file rate channels samples) 12 16 no_chunks =
  success (MkWavChunks true false (file_format rate channels) []).
Proof.
  intros Hr Hc. unfold read_chunk.
  rewrite (has_fourcc_spec _ 12 (fourcc "fmt ")) by (rewrite length_wav_file; cbn; lia).
  rewrite bool_decide_eq_true_2 by done. cbn [mbind result_bind no_chunks have_fmt have_data orb negb N.eqb].
  change (16 =? 16) with true. cbn [negb]. change (12 + 8)%nat with 20%nat.
  by rewrite read_format_file.
Qed.

Lemma read_chunk_data rate channels samples :
  let n := 2 * N.of_nat (length samples) in
  read_chunk (wav_file rate channels samples) 36 n
    (MkWavChunks true false (file_format rate channels) []) =
  success (MkWavChunks true true (file_format rate channels) (data_of samples)).
Proof.
  intros n. unfold read_chunk.
  rewrite (has_fourcc_spec _ 36 (fourcc "fmt ")) by (rewrite length_wav_file; cbn; lia).
  rewrite bool_decide_eq_false_2 by done. cbn [mbind result_bind].
  rewrite has_fourcc_spec by (rewrite length_wav_file; cbn; lia).
  rewrite bool_decide_eq_true_2 by done. cbn [mbind result_bind have_data].
  rewrite subspan_in by (rewrite length_wav_file; subst n; lia).
  cbn [mbind result_bind have_fmt format]. do 2 f_equal.
  change (drop (36 + 8) (wav_file rate channels samples)) with (data_of samples).
  apply take_ge. rewrite length_data. subst n. lia.
Qed.

Lemma read_chunks_file rate channels samples :
  rate = 44100 ∨ rate = 48000 → channels = 1 ∨ channels = 2 →
  36 + 2 * N.of_nat (length samples) < 2 ^ 32 →
  let file := wav_file rate channels samples in
  read_chunks (length file) file 12 no_chunks =
  success (length file, MkWavChunks true true (file_format rate channels) (data_of samples)).
Proof.
  intros Hr Hc Hn file. pose proof (length_wav_file rate channels samples) as Hlen. fold file in Hlen.
  replace (length file) with (S (S (length file - 2))) at 1 by lia.
  rewrite (read_chunks_even _ file 12 no_chunks 16
    (MkWavChunks true false (file_format rate channels) []));
    [|lia|by apply (read_le32 file 16 16 _ eq_refl)|done|lia|by apply read_chunk_format].
  change (12 + 8 + N.to_nat 16)%nat with 36%nat.
  rewrite (read_chunks_even _ file 36 _ (2 * N.of_nat (length samples))
    (MkWavChunks true true (file_format rate channels) (data_of samples)));
    [|lia|apply (read_le32 file 40 _ _ eq_refl); lia|by rewrite N.even_mul|lia|apply read_chunk_data].
  replace (36 + 8 + N.to_nat (2 * N.of_nat (length samples)))%nat with (length file) by lia.
  apply read_chunks_end.
Qed.

Lemma format_supported_file rate channels :
  rate = 44100 ∨ rate = 48000 → channels = 1 ∨ channels = 2 →
  format_supported (file_format rate channels) = true.
Proof. by intros [->| ->] [->| ->]. Qed.

Lemma decode_wav_file p : pcm_ok p → 36 + 2 * N.of_nat (length (interleaved p)) < 2 ^ 32 →
  decode_wav (wav_file (sample_rate p) (channels p) (interleaved p)) = success p.
Proof.
  intros [Hr Hc Hs Hne Hf] Hb. destruct p as [rate ch samples].
  cbn [sample_rate channels interleaved] in *.
  pose proof (length_wav_file rate ch samples) as Hlen.
  assert (size (wav_file rate ch samples) = 44 + 2 * N.of_nat (length samples)) as Hsize
    by (unfold size; lia).
  unfold decode_wav. rewrite Hsize. destruct (N.ltb_spec (44 + 2 * N.of_nat (length samples)) 12); [lia|].
  rewrite !has_fourcc_spec by (rewrite Hlen; cbn; lia). rewrite !bool_decide_eq_true_2 by done.
  cbn [mbind result_bind negb].
  rewrite (read_le32 (wav_file rate ch samples) 4 (36 + 2 * N.of_nat (length samples)) _ eq_refl) by lia.
  cbn [mbind result_bind]. rewrite u64_add_small by lia.
  replace (36 + _ + 8) with (44 + 2 * N.of_nat (length samples)) by lia. rewrite N.eqb_refl.
  cbn [negb]. rewrite read_chunks_file by (done || lia).
  cbn [mbind result_bind fst snd have_fmt have_data negb orb].
  rewrite Nat.eqb_refl. cbn [negb orb]. unfold decode_samples. cbn [format audio_bytes].
  rewrite format_supported_file by done. cbn [negb file_format block_align fmt_channels fmt_sample_rate].
  assert (size (data_of samples) = 2 * N.of_nat (length samples)) as ->
    by (unfold size; rewrite length_data; lia).
  assert (N.of_nat (length samples) ≠ 0) as Hpos by (destruct samples; [done|cbn; lia]).
  assert (2 * N.of_nat (length samples) mod (ch * 2) = 0) as ->.
  { rewrite (N.mul_comm ch), N.Div0.mul_mod_distr_l. lia. }
  destruct (N.eqb_spec (2 * N.of_nat (length samples)) 0); [lia|]. cbn [negb orb N.eqb].
  assert (2 * N.of_nat (length samples) / (ch * 2) = N.of_nat (length samples) / ch) as ->.
  { rewrite (N.mul_comm ch). apply N.Div0.div_mul_cancel_l. lia. }
  assert (N.of_nat (length samples) / ch * ch = N.of_nat (length samples)) as Hmul.
  { rewrite N.mul_comm. symmetry. apply N.Div0.div_exact. done. }
  assert (N.of_nat (length samples) / ch ≤ N.of_nat (length samples)) by (apply N.Div0.div_le_upper_bound; nia).
  unfold u64_mul. rewrite Hmul, !(wrap_small 64) by (rewrite ?(wrap_small 64) by lia; lia).
  destruct (N.ltb_spec ((2 ^ 64 - 1) / ch) (N.of_nat (length samples) / ch)) as [Hx|_].
  { destruct Hc as [->| ->]; revert Hx; dlia. }
  assert ((2 ^ 64 - 1 <? N.of_nat (length samples)) = false) as -> by lia.
  assert (((2 ^ 64 - 1) / 2 <? N.of_nat (length samples)) = false) as -> by (apply N.ltb_ge; dlia).
  replace (N.of_nat (length samples) * 2) with (2 * N.of_nat (length samples)) by lia.
  rewrite N.eqb_refl. cbn [negb orb]. rewrite length_data.
  by rewrite (read_samples_le samples [] (2 * length samples)) by (done || lia).
Qed.

(** ** What decodes *)

(** The data that was found is part of the file. *)
Definition within (bytes : list ascii) (w : WavChunks) : Prop :=
  (length (audio_bytes w) ≤ length bytes)%nat.

Lemma read_chunk_post bytes offset n w :
  (offset + 8 + N.to_nat n ≤ length bytes)%nat → within bytes w →
  post (within bytes) (read_chunk bytes offset n w).
Proof.
  intros H Hw. unfold read_chunk. rewrite (has_fourcc_spec _ _ (fourcc "fmt ")) by (cbn; lia).
  cbn [mbind result_bind]. destruct (bool_decide _).
  - destruct (have_fmt w); [done|]. cbn [orb]. destruct (N.eqb_spec n 16) as [->|]; [|done].
    cbn [negb]. destruct (read_format_in bytes (offset + 8)) as [f ->]; [lia|done].
  - rewrite has_fourcc_spec by (cbn; lia). cbn [mbind result_bind]. destruct (bool_decide _); [|done].
    destruct (have_data w); [done|]. rewrite subspan_in by lia. cbn. unfold within. cbn.
    rewrite length_take, length_drop. lia.
Qed.

(** The loop never reads outside the file, and ends. *)
Lemma read_chunks_post fuel bytes offset w :
  (length bytes ≤ fuel + offset)%nat → within bytes w →
  post (λ r, within bytes r.2) (read_chunks fuel bytes offset w).
Proof.
  revert offset w. induction fuel as [|fuel IH]; intros offset w Hf Hw; cbn [read_chunks];
    destruct (Nat.ltb_spec offset (length bytes)); try done; [lia|].
  destruct (Nat.ltb_spec (length bytes - offset) 8); [done|].
  destruct (read_u32_in bytes (offset + 4)) as (n & -> & _); [lia|]. cbn [mbind result_bind].
  destruct (N.ltb_spec (N.of_nat (length bytes - (offset + 8))) n); [done|].
  eapply post_bind; [apply read_chunk_post; [lia|done]|]. intros w' Hw'.
  destruct (N.odd n); [destruct (Nat.eqb _ _); [done|]|]; apply IH; (done || lia).
Qed.

Lemma read_samples_post fuel audio index :
  (length audio ≤ 2 * fuel + index)%nat → Nat.even (length audio - index) = true →
  post (λ samples, Forall int16 samples ∧ (2 * length samples)%nat = (length audio - index)%nat)
    (read_samples fuel audio index).
Proof.
  revert index. induction fuel as [|fuel IH]; intros index Hf He; cbn [read_samples];
    destruct (Nat.ltb_spec index (length audio)); try (split; [done|cbn; lia]); [lia|].
  destruct (decide (length audio - index = 1)%nat) as [E|Hne]; [by rewrite E in He|].
  destruct (read_u16_in audio index) as (n & -> & Hn); [lia|]. cbn [mbind result_bind].
  eapply post_bind; [apply IH; [lia|]|].
  - replace (length audio - index)%nat with (2 + (length audio - (index + 2)))%nat in He by lia.
    exact He.
  - intros rest [Hr Hl]. split; [constructor; [by apply int16_of_range|done]|]. cbn [length]. lia.
Qed.

Lemma read_samples_total fuel audio index :
  (length audio ≤ 2 * fuel + index)%nat → Nat.even (length audio - index) = true →
  ∃ samples, read_samples fuel audio index = success samples.
Proof.
  revert index. induction fuel as [|fuel IH]; intros index Hf He; cbn [read_samples];
    destruct (Nat.ltb_spec index (length audio)); try (by eexists); [lia|].
  destruct (decide (length audio - index = 1)%nat) as [E|Hne]; [by rewrite E in He|].
  destruct (read_u16_in audio index) as (n & -> & Hn); [lia|].
  replace (length audio - index)%nat with (2 + (length audio - (index + 2)))%nat in He by lia.
  destruct (IH (index + 2)%nat) as [rest ->]; [lia|exact He|]. by eexists.
Qed.

Lemma format_supported_spec f : format_supported f = true →
  (fmt_sample_rate f = 44100 ∨ fmt_sample_rate f = 48000) ∧
  (fmt_channels f = 1 ∨ fmt_channels f = 2) ∧ block_align f = fmt_channels f * 2.
Proof.
  unfold format_supported. rewrite !andb_true_iff, !orb_true_iff, !N.eqb_eq.
  intros (((((_ & Hc) & Hr) & _) & Hb) & _). split_and!; [done..|]. rewrite Hb.
  unfold u32_mul. destruct Hc as [->| ->]; done.
Qed.

Lemma decode_samples_post w :
  post (λ p, pcm_ok p ∧ (2 * length (interleaved p))%nat = length (audio_bytes w) ∧
             sample_rate p = fmt_sample_rate (format w) ∧
             channels p = fmt_channels (format w)) (decode_samples w).
Proof.
  unfold decode_samples. destruct (format_supported (format w)) eqn:Hf; [|done]. cbn [negb].
  apply format_supported_spec in Hf as (Hr & Hc & Hb).
  set (n := size (audio_bytes w)). destruct (N.eqb_spec n 0) as [|Hn]; [done|]. cbn [orb].
  destruct (N.eqb_spec (n mod block_align (format w)) 0) as [Hm|]; [|done]. cbn [negb].
  destruct (_ <? _); [done|]. destruct (_ || _); [done|].
  assert (Nat.even (length (audio_bytes w) - 0) = true) as He.
  { rewrite Nat.sub_0_r. apply Nat.even_spec. exists (N.to_nat (n / 2)).
    rewrite Hb in Hm. subst n. unfold size in *.
    destruct Hc as [Hc|Hc]; rewrite Hc in Hm; revert Hm; dlia. }
  eapply post_bind; [apply read_samples_post; [lia|exact He]|].
  intros samples [Hs Hl]. rewrite Nat.sub_0_r in Hl. cbn. split_and!; [|done..].
  assert (n = 2 * N.of_nat (length samples)) as Hn2 by (subst n; unfold size; lia).
  split; cbn; try done.
  - intros ->. cbn in Hn2. lia.
  - rewrite Hb, Hn2, (N.mul_comm _ 2), N.Div0.mul_mod_distr_l in Hm. lia.
Qed.

Lemma decode_wav_post bytes :
  post (λ p, pcm_ok p ∧ (2 * length (interleaved p) ≤ length bytes)%nat) (decode_wav bytes).
Proof.
  unfold decode_wav. destruct (N.ltb_spec (size bytes) 12) as [|H]; [done|]. unfold size in H.
  rewrite !has_fourcc_spec by (cbn; lia). cbn [mbind result_bind].
  destruct (bool_decide _); [|done]. cbn [negb]. destruct (bool_decide _); [|done]. cbn [negb].
  destruct (read_u32_in bytes 4) as (n & -> & _); [lia|]. cbn [mbind result_bind].
  destruct (negb _); [done|]. eapply post_bind; [apply read_chunks_post; [lia|unfold within; cbn; lia]|]. intros r Hr.
  destruct (_ || _); [done|]. eapply post_weaken; [apply decode_samples_post|].
  intros p (Hok & Hl & _). split; [done|]. unfold within in Hr. lia.
Qed.

(** ** Selecting frames *)

(** The samples of the frames from [start] to [stop]. *)
Definition frames (p : PcmSample) (start stop : N) : list Z :=
  take (N.to_nat ((stop - start) * channels p)) (drop (N.to_nat (start * channels p)) (interleaved p)).

Definition selected (p : PcmSample) (start stop : N) : PcmSample :=
  MkPcmSample (sample_rate p) (channels p) (frames p start stop).

Lemma frames_length p start stop : start ≤ stop →
  stop * channels p ≤ N.of_nat (length (interleaved p)) →
  N.of_nat (length (frames p start stop)) = (stop - start) * channels p.
Proof.
  intros Hs H. unfold frames. rewrite length_take, length_drop, N.mul_sub_distr_r.
  assert (start * channels p ≤ stop * channels p) by nia. lia.
Qed.

Lemma selected_ok p start stop : pcm_ok p → start < stop →
  stop * channels p ≤ N.of_nat (length (interleaved p)) → pcm_ok (selected p start stop).
Proof.
  intros [Hr Hc Hs Hne Hf] Hlt H. pose proof (frames_length p start stop ltac:(lia) H) as Hl.
  split; cbn; [done..| | |].
  - by apply Forall_take, Forall_drop.
  - intros E. rewrite E in Hl. cbn in Hl. nia.
  - rewrite Hl. apply N.Div0.mod_mul.
Qed.

(** The frames a sample has. *)
Definition frame_count (p : PcmSample) : N := N.of_nat (length (interleaved p)) / channels p.

Lemma frame_count_mul p stop : pcm_ok p → stop ≤ frame_count p →
  stop * channels p ≤ N.of_nat (length (interleaved p)).
Proof.
  intros [_ Hc _ _ _] H. unfold frame_count in H.
  pose proof (N.Div0.mul_div_le (N.of_nat (length (interleaved p))) (channels p)). nia.
Qed.

(** Which ranges of a decoded sample can be selected. *)
Definition selectable (p : PcmSample) (start stop : N) (stereo_only : bool) : Prop :=
  start < stop ≤ frame_count p ∧ 36 + (stop - start) * channels p * 2 < 2 ^ 32 ∧
  (stereo_only = true → sample_rate p = 48000 ∧ channels p = 2).

#[export] Instance selectable_dec p start stop stereo_only :
  Decision (selectable p start stop stereo_only).
Proof. unfold selectable. apply _. Defined.

Lemma select_success source p start stop stereo_only :
  decode_wav source = success p → pcm_ok p → size source < 2 ^ 64 →
  N.of_nat (length (interleaved p)) < 2 ^ 63 →
  (stereo_only = false → size source ≤ 16777216) → selectable p start stop stereo_only →
  select_wav source start stop stereo_only =
  success (wav_file (sample_rate p) (channels p) (frames p start stop)).
Proof.
  intros E Hok Hsize Hlen Hbound ([Hlt Hle] & Hb & Hst). pose proof Hok as [Hr Hc _ _ Hf].
  pose proof (frame_count_mul p stop Hok Hle) as Hm.
  pose proof (frames_length p start stop ltac:(lia) Hm) as Hfl.
  unfold select_wav. destruct (N.leb_spec stop start); [lia|].
  assert (negb stereo_only && (16777216 <? size source) = false) as ->.
  { destruct stereo_only; [done|]. cbn [negb andb]. apply N.ltb_ge. auto. }
  rewrite E. cbn [mbind result_bind].
  assert (stereo_only && (negb (sample_rate p =? 48000) || negb (channels p =? 2)) = false) as ->.
  { destruct stereo_only; [|done]. destruct (Hst eq_refl) as [-> ->]. done. }
  assert ((negb (sample_rate p =? 48000) && negb (sample_rate p =? 44100)) ||
          (negb (channels p =? 1) && negb (channels p =? 2)) = false) as ->
    by (destruct Hr as [->| ->], Hc as [->| ->]; done).
  rewrite Hf. change (negb (0 =? 0)) with false. cbv iota.
  destruct (N.ltb_spec (N.of_nat (length (interleaved p)) / channels p) stop) as [Hx|_];
    [unfold frame_count in Hle; lia|].
  assert (stop - start ≤ (stop - start) * channels p) by nia.
  assert (start * channels p ≤ stop * channels p) by nia. assert (stop ≤ stop * channels p) by nia.
  rewrite u64_sub_le by lia. unfold u64_mul. rewrite (wrap_small 64 ((stop - start) * channels p)) by lia.
  rewrite (wrap_small 64 ((stop - start) * channels p * 2)) by lia.
  rewrite (wrap_small 64 (start * channels p)), (wrap_small 64 (stop * channels p)) by lia.
  assert (((2 ^ 64 - 1) / 4 <? stop - start) = false) as -> by (apply N.ltb_ge; dlia).
  set (n := (stop - start) * channels p * 2) in *.
  assert ((2 ^ 32 - 1 <? n) || (2 ^ 64 - 1 - 44 <? n) || (2 ^ 32 - 1 - 36 <? n) = false) as -> by lia.
  assert (((2 ^ 64 - 1) / 2 <? start) || ((2 ^ 64 - 1) / 2 <? stop) = false) as ->
    by (apply orb_false_iff; split; apply N.ltb_ge; dlia).
  assert ((N.of_nat (length (interleaved p)) <? stop * channels p) ||
          (2 ^ 64 - 1 <? start * channels p) = false) as -> by lia.
  rewrite append_samples_bytes by lia. rewrite wav_header_bytes by (done || lia).
  unfold wav_file. rewrite Hfl. replace (2 * _) with n by lia. do 2 f_equal. unfold frames.
  by rewrite N.mul_sub_distr_r.
Qed.

Lemma select_refused source p start stop stereo_only :
  decode_wav source = success p → pcm_ok p → size source < 2 ^ 64 →
  N.of_nat (length (interleaved p)) < 2 ^ 63 →
  ¬ ((stereo_only = false → size source ≤ 16777216) ∧ selectable p start stop stereo_only) →
  ∃ e, select_wav source start stop stereo_only = failure e.
Proof.
  intros E Hok Hsize Hlen Hn. pose proof Hok as [Hr Hc _ _ Hf].
  unfold select_wav. destruct (N.leb_spec stop start); [by eexists|].
  destruct (negb stereo_only && (16777216 <? size source)) eqn:Hb; [by eexists|].
  rewrite E. cbn [mbind result_bind]. destruct (stereo_only && _) eqn:Hst; [by eexists|].
  destruct (_ || _) eqn:Hfmt in |- *; [by eexists|]. clear Hfmt.
  destruct (negb (_ mod _ =? 0)); [by eexists|].
  destruct (N.ltb_spec (N.of_nat (length (interleaved p)) / channels p) stop) as [|Hle]; [by eexists|].
  pose proof (frame_count_mul p stop Hok Hle) as Hm.
  assert (stop - start ≤ (stop - start) * channels p) by nia.
  assert (start * channels p ≤ stop * channels p) by nia. assert (stop ≤ stop * channels p) by nia.
  rewrite u64_sub_le by lia. destruct (_ <? _) eqn:Hq in |- *; [by eexists|].
  unfold u64_mul. rewrite (wrap_small 64 ((stop - start) * channels p)) by lia.
  rewrite (wrap_small 64 ((stop - start) * channels p * 2)) by lia.
  set (n := (stop - start) * channels p * 2) in *.
  destruct ((2 ^ 32 - 1 <? n) || (2 ^ 64 - 1 - 44 <? n) || (2 ^ 32 - 1 - 36 <? n)) eqn:Hx;
    [by eexists|].
  destruct Hn. split; [intros ->; cbn [negb andb] in Hb; lia|].
  split; [split; [done|exact Hle]|]. split; [subst n; lia|].
  intros ->. cbn [andb] in Hst. lia.
Qed.

(** C35: The selection of frames, on every source and range of 64-bit numbers.
    It never reads outside its buffers.  When the source decodes and the range
    is selectable (non-empty, inside the source, small enough for a RIFF file,
    the source no larger than the slice bound, or 48 kHz stereo where that is
    asked for), the result is a WAV file that decodes to exactly the frames of
    the range, in the source's format; in every other case it is an error. *)
Theorem select_wav_exact source start stop stereo_only : size source < 2 ^ 64 →
  match decode_wav source with
  | success p =>
      if decide ((stereo_only = false → size source ≤ 16777216) ∧
                 selectable p start stop stereo_only)
      then ∃ output, select_wav source start stop stereo_only = success output ∧
                     decode_wav output = success (selected p start stop)
      else ∃ e, select_wav source start stop stereo_only = failure e
  | failure _ => ∃ e, select_wav source start stop stereo_only = failure e
  | thrown => False
  end.
Proof.
  intros Hsize. pose proof (decode_wav_post source) as Hd.
  destruct (decode_wav source) as [p|e|] eqn:E; cbn in Hd; [|clear Hd|done].
  - destruct Hd as [Hok Hl]. assert (N.of_nat (length (interleaved p)) < 2 ^ 63)
      by (unfold size in Hsize; lia).
    destruct (decide _) as [[Hb Hsel]|Hn]; [|by apply (select_refused source p)].
    eexists. split; [by apply select_success|].
    destruct (Hsel) as ([Hlt Hle] & Hn & _). pose proof (frame_count_mul p stop Hok Hle) as Hm.
    apply (decode_wav_file (selected p start stop)); [by apply selected_ok|].
    cbn [selected interleaved]. rewrite frames_length by (done || lia). lia.
  - unfold select_wav. destruct (stop <=? start); [by eexists|].
    destruct (_ && _); [by eexists|]. rewrite E. by eexists.
Qed.
End decode.

(** Three stereo frames, of which the last two are selected. *)
Definition example_pcm : PcmSample := MkPcmSample 44100 2 [1; -1; 2; -2; 3; -32768]%Z.

Definition example_wav : list ascii := wav_file 44100 2 (interleaved example_pcm).

Lemma select_wav_exact_witness :
  size example_wav < 2 ^ 64 ∧
  ∃ output, select_pcm16_wav (JL := dom_lib) example_wav 1 3 = success output ∧
    decode_wav (JL := dom_lib) output =
      success (MkPcmSample 44100 2 [2; -2; 3; -32768]%Z).
Proof.
  split; [reflexivity|].
  pose proof (select_wav_exact (JL := dom_lib) example_wav 1 3 false eq_refl) as H.
  replace (decode_wav (JL := dom_lib) example_wav) with
    (success (H := dom_lib) example_pcm) in H by reflexivity.
  destruct (decide _) as [_|Hn] in H; [exact H|].
  destruct Hn. split; [intros _; intros Hx; discriminate Hx|].
  split; [split; [reflexivity|intros Hx; discriminate Hx]|]. split; [reflexivity|discriminate].
Defined.
