(* ===== verification/Inspector.v ===== *)
(** The streaming inspection of WAV files.

    Models packages/project-cooker: wav_metadata_inspector.hpp and .cpp
    ([WavMetadataInspector]), and [inspect_wav] of sample_analysis.cpp.  The
    object is a record, and each method a function from the object to its result
    and the object it leaves. *)

From S2P Require Import Prelude Json Foundation Text Wav.

(** [header_.data() + at] receives [bytes]. *)
Definition write_at (header : list ascii) (at_ : nat) (bytes : list ascii) : list ascii :=
  take at_ header ++ bytes ++ drop (at_ + length bytes) header.

Inductive Stage := riff | chunk_header | format_stage | payload | padding.

#[export] Instance Stage_eq_dec : EqDecision Stage.
Proof. solve_decision. Defined.

Record WavMetadata := MkWavMetadata {
  metadata_rate : N;
  metadata_channels : N;
  source_frames : N
}.

Section inspector.
Context `{JL : JsonLib}.

Record WavMetadataInspector := MkInspector {
  byte_length_ : N;
  received_bytes_ : N;
  payload_remaining_ : N;
  data_bytes_ : N;
  header_ : list ascii;
  header_bytes_ : nat;
  format_ : WavFormat;
  have_fmt_ : bool;
  have_data_ : bool;
  needs_padding_ : bool;
  stage_ : Stage;
  error_ : option Error
}.

Implicit Type s : WavMetadataInspector.

(** Assignments to members. *)
Definition set_error s e := MkInspector (byte_length_ s) (received_bytes_ s)
  (payload_remaining_ s) (data_bytes_ s) (header_ s) (header_bytes_ s) (format_ s)
  (have_fmt_ s) (have_data_ s) (needs_padding_ s) (stage_ s) e.
Definition set_stage s stage := MkInspector (byte_length_ s) (received_bytes_ s)
  (payload_remaining_ s) (data_bytes_ s) (header_ s) (header_bytes_ s) (format_ s)
  (have_fmt_ s) (have_data_ s) (needs_padding_ s) stage (error_ s).
Definition set_needs_padding s b := MkInspector (byte_length_ s) (received_bytes_ s)
  (payload_remaining_ s) (data_bytes_ s) (header_ s) (header_bytes_ s) (format_ s)
  (have_fmt_ s) (have_data_ s) b (stage_ s) (error_ s).
Definition set_have_fmt s := MkInspector (byte_length_ s) (received_bytes_ s)
  (payload_remaining_ s) (data_bytes_ s) (header_ s) (header_bytes_ s) (format_ s)
  true (have_data_ s) (needs_padding_ s) (stage_ s) (error_ s).
Definition set_data s n := MkInspector (byte_length_ s) (received_bytes_ s)
  (payload_remaining_ s) n (header_ s) (header_bytes_ s) (format_ s)
  (have_fmt_ s) true (needs_padding_ s) (stage_ s) (error_ s).
Definition set_format s f := MkInspector (byte_length_ s) (received_bytes_ s)
  (payload_remaining_ s) (data_bytes_ s) (header_ s) (header_bytes_ s) f
  (have_fmt_ s) (have_data_ s) (needs_padding_ s) (stage_ s) (error_ s).
Definition set_payload s n := MkInspector (byte_length_ s) (received_bytes_ s)
  n (data_bytes_ s) (header_ s) (header_bytes_ s) (format_ s)
  (have_fmt_ s) (have_data_ s) (needs_padding_ s) (stage_ s) (error_ s).
Definition set_header_bytes s n := MkInspector (byte_length_ s) (received_bytes_ s)
  (payload_remaining_ s) (data_bytes_ s) (header_ s) n (format_ s)
  (have_fmt_ s) (have_data_ s) (needs_padding_ s) (stage_ s) (error_ s).
Definition receive s (n : nat) := MkInspector (byte_length_ s)
  (u64_add (received_bytes_ s) (N.of_nat n))
  (payload_remaining_ s) (data_bytes_ s) (header_ s) (header_bytes_ s) (format_ s)
  (have_fmt_ s) (have_data_ s) (needs_padding_ s) (stage_ s) (error_ s).
Definition collect s (bytes : list ascii) := MkInspector (byte_length_ s) (received_bytes_ s)
  (payload_remaining_ s) (data_bytes_ s) (write_at (header_ s) (header_bytes_ s) bytes)
  (header_bytes_ s + length bytes) (format_ s)
  (have_fmt_ s) (have_data_ s) (needs_padding_ s) (stage_ s) (error_ s).

Definition reject (message : string) s : WavMetadataInspector :=
  match error_ s with
  | Some _ => s
  | None => set_error s (Some (plain_error unsupported_audio message))
  end.

(** The constructor; [header_] is value-initialised. *)
Definition create_inspector (byte_length : N) : WavMetadataInspector :=
  let s := MkInspector byte_length 0 0 0 (replicate 16 (ascii_of_N 0)) 0
             (MkWavFormat 0 0 0 0 0 0) false false false riff None in
  if byte_length <? 12 then reject "audio is not a RIFF/WAVE file" s else s.

Definition end_payload s : WavMetadataInspector :=
  let s := set_stage s (if needs_padding_ s then padding else chunk_header) in
  if needs_padding_ s && (received_bytes_ s =? byte_length_ s) then
    reject "WAV odd-sized chunk is missing padding" s
  else s.

(** [sizeof] the structure a stage collects. *)
Definition needed (stage : Stage) : nat :=
  match stage with riff => 12 | format_stage => 16 | _ => 8 end.

(** The stages of [feed] once their bytes are there. *)
Definition finish_riff s : Result WavMetadataInspector :=
  is_riff ← bytes_equal (header_ s) 0 (fourcc "RIFF");
  is_wave ← (if is_riff : bool then bytes_equal (header_ s) 8 (fourcc "WAVE") else success true);
  if negb is_riff || negb is_wave then success (reject "audio is not a RIFF/WAVE file" s)
  else
    declared ← read_u32 (header_ s) 4;
    if negb (u64_add declared 8 =? byte_length_ s) then
      success (reject "RIFF chunk size does not match file length" s)
    else success (set_stage s chunk_header).

Definition finish_format s : Result WavMetadataInspector :=
  f ← read_format (header_ s) 0;
  success (set_stage (set_format s f) chunk_header).

Definition finish_chunk_header s : Result WavMetadataInspector :=
  chunk_bytes ← read_u32 (header_ s) 4;
  if u64_sub (byte_length_ s) (received_bytes_ s) <? chunk_bytes then
    success (reject "WAV chunk exceeds file length" s)
  else
    let s := set_needs_padding s (N.odd chunk_bytes) in
    is_fmt ← bytes_equal (header_ s) 0 (fourcc "fmt ");
    if is_fmt : bool then
      if have_fmt_ s || negb (chunk_bytes =? 16) then
        success (reject "WAV must contain one PCM fmt chunk" s)
      else success (set_stage (set_have_fmt s) format_stage)
    else
      is_data ← bytes_equal (header_ s) 0 (fourcc "data");
      if (is_data : bool) && have_data_ s then
        success (reject "WAV must contain one data chunk" s)
      else
        let s := if is_data then set_data s chunk_bytes else s in
        let s := set_stage (set_payload s chunk_bytes) payload in
        success (if chunk_bytes =? 0 then end_payload s else s).

Definition finish_stage s : Result WavMetadataInspector :=
  match stage_ s with
  | riff => finish_riff s
  | format_stage => finish_format s
  | _ => finish_chunk_header s
  end.

(** One pass of the loop of [feed] over the bytes from the cursor: the object
    and how far the cursor moves. *)
Definition feed_step s (bytes : list ascii) : Result (WavMetadataInspector * nat) :=
  if decide (stage_ s = payload) then
    let count := N.to_nat (N.min (payload_remaining_ s) (size bytes)) in
    let s := receive s count in
    let s := set_payload s (u64_sub (payload_remaining_ s) (N.of_nat count)) in
    success (if payload_remaining_ s =? 0 then end_payload s else s, count)
  else if decide (stage_ s = padding) then
    success (set_stage (receive s 1) chunk_header, 1%nat)
  else if bool_decide (stage_ s = chunk_header) && Nat.eqb (header_bytes_ s) 0 &&
          (u64_sub (byte_length_ s) (received_bytes_ s) <? 8) then
    success (reject "WAV chunk header exceeds file length" s, 0%nat)
  else
    let count := Nat.min (needed (stage_ s) - header_bytes_ s) (length bytes) in
    let s := collect (receive s count) (take count bytes) in
    if negb (Nat.eqb (header_bytes_ s) (needed (stage_ s))) then success (s, count)
    else
      let s := set_header_bytes s 0 in
      s' ← finish_stage s;
      success (s', count).

(** The loop; [fuel] bounds the passes. *)
Fixpoint feed_loop (fuel : nat) s (bytes : list ascii) : Result WavMetadataInspector :=
  match bytes, error_ s with
  | [], _ | _, Some _ => success s
  | _, None =>
      match fuel with
      | O => thrown
      | S fuel' => r ← feed_step s bytes; feed_loop fuel' r.1 (drop r.2 bytes)
      end
  end.

(** [feed]: the object afterwards; its result is an error when [error_] is set. *)
Definition feed s (bytes : list ascii) : Result WavMetadataInspector :=
  match error_ s with
  | Some _ => success s
  | None =>
      if u64_sub (byte_length_ s) (received_bytes_ s) <? size bytes then
        success (reject "WAV stream exceeds declared file length" s)
      else feed_loop (length bytes) s bytes
  end.

(** The result [feed] returns for the object it leaves. *)
Definition feed_result s : Result () :=
  match error_ s with Some e => failure e | None => success () end.

Definition finish_error s : option string :=
  let f := format_ s in
  if negb (received_bytes_ s =? byte_length_ s) then Some "WAV stream ended before file length"
  else if negb (bool_decide (stage_ s = chunk_header)) || negb (Nat.eqb (header_bytes_ s) 0) ||
          negb (have_fmt_ s) || negb (have_data_ s) then
    Some "WAV must contain one fmt and one data chunk"
  else if negb (format_supported f) then
    Some "WAV encoding must be 44.1 or 48 kHz PCM16 mono or stereo"
  else if (data_bytes_ s =? 0) || negb (data_bytes_ s mod block_align f =? 0) then
    Some "WAV data is not aligned to complete frames"
  else None.

Definition finish s : Result WavMetadata * WavMetadataInspector :=
  match error_ s with
  | Some e => (failure e, s)
  | None =>
      match finish_error s with
      | Some m => (unsupported m, reject m s)
      | None =>
          (success (MkWavMetadata (fmt_sample_rate (format_ s)) (fmt_channels (format_ s))
                      (data_bytes_ s / block_align (format_ s))), s)
      end
  end.

Definition inspect_wav (bytes : list ascii) : Result WavMetadata :=
  s ← feed (create_inspector (size bytes)) bytes;
  _ ← feed_result s;
  (finish s).1.

(** A file fed in pieces. *)
Fixpoint feed_all s (pieces : list (list ascii)) : Result WavMetadataInspector :=
  match pieces with
  | [] => success s
  | bytes :: pieces' => s' ← feed s bytes; feed_all s' pieces'
  end.
End inspector.
