(* ===== verification/InspectorLaws.v ===== *)
(** The streaming inspection agrees with the decoder.

    Feeding a file in pieces is feeding it byte by byte, however it is cut; and
    one pass over the whole file goes through the decoder's chunks.  So the
    inspector accepts exactly the files the decoder accepts, with the format and
    the number of frames of the decoded sample, and refuses the others with the
    decoder's error. *)

From S2P Require Import Prelude Json Foundation Text Wav WavLaws Inspector.

(** ** The header buffer *)

Lemma write_at_length header at_ bytes : (at_ + length bytes ≤ length header)%nat →
  length (write_at header at_ bytes) = length header.
Proof. intros H. unfold write_at. rewrite !length_app, length_take, length_drop. lia. Qed.

Lemma write_at_cons header at_ b bytes : (at_ + S (length bytes) ≤ length header)%nat →
  write_at (write_at header at_ [b]) (at_ + 1) bytes = write_at header at_ (b :: bytes).
Proof.
  intros H. unfold write_at. cbn [length].
  assert (length (take at_ header) = at_) as Ht by (rewrite length_take; lia).
  rewrite take_app_ge by lia. rewrite drop_app_ge by lia. rewrite Ht.
  replace (at_ + 1 - at_)%nat with 1%nat by lia.
  replace (at_ + 1 + length bytes - at_)%nat with (S (length bytes)) by lia.
  cbn [app take drop]. rewrite take_0, drop_drop, <- app_assoc. cbn [app].
  do 3 f_equal. f_equal. lia.
Qed.

Lemma write_at_0 header bytes : (length bytes ≤ length header)%nat →
  write_at header 0 bytes = bytes ++ drop (length bytes) header.
Proof. done. Qed.

Section laws.
Context `{JL : JsonLib}.
Implicit Type s : WavMetadataInspector.

(** ** Byte by byte *)

(** What holds of an object between two bytes. *)
Record ready s : Prop := {
  ready_length : byte_length_ s < 2 ^ 64;
  ready_received : received_bytes_ s ≤ byte_length_ s;
  ready_header : length (header_ s) = 16%nat;
  ready_collected : (header_bytes_ s < needed (stage_ s))%nat;
  ready_payload : stage_ s = payload → 0 < payload_remaining_ s < 2 ^ 64;
  ready_skipping : stage_ s = payload ∨ stage_ s = padding → header_bytes_ s = 0%nat
}.

Ltac members := cbn [byte_length_ received_bytes_ payload_remaining_ data_bytes_ header_
  header_bytes_ format_ have_fmt_ have_data_ needs_padding_ stage_ error_ set_error set_stage
  set_needs_padding set_have_fmt set_data set_format set_payload set_header_bytes receive
  collect needed].

Lemma needed_le stage : (8 ≤ needed stage ≤ 16)%nat.
Proof. destruct stage; cbn; lia. Qed.

(** An object after a stage ended: the next one starts with an empty buffer. *)
Lemma ready_next s s' :
  ready s → byte_length_ s' = byte_length_ s → received_bytes_ s' ≤ byte_length_ s →
  length (header_ s') = 16%nat → header_bytes_ s' = 0%nat →
  (stage_ s' = payload → 0 < payload_remaining_ s' < 2 ^ 64) → ready s'.
Proof.
  intros [] Hb Hr Hh H0 Hp. pose proof (needed_le (stage_ s')). split; rewrite ?Hb, ?H0; (done || lia).
Qed.

Lemma reject_members m s :
  byte_length_ (reject m s) = byte_length_ s ∧ received_bytes_ (reject m s) = received_bytes_ s ∧
  payload_remaining_ (reject m s) = payload_remaining_ s ∧ data_bytes_ (reject m s) = data_bytes_ s ∧
  header_ (reject m s) = header_ s ∧ header_bytes_ (reject m s) = header_bytes_ s ∧
  format_ (reject m s) = format_ s ∧ have_fmt_ (reject m s) = have_fmt_ s ∧
  have_data_ (reject m s) = have_data_ s ∧ stage_ (reject m s) = stage_ s.
Proof. unfold reject. by destruct (error_ s). Qed.

Lemma ready_reject m s : ready s → ready (reject m s).
Proof. unfold reject. intros []. by destruct (error_ s). Qed.

Lemma reject_error m s : error_ s = None →
  error_ (reject m s) = Some (plain_error unsupported_audio m).
Proof. unfold reject. by intros ->. Qed.

Lemma receive_receive s k n :
  received_bytes_ s + N.of_nat (k + n) < 2 ^ 64 → receive (receive s k) n = receive s (k + n).
Proof.
  intros H. unfold receive. members. f_equal. rewrite !u64_add_small by (rewrite ?u64_add_small; lia).
  lia.
Qed.

Lemma ready_end_payload s s' :
  ready s → byte_length_ s' = byte_length_ s → received_bytes_ s' ≤ byte_length_ s →
  length (header_ s') = 16%nat → header_bytes_ s' = 0%nat → ready (end_payload s').
Proof.
  intros Hs Hb Hr Hh H0.
  assert (ready (set_stage s' (if needs_padding_ s' then padding else chunk_header))).
  { apply (ready_next s); members; try done. by destruct (needs_padding_ s'). }
  unfold end_payload. destruct (_ && _); [by apply ready_reject|done].
Qed.

Lemma end_payload_members s :
  byte_length_ (end_payload s) = byte_length_ s ∧
  received_bytes_ (end_payload s) = received_bytes_ s.
Proof.
  unfold end_payload. destruct (_ && _); [|done]. split; by rewrite ?(proj1 (reject_members _ _)),
    ?(proj1 (proj2 (reject_members _ _))).
Qed.

(** A stage that ends with its bytes collected leaves the counts alone. *)
Definition kept s s' : Prop :=
  ready s' ∧ byte_length_ s' = byte_length_ s ∧ received_bytes_ s' = received_bytes_ s.

Lemma kept_reject m s : ready s → kept s (reject m s).
Proof. intros H. split; [by apply ready_reject|]. pose proof (reject_members m s). tauto. Qed.

Lemma finish_riff_post s : ready s → header_bytes_ s = 0%nat → post (kept s) (finish_riff s).
Proof.
  intros Hs H0. pose proof (ready_header s Hs) as Hh. unfold finish_riff.
  rewrite !bytes_equal_spec by (cbn; lia). cbn [mbind result_bind].
  eapply (post_bind (λ _, True)); [by case_match|].
  intros is_wave _. destruct (_ || _); [by apply kept_reject|].
  destruct (read_u32_in (header_ s) 4) as (n & -> & _); [lia|]. cbn [mbind result_bind].
  destruct (negb _); [by apply kept_reject|].
  split; [|done]. apply (ready_next s); members; try (done || apply Hs).
Qed.

Lemma finish_format_post s : ready s → header_bytes_ s = 0%nat → post (kept s) (finish_format s).
Proof.
  intros Hs H0. pose proof (ready_header s Hs) as Hh. unfold finish_format.
  destruct (read_format_in (header_ s) 0) as [f ->]; [lia|]. cbn [mbind result_bind].
  split; [|done]. apply (ready_next s); members; try (done || apply Hs).
Qed.

Lemma finish_chunk_header_post s :
  ready s → header_bytes_ s = 0%nat → stage_ s = chunk_header → post (kept s) (finish_chunk_header s).
Proof.
  intros Hs H0 Hst. pose proof (ready_header s Hs) as Hh. unfold finish_chunk_header.
  destruct (read_u32_in (header_ s) 4) as (n & -> & Hn32); [lia|]. cbn [mbind result_bind].
  destruct (_ <? _); [by apply kept_reject|].
  set (s1 := set_needs_padding s (N.odd n)).
  assert (ready s1) as Hs1 by (apply (ready_next s); subst s1; members; try (done || apply Hs);
    by rewrite Hst).
  assert (∀ s', kept s1 s' → kept s s') as Hk by (intros s' H; exact H).
  rewrite (bytes_equal_spec _ 0 (fourcc "fmt ")) by (subst s1; members; cbn; lia).
  cbn [mbind result_bind].
  destruct (bool_decide _).
  - destruct (_ || _); [by apply Hk, kept_reject|]. split; [|done].
    apply (ready_next s1); subst s1; members; try (done || apply Hs).
  - rewrite bytes_equal_spec by (subst s1; members; cbn; lia). cbn [mbind result_bind].
    destruct (bool_decide _ && _); [by apply Hk, kept_reject|].
    set (s2 := if bool_decide _ then set_data s1 n else s1).
    assert (ready s2 ∧ byte_length_ s2 = byte_length_ s ∧ received_bytes_ s2 = received_bytes_ s ∧
            header_bytes_ s2 = 0%nat) as (Hs2 & Hb & Hr & H02).
    { subst s2. destruct (bool_decide _); [|done]. split; [|done].
      apply (ready_next s1); subst s1; members; try (done || apply Hs); by rewrite Hst. }
    destruct (N.eqb_spec n 0) as [->|Hn].
    + split; [|pose proof (end_payload_members (set_stage (set_payload s2 0) payload)) as [-> ->];
               done].
      apply (ready_end_payload s2); members; try (done || apply Hs2).
    + split; [|done]. apply (ready_next s2); members; try (done || apply Hs2). lia.
Qed.

(** The loop body: it stays ready, and moves the cursor by what it counts. *)
Definition fed s (n : nat) s' : Prop :=
  ready s' ∧ byte_length_ s' = byte_length_ s ∧
  received_bytes_ s' = received_bytes_ s + N.of_nat n.

Definition fits s (n : nat) : Prop := received_bytes_ s + N.of_nat n ≤ byte_length_ s.

Lemma receive_fed s n : ready s → fits s n → fed s n (receive s n).
Proof.
  intros Hs Hf. unfold fits in Hf. pose proof (ready_length s Hs).
  assert (received_bytes_ (receive s n) = received_bytes_ s + N.of_nat n) as Hr
    by (cbn; apply u64_add_small; lia).
  split; [|done]. destruct Hs. split; rewrite ?Hr; members; (done || lia).
Qed.

Definition skipping s : Prop := stage_ s = payload ∨ stage_ s = padding.

Lemma finish_stage_post s : ready s → header_bytes_ s = 0%nat → ¬ skipping s →
  post (kept s) (finish_stage s).
Proof.
  intros Hs H0 Hn. unfold finish_stage. destruct (stage_ s) eqn:E.
  - by apply finish_riff_post.
  - by apply finish_chunk_header_post.
  - by apply finish_format_post.
  - destruct Hn. by left.
  - destruct Hn. by right.
Qed.

(** The pass when it skips a payload. *)
Lemma feed_step_payload s bytes : stage_ s = payload →
  feed_step s bytes =
  let count := N.to_nat (N.min (payload_remaining_ s) (size bytes)) in
  let s1 := set_payload (receive s count) (u64_sub (payload_remaining_ s) (N.of_nat count)) in
  success (if payload_remaining_ s1 =? 0 then end_payload s1 else s1, count).
Proof. intros E. unfold feed_step. by rewrite decide_True. Qed.

Lemma feed_step_padding s bytes : stage_ s = padding →
  feed_step s bytes = success (set_stage (receive s 1) chunk_header, 1%nat).
Proof. intros E. unfold feed_step. rewrite decide_False by congruence. by rewrite decide_True. Qed.

Definition header_cut s : bool :=
  bool_decide (stage_ s = chunk_header) && Nat.eqb (header_bytes_ s) 0 &&
  (u64_sub (byte_length_ s) (received_bytes_ s) <? 8).

(** The pass when it collects a structure. *)
Lemma feed_step_collect s bytes : ¬ skipping s →
  feed_step s bytes =
  if header_cut s then success (reject "WAV chunk header exceeds file length" s, 0%nat)
  else
    let count := Nat.min (needed (stage_ s) - header_bytes_ s) (length bytes) in
    let s1 := collect (receive s count) (take count bytes) in
    if negb (Nat.eqb (header_bytes_ s1) (needed (stage_ s))) then success (s1, count)
    else s2 ← finish_stage (set_header_bytes s1 0); success (s2, count).
Proof.
  intros Hn. unfold feed_step, skipping in *. rewrite decide_False by tauto.
  by rewrite decide_False by tauto.
Qed.

Lemma collect_fed s n bytes : ready s → ¬ skipping s → fits s n → length bytes = n →
  (header_bytes_ s + n ≤ needed (stage_ s))%nat →
  fed s n (set_header_bytes (collect (receive s n) bytes) 0) ∧
  ((header_bytes_ s + n < needed (stage_ s))%nat → fed s n (collect (receive s n) bytes)).
Proof.
  intros Hs Hn Hf Hl Hle. pose proof (receive_fed s n Hs Hf) as (Hrdy & Hb & Hr).
  pose proof (needed_le (stage_ s)) as Hne. pose proof (ready_header s Hs) as Hh.
  assert (length (write_at (header_ s) (header_bytes_ s) bytes) = 16%nat) as Hw
    by (rewrite write_at_length; lia).
  split; [|intros Hlt]; (split; [|done]); destruct Hrdy; split; members; try done; try lia.
Qed.

Lemma feed_step_post s bytes : ready s → bytes ≠ [] → fits s (length bytes) →
  post (λ r, (r.2 ≤ length bytes)%nat ∧ fed s r.2 r.1 ∧
             (error_ s = None → error_ r.1 = None → (0 < r.2)%nat)) (feed_step s bytes).
Proof.
  intros Hs Hne Hf. unfold fits in Hf.
  destruct (decide (stage_ s = payload)) as [Hp|Hp];
    [|destruct (decide (stage_ s = padding)) as [Hp'|Hp']].
  - rewrite feed_step_payload by done. pose proof (ready_payload s Hs Hp).
    set (count := N.to_nat (N.min (payload_remaining_ s) (size bytes))).
    assert (length bytes ≠ 0%nat) by (by destruct bytes).
    assert ((0 < count)%nat ∧ (count ≤ length bytes)%nat ∧ N.of_nat count ≤ payload_remaining_ s)
      as (? & ? & ?)
      by (subst count; unfold size; lia).
    destruct (receive_fed s count Hs) as (Hr & Hb & Hrb); [unfold fits; lia|].
    set (s1 := set_payload (receive s count) (u64_sub (payload_remaining_ s) (N.of_nat count))).
    assert (kept s1 (if payload_remaining_ s1 =? 0 then end_payload s1 else s1)) as (K1 & K2 & K3).
    { destruct (N.eqb_spec (payload_remaining_ s1) 0) as [E|E].
      - split; [|apply end_payload_members]. apply (ready_end_payload (receive s count));
          subst s1; members; try (done || apply Hr). by left.
      - split; [|done]. destruct Hr. subst s1. split; members; try done. intros _.
        revert E. members. rewrite u64_sub_le by lia. lia. }
    cbv zeta. cbn [post fst snd]. fold s1. split; [done|]. split; [|done].
    split; [done|]. by rewrite K2, K3.
  - rewrite feed_step_padding by done. cbn [post fst snd].
    assert (length bytes ≠ 0%nat) by (by destruct bytes).
    destruct (receive_fed s 1 Hs) as (Hr & Hb & Hrb); [unfold fits; lia|].
    split; [lia|]. split; [|lia]. split; [|done].
    apply (ready_next (receive s 1)); members; try (done || apply Hr).
    by right.
  - assert (¬ skipping s) as Hn by (unfold skipping; tauto). rewrite feed_step_collect by done.
    assert (length bytes ≠ 0%nat) by (by destruct bytes). pose proof (ready_collected s Hs).
    destruct (header_cut s).
    { cbn [post fst snd]. split; [lia|]. split.
      - pose proof (kept_reject "WAV chunk header exceeds file length" s Hs) as (? & ? & ?).
        split; [done|]. split; [done|]. lia.
      - intros He. by rewrite reject_error. }
    set (count := Nat.min (needed (stage_ s) - header_bytes_ s) (length bytes)).
    assert (0 < count ∧ count ≤ length bytes)%nat as [Hc0 Hc] by (subst count; lia).
    destruct (collect_fed s count (take count bytes) Hs Hn) as [Hdone Hmore];
      [unfold fits; lia|by rewrite length_take_le|subst count; lia|].
    cbv zeta. members. fold count. set (s1 := collect (receive s count) (take count bytes)) in *.
    rewrite length_take_le by done.
    destruct (Nat.eqb_spec (header_bytes_ s + count) (needed (stage_ s))) as [E|E]; cbn [negb].
    + eapply post_bind; [apply finish_stage_post; [apply Hdone|done|done]|].
      intros s2 (K1 & K2 & K3). destruct Hdone as (D1 & D2 & D3).
      cbn [post fst snd]. split; [done|]. split; [|done]. split; [done|]. by rewrite K2, K3.
    + cbn [post fst snd]. split; [done|]. split; [|done]. apply Hmore. subst count. lia.
Qed.

(** A pass over several bytes is the pass over the first one, and then, when that
    one ended nothing, the pass over the rest. *)
Lemma feed_step_split s b rest : ready s → error_ s = None → fits s (S (length rest)) →
  feed_step s (b :: rest) = feed_step s [b] ∨
  ∃ s1, feed_step s [b] = success (s1, 1%nat) ∧ error_ s1 = None ∧ rest ≠ [] ∧
    feed_step s (b :: rest) = (r ← feed_step s1 rest; success (r.1, S r.2)).
Proof.
  intros Hs He Hf. unfold fits in Hf. pose proof (ready_length s Hs).
  destruct (decide (stage_ s = payload)) as [Hp|Hp];
    [|destruct (decide (stage_ s = padding)) as [Hp'|Hp'];
      [left; by rewrite !feed_step_padding|]].
  - rewrite !feed_step_payload by done. pose proof (ready_payload s Hs Hp). unfold size. cbn [length].
    destruct (decide (payload_remaining_ s = 1 ∨ rest = [])) as [Hd|Hd].
    { left. replace (payload_remaining_ s `min` N.of_nat (S (length rest)))
        with (payload_remaining_ s `min` N.of_nat 1); [done|]. destruct Hd as [->| ->]; cbn; lia. }
    assert (1 < payload_remaining_ s ∧ rest ≠ []) as [Hrem Hne] by (split; [lia|tauto]).
    assert (length rest ≠ 0%nat) by (by destruct rest).
    right. replace (payload_remaining_ s `min` N.of_nat 1) with 1 by lia.
    change (N.to_nat 1) with 1%nat. cbv zeta.
    change (payload_remaining_ (set_payload (receive s 1) ?x)) with x. members.
    rewrite !u64_sub_le by lia. destruct (N.eqb_spec (payload_remaining_ s - N.of_nat 1) 0); [lia|].
    set (count := N.to_nat ((payload_remaining_ s - N.of_nat 1) `min` N.of_nat (length rest))).
    replace (N.to_nat (payload_remaining_ s `min` N.of_nat (S (length rest)))) with (S count)
      by (subst count; lia).
    eexists. split; [reflexivity|]. split; [done|]. split; [done|].
    rewrite feed_step_payload by done. members. fold (size rest). unfold size. fold count.
    rewrite u64_sub_le by (subst count; lia).
    replace (payload_remaining_ s - N.of_nat 1 - N.of_nat count)
      with (payload_remaining_ s - N.of_nat (S count)) by lia.
    replace (receive s (S count)) with (receive (receive s 1) count); [done|].
    apply receive_receive. subst count. lia.
  - assert (¬ skipping s) as Hn by (unfold skipping; tauto). rewrite !feed_step_collect by done.
    destruct (header_cut s) eqn:Hcut; [by left|]. pose proof (ready_collected s Hs).
    cbn [length]. 
    destruct (decide (header_bytes_ s + 1 = needed (stage_ s) ∨ rest = [])%nat) as [Hd|Hd].
    { left. replace (Nat.min (needed (stage_ s) - header_bytes_ s) (S (length rest)))
        with (Nat.min (needed (stage_ s) - header_bytes_ s) 1); [|destruct Hd as [Hd| ->]; cbn; lia].
      replace (Nat.min (needed (stage_ s) - header_bytes_ s) 1) with 1%nat by lia. done. }
    assert (header_bytes_ s + 1 < needed (stage_ s) ∧ rest ≠ [])%nat as [Hlt Hne]
      by (split; [lia|tauto]).
    assert (length rest ≠ 0%nat) by (by destruct rest). pose proof (needed_le (stage_ s)).
    pose proof (ready_header s Hs) as Hh. right.
    replace (Nat.min (needed (stage_ s) - header_bytes_ s) 1) with 1%nat by lia.
    set (count := Nat.min (needed (stage_ s) - (header_bytes_ s + 1)) (length rest)).
    replace (Nat.min (needed (stage_ s) - header_bytes_ s) (S (length rest))) with (S count)
      by (subst count; lia).
    cbn [take]. cbv zeta. members. cbn [length].
    destruct (Nat.eqb_spec (header_bytes_ s + 1) (needed (stage_ s))); [lia|]. cbn [negb].
    eexists. split; [reflexivity|]. split; [done|]. split; [done|].
    rewrite feed_step_collect by done. unfold header_cut. members. cbn [length].
    destruct (Nat.eqb_spec (header_bytes_ s + 1) 0); [lia|]. rewrite andb_false_r. cbn [andb].
    fold count. cbv zeta. members. rewrite length_take_le by (subst count; lia).
    replace (header_bytes_ s + 1 + count)%nat with (header_bytes_ s + S count)%nat by lia.
    assert (collect (receive (collect (receive s 1) [b]) count) (take count rest) =
            collect (receive s (S count)) (b :: take count rest)) as E.
    { replace (receive s (S count)) with (receive (receive s 1) count)
        by (apply receive_receive; subst count; lia).
      unfold collect, receive. members.
      cbn [length]. rewrite write_at_cons by (rewrite length_take_le; subst count; lia).
      f_equal. lia. }
    rewrite E. cbv zeta. destruct (negb _); [done|]. by destruct (finish_stage _).
Qed.

(** The object after one byte. *)
Definition one s (b : ascii) : Result WavMetadataInspector :=
  match error_ s with
  | Some _ => success s
  | None => r ← feed_step s [b]; success r.1
  end.

Lemma one_error s b : error_ s ≠ None → one s b = success s.
Proof. unfold one. by destruct (error_ s). Qed.

Lemma one_open s b : error_ s = None → one s b = (r ← feed_step s [b]; success r.1).
Proof. unfold one. by intros ->. Qed.

Lemma fold_one_error s bytes : error_ s ≠ None → fold_result one s bytes = success s.
Proof.
  intros He. induction bytes as [|b bytes IH]; [done|]. cbn [fold_result].
  by rewrite one_error.
Qed.

Lemma feed_loop_error fuel s bytes : error_ s ≠ None → feed_loop fuel s bytes = success s.
Proof. intros He. destruct fuel, bytes; cbn [feed_loop]; destruct (error_ s); done. Qed.

Lemma feed_loop_cons fuel s b bytes : error_ s = None →
  feed_loop (S fuel) s (b :: bytes) =
  (r ← feed_step s (b :: bytes); feed_loop fuel r.1 (drop r.2 (b :: bytes))).
Proof. intros He. cbn [feed_loop]. by rewrite He. Qed.

Lemma fed_fits s n s' k : fed s n s' → fits s (n + k) → fits s' k.
Proof. unfold fed, fits. intros (_ & -> & ->). lia. Qed.

(** The loop is the bytes one at a time, whatever its fuel beyond their number. *)
Lemma feed_loop_bytes n : ∀ s bytes fuel,
  (length bytes ≤ n)%nat → (length bytes ≤ fuel)%nat → ready s → fits s (length bytes) →
  feed_loop fuel s bytes = fold_result one s bytes.
Proof.
  induction n as [|n IH]; intros s bytes fuel Hn Hfuel Hs Hf.
  { destruct bytes; [by destruct fuel|cbn in Hn; lia]. }
  destruct (error_ s) eqn:He; [rewrite feed_loop_error, fold_one_error; congruence|].
  destruct bytes as [|b rest]; [by destruct fuel|]. cbn [length] in *.
  destruct fuel as [|fuel]; [lia|]. rewrite feed_loop_cons by done. cbn [fold_result].
  rewrite one_open by done.
  pose proof (feed_step_post s [b] Hs ltac:(done)) as Hpost.
  specialize (Hpost ltac:(unfold fits in *; cbn; lia)).
  destruct (feed_step_split s b rest Hs He Hf) as [->|(s1 & E1 & He1 & Hne & ->)].
  - destruct (feed_step s [b]) as [[s1 k]| |]; [|done..]. cbn [post fst snd length] in Hpost.
    destruct Hpost as (Hk & Hfed & Hpos). cbn [mbind result_bind fst snd].
    destruct (error_ s1) eqn:He1; [rewrite feed_loop_error, fold_one_error; congruence|].
    specialize (Hpos He eq_refl). assert (k = 1%nat) as -> by lia. cbn [drop].
    apply IH; [lia|lia|apply Hfed|by eapply fed_fits].
  - rewrite E1 in Hpost |- *. cbn [post fst snd] in Hpost. destruct Hpost as (_ & Hfed & _).
    cbn [mbind result_bind fst snd].
    assert (fits s1 (length rest)) as Hf1 by (by eapply fed_fits).
    rewrite <- (IH s1 rest fuel) by (lia || apply Hfed || done).
    destruct rest as [|b' rest]; [done|]. destruct fuel as [|fuel]; [cbn in Hfuel; lia|].
    rewrite feed_loop_cons by done.
    pose proof (feed_step_post s1 (b' :: rest) (proj1 Hfed) ltac:(done) Hf1) as Hpost.
    destruct (feed_step s1 (b' :: rest)) as [[s2 k]| |]; [|done..].
    cbn [post fst snd] in Hpost. destruct Hpost as (Hk & Hfed2 & Hpos).
    cbn [mbind result_bind fst snd]. change (drop (S k) (b :: b' :: rest)) with (drop k (b' :: rest)).
    destruct (error_ s2) eqn:He2; [rewrite !feed_loop_error; congruence|].
    specialize (Hpos He1 eq_refl). pose proof (length_drop (b' :: rest) k) as Hd.
    cbn [length] in *.
    assert (fits s2 (length (drop k (b' :: rest)))) as Hf2.
    { rewrite Hd. eapply fed_fits; [exact Hfed2|]. by replace (k + (S (length rest) - k))%nat
        with (S (length rest)) by lia. }
    rewrite !(IH s2) by first [exact Hf2|apply Hfed2|rewrite Hd; lia]. done.
Qed.

Lemma feed_bytes s bytes : ready s → fits s (length bytes) →
  feed s bytes = fold_result one s bytes.
Proof.
  intros Hs Hf. pose proof (ready_length s Hs). unfold feed, fits in *.
  destruct (error_ s) eqn:He; [rewrite fold_one_error; congruence|].
  rewrite u64_sub_le by lia. unfold size.
  destruct (N.ltb_spec (byte_length_ s - received_bytes_ s) (N.of_nat (length bytes))); [lia|].
  by eapply feed_loop_bytes.
Qed.

Lemma fold_one_post s bytes : ready s → fits s (length bytes) →
  post (λ s', ready s' ∧ byte_length_ s' = byte_length_ s ∧
     (received_bytes_ s' ≤ received_bytes_ s + N.of_nat (length bytes)))
    (fold_result one s bytes).
Proof.
  revert s. induction bytes as [|b bytes IH]; intros s Hs Hf; cbn [fold_result].
  { cbn. split_and!; [done..|lia]. }
  eapply (post_bind (λ s1, ready s1 ∧ byte_length_ s1 = byte_length_ s ∧
    received_bytes_ s1 ≤ received_bytes_ s + 1)).
  - unfold one. destruct (error_ s); [cbn; split_and!; [done..|lia]|].
    eapply post_bind; [apply feed_step_post; [done|done|unfold fits in *; cbn in *; lia]|].
    intros [s1 k] (Hk & (H1 & H2 & H3) & _). cbn [post fst snd length] in *.
    split_and!; [done..|lia].
  - intros s1 (H1 & H2 & H3). unfold fits in Hf. cbn [length] in Hf.
    eapply post_weaken; [apply IH; [done|unfold fits; lia]|].
    intros s2 (K1 & K2 & K3). cbn [length]. split_and!; [done|congruence|lia].
Qed.

Lemma feed_all_bytes s pieces : ready s → fits s (length (concat pieces)) →
  feed_all s pieces = fold_result one s (concat pieces).
Proof.
  revert s. induction pieces as [|bytes pieces IH]; intros s Hs Hf; cbn [feed_all concat] in *; [done|].
  rewrite length_app in Hf. rewrite fold_result_app, feed_bytes by (done || unfold fits in *; lia).
  pose proof (fold_one_post s bytes Hs ltac:(unfold fits in *; lia)) as Hp.
  destruct (fold_result one s bytes) as [s1| |]; [|done..]. cbn [post mbind result_bind] in *.
  destruct Hp as (H1 & H2 & H3). apply IH; [done|]. unfold fits in *. lia.
Qed.

(** ** Through the decoder's chunks *)

Definition run s bytes : Result WavMetadataInspector := feed_loop (length bytes) s bytes.

Lemma run_error s bytes : error_ s ≠ None → run s bytes = success s.
Proof. apply feed_loop_error. Qed.

Lemma run_step s bytes : ready s → error_ s = None → bytes ≠ [] → fits s (length bytes) →
  run s bytes = (r ← feed_step s bytes; run r.1 (drop r.2 bytes)).
Proof.
  intros Hs He Hne Hf. destruct bytes as [|b bytes]; [done|]. unfold run.
  cbn [length]. rewrite feed_loop_cons by done.
  pose proof (feed_step_post s (b :: bytes) Hs Hne Hf) as Hp.
  destruct (feed_step s (b :: bytes)) as [[s1 k]| |]; [|done..].
  cbn [post mbind result_bind fst snd] in *. destruct Hp as (Hk & Hfed & Hpos).
  destruct (error_ s1) eqn:He1; [rewrite !feed_loop_error; congruence|].
  specialize (Hpos He eq_refl). pose proof (length_drop (b :: bytes) k) as Hd. cbn [length] in *.
  assert (fits s1 (length (drop k (b :: bytes)))).
  { rewrite Hd. eapply fed_fits; [exact Hfed|].
    by replace (k + (S (length bytes) - k))%nat with (S (length bytes)) by lia. }
  rewrite !(feed_loop_bytes (length bytes) s1) by first [done|apply Hfed|rewrite Hd; lia|lia]. done.
Qed.

(** The object after the chunks before [offset], which are those of [w]. *)
Record carries (bytes : list ascii) s (w : WavChunks) (offset : nat) : Prop := {
  carries_ready : ready s;
  carries_length : byte_length_ s = size bytes;
  carries_received : received_bytes_ s = N.of_nat offset;
  carries_offset : (offset ≤ length bytes)%nat;
  carries_fmt : have_fmt_ s = have_fmt w;
  carries_data : have_data_ s = have_data w;
  carries_format : format_ s = format w;
  carries_data_bytes : data_bytes_ s = size (audio_bytes w);
  carries_collected : header_bytes_ s = 0%nat;
  carries_error : error_ s = None
}.

Definition at_chunk bytes s w offset : Prop := carries bytes s w offset ∧ stage_ s = chunk_header.

Lemma carries_fits bytes s w offset n : carries bytes s w offset →
  (offset + n ≤ length bytes)%nat → fits s n.
Proof. intros [_ Hb Hr _ _ _ _ _ _ _] H. unfold fits, size in *. rewrite Hb, Hr. lia. Qed.

Lemma size_small bytes s w offset : carries bytes s w offset → N.of_nat (length bytes) < 2 ^ 64.
Proof. intros [Hs Hb _ _ _ _ _ _ _ _]. pose proof (ready_length s Hs). unfold size in *. lia. Qed.

Lemma carries_step bytes s w offset n : carries bytes s w offset →
  error_ s = None → (offset + n ≤ length bytes)%nat → drop offset bytes ≠ [] →
  run s (drop offset bytes) =
  (r ← feed_step s (drop offset bytes); run r.1 (drop (offset + r.2) bytes)).
Proof.
  intros Hc He Hn Hne. rewrite run_step; [|apply Hc|done|done|].
  - destruct (feed_step _ _) as [[s1 k]| |]; cbn [mbind result_bind fst snd]; by rewrite ?drop_drop.
  - eapply carries_fits; [exact Hc|]. rewrite length_drop. pose proof (carries_offset _ _ _ _ Hc). lia.
Qed.

Lemma drop_nonempty {A} (l : list A) k : (k < length l)%nat → drop k l ≠ [].
Proof. intros H E. apply (f_equal length) in E. rewrite length_drop in E. cbn in E. lia. Qed.

Definition next_offset (n : N) (offset : nat) : nat :=
  if N.odd n then S (offset + N.to_nat n) else (offset + N.to_nat n)%nat.

Definition unpadded (bytes : list ascii) (n : N) (offset : nat) : bool :=
  N.odd n && Nat.eqb (offset + N.to_nat n) (length bytes).

Definition padding_error : Error :=
  plain_error unsupported_audio "WAV odd-sized chunk is missing padding".

Lemma end_payload_eq s : end_payload s =
  let s' := set_stage s (if needs_padding_ s then padding else chunk_header) in
  if needs_padding_ s && (received_bytes_ s =? byte_length_ s)
  then reject "WAV odd-sized chunk is missing padding" s' else s'.
Proof. done. Qed.

(** A payload is skipped, and its padding byte. *)
Lemma run_end_payload bytes s w offset :
  carries bytes s w offset → needs_padding_ s = false ∨ (offset < length bytes)%nat →
  run (end_payload s) (drop offset bytes) =
    run (set_stage (if needs_padding_ s then receive s 1 else s) chunk_header)
      (drop (if needs_padding_ s then S offset else offset) bytes) ∧
  carries bytes (set_stage (if needs_padding_ s then receive s 1 else s) chunk_header) w
    (if needs_padding_ s then S offset else offset).
Proof.
  intros Hc Hp. pose proof (size_small _ _ _ _ Hc) as Hsmall. destruct Hc as [Hs Hb Hr Ho].
  rewrite end_payload_eq. destruct (needs_padding_ s) eqn:Hpad; cbn [andb].
  - destruct Hp as [|Hlt]; [done|]. rewrite Hr, Hb. unfold size.
    destruct (N.eqb_spec (N.of_nat offset) (N.of_nat (length bytes))); [lia|].
    set (s1 := set_stage s padding).
    assert (carries bytes s1 w offset) as Hc1.
    { split; try done. apply (ready_next s); subst s1; members; try (done || apply Hs); by rewrite ?Hb. }
    split.
    + rewrite (carries_step bytes s1 w offset 0 Hc1) by (done || lia || by apply drop_nonempty).
      rewrite feed_step_padding by done. cbn [mbind result_bind fst snd].
      by rewrite Nat.add_1_r.
    + assert (received_bytes_ (receive s 1) = N.of_nat (S offset)) as Hr1.
      { members. rewrite Hr, u64_add_small by lia. lia. }
      split; members; try done.
      apply (ready_next s); members; try (done || apply Hs).
      rewrite Hr, Hb, u64_add_small by lia. unfold size. lia.
  - split; [done|]. split; members; try done.
    apply (ready_next s); members; try (done || apply Hs).
Qed.

(** How the rest of a chunk ends, in the object and in the decoder's loop. *)
Definition ends_chunk bytes (r : Result WavMetadataInspector) w (n : N) offset : Prop :=
  if unpadded bytes n offset
  then ∃ s', r = success s' ∧ error_ s' = Some padding_error
  else ∃ s', r = run s' (drop (next_offset n offset) bytes) ∧
             at_chunk bytes s' w (next_offset n offset).

Lemma run_skipped bytes s w offset n :
  carries bytes s w (offset + N.to_nat n) → needs_padding_ s = N.odd n →
  ends_chunk bytes (run (end_payload s) (drop (offset + N.to_nat n) bytes)) w n offset.
Proof.
  intros Hc Hp. unfold ends_chunk, unpadded, next_offset. rewrite <- Hp.
  destruct (needs_padding_ s) eqn:E; cbn [andb].
  - destruct (Nat.eqb_spec (offset + N.to_nat n) (length bytes)) as [Ho|Ho].
    + exists (end_payload s).
      assert (error_ (end_payload s) = Some padding_error) as He.
      { rewrite end_payload_eq, E, (carries_received _ _ _ _ Hc), (carries_length _ _ _ _ Hc), Ho.
        unfold size. rewrite N.eqb_refl. cbn [andb].
        by rewrite reject_error by (members; apply Hc). }
      split; [apply run_error; congruence|exact He].
    + pose proof (carries_offset _ _ _ _ Hc).
      destruct (run_end_payload _ _ _ _ Hc) as [Hr Hc']; [right; lia|]. rewrite E in Hr, Hc'.
      eexists. split; [exact Hr|]. by split.
  - destruct (run_end_payload _ _ _ _ Hc) as [Hr Hc']; [by left|]. rewrite E in Hr, Hc'.
    eexists. split; [exact Hr|]. by split.
Qed.

Lemma run_payload bytes s w offset n :
  carries bytes s w offset → stage_ s = payload → payload_remaining_ s = n →
  needs_padding_ s = N.odd n → (offset + N.to_nat n ≤ length bytes)%nat →
  ends_chunk bytes (run s (drop offset bytes)) w n offset.
Proof.
  intros Hc Hst Hn Hp Hle. pose proof (size_small _ _ _ _ Hc) as Hsmall.
  pose proof (ready_payload s (carries_ready _ _ _ _ Hc) Hst) as Hrange.
  rewrite (carries_step bytes s w offset 0 Hc);
    [|apply Hc|rewrite Nat.add_0_r; apply Hc|apply drop_nonempty; rewrite Hn in Hrange; lia].
  rewrite feed_step_payload by done. cbv zeta. unfold size. rewrite length_drop, Hn.
  replace (N.to_nat (n `min` N.of_nat (length bytes - offset))) with (N.to_nat n) by lia.
  set (s1 := set_payload (receive s (N.to_nat n)) (u64_sub n (N.of_nat (N.to_nat n)))).
  assert (payload_remaining_ s1 = 0) as H0.
  { subst s1. members. rewrite u64_sub_le by lia. lia. }
  rewrite H0. cbn [N.eqb mbind result_bind fst snd].
  change (end_payload s1) with (end_payload (set_stage s1 chunk_header)).
  apply run_skipped; [|exact Hp]. destruct Hc as [Hs Hb Hr Ho]. 
  assert (u64_add (received_bytes_ s) (N.of_nat (N.to_nat n)) = N.of_nat (offset + N.to_nat n)) as Hrec
    by (rewrite Hr, u64_add_small; lia).
  split; subst s1; members; try done.
  apply (ready_next s); members; try (done || apply Hs). rewrite Hrec, Hb. unfold size. lia.
Qed.

(** ** Structures read from the buffer and from the file *)

(** Two places hold the same [n] bytes. *)
Definition agree (l : list ascii) (i : nat) (l' : list ascii) (i' n : nat) : Prop :=
  ∀ k, (k < n)%nat → byte_at l (i + k) = byte_at l' (i' + k).

Lemma agree_drop l i l' i' n : take n (drop i l) = take n (drop i' l') → agree l i l' i' n.
Proof.
  intros E k Hk. apply (f_equal (lookup k)) in E. rewrite !lookup_take_lt, !lookup_drop in E by done.
  unfold byte_at. by rewrite E.
Qed.

Lemma agree_u16 l i l' i' n k : agree l i l' i' n → (k + 2 ≤ n)%nat →
  read_u16 l (i + k) = read_u16 l' (i' + k).
Proof.
  intros H Hk. unfold read_u16. rewrite <- !Nat.add_assoc.
  by rewrite (H k), (H (k + 1)%nat) by lia.
Qed.

Lemma agree_u32 l i l' i' n k : agree l i l' i' n → (k + 4 ≤ n)%nat →
  read_u32 l (i + k) = read_u32 l' (i' + k).
Proof.
  intros H Hk. unfold read_u32. rewrite <- !Nat.add_assoc.
  by rewrite (H k), (H (k + 1)%nat), (H (k + 2)%nat), (H (k + 3)%nat) by lia.
Qed.

Lemma agree_format l i l' i' : agree l i l' i' 16 → read_format l i = read_format l' i'.
Proof.
  intros H. unfold read_format. rewrite <- (Nat.add_0_r i) at 1. rewrite <- (Nat.add_0_r i') at 1.
  by rewrite (agree_u16 _ _ _ _ _ 0 H), (agree_u16 _ _ _ _ _ 2 H), (agree_u32 _ _ _ _ _ 4 H),
    (agree_u32 _ _ _ _ _ 8 H), (agree_u16 _ _ _ _ _ 12 H), (agree_u16 _ _ _ _ _ 14 H) by lia.
Qed.

Lemma agree_name l i l' i' n k name : agree l i l' i' n → (k + length name ≤ n)%nat →
  bytes_equal l (i + k) name = bytes_equal l' (i' + k) name.
Proof.
  intros H. revert k. induction name as [|c name IH]; intros k Hk; cbn [length bytes_equal] in *; [done|].
  rewrite (H k) by lia. destruct (byte_at l' (i' + k)); [|done..]. cbn [mbind result_bind].
  destruct (_ =? _); [|done]. rewrite <- !Nat.add_succ_r. apply IH. lia.
Qed.

Lemma has_fourcc_in l i name : (i + length name ≤ length l)%nat →
  has_fourcc l i name = bytes_equal l i name.
Proof. intros H. by rewrite has_fourcc_spec, bytes_equal_spec. Qed.

(** The buffer after a structure of [n] bytes was collected whole. *)
Lemma collected_agree header bytes offset n :
  length header = 16%nat → (n ≤ 16)%nat → (offset + n ≤ length bytes)%nat →
  agree (write_at header 0 (take n (drop offset bytes))) 0 bytes offset n.
Proof.
  intros Hh Hn Ho. apply agree_drop. rewrite write_at_0 by (rewrite length_take, length_drop; lia).
  rewrite drop_0, take_app_le by (rewrite length_take, length_drop; lia). by rewrite take_take, Nat.min_id.
Qed.

(** ** One chunk *)

(** A run that stopped with the error [e]. *)
Definition stopped (r : Result WavMetadataInspector) (e : Error) : Prop :=
  ∃ s', r = success s' ∧ error_ s' = Some e.

Lemma stopped_reject bytes s m : error_ s = None →
  stopped (run (reject m s) bytes) (plain_error unsupported_audio m).
Proof.
  intros He. exists (reject m s). pose proof (reject_error m s He).
  split; [apply run_error; congruence|done].
Qed.

(** The object once the eight bytes at [offset] are collected. *)
Definition with_header bytes s offset (n : nat) : WavMetadataInspector :=
  set_header_bytes (collect (receive s n) (take n (drop offset bytes))) 0.

Lemma with_header_carries bytes s w offset n :
  carries bytes s w offset → ¬ skipping s → (offset + n ≤ length bytes)%nat →
  needed (stage_ s) = n →
  carries bytes (with_header bytes s offset n) w (offset + n) ∧
  agree (header_ (with_header bytes s offset n)) 0 bytes offset n.
Proof.
  intros Hc Hn Hle Hneed. pose proof (needed_le (stage_ s)). pose proof Hc as [Hs Hb Hr Ho _ _ _ _ H0 _].
  assert (length (take n (drop offset bytes)) = n) as Hlen by (rewrite length_take, length_drop; lia).
  destruct (collect_fed s n (take n (drop offset bytes)) Hs Hn) as [(H1 & H2 & H3) _];
    [by eapply carries_fits|done|rewrite H0, Hneed; lia|]. fold (with_header bytes s offset n) in *.
  split.
  - destruct Hc. split; try done; rewrite H3, Hr; lia.
  - unfold with_header. members. rewrite H0. apply collected_agree; [apply Hs|lia|done].
Qed.

Lemma run_collect bytes s w offset n :
  carries bytes s w offset → ¬ skipping s → header_cut s = false →
  (offset + n ≤ length bytes)%nat → needed (stage_ s) = n →
  run s (drop offset bytes) =
  (s' ← finish_stage (with_header bytes s offset n); run s' (drop (offset + n) bytes)).
Proof.
  intros Hc Hn Hcut Hle Hneed. pose proof (needed_le (stage_ s)).
  rewrite (carries_step bytes s w offset n Hc); [|apply Hc|done|apply drop_nonempty; lia].
  rewrite feed_step_collect, Hcut by done. rewrite (carries_collected _ _ _ _ Hc), Hneed, Nat.sub_0_r.
  rewrite length_drop, Nat.min_l by lia. cbv zeta. members.
  rewrite (carries_collected _ _ _ _ Hc), length_take_le by (rewrite length_drop; lia).
  cbn [Nat.add]. rewrite Nat.eqb_refl. cbn [negb].
  fold (with_header bytes s offset n). by destruct (finish_stage _).
Qed.

Lemma finish_chunk_pass bytes s2 w offset n :
  carries bytes s2 w (offset + 8) → stage_ s2 = chunk_header → agree (header_ s2) 0 bytes offset 8 →
  read_u32 bytes (offset + 4) = success n → (offset + 8 + N.to_nat n ≤ length bytes)%nat →
  n < 2 ^ 32 →
  match read_chunk bytes offset n w with
  | success w' =>
      ends_chunk bytes (s' ← finish_chunk_header s2; run s' (drop (offset + 8) bytes)) w' n (offset + 8)
  | failure e => stopped (s' ← finish_chunk_header s2; run s' (drop (offset + 8) bytes)) e
  | thrown => True
  end.
Proof.
  intros Hc Hst Ha Hn Hle H32. pose proof (size_small _ _ _ _ Hc) as Hsmall.
  pose proof Hc as [Hs Hb Hr Ho Hf Hd Hfm Hdb H0 He].
  pose proof (agree_u32 _ _ _ _ _ 4 Ha ltac:(lia)) as Hread. cbn [Nat.add] in Hread.
  unfold finish_chunk_header. rewrite Hread, Hn. cbn [mbind result_bind].
  rewrite Hb, Hr, u64_sub_le by (unfold size; lia). unfold size.
  destruct (N.ltb_spec (N.of_nat (length bytes) - N.of_nat (offset + 8)) n); [lia|].
  set (s3 := set_needs_padding s2 (N.odd n)).
  assert (carries bytes s3 w (offset + 8)) as Hc3.
  { split; try done. apply (ready_next s2); subst s3; members; try (done || apply Hs); by rewrite Hst. }
  unfold read_chunk. rewrite !has_fourcc_in by (cbn; lia).
  change (header_ s3) with (header_ s2). 
  pose proof (agree_name _ _ _ _ _ 0 (fourcc "fmt ") Ha ltac:(cbn; lia)) as E1.
  pose proof (agree_name _ _ _ _ _ 0 (fourcc "data") Ha ltac:(cbn; lia)) as E2.
  rewrite !Nat.add_0_r in E1, E2. rewrite E1, E2.
  rewrite !bytes_equal_spec by (cbn; lia). cbn [mbind result_bind].
  destruct (bool_decide (_ = fourcc "fmt ")).
  - change (have_fmt_ s3) with (have_fmt_ s2). rewrite Hf.
    destruct (have_fmt w || negb (n =? 16)) eqn:Hfn; [by apply stopped_reject|].
    assert (n = 16) as -> by (destruct (have_fmt w); cbn in Hfn; lia).
    destruct (read_format_in bytes (offset + 8)) as [f Ef]; [lia|]. rewrite Ef.
    cbn [mbind result_bind].
    set (s4 := set_stage (set_have_fmt s3) format_stage).
    set (w4 := MkWavChunks true (have_data w) (format w) (audio_bytes w)).
    assert (carries bytes s4 w4 (offset + 8)) as Hc4.
    { split; try done. apply (ready_next s2); subst s4 s3; members; try (done || apply Hs). }
    rewrite (run_collect bytes s4 w4 (offset + 8) 16 Hc4); [|by intros []|done|lia|done].
    destruct (with_header_carries bytes s4 w4 (offset + 8) 16 Hc4) as [Hc5 Ha5];
      [by intros []|lia|done|].
    unfold finish_stage. change (stage_ (with_header bytes s4 (offset + 8) 16)) with format_stage.
    unfold finish_format. rewrite (agree_format _ _ _ _ Ha5), Ef. cbn [mbind result_bind].
    unfold ends_chunk. cbn [unpadded N.odd andb].
    eexists. split; [reflexivity|]. split; [|done].
    destruct Hc5 as [Hs5 Hb5 Hr5 Ho5 Hf5 Hd5 Hfm5 Hdb5 H05 He5].
    split; members; try done. apply (ready_next (with_header bytes s4 (offset + 8) 16));
      members; try (done || apply Hs5).
  - assert (∀ s4 w4, (s4 = s3 ∧ w4 = w) ∨ (s4 = set_data s3 n ∧
              w4 = MkWavChunks (have_fmt w) true (format w) (take (N.to_nat n) (drop (offset + 8) bytes))) →
      ends_chunk bytes (run (if n =? 0 then end_payload (set_stage (set_payload s4 n) payload)
                             else set_stage (set_payload s4 n) payload) (drop (offset + 8) bytes))
        w4 n (offset + 8)) as Hend.
    { intros s4 w4 Hs4. assert (carries bytes s4 w4 (offset + 8) ∧ needs_padding_ s4 = N.odd n ∧
        stage_ s4 = chunk_header) as (Hc4 & Hp4 & Hst4).
      { destruct Hs4 as [[-> ->]|[-> ->]]; [done|]. split; [|done]. destruct Hc3.
        split; members; try done.
        - apply (ready_next s3); members; try (done || apply Hs).
        - unfold size. cbn [audio_bytes]. rewrite length_take_le by (rewrite length_drop; lia). lia. }
      pose proof Hc4 as [Hs4' Hb4 Hr4 Ho4 Hf4 Hd4 Hfm4 Hdb4 H04 He4].
      destruct (N.eqb_spec n 0) as [->|Hn0].
      - change (end_payload (set_stage (set_payload s4 0) payload))
          with (end_payload (set_payload s4 0)).
        pose proof (run_skipped bytes (set_payload s4 0) w4 (offset + 8) 0) as Hrun.
        change (N.to_nat 0) with 0%nat in Hrun. rewrite Nat.add_0_r in Hrun. apply Hrun; [|done].
        split; members; try done. apply (ready_next s4); members; try (done || apply Hs4').
        by rewrite Hst4.
      - apply (run_payload bytes (set_stage (set_payload s4 n) payload)); [|done|done|exact Hp4|exact Hle].
        split; members; try done.
        apply (ready_next s4); members; try (done || apply Hs4').
        clear - Hn0 H32. lia. }
    destruct (bool_decide (_ = fourcc "data")); cbn [andb].
    + change (have_data_ s3) with (have_data_ s2). rewrite Hd.
      destruct (have_data w); [by apply stopped_reject|]. rewrite subspan_in by lia.
      cbn [mbind result_bind]. apply Hend. by right.
    + cbn [mbind result_bind]. apply Hend. by left.
Qed.

(** ** The whole file *)

Lemma run_chunks fuel : ∀ bytes s w offset,
  at_chunk bytes s w offset → (length bytes ≤ fuel + offset)%nat →
  match read_chunks fuel bytes offset w with
  | success r => r.1 = length bytes ∧
      ∃ s', run s (drop offset bytes) = success s' ∧ at_chunk bytes s' r.2 (length bytes)
  | failure e => stopped (run s (drop offset bytes)) e
  | thrown => True
  end.
Proof.
  induction fuel as [|fuel IH]; intros bytes s w offset [Hc Hst] Hfuel;
    pose proof (carries_offset _ _ _ _ Hc) as Ho; cbn [read_chunks];
    destruct (Nat.ltb_spec offset (length bytes)) as [Hlt|Hge]; try done.
  1,3: assert (offset = length bytes) as -> by lia; rewrite drop_all;
    split; [done|]; exists s; split; [done|by split].
  pose proof (size_small _ _ _ _ Hc) as Hsmall.
  assert (¬ skipping s) as Hskip by (unfold skipping; rewrite Hst; by intros []).
  assert (header_cut s = (Nat.ltb (length bytes - offset) 8)) as Hcut.
  { unfold header_cut. rewrite Hst, (carries_collected _ _ _ _ Hc), (carries_length _ _ _ _ Hc),
      (carries_received _ _ _ _ Hc), u64_sub_le by (unfold size; lia).
    rewrite bool_decide_eq_true_2 by done. cbn [Nat.eqb andb]. unfold size. lia. }
  destruct (Nat.ltb_spec (length bytes - offset) 8) as [H8|H8].
  { rewrite (carries_step bytes s w offset 0 Hc); [|apply Hc|lia|by apply drop_nonempty].
    rewrite feed_step_collect, Hcut by done. cbn [mbind result_bind fst snd].
    apply stopped_reject, Hc. }
  rewrite (run_collect bytes s w offset 8 Hc) by (done || lia || by rewrite Hst).
  destruct (with_header_carries bytes s w offset 8 Hc Hskip) as [Hc2 Ha]; [lia|by rewrite Hst|].
  set (s2 := with_header bytes s offset 8) in *.
  assert (stage_ s2 = chunk_header) as Hst2 by exact Hst.
  unfold finish_stage. rewrite Hst2.
  destruct (read_u32_in bytes (offset + 4)) as (n & En & H32); [lia|]. rewrite En.
  cbn [mbind result_bind].
  destruct (N.ltb_spec (N.of_nat (length bytes - (offset + 8))) n) as [Hbig|Hfits].
  { pose proof (agree_u32 _ _ _ _ _ 4 Ha ltac:(lia)) as Hread. cbn [Nat.add] in Hread.
    unfold finish_chunk_header. rewrite Hread, En. cbn [mbind result_bind].
    rewrite (carries_length _ _ _ _ Hc2), (carries_received _ _ _ _ Hc2), u64_sub_le
      by (unfold size; lia).
    unfold size. destruct (N.ltb_spec (N.of_nat (length bytes) - N.of_nat (offset + 8)) n); [|lia].
    apply stopped_reject, Hc2. }
  pose proof (finish_chunk_pass bytes s2 w offset n Hc2 Hst2 Ha En ltac:(lia) H32) as Hpass.
  destruct (read_chunk bytes offset n w) as [w'| |]; cbn [mbind result_bind]; [|exact Hpass|done].
  unfold ends_chunk, unpadded, next_offset in Hpass.
  destruct (N.odd n); cbn [andb] in Hpass.
  - destruct (Nat.eqb_spec (offset + 8 + N.to_nat n) (length bytes)); [exact Hpass|].
    destruct Hpass as (s' & -> & Hs'). apply IH; [exact Hs'|lia].
  - destruct Hpass as (s' & -> & Hs'). apply IH; [exact Hs'|lia].
Qed.

(** The metadata of a decoded sample. *)
Definition metadata_of (p : PcmSample) : WavMetadata :=
  MkWavMetadata (sample_rate p) (channels p) (frame_count p).

Definition described (r : Result PcmSample) : Result WavMetadata := p ← r; success (metadata_of p).

Lemma decode_samples_aligned w : format_supported (format w) = true →
  size (audio_bytes w) < 2 ^ 64 → size (audio_bytes w) ≠ 0 →
  size (audio_bytes w) mod block_align (format w) = 0 →
  described (decode_samples w) =
  success (MkWavMetadata (fmt_sample_rate (format w)) (fmt_channels (format w))
             (size (audio_bytes w) / block_align (format w))).
Proof.
  intros Hf Hsmall H0 Hm. pose proof (decode_samples_post w) as Hp.
  apply format_supported_spec in Hf as Hf'. destruct Hf' as (Hr & Hc & Hb).
  assert (∃ p, decode_samples w = success p) as [p E].
  { unfold decode_samples in *. rewrite Hf, Hm in *. cbn [negb orb] in *.
    set (n := size (audio_bytes w)) in *. destruct (N.eqb_spec n 0); [done|].
    change (negb (0 =? 0)) with false in *. cbn [orb] in *.
    assert (n / block_align (format w) * fmt_channels (format w) = n / 2) as Hmul.
    { rewrite Hb in Hm |- *. destruct Hc as [Hc|Hc]; rewrite Hc in Hm |- *; revert Hm; dlia. }
    assert (n / block_align (format w) ≤ n / 2) 
      by (rewrite <- Hmul; generalize (n / block_align (format w)); intros q;
          destruct Hc as [Hc|Hc]; rewrite Hc; lia).
    unfold u64_mul in *. rewrite Hmul in *.
    assert (n = n / 2 * 2) as Hn 
      by (rewrite Hb in Hm; destruct Hc as [Hc|Hc]; rewrite Hc in Hm; revert Hm; dlia).
    rewrite (wrap_small 64 (n / 2)) in * by lia. rewrite (wrap_small 64 (n / 2 * 2)) in * by lia.
    destruct (N.ltb_spec ((2 ^ 64 - 1) / fmt_channels (format w)) (n / block_align (format w))) as [Hx|_].
    { exfalso. rewrite Hb in Hx. destruct Hc as [Hc|Hc]; rewrite Hc in Hx; revert Hx; dlia. }
    assert ((2 ^ 64 - 1 <? n / 2) = false) as Ea by lia.
    assert (((2 ^ 64 - 1) / 2 <? n / 2) = false) as Eb by (apply N.ltb_ge; dlia).
    rewrite Ea, Eb, <- Hn, N.eqb_refl in *. cbn [orb negb] in *.
    destruct (read_samples_total (length (audio_bytes w)) (audio_bytes w) 0) as [l ->]; [lia| |by eexists].
    rewrite Nat.sub_0_r. apply Nat.even_spec. exists (N.to_nat (n / 2)). subst n. unfold size in *. lia. }
  rewrite E in Hp |- *. cbn [post described mbind result_bind] in *. unfold metadata_of.
  destruct Hp as (_ & Hl & Er & Ec). unfold described. cbn [mbind result_bind].
  unfold metadata_of, frame_count. rewrite Er, Ec. do 2 f_equal. rewrite Hb. unfold size.
  replace (N.of_nat (length (audio_bytes w))) with (N.of_nat (length (interleaved p)) * 2) by lia.
  rewrite N.Div0.div_mul_cancel_r by lia. done.
Qed.

Lemma finish_chunks bytes s w : carries bytes s w (length bytes) → stage_ s = chunk_header →
  (finish s).1 =
  described (if negb (have_fmt w) || negb (have_data w)
             then unsupported "WAV must contain one fmt and one data chunk"
             else decode_samples w) ∨ size bytes < size (audio_bytes w).
Proof.
  intros Hc Hst. pose proof (size_small _ _ _ _ Hc) as Hsmall.
  destruct Hc as [Hs Hb Hr Ho Hf Hd Hfm Hdb H0 He].
  destruct (N.ltb_spec (size bytes) (size (audio_bytes w))) as [|Hle]; [by right|left].
  unfold finish. rewrite He. unfold finish_error.
  rewrite Hr, Hb, Hst, H0, Hf, Hd, Hfm, Hdb. unfold size at 1. rewrite N.eqb_refl.
  rewrite bool_decide_eq_true_2 by done. cbn [negb orb Nat.eqb].
  destruct (negb (have_fmt w) || negb (have_data w)); [done|].
  destruct (format_supported (format w)) eqn:Efmt; cbn [negb]; [|unfold decode_samples; by rewrite Efmt].
  destruct (N.eqb_spec (size (audio_bytes w)) 0) as [E0|E0]; cbn [orb].
  { unfold decode_samples. by rewrite Efmt, E0. }
  destruct (N.eqb_spec (size (audio_bytes w) mod block_align (format w)) 0) as [Em|Em]; cbn [negb].
  - symmetry. apply decode_samples_aligned; [done| |done..]. unfold size in *. lia.
  - unfold decode_samples. rewrite Efmt. cbn [negb].
    apply N.eqb_neq in E0 as ->. by apply N.eqb_neq in Em as ->.
Qed.

(** What the object says of a file that is fed whole. *)
Definition inspected (r : Result WavMetadataInspector) : Result WavMetadata := s ← r; (finish s).1.

Lemma inspected_stopped r e : stopped r e → inspected r = failure e.
Proof. intros (s & -> & He). cbn. unfold finish. by rewrite He. Qed.

Lemma inspected_decode bytes : size bytes < 2 ^ 64 →
  inspected (run (create_inspector (size bytes)) bytes) = described (decode_wav bytes).
Proof.
  intros Hsmall. unfold create_inspector, decode_wav.
  destruct (N.ltb_spec (size bytes) 12) as [|H12]; [by rewrite run_error|].
  set (s := MkInspector _ _ _ _ _ _ _ _ _ _ _ _).
  assert (carries bytes s no_chunks 0) as Hc.
  { split; try done; [|cbn; lia]. split; try done; cbn; lia. }
  assert (¬ skipping s) as Hskip by (by intros []).
  assert (12 ≤ length bytes)%nat as H12' by (unfold size in H12; lia).
  rewrite <- (drop_0 bytes) at 1.
  rewrite (run_collect bytes s no_chunks 0 12 Hc Hskip eq_refl) by (done || lia).
  destruct (with_header_carries bytes s no_chunks 0 12 Hc Hskip) as [Hc2 Ha]; [lia|done|].
  set (s2 := with_header bytes s 0 12) in *. cbn [Nat.add] in *.
  unfold finish_stage. change (stage_ s2) with riff. unfold finish_riff.
  pose proof (agree_name _ _ _ _ _ 0 (fourcc "RIFF") Ha ltac:(cbn; lia)) as E1.
  pose proof (agree_name _ _ _ _ _ 8 (fourcc "WAVE") Ha ltac:(cbn; lia)) as E2.
  pose proof (agree_u32 _ _ _ _ _ 4 Ha ltac:(lia)) as E3. cbn [Nat.add] in E1, E2, E3.
  rewrite E1, E2, E3, !has_fourcc_in by (cbn; lia). rewrite !bytes_equal_spec by (cbn; lia).
  cbn [mbind result_bind].
  destruct (bool_decide (_ = fourcc "RIFF")); cbn [mbind result_bind negb orb];
    [|by apply inspected_stopped, stopped_reject, Hc2].
  destruct (bool_decide (_ = fourcc "WAVE")); cbn [mbind result_bind negb orb];
    [|by apply inspected_stopped, stopped_reject, Hc2].
  destruct (read_u32_in bytes 4) as (n & -> & _); [lia|]. cbn [mbind result_bind].
  rewrite (carries_length _ _ _ _ Hc2).
  destruct (negb (u64_add n 8 =? size bytes));
    [by apply inspected_stopped, stopped_reject, Hc2|]. cbn [mbind result_bind].
  assert (at_chunk bytes (set_stage s2 chunk_header) no_chunks 12) as Hat.
  { split; [|done]. destruct Hc2 as [Hs Hb Hr Ho]. split; members; try done.
    apply (ready_next s2); members; try (done || apply Hs). }
  pose proof (run_chunks (length bytes) _ _ _ _ Hat ltac:(lia)) as Hrun.
  pose proof (read_chunks_post (length bytes) bytes 12 no_chunks ltac:(lia)) as Hw.
  specialize (Hw ltac:(unfold within; cbn; lia)).
  destruct (read_chunks (length bytes) bytes 12 no_chunks) as [r|e|];
    [|by apply inspected_stopped in Hrun as ->|done].
  destruct Hrun as (Hr & s' & Es' & Hc' & Hst'). unfold inspected. rewrite Es'.
  cbn [mbind result_bind post] in *.
  destruct (finish_chunks bytes s' r.2 Hc' Hst') as [Hfin|Hbad];
    [|unfold within, size in *; lia].
  rewrite Hfin, Hr, Nat.eqb_refl. done.
Qed.

Lemma feed_whole bytes : size bytes < 2 ^ 64 →
  ready (create_inspector (size bytes)) ∧ fits (create_inspector (size bytes)) (length bytes).
Proof.
  intros Hsmall. unfold create_inspector.
  set (s := MkInspector _ _ _ _ _ _ _ _ _ _ _ _).
  assert (ready s) as Hs by (split; try done; cbn; lia).
  assert (fits s (length bytes)) as Hf by (unfold fits; subst s; members; unfold size; lia).
  destruct (_ <? 12); [split; [by apply ready_reject|exact Hf]|done].
Qed.

(** C33: The streaming inspector and the decoder agree on every file, however
    the file is cut into pieces: fed all of them, the inspector finishes with the
    rate, the channels and the number of frames of the decoded sample when the
    decoder accepts the file, and with the decoder's own error when it does not.
    Inspecting the file at once is the same. *)
Theorem inspector_agrees bytes pieces : concat pieces = bytes → size bytes < 2 ^ 64 →
  inspected (feed_all (create_inspector (size bytes)) pieces) = described (decode_wav bytes) ∧
  inspect_wav bytes = described (decode_wav bytes).
Proof.
  intros Hp Hsmall. destruct (feed_whole bytes Hsmall) as [Hs Hf].
  assert (∀ r, r = fold_result one (create_inspector (size bytes)) bytes →
    inspected r = described (decode_wav bytes)) as H.
  { intros r ->. rewrite <- inspected_decode by done. unfold run.
    by rewrite (feed_loop_bytes (length bytes)). }
  split.
  - apply H. rewrite feed_all_bytes by (rewrite ?Hp; done). by rewrite Hp.
  - unfold inspect_wav. rewrite feed_bytes by done. specialize (H _ eq_refl). rewrite <- H.
    unfold inspected. destruct (fold_result _ _ _) as [s| |]; cbn [mbind result_bind]; [|done..].
    unfold feed_result. destruct (error_ s) eqn:He; [|done]. cbn. unfold finish. by rewrite He.
Qed.
End laws.

(** The example of the selection, cut inside its chunk names. *)
Lemma inspector_agrees_witness :
  let pieces := [take 5 example_wav; []; take 33 (drop 5 example_wav); drop 38 example_wav] in
  concat pieces = example_wav ∧
  inspected (JL := dom_lib) (feed_all (create_inspector (size example_wav)) pieces) =
    success (MkWavMetadata 44100 2 3).
Proof.
  intros pieces. split; [reflexivity|].
  exact (proj1 (inspector_agrees (JL := dom_lib) example_wav pieces eq_refl eq_refl)).
Defined.
