(* ===== verification/Analysis.v ===== *)
(** Waveforms and the runtime sample rate.

    Models packages/project-cooker/src/sample_analysis.cpp: the peaks of a window
    of a sample ([waveform_envelope]) and the conversion to 48 kHz
    ([prepare_runtime_pcm]).  A loop over an unsigned counter is a recursion on
    the number of its passes. *)

From S2P Require Import Prelude Json Foundation Wav Inspector.

Definition kRuntimeSampleRate : N := 48000.
Definition kWaveformAlgorithmVersion : N := 1.

Record WaveformRequest := MkWaveformRequest {
  start_frame : N;
  end_frame : N;
  bucket_count : N
}.

Record PeakBucket := MkPeakBucket {
  bucket_start : N;
  bucket_end : N;
  peak_magnitude : N
}.

Record WaveformEnvelope := MkWaveformEnvelope {
  metadata : WavMetadata;
  algorithm_version : N;
  buckets : list PeakBucket
}.

(** Division of signed integers in C++ truncates. *)
Definition magnitude (sample : Z) : N :=
  if (sample =? -2 ^ 15)%Z then 32768
  else wrap 16 (Z.to_N (if (sample <? 0)%Z then - sample else sample)).

(** [static_cast<std::int16_t>] wraps. *)
Definition to_int16 (v : Z) : Z := int16_of (uint16_of v).

Definition symmetric_round (numerator denominator : Z) : Z :=
  let half := Z.quot denominator 2 in
  let rounded := if (0 <=? numerator)%Z then Z.quot (numerator + half) denominator
                 else (- Z.quot (- numerator + half) denominator)%Z in
  to_int16 rounded.

Section analysis.
Context `{JL : JsonLib}.

Definition validate_sample (sample : PcmSample) : Result () :=
  if (negb (sample_rate sample =? 44100) && negb (sample_rate sample =? 48000)) ||
     (negb (channels sample =? 1) && negb (channels sample =? 2)) ||
     is_empty (interleaved sample) ||
     negb (N.of_nat (length (interleaved sample)) mod channels sample =? 0)
  then unsupported "decoded PCM shape is unsupported"
  else success ().

(** [sample.interleaved.at(index)]. *)
Definition sample_at (sample : PcmSample) (index : N) : Result Z :=
  throwing (interleaved sample !! N.to_nat index).

(** ** Waveform *)

(** The loops over the channels of a frame and over the frames of a bucket. *)
Definition frame_peak (sample : PcmSample) (frame : N) (peak : N) : Result N :=
  let base := u64_mul frame (channels sample) in
  fold_result (λ peak channel,
      v ← sample_at sample (u64_add base (N.of_nat channel));
      success (N.max peak (magnitude v)))
    peak (seq 0 (N.to_nat (channels sample))).

Definition bucket_peak (sample : PcmSample) (first last : N) : Result N :=
  fold_result (λ peak i, frame_peak sample (first + N.of_nat i) peak)
    0 (seq 0 (N.to_nat (last - first))).

(** The loop over the buckets; [fuel] bounds their number. *)
Fixpoint peak_buckets (fuel : nat) (sample : PcmSample) (frames_per_bucket end_ start : N) :
    Result (list PeakBucket) :=
  if start <? end_ then
    match fuel with
    | O => thrown
    | S fuel' =>
        let bucket_frames := N.min frames_per_bucket (u64_sub end_ start) in
        let stop := u64_add start bucket_frames in
        peak ← bucket_peak sample start stop;
        rest ← peak_buckets fuel' sample frames_per_bucket end_ stop;
        success (MkPeakBucket start stop peak :: rest)
    end
  else success [].

Definition waveform_envelope (sample : PcmSample) (request : WaveformRequest) :
    Result WaveformEnvelope :=
  _ ← validate_sample sample;
  let source_frames := N.of_nat (length (interleaved sample)) / channels sample in
  if (bucket_count request =? 0) || (512 <? bucket_count request) ||
     (end_frame request <=? start_frame request) || (source_frames <? end_frame request)
  then invalid_range "waveform request is outside source bounds"
  else
    let window_frames := u64_sub (end_frame request) (start_frame request) in
    let frames_per_bucket :=
      u64_add (window_frames / bucket_count request)
              (if window_frames mod bucket_count request =? 0 then 0 else 1) in
    b ← peak_buckets (N.to_nat (bucket_count request)) sample frames_per_bucket
          (end_frame request) (start_frame request);
    success (MkWaveformEnvelope
      (MkWavMetadata (sample_rate sample) (channels sample) source_frames)
      kWaveformAlgorithmVersion b).

(** ** The runtime rate *)

(** One output sample: channel [channel] of the frame at [source_position]. *)
Definition prepared_sample (source : PcmSample) (source_frames source_frame remainder channel : N) :
    Result Z :=
  let left_index := u64_add (u64_mul source_frame (channels source)) channel in
  if u64_sub source_frames 1 <=? source_frame then
    sample_at source (u64_add (u64_mul (u64_sub source_frames 1) (channels source)) channel)
  else
    let right_index := u64_add left_index (channels source) in
    l ← sample_at source left_index;
    r ← sample_at source right_index;
    let weighted := (l * Z.of_N (u64_sub kRuntimeSampleRate remainder) + r * Z.of_N remainder)%Z in
    success (symmetric_round weighted (Z.of_N kRuntimeSampleRate)).

Definition prepared_frame (source : PcmSample) (source_frames : N) (interleaved : list Z)
    (output_frame : N) : Result (list Z) :=
  if (2 ^ 64 - 1) / sample_rate source <? output_frame then
    unsupported "prepared PCM source position overflowed"
  else
    let source_position := u64_mul output_frame (sample_rate source) in
    let source_frame := source_position / kRuntimeSampleRate in
    let remainder := source_position mod kRuntimeSampleRate in
    fold_result (λ out channel,
        v ← prepared_sample source source_frames source_frame remainder (N.of_nat channel);
        success (out ++ [v]))
      interleaved (seq 0 (N.to_nat (channels source))).

Definition prepare_runtime_pcm (source : PcmSample) : Result PcmSample :=
  _ ← validate_sample source;
  if sample_rate source =? kRuntimeSampleRate then success source
  else
    let source_frames := N.of_nat (length (interleaved source)) / channels source in
    if (2 ^ 64 - 1) / kRuntimeSampleRate <? source_frames then
      unsupported "prepared PCM frame count overflowed"
    else
      let scaled_frames := u64_mul source_frames kRuntimeSampleRate in
      let prepared_frames :=
        u64_add (scaled_frames / sample_rate source)
                (if scaled_frames mod sample_rate source =? 0 then 0 else 1) in
      if (2 ^ 64 - 1) / channels source <? prepared_frames then
        unsupported "prepared PCM sample count overflowed"
      else
        let prepared_samples := u64_mul prepared_frames (channels source) in
        if 2 ^ 64 - 1 <? prepared_samples then
          unsupported "prepared PCM allocation exceeds supported range"
        else
          out ← fold_result (λ out i, prepared_frame source source_frames out (N.of_nat i)) []
                  (seq 0 (N.to_nat prepared_frames));
          success (MkPcmSample kRuntimeSampleRate (channels source) out).
End analysis.
