(* ===== verification/AnalysisLaws.v ===== *)
(** Waveforms cover their window; the runtime conversion interpolates.

    The buckets of a waveform tile the window that was asked for, and each holds
    the largest magnitude of its frames.  The conversion to 48 kHz yields the
    frames that cover the source, each sample the rounding of the linear
    interpolation of its two neighbours and between them. *)

From S2P Require Import Prelude Json Foundation Wav WavLaws Inspector Analysis.

(** ** Loops that collect *)

Section loops.
Context `{JL : JsonLib}.

Lemma fold_append {A B} (f : A → Result B) (g : A → B) out l :
  (∀ a, a ∈ l → f a = success (g a)) →
  fold_result (λ out a, v ← f a; success (out ++ [v])) out l = success (out ++ (g <$> l)).
Proof.
  revert out. induction l as [|a l IH]; intros out Hf; cbn [fold_result fmap list_fmap].
  { by rewrite app_nil_r. }
  rewrite Hf by left. cbn [mbind result_bind]. rewrite IH by (intros; apply Hf; by right).
  by rewrite <- app_assoc.
Qed.

Lemma fold_append_blocks {A B} (f : list B → A → Result (list B)) (g : A → list B) out l :
  (∀ out a, a ∈ l → f out a = success (out ++ g a)) →
  fold_result f out l = success (out ++ concat (g <$> l)).
Proof.
  revert out. induction l as [|a l IH]; intros out Hf; cbn [fold_result fmap list_fmap concat].
  { by rewrite app_nil_r. }
  rewrite Hf by left. cbn [mbind result_bind]. rewrite IH by (intros; apply Hf; by right).
  by rewrite <- app_assoc.
Qed.

Lemma fold_max {A} (f : N → A → Result N) (g : A → N) m l :
  (∀ m a, a ∈ l → f m a = success (N.max m (g a))) →
  fold_result f m l = success (foldl N.max m (g <$> l)).
Proof.
  revert m. induction l as [|a l IH]; intros m Hf; cbn [fold_result fmap list_fmap foldl]; [done|].
  rewrite Hf by left. cbn [mbind result_bind]. apply IH. intros; apply Hf; by right.
Qed.
End loops.

Lemma foldl_max_spec m l : ∀ x, foldl N.max m l ≤ x ↔ m ≤ x ∧ Forall (λ y, y ≤ x) l.
Proof.
  revert m. induction l as [|y l IH]; intros m x; cbn [foldl].
  - split; [by split; [|constructor]|tauto].
  - rewrite IH, Forall_cons, N.max_lub_iff. tauto.
Qed.

(** Blocks of one length. *)
Lemma lookup_concat_blocks {A} (ls : list (list A)) n i j :
  Forall (λ l, length l = n) ls → (j < n)%nat →
  concat ls !! (i * n + j)%nat = l ← ls !! i; l !! j.
Proof.
  intros Hl Hj. revert i. induction Hl as [|l ls Hn _ IH]; intros i; [done|].
  cbn [concat]. destruct i as [|i].
  - cbn [Nat.mul Nat.add lookup list_lookup mbind option_bind]. apply lookup_app_l. lia.
  - rewrite lookup_app_r by lia. replace (S i * n + j - length l)%nat with (i * n + j)%nat by lia.
    apply IH.
Qed.

Lemma length_concat_blocks {A} (ls : list (list A)) n :
  Forall (λ l, length l = n) ls → length (concat ls) = (length ls * n)%nat.
Proof. induction 1 as [|l ls Hn _ IH]; [done|]. cbn. rewrite length_app, IH, Hn. lia. Qed.

(** ** Samples by frame and channel *)

Definition sample_of (p : PcmSample) (frame channel : N) : Z :=
  value_or (interleaved p !! N.to_nat (frame * channels p + channel)) 0%Z.

(** Division rounding up, in the two ways it is written. *)
Lemma ceil_div n d : 0 < d → n / d + (if n mod d =? 0 then 0 else 1) = (n + d - 1) / d.
Proof.
  intros Hd. pose proof (N.div_mod n d ltac:(lia)) as Hdm. pose proof (N.mod_lt n d ltac:(lia)) as Hm.
  revert Hdm Hm. generalize (n / d), (n mod d). intros q r Hdm Hm.
  destruct (N.eqb_spec r 0) as [->|E];
    [apply (N.div_unique _ _ _ (d - 1))|apply (N.div_unique _ _ _ (r - 1))]; lia.
Qed.

Lemma ceil_div_covers n d : 0 < d → n ≤ (n / d + (if n mod d =? 0 then 0 else 1)) * d.
Proof.
  intros Hd. pose proof (N.div_mod n d ltac:(lia)) as Hdm. pose proof (N.mod_lt n d ltac:(lia)) as Hm.
  revert Hdm Hm. generalize (n / d), (n mod d). intros q r Hdm Hm.
  destruct (N.eqb_spec r 0) as [->|E]; lia.
Qed.

Section samples.
Context `{JL : JsonLib}.

Lemma frame_index p frame channel : pcm_ok p → frame < frame_count p → channel < channels p →
  frame * channels p + channel < N.of_nat (length (interleaved p)).
Proof.
  intros Hok Hf Hc. pose proof (frame_count_mul p (frame + 1) Hok ltac:(lia)). nia.
Qed.

Lemma sample_at_index p frame channel : pcm_ok p → frame < frame_count p → channel < channels p →
  sample_at p (frame * channels p + channel) = success (sample_of p frame channel).
Proof.
  intros Hok Hf Hc. pose proof (frame_index p frame channel Hok Hf Hc) as Hi.
  unfold sample_at, sample_of.
  destruct (lookup_lt_is_Some_2 (interleaved p) (N.to_nat (frame * channels p + channel))) as [s ->];
    [lia|done].
Qed.

Lemma sample_of_int16 p frame channel : pcm_ok p → int16 (sample_of p frame channel).
Proof.
  intros Hok. unfold sample_of. destruct (interleaved p !! _) as [s|] eqn:E; cbn.
  - pose proof (pcm_samples p Hok) as Hs. rewrite Forall_lookup in Hs. by eapply Hs.
  - unfold int16. lia.
Qed.

Lemma validate_ok p : pcm_ok p → validate_sample p = success ().
Proof.
  intros [Hr Hc _ Hne Hf]. unfold validate_sample. rewrite Hf.
  destruct (interleaved p); [done|]. by destruct Hr as [-> | ->], Hc as [-> | ->].
Qed.

Lemma frame_count_pos p : pcm_ok p → 0 < frame_count p.
Proof.
  intros [_ Hc _ Hne Hf]. unfold frame_count. apply N.div_str_pos.
  apply N.Div0.div_exact in Hf. destruct (interleaved p); [done|]. cbn [length] in *.
  destruct Hc as [Hc|Hc]; rewrite Hc in Hf |- *; [lia|]. revert Hf. dlia.
Qed.

(** ** Waveform *)

(** The largest magnitude of the frames from [first] to [last]. *)
Definition window_peak (p : PcmSample) (first last : N) : N :=
  foldl N.max 0 ((λ i, foldl N.max 0 ((λ c, magnitude (sample_of p (first + N.of_nat i) (N.of_nat c)))
    <$> seq 0 (N.to_nat (channels p)))) <$> seq 0 (N.to_nat (last - first))).

Lemma foldl_max_start m l : foldl N.max m l = N.max m (foldl N.max 0 l).
Proof.
  revert m. induction l as [|x l IH]; intros m; cbn [foldl]; [lia|].
  rewrite (IH (N.max m x)), (IH (N.max 0 x)). lia.
Qed.

Lemma frame_peak_spec p frame m : pcm_ok p → N.of_nat (length (interleaved p)) < 2 ^ 63 →
  frame < frame_count p →
  frame_peak p frame m = success (N.max m (foldl N.max 0
    ((λ c, magnitude (sample_of p frame (N.of_nat c))) <$> seq 0 (N.to_nat (channels p))))).
Proof.
  intros Hok Hlen Hf. unfold frame_peak. rewrite <- foldl_max_start. apply fold_max.
  intros m' c [_ Hc]%elem_of_seq. cbn [Nat.add] in Hc.
  pose proof (frame_index p frame (N.of_nat c) Hok Hf ltac:(lia)).
  unfold u64_mul. rewrite wrap_small by lia. rewrite u64_add_small by lia.
  by rewrite sample_at_index by (done || lia).
Qed.

Lemma bucket_peak_spec p first last : pcm_ok p → N.of_nat (length (interleaved p)) < 2 ^ 63 →
  last ≤ frame_count p → bucket_peak p first last = success (window_peak p first last).
Proof.
  intros Hok Hlen Hl. unfold bucket_peak, window_peak. apply fold_max.
  intros m i [_ Hi]%elem_of_seq. cbn [Nat.add] in Hi. apply frame_peak_spec; [done..|lia].
Qed.

(** What a peak means: it bounds every magnitude of the window, and is the
    least such bound. *)
Lemma window_peak_spec p first last x :
  window_peak p first last ≤ x ↔
  ∀ frame channel, first ≤ frame < last → channel < channels p →
    magnitude (sample_of p frame channel) ≤ x.
Proof.
  unfold window_peak. rewrite foldl_max_spec, Forall_fmap, Forall_seq. unfold compose.
  setoid_rewrite foldl_max_spec. setoid_rewrite Forall_fmap. setoid_rewrite Forall_seq.
  unfold compose. split.
  - intros [_ H] frame channel Hf Hc.
    specialize (H (N.to_nat (frame - first)) ltac:(lia)) as [_ H].
    specialize (H (N.to_nat channel) ltac:(lia)).
    rewrite !N2Nat.id in H. by replace (first + (frame - first)) with frame in H by lia.
  - intros H. split; [lia|]. intros i Hi. split; [lia|]. intros c Hc. apply H; lia.
Qed.

(** Buckets that tile a window, each as long as [width] but the last. *)
Inductive tiles (p : PcmSample) (width : N) : N → N → list PeakBucket → Prop :=
  | tiles_nil x : tiles p width x x []
  | tiles_last x y : x < y → y - x ≤ width →
      tiles p width x y [MkPeakBucket x y (window_peak p x y)]
  | tiles_cons x y l : 0 < width → x + width < y → tiles p width (x + width) y l →
      tiles p width x y (MkPeakBucket x (x + width) (window_peak p x (x + width)) :: l).

Lemma peak_buckets_spec fuel p width stop start :
  pcm_ok p → N.of_nat (length (interleaved p)) < 2 ^ 63 → 0 < width →
  start ≤ stop → stop ≤ frame_count p → stop - start ≤ N.of_nat fuel * width →
  ∃ l, peak_buckets fuel p width stop start = success l ∧ tiles p width start stop l ∧
       (length l ≤ fuel)%nat.
Proof.
  intros Hok Hlen Hw. revert start. induction fuel as [|fuel IH]; intros start Hs He Hf;
    cbn [peak_buckets]; destruct (N.ltb_spec start stop) as [Hlt|Hge].
  - lia.
  - assert (start = stop) as -> by lia. exists []. split_and!; [done|constructor|done].
  - assert (frame_count p ≤ N.of_nat (length (interleaved p))) as Hc.
    { unfold frame_count. pose proof (pcm_channels p Hok). apply N.Div0.div_le_upper_bound. nia. }
    rewrite u64_sub_le by lia. rewrite u64_add_small by lia.
    destruct (N.leb_spec (stop - start) width) as [Hlast|Hmore].
    + replace (start + N.min width (stop - start)) with stop by lia.
      rewrite bucket_peak_spec by (done || lia). cbn [mbind result_bind].
      exists [MkPeakBucket start stop (window_peak p start stop)]. split_and!.
      * destruct fuel; cbn [peak_buckets]; by rewrite N.ltb_irrefl.
      * by constructor.
      * cbn. lia.
    + replace (N.min width (stop - start)) with width by lia.
      rewrite bucket_peak_spec by (done || lia). cbn [mbind result_bind].
      destruct (IH (start + width)) as (l & -> & Ht & Hl); [lia..|].
      eexists. split; [reflexivity|]. split; [by constructor; [|lia|]|cbn; lia].
  - assert (start = stop) as -> by lia. exists []. split_and!; [done|constructor|cbn; lia].
Qed.

Definition request_ok (p : PcmSample) (r : WaveformRequest) : bool :=
  (0 <? bucket_count r) && (bucket_count r <=? 512) &&
  (start_frame r <? end_frame r) && (end_frame r <=? frame_count p).

Definition bucket_width (r : WaveformRequest) : N :=
  (end_frame r - start_frame r + bucket_count r - 1) / bucket_count r.

(** A waveform request on a decoded sample succeeds exactly when it asks for
    1 to 512 buckets over a non-empty window inside the sample.  The buckets
    then tile the window in order, no more of them than asked for, all of the
    same width but a shorter last one, and each carries the peak of its frames:
    the least bound of the magnitudes of all their channels. *)
Theorem waveform_tiles p r : pcm_ok p → N.of_nat (length (interleaved p)) < 2 ^ 63 →
  if request_ok p r
  then ∃ e, waveform_envelope p r = success e ∧
    metadata e = MkWavMetadata (sample_rate p) (channels p) (frame_count p) ∧
    tiles p (bucket_width r) (start_frame r) (end_frame r) (buckets e) ∧
    N.of_nat (length (buckets e)) ≤ bucket_count r
  else ∃ e, waveform_envelope p r = failure e.
Proof.
  intros Hok Hlen. unfold waveform_envelope, request_ok. rewrite validate_ok by done.
  cbn [mbind result_bind]. fold (frame_count p).
  destruct ((bucket_count r =? 0) || (512 <? bucket_count r) ||
            (end_frame r <=? start_frame r) || (frame_count p <? end_frame r)) eqn:Hbad.
  { destruct (_ && _) eqn:Hgood; [lia|by eexists]. }
  assert ((0 <? bucket_count r) && (bucket_count r <=? 512) &&
    (start_frame r <? end_frame r) && (end_frame r <=? frame_count p) = true) as -> by lia.
  assert (0 < bucket_count r) as Hb0 by lia.
  assert (frame_count p ≤ N.of_nat (length (interleaved p))) as Hc.
  { unfold frame_count. pose proof (pcm_channels p Hok). apply N.Div0.div_le_upper_bound. nia. }
  rewrite u64_sub_le by lia. set (n := end_frame r - start_frame r).
  assert (n / bucket_count r ≤ n) by (apply N.Div0.div_le_upper_bound; nia).
  assert (n < 2 ^ 63) as Hn by (subst n; lia). assert (0 < n) as Hn0 by (subst n; lia).
  rewrite u64_add_small by (destruct (n mod bucket_count r =? 0); lia).
  assert (n / bucket_count r + (if n mod bucket_count r =? 0 then 0 else 1) = bucket_width r) as ->.
  { unfold bucket_width. fold n. by apply ceil_div. }
  assert (n ≤ bucket_width r * bucket_count r) as Hcover.
  { unfold bucket_width. fold n. rewrite <- ceil_div by done. by apply ceil_div_covers. }
  assert (0 < bucket_width r) as Hpos by nia.
  destruct (peak_buckets_spec (N.to_nat (bucket_count r)) p (bucket_width r) (end_frame r)
    (start_frame r) Hok Hlen Hpos) as (l & -> & Ht & Hl); [lia|lia|nia|].
  eexists. split; [reflexivity|]. split_and!; [done|exact Ht|cbn; lia].
Qed.

(** ** The runtime rate *)

(** The interpolated numerator of an output sample: the weights of the two
    neighbours over 48000. *)
Definition weighted (l r rem : Z) : Z := (l * (48000 - rem) + r * rem)%Z.

Lemma weighted_between l r rem : (0 ≤ rem < 48000)%Z →
  (48000 * Z.min l r ≤ weighted l r rem ≤ 48000 * Z.max l r)%Z.
Proof. unfold weighted. intros H. nia. Qed.

(** Rounding to the nearest, ties away from zero. *)
Lemma symmetric_round_spec w lo hi :
  int16 lo → int16 hi → (48000 * lo ≤ w ≤ 48000 * hi)%Z →
  (lo ≤ symmetric_round w 48000 ≤ hi)%Z ∧ (2 * Z.abs (48000 * symmetric_round w 48000 - w) ≤ 48000)%Z.
Proof.
  intros Hlo Hhi Hw. unfold int16 in *. unfold symmetric_round.
  change (Z.quot 48000 2) with 24000%Z.
  set (v := if (0 <=? w)%Z then Z.quot (w + 24000) 48000 else (- Z.quot (- w + 24000) 48000)%Z).
  assert ((lo ≤ v ≤ hi)%Z ∧ (2 * Z.abs (48000 * v - w) ≤ 48000)%Z) as [Hv He].
  { subst v. destruct (Z.leb_spec 0 w).
    - rewrite Z.quot_div_nonneg by lia.
      pose proof (Z.div_mod (w + 24000) 48000 ltac:(lia)) as Hd.
      pose proof (Z.mod_pos_bound (w + 24000) 48000 ltac:(lia)) as Hm. lia.
    - rewrite Z.quot_div_nonneg by lia.
      pose proof (Z.div_mod (- w + 24000) 48000 ltac:(lia)) as Hd.
      pose proof (Z.mod_pos_bound (- w + 24000) 48000 ltac:(lia)) as Hm. lia. }
  unfold to_int16. rewrite int16_of_uint16 by (unfold int16; lia). done.
Qed.

(** The output sample at [frame] and [channel]: the two source frames around its
    position, the last one standing for what is beyond the end. *)
Definition neighbours (p : PcmSample) (frame channel : N) : Z * Z :=
  let last := frame_count p - 1 in
  let i := frame * sample_rate p / kRuntimeSampleRate in
  (sample_of p (N.min i last) channel, sample_of p (N.min (i + 1) last) channel).

Definition interpolated (p : PcmSample) (frame channel : N) : Z :=
  let i := frame * sample_rate p / kRuntimeSampleRate in
  if frame_count p - 1 <=? i then sample_of p (frame_count p - 1) channel
  else symmetric_round
    (weighted (sample_of p i channel) (sample_of p (i + 1) channel)
       (Z.of_N (frame * sample_rate p mod kRuntimeSampleRate))) 48000.

Lemma rem_range n : (0 ≤ Z.of_N (n mod kRuntimeSampleRate) < 48000)%Z.
Proof.
  pose proof (N.mod_lt n kRuntimeSampleRate ltac:(done)) as H. revert H.
  generalize (n mod kRuntimeSampleRate). unfold kRuntimeSampleRate. lia.
Qed.

Lemma interpolated_spec p frame channel : pcm_ok p → 
  let '(l, r) := neighbours p frame channel in
  let w := weighted l r (Z.of_N (frame * sample_rate p mod kRuntimeSampleRate)) in
  (Z.min l r ≤ interpolated p frame channel ≤ Z.max l r)%Z ∧
  (2 * Z.abs (48000 * interpolated p frame channel - w) ≤ 48000)%Z.
Proof.
  intros Hok. unfold neighbours, interpolated. set (i := _ / kRuntimeSampleRate).
  pose proof (rem_range (frame * sample_rate p)) as Hrem.
  set (rem := Z.of_N (frame * sample_rate p mod kRuntimeSampleRate)) in *.
  destruct (N.leb_spec (frame_count p - 1) i) as [Hend|Hin].
  - rewrite !N.min_r by lia. unfold weighted. split; [lia|].
    replace (48000 * _ - _)%Z with 0%Z by lia. lia.
  - rewrite !N.min_l by lia.
    pose proof (sample_of_int16 p i channel Hok) as Hl.
    pose proof (sample_of_int16 p (i + 1) channel Hok) as Hr.
    apply symmetric_round_spec; [unfold int16 in *; lia..|by apply weighted_between].
Qed.

Lemma interpolated_int16 p frame channel : pcm_ok p → int16 (interpolated p frame channel).
Proof.
  intros Hok. pose proof (interpolated_spec p frame channel Hok) as H.
  unfold neighbours in H. destruct H as [H _].
  pose proof (sample_of_int16 p (N.min (frame * sample_rate p / kRuntimeSampleRate) (frame_count p - 1))
    channel Hok) as Hl.
  pose proof (sample_of_int16 p (N.min (frame * sample_rate p / kRuntimeSampleRate + 1)
    (frame_count p - 1)) channel Hok) as Hr.
  unfold int16 in *. lia.
Qed.

Lemma prepared_sample_spec p frame channel :
  pcm_ok p → frame_count p * 48000 < 2 ^ 64 → N.of_nat (length (interleaved p)) < 2 ^ 63 →
  channel < channels p →
  let position := frame * sample_rate p in
  prepared_sample p (frame_count p) (position / kRuntimeSampleRate) (position mod kRuntimeSampleRate)
    channel = success (interpolated p frame channel).
Proof.
  intros Hok Hsmall Hlen Hc position. unfold prepared_sample, interpolated. fold position.
  set (i := position / kRuntimeSampleRate). set (rem := position mod kRuntimeSampleRate).
  pose proof (frame_count_pos p Hok) as Hpos. rewrite u64_sub_le by lia.
  destruct (N.leb_spec (frame_count p - 1) i) as [Hend|Hin].
  - pose proof (frame_index p (frame_count p - 1) channel Hok ltac:(lia) Hc).
    unfold u64_mul. rewrite wrap_small by lia. rewrite u64_add_small by lia.
    apply sample_at_index; [done|lia|done].
  - pose proof (frame_index p i channel Hok ltac:(lia) Hc).
    pose proof (frame_index p (i + 1) channel Hok ltac:(lia) Hc).
    unfold u64_mul. rewrite wrap_small by lia. rewrite (u64_add_small (i * channels p)) by lia.
    rewrite u64_add_small by lia.
    replace (i * channels p + channel + channels p) with ((i + 1) * channels p + channel) by lia.
    rewrite !sample_at_index by (done || lia). cbn [mbind result_bind].
    assert (rem < kRuntimeSampleRate) as Hrem by (by apply N.mod_lt).
    rewrite u64_sub_le by (unfold kRuntimeSampleRate in *; lia).
    do 2 f_equal. unfold weighted. unfold kRuntimeSampleRate in *. lia.
Qed.

(** The frames of the prepared sample: enough to cover the source. *)
Definition prepared_count (p : PcmSample) : N :=
  (frame_count p * 48000 + sample_rate p - 1) / sample_rate p.

Definition prepared (p : PcmSample) : list Z :=
  concat ((λ i, (λ c, interpolated p (N.of_nat i) (N.of_nat c)) <$> seq 0 (N.to_nat (channels p)))
    <$> seq 0 (N.to_nat (prepared_count p))).

Lemma prepared_blocks p : Forall (λ l, length l = N.to_nat (channels p))
  ((λ i, (λ c, interpolated p (N.of_nat i) (N.of_nat c)) <$> seq 0 (N.to_nat (channels p)))
    <$> seq 0 (N.to_nat (prepared_count p))).
Proof.
  apply Forall_fmap, Forall_true. intros i. unfold compose. by rewrite length_fmap, length_seq.
Qed.

Lemma length_prepared p :
  length (prepared p) = (N.to_nat (prepared_count p) * N.to_nat (channels p))%nat.
Proof.
  unfold prepared. rewrite (length_concat_blocks _ _ (prepared_blocks p)).
  by rewrite length_fmap, length_seq.
Qed.

Lemma prepared_at p frame channel : frame < prepared_count p → channel < channels p →
  prepared p !! N.to_nat (frame * channels p + channel) = Some (interpolated p frame channel).
Proof.
  intros Hf Hc. unfold prepared.
  replace (N.to_nat (frame * channels p + channel))
    with (N.to_nat frame * N.to_nat (channels p) + N.to_nat channel)%nat by lia.
  rewrite (lookup_concat_blocks _ _ _ _ (prepared_blocks p)) by lia.
  rewrite list_lookup_fmap, lookup_seq_lt by lia. cbn [fmap option_fmap option_map mbind option_bind].
  rewrite list_lookup_fmap, lookup_seq_lt by lia. cbn. by rewrite !N2Nat.id.
Qed.

Lemma prepared_frame_spec p out frame :
  pcm_ok p → frame_count p * 48000 < 2 ^ 64 → N.of_nat (length (interleaved p)) < 2 ^ 63 →
  frame < prepared_count p →
  prepared_frame p (frame_count p) out frame =
  success (out ++ ((λ c, interpolated p frame (N.of_nat c)) <$> seq 0 (N.to_nat (channels p)))).
Proof.
  intros Hok Hsmall Hlen Hf. pose proof (pcm_rate p Hok) as Hrate. unfold prepared_frame.
  assert (frame * sample_rate p < 2 ^ 64) as Hpos.
  { unfold prepared_count in Hf.
    pose proof (N.Div0.mul_div_le (frame_count p * 48000 + sample_rate p - 1) (sample_rate p)).
    assert (frame * sample_rate p ≤ frame_count p * 48000 - 1); [|lia].
    destruct Hrate as [Hr|Hr]; rewrite Hr in *; lia. }
  destruct (N.ltb_spec ((2 ^ 64 - 1) / sample_rate p) frame) as [Hx|_].
  { exfalso. destruct Hrate as [Hr|Hr]; rewrite Hr in *; revert Hx Hpos; dlia. }
  unfold u64_mul. rewrite wrap_small by done. apply fold_append.
  intros c [_ Hc]%elem_of_seq. cbn [Nat.add] in Hc. apply prepared_sample_spec; (done || lia).
Qed.

(** [q] is [p] at the runtime rate: as many frames as cover it, each sample
    between its two neighbours and within half a step of their interpolation. *)
Definition resampled (p q : PcmSample) : Prop :=
  sample_rate q = 48000 ∧ channels q = channels p ∧ frame_count q = prepared_count p ∧
  ∀ frame channel, frame < prepared_count p → channel < channels p →
    let '(l, r) := neighbours p frame channel in
    let w := weighted l r (Z.of_N (frame * sample_rate p mod kRuntimeSampleRate)) in
    (Z.min l r ≤ sample_of q frame channel ≤ Z.max l r)%Z ∧
    (2 * Z.abs (48000 * sample_of q frame channel - w) ≤ 48000)%Z.

Lemma resampled_same p : pcm_ok p → sample_rate p = 48000 → resampled p p.
Proof.
  intros Hok Hr. assert (prepared_count p = frame_count p) as Hn.
  { unfold prepared_count. rewrite Hr. symmetry. apply (N.div_unique _ _ _ 47999); lia. }
  split_and!; [done..|by rewrite Hn|]. intros frame channel Hf Hc. unfold neighbours. rewrite Hr, Hn in *.
  change kRuntimeSampleRate with 48000. rewrite N.div_mul, N.Div0.mod_mul by done.
  rewrite N.min_l by lia. unfold weighted. cbn [Z.of_N]. lia.
Qed.

Definition converted (p : PcmSample) : PcmSample := MkPcmSample 48000 (channels p) (prepared p).

Lemma prepared_count_pos p : pcm_ok p → 0 < prepared_count p.
Proof.
  intros Hok. pose proof (frame_count_pos p Hok). unfold prepared_count.
  apply N.div_str_pos. destruct (pcm_rate p Hok) as [-> | ->]; lia.
Qed.

Lemma converted_ok p : pcm_ok p → pcm_ok (converted p) ∧ resampled p (converted p).
Proof.
  intros Hok. pose proof (prepared_count_pos p Hok) as Hpos. pose proof (length_prepared p) as Hl.
  pose proof (pcm_channels p Hok) as Hc.
  assert (N.of_nat (length (prepared p)) = prepared_count p * channels p) as Hl' by lia.
  split.
  - split; cbn; [by right|done| | |].
    + apply Forall_concat, Forall_fmap, Forall_true. intros i. unfold compose.
      apply Forall_fmap, Forall_true. intros c. by apply interpolated_int16.
    + intros E. rewrite E in Hl'. cbn in Hl'. nia.
    + rewrite Hl'. apply N.Div0.mod_mul.
  - split_and!; [done..| |].
    + unfold frame_count. cbn. rewrite Hl'. apply N.div_mul. lia.
    + intros frame channel Hf Hch. 
      assert (sample_of (converted p) frame channel = interpolated p frame channel) as E.
      { unfold sample_of. cbn [converted interleaved channels]. by rewrite prepared_at. }
      pose proof (interpolated_spec p frame channel Hok) as H. unfold neighbours in *.
      by rewrite E.
Qed.

(** C36: Preparing a decoded sample for the runtime succeeds unless its frames
    times 48000 leave 64 bits.  The result is a well-formed 48 kHz sample with
    the channels of the source, exactly the frames that cover it, and every
    sample lies between the two source samples around its position and within
    half a step of their linear interpolation: it never overshoots or wraps. *)
Theorem prepare_interpolates p : pcm_ok p → N.of_nat (length (interleaved p)) < 2 ^ 63 →
  if (sample_rate p =? 48000) || (frame_count p <=? (2 ^ 64 - 1) / 48000)
  then ∃ q, prepare_runtime_pcm p = success q ∧ pcm_ok q ∧ resampled p q
  else ∃ e, prepare_runtime_pcm p = failure e.
Proof.
  intros Hok Hlen. unfold prepare_runtime_pcm. rewrite validate_ok by done. cbn [mbind result_bind].
  change kRuntimeSampleRate with 48000. fold (frame_count p).
  destruct (N.eqb_spec (sample_rate p) 48000) as [Hr|Hr]; cbn [orb].
  { exists p. split_and!; [done..|by apply resampled_same]. }
  destruct (N.leb_spec (frame_count p) ((2 ^ 64 - 1) / 48000)) as [Hle|Hgt];
    destruct (N.ltb_spec ((2 ^ 64 - 1) / 48000) (frame_count p)); try lia; [|by eexists].
  assert (frame_count p * 48000 < 2 ^ 64) as Hsmall by (revert Hle; dlia).
  assert (sample_rate p = 44100) as Hr' by (pose proof (pcm_rate p Hok); tauto).
  unfold u64_mul. rewrite (wrap_small 64 (frame_count p * 48000)) by done.
  assert (frame_count p * 48000 / sample_rate p ≤ frame_count p * 48000 / 44100) by (by rewrite Hr').
  assert (frame_count p * 48000 / 44100 < 2 ^ 63) by dlia.
  rewrite u64_add_small by (destruct (_ mod _ =? 0); lia).
  rewrite ceil_div by lia. fold (prepared_count p).
  assert (prepared_count p < 2 ^ 63) as Hp by (unfold prepared_count; rewrite Hr'; dlia).
  destruct (N.ltb_spec ((2 ^ 64 - 1) / channels p) (prepared_count p)) as [Hx|_].
  { exfalso. destruct (pcm_channels p Hok) as [Hc|Hc]; rewrite Hc in Hx; revert Hx; dlia. }
  rewrite wrap_small by (destruct (pcm_channels p Hok) as [Hc|Hc]; rewrite Hc; lia).
  destruct (N.ltb_spec (2 ^ 64 - 1) (prepared_count p * channels p)) as [Hx|_].
  { exfalso. destruct (pcm_channels p Hok) as [Hc|Hc]; rewrite Hc in Hx; lia. }
  rewrite (fold_append_blocks _
    (λ i, (λ c, interpolated p (N.of_nat i) (N.of_nat c)) <$> seq 0 (N.to_nat (channels p)))).
  - cbn [mbind result_bind]. exists (converted p). split; [done|by apply converted_ok].
  - intros out i [_ Hi]%elem_of_seq. cbn [Nat.add] in Hi. apply prepared_frame_spec; (done || lia).
Qed.
End samples.

(** ** Witnesses *)

Definition example_mono : PcmSample := MkPcmSample 44100 1 [0; 1000; -1000; 32767; -32768]%Z.

Lemma example_mono_ok : pcm_ok example_mono.
Proof. split; [by left|by left|by repeat constructor|done|done]. Qed.

Lemma waveform_tiles_witness :
  request_ok example_mono (MkWaveformRequest 1 5 3) = true ∧
  ∃ e, waveform_envelope (JL := dom_lib) example_mono (MkWaveformRequest 1 5 3) = success e ∧
    tiles example_mono 2 1 5 (buckets e).
Proof.
  split; [reflexivity|].
  destruct (waveform_tiles (JL := dom_lib) example_mono (MkWaveformRequest 1 5 3)
    example_mono_ok eq_refl) as (e & H & _ & Ht & _).
  exists e. exact (conj H Ht).
Defined.

Lemma prepare_interpolates_witness :
  ∃ q, prepare_runtime_pcm (JL := dom_lib) example_mono = success q ∧
    pcm_ok q ∧ resampled example_mono q.
Proof. exact (prepare_interpolates (JL := dom_lib) example_mono example_mono_ok eq_refl). Defined.
