(* ===== verification/Sha256.v ===== *)
(** SHA-256 as the cooker computes it.

    Models the hash of packages/project-cooker/src/project_cooker.cpp
    ([sha256_block], [sha256_hex], [valid_sha256]).  A word is a number below
    [2 ^ 32], its operations wrap.  Every array index of the source is a constant
    range of a loop, so [at_] has a default it never takes. *)

From S2P Require Import Prelude Text.

(** Sixteen rows of four. *)
Definition kSha256Constants : list N :=
  mjoin
    [[0x428a2f98; 0x71374491; 0xb5c0fbcf; 0xe9b5dba5];
     [0x3956c25b; 0x59f111f1; 0x923f82a4; 0xab1c5ed5];
     [0xd807aa98; 0x12835b01; 0x243185be; 0x550c7dc3];
     [0x72be5d74; 0x80deb1fe; 0x9bdc06a7; 0xc19bf174];
     [0xe49b69c1; 0xefbe4786; 0x0fc19dc6; 0x240ca1cc];
     [0x2de92c6f; 0x4a7484aa; 0x5cb0a9dc; 0x76f988da];
     [0x983e5152; 0xa831c66d; 0xb00327c8; 0xbf597fc7];
     [0xc6e00bf3; 0xd5a79147; 0x06ca6351; 0x14292967];
     [0x27b70a85; 0x2e1b2138; 0x4d2c6dfc; 0x53380d13];
     [0x650a7354; 0x766a0abb; 0x81c2c92e; 0x92722c85];
     [0xa2bfe8a1; 0xa81a664b; 0xc24b8b70; 0xc76c51a3];
     [0xd192e819; 0xd6990624; 0xf40e3585; 0x106aa070];
     [0x19a4c116; 0x1e376c08; 0x2748774c; 0x34b0bcb5];
     [0x391c0cb3; 0x4ed8aa4a; 0x5b9cca4f; 0x682e6ff3];
     [0x748f82ee; 0x78a5636f; 0x84c87814; 0x8cc70208];
     [0x90befffa; 0xa4506ceb; 0xbef9a3f7; 0xc67178f2]].

Definition at_ (words : list N) (index : nat) : N := value_or (words !! index) 0.

Definition rotate_right (value amount : N) : N :=
  N.lor (N.shiftr value amount) (wrap 32 (N.shiftl value (32 - amount))).

(** The bits of a 32-bit word, complemented. *)
Definition u32_not (x : N) : N := N.lxor x (N.ones 32).

(** ** The message schedule *)

Definition first_words (block : list N) : list N :=
  (λ index, N.lor (N.lor (N.lor (N.shiftl (at_ block (4 * index)) 24)
      (N.shiftl (at_ block (4 * index + 1)) 16))
      (N.shiftl (at_ block (4 * index + 2)) 8)) (at_ block (4 * index + 3)))
  <$> seq 0 16.

(** The loop fills [words] in order: the words so far are a prefix. *)
Definition next_word (words : list N) (index : nat) : list N :=
  let w15 := at_ words (index - 15) in
  let w2 := at_ words (index - 2) in
  let sigma0 := N.lxor (N.lxor (rotate_right w15 7) (rotate_right w15 18)) (N.shiftr w15 3) in
  let sigma1 := N.lxor (N.lxor (rotate_right w2 17) (rotate_right w2 19)) (N.shiftr w2 10) in
  words ++ [u32_add (u32_add (u32_add (at_ words (index - 16)) sigma0) (at_ words (index - 7)))
              sigma1].

Definition schedule (block : list N) : list N := foldl next_word (first_words block) (seq 16 48).

(** ** The compression *)

Record Working := MkWorking {
  wa : N; wb : N; wc : N; wd : N; we : N; wf : N; wg : N; wh : N
}.

Definition round (words : list N) (s : Working) (index : nat) : Working :=
  let '(MkWorking a b c d e f g h) := s in
  let sigma1 := N.lxor (N.lxor (rotate_right e 6) (rotate_right e 11)) (rotate_right e 25) in
  let choice := N.lxor (N.land e f) (N.land (u32_not e) g) in
  let temp1 := u32_add (u32_add (u32_add (u32_add h sigma1) choice) (at_ kSha256Constants index))
                 (at_ words index) in
  let sigma0 := N.lxor (N.lxor (rotate_right a 2) (rotate_right a 13)) (rotate_right a 22) in
  let majority := N.lxor (N.lxor (N.land a b) (N.land a c)) (N.land b c) in
  let temp2 := u32_add sigma0 majority in
  MkWorking (u32_add temp1 temp2) a b c (u32_add d temp1) e f g.

Definition sha256_block (state : Working) (block : list N) : Working :=
  let words := schedule block in
  let s := foldl (round words) state (seq 0 64) in
  MkWorking (u32_add (wa state) (wa s)) (u32_add (wb state) (wb s)) (u32_add (wc state) (wc s))
    (u32_add (wd state) (wd s)) (u32_add (we state) (we s)) (u32_add (wf state) (wf s))
    (u32_add (wg state) (wg s)) (u32_add (wh state) (wh s)).

(** ** The digest *)

Definition initial_state : Working :=
  MkWorking 0x6a09e667 0xbb67ae85 0x3c6ef372 0xa54ff53a 0x510e527f 0x9b05688c 0x1f83d9ab 0x5be0cd19.

(** The loop that appends zeros until 56 remain modulo 64; [fuel] bounds it. *)
Fixpoint pad_zeros (fuel : nat) (padded : list N) : list N :=
  match fuel with
  | O => padded
  | S fuel' =>
      if N.of_nat (length padded) mod 64 =? 56 then padded else pad_zeros fuel' (padded ++ [0])
  end.

Definition pad_message (bytes : list ascii) : list N :=
  let bit_length := wrap 64 (N.of_nat (length bytes) * 8) in
  let padded := pad_zeros 64 ((byte_of <$> bytes) ++ [0x80]) in
  padded ++ ((λ shift, wrap 8 (N.shiftr bit_length shift)) <$> [56; 48; 40; 32; 24; 16; 8]) ++
  [wrap 8 bit_length].

(** The loop over the blocks; [fuel] is at least their number. *)
Fixpoint hash_blocks (fuel : nat) (state : Working) (padded : list N) : Working :=
  match fuel, padded with
  | S fuel', _ :: _ => hash_blocks fuel' (sha256_block state (take 64 padded)) (drop 64 padded)
  | _, _ => state
  end.

Definition kHex : list ascii :=
  ["0"; "1"; "2"; "3"; "4"; "5"; "6"; "7"; "8"; "9"; "a"; "b"; "c"; "d"; "e"; "f"]%char.

Definition hex_digit (n : N) : ascii := value_or (kHex !! N.to_nat n) "0"%char.

Definition hex_word (word : N) : list ascii :=
  mjoin ((λ shift, let byte := wrap 8 (N.shiftr word shift) in
                   [hex_digit (N.shiftr byte 4); hex_digit (N.land byte 15)])
         <$> [24; 16; 8; 0]).

Definition sha256_hex (bytes : list ascii) : string :=
  let padded := pad_message bytes in
  let s := hash_blocks (length padded) initial_state padded in
  String.string_of_list_ascii
    (mjoin (hex_word <$> [wa s; wb s; wc s; wd s; we s; wf s; wg s; wh s])).

(** ** Lemmas *)

Lemma pad_zeros_exact k : ∀ fuel l, (k ≤ fuel)%nat → (k < 64)%nat →
  N.of_nat (length l + k) mod 64 = 56 → pad_zeros fuel l = l ++ replicate k 0.
Proof.
  induction k as [|k IH]; intros fuel l Hf Hk E.
  - rewrite Nat.add_0_r in E. destruct fuel; cbn [pad_zeros]; [by rewrite app_nil_r|].
    by rewrite E, app_nil_r.
  - destruct fuel as [|fuel]; [lia|]. cbn [pad_zeros].
    destruct (N.eqb_spec (N.of_nat (length l) mod 64) 56) as [E'|_]; [revert E E'; dlia|].
    rewrite IH by (rewrite ?length_app; cbn; try lia; by rewrite <- Nat.add_assoc).
    by rewrite <- app_assoc.
Qed.

(** The zeros that a message of [n] bytes is padded with. *)
Definition zero_count (n : nat) : nat := N.to_nat ((55 + 64 - N.of_nat n mod 64) mod 64).

(** The big-endian bytes of a 64-bit number. *)
Definition be64 (n : N) : list N :=
  (λ shift, wrap 8 (N.shiftr n shift)) <$> [56; 48; 40; 32; 24; 16; 8; 0].

Lemma pad_message_exact bytes :
  pad_message bytes = (byte_of <$> bytes) ++ [0x80] ++ replicate (zero_count (length bytes)) 0 ++
    be64 (wrap 64 (N.of_nat (length bytes) * 8)).
Proof.
  unfold pad_message. rewrite (pad_zeros_exact (zero_count (length bytes))).
  - by rewrite <- !app_assoc.
  - unfold zero_count. dlia.
  - unfold zero_count. dlia.
  - rewrite length_app, length_fmap. cbn [length]. unfold zero_count. dlia.
Qed.

Lemma pad_message_length bytes : N.of_nat (length (pad_message bytes)) mod 64 = 0.
Proof.
  rewrite pad_message_exact, !length_app, length_fmap, length_replicate. cbn [length be64 fmap list_fmap].
  unfold zero_count. dlia.
Qed.

Lemma hex_digit_lower n : n < 16 → is_lower_hex (hex_digit n) = true.
Proof.
  intros H. assert (n ∈ N.of_nat <$> seq 0 16) as Hn.
  { apply list_elem_of_fmap. exists (N.to_nat n). split; [lia|]. apply elem_of_seq. lia. }
  assert (Forall (λ m, is_lower_hex (hex_digit m) = true) (N.of_nat <$> seq 0 16)) as Hall
    by (repeat constructor).
  by eapply Forall_forall in Hall.
Qed.

Lemma hex_word_lower w : forallb is_lower_hex (hex_word w) = true ∧ length (hex_word w) = 8%nat.
Proof.
  split; [|done]. unfold hex_word. apply forallb_forall. intros c Hc%list_elem_of_In.
  apply list_elem_of_join in Hc as (l & Hc & Hl). apply list_elem_of_fmap in Hl as (shift & -> & _).
  set (byte := wrap 8 (N.shiftr w shift)) in Hc.
  assert (byte < 256) by (apply (wrap_lt 8)).
  assert (N.shiftr byte 4 < 16) by (rewrite N.shiftr_div_pow2; change (2 ^ 4) with 16; dlia).
  assert (N.land byte 15 < 16).
  { change 15 with (N.ones 4). rewrite N.land_ones. by apply N.mod_lt. }
  apply elem_of_cons in Hc as [->|Hc]; [by apply hex_digit_lower|].
  apply list_elem_of_singleton in Hc as ->. by apply hex_digit_lower.
Qed.

Lemma string_length_chars l : String.length (String.string_of_list_ascii l) = length l.
Proof. induction l as [|c l IH]; [done|]. cbn. by rewrite IH. Qed.

Lemma forallb_mjoin {A} (f : A → bool) (ls : list (list A)) :
  Forall (λ l, forallb f l = true) ls → forallb f (mjoin ls) = true.
Proof.
  induction 1 as [|l ls Hl _ IH]; [done|].
  change (mjoin (l :: ls)) with (l ++ mjoin ls). by rewrite forallb_app, Hl, IH.
Qed.

Lemma sha256_hex_form bytes : valid_sha256 (sha256_hex bytes) = true.
Proof.
  unfold sha256_hex. set (s := hash_blocks _ _ _). set (ws := [wa s; wb s; wc s; wd s; we s; wf s; wg s; wh s]).
  unfold valid_sha256. rewrite string_length_chars.
  assert (length (mjoin (hex_word <$> ws)) = 64%nat) as -> by done.
  rewrite bool_decide_eq_true_2 by done. cbn [negb].
  unfold chars. rewrite String.list_ascii_of_string_of_list_ascii.
  apply forallb_mjoin, Forall_fmap, Forall_true. intros w. apply hex_word_lower.
Qed.

(** C39: The digest of any bytes is 64 lowercase hexadecimal digits, so it can be
    the name of an artifact; the message is padded as the standard says, to whole
    blocks, ending in its length in bits; and the digests of the empty message,
    of "abc" and of the two-block message of the standard are the published
    ones. *)
Theorem sha256_digest :
  (∀ bytes, valid_sha256 (sha256_hex bytes) = true ∧
    pad_message bytes = (byte_of <$> bytes) ++ [0x80] ++ replicate (zero_count (length bytes)) 0 ++
      be64 (wrap 64 (N.of_nat (length bytes) * 8)) ∧
    N.of_nat (length (pad_message bytes)) mod 64 = 0) ∧
  sha256_hex [] = "e3b0c44298fc1c149afbf4c8996fb92427ae41e4649b934ca495991b7852b855" ∧
  sha256_hex (chars "abc") = "ba7816bf8f01cfea414140de5dae2223b00361a396177a9cb410ff61f20015ad" ∧
  sha256_hex (chars "abcdbcdecdefdefgefghfghighijhijkijkljklmklmnlmnomnopnopq") =
    "248d6a61d20638b8e5c026930c3e6039a33ce45964ff2167f6ecedd419db06c1".
Proof.
  split; [|split_and!; vm_compute; reflexivity].
  intros bytes. split_and!; [apply sha256_hex_form|apply pad_message_exact|apply pad_message_length].
Qed.
