(* ===== verification/Outcome.v ===== *)
(** Code that throws.

    The recording journal (packages/project-io/src/sequence_journal.cpp and
    sequence_admission_codec.cpp) reports a refusal by throwing
    [std::runtime_error] with a message, which an entry point catches; some
    functions also return a [Result].  An [Outcome] tells the three ends of such
    a function apart.  Also here: typed reads of JSON members in that style, and
    the interface of the printer and the hash the journal uses. *)

From S2P Require Import Prelude Json Foundation Text Soundset.

(** [returned] a value, [refused] with the error of a [Result], or [raised] an
    exception: [Some what] of the source's own, [None] of a library. *)
Inductive Outcome `{JsonLib} (A : Type) :=
  | returned (a : A)
  | refused (e : Error)
  | raised (what : option string).
Arguments returned {_ _} a.
Arguments refused {_ _} e.
Arguments raised {_ _} what.

#[export] Instance outcome_ret `{JsonLib} : MRet Outcome := λ A a, returned a.
#[export] Instance outcome_bind `{JsonLib} : MBind Outcome := λ A B f r,
  match r with
  | returned a => f a
  | refused e => refused e
  | raised what => raised what
  end.

(** The printer [dump] of the JSON library, the hexadecimal digest
    [picosha2::hash256_hex_string], and the texts of the exceptions libraries
    throw. *)
Class TextLib `{JL : JsonLib} := {
  dump : json → string;
  hash256_hex_string : string → string;
  library_what : string
}.

(** Members have no order, and a digest is 64 lower-case digits. *)
Class TextLaws `{TL : TextLib} : Prop := {
  canonical_order l l' : NoDup l.*1 → l ≡ₚ l' →
    canonical_json dump (j_object l) = canonical_json dump (j_object l');
  digest_valid s : valid_sha256 (hash256_hex_string s) = true
}.

Section outcome.
Context `{JL : JsonLib}.

(** ** Throwing *)

(** [if (!valid) throw std::runtime_error(message)]. *)
Definition require (valid : bool) (message : string) : Outcome () :=
  if valid then returned () else raised (Some message).

(** A call of a library that may throw. *)
Definition library {A} (o : option A) : Outcome A :=
  match o with Some a => returned a | None => raised None end.

(** [if (!r.has_value()) return failure(r.error()); use(r.value())]. *)
Definition returning {A} (r : Result A) : Outcome A :=
  match r with
  | success a => returned a
  | failure e => refused e
  | thrown => raised None
  end.

(** [exception.what()]. *)
Definition what_of `{TL : !TextLib (JL := JL)} (what : option string) : string :=
  match what with Some s => s | None => library_what end.

(** [try { r } catch (const std::exception& e) { handler(e.what()) }] in a
    function that returns a [Result]. *)
Definition catch_all `{TL : !TextLib (JL := JL)} {A} (handler : string → Error) (r : Outcome A) :
    Result A :=
  match r with
  | returned a => success a
  | refused e => failure e
  | raised what => failure (handler (what_of what))
  end.

Fixpoint fold_outcome {A S} (f : S → A → Outcome S) (s : S) (l : list A) : Outcome S :=
  match l with
  | [] => returned s
  | a :: l' => s' ← f s a; fold_outcome f s' l'
  end.

(** A loop that only checks. *)
Fixpoint for_all {A} (f : A → Outcome ()) (l : list A) : Outcome () :=
  match l with
  | [] => returned ()
  | a :: l' => f a;; for_all f l'
  end.

(** A loop that pushes what each pass gives. *)
Fixpoint traverse {A B} (f : A → Outcome B) (l : list A) : Outcome (list B) :=
  match l with
  | [] => returned []
  | a :: l' => b ← f a; r ← traverse f l'; returned (b :: r)
  end.

(** [input.at(key)], and [.get<T>()] of what is there. *)
Definition at_ (input : json) (key : string) : Outcome json := library (j_at input key).
Definition get_string_at (input : json) (key : string) : Outcome string :=
  j ← at_ input key; library (get_string j).
Definition get_bool_at (input : json) (key : string) : Outcome bool :=
  j ← at_ input key; library (get_bool j).
Definition id_at {Tag} (input : json) (key : string) : Outcome (StrongId Tag) :=
  s ← get_string_at input key; returned (MkId s).

(** ** Lemmas *)

Lemma bind_returned {A B} (r : Outcome A) (f : A → Outcome B) b :
  r ≫= f = returned b ↔ ∃ a, r = returned a ∧ f a = returned b.
Proof. destruct r; simpl; (split; [try discriminate; eauto|]); by intros (?&[= <-]&?). Qed.

Lemma require_returned v m u : require v m = returned u ↔ v = true.
Proof. unfold require. destruct v, u; split; done. Qed.

Lemma require_true v m {B} (f : () → Outcome B) :
  v = true → require v m ≫= f = f ().
Proof. by intros ->. Qed.

Lemma library_returned {A} (o : option A) a : library o = returned a ↔ o = Some a.
Proof. destruct o; simpl; split; intros; simplify_eq; done. Qed.

Lemma returned_inj {A} (a b : A) : returned a = returned b → a = b.
Proof. intros E. by injection E. Qed.

Lemma for_all_returned {A} (f : A → Outcome ()) l u :
  for_all f l = returned u ↔ Forall (λ a, f a = returned ()) l.
Proof.
  destruct u. induction l as [|a l IH]; cbn [for_all]; [by split|].
  rewrite bind_returned, Forall_cons, <- IH. split.
  - by intros ([] & ? & ?).
  - intros [? ?]. by exists ().
Qed.

Lemma traverse_returned {A B} (f : A → Outcome B) l r :
  traverse f l = returned r ↔ Forall2 (λ a b, f a = returned b) l r.
Proof.
  revert r. induction l as [|a l IH]; intros r; cbn [traverse].
  - split; [intros <-%returned_inj; constructor|]. by intros ->%Forall2_nil_inv_l.
  - rewrite bind_returned. split.
    + intros (b & Hb & (r' & Hr & <-%returned_inj)%bind_returned).
      constructor; [done|by apply IH].
    + intros (b & r' & Hb & Hr%IH & ->)%Forall2_cons_inv_l. exists b. by rewrite Hr.
Qed.

Lemma traverse_map {A B C} (f : A → Outcome B) (g : C → A) (h : C → B) l :
  (∀ c, c ∈ l → f (g c) = returned (h c)) → traverse f (g <$> l) = returned (h <$> l).
Proof.
  intros H. apply traverse_returned, Forall2_fmap_r, Forall2_fmap_l, Forall_Forall2_diag.
  by apply Forall_forall.
Qed.

Lemma fold_outcome_app {A S} (f : S → A → Outcome S) s l1 l2 :
  fold_outcome f s (l1 ++ l2) = s' ← fold_outcome f s l1; fold_outcome f s' l2.
Proof. revert s; induction l1 as [|a l1 IH]; intros s; simpl; [done|]. destruct (f s a); simpl; auto. Qed.

(** Reading an object whose members are known. *)
Lemma at_fields j l k v : fields j l → assoc k l = Some v → at_ j k = returned v.
Proof. intros H E. unfold at_. by rewrite (fields_at _ _ H), E. Qed.

Lemma get_string_at_fields j l k s : JsonLaws JL → fields j l →
  assoc k l = Some (j_string s) → get_string_at j k = returned s.
Proof.
  intros HL H E. unfold get_string_at. rewrite (at_fields _ _ _ _ H E). cbn. by rewrite string_get.
Qed.

Lemma get_bool_at_fields j l k b : JsonLaws JL → fields j l →
  assoc k l = Some (j_bool b) → get_bool_at j k = returned b.
Proof.
  intros HL H E. unfold get_bool_at. rewrite (at_fields _ _ _ _ H E). cbn. by rewrite bool_get.
Qed.

Lemma id_at_fields {Tag} j l k (id : StrongId Tag) : JsonLaws JL → fields j l →
  assoc k l = Some (j_string (value id)) → id_at j k = returned id.
Proof.
  intros HL H E. unfold id_at. rewrite (get_string_at_fields _ _ _ _ HL H E). by destruct id.
Qed.
End outcome.

(** Turn a function that returned into the checks it passed. *)
Ltac outcome_inv H :=
  lazymatch type of H with
  | require _ _ = returned _ => apply require_returned in H
  | library _ = returned _ => apply library_returned in H
  | for_all _ _ = returned _ => apply for_all_returned in H
  | returned _ = returned _ => apply returned_inj in H
  | _ ≫= _ = returned _ =>
      let a := fresh "x" in let H1 := fresh H in
      apply bind_returned in H as (a & H1 & H); outcome_inv H1; outcome_inv H
  | _ => idtac
  end.
