(* ===== verification/Admission.v ===== *)
(** The durable admission of recorded input: its data and their JSON form.

    Models packages/project-io: sequence_admission.hpp and the codec of
    sequence_admission_codec.cpp.  While a sequence is recorded, each press and
    release is first admitted to the journal as a candidate, under an
    authority that names the Pattern, the publication and the frames; fences,
    applied switches and transfers record what became of them.

    The templates [value_json] and [decode] dispatch on the type of the field:
    here [Codec] is the class of those types.  The instance of [N] is
    [std::uint64_t]; narrower integers and enums name their width.  An enum with
    an underlying [std::uint8_t] may hold any value of it after [decode]; it is a
    number, compared with the enumerators. *)

From S2P Require Import Prelude Json Foundation Text Project Soundset Outcome.

(** ** Bounds *)

Definition kSequenceAdmissionMaxCandidates : N := 1024.
Definition kSequenceAdmissionCandidateBytes : N := 1024 * 1024.
Definition kSequenceAdmissionTransferBytes : N := 1024 * 1024.
Definition kSequenceAdmissionControlBytes : N := 64 * 1024.
Definition kSequenceAdmissionFenceTimeoutMs : N := 5000.

(** ** Enums *)

Module SequenceCandidateKind.
Definition press : N := 0.
Definition release : N := 1.
End SequenceCandidateKind.

Module SequenceFenceKind.
Definition admission : N := 0.
Definition cutoff : N := 1.
End SequenceFenceKind.

Module SequenceSwitchOutcome.
Definition none : N := 0.
Definition applied_before_cutoff : N := 1.
Definition canceled_at_cutoff : N := 2.
End SequenceSwitchOutcome.

Module SequenceAdmissionCloseReason.
Definition requested : N := 0.
Definition capacity : N := 1.
Definition deadline : N := 2.
Definition storage_failure : N := 3.
Definition owner_lost : N := 4.
End SequenceAdmissionCloseReason.

(** ** Data *)

Record SequenceAdmissionIdentity := MkAdmissionIdentity {
  operation_id : CommandId;
  runtime_generation : N;
  transport_epoch : N
}.

Record SequenceAdmissionPreparation := MkAdmissionPreparation {
  preparation_identity : SequenceAdmissionIdentity;
  preparation_project : ProjectId;
  preparation_pattern : PatternId;
  preparation_generation : N;
  preparation_first_watermark : N;
  candidate_limit : N;
  candidate_byte_limit : N;
  fence_timeout_ms : N;
  preparation_quantize : bool;
  preparation_swing : N
}.

Record SequenceAdmissionCandidate := MkAdmissionCandidate {
  watermark : N;
  runtime_frame : N;
  candidate_slot : PadSlotId;
  candidate_kind : N;
  candidate_velocity : N;
  press_sequence : N
}.

Record SequencePublicationAuthority := MkPublicationAuthority {
  authority_pattern : PatternId;
  generation : N;
  frame : N
}.

Record SequenceAdmissionFence := MkAdmissionFence {
  fence_kind : N;
  fence_command : CommandId;
  fence_epoch : N;
  effective_frame : N;
  origin_frame : N;
  fence_pattern : PatternId;
  fence_generation : N;
  fence_bpm : N;
  playing : bool;
  switch_authority : option SequencePublicationAuthority;
  switch_outcome : N;
  switch_applied_frame : option N
}.

Record SequenceAdmissionClosure := MkAdmissionClosure {
  last_retained_watermark : option N;
  close_reason : N
}.

Record SequenceOwnedPress := MkOwnedPress {
  press_slot : PadSlotId;
  owned_press_sequence : N;
  raw_attack_tick : N;
  press_onset : N;
  press_velocity : N
}.

Record SequenceAdmissionCheckpoint := MkAdmissionCheckpoint {
  checkpoint_pattern : PatternId;
  checkpoint_generation : N;
  last_runtime_frame : N;
  owned_presses : list SequenceOwnedPress
}.

Record SequenceCandidateReceipt := MkCandidateReceipt {
  receipt_watermark : N;
  payload_sha256 : string
}.

Record SequenceAdmissionTransfer := MkAdmissionTransfer {
  transfer_id : CommandId;
  terminal : bool;
  transfer_first : N;
  transfer_last : N;
  candidates_sha256 : string;
  candidate_receipts : list SequenceCandidateReceipt;
  transfer_pattern : PatternId;
  transfer_revision : N;
  journal_input_sequence : option N;
  recoverable_tail : list PatternEvent;
  transfer_checkpoint : SequenceAdmissionCheckpoint
}.

Record SequenceAdmissionTimingProfile := MkTimingProfile {
  profile_command : CommandId;
  profile_watermark : N;
  profile_pattern : PatternId;
  profile_generation : N;
  profile_revision : N;
  profile_frame : N;
  tick_numerator : N;
  profile_bpm : N;
  profile_quantize : bool;
  profile_swing : N
}.

Record SequenceAdmissionState := MkAdmissionState {
  preparation : SequenceAdmissionPreparation;
  candidates : list SequenceAdmissionCandidate;
  admission_fence : option SequenceAdmissionFence;
  cutoff_fence : option SequenceAdmissionFence;
  closure : option SequenceAdmissionClosure;
  transfers : list SequenceAdmissionTransfer;
  applied_switches : list SequencePublicationAuthority;
  segment_generation : N;
  published_generation : N;
  completed : bool;
  timing_profiles : list SequenceAdmissionTimingProfile
}.

#[export] Instance AdmissionIdentity_eq_dec : EqDecision SequenceAdmissionIdentity.
Proof. solve_decision. Defined.
#[export] Instance AdmissionPreparation_eq_dec : EqDecision SequenceAdmissionPreparation.
Proof. solve_decision. Defined.
#[export] Instance AdmissionCandidate_eq_dec : EqDecision SequenceAdmissionCandidate.
Proof. solve_decision. Defined.
#[export] Instance PublicationAuthority_eq_dec : EqDecision SequencePublicationAuthority.
Proof. solve_decision. Defined.
#[export] Instance AdmissionFence_eq_dec : EqDecision SequenceAdmissionFence.
Proof. solve_decision. Defined.
#[export] Instance AdmissionClosure_eq_dec : EqDecision SequenceAdmissionClosure.
Proof. solve_decision. Defined.
#[export] Instance OwnedPress_eq_dec : EqDecision SequenceOwnedPress.
Proof. solve_decision. Defined.
#[export] Instance AdmissionCheckpoint_eq_dec : EqDecision SequenceAdmissionCheckpoint.
Proof. solve_decision. Defined.
#[export] Instance CandidateReceipt_eq_dec : EqDecision SequenceCandidateReceipt.
Proof. solve_decision. Defined.
#[export] Instance AdmissionTransfer_eq_dec : EqDecision SequenceAdmissionTransfer.
Proof. solve_decision. Defined.
#[export] Instance TimingProfile_eq_dec : EqDecision SequenceAdmissionTimingProfile.
Proof. solve_decision. Defined.

(** ** The templates *)

(** A type with [value_json] and [decode]; [typed] are the values of the C++
    type. *)
Class Codec `{JL : JsonLib} (T : Type) := {
  encode : T → json;
  decode : json → Outcome T;
  typed : T → Prop
}.

Section codec.
Context `{JL : JsonLib}.

(** [is_number_unsigned() || (is_number_integer() && get<std::int64_t>() >= 0)]. *)
Definition nonnegative (input : json) : Outcome bool :=
  if is_number_unsigned input then returned true
  else if is_number_integer input then
    z ← library (get_i64 input); returned (0 <=? z)%Z
  else returned false.

Definition decode_uint (width : N) (input : json) : Outcome N :=
  unsigned ← nonnegative input;
  require unsigned "admission integer must be unsigned";;
  n ← library (get_u64 input);
  require (n <=? 2 ^ width - 1) "admission integer overflow";;
  returned n.

#[export] Instance codec_u64 : Codec N := {|
  encode := j_uint;
  decode := decode_uint 64;
  typed n := n < 2 ^ 64
|}.

#[export] Instance codec_bool : Codec bool := {|
  encode := j_bool;
  decode input :=
    require (is_boolean input) "admission boolean is invalid";; library (get_bool input);
  typed _ := True
|}.

#[export] Instance codec_string : Codec string := {|
  encode := j_string;
  decode input := library (get_string input);
  typed _ := True
|}.

#[export] Instance codec_id {Tag} : Codec (StrongId Tag) := {|
  encode := strong_id_json;
  decode input := s ← library (get_string input); returned (MkId s);
  typed _ := True
|}.

#[export] Instance codec_option {T} `{!Codec T} : Codec (option T) := {|
  encode o := match o with Some x => encode x | None => j_null end;
  decode input :=
    if is_null input then returned None else x ← decode input; returned (Some x);
  typed o := match o with Some x => typed x | None => True end
|}.

#[export] Instance codec_list {T} `{!Codec T} : Codec (list T) := {|
  encode l := j_array (encode <$> l);
  decode input :=
    require (is_array input) "admission array is invalid";; traverse decode (j_items input);
  typed l := Forall typed l
|}.

(** [require(input.is_object() && input.size() == members, ...)]. *)
Definition require_shape (input : json) (members : nat) (type : string) : Outcome () :=
  require (is_object input && Nat.eqb (j_size input) members) ("invalid " +:+ type +:+ " shape").

(** [decode<T>(input.at(key))]. *)
Definition field {T} `{!Codec T} (input : json) (key : string) : Outcome T :=
  j ← at_ input key; decode j.
Definition uint_field (width : N) (input : json) (key : string) : Outcome N :=
  j ← at_ input key; decode_uint width j.
End codec.

(** ** The records *)

Section records.
Context `{JL : JsonLib}.

Definition encode_slot (v : PadSlotId) : json :=
  j_object [("bank", j_uint (bank v)); ("pad", j_uint (pad v))].
Definition decode_slot (input : json) : Outcome PadSlotId :=
  require_shape input 2 "domain::PadSlotId";;
  b ← uint_field 8 input "bank";
  p ← uint_field 8 input "pad";
  returned (MkPadSlotId b p).
#[export] Instance codec_slot : Codec PadSlotId := {|
  encode := encode_slot;
  decode := decode_slot;
  typed v := bank v < 2 ^ 8 ∧ pad v < 2 ^ 8
|}.

Definition encode_pattern_event (v : PatternEvent) : json :=
  j_object [("slot", encode (slot v)); ("onset_tick", j_uint (onset_tick v));
            ("duration_tick", j_uint (duration_tick v)); ("velocity", j_uint (velocity v))].
Definition decode_pattern_event (input : json) : Outcome PatternEvent :=
  require_shape input 4 "domain::PatternEvent";;
  s ← field input "slot";
  o ← uint_field 32 input "onset_tick";
  d ← uint_field 32 input "duration_tick";
  v ← uint_field 8 input "velocity";
  returned (MkPatternEvent s o d v).
#[export] Instance codec_event : Codec PatternEvent := {|
  encode := encode_pattern_event;
  decode := decode_pattern_event;
  typed v := typed (slot v) ∧ onset_tick v < 2 ^ 32 ∧ duration_tick v < 2 ^ 32 ∧ velocity v < 2 ^ 8
|}.

Definition encode_admission_identity (v : SequenceAdmissionIdentity) : json :=
  j_object [("operation_id", encode (operation_id v));
            ("runtime_generation", encode (runtime_generation v));
            ("transport_epoch", encode (transport_epoch v))].
Definition decode_admission_identity (input : json) : Outcome SequenceAdmissionIdentity :=
  require_shape input 3 "SequenceAdmissionIdentity";;
  o ← field input "operation_id";
  g ← field input "runtime_generation";
  e ← field input "transport_epoch";
  returned (MkAdmissionIdentity o g e).
#[export] Instance codec_identity : Codec SequenceAdmissionIdentity := {|
  encode := encode_admission_identity;
  decode := decode_admission_identity;
  typed v := runtime_generation v < 2 ^ 64 ∧ transport_epoch v < 2 ^ 64
|}.

Definition encode_preparation (v : SequenceAdmissionPreparation) : json :=
  j_object [("identity", encode (preparation_identity v));
            ("project_id", encode (preparation_project v));
            ("pattern_id", encode (preparation_pattern v));
            ("publication_generation", encode (preparation_generation v));
            ("first_watermark", encode (preparation_first_watermark v));
            ("candidate_limit", j_uint (candidate_limit v));
            ("candidate_byte_limit", j_uint (candidate_byte_limit v));
            ("fence_timeout_ms", j_uint (fence_timeout_ms v));
            ("quantize_enabled", encode (preparation_quantize v));
            ("swing_percent", j_uint (preparation_swing v))].
Definition decode_preparation (input : json) : Outcome SequenceAdmissionPreparation :=
  require_shape input 10 "SequenceAdmissionPreparation";;
  i ← field input "identity";
  pr ← field input "project_id";
  pa ← field input "pattern_id";
  g ← field input "publication_generation";
  w ← field input "first_watermark";
  cl ← uint_field 32 input "candidate_limit";
  cb ← uint_field 32 input "candidate_byte_limit";
  ft ← uint_field 32 input "fence_timeout_ms";
  q ← field input "quantize_enabled";
  s ← uint_field 8 input "swing_percent";
  returned (MkAdmissionPreparation i pr pa g w cl cb ft q s).
#[export] Instance codec_preparation : Codec SequenceAdmissionPreparation := {|
  encode := encode_preparation;
  decode := decode_preparation;
  typed v := typed (preparation_identity v) ∧ preparation_generation v < 2 ^ 64 ∧
    preparation_first_watermark v < 2 ^ 64 ∧ candidate_limit v < 2 ^ 32 ∧
    candidate_byte_limit v < 2 ^ 32 ∧ fence_timeout_ms v < 2 ^ 32 ∧ preparation_swing v < 2 ^ 8
|}.

Definition encode_candidate (v : SequenceAdmissionCandidate) : json :=
  j_object [("watermark", encode (watermark v)); ("runtime_frame", encode (runtime_frame v));
            ("slot", encode (candidate_slot v)); ("kind", j_uint (candidate_kind v));
            ("velocity", j_uint (candidate_velocity v));
            ("press_sequence", encode (press_sequence v))].
Definition decode_candidate (input : json) : Outcome SequenceAdmissionCandidate :=
  require_shape input 6 "SequenceAdmissionCandidate";;
  w ← field input "watermark";
  f ← field input "runtime_frame";
  s ← field input "slot";
  k ← uint_field 8 input "kind";
  v ← uint_field 8 input "velocity";
  p ← field input "press_sequence";
  returned (MkAdmissionCandidate w f s k v p).
#[export] Instance codec_candidate : Codec SequenceAdmissionCandidate := {|
  encode := encode_candidate;
  decode := decode_candidate;
  typed v := watermark v < 2 ^ 64 ∧ runtime_frame v < 2 ^ 64 ∧ typed (candidate_slot v) ∧
    candidate_kind v < 2 ^ 8 ∧ candidate_velocity v < 2 ^ 8 ∧ press_sequence v < 2 ^ 64
|}.

Definition encode_authority (v : SequencePublicationAuthority) : json :=
  j_object [("pattern_id", encode (authority_pattern v)); ("generation", encode (generation v));
            ("frame", encode (frame v))].
Definition decode_authority (input : json) : Outcome SequencePublicationAuthority :=
  require_shape input 3 "SequencePublicationAuthority";;
  p ← field input "pattern_id";
  g ← field input "generation";
  f ← field input "frame";
  returned (MkPublicationAuthority p g f).
#[export] Instance codec_authority : Codec SequencePublicationAuthority := {|
  encode := encode_authority;
  decode := decode_authority;
  typed v := generation v < 2 ^ 64 ∧ frame v < 2 ^ 64
|}.

Definition encode_fence (v : SequenceAdmissionFence) : json :=
  j_object [("kind", j_uint (fence_kind v)); ("command_id", encode (fence_command v));
            ("transport_epoch", encode (fence_epoch v));
            ("effective_frame", encode (effective_frame v));
            ("origin_frame", encode (origin_frame v)); ("pattern_id", encode (fence_pattern v));
            ("publication_generation", encode (fence_generation v));
            ("bpm", j_uint (fence_bpm v)); ("playing", encode (playing v));
            ("switch_authority", encode (switch_authority v));
            ("switch_outcome", j_uint (switch_outcome v));
            ("switch_applied_frame", encode (switch_applied_frame v))].
Definition decode_fence (input : json) : Outcome SequenceAdmissionFence :=
  require_shape input 12 "SequenceAdmissionFence";;
  k ← uint_field 8 input "kind";
  c ← field input "command_id";
  e ← field input "transport_epoch";
  ef ← field input "effective_frame";
  of_ ← field input "origin_frame";
  p ← field input "pattern_id";
  g ← field input "publication_generation";
  b ← uint_field 16 input "bpm";
  pl ← field input "playing";
  sa ← field input "switch_authority";
  so ← uint_field 8 input "switch_outcome";
  sf ← field input "switch_applied_frame";
  returned (MkAdmissionFence k c e ef of_ p g b pl sa so sf).
#[export] Instance codec_fence : Codec SequenceAdmissionFence := {|
  encode := encode_fence;
  decode := decode_fence;
  typed v := fence_kind v < 2 ^ 8 ∧ fence_epoch v < 2 ^ 64 ∧ effective_frame v < 2 ^ 64 ∧
    origin_frame v < 2 ^ 64 ∧ fence_generation v < 2 ^ 64 ∧ fence_bpm v < 2 ^ 16 ∧
    typed (switch_authority v) ∧ switch_outcome v < 2 ^ 8 ∧ typed (switch_applied_frame v)
|}.

Definition encode_closure (v : SequenceAdmissionClosure) : json :=
  j_object [("last_retained_watermark", encode (last_retained_watermark v));
            ("reason", j_uint (close_reason v))].
Definition decode_closure (input : json) : Outcome SequenceAdmissionClosure :=
  require_shape input 2 "SequenceAdmissionClosure";;
  w ← field input "last_retained_watermark";
  r ← uint_field 8 input "reason";
  returned (MkAdmissionClosure w r).
#[export] Instance codec_closure : Codec SequenceAdmissionClosure := {|
  encode := encode_closure;
  decode := decode_closure;
  typed v := typed (last_retained_watermark v) ∧ close_reason v < 2 ^ 8
|}.

Definition encode_press (v : SequenceOwnedPress) : json :=
  j_object [("slot", encode (press_slot v)); ("press_sequence", encode (owned_press_sequence v));
            ("raw_attack_tick", encode (raw_attack_tick v));
            ("onset_tick", j_uint (press_onset v)); ("velocity", j_uint (press_velocity v))].
Definition decode_press (input : json) : Outcome SequenceOwnedPress :=
  require_shape input 5 "SequenceOwnedPress";;
  s ← field input "slot";
  p ← field input "press_sequence";
  r ← field input "raw_attack_tick";
  o ← uint_field 32 input "onset_tick";
  v ← uint_field 8 input "velocity";
  returned (MkOwnedPress s p r o v).
#[export] Instance codec_press : Codec SequenceOwnedPress := {|
  encode := encode_press;
  decode := decode_press;
  typed v := typed (press_slot v) ∧ owned_press_sequence v < 2 ^ 64 ∧
    raw_attack_tick v < 2 ^ 64 ∧ press_onset v < 2 ^ 32 ∧ press_velocity v < 2 ^ 8
|}.

Definition encode_checkpoint (v : SequenceAdmissionCheckpoint) : json :=
  j_object [("pattern_id", encode (checkpoint_pattern v));
            ("publication_generation", encode (checkpoint_generation v));
            ("last_runtime_frame", encode (last_runtime_frame v));
            ("owned_presses", encode (owned_presses v))].
Definition decode_checkpoint (input : json) : Outcome SequenceAdmissionCheckpoint :=
  require_shape input 4 "SequenceAdmissionCheckpoint";;
  p ← field input "pattern_id";
  g ← field input "publication_generation";
  f ← field input "last_runtime_frame";
  o ← field input "owned_presses";
  returned (MkAdmissionCheckpoint p g f o).
#[export] Instance codec_checkpoint : Codec SequenceAdmissionCheckpoint := {|
  encode := encode_checkpoint;
  decode := decode_checkpoint;
  typed v := checkpoint_generation v < 2 ^ 64 ∧ last_runtime_frame v < 2 ^ 64 ∧
    typed (owned_presses v)
|}.

Definition encode_receipt (v : SequenceCandidateReceipt) : json :=
  j_object [("watermark", encode (receipt_watermark v));
            ("payload_sha256", encode (payload_sha256 v))].
Definition decode_receipt (input : json) : Outcome SequenceCandidateReceipt :=
  require_shape input 2 "SequenceCandidateReceipt";;
  w ← field input "watermark";
  p ← field input "payload_sha256";
  returned (MkCandidateReceipt w p).
#[export] Instance codec_receipt : Codec SequenceCandidateReceipt := {|
  encode := encode_receipt;
  decode := decode_receipt;
  typed v := receipt_watermark v < 2 ^ 64
|}.

Definition encode_transfer (v : SequenceAdmissionTransfer) : json :=
  j_object [("transfer_id", encode (transfer_id v)); ("terminal", encode (terminal v));
            ("first_watermark", encode (transfer_first v));
            ("last_watermark", encode (transfer_last v));
            ("candidates_sha256", encode (candidates_sha256 v));
            ("candidate_receipts", encode (candidate_receipts v));
            ("pattern_id", encode (transfer_pattern v));
            ("expected_revision", encode (transfer_revision v));
            ("journal_input_sequence", encode (journal_input_sequence v));
            ("recoverable_tail", encode (recoverable_tail v));
            ("checkpoint", encode (transfer_checkpoint v))].
Definition decode_transfer (input : json) : Outcome SequenceAdmissionTransfer :=
  require_shape input 11 "SequenceAdmissionTransfer";;
  i ← field input "transfer_id";
  t ← field input "terminal";
  f ← field input "first_watermark";
  l ← field input "last_watermark";
  s ← field input "candidates_sha256";
  r ← field input "candidate_receipts";
  p ← field input "pattern_id";
  e ← field input "expected_revision";
  q ← field input "journal_input_sequence";
  rt ← field input "recoverable_tail";
  c ← field input "checkpoint";
  returned (MkAdmissionTransfer i t f l s r p e q rt c).
#[export] Instance codec_transfer : Codec SequenceAdmissionTransfer := {|
  encode := encode_transfer;
  decode := decode_transfer;
  typed v := transfer_first v < 2 ^ 64 ∧ transfer_last v < 2 ^ 64 ∧ typed (candidate_receipts v) ∧
    transfer_revision v < 2 ^ 64 ∧ typed (journal_input_sequence v) ∧ typed (recoverable_tail v) ∧
    typed (transfer_checkpoint v)
|}.

Definition encode_profile (v : SequenceAdmissionTimingProfile) : json :=
  j_object [("command_id", encode (profile_command v));
            ("first_watermark", encode (profile_watermark v));
            ("pattern_id", encode (profile_pattern v));
            ("publication_generation", encode (profile_generation v));
            ("expected_revision", encode (profile_revision v));
            ("runtime_frame", encode (profile_frame v));
            ("tick_numerator", encode (tick_numerator v)); ("bpm", j_uint (profile_bpm v));
            ("quantize_enabled", encode (profile_quantize v));
            ("swing_percent", j_uint (profile_swing v))].
Definition decode_profile (input : json) : Outcome SequenceAdmissionTimingProfile :=
  require_shape input 10 "SequenceAdmissionTimingProfile";;
  c ← field input "command_id";
  w ← field input "first_watermark";
  p ← field input "pattern_id";
  g ← field input "publication_generation";
  r ← field input "expected_revision";
  f ← field input "runtime_frame";
  t ← field input "tick_numerator";
  b ← uint_field 16 input "bpm";
  q ← field input "quantize_enabled";
  s ← uint_field 8 input "swing_percent";
  returned (MkTimingProfile c w p g r f t b q s).
#[export] Instance codec_profile : Codec SequenceAdmissionTimingProfile := {|
  encode := encode_profile;
  decode := decode_profile;
  typed v := profile_watermark v < 2 ^ 64 ∧ profile_generation v < 2 ^ 64 ∧
    profile_revision v < 2 ^ 64 ∧ profile_frame v < 2 ^ 64 ∧ tick_numerator v < 2 ^ 64 ∧
    profile_bpm v < 2 ^ 16 ∧ profile_swing v < 2 ^ 8
|}.

Definition encode_state (v : SequenceAdmissionState) : json :=
  j_object [("preparation", encode (preparation v)); ("candidates", encode (candidates v));
            ("admission_fence", encode (admission_fence v));
            ("cutoff_fence", encode (cutoff_fence v)); ("closure", encode (closure v));
            ("transfers", encode (transfers v));
            ("applied_switches", encode (applied_switches v));
            ("segment_generation", encode (segment_generation v));
            ("published_generation", encode (published_generation v));
            ("completed", encode (completed v));
            ("timing_profiles", encode (timing_profiles v))].
Definition decode_state (input : json) : Outcome SequenceAdmissionState :=
  require_shape input 11 "SequenceAdmissionState";;
  p ← field input "preparation";
  c ← field input "candidates";
  af ← field input "admission_fence";
  cf ← field input "cutoff_fence";
  cl ← field input "closure";
  t ← field input "transfers";
  sw ← field input "applied_switches";
  sg ← field input "segment_generation";
  pg ← field input "published_generation";
  d ← field input "completed";
  tp ← field input "timing_profiles";
  returned (MkAdmissionState p c af cf cl t sw sg pg d tp).
#[export] Instance codec_state : Codec SequenceAdmissionState := {|
  encode := encode_state;
  decode := decode_state;
  typed v := typed (preparation v) ∧ typed (candidates v) ∧ typed (admission_fence v) ∧
    typed (cutoff_fence v) ∧ typed (closure v) ∧ typed (transfers v) ∧
    typed (applied_switches v) ∧ segment_generation v < 2 ^ 64 ∧
    published_generation v < 2 ^ 64 ∧ typed (timing_profiles v)
|}.
End records.
