(* ===== verification/AdmissionCodec.v ===== *)
(** Every admission record decodes to what was encoded.

    The law of the [Codec] class, its instances from the integers up to the whole
    admission state, and the theorem on the state. *)

From S2P Require Import Prelude Json Foundation Text Project Soundset Outcome Admission.

Class CodecLaws `{JL : JsonLib} (T : Type) `{!Codec T} : Prop :=
  decode_encode (x : T) : typed x → decode (encode x) = returned x.

(** A value that is not encoded as null, so that an optional one can be told from
    its absence. *)
Class NotNull `{JL : JsonLib} (T : Type) `{!Codec T} : Prop :=
  encode_not_null (x : T) : is_null (encode x) = false.

(** What is decoded is a value of the type. *)
Class DecodeTyped `{JL : JsonLib} (T : Type) `{!Codec T} : Prop :=
  decode_typed (j : json) (x : T) : decode j = returned x → typed x.

Section laws.
Context `{JL : JsonLib} `{!JsonLaws JL}.

Lemma decode_uint_roundtrip w n : n < 2 ^ w → w ≤ 64 → decode_uint w (j_uint n) = returned n.
Proof.
  intros Hn Hw. assert (2 ^ w ≤ 2 ^ 64) by (by apply N.pow_le_mono_r).
  unfold decode_uint, nonnegative. rewrite uint_is_unsigned, uint_get by lia. cbn.
  by rewrite (proj2 (N.leb_le n _)) by lia.
Qed.

#[export] Instance laws_u64 : CodecLaws N.
Proof. intros n Hn. by apply decode_uint_roundtrip. Qed.

#[export] Instance laws_bool : CodecLaws bool.
Proof. intros b _. cbn. by rewrite bool_is_boolean, bool_get. Qed.

#[export] Instance laws_string : CodecLaws string.
Proof. intros s _. cbn. by rewrite string_get. Qed.

#[export] Instance laws_id {Tag} : CodecLaws (StrongId Tag).
Proof. intros [s] _. cbn. unfold strong_id_json. by rewrite string_get. Qed.

#[export] Instance laws_option `{!Codec T, !CodecLaws T, !NotNull T} : CodecLaws (option T).
Proof.
  intros [x|] Hx; cbn [encode decode codec_option]; [|by rewrite null_is_null].
  by rewrite encode_not_null, decode_encode.
Qed.

#[export] Instance laws_list `{!Codec T, !CodecLaws T} : CodecLaws (list T).
Proof.
  intros l Hl. cbn [encode decode codec_list]. rewrite array_is_array, array_items. cbn.
  rewrite (traverse_map decode encode id), list_fmap_id; [done|].
  intros x Hx. apply decode_encode. by eapply Forall_forall in Hl.
Qed.

#[export] Instance not_null_u64 : NotNull N.
Proof. intros n. apply uint_not_null. Qed.

(** ** Members *)

Lemma require_shape_fields j l n type : fields j l → length l = n →
  require_shape j n type = returned ().
Proof.
  intros H <-. unfold require_shape. rewrite (fields_object _ _ H), (fields_size _ _ H).
  by rewrite Nat.eqb_refl.
Qed.

Lemma field_fields `{!Codec T, !CodecLaws T} j l k (x : T) : fields j l →
  assoc k l = Some (encode x) → typed x → field j k = returned x.
Proof.
  intros H E Hx. unfold field. rewrite (at_fields _ _ _ _ H E). cbn. by apply decode_encode.
Qed.

Lemma uint_field_fields w j l k n : fields j l → assoc k l = Some (j_uint n) → n < 2 ^ w → w ≤ 64 →
  uint_field w j k = returned n.
Proof.
  intros H E Hn Hw. unfold uint_field. rewrite (at_fields _ _ _ _ H E). cbn.
  by apply decode_uint_roundtrip.
Qed.
End laws.

(** Decode an object literal member by member. *)
Ltac decode_members :=
  match goal with |- context [j_object ?l] =>
    let H := fresh in
    pose proof (fields_j_object l eq_refl) as H;
    rewrite (require_shape_fields _ _ _ _ H eq_refl); cbn [mbind outcome_bind];
    repeat first
      [ erewrite (field_fields _ _ _ _ H) by (first [reflexivity | done]); cbn [mbind outcome_bind]
      | erewrite (uint_field_fields _ _ _ _ _ H) by (first [reflexivity | done]);
        cbn [mbind outcome_bind] ]
  end.

(** The members of a record, its own fields folded. *)
Ltac unfold_record :=
  cbv beta delta [
    encode_slot decode_slot encode_pattern_event decode_pattern_event encode_admission_identity
    decode_admission_identity encode_preparation decode_preparation encode_candidate
    decode_candidate encode_authority decode_authority encode_fence decode_fence encode_closure
    decode_closure encode_press decode_press encode_checkpoint decode_checkpoint encode_receipt
    decode_receipt encode_transfer decode_transfer encode_profile decode_profile encode_state
    decode_state] in *.

(** The law of a record. *)
Tactic Notation "record_law" reference(codec_instance) :=
  let v := fresh "v" in let H := fresh in
  intros v H; cbn [encode decode typed codec_instance] in *; unfold_record; destruct_and?; decode_members;
  by destruct v.

Section record_laws.
Context `{JL : JsonLib} `{!JsonLaws JL}.

#[export] Instance laws_slot : CodecLaws PadSlotId.
Proof. record_law codec_slot. Qed.
#[export] Instance laws_event : CodecLaws PatternEvent.
Proof. record_law codec_event. Qed.
#[export] Instance laws_identity : CodecLaws SequenceAdmissionIdentity.
Proof. record_law codec_identity. Qed.
#[export] Instance laws_preparation : CodecLaws SequenceAdmissionPreparation.
Proof. record_law codec_preparation. Qed.
#[export] Instance laws_candidate : CodecLaws SequenceAdmissionCandidate.
Proof. record_law codec_candidate. Qed.
#[export] Instance laws_authority : CodecLaws SequencePublicationAuthority.
Proof. record_law codec_authority. Qed.
#[export] Instance not_null_authority : NotNull SequencePublicationAuthority.
Proof. intros v. apply object_not_null. Qed.
#[export] Instance laws_fence : CodecLaws SequenceAdmissionFence.
Proof. record_law codec_fence. Qed.
#[export] Instance not_null_fence : NotNull SequenceAdmissionFence.
Proof. intros v. apply object_not_null. Qed.
#[export] Instance laws_closure : CodecLaws SequenceAdmissionClosure.
Proof. record_law codec_closure. Qed.
#[export] Instance not_null_closure : NotNull SequenceAdmissionClosure.
Proof. intros v. apply object_not_null. Qed.
#[export] Instance laws_press : CodecLaws SequenceOwnedPress.
Proof. record_law codec_press. Qed.
#[export] Instance laws_checkpoint : CodecLaws SequenceAdmissionCheckpoint.
Proof. record_law codec_checkpoint. Qed.
#[export] Instance laws_receipt : CodecLaws SequenceCandidateReceipt.
Proof. record_law codec_receipt. Qed.
#[export] Instance laws_transfer : CodecLaws SequenceAdmissionTransfer.
Proof. record_law codec_transfer. Qed.
#[export] Instance laws_profile : CodecLaws SequenceAdmissionTimingProfile.
Proof. record_law codec_profile. Qed.
#[export] Instance laws_state : CodecLaws SequenceAdmissionState.
Proof. record_law codec_state. Qed.
End record_laws.

(** ** What decoding gives *)

Section decode_typed.
Context `{JL : JsonLib}.

Lemma decode_uint_typed w j n : decode_uint w j = returned n → n < 2 ^ w.
Proof.
  intros H. unfold decode_uint in H. outcome_inv H. subst. apply N.leb_le in H3.
  assert (0 < 2 ^ w) by (apply N.neq_0_lt_0, N.pow_nonzero; done). lia.
Qed.

#[export] Instance typed_u64 : DecodeTyped N.
Proof. intros j n. apply decode_uint_typed. Qed.
#[export] Instance typed_bool : DecodeTyped bool.
Proof. done. Qed.
#[export] Instance typed_string : DecodeTyped string.
Proof. done. Qed.
#[export] Instance typed_id {Tag} : DecodeTyped (StrongId Tag).
Proof. done. Qed.

#[export] Instance typed_option `{!Codec T, !DecodeTyped T} : DecodeTyped (option T).
Proof.
  intros j o H. cbn [decode codec_option] in H. destruct (is_null j); outcome_inv H; subst; [done|].
  cbn. by eapply decode_typed.
Qed.

#[export] Instance typed_list `{!Codec T, !DecodeTyped T} : DecodeTyped (list T).
Proof.
  intros j l H. cbn [decode codec_list] in H. outcome_inv H. apply traverse_returned in H.
  cbn. eapply Forall2_Forall_r; [exact H|]. apply Forall_forall. intros i _ v. apply decode_typed.
Qed.

Lemma field_typed `{!Codec T, !DecodeTyped T} j k (x : T) : field j k = returned x → typed x.
Proof. intros H. unfold field in H. outcome_inv H. by eapply decode_typed. Qed.

Lemma uint_field_typed w j k n : uint_field w j k = returned n → n < 2 ^ w.
Proof. intros H. unfold uint_field in H. outcome_inv H. by eapply decode_uint_typed. Qed.
End decode_typed.

Tactic Notation "decoded_typed" reference(codec_instance) :=
  let H := fresh in
  intros ?j ?v H; cbn [decode codec_instance] in H; unfold_record; outcome_inv H; subst;
  repeat match goal with
  | H : uint_field _ _ _ = returned _ |- _ => apply uint_field_typed in H
  | H : field _ _ = returned _ |- _ => apply field_typed in H
  end; cbn [typed codec_instance]; split_and?; eassumption || done.

Section record_typed.
Context `{JL : JsonLib}.

#[export] Instance typed_slot : DecodeTyped PadSlotId.
Proof. decoded_typed codec_slot. Qed.
#[export] Instance typed_event : DecodeTyped PatternEvent.
Proof. decoded_typed codec_event. Qed.
#[export] Instance typed_identity : DecodeTyped SequenceAdmissionIdentity.
Proof. decoded_typed codec_identity. Qed.
#[export] Instance typed_preparation : DecodeTyped SequenceAdmissionPreparation.
Proof. decoded_typed codec_preparation. Qed.
#[export] Instance typed_candidate : DecodeTyped SequenceAdmissionCandidate.
Proof. decoded_typed codec_candidate. Qed.
#[export] Instance typed_authority : DecodeTyped SequencePublicationAuthority.
Proof. decoded_typed codec_authority. Qed.
#[export] Instance typed_fence : DecodeTyped SequenceAdmissionFence.
Proof. decoded_typed codec_fence. Qed.
#[export] Instance typed_closure : DecodeTyped SequenceAdmissionClosure.
Proof. decoded_typed codec_closure. Qed.
#[export] Instance typed_press : DecodeTyped SequenceOwnedPress.
Proof. decoded_typed codec_press. Qed.
#[export] Instance typed_checkpoint : DecodeTyped SequenceAdmissionCheckpoint.
Proof. decoded_typed codec_checkpoint. Qed.
#[export] Instance typed_receipt : DecodeTyped SequenceCandidateReceipt.
Proof. decoded_typed codec_receipt. Qed.
#[export] Instance typed_transfer : DecodeTyped SequenceAdmissionTransfer.
Proof. decoded_typed codec_transfer. Qed.
#[export] Instance typed_profile : DecodeTyped SequenceAdmissionTimingProfile.
Proof. decoded_typed codec_profile. Qed.
#[export] Instance typed_state : DecodeTyped SequenceAdmissionState.
Proof. decoded_typed codec_state. Qed.
End record_typed.

Section state_roundtrip.
Context `{JL : JsonLib} `{!JsonLaws JL}.

(** The admission of a session survives its document.  A state whose integers
    fit their widths decodes, from what [encode] makes of it, to itself, with its
    optional fences, its closure and its lists of candidates, receipts, transfers,
    switches and profiles; and whatever decodes is such a state, so encoding it
    again and decoding gives it back. *)
Theorem admission_state_roundtrip :
  (∀ s : SequenceAdmissionState, typed s → decode (encode s) = returned s) ∧
  (∀ (j : json) (s : SequenceAdmissionState), decode j = returned s →
     typed s ∧ decode (encode s) = returned s).
Proof.
  split; [apply decode_encode|]. intros j s H. apply decode_typed in H.
  split; [done|by apply decode_encode].
Qed.
End state_roundtrip.
