(* ===== verification/AdmissionMachine.v ===== *)
(** The data of a recording session's journal.

    Models the Sequence structs of packages/project-io: sequence_journal.hpp.

    The admission state machine.

    Models the rest of packages/project-io/src/sequence_admission_codec.cpp: what
    a valid admission is, [apply] with one function per kind of record, the
    replay of a sealed [snapshot], and what an admission blocks.

    [apply] changes the caller's copy; a copy whose [apply] threw is dropped, so
    here it returns the new journal.  Sums of sizes of strings in memory fit their
    [std::size_t]. *)

From S2P Require Import Prelude Json Foundation Text Project Sequence Soundset Outcome Admission.

Inductive SessionKind := sequence_session | performance_session.

Module SequenceSessionState.
Inductive t := active | switching | stopped | recovery_required | owner_lost | abandoned.
End SequenceSessionState.
Abbreviation SequenceSessionState := SequenceSessionState.t.

(** [canonical_events] is bound to the command; [recovery_events] is what of it
    is not committed yet. *)
Record SequenceFlushRecord := MkFlushRecord {
  flush_seq : N;
  flush_command : CommandId;
  flush_pattern : PatternId;
  flush_revision : N;
  canonical_events : list PatternEvent;
  recovery_events : list PatternEvent;
  flush_completed : bool
}.

Record SequenceCaptureCommit := MkCaptureCommit {
  capture_command : CommandId;
  capture_asset : AssetId;
  capture_slot : PadSlotId;
  capture_artifact : ArtifactRef;
  capture_revision : N
}.

(** [kind] is [SessionKind::sequence] throughout. *)
Record ActiveSequenceJournal := MkSequenceJournal {
  session_id : SequenceSessionId;
  journal_pattern : PatternId;
  journal_bars : N;
  pattern_fingerprint : string;
  journal_revision : N;
  next_flush_seq : N;
  session_state : SequenceSessionState;
  flushes : list SequenceFlushRecord;
  armed_capture_slot : option PadSlotId;
  capture_commit : option SequenceCaptureCommit;
  next_tail_seq : N;
  last_input_sequence : option N;
  pending_events : list PatternEvent;
  admission : option SequenceAdmissionState
}.

#[export] Instance SessionKind_eq_dec : EqDecision SessionKind.
Proof. solve_decision. Defined.
#[export] Instance SequenceSessionState_eq_dec : EqDecision SequenceSessionState.
Proof. solve_decision. Defined.
#[export] Instance FlushRecord_eq_dec : EqDecision SequenceFlushRecord.
Proof. solve_decision. Defined.
#[export] Instance CaptureCommit_eq_dec : EqDecision SequenceCaptureCommit.
Proof. solve_decision. Defined.

(** Assignments to one member. *)
Definition set_admission (j : ActiveSequenceJournal) (a : SequenceAdmissionState) :
    ActiveSequenceJournal :=
  MkSequenceJournal (session_id j) (journal_pattern j) (journal_bars j) (pattern_fingerprint j)
    (journal_revision j) (next_flush_seq j) (session_state j) (flushes j) (armed_capture_slot j)
    (capture_commit j) (next_tail_seq j) (last_input_sequence j) (pending_events j) (Some a).

Definition set_tail (j : ActiveSequenceJournal) (sequence : option N) (tail_seq : N)
    (events : list PatternEvent) : ActiveSequenceJournal :=
  MkSequenceJournal (session_id j) (journal_pattern j) (journal_bars j) (pattern_fingerprint j)
    (journal_revision j) (next_flush_seq j) (session_state j) (flushes j) (armed_capture_slot j)
    (capture_commit j) tail_seq sequence events (admission j).

(** The journal is being recorded into: [active] or [switching]. *)
Definition recording (s : SequenceSessionState) : bool :=
  bool_decide (s = SequenceSessionState.active) || bool_decide (s = SequenceSessionState.switching).

(** ** Assignments to one member of the state *)

Definition set_candidates (s : SequenceAdmissionState) l :=
  MkAdmissionState (preparation s) l (admission_fence s) (cutoff_fence s) (closure s) (transfers s)
    (applied_switches s) (segment_generation s) (published_generation s) (completed s)
    (timing_profiles s).
Definition set_fences (s : SequenceAdmissionState) a c :=
  MkAdmissionState (preparation s) (candidates s) a c (closure s) (transfers s)
    (applied_switches s) (segment_generation s) (published_generation s) (completed s)
    (timing_profiles s).
Definition set_closure (s : SequenceAdmissionState) c :=
  MkAdmissionState (preparation s) (candidates s) (admission_fence s) (cutoff_fence s) c
    (transfers s) (applied_switches s) (segment_generation s) (published_generation s)
    (completed s) (timing_profiles s).
Definition set_transfers (s : SequenceAdmissionState) l :=
  MkAdmissionState (preparation s) (candidates s) (admission_fence s) (cutoff_fence s) (closure s)
    l (applied_switches s) (segment_generation s) (published_generation s) (completed s)
    (timing_profiles s).
Definition set_switches (s : SequenceAdmissionState) l published :=
  MkAdmissionState (preparation s) (candidates s) (admission_fence s) (cutoff_fence s) (closure s)
    (transfers s) l (segment_generation s) published (completed s) (timing_profiles s).
Definition set_segment_generation (s : SequenceAdmissionState) g :=
  MkAdmissionState (preparation s) (candidates s) (admission_fence s) (cutoff_fence s) (closure s)
    (transfers s) (applied_switches s) g (published_generation s) (completed s)
    (timing_profiles s).
Definition set_completed (s : SequenceAdmissionState) :=
  MkAdmissionState (preparation s) (candidates s) (admission_fence s) (cutoff_fence s) (closure s)
    (transfers s) (applied_switches s) (segment_generation s) (published_generation s) true
    (timing_profiles s).
Definition set_profiles (s : SequenceAdmissionState) l :=
  MkAdmissionState (preparation s) (candidates s) (admission_fence s) (cutoff_fence s) (closure s)
    (transfers s) (applied_switches s) (segment_generation s) (published_generation s)
    (completed s) l.

(** [!previous || value > *previous]. *)
Definition advances (previous : option N) (value : N) : bool :=
  match previous with Some p => p <? value | None => true end.

Section machine.
Context `{JL : JsonLib} `{TL : !TextLib}.

(** ** Validity *)

Definition json_size (j : json) : N := N.of_nat (String.length (canonical_json dump j)).

Definition digest (j : json) : string := hash256_hex_string (canonical_json dump j).

Definition hash_valid (hash : string) : bool :=
  Nat.eqb (String.length hash) 64 && forallb is_lower_hex (chars hash).

Definition uuid {Tag} (id : StrongId Tag) : Outcome () :=
  require (is_valid_uuid (value id)) "invalid admission UUID".

Definition identity_valid (i : SequenceAdmissionIdentity) : Outcome () :=
  uuid (operation_id i);;
  require (negb (runtime_generation i =? 0) && negb (transport_epoch i =? 0))
    "admission generation and epoch must be nonzero".

Definition preparation_valid (p : SequenceAdmissionPreparation) : Outcome () :=
  identity_valid (preparation_identity p);;
  uuid (preparation_project p);;
  uuid (preparation_pattern p);;
  require (negb (preparation_generation p =? 0) && negb (candidate_limit p =? 0) &&
           (candidate_limit p <=? kSequenceAdmissionMaxCandidates) &&
           negb (candidate_byte_limit p =? 0) &&
           (candidate_byte_limit p <=? kSequenceAdmissionCandidateBytes) &&
           negb (fence_timeout_ms p =? 0) &&
           (fence_timeout_ms p <=? kSequenceAdmissionFenceTimeoutMs) &&
           (kSwingPercentMin <=? preparation_swing p) && (preparation_swing p <=? kSwingPercentMax))
    "admission preparation limits are invalid".

Definition candidate_valid (c : SequenceAdmissionCandidate) : Outcome () :=
  require (is_valid_slot (candidate_slot c)) "invalid admission slot";;
  require ((candidate_kind c =? SequenceCandidateKind.press) && (1 <=? candidate_velocity c) &&
           (candidate_velocity c <=? 127) ||
           (candidate_kind c =? SequenceCandidateKind.release) && (candidate_velocity c =? 0))
    "invalid admission candidate kind or velocity".

Definition switch_evidence_valid (f : SequenceAdmissionFence) : Outcome () :=
  if switch_outcome f =? SequenceSwitchOutcome.none then
    require (negb (has_value (switch_authority f)) && negb (has_value (switch_applied_frame f)))
      "unexpected switch evidence"
  else
    require (has_value (switch_authority f)) "missing switch authority";;
    authority ← library (switch_authority f);
    uuid (authority_pattern authority);;
    require (negb (generation authority =? 0)) "invalid switch generation";;
    if switch_outcome f =? SequenceSwitchOutcome.applied_before_cutoff then
      require match switch_applied_frame f with
              | Some applied =>
                  (applied <? effective_frame f) &&
                  bool_decide (fence_pattern f = authority_pattern authority) &&
                  (fence_generation f =? generation authority)
              | None => false
              end "invalid applied switch evidence"
    else
      require ((switch_outcome f =? SequenceSwitchOutcome.canceled_at_cutoff) &&
               negb (has_value (switch_applied_frame f))) "invalid canceled switch evidence".

Definition fence_valid (f : SequenceAdmissionFence) (p : SequenceAdmissionPreparation) : Outcome () :=
  uuid (fence_command f);;
  uuid (fence_pattern f);;
  require (negb (fence_generation f =? 0) && (origin_frame f <=? effective_frame f) &&
           (40 <=? fence_bpm f) && (fence_bpm f <=? 240)) "invalid admission fence metadata";;
  require ((fence_kind f =? SequenceFenceKind.admission) &&
           (fence_epoch f =? transport_epoch (preparation_identity p)) &&
           bool_decide (fence_pattern f = preparation_pattern p) &&
           (fence_generation f =? preparation_generation p) ||
           (fence_kind f =? SequenceFenceKind.cutoff) &&
           (transport_epoch (preparation_identity p) <? fence_epoch f))
    "invalid admission fence authority";;
  switch_evidence_valid f.

Definition fences_valid (s : SequenceAdmissionState) : Outcome () :=
  match admission_fence s with
  | Some a =>
      require (fence_kind a =? SequenceFenceKind.admission) "incorrect admission slot";;
      fence_valid a (preparation s)
  | None => returned ()
  end;;
  match cutoff_fence s with
  | Some c =>
      require (fence_kind c =? SequenceFenceKind.cutoff) "incorrect cutoff slot";;
      fence_valid c (preparation s)
  | None => returned ()
  end;;
  match admission_fence s, cutoff_fence s with
  | Some a, Some c =>
      require ((effective_frame a <=? effective_frame c) &&
               negb (bool_decide (fence_command c = fence_command a)))
        "fence ordering or command collision"
  | _, _ => returned ()
  end.

(** The last transfer that is not terminal. *)
Definition last_ordinary (l : list SequenceAdmissionTransfer) : option SequenceAdmissionTransfer :=
  last (filter (λ t, terminal t = false) l).

Definition last_watermark (s : SequenceAdmissionState) : option N :=
  match last (candidates s) with
  | Some c => Some (watermark c)
  | None => transfer_last <$> last_ordinary (transfers s)
  end.

Definition closure_valid (c : SequenceAdmissionClosure) (s : SequenceAdmissionState) : Outcome () :=
  require ((close_reason c <=? SequenceAdmissionCloseReason.owner_lost) &&
           bool_decide (last_retained_watermark c = last_watermark s))
    "invalid admission closure watermark or reason".

Definition candidate_size (c : SequenceAdmissionCandidate) : N := json_size (encode c).

Definition candidate_bytes (s : SequenceAdmissionState) : N :=
  foldl (λ size c, size + candidate_size c) 0 (candidates s).

(** The loop over the owned presses, from the slots that are occupied. *)
Fixpoint presses_valid (length : N) (occupied : list N) (l : list SequenceOwnedPress) : Outcome () :=
  match l with
  | [] => returned ()
  | p :: l' =>
      require (is_valid_slot (press_slot p) && (1 <=? press_velocity p) &&
               (press_velocity p <=? 127) && (press_onset p <? length)) "invalid owned press";;
      let cell := bank (press_slot p) * 16 + pad (press_slot p) in
      require (negb (bool_decide (cell ∈ occupied))) "duplicate owned slot";;
      presses_valid length (cell :: occupied) l'
  end.

Definition checkpoint_valid (c : SequenceAdmissionCheckpoint) (pattern : PatternId) (length : N) :
    Outcome () :=
  uuid (checkpoint_pattern c);;
  require (bool_decide (checkpoint_pattern c = pattern) && negb (checkpoint_generation c =? 0) &&
           (N.of_nat (List.length (owned_presses c)) <=? 64))
    "invalid admission checkpoint Pattern or size";;
  presses_valid length [] (owned_presses c).

Definition tail_event_valid (length : N) (e : PatternEvent) : bool :=
  is_valid_slot (slot e) && (1 <=? velocity e) && (velocity e <=? 127) && (onset_tick e <? length) &&
  (1 <=? duration_tick e) && (duration_tick e <=? u32_sub length (onset_tick e)).

Definition tail_valid (t : SequenceAdmissionTransfer) (length : N) : Outcome () :=
  uuid (transfer_id t);;
  uuid (transfer_pattern t);;
  require (bool_decide (merge_pattern_events [] (recoverable_tail t) = recoverable_tail t))
    "admission tail is not canonical";;
  for_all (λ e, require (tail_event_valid length e) "invalid admission tail event")
    (recoverable_tail t);;
  checkpoint_valid (transfer_checkpoint t) (transfer_pattern t) length.

Definition terminal_retained (s : SequenceAdmissionState) : bool :=
  match last (transfers s) with Some t => terminal t | None => false end.

(** ** Authorities *)

Definition cutoff_switch (s : SequenceAdmissionState) : option SequencePublicationAuthority :=
  f ← cutoff_fence s;
  if switch_outcome f =? SequenceSwitchOutcome.applied_before_cutoff then
    a ← switch_authority f;
    applied ← switch_applied_frame f;
    Some (MkPublicationAuthority (authority_pattern a) (generation a) applied)
  else None.

Definition admission_frame (s : SequenceAdmissionState) : N :=
  match admission_fence s with Some f => effective_frame f | None => 0 end.

Definition find_switch (g : N) (l : list SequencePublicationAuthority) :
    option SequencePublicationAuthority :=
  head (filter (λ a, generation a = g) l).

(** [segment(s, generation)]. *)
Definition segment_of (s : SequenceAdmissionState) (g : N) : Outcome SequencePublicationAuthority :=
  if g =? preparation_generation (preparation s) then
    returned (MkPublicationAuthority (preparation_pattern (preparation s)) g (admission_frame s))
  else match find_switch g (applied_switches s) with
  | Some a => returned a
  | None =>
      require match cutoff_switch s with Some c => generation c =? g | None => false end
        "journal segment lacks applied authority";;
      library (cutoff_switch s)
  end.

Definition segment (s : SequenceAdmissionState) : Outcome SequencePublicationAuthority :=
  segment_of s (segment_generation s).

Definition pending_switch (s : SequenceAdmissionState) : option SequencePublicationAuthority :=
  match last (applied_switches s) with
  | Some a =>
      if segment_generation s <? generation a then Some a
      else match cutoff_switch s with
           | Some c => if segment_generation s <? generation c then Some c else None
           | None => None
           end
  | None =>
      match cutoff_switch s with
      | Some c => if segment_generation s <? generation c then Some c else None
      | None => None
      end
  end.

(** One pass over the applied switches, from the previous authority and the
    number that is pending. *)
Definition check_switch (s : SequenceAdmissionState) (st : SequencePublicationAuthority * nat)
    (a : SequencePublicationAuthority) : Outcome (SequencePublicationAuthority * nat) :=
  let '(previous, pending) := st in
  uuid (authority_pattern a);;
  require ((generation previous <? generation a) && (frame previous <=? frame a) &&
           negb (bool_decide (authority_pattern a = authority_pattern previous)))
    "applied switch history regressed";;
  returned (a, if segment_generation s <? generation a then S pending else pending).

Definition check_against_cutoff (f : SequenceAdmissionFence)
    (cutoff : option SequencePublicationAuthority) (a : SequencePublicationAuthority) : Outcome () :=
  require (frame a <? effective_frame f) "ordinary applied switch is at or after cutoff";;
  match switch_authority f with
  | Some w =>
      if generation a =? generation w then
        require (bool_decide (cutoff = Some a)) "ordinary switch conflicts with cutoff decision"
      else returned ()
  | None => returned ()
  end.

Definition switches_valid (s : SequenceAdmissionState) : Outcome () :=
  let start := MkPublicationAuthority (preparation_pattern (preparation s))
                 (preparation_generation (preparation s)) (admission_frame s) in
  '(previous, pending) ← fold_outcome (check_switch s) (start, 0%nat) (applied_switches s);
  require (Nat.leb pending 1) "multiple unreconciled applied switches";;
  segment s;;
  match cutoff_fence s with
  | None => returned ()
  | Some f =>
      let cutoff := cutoff_switch s in
      for_all (check_against_cutoff f cutoff) (applied_switches s);;
      match cutoff with
      | Some c =>
          require ((generation previous <=? generation c) && (frame previous <=? frame c))
            "cutoff applied authority regressed";;
          if generation c =? generation previous then
            require (bool_decide (authority_pattern c = authority_pattern previous) &&
                     (is_empty (applied_switches s) || bool_decide (c = previous)))
              "cutoff applied authority collision"
          else require (Nat.eqb pending 0) "cutoff adds a second unreconciled switch"
      | None =>
          require (bool_decide (fence_pattern f = authority_pattern previous) &&
                   (fence_generation f =? N.max (generation previous) (published_generation s)))
            "cutoff does not match last applied publication"
      end
  end.

(** ** Timing profiles *)

Definition profile_follows (previous p : SequenceAdmissionTimingProfile) : bool :=
  (profile_watermark previous <=? profile_watermark p) &&
  (profile_generation previous <=? profile_generation p) &&
  (profile_revision previous <=? profile_revision p) && (profile_frame previous <=? profile_frame p).

(** One pass, from the commands seen and the profile before. *)
Definition check_profile (s : SequenceAdmissionState) (revision : N)
    (st : list CommandId * option SequenceAdmissionTimingProfile)
    (p : SequenceAdmissionTimingProfile) :
    Outcome (list CommandId * option SequenceAdmissionTimingProfile) :=
  let '(commands, previous) := st in
  uuid (profile_command p);;
  uuid (profile_pattern p);;
  authority ← segment_of s (profile_generation p);
  require (has_value (admission_fence s) && negb (bool_decide (profile_command p ∈ commands)) &&
           bool_decide (authority_pattern authority = profile_pattern p) &&
           (profile_generation p <=? segment_generation s) &&
           (preparation_first_watermark (preparation s) <=? profile_watermark p) &&
           (profile_revision p <=? revision) && (frame authority <=? profile_frame p) &&
           (40 <=? profile_bpm p) && (profile_bpm p <=? 240) &&
           (kSwingPercentMin <=? profile_swing p) && (profile_swing p <=? kSwingPercentMax))
    "invalid admission timing authority";;
  require match previous with Some q => profile_follows q p | None => true end
    "admission timing history regressed";;
  for_all (λ c, if watermark c <? profile_watermark p then
                  require (runtime_frame c <=? profile_frame p)
                    "admission timing profile predates earlier candidate"
                else returned ()) (candidates s);;
  for_all (λ t, if negb (terminal t) && (transfer_last t <? profile_watermark p) then
                  require (last_runtime_frame (transfer_checkpoint t) <=? profile_frame p)
                    "admission timing profile predates earlier transfer"
                else returned ()) (transfers s);;
  returned (profile_command p :: commands, Some p).

Definition profiles_valid (s : SequenceAdmissionState) (revision : N) : Outcome () :=
  fold_outcome (check_profile s revision) ([], None) (timing_profiles s);; returned ().

(** ** Records *)

(** [checkpoint(s, current_pattern)]. *)
Definition checkpoint (s : SequenceAdmissionState) (current_pattern : PatternId) :
    Outcome SequenceAdmissionCheckpoint :=
  current ← segment s;
  require (bool_decide (authority_pattern current = current_pattern))
    "checkpoint segment Pattern mismatch";;
  let fresh := MkAdmissionCheckpoint current_pattern (generation current) (frame current) [] in
  match last (transfers s) with
  | Some t =>
      if checkpoint_generation (transfer_checkpoint t) =? generation current then
        returned (transfer_checkpoint t)
      else returned fresh
  | None => returned fresh
  end.

Definition record_limit (kind : string) : N :=
  if bool_decide (kind = "admission-transfer") then kSequenceAdmissionTransferBytes
  else kSequenceAdmissionControlBytes.

(** [j.is_array() && j.size() <= bound]. *)
Definition bounded_array (j : json) (bound : N) : bool :=
  is_array j && (N.of_nat (j_size j) <=? bound).

Definition record_bound (record : json) : Outcome () :=
  kind ← get_string_at record "kind";
  require (json_size record <=? record_limit kind - 91) "admission record exceeds reserved bytes";;
  data ← at_ record "data";
  if bool_decide (kind = "admission-transfer") then
    receipts ← at_ data "candidate_receipts";
    checkpoint ← at_ data "checkpoint";
    presses ← at_ checkpoint "owned_presses";
    require (bounded_array receipts kSequenceAdmissionMaxCandidates && bounded_array presses 64)
      "admission transfer array exceeds bounds"
  else returned ().

(** ** What an admission blocks *)

Definition blocks_flush (j : ActiveSequenceJournal) : bool :=
  match admission j with
  | None => false
  | Some s =>
      if completed s then false
      else if negb (has_value (admission_fence s)) then true
      else if is_empty (candidates s) then false
      else negb match pending_switch s with
                | Some b => forallb (λ c, frame b <=? runtime_frame c) (candidates s)
                | None => false
                end
  end.

Definition blocks_switch (j : ActiveSequenceJournal) (target : PatternId) : bool :=
  match admission j with
  | None => false
  | Some s =>
      if completed s then false
      else
        blocks_flush j || negb (is_empty (pending_events j)) ||
        negb (has_value (admission_fence s)) ||
        negb match pending_switch s with
             | Some b => bool_decide (authority_pattern b = target)
             | None => false
             end
  end.

Definition reconcile_switch (j : ActiveSequenceJournal) : Outcome ActiveSequenceJournal :=
  match admission j with
  | None => returned j
  | Some s =>
      if completed s then returned j
      else
        require (has_value (pending_switch s)) "switch lacks durable applied authority";;
        boundary ← library (pending_switch s);
        returned (set_admission j (set_segment_generation s (generation boundary)))
  end.

(** ** Applying a record

    Each function returns the new state, or [None] for an exact retry of a record
    that is already there. *)

Definition apply_profile (j : ActiveSequenceJournal) (s : SequenceAdmissionState) (data : json) :
    Outcome (option SequenceAdmissionState) :=
  p ← decode (T := SequenceAdmissionTimingProfile) data;
  match head (filter (λ e, profile_command e = profile_command p) (timing_profiles s)) with
  | Some existing =>
      require (bool_decide (existing = p)) "immutable timing profile collision";; returned None
  | None =>
      let previous := last_watermark s in
      require (negb (completed s) && negb (has_value (closure s)) && negb (terminal_retained s) &&
               has_value (admission_fence s) && negb (has_value (pending_switch s)) &&
               recording (session_state j) && bool_decide (profile_pattern p = journal_pattern j) &&
               (profile_generation p =? segment_generation s) &&
               (profile_revision p =? journal_revision j))
        "timing profile lacks current authority or rewrites retained input";;
      base ← checkpoint s (journal_pattern j);
      require ((last_runtime_frame base <=? profile_frame p) &&
               advances previous (profile_watermark p))
        "timing profile lacks current authority or rewrites retained input";;
      let s' := set_profiles s (timing_profiles s ++ [p]) in
      profiles_valid s' (journal_revision j);;
      returned (Some s')
  end.

(** [std::ranges::lower_bound] by watermark: the first candidate not below. *)
Definition lower_bound (w : N) (l : list SequenceAdmissionCandidate) :
    option SequenceAdmissionCandidate :=
  head (filter (λ c, w ≤ watermark c) l).

(** The receipts of the transfers, in order. *)
Definition all_receipts (s : SequenceAdmissionState) : list SequenceCandidateReceipt :=
  mjoin (candidate_receipts <$> transfers s).

(** [replay] is [replay_candidate_bytes], the running sum, when there is one. *)
Definition apply_candidate (j : ActiveSequenceJournal) (s : SequenceAdmissionState)
    (replay : option N) (data : json) : Outcome (option (SequenceAdmissionState * option N)) :=
  c ← decode (T := SequenceAdmissionCandidate) data;
  candidate_valid c;;
  let existing := e ← lower_bound (watermark c) (candidates s);
                  if watermark e =? watermark c then Some e else None in
  match existing with
  | Some e =>
      require (bool_decide (e = c)) "candidate watermark payload collision";; returned None
  | None =>
      let previous := last_watermark s in
      let receipt :=
        if match previous with Some w => watermark c <=? w | None => false end then
          head (filter (λ r, receipt_watermark r = watermark c) (all_receipts s))
        else None in
      match receipt with
      | Some r =>
          require (bool_decide (payload_sha256 r = digest (encode c))) "consumed candidate collision";;
          returned None
      | None =>
          require (negb (completed s) && negb (has_value (closure s)) &&
                   negb (terminal_retained s) && recording (session_state j)) "admission is closed";;
          require ((preparation_first_watermark (preparation s) <=? watermark c) &&
                   advances previous (watermark c))
            "candidate watermark is not increasing";;
          let size := value_or replay (candidate_bytes s) + candidate_size c in
          require ((N.of_nat (length (candidates s)) <? candidate_limit (preparation s)) &&
                   (size <=? candidate_byte_limit (preparation s))) "admission capacity exhausted";;
          let s' := set_candidates s (candidates s ++ [c]) in
          let replay' := if has_value replay then Some size else None in
          returned (Some (
            if (N.of_nat (length (candidates s')) =? candidate_limit (preparation s)) ||
               (size =? candidate_byte_limit (preparation s))
            then (set_closure s' (Some (MkAdmissionClosure (Some (watermark c))
                                          SequenceAdmissionCloseReason.capacity)), replay')
            else (s', replay')))
      end
  end.

Definition apply_switch (j : ActiveSequenceJournal) (s : SequenceAdmissionState) (data : json) :
    Outcome (option SequenceAdmissionState) :=
  a ← decode (T := SequencePublicationAuthority) data;
  uuid (authority_pattern a);;
  match find_switch (generation a) (applied_switches s) with
  | Some previous =>
      require (bool_decide (previous = a)) "immutable applied switch collision";; returned None
  | None =>
      require (negb (completed s) && negb (terminal_retained s) && has_value (admission_fence s) &&
               recording (session_state j)) "applied switch lacks active admission";;
      require match pending_switch s with
              | None => true
              | Some p =>
                  match last (applied_switches s) with
                  | Some b => generation b <=? segment_generation s
                  | None => true
                  end && bool_decide (p = a)
              end "another applied switch is unresolved";;
      current ← segment s;
      require (generation current <? generation a) "applied switch generation or frame regressed";;
      base ← checkpoint s (journal_pattern j);
      require (last_runtime_frame base <=? frame a) "applied switch generation or frame regressed";;
      match cutoff_fence s with
      | Some _ =>
          require (bool_decide (cutoff_switch s = Some a))
            "applied switch conflicts with retained cutoff"
      | None => returned ()
      end;;
      let s' := set_switches s (applied_switches s ++ [a]) 0 in
      switches_valid s';;
      returned (Some s')
  end.

Definition apply_overlay (j : ActiveSequenceJournal) (s : SequenceAdmissionState) (data : json) :
    Outcome (option SequenceAdmissionState) :=
  require (is_object data && Nat.eqb (j_size data) 1) "invalid admission overlay shape";;
  g ← field (T := N) data "publication_generation";
  current ← segment s;
  if g =? published_generation s then returned None
  else
    require (negb (completed s) && negb (terminal_retained s) && has_value (admission_fence s) &&
             negb (has_value (cutoff_fence s)) && negb (has_value (pending_switch s)) &&
             bool_decide (session_state j = SequenceSessionState.active) &&
             (published_generation s <? g) && (generation current <? g))
      "overlay publication lacks current authority";;
    returned (Some (set_switches s (applied_switches s) g)).

Definition apply_fence (s : SequenceAdmissionState) (data : json) :
    Outcome (option SequenceAdmissionState) :=
  f ← decode (T := SequenceAdmissionFence) data;
  fence_valid f (preparation s);;
  let is_admission := fence_kind f =? SequenceFenceKind.admission in
  match if is_admission then admission_fence s else cutoff_fence s with
  | Some retained =>
      require (bool_decide (retained = f)) "immutable fence collision";; returned None
  | None =>
      require (negb (completed s)) "admission is complete";;
      let s' := if is_admission then set_fences s (Some f) (cutoff_fence s)
                else set_fences s (admission_fence s) (Some f) in
      fences_valid s';;
      switches_valid s';;
      returned (Some s')
  end.

Definition apply_close (s : SequenceAdmissionState) (data : json) :
    Outcome (option SequenceAdmissionState) :=
  c ← decode (T := SequenceAdmissionClosure) data;
  match closure s with
  | Some retained =>
      require (bool_decide (retained = c)) "immutable admission closure collision";; returned None
  | None =>
      require (negb (completed s)) "admission is complete";;
      closure_valid c s;;
      returned (Some (set_closure s (Some c)))
  end.

(** The receipts of a prefix of the candidates: that they match, one by one. *)
Fixpoint receipts_match (receipts : list SequenceCandidateReceipt)
    (prefix : list SequenceAdmissionCandidate) : Outcome () :=
  match receipts, prefix with
  | r :: receipts', c :: prefix' =>
      require ((receipt_watermark r =? watermark c) &&
               bool_decide (payload_sha256 r = digest (encode c))) "candidate receipt mismatch";;
      receipts_match receipts' prefix'
  | _, _ => returned ()
  end.

Definition terminal_transfer_valid (s : SequenceAdmissionState) (t : SequenceAdmissionTransfer) :
    bool :=
  has_value (cutoff_fence s) && has_value (closure s) && is_empty (candidates s) &&
  negb (has_value (pending_switch s)) && (transfer_first t =? 0) && (transfer_last t =? 0) &&
  is_empty (candidate_receipts t) &&
  bool_decide (candidates_sha256 t = digest (j_array [])) &&
  is_empty (owned_presses (transfer_checkpoint t)) && negb (has_value (journal_input_sequence t)) &&
  bool_decide (Some (transfer_pattern t) = fence_pattern <$> cutoff_fence s).

(** The checks of a transfer that is not terminal, with the checkpoint before. *)
Definition prefix_transfer_valid (j : ActiveSequenceJournal) (s : SequenceAdmissionState)
    (t : SequenceAdmissionTransfer) (previous : SequenceAdmissionCheckpoint) : Outcome () :=
  let consumed := length (candidate_receipts t) in
  require (negb (Nat.eqb consumed 0) && Nat.leb consumed (length (candidates s)) &&
           bool_decide (Some (transfer_first t) = watermark <$> head (candidates s)) &&
           bool_decide (Some (transfer_last t) =
                          watermark <$> candidates s !! Nat.pred consumed))
    "transfer is not an outstanding prefix";;
  let prefix := take consumed (candidates s) in
  receipts_match (candidate_receipts t) prefix;;
  require (bool_decide (candidates_sha256 t = digest (j_array (encode <$> prefix))))
    "candidate prefix checksum mismatch";;
  (if has_value (closure s) then
     require (has_value (cutoff_fence s)) "terminal drain lacks cutoff authority"
   else returned ());;
  if has_value (journal_input_sequence t) then returned ()
  else require (bool_decide (recoverable_tail t = pending_events j) &&
                bool_decide (transfer_checkpoint t = previous))
         "excluded prefix changed tail or ownership".

Definition apply_transfer (j : ActiveSequenceJournal) (s : SequenceAdmissionState)
    (replay : option N) (data : json) : Outcome (option (ActiveSequenceJournal * option N)) :=
  t ← decode (T := SequenceAdmissionTransfer) data;
  match head (filter (λ e, transfer_id e = transfer_id t) (transfers s)) with
  | Some existing =>
      require (bool_decide (existing = t)) "immutable transfer collision";; returned None
  | None =>
      require (negb (completed s) && negb (terminal_retained s) && has_value (admission_fence s) &&
               recording (session_state j)) "transfer lacks active admission authority";;
      require (bool_decide (transfer_pattern t = journal_pattern j) &&
               (transfer_revision t =? journal_revision j)) "transfer Pattern or revision mismatch";;
      tail_valid t (pattern_length_ticks (journal_bars j));;
      previous ← checkpoint s (journal_pattern j);
      require ((checkpoint_generation (transfer_checkpoint t) =? checkpoint_generation previous) &&
               (last_runtime_frame previous <=? last_runtime_frame (transfer_checkpoint t)))
        "checkpoint frame regressed";;
      (if terminal t then require (terminal_transfer_valid s t) "invalid terminal transfer"
       else prefix_transfer_valid j s t previous);;
      let consumed := if terminal t then 0%nat else length (candidate_receipts t) in
      j' ← match journal_input_sequence t with
           | None => returned j
           | Some n =>
               require (advances (last_input_sequence j) n)
                 "journal input sequence did not advance";;
               require (negb (next_tail_seq j =? 2 ^ 64 - 1)) "journal tail sequence overflow";;
               returned (set_tail j (Some n) (next_tail_seq j + 1) (pending_events j))
           end;
      let s' := set_candidates (set_transfers s (transfers s ++ [t])) (drop consumed (candidates s)) in
      returned (Some
        (set_admission (set_tail j' (last_input_sequence j') (next_tail_seq j') (recoverable_tail t)) s',
         (λ r, foldl (λ r c, u64_sub r (candidate_size c)) r (take consumed (candidates s))) <$> replay))
  end.

Definition all_completed (l : list SequenceFlushRecord) : bool := forallb flush_completed l.

Definition apply_complete (j : ActiveSequenceJournal) (s : SequenceAdmissionState) :
    Outcome (option SequenceAdmissionState) :=
  if completed s then returned None
  else
    require (has_value (admission_fence s) && has_value (cutoff_fence s) && has_value (closure s) &&
             is_empty (candidates s) && negb (has_value (pending_switch s)) &&
             terminal_retained s &&
             match last (transfers s) with
             | Some t => is_empty (owned_presses (transfer_checkpoint t)) | None => false end &&
             is_empty (pending_events j) && all_completed (flushes j))
      "admission still has unresolved work";;
    returned (Some (set_completed s)).

(** What a call of [apply] gives: whether the record was applied, the journal and
    the running sum. *)
Definition Applied : Type := bool * ActiveSequenceJournal * option N.

Definition apply_prepare (j : ActiveSequenceJournal) (identity : SequenceAdmissionIdentity)
    (replay : option N) (data : json) : Outcome Applied :=
  p ← decode (T := SequenceAdmissionPreparation) data;
  preparation_valid p;;
  require (bool_decide (identity = preparation_identity p)) "preparation identity mismatch";;
  match admission j with
  | Some s =>
      require (bool_decide (preparation s = p)) "conflicting admission preparation";;
      returned (false, j, replay)
  | None =>
      require (bool_decide (session_state j = SequenceSessionState.active) &&
               bool_decide (preparation_pattern p = journal_pattern j))
        "preparation does not match active Pattern";;
      returned (true,
        set_admission j (MkAdmissionState p [] None None None [] [] (preparation_generation p) 0
                           false []), replay)
  end.

(** The new state of an admission, in its journal. *)
Definition store (j : ActiveSequenceJournal) (replay : option N)
    (r : option SequenceAdmissionState) : Applied :=
  match r with
  | Some s => (true, set_admission j s, replay)
  | None => (false, j, replay)
  end.

Definition store_candidate (j : ActiveSequenceJournal) (replay : option N)
    (r : option (SequenceAdmissionState * option N)) : Applied :=
  match r with
  | Some (s, replay') => (true, set_admission j s, replay')
  | None => (false, j, replay)
  end.

Definition store_transfer (j : ActiveSequenceJournal) (replay : option N)
    (r : option (ActiveSequenceJournal * option N)) : Applied :=
  match r with
  | Some (j', replay') => (true, j', replay')
  | None => (false, j, replay)
  end.

(** The dispatch on the kind of a record other than the preparation. *)
Definition apply_kind (j : ActiveSequenceJournal) (s : SequenceAdmissionState) (replay : option N)
    (kind : string) (data : json) : Outcome Applied :=
  if bool_decide (kind = "admission-profile") then
    r ← apply_profile j s data; returned (store j replay r)
  else if bool_decide (kind = "admission-candidate") then
    r ← apply_candidate j s replay data; returned (store_candidate j replay r)
  else if bool_decide (kind = "admission-switch") then
    r ← apply_switch j s data; returned (store j replay r)
  else if bool_decide (kind = "admission-overlay") then
    r ← apply_overlay j s data; returned (store j replay r)
  else if bool_decide (kind = "admission-fence") then
    r ← apply_fence s data; returned (store j replay r)
  else if bool_decide (kind = "admission-close") then
    r ← apply_close s data; returned (store j replay r)
  else if bool_decide (kind = "admission-transfer") then
    r ← apply_transfer j s replay data; returned (store_transfer j replay r)
  else
    require (bool_decide (kind = "admission-complete") && is_null data) "unknown admission record";;
    r ← apply_complete j s; returned (store j replay r).

(** What follows the checks of the record's envelope. *)
Definition apply_dispatch (j : ActiveSequenceJournal) (identity : SequenceAdmissionIdentity)
    (replay : option N) (kind : string) (data : json) : Outcome Applied :=
  if bool_decide (kind = "admission-prepare") then apply_prepare j identity replay data
  else
    require (has_value (admission j)) "admission is not prepared";;
    s ← library (admission j);
    require (bool_decide (preparation_identity (preparation s) = identity))
      "admission generation or operation mismatch";;
    apply_kind j s replay kind data.

Definition apply (j : ActiveSequenceJournal) (record : json) (replay : option N) : Outcome Applied :=
  record_bound record;;
  require (is_object record && Nat.eqb (j_size record) 4) "invalid admission record shape";;
  session ← field (T := SequenceSessionId) record "session_id";
  uuid session;;
  require (bool_decide (session = session_id j)) "admission session mismatch";;
  identity ← field (T := SequenceAdmissionIdentity) record "identity";
  identity_valid identity;;
  kind ← get_string_at record "kind";
  data ← at_ record "data";
  apply_dispatch j identity replay kind data.

(** ** Opening a sealed snapshot *)

(** The receipts of one transfer, from the watermark before. *)
Definition check_receipt (first : N) (previous : option N) (r : SequenceCandidateReceipt) :
    Outcome (option N) :=
  require ((first <=? receipt_watermark r) &&
           advances previous (receipt_watermark r) &&
           hash_valid (payload_sha256 r)) "invalid historical candidate receipt";;
  returned (Some (receipt_watermark r)).

(** The local variables of the loop over the transfers: [previous], [transfers],
    [terminal] and [previous_generation]. *)
Record SnapshotLoop := MkSnapshotLoop {
  seen_watermark : option N;
  seen_transfers : list CommandId;
  seen_terminal : bool;
  seen_generation : N
}.

Definition check_transfer (s : SequenceAdmissionState) (l : SnapshotLoop)
    (t : SequenceAdmissionTransfer) : Outcome SnapshotLoop :=
  require (negb (seen_terminal l) && negb (bool_decide (transfer_id t ∈ seen_transfers l)))
    "duplicate or post-terminal transfer history";;
  tail_valid t (pattern_length_ticks 8);;
  let c := transfer_checkpoint t in
  authority ← segment_of s (checkpoint_generation c);
  require ((seen_generation l <=? checkpoint_generation c) &&
           (checkpoint_generation c <=? segment_generation s) &&
           bool_decide (authority_pattern authority = transfer_pattern t) &&
           (frame authority <=? last_runtime_frame c)) "snapshot transfer segment is invalid";;
  require (hash_valid (candidates_sha256 t)) "invalid prefix digest";;
  if terminal t then
    require ((transfer_first t =? 0) && (transfer_last t =? 0) && is_empty (candidate_receipts t) &&
             bool_decide (candidates_sha256 t = digest (j_array [])) &&
             negb (has_value (journal_input_sequence t)) && is_empty (owned_presses c) &&
             has_value (admission_fence s) && has_value (cutoff_fence s) && has_value (closure s) &&
             is_empty (candidates s) && negb (has_value (pending_switch s)) &&
             bool_decide (Some (transfer_pattern t) = fence_pattern <$> cutoff_fence s))
      "invalid terminal snapshot";;
    returned (MkSnapshotLoop (seen_watermark l) (transfer_id t :: seen_transfers l) true
                (checkpoint_generation c))
  else
    require (bool_decide (Some (transfer_first t) = receipt_watermark <$> head (candidate_receipts t)) &&
             bool_decide (Some (transfer_last t) = receipt_watermark <$> last (candidate_receipts t)))
      "invalid snapshot prefix";;
    w ← fold_outcome (check_receipt (preparation_first_watermark (preparation s)))
          (seen_watermark l) (candidate_receipts t);
    returned (MkSnapshotLoop w (transfer_id t :: seen_transfers l) (seen_terminal l)
                (checkpoint_generation c)).

Definition check_candidate (s : SequenceAdmissionState) (previous : option N)
    (c : SequenceAdmissionCandidate) : Outcome (option N) :=
  candidate_valid c;;
  require ((preparation_first_watermark (preparation s) <=? watermark c) &&
           advances previous (watermark c))
    "invalid snapshot watermark";;
  returned (Some (watermark c)).

(** The record [snapshot] makes of a transfer, to bound it. *)
Definition transfer_record (session : SequenceSessionId) (identity t : json) : json :=
  j_object [("kind", j_string "admission-transfer"); ("data", t);
            ("session_id", j_string (value session)); ("identity", identity)].

(** The checks of the typed state. *)
Definition snapshot_valid (s : SequenceAdmissionState) (j : ActiveSequenceJournal) : Outcome () :=
  require ((published_generation s =? 0) ||
           (preparation_generation (preparation s) <? published_generation s))
    "snapshot overlay generation precedes its preparation";;
  preparation_valid (preparation s);;
  fences_valid s;;
  switches_valid s;;
  profiles_valid s (journal_revision j);;
  (if completed s then returned ()
   else current ← segment s;
        require (bool_decide (authority_pattern current = journal_pattern j))
          "snapshot segment Pattern mismatch");;
  l ← fold_outcome (check_transfer s)
        (MkSnapshotLoop None [] false (preparation_generation (preparation s))) (transfers s);
  fold_outcome (check_candidate s) (seen_watermark l) (candidates s);;
  let size := candidate_bytes s in
  let count := N.of_nat (length (candidates s)) in
  require ((count <=? candidate_limit (preparation s)) &&
           (size <=? candidate_byte_limit (preparation s))) "snapshot candidate capacity exceeded";;
  (if (count =? candidate_limit (preparation s)) || (size =? candidate_byte_limit (preparation s))
   then require (has_value (closure s)) "full snapshot lacks closure" else returned ());;
  match closure s with Some c => closure_valid c s | None => returned () end;;
  (if is_empty (transfers s) then returned ()
   else require (has_value (admission_fence s)) "transfer history lacks authority");;
  if completed s then require (seen_terminal l) "completed snapshot lacks terminal evidence"
  else returned ().

Definition snapshot (input : json) (j : ActiveSequenceJournal) : Outcome SequenceAdmissionState :=
  candidates ← at_ input "candidates";
  require (bounded_array candidates kSequenceAdmissionMaxCandidates)
    "snapshot candidate count exceeds bounds";;
  transfers ← at_ input "transfers";
  require (is_array transfers) "invalid transfer history";;
  for_all (λ t,
      preparation ← at_ input "preparation";
      identity ← at_ preparation "identity";
      record_bound (transfer_record (session_id j) identity t)) (j_items transfers);;
  s ← decode (T := SequenceAdmissionState) input;
  snapshot_valid s j;;
  returned s.
End machine.
