(* ===== verification/Journal.v ===== *)
(** The sequence journal: the records of a recording session.

    Models the Sequence part of packages/project-io/src/sequence_journal.cpp: the
    JSON form of its records, the replay of a journal ([read_journal], from the
    payloads of its checked records), the operations that append a record, and
    the recovery document of a sealed session.

    A record is its payload; JournalFile has the checksum envelope, the lines of
    the file and the storage platform.  [corrupt reason message] is the error of
    [corrupt_record_error] at the record being read.

    The recovery document of a sealed sequence session.

    Models the rest of the Sequence part of sequence_journal.cpp: [journal_json],
    which [seal] stores, [parse_journal_snapshot], which [list_recoverable] reads,
    and [remove_active_if_complete]. *)

From S2P Require Import Prelude Json Foundation Text Project Sequence Soundset Outcome Admission AdmissionMachine.

(** ** Recording protocols *)

Record RecordingProtocol := MkProtocol {
  protocol_name : string;
  journal_contract : string;
  recovery_contract : string;
  active_filename : string;
  sealed_name_marker : string;
  torn_reason : string;
  torn_message : string;
  torn_remedy : string;
  tail_while_switching : bool;
  tail_while_flush_pending : bool;
  cumulative_flushes : bool;
  completion_revision_step : N
}.

Definition kSequenceProtocol : RecordingProtocol :=
  MkProtocol "Sequence" "lmdj.sequence.journal.v3" "lmdj.sequence.recovery.v3" "sequence.jsonl" ""
    "sequence_journal_torn_tail" "active Sequence Journal has a torn trailing record"
    "retain the journal; repair the invalid suffix or discard the recovery journal explicitly"
    true true true 1.
Definition kPerformanceProtocol : RecordingProtocol :=
  MkProtocol "Performance" "lmdj.performance.journal.v1" "lmdj.performance.recovery.v1"
    "performance.jsonl" "-performance" "performance_journal_torn_tail"
    "active Performance Journal has a torn trailing record"
    "retain the journal; repair the invalid record or discard the recovery journal explicitly"
    false false false 1.

Definition recording_protocol (kind : SessionKind) : RecordingProtocol :=
  match kind with
  | sequence_session => kSequenceProtocol
  | performance_session => kPerformanceProtocol
  end.

Definition recording_accepts_tail_state (kind : SessionKind) (s : SequenceSessionState) : bool :=
  bool_decide (s = SequenceSessionState.active) ||
  tail_while_switching (recording_protocol kind) &&
  bool_decide (s = SequenceSessionState.switching).

Definition recording_accepts_tail (kind : SessionKind) (s : SequenceSessionState)
    (l : list SequenceFlushRecord) : bool :=
  recording_accepts_tail_state kind s &&
  (tail_while_flush_pending (recording_protocol kind) || all_completed l).

Definition recording_accepts_flush (kind : SessionKind) (s : SequenceSessionState)
    (l : list SequenceFlushRecord) : bool :=
  bool_decide (s = SequenceSessionState.active) &&
  (cumulative_flushes (recording_protocol kind) || all_completed l).

Definition recording_command_is_new (l : list SequenceFlushRecord) (command : CommandId) : bool :=
  forallb (λ f, negb (bool_decide (flush_command f = command))) l.

Definition lowercase_sha256 (value : string) : bool :=
  Nat.eqb (String.length value) 64 && forallb is_lower_hex (chars value).

Definition valid_bars (bars : N) : bool :=
  (bars =? 1) || (bars =? 2) || (bars =? 4) || (bars =? 8).

(** ** Events that are not committed *)

Definition unresolved_batch (j : ActiveSequenceJournal) : list PatternEvent :=
  merge_pattern_events
    (foldl (λ r f, if flush_completed f then r else merge_pattern_events r (recovery_events f)) []
       (flushes j))
    (pending_events j).

Definition same_event_key (left right : PatternEvent) : bool :=
  bool_decide (slot left = slot right) && (onset_tick left =? onset_tick right).

Definition covers_event_keys (committed candidate : list PatternEvent) : bool :=
  forallb (λ e, existsb (λ visible, same_event_key visible e) committed) candidate.

Definition uncommitted_residual (committed candidate : list PatternEvent) : list PatternEvent :=
  filter (λ e, e ∉ committed) candidate.

Section journal.
Context `{JL : JsonLib} `{TL : !TextLib}.

(** ** Values *)

Definition sequence_integer (width : N) (input : json) : Outcome N :=
  let message := "Sequence integer is negative, fractional or out of range" in
  unsigned ← nonnegative input;
  require unsigned message;;
  n ← library (get_u64 input);
  require (n <=? 2 ^ width - 1) message;;
  returned n.

(** [sequence_integer<T>(input.at(key))]. *)
Definition integer_at (width : N) (input : json) (key : string) : Outcome N :=
  j ← at_ input key; sequence_integer width j.

Definition slot_json (s : PadSlotId) : json :=
  j_object [("bank", j_uint (bank s)); ("pad", j_uint (pad s))].

Definition optional_slot (input : json) (key : string) : Outcome (option PadSlotId) :=
  match j_at input key with
  | None => returned None
  | Some found =>
      if is_null found then returned None
      else
        require (is_object found && Nat.eqb (j_size found) 2 && j_contains found "bank" &&
                 j_contains found "pad") "armed Capture slot shape is invalid";;
        jb ← at_ found "bank";
        jp ← at_ found "pad";
        require (is_number_unsigned jb && is_number_unsigned jp)
          "armed Capture slot shape is invalid";;
        b ← library (get_u64 jb);
        p ← library (get_u64 jp);
        require ((b <=? 255) && (p <=? 255)) "armed Capture slot is invalid";;
        require (is_valid_slot (MkPadSlotId b p)) "armed Capture slot is invalid";;
        returned (Some (MkPadSlotId b p))
  end.

Definition optional_slot_json (s : option PadSlotId) : json :=
  match s with Some s => slot_json s | None => j_null end.

Definition event_json (e : PatternEvent) : json :=
  j_object [("duration_tick", j_uint (duration_tick e)); ("onset_tick", j_uint (onset_tick e));
            ("slot", slot_json (slot e)); ("velocity", j_uint (velocity e))].

Definition events_json (l : list PatternEvent) : json := j_array (event_json <$> l).

Context (path : string).

Definition parse_event_fields (input : json) (loop_length : N) : Outcome PatternEvent :=
  require (is_object input && Nat.eqb (j_size input) 4 && j_contains input "slot" &&
           j_contains input "onset_tick" && j_contains input "duration_tick" &&
           j_contains input "velocity") "event shape is invalid";;
  js ← at_ input "slot";
  b ← integer_at 8 js "bank";
  p ← integer_at 8 js "pad";
  onset ← integer_at 32 input "onset_tick";
  duration ← integer_at 32 input "duration_tick";
  v ← integer_at 8 input "velocity";
  let e := MkPatternEvent (MkPadSlotId b p) onset duration v in
  require (tail_event_valid loop_length e) "event value is outside Project v3 bounds";;
  returned e.

Definition parse_event (input : json) (loop_length : N) : Result PatternEvent :=
  catch_all (λ what, MkError _ invalid_project "Sequence Journal event is invalid"
                       (j_object [("path", j_string path); ("detail", j_string what)]))
    (parse_event_fields input loop_length).

(** A loop that parses events; the first that is refused ends the function. *)
Definition parse_events (l : list json) (loop_length : N) : Outcome (list PatternEvent) :=
  traverse (λ e, returning (parse_event e loop_length)) l.

Definition state_string (s : SequenceSessionState) : string :=
  match s with
  | SequenceSessionState.active => "active"
  | SequenceSessionState.switching => "switching"
  | SequenceSessionState.stopped => "stopped"
  | SequenceSessionState.recovery_required => "recovery_required"
  | SequenceSessionState.owner_lost => "owner_lost"
  | SequenceSessionState.abandoned => "abandoned"
  end.

Definition parse_state (value : string) : Outcome SequenceSessionState :=
  if bool_decide (value = "active") then returned SequenceSessionState.active
  else if bool_decide (value = "switching") then returned SequenceSessionState.switching
  else if bool_decide (value = "stopped") then returned SequenceSessionState.stopped
  else if bool_decide (value = "recovery_required") then
    returned SequenceSessionState.recovery_required
  else if bool_decide (value = "owner_lost") then returned SequenceSessionState.owner_lost
  else if bool_decide (value = "abandoned") then returned SequenceSessionState.abandoned
  else raised (Some "Sequence session state is invalid").

(** ** Records *)

Definition flush_fields (f : SequenceFlushRecord) : list (string * json) :=
  [("command_id", j_string (value (flush_command f)));
   ("events", events_json (canonical_events f));
   ("expected_revision", j_uint (flush_revision f)); ("flush_seq", j_uint (flush_seq f));
   ("kind", j_string "flush"); ("payload_version", j_int 2);
   ("pattern_id", j_string (value (flush_pattern f)))].

Definition flush_json (f : SequenceFlushRecord) : json := j_object (flush_fields f).

Definition tail_json (j : ActiveSequenceJournal) (input_sequence : N) (l : list PatternEvent) : json :=
  j_object [("events", events_json l); ("expected_revision", j_uint (journal_revision j));
            ("input_sequence", j_uint input_sequence); ("kind", j_string "tail");
            ("pattern_id", j_string (value (journal_pattern j)));
            ("tail_seq", j_uint (next_tail_seq j))].

Definition capture_json (c : SequenceCaptureCommit) : json :=
  j_object [("artifact", artifact_to_json (capture_artifact c));
            ("asset_id", j_string (value (capture_asset c)));
            ("command_id", j_string (value (capture_command c)));
            ("expected_revision", j_uint (capture_revision c));
            ("kind", j_string "capture-prepare"); ("slot", slot_json (capture_slot c))].

Definition parse_capture (input : json) : Outcome SequenceCaptureCommit :=
  require (is_object input) "armed Capture commit shape is invalid";;
  s ← optional_slot input "slot";
  command ← id_at input "command_id";
  asset ← id_at input "asset_id";
  ja ← at_ input "artifact";
  artifact ← returning (artifact_from_json ja);
  jr ← at_ input "expected_revision";
  revision ← library (get_u64 jr);
  let c := MkCaptureCommit command asset (value_or s (MkPadSlotId 0 0)) artifact revision in
  require (has_value s && is_valid_uuid (value command) && is_valid_uuid (value asset) &&
           is_valid_slot (capture_slot c) && lowercase_sha256 (sha256 artifact) &&
           negb (bool_decide (media_type artifact = "")))
    ("armed Capture commit identity is invalid at " +:+ path);;
  returned c.

(** ** Replay *)

(** What the loop of [read_journal] has read. *)
Record JournalDocument := MkDocument {
  saw_begin : bool;
  journal : ActiveSequenceJournal;
  admission_candidate_bytes : N
}.

Definition empty_journal : ActiveSequenceJournal :=
  MkSequenceJournal (MkId "") (MkId "") 0 "" 0 0 SequenceSessionState.active [] None None 0 None []
    None.

Definition empty_document : JournalDocument := MkDocument false empty_journal 0.

Context (corrupt : string → string → Error).

(** The [catch] at the end, with [record_reason] and [record_message] as they are
    when the code [r] throws. *)
Definition at_reason {A} (reason message : string) (r : Outcome A) : Outcome A :=
  match r with raised _ => refused (corrupt reason message) | _ => r end.

Definition replay_begin (payload : json) (kind : string) : Outcome ActiveSequenceJournal :=
  require (bool_decide (kind = "begin")) "first record is not a Sequence begin";;
  contract ← at_ payload "contract";
  require (j_eq_string contract (journal_contract (recording_protocol sequence_session)))
    "first record is not a Sequence begin";;
  session ← id_at payload "session_id";
  pattern ← id_at payload "pattern_id";
  bars ← integer_at 8 payload "bars";
  fingerprint ← get_string_at payload "pattern_fingerprint";
  revision ← integer_at 64 payload "expected_revision";
  armed ← optional_slot payload "armed_capture_slot";
  require (is_valid_uuid (value session) && is_valid_uuid (value pattern) && valid_bars bars &&
           lowercase_sha256 fingerprint) "Sequence begin metadata is invalid";;
  returned (MkSequenceJournal session pattern bars fingerprint revision 0
              SequenceSessionState.active [] armed None 0 None [] None).

(** [j.admission && !j.admission->completed]. *)
Definition admitting (j : ActiveSequenceJournal) : bool :=
  match admission j with Some s => negb (completed s) | None => false end.

Definition tail_identity (j : ActiveSequenceJournal) (payload : json) : Outcome N :=
  tail_seq ← integer_at 64 payload "tail_seq";
  input_sequence ← integer_at 64 payload "input_sequence";
  pattern ← id_at payload "pattern_id";
  revision ← integer_at 64 payload "expected_revision";
  require ((tail_seq =? next_tail_seq j) &&
           advances (last_input_sequence j) input_sequence &&
           bool_decide (pattern = journal_pattern j) && (revision =? journal_revision j) &&
           recording_accepts_tail sequence_session (session_state j) (flushes j))
    "Sequence tail identity is invalid";;
  returned input_sequence.

Definition tail_events (j : ActiveSequenceJournal) (payload : json) : Outcome (list PatternEvent) :=
  events ← at_ payload "events";
  require (is_array events) "Sequence tail events must be an array";;
  l ← parse_events (j_items events) (pattern_length_ticks (journal_bars j));
  require (negb (is_empty l) && bool_decide (merge_pattern_events [] l = l))
    "Sequence tail events are not canonical";;
  returned l.

Definition replay_tail (j : ActiveSequenceJournal) (payload : json) : Outcome ActiveSequenceJournal :=
  require (negb (admitting j)) "direct tail bypasses admission";;
  input_sequence ← at_reason "sequence_journal_tail_identity_invalid"
    "Sequence Journal tail identity is not monotonic or session-bound" (tail_identity j payload);
  l ← at_reason "sequence_journal_tail_not_canonical"
    "Sequence Journal tail event order is not canonical" (tail_events j payload);
  returned (set_tail j (Some input_sequence) (u64_add (next_tail_seq j) 1) l).

(** The members of the journal that the remaining records change. *)
Definition set_flushes (j : ActiveSequenceJournal) (next : N) (l : list SequenceFlushRecord)
    (pending : list PatternEvent) : ActiveSequenceJournal :=
  MkSequenceJournal (session_id j) (journal_pattern j) (journal_bars j) (pattern_fingerprint j)
    (journal_revision j) next (session_state j) l (armed_capture_slot j) (capture_commit j)
    (next_tail_seq j) (last_input_sequence j) pending (admission j).
Definition set_revision (j : ActiveSequenceJournal) (revision : N) (fingerprint : string) :
    ActiveSequenceJournal :=
  MkSequenceJournal (session_id j) (journal_pattern j) (journal_bars j) fingerprint revision
    (next_flush_seq j) (session_state j) (flushes j) (armed_capture_slot j) (capture_commit j)
    (next_tail_seq j) (last_input_sequence j) (pending_events j) (admission j).
Definition set_state (j : ActiveSequenceJournal) (s : SequenceSessionState) : ActiveSequenceJournal :=
  MkSequenceJournal (session_id j) (journal_pattern j) (journal_bars j) (pattern_fingerprint j)
    (journal_revision j) (next_flush_seq j) s (flushes j) (armed_capture_slot j) (capture_commit j)
    (next_tail_seq j) (last_input_sequence j) (pending_events j) (admission j).
Definition set_capture (j : ActiveSequenceJournal) (armed : option PadSlotId)
    (commit : option SequenceCaptureCommit) : ActiveSequenceJournal :=
  MkSequenceJournal (session_id j) (journal_pattern j) (journal_bars j) (pattern_fingerprint j)
    (journal_revision j) (next_flush_seq j) (session_state j) (flushes j) armed commit
    (next_tail_seq j) (last_input_sequence j) (pending_events j) (admission j).
Definition set_pattern (j : ActiveSequenceJournal) (pattern : PatternId) (bars : N)
    (fingerprint : string) (revision : N) : ActiveSequenceJournal :=
  MkSequenceJournal (session_id j) pattern bars fingerprint revision (next_flush_seq j)
    SequenceSessionState.active (flushes j) (armed_capture_slot j) (capture_commit j)
    (next_tail_seq j) (last_input_sequence j) (pending_events j) (admission j).

Definition replay_flush (j : ActiveSequenceJournal) (payload : json) : Outcome ActiveSequenceJournal :=
  version ← integer_at 64 payload "payload_version";
  sequence ← integer_at 64 payload "flush_seq";
  command ← id_at payload "command_id";
  pattern ← id_at payload "pattern_id";
  revision ← integer_at 64 payload "expected_revision";
  require (negb (blocks_flush j) && negb (has_value (capture_commit j)) &&
           (sequence =? next_flush_seq j) &&
           recording_accepts_flush sequence_session (session_state j) (flushes j) &&
           (version =? 2) && is_valid_uuid (value command) &&
           recording_command_is_new (flushes j) command && is_valid_uuid (value pattern) &&
           bool_decide (pattern = journal_pattern j)) "Sequence flush identity is invalid";;
  events ← at_ payload "events";
  require (is_array events) "Sequence flush events must be an array";;
  l ← parse_events (j_items events) (pattern_length_ticks (journal_bars j));
  let required := unresolved_batch j in
  at_reason "sequence_journal_flush_batch_invalid"
    "Sequence Journal flush omits a durable unresolved event"
    (require (is_empty required || bool_decide (required = l))
       "Sequence flush does not resolve the durable pending batch");;
  returned (set_flushes j (u64_add (next_flush_seq j) 1)
              (flushes j ++ [MkFlushRecord sequence command pattern revision l l false]) []).

(** One pass of the loop over the flushes, after [committed] was committed. *)
Definition complete_one (sequence : N) (committed f : SequenceFlushRecord) :
    Outcome SequenceFlushRecord :=
  let with_recovery l done :=
    MkFlushRecord (flush_seq f) (flush_command f) (flush_pattern f) (flush_revision f)
      (canonical_events f) l done in
  if flush_completed f || negb (bool_decide (flush_pattern f = flush_pattern committed)) ||
     negb (flush_revision f =? flush_revision committed) then returned f
  else if flush_seq f <=? sequence then
    at_reason "sequence_journal_completion_coverage_invalid"
      "Sequence completion does not cover an earlier cumulative flush"
      (require (covers_event_keys (canonical_events committed) (recovery_events f))
         "Sequence completion does not cover an earlier flush");;
    returned (with_recovery [] true)
  else
    let residual := uncommitted_residual (canonical_events committed) (recovery_events f) in
    if is_empty residual then returned (with_recovery [] true)
    else returned (with_recovery residual false).

Definition find_flush (sequence : N) (l : list SequenceFlushRecord) : option SequenceFlushRecord :=
  head (filter (λ f, flush_seq f = sequence) l).

Definition replay_complete (j : ActiveSequenceJournal) (payload : json) :
    Outcome ActiveSequenceJournal :=
  sequence ← integer_at 64 payload "flush_seq";
  let found := find_flush sequence (flushes j) in
  require match found with Some f => negb (flush_completed f) | None => false end
    "Sequence completion is not pending";;
  committed ← library found;
  fingerprint ← get_string_at payload "pattern_fingerprint";
  require (lowercase_sha256 fingerprint) "Sequence completion fingerprint is invalid";;
  l ← traverse (complete_one sequence committed) (flushes j);
  revision ← integer_at 64 payload "committed_revision";
  returned (set_revision (set_flushes j (next_flush_seq j) l
                (uncommitted_residual (canonical_events committed) (pending_events j)))
              revision fingerprint).

Definition replay_state (j : ActiveSequenceJournal) (payload : json) : Outcome ActiveSequenceJournal :=
  require (negb (has_value (capture_commit j)))
    "Sequence state cannot change during Capture recovery";;
  text ← get_string_at payload "state";
  s ← parse_state text;
  returned (set_state j s).

Definition replay_rebase (j : ActiveSequenceJournal) (payload : json) : Outcome ActiveSequenceJournal :=
  revision ← integer_at 64 payload "expected_revision";
  require (negb (has_value (capture_commit j)) && (journal_revision j <? revision) &&
           recording (session_state j) && all_completed (flushes j))
    "Sequence rebase metadata is invalid";;
  returned (set_revision j revision (pattern_fingerprint j)).

Definition replay_capture_prepare (j : ActiveSequenceJournal) (payload : json) :
    Outcome ActiveSequenceJournal :=
  c ← parse_capture payload;
  require (negb (has_value (capture_commit j)) &&
           bool_decide (armed_capture_slot j = Some (capture_slot c)) &&
           (capture_revision c =? journal_revision j) && recording (session_state j) &&
           all_completed (flushes j)) "armed Capture preparation metadata is invalid";;
  returned (set_capture j (armed_capture_slot j) (Some c)).

(** The checks that completing and aborting a Capture share. *)
Definition capture_matches (j : ActiveSequenceJournal) (s : option PadSlotId) (command : CommandId)
    (revision : N) : bool :=
  match s, capture_commit j with
  | Some s, Some c =>
      is_valid_uuid (value command) && bool_decide (armed_capture_slot j = Some s) &&
      bool_decide (capture_slot c = s) && bool_decide (capture_command c = command) &&
      (capture_revision c =? revision) && recording (session_state j) && all_completed (flushes j)
  | _, _ => false
  end.

Definition replay_capture_complete (j : ActiveSequenceJournal) (payload : json) :
    Outcome ActiveSequenceJournal :=
  s ← optional_slot payload "slot";
  command ← id_at payload "command_id";
  committed ← integer_at 64 payload "committed_revision";
  require (capture_matches j s command (journal_revision j) &&
           (committed =? u64_add (journal_revision j) 1))
    "armed Capture completion metadata is invalid";;
  returned (set_capture (set_revision j committed (pattern_fingerprint j)) None None).

Definition replay_capture_abort (j : ActiveSequenceJournal) (payload : json) :
    Outcome ActiveSequenceJournal :=
  s ← optional_slot payload "slot";
  command ← id_at payload "command_id";
  revision ← integer_at 64 payload "expected_revision";
  require (capture_matches j s command revision && (revision =? journal_revision j))
    "armed Capture abort metadata is invalid";;
  returned (set_capture j None None).

Definition replay_capture_disarm (j : ActiveSequenceJournal) (payload : json) :
    Outcome ActiveSequenceJournal :=
  s ← optional_slot payload "slot";
  require (has_value s && bool_decide (armed_capture_slot j = s) &&
           negb (has_value (capture_commit j)) && recording (session_state j))
    "armed Capture disarm metadata is invalid";;
  returned (set_capture j None (capture_commit j)).

Definition replay_switch (j : ActiveSequenceJournal) (payload : json) : Outcome ActiveSequenceJournal :=
  pattern ← id_at payload "pattern_id";
  require (negb (blocks_switch j pattern)) "switch bypasses admission prefix or authority";;
  bars ← integer_at 8 payload "bars";
  fingerprint ← get_string_at payload "pattern_fingerprint";
  revision ← integer_at 64 payload "expected_revision";
  require (negb (has_value (capture_commit j)) && is_valid_uuid (value pattern) && valid_bars bars &&
           lowercase_sha256 fingerprint && (revision =? journal_revision j) &&
           negb (bool_decide (pattern = journal_pattern j)) && recording (session_state j) &&
           all_completed (flushes j)) "Sequence switch metadata is invalid";;
  j' ← reconcile_switch j;
  returned (set_pattern j' pattern bars fingerprint revision).

(** The records that leave the running sum alone, by kind. *)
Definition replay_plain (j : ActiveSequenceJournal) (kind : string) (payload : json) :
    Outcome ActiveSequenceJournal :=
  if bool_decide (kind = "tail") then replay_tail j payload
  else if bool_decide (kind = "flush") then replay_flush j payload
  else if bool_decide (kind = "complete") then replay_complete j payload
  else if bool_decide (kind = "state") then replay_state j payload
  else if bool_decide (kind = "rebase") then replay_rebase j payload
  else if bool_decide (kind = "capture-prepare") then replay_capture_prepare j payload
  else if bool_decide (kind = "capture-complete") then replay_capture_complete j payload
  else if bool_decide (kind = "capture-abort") then replay_capture_abort j payload
  else if bool_decide (kind = "capture-disarm") then replay_capture_disarm j payload
  else if bool_decide (kind = "switch") then replay_switch j payload
  else raised (Some "Sequence Journal record kind is invalid").

Definition replay_admission (d : JournalDocument) (payload : json) : Outcome JournalDocument :=
  '(applied, j, bytes) ← apply (journal d) payload (Some (admission_candidate_bytes d));
  require applied "duplicate durable admission record";;
  returned (MkDocument true j (value_or bytes (admission_candidate_bytes d))).

Definition replay_kind (d : JournalDocument) (kind : string) (payload : json) :
    Outcome JournalDocument :=
  if negb (saw_begin d) then
    j ← replay_begin payload kind; returned (MkDocument true j (admission_candidate_bytes d))
  else if String.prefix "admission-" kind then replay_admission d payload
  else j ← replay_plain (journal d) kind payload;
       returned (MkDocument true j (admission_candidate_bytes d)).

Definition replay_record (d : JournalDocument) (payload : json) : Outcome JournalDocument :=
  at_reason "sequence_journal_record_invalid" "active Sequence Journal record is invalid"
    (kind ← get_string_at payload "kind"; replay_kind d kind payload).

(** [read_journal], from the payloads of the records, up to the check of the
    Project's files. *)
Definition read_journal (payloads : list json) : Outcome JournalDocument :=
  d ← fold_outcome replay_record empty_document payloads;
  at_reason "sequence_journal_record_invalid" "active Sequence Journal record is invalid"
    (require (saw_begin d) "Sequence Journal has no durable begin record");;
  returned d.

(** ** The operations of [SequenceJournal]

    Each runs under the writer's lease on the journal it has just read, and
    appends at most one record.  [Append record result] is a call of
    [append_recording_record] with what the operation returns when it succeeds;
    [Unchanged result] returns without a new record. *)

Inductive Append (A : Type) :=
  | append_record (record : json) (result : A)
  | Unchanged (result : A).
Arguments append_record {_} record result.
Arguments Unchanged {_} result.

(** [return failure(Error{code, message, {{"reason", reason}}})]. *)
Definition reason_error (c : ErrorCode) (message reason : string) : Error :=
  MkError _ c message (j_object [("reason", j_string reason)]).

Definition invalid {A} (message : string) : Result A := failure (plain_error invalid_argument message).

Definition begin_record (session : SequenceSessionId) (pattern : PatternId) (bars : N)
    (fingerprint : string) (revision : N) (armed : option PadSlotId) : json :=
  j_object [("armed_capture_slot", optional_slot_json armed); ("bars", j_uint bars);
            ("contract", j_string (journal_contract (recording_protocol sequence_session)));
            ("expected_revision", j_uint revision); ("kind", j_string "begin");
            ("pattern_fingerprint", j_string fingerprint); ("pattern_id", j_string (value pattern));
            ("session_id", j_string (value session))].

(** [begin], when no session is active, at the Project's [head_revision]. *)
Definition begin_session (head_revision : N) (session : SequenceSessionId) (pattern : PatternId)
    (bars : N) (fingerprint : string) (revision : N) (armed : option PadSlotId) : Result json :=
  if negb (is_valid_uuid (value session)) || negb (is_valid_uuid (value pattern)) ||
     negb (valid_bars bars) || negb (lowercase_sha256 fingerprint) ||
     match armed with Some s => negb (is_valid_slot s) | None => false end then
    invalid "Sequence begin metadata is invalid"
  else if negb (head_revision =? revision) then
    failure (MkError _ revision_conflict
      "Sequence begin expected revision does not match Project Truth"
      (j_object [("actual_revision", j_uint head_revision); ("expected_revision", j_uint revision)]))
  else success (begin_record session pattern bars fingerprint revision armed).

Definition append_tail (j : ActiveSequenceJournal) (session : SequenceSessionId)
    (pattern : PatternId) (revision input_sequence : N) (events : list PatternEvent) :
    Result (Append ()) :=
  if negb (is_valid_uuid (value session)) || negb (is_valid_uuid (value pattern)) ||
     is_empty events then invalid "Sequence tail metadata is invalid"
  else if admitting j || negb (bool_decide (session_id j = session)) ||
          negb (bool_decide (journal_pattern j = pattern)) || negb (journal_revision j =? revision) ||
          negb (advances (last_input_sequence j) input_sequence) ||
          negb (recording_accepts_tail sequence_session (session_state j) (flushes j)) then
    invalid "Sequence tail does not match the active session"
  else
    let canonical := merge_pattern_events [] events in
    if negb (forallb (tail_event_valid (pattern_length_ticks (journal_bars j))) canonical) then
      invalid "Sequence tail event is invalid"
    else success (append_record (tail_json j input_sequence canonical) ()).

Definition append_flush (j : ActiveSequenceJournal) (session : SequenceSessionId)
    (command : CommandId) (pattern : PatternId) (revision : N) (events : list PatternEvent) :
    Result (Append SequenceFlushRecord) :=
  if negb (is_valid_uuid (value session)) || negb (is_valid_uuid (value command)) ||
     negb (is_valid_uuid (value pattern)) || is_empty events then
    invalid "Sequence flush metadata is invalid"
  else if negb (bool_decide (session_id j = session)) then
    invalid "Sequence flush does not match the active session"
  else
    let canonical := merge_pattern_events [] events in
    match head (filter (λ f, flush_command f = command) (flushes j)) with
    | Some repeated =>
        if bool_decide (flush_pattern repeated = pattern) && (flush_revision repeated =? revision) &&
           bool_decide (canonical_events repeated = canonical) then success (Unchanged repeated)
        else failure (reason_error invalid_argument
               "Sequence command id is already bound to a different flush"
               "sequence_command_conflict")
    | None =>
        if blocks_flush j || negb (bool_decide (journal_pattern j = pattern)) ||
           negb (journal_revision j =? revision) ||
           negb (recording_accepts_flush sequence_session (session_state j) (flushes j)) ||
           has_value (capture_commit j) then
          invalid "Sequence flush does not match the active session"
        else if negb (forallb (tail_event_valid (pattern_length_ticks (journal_bars j))) canonical)
        then invalid "Sequence flush event is invalid"
        else
          let required := unresolved_batch j in
          if negb (is_empty required) && negb (bool_decide (required = canonical)) then
            invalid "Sequence flush does not resolve the durable pending batch"
          else
            let flush := MkFlushRecord (next_flush_seq j) command pattern revision canonical
                           canonical false in
            success (append_record (flush_json flush) flush)
    end.

Definition complete_record (committed_revision sequence : N) (fingerprint : string) : json :=
  j_object [("committed_revision", j_uint committed_revision); ("flush_seq", j_uint sequence);
            ("kind", j_string "complete"); ("pattern_fingerprint", j_string fingerprint)].

Definition complete_flush (j : ActiveSequenceJournal) (session : SequenceSessionId)
    (sequence committed_revision : N) (fingerprint : string) : Result (Append ()) :=
  if negb (is_valid_uuid (value session)) || negb (lowercase_sha256 fingerprint) then
    invalid "Sequence completion is invalid"
  else if negb (bool_decide (session_id j = session)) || has_value (capture_commit j) then
    invalid "Sequence session does not match"
  else match find_flush sequence (flushes j) with
  | None => failure (plain_error not_found "Sequence flush does not exist")
  | Some f =>
      if flush_completed f then success (Unchanged ())
      else success (append_record (complete_record committed_revision sequence fingerprint) ())
  end.

(** When the state is the session's already, the journal is made durable again,
    without a record. *)
Definition set_session_state (j : ActiveSequenceJournal) (session : SequenceSessionId)
    (s : SequenceSessionState) : Result (Append ()) :=
  if negb (bool_decide (session_id j = session)) || has_value (capture_commit j) then
    invalid "Sequence session does not match"
  else if bool_decide (session_state j = s) then success (Unchanged ())
  else success (append_record
         (j_object [("kind", j_string "state"); ("state", j_string (state_string s))]) ()).

Definition rebase (j : ActiveSequenceJournal) (session : SequenceSessionId) (revision : N) :
    Result (Append ()) :=
  if negb (bool_decide (session_id j = session)) || (revision <=? journal_revision j) ||
     has_value (capture_commit j) || negb (recording (session_state j)) ||
     negb (all_completed (flushes j)) then invalid "Sequence rebase does not match the active session"
  else success (append_record
         (j_object [("expected_revision", j_uint revision); ("kind", j_string "rebase")]) ()).

Definition target_mismatch {A} (message : string) : Result A :=
  failure (reason_error invalid_argument message "armed_capture_target_mismatch").

Definition capture_complete_record (command : CommandId) (committed : N) (s : PadSlotId) : json :=
  j_object [("command_id", j_string (value command)); ("committed_revision", j_uint committed);
            ("kind", j_string "capture-complete"); ("slot", slot_json s)].

Definition complete_armed_capture (j : ActiveSequenceJournal) (session : SequenceSessionId)
    (command : CommandId) (s : PadSlotId) (committed : N) : Result (Append ()) :=
  if negb (is_valid_uuid (value session)) || negb (is_valid_uuid (value command)) ||
     negb (is_valid_slot s) then invalid "armed Capture completion identity is invalid"
  else if negb (bool_decide (session_id j = session)) ||
          negb match capture_commit j with
               | Some c => bool_decide (capture_command c = command) &&
                           bool_decide (capture_slot c = s) &&
                           (capture_revision c =? journal_revision j)
               | None => false
               end ||
          negb (bool_decide (armed_capture_slot j = Some s)) ||
          negb (committed =? u64_add (journal_revision j) 1) ||
          negb (recording (session_state j)) || negb (all_completed (flushes j)) then
    target_mismatch "armed Capture completion does not match the active session"
  else success (append_record (capture_complete_record command committed s) ()).

Definition prepare_armed_capture (j : ActiveSequenceJournal) (session : SequenceSessionId)
    (c : SequenceCaptureCommit) : Result (Append ()) :=
  if negb (is_valid_uuid (value session)) || negb (is_valid_uuid (value (capture_command c))) ||
     negb (is_valid_uuid (value (capture_asset c))) || negb (is_valid_slot (capture_slot c)) ||
     negb (lowercase_sha256 (sha256 (capture_artifact c))) ||
     bool_decide (media_type (capture_artifact c) = "") then
    invalid "armed Capture preparation identity is invalid"
  else if negb (bool_decide (session_id j = session)) ||
          negb (bool_decide (armed_capture_slot j = Some (capture_slot c))) ||
          has_value (capture_commit j) || negb (capture_revision c =? journal_revision j) ||
          negb (recording (session_state j)) || negb (all_completed (flushes j)) then
    target_mismatch "armed Capture preparation does not match the active session"
  else success (append_record (capture_json c) ()).

Definition disarm_record (s : PadSlotId) : json :=
  j_object [("kind", j_string "capture-disarm"); ("slot", slot_json s)].

Definition disarm_capture (j : ActiveSequenceJournal) (session : SequenceSessionId) (s : PadSlotId) :
    Result (Append ()) :=
  if negb (is_valid_uuid (value session)) || negb (is_valid_slot s) then
    invalid "armed Capture disarm identity is invalid"
  else if negb (bool_decide (session_id j = session)) || negb (recording (session_state j)) then
    failure (reason_error invalid_argument
      "armed Capture disarm does not match the active session" "sequence_owner_mismatch")
  else match armed_capture_slot j with
  | None => success (Unchanged ())
  | Some armed =>
      if negb (bool_decide (armed = s)) then
        target_mismatch "armed Capture disarm target does not match"
      else if has_value (capture_commit j) then
        failure (MkError _ invalid_argument "armed Capture commit must be reconciled before disarm"
          (j_object [("reason", j_string "armed_capture_recovery_pending");
                     ("remedy", j_string "retry or reconcile the durable Capture commit first")]))
      else success (append_record (disarm_record s) ())
  end.

Record SequenceCaptureDisarmResult := MkDisarmResult {
  reconciled_commit : bool;
  disarm_revision : N
}.

(** [inspect_truth] tells the revision at which the Project holds the Capture, if
    it does; it may be an empty function. *)
Definition resolve_capture_disarm (j : ActiveSequenceJournal) (session : SequenceSessionId)
    (s : PadSlotId) (inspect_truth : option (SequenceCaptureCommit → Result (option N))) :
    Result (Append SequenceCaptureDisarmResult) :=
  match inspect_truth with
  | None => invalid "checked armed Capture disarm identity is invalid"
  | Some inspect =>
      if negb (is_valid_uuid (value session)) || negb (is_valid_slot s) then
        invalid "checked armed Capture disarm identity is invalid"
      else if negb (bool_decide (session_id j = session)) || negb (recording (session_state j)) then
        failure (reason_error invalid_argument
          "checked armed Capture disarm does not match the active session" "sequence_owner_mismatch")
      else match armed_capture_slot j with
      | None => success (Unchanged (MkDisarmResult false (journal_revision j)))
      | Some armed =>
          if negb (bool_decide (armed = s)) then
            target_mismatch "checked armed Capture disarm target does not match"
          else match capture_commit j with
          | None => success (append_record (disarm_record s) (MkDisarmResult false (journal_revision j)))
          | Some c =>
              truth ← inspect c;
              match truth with
              | Some committed =>
                  if negb (committed =? u64_add (capture_revision c) 1) then
                    failure (MkError _ invalid_project
                      "checked armed Capture receipt revision is invalid"
                      (j_object [("reason", j_string "armed_capture_recovery_conflict");
                                 ("remedy", j_string
                                    "inspect the committed Capture receipt and Project Truth")]))
                  else success (append_record (capture_complete_record (capture_command c) committed s)
                                  (MkDisarmResult true committed))
              | None =>
                  success (append_record
                    (j_object [("command_id", j_string (value (capture_command c)));
                               ("expected_revision", j_uint (capture_revision c));
                               ("kind", j_string "capture-abort"); ("slot", slot_json s)])
                    (MkDisarmResult false (capture_revision c)))
              end
          end
      end
  end.

Definition switch_record (pattern : PatternId) (bars : N) (fingerprint : string) (revision : N) : json :=
  j_object [("bars", j_uint bars); ("expected_revision", j_uint revision);
            ("kind", j_string "switch"); ("pattern_fingerprint", j_string fingerprint);
            ("pattern_id", j_string (value pattern))].

Definition switch_pattern (j : ActiveSequenceJournal) (session : SequenceSessionId)
    (pattern : PatternId) (bars : N) (fingerprint : string) (revision : N) : Result (Append ()) :=
  if negb (is_valid_uuid (value session)) || negb (is_valid_uuid (value pattern)) ||
     negb (valid_bars bars) || negb (lowercase_sha256 fingerprint) then
    invalid "Sequence switch metadata is invalid"
  else if blocks_switch j pattern || negb (bool_decide (session_id j = session)) ||
          bool_decide (journal_pattern j = pattern) || negb (journal_revision j =? revision) ||
          has_value (capture_commit j) || negb (recording (session_state j)) ||
          negb (all_completed (flushes j)) then
    invalid "Sequence switch does not match the active session"
  else success (append_record (switch_record pattern bars fingerprint revision) ()).

(** ** Admission records *)

(** [append_admission_record]: the record is tried on the journal read first; an
    exact retry appends nothing.  [validate_admission_project] looks for the
    Project of a preparation in the Project's files. *)
Definition admission_record (session : SequenceSessionId) (identity : SequenceAdmissionIdentity)
    (kind : string) (data : json) : json :=
  j_object [("kind", j_string kind); ("session_id", j_string (value session));
            ("identity", encode identity); ("data", data)].

Context (validate_admission_project : ProjectId → Result ()).

Definition append_admission_record (d : JournalDocument) (session : SequenceSessionId)
    (identity : SequenceAdmissionIdentity) (kind : string) (data : json) : Result (Append ()) :=
  let record := admission_record session identity kind data in
  catch_all (λ what, MkError _ invalid_argument what (j_object [("journal_retained", j_bool true)]))
    ('(applied, tentative, _) ← apply (journal d) record (Some (admission_candidate_bytes d));
     if negb applied then returned (Unchanged ())
     else
       (if bool_decide (kind = "admission-prepare") then
          s ← library (admission tentative);
          returning (validate_admission_project (preparation_project (preparation s)))
        else returned ());;
       returned (append_record record ())).

Definition prepare_admission d session (p : SequenceAdmissionPreparation) : Result (Append ()) :=
  append_admission_record d session (preparation_identity p) "admission-prepare" (encode p).
Definition append_admission_candidate d session identity (c : SequenceAdmissionCandidate) :=
  append_admission_record d session identity "admission-candidate" (encode c).
Definition retain_admission_fence d session identity (f : SequenceAdmissionFence) :=
  append_admission_record d session identity "admission-fence" (encode f).
Definition retain_admission_switch d session identity (a : SequencePublicationAuthority) :=
  append_admission_record d session identity "admission-switch" (encode a).
Definition retain_admission_overlay d session identity (g : N) :=
  append_admission_record d session identity "admission-overlay"
    (j_object [("publication_generation", j_uint g)]).
Definition close_admission d session identity (c : SequenceAdmissionClosure) :=
  append_admission_record d session identity "admission-close" (encode c).
Definition retain_admission_timing_profile d session identity (p : SequenceAdmissionTimingProfile) :=
  append_admission_record d session identity "admission-profile" (encode p).
Definition transfer_admission_prefix d session identity (t : SequenceAdmissionTransfer) :=
  append_admission_record d session identity "admission-transfer" (encode t).
Definition complete_admission d session identity :=
  append_admission_record d session identity "admission-complete" j_null.

Definition sequence_admission_candidate_receipt (c : SequenceAdmissionCandidate) :
    SequenceCandidateReceipt := MkCandidateReceipt (watermark c) (digest (encode c)).
Definition sequence_admission_candidates_sha256 (l : list SequenceAdmissionCandidate) : string :=
  digest (j_array (encode <$> l)).
Definition sequence_pattern_fingerprint (p : Pattern) : string :=
  digest (j_object [("bars", j_uint (bars p));
                    ("events", events_json (merge_pattern_events [] (events p)))]).
End journal.

Arguments append_record {_ _} record result.
Arguments Unchanged {_ _} result.

Section recovery.
Context `{JL : JsonLib} `{TL : !TextLib} (path : string).

Definition flush_snapshot (f : SequenceFlushRecord) : json :=
  j_set (j_set (flush_json f) "completed" (j_bool (flush_completed f))) "recovery_events"
    (events_json (recovery_events f)).

Definition journal_json (j : ActiveSequenceJournal) : json :=
  j_object
    [("admission", match admission j with Some s => encode s | None => j_null end);
     ("armed_capture_slot", optional_slot_json (armed_capture_slot j));
     ("bars", j_uint (journal_bars j));
     ("capture_commit", match capture_commit j with Some c => capture_json c | None => j_null end);
     ("expected_revision", j_uint (journal_revision j));
     ("flushes", j_array (flush_snapshot <$> flushes j));
     ("last_input_sequence", match last_input_sequence j with Some n => j_uint n | None => j_null end);
     ("next_flush_seq", j_uint (next_flush_seq j)); ("next_tail_seq", j_uint (next_tail_seq j));
     ("pattern_fingerprint", j_string (pattern_fingerprint j));
     ("pattern_id", j_string (value (journal_pattern j)));
     ("pending_events", events_json (pending_events j));
     ("session_id", j_string (value (session_id j)));
     ("state", j_string (state_string (session_state j)))].

(** [seal]: the document, once the session is over. *)
Definition seal (j : ActiveSequenceJournal) (session : SequenceSessionId) (reason : string) :
    Result json :=
  if bool_decide (reason = "") then
    failure (plain_error invalid_argument "Sequence recovery reason is empty")
  else if negb (bool_decide (session_id j = session)) then
    failure (plain_error invalid_argument "Sequence session does not match")
  else success (j_object
    [("contract", j_string (recovery_contract (recording_protocol sequence_session)));
     ("journal", journal_json (set_state j SequenceSessionState.owner_lost));
     ("reason", j_string reason)]).

Definition parse_flush_snapshot (loop_length : N) (encoded : json) : Outcome SequenceFlushRecord :=
  require (is_object encoded && Nat.eqb (j_size encoded) 9) "recovery flush record grammar is invalid";;
  kind ← at_ encoded "kind";
  require (j_eq_string kind "flush") "recovery flush record grammar is invalid";;
  events ← at_ encoded "events";
  require (is_array events) "recovery flush record grammar is invalid";;
  recovery ← at_ encoded "recovery_events";
  require (is_array recovery) "recovery flush record grammar is invalid";;
  sequence ← integer_at 64 encoded "flush_seq";
  command ← id_at encoded "command_id";
  pattern ← id_at encoded "pattern_id";
  revision ← integer_at 64 encoded "expected_revision";
  done ← get_bool_at encoded "completed";
  require (is_valid_uuid (value command) && is_valid_uuid (value pattern))
    "recovery flush identity is invalid";;
  canonical ← parse_events path (j_items events) loop_length;
  version ← integer_at 64 encoded "payload_version";
  require (version =? 2) "recovery flush payload version is invalid";;
  residual ← parse_events path (j_items recovery) loop_length;
  require (bool_decide (merge_pattern_events [] canonical = canonical) &&
           bool_decide (merge_pattern_events [] residual = residual) &&
           forallb (λ e, bool_decide (e ∈ canonical)) residual)
    "recovery flush payload or residual is invalid";;
  returned (MkFlushRecord sequence command pattern revision canonical residual done).

Definition parse_snapshot_fields (input : json) : Outcome ActiveSequenceJournal :=
  session ← id_at input "session_id";
  pattern ← id_at input "pattern_id";
  bars ← integer_at 8 input "bars";
  fingerprint ← get_string_at input "pattern_fingerprint";
  revision ← integer_at 64 input "expected_revision";
  next_flush ← integer_at 64 input "next_flush_seq";
  text ← get_string_at input "state";
  s ← parse_state text;
  at_ input "armed_capture_slot";;
  armed ← optional_slot input "armed_capture_slot";
  jc ← at_ input "capture_commit";
  capture ← (if is_null jc then returned None
             else c ← parse_capture path jc; returned (Some c));
  require (is_valid_uuid (value session) && is_valid_uuid (value pattern) && valid_bars bars &&
           lowercase_sha256 fingerprint) "recovery metadata is invalid";;
  let loop_length := pattern_length_ticks bars in
  next_tail ← integer_at 64 input "next_tail_seq";
  jl ← at_ input "last_input_sequence";
  sequence ← (if is_null jl then returned None
              else n ← sequence_integer 64 jl; returned (Some n));
  pending ← at_ input "pending_events";
  require (is_array pending) "recovery event and flush fields must be arrays";;
  jf ← at_ input "flushes";
  require (is_array jf) "recovery event and flush fields must be arrays";;
  events ← parse_events path (j_items pending) loop_length;
  require (bool_decide (merge_pattern_events [] events = events)) "recovery tail is not canonical";;
  l ← traverse (parse_flush_snapshot loop_length) (j_items jf);
  let j := MkSequenceJournal session pattern bars fingerprint revision next_flush s l armed capture
             next_tail sequence events None in
  ja ← at_ input "admission";
  if is_null ja then returned j
  else a ← snapshot ja j; returned (set_admission j a).

Definition recovery_error (what : string) : Error :=
  MkError _ invalid_project "Sequence recovery payload is invalid and has been retained"
    (j_object [("detail", j_string what); ("path", j_string path);
               ("reason", j_string "sequence_recovery_payload_invalid");
               ("recovery_retained", j_bool true);
               ("remedy", j_string
                  "retain the recovery file; repair its versioned payload or discard this recovery candidate explicitly")]).

Definition parse_journal_snapshot (input : json) : Result ActiveSequenceJournal :=
  catch_all recovery_error (parse_snapshot_fields input).

(** [remove_active_if_complete]: whether the journal may be removed. *)
Definition remove_active_if_complete (j : ActiveSequenceJournal) (session : SequenceSessionId) :
    Result () :=
  if negb (bool_decide (session_id j = session)) then
    failure (plain_error invalid_argument "Sequence session does not match")
  else if negb (all_completed (flushes j)) || negb (is_empty (pending_events j)) || admitting j then
    failure (plain_error invalid_argument "Sequence Journal still contains uncommitted events")
  else success ().
End recovery.
