(* ===== verification/AdmissionLaws.v ===== *)
(** What an accepted admission record does.

    For each kind of record, what [apply] checked when it changed the admission,
    and the state it left: the facts the invariants rest on. *)

From S2P Require Import Prelude Json Foundation Text Project Sequence Soundset Outcome Admission AdmissionCodec AdmissionMachine.

Section laws.
Context `{JL : JsonLib} `{TL : !TextLib}.
Implicit Types (s : SequenceAdmissionState) (j : ActiveSequenceJournal).

(** The state [s] accepts new records, and [j] is being recorded into. *)
Definition accepting s j : Prop :=
  completed s = false ∧ terminal_retained s = false ∧ recording (session_state j) = true.

Record candidate_accepted j s (replay : option N) (c : SequenceAdmissionCandidate) : Prop := {
  accepted_valid : candidate_valid c = returned ();
  accepted_open : accepting s j ∧ closure s = None;
  accepted_first : preparation_first_watermark (preparation s) ≤ watermark c;
  accepted_last w : last_watermark s = Some w → w < watermark c;
  accepted_count : N.of_nat (length (candidates s)) < candidate_limit (preparation s);
  accepted_size : value_or replay (candidate_bytes s) + candidate_size c ≤
                  candidate_byte_limit (preparation s)
}.

(** The state after a new candidate. *)
Definition with_candidate s (size : N) (c : SequenceAdmissionCandidate) : SequenceAdmissionState :=
  let s' := set_candidates s (candidates s ++ [c]) in
  if (N.of_nat (length (candidates s')) =? candidate_limit (preparation s)) ||
     (size =? candidate_byte_limit (preparation s))
  then set_closure s' (Some (MkAdmissionClosure (Some (watermark c))
                               SequenceAdmissionCloseReason.capacity))
  else s'.

Lemma advances_true o w : advances o w = true ↔ ∀ v, o = Some v → v < w.
Proof.
  unfold advances. destruct o as [v|]; [rewrite N.ltb_lt; split; [by intros ? ? [= <-]|]|done].
  intros H. by apply H.
Qed.

Lemma head_filter_none {A} (P : A → Prop) `{∀ x, Decision (P x)} l :
  head (filter P l) = None ↔ Forall (λ x, ¬ P x) l.
Proof.
  induction l as [|x l IH]; [by split|]. rewrite filter_cons, Forall_cons.
  case_decide; cbn [head]; [|tauto]. split; [done|tauto].
Qed.

Lemma head_filter_some {A} (P : A → Prop) `{∀ x, Decision (P x)} l x :
  head (filter P l) = Some x → x ∈ l ∧ P x.
Proof.
  intros Hh. assert (x ∈ filter P l) as Hx by (destruct (filter P l); simplify_eq/=; left).
  by apply list_elem_of_filter in Hx as [? ?].
Qed.

Lemma has_value_none {A} (o : option A) : has_value o = false ↔ o = None.
Proof. by destruct o. Qed.

Lemma has_value_some {A} (o : option A) : has_value o = true ↔ is_Some o.
Proof. destruct o; simpl; split; done. Qed.
End laws.

(** The checks of a function that returned, as propositions. *)
Ltac checks :=
  repeat match goal with
  | H : _ ≫= _ = returned _ |- _ => outcome_inv H
  | H : require _ _ = returned _ |- _ => apply require_returned in H
  | H : returned _ = returned _ |- _ => apply returned_inj in H
  | H : Some _ = Some _ |- _ => injection H as H
  | H : has_value _ = false |- _ => apply has_value_none in H
  | H : has_value _ = true |- _ => apply has_value_some in H
  | H : advances _ _ = true |- _ => pose proof (proj1 (advances_true _ _) H); clear H
  | x : () |- _ => destruct x
  | _ => progress bool_to_prop
  end.

Section steps.
Context `{JL : JsonLib} `{TL : !TextLib}.
Implicit Types (s : SequenceAdmissionState) (j : ActiveSequenceJournal).

Lemma apply_candidate_some j s replay data s' replay' :
  apply_candidate j s replay data = returned (Some (s', replay')) →
  ∃ c, decode data = returned c ∧ candidate_accepted j s replay c ∧
    let size := value_or replay (candidate_bytes s) + candidate_size c in
    s' = with_candidate s size c ∧ replay' = if has_value replay then Some size else None.
Proof.
  intros H. unfold apply_candidate in H. checks. rename x into c. exists c.
  split; [done|]. case_match; [checks; discriminate|].
  case_match; [checks; discriminate|]. checks.
  split; [by split|].
  unfold with_candidate. cbn [candidates set_candidates] in *.
  case_match; by injection H as <- <-.
Qed.

Record profile_accepted j s (p : SequenceAdmissionTimingProfile) : Prop := {
  profile_open : accepting s j ∧ closure s = None;
  profile_fenced : is_Some (admission_fence s);
  profile_settled : pending_switch s = None;
  profile_at_pattern : profile_pattern p = journal_pattern j;
  profile_at_generation : profile_generation p = segment_generation s;
  profile_at_revision : profile_revision p = journal_revision j;
  profile_base : ∃ base, checkpoint s (journal_pattern j) = returned base ∧
    last_runtime_frame base ≤ profile_frame p;
  profile_last w : last_watermark s = Some w → w < profile_watermark p;
  profile_checked : profiles_valid (set_profiles s (timing_profiles s ++ [p])) (journal_revision j) =
    returned ()
}.

Lemma apply_profile_some j s data s' :
  apply_profile j s data = returned (Some s') →
  ∃ p, decode data = returned p ∧ profile_accepted j s p ∧
    Forall (λ e, profile_command e ≠ profile_command p) (timing_profiles s) ∧
    s' = set_profiles s (timing_profiles s ++ [p]).
Proof.
  intros H. unfold apply_profile in H. checks. rename x into p. exists p. split; [done|].
  case_match eqn:E; checks; [discriminate|]. apply head_filter_none in E. subst.
  split; [|by split]. split; try done. eauto.
Qed.

Record switch_accepted j s (a : SequencePublicationAuthority) : Prop := {
  switch_uuid : is_valid_uuid (value (authority_pattern a)) = true;
  switch_fresh : find_switch (generation a) (applied_switches s) = None;
  switch_open : accepting s j;
  switch_fenced : is_Some (admission_fence s);
  switch_resolved p : pending_switch s = Some p → p = a ∧
    (∀ b, last (applied_switches s) = Some b → generation b ≤ segment_generation s);
  switch_beyond : ∃ current, segment s = returned current ∧ generation current < generation a;
  switch_base : ∃ base, checkpoint s (journal_pattern j) = returned base ∧
    last_runtime_frame base ≤ frame a;
  switch_agrees : is_Some (cutoff_fence s) → cutoff_switch s = Some a;
  switch_checked : switches_valid (set_switches s (applied_switches s ++ [a]) 0) = returned ()
}.

Lemma apply_switch_some j s data s' :
  apply_switch j s data = returned (Some s') →
  ∃ a, decode data = returned a ∧ switch_accepted j s a ∧
    s' = set_switches s (applied_switches s ++ [a]) 0.
Proof.
  intros H. unfold apply_switch, uuid in H. checks. rename x into a. exists a. split; [done|].
  case_match eqn:E; checks; [discriminate|]. subst. split; [|done].
  split; try done; eauto.
  - intros p Hp. rewrite Hp in *. checks. split; [done|]. intros b Hb. rewrite Hb in *. by checks.
  - intros [f Hf]. rewrite Hf in *. by checks.
Qed.

Record overlay_accepted j s (g : N) : Prop := {
  overlay_open : completed s = false ∧ terminal_retained s = false;
  overlay_fenced : is_Some (admission_fence s);
  overlay_running : cutoff_fence s = None;
  overlay_settled : pending_switch s = None;
  overlay_beyond : ∃ current, segment s = returned current ∧ generation current < g;
  overlay_advances : published_generation s < g
}.

Lemma apply_overlay_some j s data s' :
  apply_overlay j s data = returned (Some s') →
  ∃ g, field data "publication_generation" = returned g ∧ overlay_accepted j s g ∧
    s' = set_switches s (applied_switches s) g.
Proof.
  intros H. unfold apply_overlay in H. checks. rename x0 into g. exists g. split; [done|].
  case_match eqn:E; checks; [discriminate|]. subst. split; [|done]. split; eauto.
Qed.

(** The state after a fence. *)
Definition with_fence s (f : SequenceAdmissionFence) : SequenceAdmissionState :=
  if fence_kind f =? SequenceFenceKind.admission then set_fences s (Some f) (cutoff_fence s)
  else set_fences s (admission_fence s) (Some f).

Lemma apply_fence_some s data s' :
  apply_fence s data = returned (Some s') →
  ∃ f, decode data = returned f ∧ fence_valid f (preparation s) = returned () ∧
    completed s = false ∧
    (if fence_kind f =? SequenceFenceKind.admission then admission_fence s = None
     else cutoff_fence s = None) ∧
    s' = with_fence s f ∧ fences_valid s' = returned () ∧ switches_valid s' = returned ().
Proof.
  intros H. unfold apply_fence in H. checks. rename x into f. exists f. split; [done|].
  case_match eqn:E; checks; [discriminate|]. subst. split; [done|]. split; [done|].
  unfold with_fence in *. destruct (fence_kind f =? _); done.
Qed.

Lemma apply_close_some s data s' :
  apply_close s data = returned (Some s') →
  ∃ c, decode data = returned c ∧ closure s = None ∧ completed s = false ∧
    closure_valid c s = returned () ∧ s' = set_closure s (Some c).
Proof.
  intros H. unfold apply_close in H. checks. rename x into c. exists c. split; [done|].
  case_match eqn:E; checks; [discriminate|]. by subst.
Qed.

Lemma apply_complete_some j s s' :
  apply_complete j s = returned (Some s') →
  completed s = false ∧ terminal_retained s = true ∧ candidates s = [] ∧
  is_Some (closure s) ∧ is_Some (cutoff_fence s) ∧ pending_events j = [] ∧
  all_completed (flushes j) = true ∧ s' = set_completed s.
Proof.
  intros H. unfold apply_complete in H. case_match; checks; [discriminate|]. subst.
  destruct (candidates s), (pending_events j); try done. 
Qed.

(** ** Transfers *)

Definition receipt_of (c : SequenceAdmissionCandidate) : SequenceCandidateReceipt :=
  MkCandidateReceipt (watermark c) (digest (encode c)).

Definition consumed (t : SequenceAdmissionTransfer) : nat :=
  if terminal t then 0%nat else length (candidate_receipts t).

Record transfer_accepted j s (t : SequenceAdmissionTransfer)
    (previous : SequenceAdmissionCheckpoint) : Prop := {
  transfer_fresh : Forall (λ e, transfer_id e ≠ transfer_id t) (transfers s);
  transfer_open : accepting s j;
  transfer_fenced : is_Some (admission_fence s);
  transfer_at_pattern : transfer_pattern t = journal_pattern j;
  transfer_at_revision : transfer_revision t = journal_revision j;
  transfer_tail : tail_valid t (pattern_length_ticks (journal_bars j)) = returned ();
  transfer_base : checkpoint s (journal_pattern j) = returned previous;
  transfer_generation :
    checkpoint_generation (transfer_checkpoint t) = checkpoint_generation previous;
  transfer_frame : last_runtime_frame previous ≤ last_runtime_frame (transfer_checkpoint t);
  transfer_kind : if terminal t then terminal_transfer_valid s t = true
                  else prefix_transfer_valid j s t previous = returned ();
  transfer_sequence n : journal_input_sequence t = Some n →
    (∀ l, last_input_sequence j = Some l → l < n) ∧ next_tail_seq j ≠ 2 ^ 64 - 1
}.

(** The state and the journal after a transfer. *)
Definition with_transfer s (t : SequenceAdmissionTransfer) : SequenceAdmissionState :=
  set_candidates (set_transfers s (transfers s ++ [t])) (drop (consumed t) (candidates s)).

Definition transferred j s (t : SequenceAdmissionTransfer) : ActiveSequenceJournal :=
  set_admission
    match journal_input_sequence t with
    | Some n => set_tail j (Some n) (next_tail_seq j + 1) (recoverable_tail t)
    | None => set_tail j (last_input_sequence j) (next_tail_seq j) (recoverable_tail t)
    end (with_transfer s t).

Definition released (replay : option N) s (t : SequenceAdmissionTransfer) : option N :=
  (λ r, foldl (λ r c, u64_sub r (candidate_size c)) r (take (consumed t) (candidates s))) <$> replay.

Lemma apply_transfer_some j s replay data j' replay' :
  apply_transfer j s replay data = returned (Some (j', replay')) →
  ∃ t previous, decode data = returned t ∧ transfer_accepted j s t previous ∧
    j' = transferred j s t ∧ replay' = released replay s t.
Proof.
  intros H. unfold apply_transfer in H. apply bind_returned in H as (t & Ht & H). exists t.
  case_match eqn:E; checks; [discriminate|]. apply head_filter_none in E.
  match goal with H : checkpoint _ _ = returned ?p |- _ => exists p end. split; [done|].
  subst.
  split.
  - split; try done.
    + destruct (terminal t); by checks.
    + intros n Hn. rewrite Hn in *. checks. by split.
  - unfold transferred, released, consumed. split; [|done].
    destruct (journal_input_sequence t); checks; subst; done.
Qed.

Lemma receipts_match_returned receipts prefix : length receipts = length prefix →
  receipts_match receipts prefix = returned () → receipts = receipt_of <$> prefix.
Proof.
  revert prefix. induction receipts as [|r l IH]; intros [|c prefix] Hlen H; try done.
  cbn [receipts_match] in H. checks. cbn in Hlen. rewrite fmap_cons. f_equal; [|by apply IH; [lia|]].
  destruct r; cbn in *. unfold receipt_of. by subst.
Qed.

Record prefix_facts j s (t : SequenceAdmissionTransfer) (previous : SequenceAdmissionCheckpoint) :
    Prop := {
  prefix_receipts : candidate_receipts t = receipt_of <$> take (consumed t) (candidates s);
  prefix_nonempty : candidate_receipts t ≠ [];
  prefix_length : (consumed t <= length (candidates s))%nat;
  prefix_first : Some (transfer_first t) = receipt_watermark <$> head (candidate_receipts t);
  prefix_last : Some (transfer_last t) = receipt_watermark <$> last (candidate_receipts t);
  prefix_digest : candidates_sha256 t = digest (j_array (encode <$> take (consumed t) (candidates s)));
  prefix_cutoff : is_Some (closure s) → is_Some (cutoff_fence s);
  prefix_excluded : journal_input_sequence t = None →
    recoverable_tail t = pending_events j ∧ transfer_checkpoint t = previous
}.

Lemma last_take {A} (l : list A) n : (0 < n <= length l)%nat → last (take n l) = l !! Nat.pred n.
Proof.
  intros Hn. rewrite last_lookup, length_take, Nat.min_l by lia. apply lookup_take_lt. lia.
Qed.

Lemma prefix_transfer_facts j s t previous : terminal t = false →
  prefix_transfer_valid j s t previous = returned () → prefix_facts j s t previous.
Proof.
  intros Ht H. unfold prefix_transfer_valid in H. checks.
  assert (consumed t = length (candidate_receipts t)) as Hc by (unfold consumed; by rewrite Ht).
  rewrite <- Hc in *.
  apply Nat.leb_le in H6. apply Nat.eqb_neq in H0.
  assert (candidate_receipts t = receipt_of <$> take (consumed t) (candidates s)) as Hr.
  { apply receipts_match_returned; [|done]. rewrite length_take. lia. }
  split; try done.
  - intros E. rewrite E in Hc. by rewrite Hc in H0.
  - rewrite Hr, H5. destruct (candidates s) as [|c l]; [cbn in *; lia|].
    by destruct (consumed t).
  - rewrite Hr, H4, fmap_last, last_take by lia. destruct (_ !! _); done.
  - intros Hs. rewrite (proj2 (has_value_some _) Hs) in H3. by checks.
  - intros E. rewrite E in H. cbn [has_value] in H. by checks.
Qed.

Record terminal_facts s (t : SequenceAdmissionTransfer) : Prop := {
  terminal_cutoff : is_Some (cutoff_fence s);
  terminal_closure : is_Some (closure s);
  terminal_drained : candidates s = [];
  terminal_settled : pending_switch s = None;
  terminal_bounds : transfer_first t = 0 ∧ transfer_last t = 0;
  terminal_receipts : candidate_receipts t = [];
  terminal_digest : candidates_sha256 t = digest (j_array []);
  terminal_presses : owned_presses (transfer_checkpoint t) = [];
  terminal_sequence : journal_input_sequence t = None;
  terminal_pattern : Some (transfer_pattern t) = fence_pattern <$> cutoff_fence s
}.

Lemma is_empty_true {A} (l : list A) : is_empty l = true ↔ l = [].
Proof. by destruct l. Qed.

Lemma terminal_transfer_facts s t : terminal_transfer_valid s t = true → terminal_facts s t.
Proof.
  intros H. unfold terminal_transfer_valid in H. checks.
  repeat match goal with H : is_empty _ = true |- _ => apply is_empty_true in H end. by split.
Qed.

(** ** Every change of an admission *)

(** What a record other than the preparation does to the journal [j], its
    admission [s] and the running sum, and the candidates it admits. *)
Inductive admission_change j s (replay : option N) :
    list SequenceAdmissionCandidate → ActiveSequenceJournal → option N → Prop :=
  | changed_profile p :
      typed p → profile_accepted j s p →
      Forall (λ e, profile_command e ≠ profile_command p) (timing_profiles s) →
      admission_change j s replay [] (set_admission j (set_profiles s (timing_profiles s ++ [p]))) replay
  | changed_candidate c :
      typed c → candidate_accepted j s replay c →
      let size := value_or replay (candidate_bytes s) + candidate_size c in
      admission_change j s replay [c] (set_admission j (with_candidate s size c))
        (if has_value replay then Some size else None)
  | changed_switch a :
      typed a → switch_accepted j s a →
      admission_change j s replay []
        (set_admission j (set_switches s (applied_switches s ++ [a]) 0)) replay
  | changed_overlay g :
      g < 2 ^ 64 → overlay_accepted j s g →
      admission_change j s replay [] (set_admission j (set_switches s (applied_switches s) g)) replay
  | changed_fence f :
      typed f → fence_valid f (preparation s) = returned () → completed s = false →
      (if fence_kind f =? SequenceFenceKind.admission then admission_fence s = None
       else cutoff_fence s = None) →
      fences_valid (with_fence s f) = returned () → switches_valid (with_fence s f) = returned () →
      admission_change j s replay [] (set_admission j (with_fence s f)) replay
  | changed_close c :
      typed c → closure s = None → completed s = false → closure_valid c s = returned () →
      admission_change j s replay [] (set_admission j (set_closure s (Some c))) replay
  | changed_transfer t previous :
      typed t → transfer_accepted j s t previous →
      admission_change j s replay [] (transferred j s t) (released replay s t)
  | changed_complete :
      completed s = false → terminal_retained s = true → candidates s = [] →
      is_Some (closure s) → is_Some (cutoff_fence s) → pending_events j = [] →
      admission_change j s replay [] (set_admission j (set_completed s)) replay.

(** The two ends of [apply] once the record reached its function. *)
Definition change_or_retry j s (replay : option N) (kind : string) (data : json) (r : Applied) :
    Prop :=
  match r with
  | (true, j', replay') =>
      ∃ news, admission_change j s replay news j' replay' ∧
        (news = [] ∨ kind = "admission-candidate" ∧ ∃ c, decode data = returned c ∧ news = [c])
  | (false, j', replay') => j' = j ∧ replay' = replay
  end.

Lemma apply_kind_change j s replay kind data r :
  apply_kind j s replay kind data = returned r → change_or_retry j s replay kind data r.
Proof.
  intros H. unfold apply_kind in H.
  repeat (case_bool_decide; [apply bind_returned in H as (o & Ho & <-%returned_inj)|]).
  - destruct o as [s'|]; [|done]. apply apply_profile_some in Ho as (p & Hp & ? & ? & ->).
    apply decode_typed in Hp. eexists. split; [by constructor|by left].
  - destruct o as [[s' r']|]; [|done]. apply apply_candidate_some in Ho as (c & Hc & ? & -> & ->).
    eexists. split; [constructor; [by apply decode_typed in Hc|done]|eauto].
  - destruct o as [s'|]; [|done]. apply apply_switch_some in Ho as (a & Ha & ? & ->).
    apply decode_typed in Ha. eexists. split; [by constructor|by left].
  - destruct o as [s'|]; [|done]. apply apply_overlay_some in Ho as (g & Hg & ? & ->).
    apply field_typed in Hg. eexists. split; [by constructor|by left].
  - destruct o as [s'|]; [|done]. apply apply_fence_some in Ho as (f & Hf & ? & ? & ? & -> & ? & ?).
    apply decode_typed in Hf. eexists. split; [by constructor|by left].
  - destruct o as [s'|]; [|done]. apply apply_close_some in Ho as (c & Hc & ? & ? & ? & ->).
    apply decode_typed in Hc. eexists. split; [by constructor|by left].
  - destruct o as [[j' r']|]; [|done].
    apply apply_transfer_some in Ho as (t & previous & Ht & ? & -> & ->).
    apply decode_typed in Ht. eexists. split; [by econstructor|by left].
  - apply bind_returned in H as ([] & _ & H).
    apply bind_returned in H as (o & Ho & <-%returned_inj).
    destruct o as [s'|]; [|done].
    apply apply_complete_some in Ho as (? & ? & ? & ? & ? & ? & ? & ->).
    eexists. split; [by constructor|by left].
Qed.

(** The admission a preparation opens. *)
Definition prepared (p : SequenceAdmissionPreparation) : SequenceAdmissionState :=
  MkAdmissionState p [] None None None [] [] (preparation_generation p) 0 false [].

(** A call of [apply] that returned passed the checks of the envelope, which
    depend on the record and the session only. *)
Lemma apply_returned j record replay r :
  apply j record replay = returned r →
  ∃ identity kind data, get_string_at record "kind" = returned kind ∧
    record_bound record = returned () ∧ at_ record "data" = returned data ∧
    apply_dispatch j identity replay kind data = returned r ∧
    ∀ j' replay', session_id j' = session_id j →
      apply j' record replay' = apply_dispatch j' identity replay' kind data.
Proof.
  intros H. unfold apply in H.
  apply bind_returned in H as ([] & H1 & H). apply bind_returned in H as ([] & H2 & H).
  apply bind_returned in H as (session & H3 & H). apply bind_returned in H as ([] & H4 & H).
  apply bind_returned in H as ([] & H5 & H). apply bind_returned in H as (identity & H6 & H).
  apply bind_returned in H as ([] & H7 & H). apply bind_returned in H as (kind & H8 & H).
  apply bind_returned in H as (data & H9 & H).
  exists identity, kind, data. split_and!; try done. intros j' replay' Ej.
  unfold apply. rewrite H1, H2, H3, Ej. cbn [mbind outcome_bind].
  rewrite H4. cbn [mbind outcome_bind]. rewrite H5. cbn [mbind outcome_bind].
  rewrite H6. cbn [mbind outcome_bind]. rewrite H7. cbn [mbind outcome_bind].
  rewrite H8. cbn [mbind outcome_bind]. by rewrite H9.
Qed.

(** What a call of [apply] did. *)
Inductive apply_effect j (kind : string) (data : json) (replay : option N) :
    Applied → Prop :=
  | applied_first p : kind = "admission-prepare" → admission j = None →
      typed p → preparation_valid p = returned () →
      session_state j = SequenceSessionState.active → preparation_pattern p = journal_pattern j →
      apply_effect j kind data replay (true, set_admission j (prepared p), replay)
  | applied_change s news j' replay' : kind ≠ "admission-prepare" → admission j = Some s →
      admission_change j s replay news j' replay' →
      news = [] ∨ kind = "admission-candidate" ∧ (∃ c, decode data = returned c ∧ news = [c]) →
      apply_effect j kind data replay (true, j', replay')
  | applied_retry : apply_effect j kind data replay (false, j, replay).

Lemma apply_dispatch_effect j identity replay kind data r :
  apply_dispatch j identity replay kind data = returned r → apply_effect j kind data replay r.
Proof.
  intros H. unfold apply_dispatch in H. case_bool_decide as Hk.
  - unfold apply_prepare in H. apply bind_returned in H as (p & Hp & H).
    apply bind_returned in H as ([] & Hv & H). apply bind_returned in H as ([] & _ & H).
    destruct (admission j) eqn:E; checks; subst; [constructor|].
    apply decode_typed in Hp. by constructor.
  - apply bind_returned in H as ([] & _ & H). apply bind_returned in H as (s & Hs & H).
    apply bind_returned in H as ([] & _ & H). apply library_returned in Hs.
    apply apply_kind_change in H. destruct r as [[[] j'] replay']; cbn in H.
    + destruct H as (news & Hc & Hn). by econstructor.
    + destruct H as [-> ->]. constructor.
Qed.
End steps.
