(* ===== verification/AdmissionLog.v ===== *)
(** The durable log of admitted input.

    An abstract view of an admission: the watermarks and digests of every input it
    has admitted, whether still outstanding or transferred.  Replaying any journal
    keeps this log strictly increasing and only ever appends to it; the running
    sum of the replay is the size of what is outstanding, within the capacity; an
    exact retry of an admission record is recognised and not written again. *)

From S2P Require Import Prelude Json Foundation Text Project Sequence Soundset Outcome Admission AdmissionCodec AdmissionMachine Journal AdmissionLaws.

Section log.
Context `{JL : JsonLib} `{TL : !TextLib}.
Implicit Types (s : SequenceAdmissionState) (j : ActiveSequenceJournal).

(** ** The log *)

Definition log_entry : Type := N * string.

Definition entry_of_receipt (r : SequenceCandidateReceipt) : log_entry :=
  (receipt_watermark r, payload_sha256 r).
Definition entry_of (c : SequenceAdmissionCandidate) : log_entry :=
  (watermark c, digest (encode c)).

Definition admitted s : list log_entry :=
  (entry_of_receipt <$> all_receipts s) ++ (entry_of <$> candidates s).

Definition journal_log j : list log_entry :=
  match admission j with Some s => admitted s | None => [] end.

(** ** The invariant *)

(** A terminal transfer carries no receipt, another one ends at its last. *)
Definition transfer_shape (t : SequenceAdmissionTransfer) : Prop :=
  if terminal t then candidate_receipts t = []
  else candidate_receipts t ≠ [] ∧
       Some (transfer_last t) = receipt_watermark <$> last (candidate_receipts t).

Definition full s : Prop :=
  N.of_nat (length (candidates s)) = candidate_limit (preparation s) ∨
  candidate_bytes s = candidate_byte_limit (preparation s).

Record log_ok s : Prop := {
  log_prepared : preparation_valid (preparation s) = returned ();
  log_sorted : StronglySorted N.lt (admitted s).*1;
  log_from : Forall (λ w, preparation_first_watermark (preparation s) ≤ w) (admitted s).*1;
  log_shapes : Forall transfer_shape (transfers s);
  log_count : N.of_nat (length (candidates s)) ≤ candidate_limit (preparation s);
  log_bytes : candidate_bytes s ≤ candidate_byte_limit (preparation s);
  log_closed : full s → is_Some (closure s)
}.

Definition document_ok (d : JournalDocument) : Prop :=
  match admission (journal d) with
  | Some s => saw_begin d = true ∧ log_ok s ∧ admission_candidate_bytes d = candidate_bytes s
  | None => admission_candidate_bytes d = 0
  end.

(** ** Sums and prefixes *)

Lemma foldl_sizes l n :
  foldl (λ size c, size + candidate_size c) n l = n + foldl (λ size c, size + candidate_size c) 0 l.
Proof.
  revert n. induction l as [|c l IH]; intros n; cbn [foldl]; [lia|].
  rewrite (IH (n + _)), (IH (0 + _)). lia.
Qed.

Lemma candidate_bytes_app s l l' : candidates s = l ++ l' →
  candidate_bytes s = candidate_bytes (set_candidates s l) + candidate_bytes (set_candidates s l').
Proof.
  intros E. unfold candidate_bytes. cbn [candidates set_candidates].
  by rewrite E, foldl_app, foldl_sizes.
Qed.

Lemma released_sizes l n : n < 2 ^ 64 → foldl (λ size c, size + candidate_size c) 0 l ≤ n →
  foldl (λ r c, u64_sub r (candidate_size c)) n l =
    n - foldl (λ size c, size + candidate_size c) 0 l.
Proof.
  revert n. induction l as [|c l IH]; intros n Hn Hl; cbn [foldl] in *; [lia|].
  rewrite foldl_sizes in Hl |- *. rewrite u64_sub_le by lia. rewrite IH by lia. lia.
Qed.

Lemma admitted_with_transfer s t j previous :
  transfer_accepted j s t previous → admitted (with_transfer s t) = admitted s.
Proof.
  intros [_ _ _ _ _ _ _ _ _ Hk _]. unfold admitted, all_receipts, with_transfer.
  cbn [transfers candidates set_candidates set_transfers].
  rewrite fmap_app, join_app, fmap_app. cbn [fmap list_fmap mjoin list_join]. rewrite app_nil_r, <- app_assoc.
  f_equal. destruct (terminal t) eqn:Et.
  - apply terminal_transfer_facts in Hk. rewrite (terminal_receipts _ _ Hk).
    unfold consumed. by rewrite Et.
  - apply prefix_transfer_facts in Hk; [|done]. rewrite (prefix_receipts _ _ _ _ Hk).
    rewrite <- list_fmap_compose.
    rewrite <- (take_drop (consumed t) (candidates s)) at 3. by rewrite fmap_app.
Qed.

(** ** The last watermark is the end of the log *)

Lemma last_ordinary_receipts l : Forall transfer_shape l →
  transfer_last <$> last_ordinary l = receipt_watermark <$> last (mjoin (candidate_receipts <$> l)).
Proof.
  induction l as [|t l IH] using rev_ind; [done|].
  intros [Hl [Ht _]%Forall_cons]%Forall_app. unfold last_ordinary in *.
  rewrite filter_app, fmap_app, join_app. cbn [fmap list_fmap mjoin list_join].
  rewrite app_nil_r. unfold transfer_shape in Ht. rewrite filter_cons, filter_nil.
  destruct (terminal t) eqn:Et.
  - rewrite decide_False by done. rewrite Ht, !app_nil_r. by apply IH.
  - rewrite decide_True by done. destruct Ht as [Hne Hlast].
    rewrite last_snoc. cbn [fmap option_fmap option_map]. rewrite Hlast.
    destruct (candidate_receipts t) as [|r q] using rev_ind; [done|].
    by rewrite app_assoc, !last_snoc.
Qed.

Lemma last_watermark_log s : log_ok s → last_watermark s = fst <$> last (admitted s).
Proof.
  intros Hok. unfold last_watermark, admitted.
  destruct (candidates s) as [|c l _] eqn:E using rev_ind.
  - cbn [last fmap list_fmap]. rewrite app_nil_r, (last_ordinary_receipts _ (log_shapes _ Hok)).
    unfold all_receipts. rewrite fmap_last. by destruct (last _) as [[? ?]|].
  - rewrite fmap_app. cbn [fmap list_fmap]. by rewrite app_assoc, !last_snoc.
Qed.

(** ** Every change keeps the invariant and at most extends the log *)

Lemma sorted_snoc l w : StronglySorted N.lt l → (∀ v, last l = Some v → v < w) →
  StronglySorted N.lt (l ++ [w]).
Proof.
  intros Hl Hw. induction Hl as [|v l Hl IH Hv]; [by repeat constructor|]. cbn [app].
  constructor.
  - apply IH. intros u Hu. apply Hw. by rewrite last_cons, Hu.
  - apply Forall_app. split; [done|]. constructor; [|done]. destruct (last l) as [u|] eqn:E.
    + assert (v < u) by (eapply Forall_forall; [exact Hv|]; by apply last_Some_elem_of).
      assert (u < w) by (apply Hw; by rewrite last_cons, E). lia.
    + apply Hw. by rewrite last_cons, E.
Qed.

(** What the log does not depend on. *)
Lemma log_ok_same s s' :
  preparation s' = preparation s → candidates s' = candidates s → transfers s' = transfers s →
  (is_Some (closure s) → is_Some (closure s')) → log_ok s →
  log_ok s' ∧ admitted s' = admitted s ∧ candidate_bytes s' = candidate_bytes s.
Proof.
  intros Ep Ec Et Hc [H1 H2 H3 H4 H5 H6 H7].
  assert (admitted s' = admitted s) as Ea by (unfold admitted, all_receipts; by rewrite Ec, Et).
  assert (candidate_bytes s' = candidate_bytes s) as Eb by (unfold candidate_bytes; by rewrite Ec).
  split; [|done].
  split; rewrite ?Ep, ?Ea, ?Et, ?Ec, ?Eb; try done. intros Hf. apply Hc, H7. unfold full in *.
  by rewrite Ep, Ec, Eb in Hf.
Qed.

Lemma candidate_bytes_snoc s c :
  candidate_bytes (set_candidates s (candidates s ++ [c])) = candidate_bytes s + candidate_size c.
Proof. unfold candidate_bytes. cbn [candidates set_candidates]. by rewrite foldl_app. Qed.

Lemma candidates_with_candidate s size c : candidates (with_candidate s size c) = candidates s ++ [c].
Proof. unfold with_candidate. by case_match. Qed.

Lemma log_ok_candidate j s c : log_ok s → candidate_accepted j s (Some (candidate_bytes s)) c →
  let s' := with_candidate s (candidate_bytes s + candidate_size c) c in
  log_ok s' ∧ admitted s' = admitted s ++ [entry_of c] ∧
  candidate_bytes s' = candidate_bytes s + candidate_size c.
Proof.
  intros Hok [_ _ Hfirst Hlast Hcount Hsize] s'. cbn [value_or] in Hsize.
  assert (preparation s' = preparation s ∧ transfers s' = transfers s) as [Ep Et]
    by (unfold s', with_candidate; by case_match).
  assert (candidates s' = candidates s ++ [c]) as Ec by apply candidates_with_candidate.
  assert (admitted s' = admitted s ++ [entry_of c]) as Ea.
  { unfold admitted, all_receipts. rewrite Ec, Et, fmap_app. by rewrite app_assoc. }
  assert (candidate_bytes s' = candidate_bytes s + candidate_size c) as Eb.
  { rewrite <- candidate_bytes_snoc. unfold candidate_bytes. by rewrite Ec. }
  split; [|done]. rewrite (last_watermark_log s Hok) in Hlast. destruct Hok as [H1 H2 H3 H4 H5 H6 H7].
  split; rewrite ?Ep, ?Ea, ?Et, ?Eb, ?Ec, ?fmap_app, ?length_app; cbn [fmap list_fmap length].
  - done.
  - apply sorted_snoc; [done|]. intros v Hv. apply Hlast. by rewrite <- fmap_last.
  - apply Forall_app. by repeat constructor.
  - done.
  - lia.
  - done.
  - intros Hf. unfold full in Hf. rewrite Ep, Ec, Eb, length_app in Hf. unfold s', with_candidate.
    cbn [candidates set_candidates]. rewrite length_app. cbn [length] in *.
    case_match eqn:E; [done|]. bool_to_prop. lia.
Qed.

Lemma log_ok_transfer j s t previous : log_ok s → transfer_accepted j s t previous →
  let s' := with_transfer s t in
  log_ok s' ∧ admitted s' = admitted s ∧
  released (Some (candidate_bytes s)) s t = Some (candidate_bytes s').
Proof.
  intros Hok Ht s'. pose proof (admitted_with_transfer _ _ _ _ Ht) as Ea. fold s' in Ea.
  assert (candidate_bytes s = candidate_bytes (set_candidates s (take (consumed t) (candidates s))) +
          candidate_bytes s') as Eb.
  { change (candidate_bytes s') with
      (candidate_bytes (set_candidates s (drop (consumed t) (candidates s)))).
    apply candidate_bytes_app. by rewrite take_drop. }
  destruct Ht as [_ [_ [_ Hrec]] _ _ _ _ _ _ _ Hk _]. destruct Hok as [H1 H2 H3 H4 H5 H6 H7].
  assert (candidate_byte_limit (preparation s) < 2 ^ 64) as H64.
  { unfold preparation_valid in H1. checks. unfold kSequenceAdmissionCandidateBytes in *. u_lia. }
  split; [|split; [done|]].
  - split; rewrite ?Ea; try done.
    + unfold s', with_transfer. cbn [transfers set_candidates set_transfers]. apply Forall_app.
      split; [done|]. constructor; [|done]. unfold transfer_shape. destruct (terminal t) eqn:Et.
      * apply terminal_transfer_facts in Hk. by apply (terminal_receipts _ _ Hk).
      * apply prefix_transfer_facts in Hk; [|done]. by destruct Hk.
    + unfold s', with_transfer. cbn [candidates preparation set_candidates set_transfers].
      rewrite length_drop. lia.
    + unfold s', with_transfer in *. cbn [preparation set_candidates set_transfers] in *. lia.
    + intros Hf. apply H7. unfold full in *. change (preparation s') with (preparation s) in Hf.
      change (candidates s') with (drop (consumed t) (candidates s)) in Hf.
      rewrite length_drop in Hf. lia.
  - unfold released. cbn [fmap option_fmap option_map]. f_equal.
    unfold candidate_bytes in Eb at 2. cbn [candidates set_candidates] in Eb.
    rewrite released_sizes by lia. lia.
Qed.

(** The members of the journal no admission record changes. *)
Definition same_session j j' : Prop :=
  session_id j' = session_id j ∧ journal_pattern j' = journal_pattern j ∧
  journal_bars j' = journal_bars j ∧ journal_revision j' = journal_revision j ∧
  session_state j' = session_state j ∧ flushes j' = flushes j.

Lemma transferred_admission j s t : admission (transferred j s t) = Some (with_transfer s t).
Proof. unfold transferred. by destruct (journal_input_sequence t). Qed.

Lemma change_same_session j s replay news j' replay' :
  admission_change j s replay news j' replay' → same_session j j'.
Proof.
  destruct 1; try (by split_and!). unfold transferred. by destruct (journal_input_sequence t).
Qed.

Lemma change_log j s news j' replay' :
  log_ok s → admission_change j s (Some (candidate_bytes s)) news j' replay' →
  ∃ s', admission j' = Some s' ∧ log_ok s' ∧ admitted s' = admitted s ++ (entry_of <$> news) ∧
    replay' = Some (candidate_bytes s').
Proof.
  intros Hok H.
  assert (∀ s', preparation s' = preparation s → candidates s' = candidates s →
    transfers s' = transfers s → (is_Some (closure s) → is_Some (closure s')) →
    ∃ s'', Some s' = Some s'' ∧ log_ok s'' ∧ admitted s'' = admitted s ++ (entry_of <$> []) ∧
      Some (candidate_bytes s) = Some (candidate_bytes s'')) as Hsame.
  { intros s' E1 E2 E3 E4. destruct (log_ok_same s s' E1 E2 E3 E4 Hok) as (? & Ea & Eb).
    exists s'. cbn. by rewrite app_nil_r, Eb. }
  destruct H; try (by apply Hsame).
  - exists (with_candidate s size c).
    destruct (log_ok_candidate _ _ _ Hok H0) as (? & ? & Eb).
    split; [done|]. split; [done|]. split; [done|]. cbn [has_value].
    unfold size. cbn [value_or]. by rewrite Eb.
  - unfold with_fence. by case_match; apply Hsame.
  - exists (with_transfer s t). destruct (log_ok_transfer _ _ _ _ Hok H0) as (? & ? & ?).
    cbn [fmap list_fmap]. rewrite transferred_admission, app_nil_r. done.
Qed.

(** ** Replaying a journal *)

Context (path : string) (corrupt : string → string → Error).

Lemma at_reason_returned {A} reason message (r : Outcome A) a :
  at_reason corrupt reason message r = returned a ↔ r = returned a.
Proof. by destruct r. Qed.

(** What a record that is not about the admission does to it: a switch moves it
    to the segment of the switch that was pending. *)
Inductive plain_effect j j' : Prop :=
  | plain_kept :
      session_id j' = session_id j → journal_pattern j' = journal_pattern j →
      journal_bars j' = journal_bars j → admission j' = admission j → plain_effect j j'
  | plain_switched :
      session_id j' = session_id j → valid_bars (journal_bars j') = true →
      journal_revision j' = journal_revision j →
      match admission j with
      | Some s =>
          if completed s then admission j' = Some s
          else ∃ b, pending_switch s = Some b ∧ authority_pattern b = journal_pattern j' ∧
                    admission j' = Some (set_segment_generation s (generation b))
      | None => admission j' = None
      end → plain_effect j j'.

Lemma replay_switch_effect j payload j' :
  replay_switch j payload = returned j' → plain_effect j j'.
Proof.
  intros H. unfold replay_switch in H. checks. subst.
  match goal with H : reconcile_switch j = returned ?r |- _ => rename H into Hr; rename r into k end.
  match goal with H : blocks_switch j _ = false |- _ => rename H into Hb end.
  unfold blocks_switch in Hb. unfold reconcile_switch in Hr.
  destruct (admission j) as [s|] eqn:Ea; [destruct (completed s) eqn:Ec|].
  - apply returned_inj in Hr as <-. apply plain_switched; cbn; try done. by rewrite Ea, Ec.
  - checks. subst k. apply plain_switched; cbn; try done. rewrite Ea, Ec.
    match goal with H : pending_switch s = Some _ |- _ => rewrite H in *; rename H into Hp end.
    checks. eauto.
  - apply returned_inj in Hr as <-. apply plain_switched; cbn; try done. by rewrite Ea.
Qed.

Lemma replay_plain_effect j kind payload j' :
  replay_plain path corrupt j kind payload = returned j' → plain_effect j j'.
Proof.
  intros H. unfold replay_plain in H.
  repeat (case_bool_decide; [first [by eapply replay_switch_effect | apply plain_kept;
    unfold replay_tail, replay_flush, replay_complete, replay_state, replay_rebase,
      replay_capture_prepare, replay_capture_complete, replay_capture_abort,
      replay_capture_disarm in H; checks; by subst]|]). done.
Qed.

(** What a record does to the log of the journal. *)
Definition log_extended (payload : json) (l l' : list log_entry) : Prop :=
  l' = l ∨
  ∃ data c, get_string_at payload "kind" = returned "admission-candidate" ∧
    at_ payload "data" = returned data ∧ decode data = returned c ∧ l' = l ++ [entry_of c].

Lemma plain_effect_ok j j' n :
  plain_effect j j' → document_ok (MkDocument true j n) →
  document_ok (MkDocument true j' n) ∧ journal_log j' = journal_log j.
Proof.
  unfold document_ok, journal_log. cbn [saw_begin journal admission_candidate_bytes].
  intros [_ _ _ ->|_ _ _ H] Hok; [done|]. destruct (admission j) as [s|]; [|by rewrite H].
  destruct (completed s); [by rewrite H|]. destruct H as (b & _ & _ & ->). destruct Hok as (_ & Hok & ->).
  destruct (log_ok_same s (set_segment_generation s (generation b))) as (? & ? & ?); try done.
Qed.

Lemma prepared_ok p : preparation_valid p = returned () → log_ok (prepared p).
Proof.
  intros Hp. split; try done; cbn; try (constructor || lia).
  unfold preparation_valid in Hp. checks. intros [E|E]; cbn in E; by rewrite <- E in *.
Qed.

Lemma apply_ok j payload n j' replay' :
  document_ok (MkDocument true j n) → apply j payload (Some n) = returned (true, j', replay') →
  ∃ n', replay' = Some n' ∧ document_ok (MkDocument true j' n') ∧
    log_extended payload (journal_log j) (journal_log j').
Proof.
  intros Hok H. apply apply_returned in H as (identity & kind & data & Hk & _ & Hd & H & _).
  apply apply_dispatch_effect in H. unfold document_ok, journal_log, log_extended in *.
  cbn [saw_begin journal admission_candidate_bytes] in *. inversion H; subst; clear H.
  - match goal with H : admission j = None |- _ => rewrite H in * end. subst. exists 0.
    split; [done|]. cbn [set_admission admission]. split; [|by left]. split_and!; [done|by apply prepared_ok|done].
  - match goal with H : admission j = Some _ |- _ => rewrite H in * end. destruct Hok as (_ & Hok & ->).
    match goal with H : admission_change _ _ _ _ _ _ |- _ =>
      apply change_log in H as (s' & -> & Hok' & Ha & ->); [|done] end.
    eexists. split; [done|]. split; [done|]. rewrite Ha.
    match goal with H : _ ∨ _ |- _ => destruct H as [->|(-> & c & Hc & ->)] end.
    + left. cbn. by rewrite app_nil_r.
    + right. by exists data, c.
Qed.

Lemma replay_begin_empty payload kind j :
  replay_begin payload kind = returned j → admission j = None.
Proof. intros H. unfold replay_begin in H. checks. by subst. Qed.

Lemma replay_record_ok d payload d' :
  document_ok d → replay_record path corrupt d payload = returned d' →
  document_ok d' ∧ saw_begin d' = true ∧
  (saw_begin d = true → log_extended payload (journal_log (journal d)) (journal_log (journal d'))).
Proof.
  intros Hok H. unfold replay_record in H. apply at_reason_returned in H.
  apply bind_returned in H as (kind & Hk & H). unfold replay_kind in H.
  destruct d as [began j n]. cbn [saw_begin journal admission_candidate_bytes] in *.
  destruct began; cbn [negb] in H; [destruct (String.prefix _ kind)|].
  - unfold replay_admission in H. cbn [saw_begin journal admission_candidate_bytes] in H.
    apply bind_returned in H as ([[[] j'] replay'] & Ha & H);
      [|by apply bind_returned in H as ([] & H & _)].
    apply bind_returned in H as ([] & _ & <-%returned_inj).
    apply apply_ok in Ha as (n' & -> & Hok' & Hl); [|done]. done.
  - apply bind_returned in H as (j' & Hp & <-%returned_inj). apply replay_plain_effect in Hp.
    destruct (plain_effect_ok _ _ n Hp Hok) as [? E]. split; [done|]. split; [done|].
    intros _. left. done.
  - apply bind_returned in H as (j' & Hb & <-%returned_inj). apply replay_begin_empty in Hb.
    unfold document_ok, journal_log in *. cbn [journal admission_candidate_bytes] in *.
    rewrite Hb. split; [|done]. destruct (admission j) as [s|]; [|done]. by destruct Hok.
Qed.

Lemma read_journal_ok payloads d : read_journal path corrupt payloads = returned d → document_ok d.
Proof.
  intros H. unfold read_journal in H. apply bind_returned in H as (d' & H & H').
  apply bind_returned in H' as ([] & _ & <-%returned_inj).
  assert (document_ok empty_document) as Hok by done. revert H Hok.
  generalize empty_document. induction payloads as [|p l IH]; intros d0 H Hok.
  - by apply returned_inj in H as <-.
  - cbn [fold_outcome] in H. apply bind_returned in H as (d1 & H1 & H).
    apply replay_record_ok in H1 as (? & ? & ?); [|done]. by apply (IH d1).
Qed.

Lemma read_journal_snoc payloads record d :
  read_journal path corrupt payloads = returned d →
  read_journal path corrupt (payloads ++ [record]) =
    d' ← replay_record path corrupt d record;
    at_reason corrupt "sequence_journal_record_invalid" "active Sequence Journal record is invalid"
      (require (saw_begin d') "Sequence Journal has no durable begin record");;
    returned d'.
Proof.
  intros H. unfold read_journal in *. apply bind_returned in H as (d' & H & H').
  apply bind_returned in H' as ([] & _ & <-%returned_inj).
  rewrite fold_outcome_app, H. cbn [mbind outcome_bind fold_outcome].
  by destruct (replay_record path corrupt d' record).
Qed.

Lemma read_journal_begun payloads d : read_journal path corrupt payloads = returned d → saw_begin d = true.
Proof.
  intros H. unfold read_journal in H. apply bind_returned in H as (d' & H & H').
  apply bind_returned in H' as ([] & H' & <-%returned_inj).
  by apply at_reason_returned, require_returned in H'.
Qed.

(** C14: the admission of any journal that can be read is within its bounds: the
    watermarks of all input it ever admitted increase strictly from the first one
    of its preparation; at most 1,024 candidates of at most 1 MiB are outstanding,
    within the limits it was prepared with; an admission at one of its limits is
    closed; and the running sum that replaying keeps is the size of what is
    outstanding. *)
Theorem admission_bounded payloads d s :
  read_journal path corrupt payloads = returned d → admission (journal d) = Some s →
  StronglySorted N.lt (admitted s).*1 ∧
  Forall (λ w, preparation_first_watermark (preparation s) ≤ w) (admitted s).*1 ∧
  N.of_nat (length (candidates s)) ≤ candidate_limit (preparation s) ≤ 1024 ∧
  candidate_bytes s ≤ candidate_byte_limit (preparation s) ≤ 1048576 ∧
  (full s → is_Some (closure s)) ∧
  admission_candidate_bytes d = candidate_bytes s.
Proof.
  intros H Hs. apply read_journal_ok in H. unfold document_ok in H. rewrite Hs in H.
  destruct H as (_ & [Hp ? ? ? ? ? ?] & ?). unfold preparation_valid in Hp. checks.
  repeat match goal with H : _ ≤ _ |- _ =>
    progress unfold kSequenceAdmissionMaxCandidates, kSequenceAdmissionCandidateBytes in H end.
  by split_and!.
Qed.

(** C23: the log of admitted input is append-only.  Reading one more record leaves
    the log (the watermark and the digest of every input, outstanding or
    transferred) as it was, unless the record is a new candidate, which is then
    added at the end: no record, transfers and completion included, loses,
    reorders or rewrites input that was admitted. *)
Theorem admission_log_grows payloads record d d' :
  read_journal path corrupt payloads = returned d →
  read_journal path corrupt (payloads ++ [record]) = returned d' →
  log_extended record (journal_log (journal d)) (journal_log (journal d')).
Proof.
  intros H H'. rewrite (read_journal_snoc _ _ _ H) in H'.
  apply bind_returned in H' as (d1 & Hr & H'). apply bind_returned in H' as ([] & _ & <-%returned_inj).
  apply replay_record_ok in Hr as (_ & _ & Hl); [by apply Hl; eapply read_journal_begun|].
  by eapply read_journal_ok.
Qed.
End log.
