(* ===== verification/AdmissionRetry.v ===== *)
(** Durable retries of an admission.

    A record that an operation appended is accepted when the journal is read
    again, and appending it once more recognises it: a client that lost the answer
    may repeat any admission operation. *)

From S2P Require Import Prelude Json Foundation Text Project Sequence Soundset Outcome Admission AdmissionCodec AdmissionMachine Journal AdmissionLaws AdmissionLog.

Section retry.
Context `{JL : JsonLib} `{TL : !TextLib}.
Implicit Types (s : SequenceAdmissionState) (j : ActiveSequenceJournal).

Lemma head_filter_fresh {A} (P : A → Prop) `{∀ x, Decision (P x)} l x :
  Forall (λ e, ¬ P e) l → P x → head (filter P (l ++ [x])) = Some x.
Proof.
  intros Hl Hx. induction Hl as [|e l He Hl IH]; cbn [app].
  - by rewrite filter_cons, decide_True.
  - by rewrite filter_cons, decide_False.
Qed.

Lemma all_candidates_below s : log_ok s → ∀ w, last_watermark s = Some w →
  Forall (λ c, watermark c ≤ w) (candidates s).
Proof.
  intros Hok w Hw. rewrite (last_watermark_log s Hok), <- fmap_last in Hw.
  assert (∀ l : list N, StronglySorted N.lt l → last l = Some w → Forall (λ v, v ≤ w) l) as Hs.
  { induction 1 as [|v l Hl IH Hv]; [done|]. rewrite last_cons.
    destruct (last l) as [u|] eqn:E; [|by intros [= ->]; constructor; [|destruct l using rev_ind; [|rewrite last_snoc in E]]].
    intros [= ->]. constructor; [|by apply IH]. rewrite Forall_forall in Hv.
    apply N.lt_le_incl, Hv. by apply last_Some_elem_of. }
  apply Hs in Hw; [|by apply log_sorted]. unfold admitted in Hw.
  rewrite fmap_app in Hw. apply Forall_app in Hw as [_ Hw].
  rewrite <- list_fmap_compose in Hw. by rewrite Forall_fmap in Hw.
Qed.

Lemma lower_bound_fresh s c : log_ok s → (∀ w, last_watermark s = Some w → w < watermark c) →
  lower_bound (watermark c) (candidates s ++ [c]) = Some c.
Proof.
  intros Hok Hw. apply head_filter_fresh; [|done].
  destruct (last_watermark s) as [w|] eqn:E.
  - specialize (Hw w eq_refl). eapply Forall_impl; [by eapply all_candidates_below|].
    cbn. intros e He. lia.
  - unfold last_watermark in E. destruct (candidates s) as [|e l _] using rev_ind; [done|].
    by rewrite last_snoc in E.
Qed.

(** The same function on the same data, in the state it left. *)
Lemma candidate_retry j s replay data s' replay' j2 replay2 : log_ok s →
  apply_candidate j s replay data = returned (Some (s', replay')) →
  apply_candidate j2 s' replay2 data = returned None.
Proof.
  intros Hok H. apply apply_candidate_some in H as (c & Hc & Ha & -> & _).
  unfold apply_candidate. rewrite Hc. cbn [mbind outcome_bind].
  rewrite (accepted_valid _ _ _ _ Ha). cbn [mbind outcome_bind].
  rewrite candidates_with_candidate, lower_bound_fresh by (done || by apply Ha).
  cbn [mbind option_bind]. rewrite N.eqb_refl. by rewrite bool_decide_true by done.
Qed.

Lemma profile_retry j s data s' j2 :
  apply_profile j s data = returned (Some s') → apply_profile j2 s' data = returned None.
Proof.
  intros H. apply apply_profile_some in H as (p & Hp & _ & Hf & ->).
  unfold apply_profile. rewrite Hp. cbn [mbind outcome_bind timing_profiles set_profiles].
  rewrite head_filter_fresh by done. by rewrite bool_decide_true by done.
Qed.

Lemma switch_retry j s data s' j2 :
  apply_switch j s data = returned (Some s') → apply_switch j2 s' data = returned None.
Proof.
  intros H. apply apply_switch_some in H as (a & Ha & Hs & ->).
  unfold apply_switch, uuid. rewrite Ha. cbn [mbind outcome_bind applied_switches set_switches].
  rewrite (switch_uuid _ _ _ Hs). cbn [require mbind outcome_bind].
  pose proof (switch_fresh _ _ _ Hs) as Hf. unfold find_switch in *.
  apply head_filter_none in Hf. rewrite head_filter_fresh by done.
  by rewrite bool_decide_true by done.
Qed.

Lemma overlay_retry j s data s' j2 :
  apply_overlay j s data = returned (Some s') → apply_overlay j2 s' data = returned None.
Proof.
  intros H. pose proof H as H'. apply apply_overlay_some in H as (g & Hg & Ho & ->).
  unfold apply_overlay in *. apply bind_returned in H' as ([] & -> & _).
  cbn [mbind outcome_bind]. rewrite Hg. cbn [mbind outcome_bind].
  destruct (overlay_beyond _ _ _ Ho) as (current & Hs & _).
  change (segment (set_switches s (applied_switches s) g)) with (segment s). rewrite Hs.
  cbn [mbind outcome_bind published_generation set_switches]. by rewrite N.eqb_refl.
Qed.

Lemma fence_retry s data s' : apply_fence s data = returned (Some s') → apply_fence s' data = returned None.
Proof.
  intros H. apply apply_fence_some in H as (f & Hf & Hv & _ & _ & -> & _ & _).
  unfold apply_fence. rewrite Hf. cbn [mbind outcome_bind].
  assert (preparation (with_fence s f) = preparation s) as -> by (unfold with_fence; by case_match).
  rewrite Hv. cbn [mbind outcome_bind]. unfold with_fence.
  destruct (fence_kind f =? _) eqn:E; cbn [admission_fence cutoff_fence set_fences];
    by rewrite bool_decide_true by done.
Qed.

Lemma close_retry s data s' : apply_close s data = returned (Some s') → apply_close s' data = returned None.
Proof.
  intros H. apply apply_close_some in H as (c & Hc & _ & _ & _ & ->).
  unfold apply_close. rewrite Hc. cbn [mbind outcome_bind closure set_closure].
  by rewrite bool_decide_true by done.
Qed.

Lemma transfer_retry j s replay data j' replay' s' j2 replay2 :
  apply_transfer j s replay data = returned (Some (j', replay')) → admission j' = Some s' →
  apply_transfer j2 s' replay2 data = returned None.
Proof.
  intros H Hs. apply apply_transfer_some in H as (t & previous & Ht & Ha & -> & _).
  rewrite transferred_admission in Hs. injection Hs as <-.
  unfold apply_transfer. rewrite Ht. cbn [mbind outcome_bind].
  unfold with_transfer at 1. cbn [transfers set_transfers set_candidates].
  rewrite head_filter_fresh; [by rewrite bool_decide_true by done| |done].
  by apply (transfer_fresh _ _ _ _ Ha).
Qed.

Lemma complete_retry j s s' j2 : apply_complete j s = returned (Some s') → apply_complete j2 s' = returned None.
Proof.
  intros H. apply apply_complete_some in H as (_ & _ & _ & _ & _ & _ & _ & ->). done.
Qed.

Lemma admission_change_prepared j s replay news j' replay' :
  admission_change j s replay news j' replay' →
  ∃ s', admission j' = Some s' ∧ preparation s' = preparation s ∧ session_id j' = session_id j.
Proof.
  destruct 1; try (by eexists).
  - eexists. split; [done|]. unfold with_candidate. by case_match.
  - eexists. split; [done|]. unfold with_fence. by case_match.
  - eexists. rewrite transferred_admission. split; [done|]. split; [done|].
    unfold transferred. by destruct (journal_input_sequence t).
Qed.

Lemma apply_kind_retry j s replay kind data j' replay' s' j2 replay2 : log_ok s →
  apply_kind j s replay kind data = returned (true, j', replay') → admission j' = Some s' →
  apply_kind j2 s' replay2 kind data = returned (false, j2, replay2).
Proof.
  intros Hok H Hs. unfold apply_kind in *.
  repeat (case_bool_decide;
    [apply bind_returned in H as (o & H & E%returned_inj);
     destruct o as [o|]; [|done]; try destruct o; cbn [store store_candidate store_transfer] in E;
     injection E as E _; subst; cbn [admission set_admission] in Hs; try injection Hs as <-;
     first [erewrite candidate_retry by done | erewrite profile_retry by done
           |erewrite switch_retry by done | erewrite overlay_retry by done
           |erewrite fence_retry by done | erewrite close_retry by done
           |erewrite transfer_retry by done]; done|]).
  apply bind_returned in H as ([] & Hk & H). rewrite Hk. cbn [mbind outcome_bind].
  apply bind_returned in H as (o & H & E%returned_inj). destruct o as [o|]; [|done].
  injection E as E _. subst. injection Hs as <-. by erewrite complete_retry.
Qed.

Lemma apply_dispatch_retry j identity replay kind data j' replay' j2 replay2 :
  (∀ s, admission j = Some s → log_ok s) →
  apply_dispatch j identity replay kind data = returned (true, j', replay') →
  admission j2 = admission j' →
  apply_dispatch j2 identity replay2 kind data = returned (false, j2, replay2).
Proof.
  intros Hok H E2. unfold apply_dispatch in *. case_bool_decide.
  - unfold apply_prepare in *. apply bind_returned in H as (p & Hp & H).
    apply bind_returned in H as ([] & Hv & H). apply bind_returned in H as ([] & Hi & H).
    rewrite Hp. cbn [mbind outcome_bind]. rewrite Hv. cbn [mbind outcome_bind].
    rewrite Hi. cbn [mbind outcome_bind].
    destruct (admission j); apply bind_returned in H as ([] & _ & H%returned_inj); [done|].
    injection H as <- <-. rewrite E2. cbn. by rewrite bool_decide_true.
  - apply bind_returned in H as ([] & _ & H). apply bind_returned in H as (s & Hs & H).
    apply bind_returned in H as ([] & Hi & H). apply library_returned in Hs.
    pose proof (apply_kind_change _ _ _ _ _ _ H) as (news & Hc & _).
    apply admission_change_prepared in Hc as (s' & E & Ep & _).
    rewrite E2, E. cbn [has_value library require mbind outcome_bind]. rewrite Ep, Hi.
    cbn [mbind outcome_bind]. eapply apply_kind_retry; [by apply Hok|done|done].
Qed.

Lemma apply_dispatch_prefix j identity replay kind data r :
  apply_dispatch j identity replay kind data = returned r → String.prefix "admission-" kind = true.
Proof.
  intros H. unfold apply_dispatch, apply_kind in H.
  repeat (case_bool_decide; [by subst|]).
  apply bind_returned in H as ([] & _ & H). apply bind_returned in H as (s & _ & H).
  apply bind_returned in H as ([] & _ & H). repeat (case_bool_decide; [by subst|]).
  apply bind_returned in H as ([] & Hk%require_returned & _). bool_to_prop. by subst.
Qed.

Lemma apply_dispatch_session j identity replay kind data b j' replay' :
  apply_dispatch j identity replay kind data = returned (b, j', replay') →
  session_id j' = session_id j.
Proof.
  intros H. apply apply_dispatch_effect in H. inversion H; subst; try done.
  by match goal with H : admission_change _ _ _ _ _ _ |- _ =>
    apply admission_change_prepared in H as (? & _ & _ & ?) end.
Qed.

Context (path : string) (corrupt : string → string → Error)
  (validate_admission_project : ProjectId → Result ()).

(** An admission record that was appended is read, as the operation applied it. *)
Lemma admission_record_read payloads d session identity kind data record :
  read_journal path corrupt payloads = returned d →
  append_admission_record validate_admission_project d session identity kind data = success (append_record record ()) →
  ∃ j' replay', read_journal path corrupt (payloads ++ [record]) =
      returned (MkDocument true j' (value_or replay' (admission_candidate_bytes d))) ∧
    apply (journal d) record (Some (admission_candidate_bytes d)) = returned (true, j', replay') ∧
    record = admission_record session identity kind data.
Proof.
  intros Hr H. pose proof (read_journal_begun _ _ _ _ Hr) as Hb.
  unfold append_admission_record in H. set (r := admission_record session identity kind data) in *.
  destruct (apply (journal d) r (Some (admission_candidate_bytes d))) as [[[[] j'] replay']| |] eqn:Ha;
    try done. cbn [negb mbind outcome_bind] in H.
  match type of H with catch_all _ (?c ≫= _) = _ => destruct c as [[]| |] end; try done.
  injection H as <-. exists j', replay'. split; [|done].
  pose proof Ha as Hr'. apply apply_returned in Ha as (i & k & v & Hk & _ & _ & Hd & _).
  rewrite (read_journal_snoc _ _ _ _ _ Hr). unfold replay_record, replay_kind.
  rewrite Hk. cbn [mbind outcome_bind]. rewrite Hb. cbn [negb].
  rewrite (apply_dispatch_prefix _ _ _ _ _ _ Hd). unfold replay_admission. by rewrite Hr'.
Qed.

(** C13: an admission operation may be repeated.  When an operation on a journal
    appends its record, the journal with that record can be read again (what was
    written is accepted), and the same operation on it succeeds without writing
    anything: an exact retry of a preparation, candidate, fence, switch, overlay,
    profile, closure, transfer or completion is recognised, candidates by their
    watermark among those outstanding. *)
Theorem admission_retry payloads d session identity kind data record :
  read_journal path corrupt payloads = returned d →
  append_admission_record validate_admission_project d session identity kind data = success (append_record record ()) →
  ∃ d', read_journal path corrupt (payloads ++ [record]) = returned d' ∧
    append_admission_record validate_admission_project d' session identity kind data = success (Unchanged ()).
Proof.
  intros Hr H. pose proof (read_journal_ok _ _ _ _ Hr) as Hok.
  destruct (admission_record_read _ _ _ _ _ _ _ Hr H) as (j' & replay' & Hread & Ha & ->).
  eexists. split; [exact Hread|]. unfold append_admission_record.
  cbn [journal admission_candidate_bytes].
  apply apply_returned in Ha as (i & k & v & _ & _ & _ & Hd & Hagain).
  rewrite Hagain by (by eapply apply_dispatch_session).
  erewrite apply_dispatch_retry; [done| |done|done].
  intros s Hs. unfold document_ok in Hok. rewrite Hs in Hok. by apply Hok.
Qed.
End retry.
