(* ===== verification/JournalLaws.v ===== *)
(** Reading back the members of a journal record.

    What [sequence_journal.cpp] writes as a member of a record and what it reads
    there: integers, slots, events, flushes and Capture commits.

    The invariant of a sequence journal.

    What replaying any record keeps: the numbers fit their width, the flushes are
    numbered in order, a later flush covers what an earlier one has not committed,
    and a prepared Capture is still the one that is armed. *)

From S2P Require Import Prelude Json Foundation Text Project Sequence Soundset Outcome Admission AdmissionCodec AdmissionMachine Journal AdmissionLaws AdmissionLog.

Section reading.
Context `{JL : JsonLib} `{!JsonLaws JL} `{TL : !TextLib} (path : string).

Lemma sequence_integer_uint n : n < 2 ^ 64 → sequence_integer 64 (j_uint n) = returned n.
Proof.
  intros Hn. unfold sequence_integer, nonnegative. rewrite uint_is_unsigned, uint_get by done. cbn.
  by rewrite (proj2 (N.leb_le n _)) by u_lia.
Qed.

Lemma integer_at_fields w j l k n : fields j l → assoc k l = Some (j_uint n) →
  n < 2 ^ w → w ≤ 64 → integer_at w j k = returned n.
Proof.
  intros H E Hn Hw. assert (2 ^ w ≤ 2 ^ 64) by (by apply N.pow_le_mono_r).
  unfold integer_at, sequence_integer, nonnegative. rewrite (at_fields _ _ _ _ H E).
  cbn [mbind outcome_bind]. rewrite uint_is_unsigned, uint_get by lia. cbn.
  by rewrite (proj2 (N.leb_le n _)) by lia.
Qed.

Lemma small_integer_at_fields j l k z : fields j l → assoc k l = Some (j_int z) →
  (0 ≤ z < 2 ^ 63)%Z → integer_at 64 j k = returned (Z.to_N z).
Proof.
  intros H E Hz. unfold integer_at, sequence_integer, nonnegative. rewrite (at_fields _ _ _ _ H E).
  cbn [mbind outcome_bind]. destruct (int_is_integer z) as [-> ->].
  rewrite int_get, int_get_unsigned by lia. cbn [library mbind outcome_bind].
  rewrite (proj2 (Z.leb_le 0 z)) by lia. cbn [require mbind outcome_bind].
  assert (Z.to_N z < 2 ^ 63) by (apply N2Z.inj_lt; rewrite Z2N.id by lia; change (Z.of_N (2 ^ 63)) with (2 ^ 63)%Z; lia).
  by rewrite (proj2 (N.leb_le _ _)) by u_lia.
Qed.

Lemma integer_at_bound w j k n : integer_at w j k = returned n → n < 2 ^ w.
Proof.
  intros H. unfold integer_at, sequence_integer in H. outcome_inv H. subst. bool_to_prop.
  pose proof (N.pow_nonzero 2 w). lia.
Qed.

Lemma valid_slot_bounds s : is_valid_slot s = true → bank s < 4 ∧ pad s < 16.
Proof. unfold is_valid_slot. intros. by bool_to_prop. Qed.

Lemma slot_fields s : fields (slot_json s) [("bank", j_uint (bank s)); ("pad", j_uint (pad s))].
Proof. by apply fields_j_object. Qed.

Lemma optional_slot_fields j l k s : fields j l → assoc k l = Some (optional_slot_json s) →
  (∀ p, s = Some p → is_valid_slot p = true) → optional_slot j k = returned s.
Proof.
  intros H E Hs. unfold optional_slot. rewrite (fields_at _ _ H), E.
  destruct s as [p|]; cbn [optional_slot_json]; [|by rewrite null_is_null].
  specialize (Hs p eq_refl). pose proof (valid_slot_bounds _ Hs).
  pose proof (slot_fields p) as Hf.
  assert (is_null (slot_json p) = false) as -> by apply object_not_null.
  rewrite (fields_object _ _ Hf), (fields_size _ _ Hf), !(fields_contains _ _ Hf).
  cbn [assoc String.eqb Ascii.eqb Bool.eqb has_value length Nat.eqb andb require mbind outcome_bind].
  rewrite !(at_fields _ _ _ _ Hf) by done. cbn [mbind outcome_bind].
  rewrite !uint_is_unsigned, !uint_get by u_lia. cbn [andb require library mbind outcome_bind].
  rewrite !(proj2 (N.leb_le _ 255)) by lia. cbn [andb require mbind outcome_bind].
  destruct p as [b d]. cbn [bank pad]. rewrite Hs. done.
Qed.

Lemma valid_slot_fields j l k s : fields j l → assoc k l = Some (slot_json s) →
  is_valid_slot s = true → optional_slot j k = returned (Some s).
Proof. intros H E Hs. apply (optional_slot_fields _ _ _ (Some s) H E). by intros p [= <-]. Qed.

(** ** Events *)

Lemma tail_event_bounds len e : tail_event_valid len e = true →
  is_valid_slot (slot e) = true ∧ 1 ≤ velocity e ≤ 127 ∧ onset_tick e < len ∧
  1 ≤ duration_tick e ≤ u32_sub len (onset_tick e).
Proof. unfold tail_event_valid. intros. bool_to_prop. by split_and!. Qed.

Lemma parse_event_json len e : len < 2 ^ 32 → tail_event_valid len e = true →
  parse_event path (event_json e) len = success e.
Proof.
  intros Hlen He. pose proof (tail_event_bounds _ _ He) as (Hs & Hv & Ho & Hd).
  pose proof (valid_slot_bounds _ Hs) as [Hb Hp].
  assert (duration_tick e < 2 ^ 32) by (rewrite u32_sub_le in Hd by lia; lia).
  assert (fields (event_json e)
    [("duration_tick", j_uint (duration_tick e)); ("onset_tick", j_uint (onset_tick e));
     ("slot", slot_json (slot e)); ("velocity", j_uint (velocity e))]) as Hf
    by (by apply fields_j_object).
  unfold parse_event, parse_event_fields.
  rewrite (fields_object _ _ Hf), (fields_size _ _ Hf), !(fields_contains _ _ Hf).
  cbn [assoc String.eqb Ascii.eqb Bool.eqb has_value length Nat.eqb andb require mbind outcome_bind].
  rewrite (at_fields _ _ _ _ Hf) by done. cbn [mbind outcome_bind].
  pose proof (slot_fields (slot e)) as Hf'.
  rewrite (integer_at_fields 8 _ _ "bank" (bank (slot e)) Hf') by (done || lia).
  cbn [mbind outcome_bind].
  rewrite (integer_at_fields 8 _ _ "pad" (pad (slot e)) Hf') by (done || lia).
  cbn [mbind outcome_bind].
  rewrite (integer_at_fields 32 _ _ "onset_tick" (onset_tick e) Hf) by (done || u_lia).
  cbn [mbind outcome_bind].
  rewrite (integer_at_fields 32 _ _ "duration_tick" (duration_tick e) Hf) by (done || u_lia).
  cbn [mbind outcome_bind].
  rewrite (integer_at_fields 8 _ _ "velocity" (velocity e) Hf) by (done || lia).
  cbn [mbind outcome_bind]. destruct e as [[b p] o d v]. cbn in He |- *. by rewrite He.
Qed.

Lemma parse_events_json len l : len < 2 ^ 32 → forallb (tail_event_valid len) l = true →
  parse_events path (j_items (events_json l)) len = returned l.
Proof.
  intros Hlen Hl. unfold parse_events, events_json. rewrite array_items.
  rewrite (traverse_map _ event_json id), list_fmap_id; [done|].
  intros e He. rewrite forallb_forall in Hl. rewrite (parse_event_json len e Hlen); [done|].
  by apply Hl, list_elem_of_In.
Qed.

Lemma parse_event_valid j len e : parse_event path j len = success e → tail_event_valid len e = true.
Proof.
  unfold parse_event, catch_all. destruct (parse_event_fields j len) eqn:H; [|done..].
  intros [= ->]. unfold parse_event_fields in H. outcome_inv H. by subst.
Qed.

Lemma parse_events_valid js len l : parse_events path js len = returned l →
  forallb (tail_event_valid len) l = true.
Proof.
  intros H. unfold parse_events in H. apply traverse_returned in H.
  apply forallb_forall. intros e He. apply list_elem_of_In, list_elem_of_lookup in He as [i Hi].
  destruct (Forall2_lookup_r _ _ _ _ _ H Hi) as (j & _ & Hj).
  apply (parse_event_valid j). by destruct (parse_event path j len); simplify_eq/=.
Qed.

Lemma loop_length_bound b : valid_bars b = true → pattern_length_ticks b < 2 ^ 32.
Proof. intros Hb. pose proof (pattern_length_valid b Hb). u_lia. Qed.

(** ** Capture commits *)

Definition capture_ok (c : SequenceCaptureCommit) : Prop :=
  is_valid_uuid (value (capture_command c)) = true ∧
  is_valid_uuid (value (capture_asset c)) = true ∧ is_valid_slot (capture_slot c) = true ∧
  lowercase_sha256 (sha256 (capture_artifact c)) = true ∧ media_type (capture_artifact c) ≠ "" ∧
  byte_length (capture_artifact c) < 2 ^ 64 ∧ capture_revision c < 2 ^ 64.

Lemma artifact_from_json_json a : byte_length a < 2 ^ 64 → artifact_from_json (artifact_to_json a) = success a.
Proof.
  intros Ha. assert (fields (artifact_to_json a)
    [("sha256", j_string (sha256 a)); ("media_type", j_string (media_type a));
     ("byte_length", j_uint (byte_length a))]) as Hf by (by apply fields_j_object).
  unfold artifact_from_json. rewrite !(fields_at _ _ Hf). cbn.
  rewrite !string_get, uint_get by done. by destruct a.
Qed.

Lemma parse_capture_json c : capture_ok c → parse_capture path (capture_json c) = returned c.
Proof.
  intros (H1 & H2 & H3 & H4 & H5 & H6 & H7). assert (fields (capture_json c)
    [("artifact", artifact_to_json (capture_artifact c));
     ("asset_id", j_string (value (capture_asset c)));
     ("command_id", j_string (value (capture_command c)));
     ("expected_revision", j_uint (capture_revision c));
     ("kind", j_string "capture-prepare"); ("slot", slot_json (capture_slot c))]) as Hf
    by (by apply fields_j_object).
  unfold parse_capture. rewrite (fields_object _ _ Hf). cbn [require mbind outcome_bind].
  rewrite (valid_slot_fields _ _ "slot" (capture_slot c) Hf) by done. cbn [mbind outcome_bind].
  rewrite (id_at_fields _ _ "command_id" (capture_command c) _ Hf) by done. cbn [mbind outcome_bind].
  rewrite (id_at_fields _ _ "asset_id" (capture_asset c) _ Hf) by done. cbn [mbind outcome_bind].
  rewrite !(at_fields _ _ _ _ Hf) by done. cbn [mbind outcome_bind].
  rewrite artifact_from_json_json by done. cbn [returning mbind outcome_bind].
  rewrite uint_get by done. cbn [library mbind outcome_bind value_or has_value].
  cbn [capture_slot capture_command capture_asset capture_artifact].
  rewrite H1, H2, H3, H4, bool_decide_false by done. by destruct c.
Qed.
End reading.

Section invariant.
Context `{JL : JsonLib} `{TL : !TextLib}.
Implicit Types (s : SequenceAdmissionState) (j : ActiveSequenceJournal) (f : SequenceFlushRecord).

Record flush_ok f : Prop := {
  flush_seq_fits : flush_seq f < 2 ^ 64;
  flush_revision_fits : flush_revision f < 2 ^ 64;
  flush_command_uuid : is_valid_uuid (value (flush_command f)) = true;
  flush_pattern_uuid : is_valid_uuid (value (flush_pattern f)) = true;
  flush_residual : Forall (λ e, e ∈ canonical_events f) (recovery_events f);
  flush_settled : flush_completed f = true → recovery_events f = []
}.

(** A later flush has an event at every place of what [f] has not committed. *)
Definition covered_by f g : Prop :=
  covers_event_keys (canonical_events g) (recovery_events f) = true.

Definition pending_capture_ok j (c : SequenceCaptureCommit) : Prop :=
  is_valid_uuid (value (capture_command c)) = true ∧
  armed_capture_slot j = Some (capture_slot c) ∧ capture_revision c = journal_revision j ∧
  recording (session_state j) = true ∧ all_completed (flushes j) = true.

Record journal_ok j : Prop := {
  ok_session : is_valid_uuid (value (session_id j)) = true;
  ok_pattern : is_valid_uuid (value (journal_pattern j)) = true;
  ok_bars : valid_bars (journal_bars j) = true;
  ok_fingerprint : lowercase_sha256 (pattern_fingerprint j) = true;
  ok_revision : journal_revision j < 2 ^ 64;
  ok_next_flush : next_flush_seq j = wrap 64 (N.of_nat (length (flushes j)));
  ok_next_tail : next_tail_seq j < 2 ^ 64;
  ok_last : ∀ n, last_input_sequence j = Some n → n < 2 ^ 64;
  ok_armed : ∀ p, armed_capture_slot j = Some p → is_valid_slot p = true;
  ok_capture : ∀ c, capture_commit j = Some c → pending_capture_ok j c;
  ok_flushes : Forall flush_ok (flushes j);
  ok_numbers : ∀ i f, flushes j !! i = Some f → flush_seq f = wrap 64 (N.of_nat i);
  ok_covered : StronglySorted covered_by (flushes j)
}.

(** ** Places *)

Lemma same_event_key_spec x y : same_event_key x y = true ↔ event_key x = event_key y.
Proof.
  destruct x as [[b p] o d v], y as [[b' p'] o' d' v'].
  unfold same_event_key, event_key. cbn. rewrite andb_true_iff, bool_decide_eq_true, N.eqb_eq.
  split; [intros [[= -> ->] ->]; done|]. by intros [= -> -> ->].
Qed.

Lemma covers_spec committed candidate : covers_event_keys committed candidate = true ↔
  Forall (λ e, event_key e ∈ event_key <$> committed) candidate.
Proof.
  unfold covers_event_keys. rewrite forallb_forall, Forall_forall. split.
  - intros H e He. apply list_elem_of_In, H, existsb_exists in He as (x & Hx & Hk).
    apply same_event_key_spec in Hk. rewrite <- Hk. by apply list_elem_of_fmap_2, list_elem_of_In.
  - intros H e He. apply list_elem_of_In, H, list_elem_of_fmap in He as (x & Hk & Hx).
    apply existsb_exists. exists x. split; [by apply list_elem_of_In|]. by apply same_event_key_spec.
Qed.

Lemma merge_keys a b k :
  k ∈ event_key <$> merge_pattern_events a b ↔ k ∈ event_key <$> a ∨ k ∈ event_key <$> b.
Proof.
  pose proof (merge_lookup a b k) as H.
  pose proof (last_with_key_None k (merge_pattern_events a b)) as H1.
  pose proof (last_with_key_None k (a ++ b)) as H2. rewrite H, H2 in H1.
  rewrite fmap_app, elem_of_app in H1.
  destruct (decide (k ∈ event_key <$> merge_pattern_events a b)),
    (decide (k ∈ event_key <$> a ∨ k ∈ event_key <$> b)); tauto.
Qed.

Lemma unresolved_fold_keys l r k :
  k ∈ event_key <$> foldl (λ r f, if flush_completed f then r
                                   else merge_pattern_events r (recovery_events f)) r l ↔
  k ∈ event_key <$> r ∨ ∃ f, f ∈ l ∧ flush_completed f = false ∧ k ∈ event_key <$> recovery_events f.
Proof.
  revert r. induction l as [|f l IH]; intros r; cbn [foldl].
  - split; [by left|]. intros [?|(f & ?%elem_of_nil & _)]; done.
  - rewrite IH. setoid_rewrite elem_of_cons. destruct (flush_completed f) eqn:E.
    + split; [naive_solver|]. intros [?|(g & [->|?] & ? & ?)]; [by left|congruence|naive_solver].
    + rewrite merge_keys. split; [naive_solver|].
      intros [?|(g & [->|?] & ? & ?)]; naive_solver.
Qed.

(** The unresolved batch covers what every flush has not committed. *)
Lemma unresolved_covers j f : Forall flush_ok (flushes j) → f ∈ flushes j →
  covers_event_keys (unresolved_batch j) (recovery_events f) = true.
Proof.
  intros Hok Hf. apply covers_spec, Forall_forall. intros e He.
  rewrite Forall_forall in Hok. unfold unresolved_batch. apply merge_keys. left.
  apply unresolved_fold_keys. right. exists f. split; [done|].
  split; [|by apply list_elem_of_fmap_2]. destruct (flush_completed f) eqn:E; [|done].
  rewrite (flush_settled _ (Hok f Hf) E) in He. by apply elem_of_nil in He.
Qed.
End invariant.

(** ** Preservation *)

(** The checks a replayed record passed, and the bounds of what was read. *)
Ltac replayed :=
  checks;
  repeat (match goal with
          | H : at_reason _ _ _ _ = returned _ |- _ => apply at_reason_returned in H
          end; checks);
  repeat match goal with
  | H : integer_at _ _ _ = returned _ |- _ => apply integer_at_bound in H
  end.

Section preserved.
Context `{JL : JsonLib} `{TL : !TextLib} (path : string) (corrupt : string → string → Error).
Implicit Types (s : SequenceAdmissionState) (j : ActiveSequenceJournal) (f : SequenceFlushRecord).

Lemma valid_slot_read input k p : optional_slot input k = returned (Some p) → is_valid_slot p = true.
Proof.
  unfold optional_slot. destruct (j_at input k); [|done]. case_match; [done|]. intros Hs. checks. by subst.
Qed.

Lemma begin_ok payload kind j : replay_begin payload kind = returned j → journal_ok j.
Proof.
  intros H. unfold replay_begin in H. replayed. subst.
  split; cbn; try done; try (by constructor).
  intros p Hp. subst. match goal with H : optional_slot _ _ = _ |- _ => by apply valid_slot_read in H end.
Qed.

(** An operation that touches neither the flushes nor what a Capture relies on. *)
Lemma ok_same j j' : journal_ok j →
  session_id j' = session_id j → is_valid_uuid (value (journal_pattern j')) = true →
  valid_bars (journal_bars j') = true → lowercase_sha256 (pattern_fingerprint j') = true →
  journal_revision j' < 2 ^ 64 → next_flush_seq j' = next_flush_seq j → flushes j' = flushes j →
  next_tail_seq j' < 2 ^ 64 → (∀ n, last_input_sequence j' = Some n → n < 2 ^ 64) →
  (∀ p, armed_capture_slot j' = Some p → is_valid_slot p = true) →
  (∀ c, capture_commit j' = Some c → pending_capture_ok j' c) → journal_ok j'.
Proof.
  intros [H1 H2 H3 H4 H5 H6 H7 H8 H9 H10 H11 H12 H13] Es ? ? ? ? En Ef ? ? ? ?.
  split; rewrite ?Es, ?En, ?Ef; done.
Qed.

Lemma tail_ok j payload j' : journal_ok j → replay_tail path corrupt j payload = returned j' → journal_ok j'.
Proof.
  intros Hok H. unfold replay_tail, tail_identity in H. replayed. subst.
  destruct Hok. apply (ok_same j); cbn; try done; try (by split).
  - apply wrap_lt.
  - by intros n [= <-].
Qed.

Lemma next_number n : u64_add (wrap 64 (N.of_nat n)) 1 = wrap 64 (N.of_nat (S n)).
Proof. unfold u64_add, wrap. rewrite N.Div0.add_mod_idemp_l. f_equal. lia. Qed.

Lemma sorted_snoc_covered l g : StronglySorted covered_by l → Forall (λ f, covered_by f g) l →
  StronglySorted covered_by (l ++ [g]).
Proof.
  induction 1 as [|f l Hl IH Hf]; intros Hg; cbn [app]; [by repeat constructor|].
  apply Forall_cons in Hg as [Hfg Hg]. constructor; [by apply IH|].
  apply Forall_app. by repeat constructor.
Qed.

Lemma flush_replay_ok j payload j' :
  journal_ok j → replay_flush path corrupt j payload = returned j' → journal_ok j'.
Proof.
  intros Hok H. unfold replay_flush in H. replayed. subst.
  match goal with H : parse_events _ _ _ = returned ?r |- _ => rename r into l end.
  match goal with H : is_empty (unresolved_batch j) || _ = true |- _ => rename H into Hcover end.
  destruct Hok. split; cbn; try done.
  - rewrite ok_next_flush0, next_number, length_app. cbn. do 2 f_equal. lia.
  - intros c Hc. congruence.
  - apply Forall_app. split; [done|]. constructor; [|done]. split; cbn; try done.
    by apply Forall_forall.
  - intros i f. rewrite lookup_app_Some. intros [?|[Hi Hf]]; [by apply ok_numbers0|].
    apply list_lookup_singleton_Some in Hf as [Hi' <-]. cbn.
    assert (i = length (flushes j)) as -> by lia. by rewrite <- ok_next_flush0.
  - apply sorted_snoc_covered; [done|]. apply Forall_forall. intros f Hf.
    pose proof (unresolved_covers j f ok_flushes0 Hf) as Hu. unfold covered_by. cbn.
    apply orb_true_iff in Hcover as [He|He].
    + destruct (unresolved_batch j); [|done]. apply covers_spec in Hu. apply covers_spec.
      destruct (recovery_events f); [done|]. apply Forall_cons in Hu as [[]%elem_of_nil _].
    + apply bool_decide_eq_true_1 in He. by rewrite <- He.
Qed.

(** What completing a flush does to one of the flushes. *)
Record completion_effect f g : Prop := {
  effect_seq : flush_seq g = flush_seq f;
  effect_command : flush_command g = flush_command f;
  effect_pattern : flush_pattern g = flush_pattern f;
  effect_revision : flush_revision g = flush_revision f;
  effect_canonical : canonical_events g = canonical_events f;
  effect_residual : ∀ e, e ∈ recovery_events g → e ∈ recovery_events f;
  effect_settled : (flush_completed f = true → recovery_events f = []) →
    flush_completed g = true → recovery_events g = []
}.

Lemma complete_one_effect sequence committed f g :
  complete_one corrupt sequence committed f = returned g → completion_effect f g.
Proof.
  intros H. unfold complete_one in H. case_match; [replayed; by subst|]. case_match.
  - replayed. subst. split; cbn; try done. by intros e ?%elem_of_nil.
  - case_match; replayed; subst; split; cbn; try done; try (by intros e ?%elem_of_nil).
    intros e He. unfold uncommitted_residual in He. by apply list_elem_of_filter in He as [_ ?].
Qed.

Lemma completion_flush_ok f g : completion_effect f g → flush_ok f → flush_ok g.
Proof.
  intros [E1 E2 E3 E4 E5 E6 E7] [H1 H2 H3 H4 H5 H6].
  split; rewrite ?E1, ?E2, ?E3, ?E4, ?E5; try done; [|by apply E7].
  rewrite Forall_forall in H5 |- *. intros e He. by apply H5, E6.
Qed.

Lemma covered_effect f f' g g' : completion_effect f f' → completion_effect g g' →
  covered_by f g → covered_by f' g'.
Proof.
  intros Hf Hg. unfold covered_by. rewrite !covers_spec, (effect_canonical _ _ Hg), !Forall_forall.
  intros H e He. by apply H, (effect_residual _ _ Hf).
Qed.

Lemma covered_effects l l' : Forall2 completion_effect l l' →
  StronglySorted covered_by l → StronglySorted covered_by l'.
Proof.
  induction 1 as [|f g l l' Hf Hl IH]; intros Hs; [constructor|].
  apply StronglySorted_inv in Hs as [Hs Hc]. constructor; [by apply IH|].
  clear IH Hs. induction Hl as [|x y l l' Hx Hl IH]; constructor; apply Forall_cons in Hc as [Hx' Hc].
  - by eapply covered_effect.
  - by apply IH.
Qed.

Lemma complete_replay_ok j payload j' :
  journal_ok j → replay_complete corrupt j payload = returned j' → journal_ok j'.
Proof.
  intros Hok H. unfold replay_complete in H. replayed. subst.
  match goal with H : traverse _ _ = returned ?r |- _ => rename r into l; apply traverse_returned in H end.
  assert (Forall2 completion_effect (flushes j) l) as Hl.
  { eapply Forall2_impl; [eassumption|]. cbn. intros f g Hg. by eapply complete_one_effect, Hg. }
  assert (length l = length (flushes j)) as Hlen by (symmetry; by eapply Forall2_length).
  destruct Hok. split; cbn; try done.
  - by rewrite Hlen.
  - intros c Hc. destruct (ok_capture0 c Hc) as (_ & _ & _ & _ & Hall). exfalso.
    match goal with H : find_flush _ _ = Some ?f |- _ => rewrite H in *;
      apply head_filter_some in H as [Hin _] end. bool_to_prop.
    unfold all_completed in Hall. rewrite forallb_forall in Hall.
    apply list_elem_of_In, Hall in Hin. congruence.
  - rewrite Forall_forall in ok_flushes0 |- *. intros g Hg.
    apply list_elem_of_lookup in Hg as [i Hi]. destruct (Forall2_lookup_r _ _ _ _ _ Hl Hi) as (f & Hf & He).
    eapply completion_flush_ok; [done|]. by eapply ok_flushes0, list_elem_of_lookup_2.
  - intros i g Hg. destruct (Forall2_lookup_r _ _ _ _ _ Hl Hg) as (f & Hf & He).
    rewrite (effect_seq _ _ He). by apply ok_numbers0.
  - by eapply covered_effects.
Qed.

Lemma state_replay_ok j payload j' :
  journal_ok j → replay_state j payload = returned j' → journal_ok j'.
Proof.
  intros Hok H. unfold replay_state in H. replayed. subst. destruct Hok.
  apply (ok_same j); cbn; try done; try (by split). intros c Hc. congruence.
Qed.

Lemma rebase_replay_ok j payload j' :
  journal_ok j → replay_rebase j payload = returned j' → journal_ok j'.
Proof.
  intros Hok H. unfold replay_rebase in H. replayed. subst. destruct Hok.
  apply (ok_same j); cbn; try done; try (by split). intros c Hc. congruence.
Qed.

Lemma capture_prepare_replay_ok j payload j' :
  journal_ok j → replay_capture_prepare path j payload = returned j' → journal_ok j'.
Proof.
  intros Hok H. unfold replay_capture_prepare in H. replayed. subst.
  match goal with H : parse_capture _ _ = returned ?x |- _ => rename x into c; unfold parse_capture in H end.
  destruct Hok. apply (ok_same j); cbn; try done; try (by split).
  intros c' [= <-]. replayed. subst. by split_and!.
Qed.

Lemma capture_complete_replay_ok j payload j' :
  journal_ok j → replay_capture_complete j payload = returned j' → journal_ok j'.
Proof.
  intros Hok H. unfold replay_capture_complete in H. replayed. subst. destruct Hok.
  by apply (ok_same j); cbn; try done; try (by split).
Qed.

Lemma capture_abort_replay_ok j payload j' :
  journal_ok j → replay_capture_abort j payload = returned j' → journal_ok j'.
Proof.
  intros Hok H. unfold replay_capture_abort in H. replayed. subst. destruct Hok.
  by apply (ok_same j); cbn; try done; try (by split).
Qed.

Lemma capture_disarm_replay_ok j payload j' :
  journal_ok j → replay_capture_disarm j payload = returned j' → journal_ok j'.
Proof.
  intros Hok H. unfold replay_capture_disarm in H. replayed. subst. destruct Hok.
  apply (ok_same j); cbn; try done; try (by split). intros c Hc. congruence.
Qed.

Lemma reconcile_same j j' : reconcile_switch j = returned j' →
  (∃ s, j' = set_admission j s) ∨ j' = j.
Proof.
  intros H. unfold reconcile_switch in H. repeat case_match; replayed; subst; eauto.
Qed.

Lemma switch_replay_ok j payload j' :
  journal_ok j → replay_switch j payload = returned j' → journal_ok j'.
Proof.
  intros Hok H. unfold replay_switch in H.
  apply bind_returned in H as (pattern & Hp & H). apply bind_returned in H as ([] & _ & H).
  apply bind_returned in H as (bars & Hb & H). apply bind_returned in H as (fingerprint & Hf & H).
  apply bind_returned in H as (revision & Hr & H). apply bind_returned in H as ([] & Hg & H).
  apply bind_returned in H as (k & Hk & <-%returned_inj). replayed.
  match goal with H : capture_commit j = None |- _ => rename H into Hc end.
  assert (revision < 2 ^ 64) as Hrev by (subst; by apply (ok_revision j Hok)).
  apply reconcile_same in Hk as [[s ->]| ->]; apply (ok_same j); cbn; try assumption; try reflexivity;
    try apply Hok; intros c Hc'; rewrite Hc in Hc'; discriminate.
Qed.

Lemma plain_replay_ok j kind payload j' :
  journal_ok j → replay_plain path corrupt j kind payload = returned j' → journal_ok j'.
Proof.
  intros Hok H. unfold replay_plain in H.
  case_bool_decide; [exact (tail_ok _ _ _ Hok H)|].
  case_bool_decide; [exact (flush_replay_ok _ _ _ Hok H)|].
  case_bool_decide; [exact (complete_replay_ok _ _ _ Hok H)|].
  case_bool_decide; [exact (state_replay_ok _ _ _ Hok H)|].
  case_bool_decide; [exact (rebase_replay_ok _ _ _ Hok H)|].
  case_bool_decide; [exact (capture_prepare_replay_ok _ _ _ Hok H)|].
  case_bool_decide; [exact (capture_complete_replay_ok _ _ _ Hok H)|].
  case_bool_decide; [exact (capture_abort_replay_ok _ _ _ Hok H)|].
  case_bool_decide; [exact (capture_disarm_replay_ok _ _ _ Hok H)|].
  case_bool_decide; [exact (switch_replay_ok _ _ _ Hok H)|]. discriminate.
Qed.

(** An admission record changes the tail and the admission only. *)
Lemma admission_change_ok j s replay news j' replay' :
  journal_ok j → admission_change j s replay news j' replay' → journal_ok j'.
Proof.
  intros Hok H. assert (∀ s', journal_ok (set_admission j s')) as Hset.
  { intros s'. destruct Hok. by apply (ok_same j); cbn; try done; try (by split). }
  destruct H; try apply Hset. pose proof Hok as Hj. destruct Hj.
  match goal with H : transfer_accepted _ _ _ _ |- _ => pose proof (transfer_sequence _ _ _ _ H) as Hseq end.
  unfold transferred. destruct (journal_input_sequence t) as [n|] eqn:En.
  - destruct (Hseq n eq_refl) as [_ Hn].
    apply (ok_same j); cbn; try assumption; try reflexivity; [u_lia|]. intros m [= <-].
    match goal with H : typed t |- _ => cbn [typed codec_transfer codec_option] in H; rewrite En in H end.
    naive_solver.
  - apply (ok_same j); cbn; try assumption; try reflexivity.
Qed.

Lemma replay_ok d payload d' : (saw_begin d = true → journal_ok (journal d)) →
  replay_record path corrupt d payload = returned d' → journal_ok (journal d').
Proof.
  intros Hok H. unfold replay_record in H. apply at_reason_returned in H.
  apply bind_returned in H as (kind & _ & H). unfold replay_kind in H.
  destruct d as [began j n]. cbn [saw_begin journal admission_candidate_bytes] in *.
  destruct began; cbn [negb] in H; [destruct (String.prefix _ kind)|].
  - unfold replay_admission in H. cbn [saw_begin journal admission_candidate_bytes] in H.
    apply bind_returned in H as ([[[] j'] replay'] & Ha & H);
      [|by apply bind_returned in H as ([] & H & _)].
    apply bind_returned in H as ([] & _ & <-%returned_inj). cbn [journal].
    apply apply_returned in Ha as (identity & k & data & _ & _ & _ & Ha & _).
    apply apply_dispatch_effect in Ha. inversion Ha; subst.
    + destruct (Hok eq_refl). by apply (ok_same j); cbn; try assumption; try reflexivity.
    + by eapply admission_change_ok; [apply Hok|].
  - apply bind_returned in H as (j' & Hp & <-%returned_inj). eapply plain_replay_ok; [by apply Hok|done].
  - apply bind_returned in H as (j' & Hb & <-%returned_inj). by apply begin_ok in Hb.
Qed.

Lemma read_journal_invariant payloads d :
  read_journal path corrupt payloads = returned d → journal_ok (journal d).
Proof.
  intros H. unfold read_journal in H. apply bind_returned in H as (d' & H & H').
  apply bind_returned in H' as ([] & Hb & <-%returned_inj).
  apply at_reason_returned, require_returned in Hb.
  assert (saw_begin empty_document = true → journal_ok (journal empty_document)) as Hok by done.
  revert H Hok. generalize empty_document. induction payloads as [|p l IH]; intros d0 H Hok.
  - apply returned_inj in H as ->. by apply Hok.
  - cbn [fold_outcome] in H. apply bind_returned in H as (d1 & H1 & H).
    apply (IH d1 H). intros _. by eapply replay_ok.
Qed.
End preserved.
