(* ===== verification/JournalAppend.v ===== *)
(** What the operations of the journal write is read back.

    A record that an operation of [SequenceJournal] appends is accepted when the
    journal is read again, and has the effect the operation promised. *)

From S2P Require Import Prelude Json Foundation Text Project Sequence Soundset Outcome Admission AdmissionCodec AdmissionMachine Journal AdmissionLaws AdmissionLog JournalLaws.

Section append.
Context `{JL : JsonLib} `{TL : !TextLib}.
Implicit Types (j : ActiveSequenceJournal) (f g : SequenceFlushRecord).

(** A flush after [g], numbered [sequence], was committed: what [g] has not
    resolved of it is left. *)
Definition settle (sequence : N) g f : SequenceFlushRecord :=
  if flush_completed f || negb (bool_decide (flush_pattern f = flush_pattern g)) ||
     negb (flush_revision f =? flush_revision g) then f
  else
    let residual := if flush_seq f <=? sequence then []
                    else uncommitted_residual (canonical_events g) (recovery_events f) in
    MkFlushRecord (flush_seq f) (flush_command f) (flush_pattern f) (flush_revision f)
      (canonical_events f) residual (is_empty residual).

Definition settled_journal j (sequence committed : N) (fingerprint : string) : ActiveSequenceJournal :=
  match find_flush sequence (flushes j) with
  | Some g =>
      set_revision (set_flushes j (next_flush_seq j) (settle sequence g <$> flushes j)
                      (uncommitted_residual (canonical_events g) (pending_events j)))
        committed fingerprint
  | None => j
  end.

(** The journal once the switch that is pending was taken. *)
Definition reconciled j : ActiveSequenceJournal :=
  match admission j with
  | Some s =>
      if completed s then j
      else match pending_switch s with
           | Some b => set_admission j (set_segment_generation s (generation b))
           | None => j
           end
  | None => j
  end.

Definition captured j (committed : N) : ActiveSequenceJournal :=
  set_capture (set_revision j committed (pattern_fingerprint j)) None None.

(** The operation appends [record], and promises the journal [j']. *)
Inductive appends j : json → ActiveSequenceJournal → Prop :=
  | appends_tail session pattern revision input l record :
      input < 2 ^ 64 →
      append_tail j session pattern revision input l = success (append_record record ()) →
      appends j record (set_tail j (Some input) (u64_add (next_tail_seq j) 1) (merge_pattern_events [] l))
  | appends_flush session command pattern revision l record f :
      append_flush j session command pattern revision l = success (append_record record f) →
      appends j record (set_flushes j (u64_add (next_flush_seq j) 1) (flushes j ++ [f]) [])
  | appends_complete session sequence committed fingerprint record :
      sequence < 2 ^ 64 → committed < 2 ^ 64 →
      complete_flush j session sequence committed fingerprint = success (append_record record ()) →
      appends j record (settled_journal j sequence committed fingerprint)
  | appends_state session s record :
      set_session_state j session s = success (append_record record ()) →
      appends j record (set_state j s)
  | appends_rebase session revision record :
      revision < 2 ^ 64 →
      rebase j session revision = success (append_record record ()) →
      appends j record (set_revision j revision (pattern_fingerprint j))
  | appends_prepare session c record :
      byte_length (capture_artifact c) < 2 ^ 64 →
      prepare_armed_capture j session c = success (append_record record ()) →
      appends j record (set_capture j (armed_capture_slot j) (Some c))
  | appends_capture session command s committed record :
      complete_armed_capture j session command s committed = success (append_record record ()) →
      appends j record (captured j committed)
  | appends_disarm session s record :
      disarm_capture j session s = success (append_record record ()) →
      appends j record (set_capture j None None)
  | appends_resolution session s inspect record r :
      resolve_capture_disarm j session s inspect = success (append_record record r) →
      appends j record (if reconciled_commit r then captured j (disarm_revision r)
                        else set_capture j None None)
  | appends_switch session pattern bars fingerprint revision record :
      switch_pattern j session pattern bars fingerprint revision = success (append_record record ()) →
      appends j record (set_pattern (reconciled j) pattern bars fingerprint revision).
End append.

(** Read the members of a record, whose list [Hf] gives. *)
Ltac read Hf :=
  repeat (first
    [ erewrite (integer_at_fields _ _ _ _ _ Hf) by first [reflexivity | assumption | done | lia]
    | erewrite (small_integer_at_fields _ _ _ _ Hf) by first [reflexivity | done]
    | erewrite (id_at_fields _ _ _ _ _ Hf) by reflexivity
    | erewrite (get_string_at_fields _ _ _ _ _ Hf) by reflexivity
    | erewrite (valid_slot_fields _ _ _ _ Hf) by first [reflexivity | assumption]
    | erewrite (at_fields _ _ _ _ Hf) by reflexivity ];
    cbn [mbind outcome_bind at_reason]).

(** The checks of an operation hold where the record is replayed. *)
Ltac recheck :=
  repeat match goal with
  | H : ?b = true |- context [?b] => rewrite H
  | H : ?b = false |- context [?b] => rewrite H
  | H : ?b = None |- context [?b] => rewrite H
  end;
  rewrite ?N.eqb_refl, ?bool_decide_true by done;
  cbn [negb andb orb has_value is_empty require mbind outcome_bind at_reason].

Section accepted.
Context `{JL : JsonLib} `{!JsonLaws JL} `{TL : !TextLib} (path : string) (corrupt : string → string → Error).
Implicit Types (j : ActiveSequenceJournal) (f g : SequenceFlushRecord).

(** The record says [kind], and replaying it gives [j']. *)
Definition accepted j (record : json) j' : Prop :=
  ∃ kind, get_string_at record "kind" = returned kind ∧ String.prefix "admission-" kind = false ∧
    replay_plain path corrupt j kind record = returned j'.

Lemma merge_idem l : merge_pattern_events [] (merge_pattern_events [] l) = merge_pattern_events [] l.
Proof. apply merge_ext. intros k. cbn [app]. by rewrite merge_lookup. Qed.

Lemma merge_nonempty l : is_empty l = false → is_empty (merge_pattern_events [] l) = false.
Proof.
  intros Hl. destruct l as [|e l]; [done|].
  destruct (merge_pattern_events [] (e :: l)) as [|e' l'] eqn:E; [|done].
  pose proof (proj2 (merge_keys [] (e :: l) (event_key e))) as H. rewrite E in H.
  assert (event_key e ∈ event_key <$> ([] : list PatternEvent)) as []%elem_of_nil.
  apply H. right. by left.
Qed.

Lemma tail_accepted j session pattern revision input l record :
  journal_ok j → input < 2 ^ 64 →
  append_tail j session pattern revision input l = success (append_record record ()) →
  accepted j record
    (set_tail j (Some input) (u64_add (next_tail_seq j) 1) (merge_pattern_events [] l)).
Proof.
  intros Hok Hi H. unfold append_tail in H. case_match eqn:E1; [done|]. case_match eqn:E2; [done|].
  case_match eqn:E3; [done|]. injection H as <-.
  set (canonical := merge_pattern_events [] l) in *. bool_to_prop. subst.
  assert (fields (tail_json j input canonical)
    [("events", events_json canonical); ("expected_revision", j_uint (journal_revision j));
     ("input_sequence", j_uint input); ("kind", j_string "tail");
     ("pattern_id", j_string (value (journal_pattern j)));
     ("tail_seq", j_uint (next_tail_seq j))]) as Hf by (by apply fields_j_object).
  exists "tail". split; [by apply (get_string_at_fields _ _ _ _ _ Hf)|]. split; [done|].
  unfold replay_plain. rewrite bool_decide_true by done.
  pose proof (ok_revision _ Hok). pose proof (ok_next_tail _ Hok).
  unfold replay_tail, tail_identity. recheck. read Hf. recheck.
  unfold tail_events. read Hf.
  assert (is_array (events_json canonical) = true) as -> by apply array_is_array.
  cbn [require mbind outcome_bind].
  rewrite parse_events_json; [|by apply loop_length_bound, ok_bars|done].
  cbn [mbind outcome_bind]. rewrite bool_decide_true by apply merge_idem.
  unfold canonical. by rewrite merge_nonempty.
Qed.

Lemma flush_accepted j session command pattern revision l record f :
  journal_ok j →
  append_flush j session command pattern revision l = success (append_record record f) →
  accepted j record (set_flushes j (u64_add (next_flush_seq j) 1) (flushes j ++ [f]) []).
Proof.
  intros Hok H. unfold append_flush in H. case_match eqn:E1; [done|]. case_match eqn:E2; [done|].
  case_match eqn:E3; [by case_match|]. apply head_filter_none in E3.
  case_match eqn:E4; [done|]. case_match eqn:E5; [done|]. case_match eqn:E6; [done|].
  injection H as <- <-. set (canonical := merge_pattern_events [] l) in *.
  checks. subst.
  set (g := MkFlushRecord _ _ _ _ _ _ _).
  assert (fields (flush_json g) (flush_fields g)) as Hf by (by apply fields_j_object).
  unfold flush_fields in Hf. cbn [flush_command flush_revision flush_seq canonical_events flush_pattern g] in Hf.
  exists "flush". split; [by apply (get_string_at_fields _ _ _ _ _ Hf)|]. split; [done|].
  unfold replay_plain. rewrite bool_decide_false, bool_decide_true by done.
  pose proof (ok_revision _ Hok).
  assert (next_flush_seq j < 2 ^ 64) by (rewrite (ok_next_flush _ Hok); apply wrap_lt).
  assert (recording_command_is_new (flushes j) command = true) as Hnew.
  { apply forallb_forall. intros x Hx%list_elem_of_In. rewrite Forall_forall in E3.
    by rewrite bool_decide_false by (by apply E3). }
  unfold replay_flush. read Hf. recheck. read Hf.
  assert (is_array (events_json canonical) = true) as -> by apply array_is_array.
  cbn [require mbind outcome_bind].
  rewrite parse_events_json; [|by apply loop_length_bound, ok_bars|done].
  cbn [mbind outcome_bind].
  assert (is_empty (unresolved_batch j) || bool_decide (unresolved_batch j = canonical) = true) as ->.
  { by destruct (is_empty (unresolved_batch j)), (bool_decide (unresolved_batch j = canonical)). }
  done.
Qed.

Lemma sorted_lookup {A} (R : A → A → Prop) l i k x y :
  StronglySorted R l → l !! i = Some x → l !! k = Some y → (i < k)%nat → R x y.
Proof.
  intros Hs. revert i k. induction Hs as [|z l Hl IH Hz]; intros i k Hi Hk Hlt; [done|].
  destruct k as [|k]; [lia|]. destruct i as [|i]; cbn in *.
  - simplify_eq. rewrite Forall_forall in Hz. by eapply Hz, list_elem_of_lookup_2.
  - eapply IH; try done. lia.
Qed.

(** A completion covers what the flushes before it have not committed. *)
Lemma completion_covers j sequence g f : journal_ok j → N.of_nat (length (flushes j)) < 2 ^ 64 →
  find_flush sequence (flushes j) = Some g → f ∈ flushes j → flush_seq f ≤ sequence →
  covered_by f g.
Proof.
  intros Hok Hlen Hg Hf Hle. unfold find_flush in Hg. apply head_filter_some in Hg as [Hg <-].
  apply list_elem_of_lookup in Hg as [k Hk], Hf as [i Hi].
  pose proof (lookup_lt_Some _ _ _ Hk). pose proof (lookup_lt_Some _ _ _ Hi).
  rewrite (ok_numbers _ Hok k g), (ok_numbers _ Hok i f), !wrap_small in Hle by (done || lia).
  destruct (decide (i = k)) as [->|Hne].
  - simplify_eq. unfold covered_by. apply covers_spec, Forall_forall. intros e He.
    pose proof (ok_flushes _ Hok) as Hall. rewrite Forall_forall in Hall.
    specialize (Hall _ (list_elem_of_lookup_2 _ _ _ Hk)). apply flush_residual in Hall.
    rewrite Forall_forall in Hall. by apply list_elem_of_fmap_2, Hall.
  - apply (sorted_lookup covered_by (flushes j) i k); try done; [apply Hok|lia].
Qed.

Lemma complete_one_settles sequence g f : (flush_seq f ≤ sequence → covered_by f g) →
  complete_one corrupt sequence g f = returned (settle sequence g f).
Proof.
  intros Hc. unfold complete_one, settle. case_match; [done|].
  destruct (flush_seq f <=? sequence) eqn:E.
  - apply N.leb_le in E. unfold covered_by in Hc. by rewrite (Hc E).
  - by destruct (is_empty _) eqn:E'; [destruct (uncommitted_residual _ _)|].
Qed.

Lemma complete_accepted j session sequence committed fingerprint record :
  journal_ok j → sequence < 2 ^ 64 → committed < 2 ^ 64 →
  N.of_nat (length (flushes j)) < 2 ^ 64 →
  complete_flush j session sequence committed fingerprint = success (append_record record ()) →
  accepted j record (settled_journal j sequence committed fingerprint).
Proof.
  intros Hok Hs Hc Hlen H. unfold complete_flush in H. case_match eqn:E1; [done|].
  case_match eqn:E2; [done|]. case_match eqn:E3; [|done]. case_match eqn:E4; [done|].
  injection H as <-. checks. subst. rename s into g.
  assert (fields (complete_record committed sequence fingerprint)
    [("committed_revision", j_uint committed); ("flush_seq", j_uint sequence);
     ("kind", j_string "complete"); ("pattern_fingerprint", j_string fingerprint)]) as Hf
    by (by apply fields_j_object).
  exists "complete". split; [by apply (get_string_at_fields _ _ _ _ _ Hf)|]. split; [done|].
  unfold replay_plain. do 2 rewrite bool_decide_false by done. rewrite bool_decide_true by done.
  unfold replay_complete, settled_journal. read Hf. rewrite E3, E4.
  cbn [negb require library mbind outcome_bind]. read Hf. recheck.
  rewrite <- (list_fmap_id (flushes j)) at 1. rewrite (traverse_map _ id (settle sequence g)).
  { cbn [mbind outcome_bind]. by read Hf. }
  intros f Hin. apply complete_one_settles. intros Hle. by apply (completion_covers j sequence).
Qed.

Lemma state_accepted j session s record :
  journal_ok j → set_session_state j session s = success (append_record record ()) →
  accepted j record (set_state j s).
Proof.
  intros Hok H. unfold set_session_state in H. case_match eqn:E1; [done|]. case_match eqn:E2; [done|].
  injection H as <-. checks. set (record := j_object _).
  assert (fields record [("kind", j_string "state"); ("state", j_string (state_string s))]) as Hf
    by (by apply fields_j_object).
  exists "state". split; [by apply (get_string_at_fields _ _ _ _ _ Hf)|]. split; [done|].
  unfold replay_plain. do 3 rewrite bool_decide_false by done. rewrite bool_decide_true by done.
  unfold replay_state. recheck. read Hf. by destruct s.
Qed.

Lemma rebase_accepted j session revision record :
  journal_ok j → revision < 2 ^ 64 → rebase j session revision = success (append_record record ()) →
  accepted j record (set_revision j revision (pattern_fingerprint j)).
Proof.
  intros Hok Hr H. unfold rebase in H. case_match eqn:E1; [done|]. injection H as <-. checks.
  set (record := j_object _).
  assert (fields record [("expected_revision", j_uint revision); ("kind", j_string "rebase")]) as Hf
    by (by apply fields_j_object).
  exists "rebase". split; [by apply (get_string_at_fields _ _ _ _ _ Hf)|]. split; [done|].
  unfold replay_plain. do 4 rewrite bool_decide_false by done. rewrite bool_decide_true by done.
  unfold replay_rebase. read Hf. rewrite (proj2 (N.ltb_lt _ _)) by done. recheck. done.
Qed.

Lemma prepare_accepted j session c record :
  journal_ok j → byte_length (capture_artifact c) < 2 ^ 64 →
  prepare_armed_capture j session c = success (append_record record ()) →
  accepted j record (set_capture j (armed_capture_slot j) (Some c)).
Proof.
  intros Hok Hb H. unfold prepare_armed_capture in H. case_match eqn:E1; [done|].
  case_match eqn:E2; [done|]. injection H as <-. checks. pose proof (ok_revision _ Hok).
  exists "capture-prepare". split.
  { eapply get_string_at_fields; [done|by apply fields_j_object|done]. }
  split; [done|].
  unfold replay_plain. do 5 rewrite bool_decide_false by done. rewrite bool_decide_true by done.
  unfold replay_capture_prepare. rewrite parse_capture_json; [|split_and!; try done; congruence].
  cbn [mbind outcome_bind]. recheck.
  match goal with H : capture_revision c = _ |- _ => rewrite H end. by rewrite N.eqb_refl.
Qed.

Lemma capture_matches_ok j c : journal_ok j → capture_commit j = Some c →
  capture_matches j (Some (capture_slot c)) (capture_command c) (journal_revision j) = true.
Proof.
  intros Hok Hc. pose proof (ok_capture _ Hok c Hc) as (H1 & H2 & H3 & H4 & H5).
  unfold capture_matches. rewrite Hc, H1, H2, H3, H4, H5, N.eqb_refl.
  by rewrite !bool_decide_true.
Qed.

(** The three records that resolve the Capture that is prepared. *)
Lemma completion_accepted j c committed :
  journal_ok j → capture_commit j = Some c → committed = u64_add (journal_revision j) 1 →
  accepted j (capture_complete_record (capture_command c) committed (capture_slot c))
    (captured j committed).
Proof.
  intros Hok Hc ->. assert (is_valid_slot (capture_slot c) = true) as Hs.
  { apply (ok_armed _ Hok). by apply (ok_capture _ Hok). }
  set (committed := u64_add _ 1). assert (committed < 2 ^ 64) by apply wrap_lt.
  set (record := capture_complete_record _ _ _).
  assert (fields record
    [("command_id", j_string (value (capture_command c))); ("committed_revision", j_uint committed);
     ("kind", j_string "capture-complete"); ("slot", slot_json (capture_slot c))]) as Hf
    by (by apply fields_j_object).
  exists "capture-complete". split; [by apply (get_string_at_fields _ _ _ _ _ Hf)|]. split; [done|].
  unfold replay_plain. do 6 rewrite bool_decide_false by done. rewrite bool_decide_true by done.
  unfold replay_capture_complete. read Hf. rewrite capture_matches_ok by done.
  unfold committed at 1. by rewrite N.eqb_refl.
Qed.

Lemma abort_accepted j c :
  journal_ok j → capture_commit j = Some c →
  accepted j (j_object [("command_id", j_string (value (capture_command c)));
                        ("expected_revision", j_uint (capture_revision c));
                        ("kind", j_string "capture-abort"); ("slot", slot_json (capture_slot c))])
    (set_capture j None None).
Proof.
  intros Hok Hc. assert (is_valid_slot (capture_slot c) = true) as Hs.
  { apply (ok_armed _ Hok). by apply (ok_capture _ Hok). }
  pose proof (ok_capture _ Hok c Hc) as (_ & _ & Hr & _). pose proof (ok_revision _ Hok).
  rewrite Hr. set (record := j_object _).
  assert (fields record
    [("command_id", j_string (value (capture_command c)));
     ("expected_revision", j_uint (journal_revision j));
     ("kind", j_string "capture-abort"); ("slot", slot_json (capture_slot c))]) as Hf
    by (by apply fields_j_object).
  exists "capture-abort". split; [by apply (get_string_at_fields _ _ _ _ _ Hf)|]. split; [done|].
  unfold replay_plain. do 7 rewrite bool_decide_false by done. rewrite bool_decide_true by done.
  unfold replay_capture_abort. read Hf. rewrite capture_matches_ok by done. by rewrite N.eqb_refl.
Qed.

Lemma disarm_accepted j s : journal_ok j → armed_capture_slot j = Some s →
  capture_commit j = None → recording (session_state j) = true →
  accepted j (disarm_record s) (set_capture j None None).
Proof.
  intros Hok Ha Hc Hr. pose proof (ok_armed _ Hok s Ha) as Hs.
  assert (fields (disarm_record s) [("kind", j_string "capture-disarm"); ("slot", slot_json s)]) as Hf
    by (by apply fields_j_object).
  exists "capture-disarm". split; [by apply (get_string_at_fields _ _ _ _ _ Hf)|]. split; [done|].
  unfold replay_plain. do 8 rewrite bool_decide_false by done. rewrite bool_decide_true by done.
  unfold replay_capture_disarm. read Hf. rewrite Ha, Hc. recheck. done.
Qed.

Lemma capture_accepted j session command s committed record :
  journal_ok j →
  complete_armed_capture j session command s committed = success (append_record record ()) →
  accepted j record (captured j committed).
Proof.
  intros Hok H. unfold complete_armed_capture in H. case_match eqn:E1; [done|].
  case_match eqn:E2; [done|]. injection H as <-.
  destruct (capture_commit j) as [c|] eqn:Ec; checks; subst; [|done]. by apply completion_accepted.
Qed.

Lemma disarmed_accepted j session s record :
  journal_ok j → disarm_capture j session s = success (append_record record ()) →
  accepted j record (set_capture j None None).
Proof.
  intros Hok H. unfold disarm_capture in H. repeat (case_match; try done). checks. subst.
  injection H as <-. by apply disarm_accepted.
Qed.

Lemma resolution_accepted j session s inspect record r :
  journal_ok j → resolve_capture_disarm j session s inspect = success (append_record record r) →
  accepted j record (if reconciled_commit r then captured j (disarm_revision r)
                     else set_capture j None None).
Proof.
  intros Hok H. unfold resolve_capture_disarm in H. destruct inspect as [inspect|]; [|done].
  do 2 (case_match; [done|]). checks. destruct (armed_capture_slot j) as [armed|] eqn:Ea; [|done].
  case_match; [done|]. checks. subst. destruct (capture_commit j) as [c|] eqn:Ec.
  - pose proof (ok_capture _ Hok c Ec) as (_ & Ha & Hr & _). rewrite Ea in Ha. injection Ha as ->.
    apply result_bind_success in H as (truth & _ & H). destruct truth as [committed|].
    + case_match; [done|]. injection H as <- <-. checks. subst. rewrite Hr.
      by apply completion_accepted.
    + injection H as <- <-. by apply abort_accepted.
  - injection H as <- <-. by apply disarm_accepted.
Qed.

Lemma bars_fit bars : valid_bars bars = true → bars < 2 ^ 8.
Proof. intros H. apply valid_bars_spec in H. destruct H as [-> | [-> | [-> | ->]]]; lia. Qed.

(** A switch that is not blocked takes the switch that is pending. *)
Lemma reconcile_returned j pattern : blocks_switch j pattern = false →
  reconcile_switch j = returned (reconciled j).
Proof.
  unfold blocks_switch, reconcile_switch, reconciled. destruct (admission j) as [s|]; [|done].
  destruct (completed s); [done|]. destruct (pending_switch s) as [b|]; [done|].
  intros H. apply orb_false_iff in H as [_ H]. done.
Qed.

Lemma switch_accepts j session pattern bars fingerprint revision record :
  journal_ok j →
  switch_pattern j session pattern bars fingerprint revision = success (append_record record ()) →
  accepted j record (set_pattern (reconciled j) pattern bars fingerprint revision).
Proof.
  intros Hok H. unfold switch_pattern in H. case_match eqn:E1; [done|]. case_match eqn:E2; [done|].
  injection H as <-. checks. subst. pose proof (ok_revision _ Hok).
  assert (bars < 2 ^ 8) by (by apply bars_fit).
  set (revision := journal_revision j) in *.
  assert (fields (switch_record pattern bars fingerprint revision)
    [("bars", j_uint bars); ("expected_revision", j_uint revision); ("kind", j_string "switch");
     ("pattern_fingerprint", j_string fingerprint); ("pattern_id", j_string (value pattern))]) as Hf
    by (by apply fields_j_object).
  exists "switch". split; [by apply (get_string_at_fields _ _ _ _ _ Hf)|]. split; [done|].
  unfold replay_plain. do 9 rewrite bool_decide_false by done. rewrite bool_decide_true by done.
  unfold replay_switch. read Hf. recheck. read Hf. recheck. read Hf.
  rewrite bool_decide_false by done. recheck.
  erewrite reconcile_returned by done. done.
Qed.

Lemma appended_read payloads d record j' :
  read_journal path corrupt payloads = returned d →
  N.of_nat (length (flushes (journal d))) < 2 ^ 64 →
  appends (journal d) record j' →
  read_journal path corrupt (payloads ++ [record]) =
    returned (MkDocument true j' (admission_candidate_bytes d)).
Proof.
  intros Hr Hlen H. pose proof (read_journal_invariant _ _ _ _ Hr) as Hok.
  assert (accepted (journal d) record j') as (kind & Hk & Hp & Ha).
  { inversion H; subst; eauto using tail_accepted, flush_accepted, complete_accepted, state_accepted,
      rebase_accepted, prepare_accepted, capture_accepted, disarmed_accepted, resolution_accepted,
      switch_accepts. }
  rewrite (read_journal_snoc _ _ _ _ _ Hr). unfold replay_record, replay_kind. rewrite Hk.
  cbn [mbind outcome_bind]. rewrite (read_journal_begun _ _ _ _ Hr), Hp, Ha. done.
Qed.

End accepted.
