(* ===== verification/SnapshotHistory.v ===== *)
(** The segments of an admission.

    An admission runs through segments, one per Pattern it publishes.  The
    authority of a segment, once there, stays as it is, and a journal records
    into the Pattern of its segment.

    What an admission keeps, for its snapshot to open again.

    The transfers of an admission as a history, and the invariant every accepted
    record and every switch of the journal keeps. *)

From S2P Require Import Prelude Json Foundation Text Project Sequence Soundset Outcome Admission AdmissionCodec AdmissionMachine Journal AdmissionLaws AdmissionLog JournalLaws.

Section segments.
Context `{JL : JsonLib} `{TL : !TextLib}.
Implicit Types (s : SequenceAdmissionState) (j : ActiveSequenceJournal).

(** ** Authorities *)

Lemma find_switch_some g l a : find_switch g l = Some a → a ∈ l ∧ generation a = g.
Proof. unfold find_switch. intros H. by apply head_filter_some in H. Qed.

Lemma find_switch_none g l : find_switch g l = None ↔ Forall (λ a, generation a ≠ g) l.
Proof. unfold find_switch. apply head_filter_none. Qed.

Lemma find_switch_app g l l' :
  find_switch g (l ++ l') = match find_switch g l with Some a => Some a | None => find_switch g l' end.
Proof.
  unfold find_switch. rewrite filter_app. destruct (filter _ l); [by destruct (filter _ l')|done].
Qed.

(** Applied switches in increasing generations. *)
Definition increasing (l : list SequencePublicationAuthority) : Prop :=
  StronglySorted (λ a b, generation a < generation b) l.

Lemma find_switch_last l a : increasing (l ++ [a]) → find_switch (generation a) (l ++ [a]) = Some a.
Proof.
  intros Hs. rewrite find_switch_app.
  assert (find_switch (generation a) l = None) as ->.
  { apply find_switch_none, Forall_forall. intros b Hb E.
    apply list_elem_of_split in Hb as (l1 & l2 & ->). rewrite <- app_assoc in Hs.
    clear -Hs E. induction l1 as [|x l1 IH]; cbn [app] in Hs; apply StronglySorted_inv in Hs as [Hs Hx].
    - rewrite Forall_app in Hx. destruct Hx as [_ [Hx _]%Forall_cons]. lia.
    - by apply IH. }
  unfold find_switch. by rewrite filter_cons, decide_True.
Qed.

Lemma segment_of_generation s g a : segment_of s g = returned a → generation a = g.
Proof.
  unfold segment_of. destruct (g =? _) eqn:E; [by intros <-%returned_inj|].
  destruct (find_switch g _) eqn:Ef.
  - intros <-%returned_inj. by apply find_switch_some in Ef as [_ ?].
  - intros H. checks. rewrite H in *. by checks.
Qed.

(** ** What [switches_valid] found *)

Record switches_facts s : Prop := {
  switches_increasing : increasing (applied_switches s);
  switches_above : Forall (λ a, preparation_generation (preparation s) < generation a) (applied_switches s);
  switches_segment : ∃ a, segment s = returned a;
  switches_cutoff f a : cutoff_fence s = Some f → a ∈ applied_switches s →
    frame a < effective_frame f ∧
    (∀ w, switch_authority f = Some w → generation a = generation w → cutoff_switch s = Some a)
}.

Lemma check_switch_sorted s p n l q m : fold_outcome (check_switch s) (p, n) l = returned (q, m) →
  increasing l ∧ Forall (λ a, generation p < generation a) l ∧ (n <= m)%nat.
Proof.
  revert p n. induction l as [|a l IH]; intros p n H; cbn [fold_outcome] in H.
  - apply returned_inj in H as [= -> ->]. split; [constructor|by split].
  - apply bind_returned in H as ([p' n'] & H1 & H). unfold check_switch in H1.
    apply bind_returned in H1 as ([] & _ & H1). apply bind_returned in H1 as ([] & Hr & H1).
    apply returned_inj in H1 as [= <- <-]. apply IH in H as (Hs & Ha & Hn). checks.
    split; [by constructor|]. split; [|case_match; lia]. constructor; [done|].
    eapply Forall_impl; [exact Ha|]. cbn. lia.
Qed.

Lemma switches_valid_facts s : switches_valid s = returned () → switches_facts s.
Proof.
  intros H. unfold switches_valid in H. apply bind_returned in H as ([q m] & Hf & H).
  apply check_switch_sorted in Hf as (Hs & Ha & _).
  apply bind_returned in H as ([] & _ & H). apply bind_returned in H as (a & Hseg & H).
  split; [done|done|by exists a|].
  intros f b Hc Hb. rewrite Hc in H. apply bind_returned in H as ([] & Hall & _).
  apply for_all_returned in Hall. rewrite Forall_forall in Hall. specialize (Hall b Hb).
  unfold check_against_cutoff in Hall. checks. split; [done|]. intros w Hw E. rewrite Hw in Hall.
  rewrite (proj2 (N.eqb_eq _ _) E) in Hall. by checks.
Qed.

(** ** Taking the pending switch *)

Lemma pending_switch_beyond s b : pending_switch s = Some b → segment_generation s < generation b.
Proof. unfold pending_switch. intros H. by repeat case_match; simplify_eq; checks. Qed.

Lemma pending_switch_source s b : pending_switch s = Some b →
  (∃ l, applied_switches s = l ++ [b]) ∨ cutoff_switch s = Some b.
Proof.
  unfold pending_switch. destruct (applied_switches s) as [|a l _] eqn:E using rev_ind.
  - cbn. intros H. repeat case_match; simplify_eq; by right.
  - rewrite last_snoc. intros H. repeat case_match; simplify_eq; eauto.
Qed.

Lemma cutoff_switch_fence s c : cutoff_switch s = Some c →
  ∃ f w, cutoff_fence s = Some f ∧ switch_authority f = Some w ∧ generation c = generation w.
Proof.
  unfold cutoff_switch. destruct (cutoff_fence s) as [f|]; [|done]. cbn. case_match; [|done].
  destruct (switch_authority f) as [w|] eqn:E; [|done]. cbn. destruct (switch_applied_frame f); [|done].
  intros [= <-]. by exists f, w.
Qed.

(** The segment of a pending switch is the switch. *)
Lemma pending_segment s b : switches_facts s →
  preparation_generation (preparation s) ≤ segment_generation s →
  pending_switch s = Some b → segment_of s (generation b) = returned b.
Proof.
  intros [Hs Ha _ Hc] Hp Hb. pose proof (pending_switch_beyond _ _ Hb).
  unfold segment_of. rewrite (proj2 (N.eqb_neq _ _)) by lia.
  apply pending_switch_source in Hb as [[l E]|Hb].
  - rewrite E in *. by rewrite find_switch_last.
  - destruct (find_switch (generation b) (applied_switches s)) as [a|] eqn:Ef.
    + apply find_switch_some in Ef as [Hin Eg].
      destruct (cutoff_switch_fence _ _ Hb) as (f & w & Hf & Hw & E).
      destruct (Hc f a Hf Hin) as [_ Hcut]. rewrite (Hcut w Hw) in Hb by congruence. congruence.
    + rewrite Hb. cbn. by rewrite N.eqb_refl.
Qed.

(** A later segment has at most the switches an earlier one had pending. *)
Lemma check_switch_later s g p n n' l q m : segment_generation s ≤ g → (n' <= n)%nat →
  fold_outcome (check_switch s) (p, n) l = returned (q, m) →
  ∃ m', fold_outcome (check_switch (set_segment_generation s g)) (p, n') l = returned (q, m') ∧
    (m' <= m)%nat.
Proof.
  intros Hg. revert p n n'. induction l as [|a l IH]; intros p n n' Hn H; cbn [fold_outcome] in *.
  - apply returned_inj in H as [= -> ->]. by exists n'.
  - apply bind_returned in H as ([p1 n1] & H1 & H). unfold check_switch in *.
    apply bind_returned in H1 as ([] & H1 & H2). rewrite H1. cbn [mbind outcome_bind].
    apply bind_returned in H2 as ([] & H2 & H3). rewrite H2. cbn [mbind outcome_bind].
    apply returned_inj in H3 as [= <- <-]. eapply IH; [|exact H].
    cbn [segment_generation set_segment_generation].
    destruct (g <? generation a) eqn:E1, (segment_generation s <? generation a) eqn:E2; checks; lia.
Qed.

Lemma switches_valid_later s b : switches_valid s = returned () →
  preparation_generation (preparation s) ≤ segment_generation s →
  pending_switch s = Some b →
  switches_valid (set_segment_generation s (generation b)) = returned ().
Proof.
  intros H Hp Hb. pose proof (pending_segment s b (switches_valid_facts s H) Hp Hb) as Hseg.
  pose proof (pending_switch_beyond _ _ Hb).
  unfold switches_valid in *. apply bind_returned in H as ([q m] & Hf & H).
  apply (check_switch_later s (generation b) _ _ 0) in Hf as (m' & Hf & Hm); [|lia|lia].
  cbn [preparation applied_switches admission_fence set_segment_generation] in *.
  change (admission_frame (set_segment_generation s (generation b))) with (admission_frame s).
  rewrite Hf. cbn [mbind outcome_bind].
  apply bind_returned in H as ([] & Hpend & H). apply bind_returned in H as (a & _ & H).
  checks. apply Nat.leb_le in Hpend. rewrite (proj2 (Nat.leb_le _ _)) by lia. cbn [require mbind outcome_bind].
  change (segment (set_segment_generation s (generation b))) with (segment_of s (generation b)).
  rewrite Hseg. cbn [mbind outcome_bind cutoff_fence set_segment_generation].
  destruct (cutoff_fence s) as [f|]; [|done].
  change (cutoff_switch (set_segment_generation s (generation b))) with (cutoff_switch s).
  apply bind_returned in H as ([] & H1 & H). rewrite H1. cbn [mbind outcome_bind].
  destruct (cutoff_switch s) as [c|]; [|done].
  apply bind_returned in H as ([] & H2 & H). rewrite H2. cbn [mbind outcome_bind].
  destruct (generation c =? generation q); [done|]. checks. apply Nat.eqb_eq in H.
  assert (m' = 0%nat) as -> by lia. done.
Qed.

(** ** Authorities stay *)

(** [s'] knows every segment of [s], as it was. *)
Definition segments_kept s s' : Prop :=
  ∀ g a, segment_of s g = returned a → segment_of s' g = returned a.

Lemma segments_same s s' :
  preparation s' = preparation s → admission_fence s' = admission_fence s →
  cutoff_fence s' = cutoff_fence s → applied_switches s' = applied_switches s → segments_kept s s'.
Proof.
  intros E1 E2 E3 E4 g a. unfold segment_of, admission_frame, cutoff_switch.
  by rewrite E1, E2, E3, E4.
Qed.

Lemma segments_switch s a : switches_facts s → is_Some (cutoff_fence s) → cutoff_switch s = Some a →
  segments_kept s (set_switches s (applied_switches s ++ [a]) 0).
Proof.
  intros Hs _ Hc g b. unfold segment_of.
  cbn [preparation applied_switches set_switches].
  change (admission_frame (set_switches s (applied_switches s ++ [a]) 0)) with (admission_frame s).
  change (cutoff_switch (set_switches s (applied_switches s ++ [a]) 0)) with (cutoff_switch s).
  destruct (g =? _); [done|]. rewrite find_switch_app.
  destruct (find_switch g (applied_switches s)); [done|]. rewrite Hc.
  unfold find_switch. rewrite filter_cons, filter_nil. case_decide as E; cbn [head]; [|done].
  rewrite E, N.eqb_refl. done.
Qed.
End segments.

Section history.
Context `{JL : JsonLib} `{TL : !TextLib}.
Implicit Types (s : SequenceAdmissionState) (j : ActiveSequenceJournal) (t : SequenceAdmissionTransfer).

Definition transfer_generation t : N := checkpoint_generation (transfer_checkpoint t).

(** One retained transfer, in the state it is retained in. *)
Record transfer_ok s t : Prop := {
  kept_tail : tail_valid t (pattern_length_ticks 8) = returned ();
  kept_segment : ∃ a, segment_of s (transfer_generation t) = returned a ∧
    authority_pattern a = transfer_pattern t ∧ frame a ≤ last_runtime_frame (transfer_checkpoint t);
  kept_low : preparation_generation (preparation s) ≤ transfer_generation t;
  kept_high : transfer_generation t ≤ segment_generation s;
  kept_digest : hash_valid (candidates_sha256 t) = true;
  kept_receipts : Forall (λ r, hash_valid (payload_sha256 r) = true) (candidate_receipts t);
  kept_kind :
    if terminal t then
      transfer_first t = 0 ∧ transfer_last t = 0 ∧ candidate_receipts t = [] ∧
      candidates_sha256 t = digest (j_array []) ∧ journal_input_sequence t = None ∧
      owned_presses (transfer_checkpoint t) = []
    else
      Some (transfer_first t) = receipt_watermark <$> head (candidate_receipts t) ∧
      Some (transfer_last t) = receipt_watermark <$> last (candidate_receipts t)
}.

(** Transfers in order: fresh, none after the terminal one, no generation twice
    left behind. *)
Inductive history s : list SequenceAdmissionTransfer → Prop :=
  | history_nil : history s []
  | history_snoc l t :
      history s l → Forall (λ e, terminal e = false) l →
      Forall (λ e, transfer_id e ≠ transfer_id t) l →
      Forall (λ e, transfer_generation e ≤ transfer_generation t) l →
      transfer_ok s t → history s (l ++ [t]).

(** What is retained once the admission was drained. *)
Definition drained s : Prop :=
  is_Some (cutoff_fence s) ∧ is_Some (closure s) ∧ candidates s = [] ∧ pending_switch s = None ∧
  ∀ t, last (transfers s) = Some t → Some (transfer_pattern t) = fence_pattern <$> cutoff_fence s.

Record admission_ok j s : Prop := {
  adm_typed : typed s;
  adm_log : log_ok s;
  adm_fences : fences_valid s = returned ();
  adm_switches : switches_valid s = returned ();
  adm_low : preparation_generation (preparation s) ≤ segment_generation s;
  adm_published : published_generation s = 0 ∨
    preparation_generation (preparation s) < published_generation s;
  adm_pattern : completed s = false →
    ∃ a, segment s = returned a ∧ authority_pattern a = journal_pattern j;
  adm_candidates : Forall (λ c, candidate_valid c = returned ()) (candidates s);
  adm_closure c : closure s = Some c → closure_valid c s = returned ();
  adm_fenced : transfers s ≠ [] → is_Some (admission_fence s);
  adm_completed : completed s = true → terminal_retained s = true;
  adm_drained : terminal_retained s = true → drained s;
  adm_history : history s (transfers s)
}.

(** ** Stability *)

Lemma transfer_kept s s' t :
  segments_kept s s' → preparation s' = preparation s →
  segment_generation s ≤ segment_generation s' → transfer_ok s t → transfer_ok s' t.
Proof.
  intros Hk Ep Hg [H1 (a & Ha & ?) H3 H4 H5 H6 H7]. split; try done.
  - exists a. split; [by apply Hk|done].
  - by rewrite Ep.
  - lia.
Qed.

Lemma history_kept s s' l :
  segments_kept s s' → preparation s' = preparation s →
  segment_generation s ≤ segment_generation s' → history s l → history s' l.
Proof.
  intros Hk Ep Hg. induction 1; constructor; try done. by eapply transfer_kept.
Qed.

(** The closure is about the end of the log, which a closed admission keeps. *)
Lemma closure_valid_log c s s' : log_ok s → log_ok s' → admitted s' = admitted s →
  closure_valid c s = returned () → closure_valid c s' = returned ().
Proof.
  intros Hs Hs' E. unfold closure_valid.
  by rewrite (last_watermark_log s Hs), (last_watermark_log s' Hs'), E.
Qed.

(** ** A preparation *)

Lemma prepared_kept j p : typed p → preparation_valid p = returned () →
  preparation_pattern p = journal_pattern j → admission_ok (set_admission j (prepared p)) (prepared p).
Proof.
  intros Ht Hv Hp.
  assert (segment (prepared p) =
    returned (MkPublicationAuthority (preparation_pattern p) (preparation_generation p) 0)) as Hs.
  { unfold segment, segment_of. cbn. by rewrite N.eqb_refl. }
  split; cbn; try done.
  - cbn [typed codec_state prepared codec_option codec_list]. cbn. cbn [typed codec_preparation] in Ht.
    repeat split; try done; try constructor; naive_solver.
  - by apply prepared_ok.
  - unfold switches_valid. cbn [fold_outcome mbind outcome_bind]. rewrite Hs. done.
  - by left.
  - intros _. eexists. split; [exact Hs|done].
  - constructor.
Qed.

(** ** Records that leave the segments and the transfers *)

Lemma same_segments_ok j j' s s' :
  admission_ok j s → journal_pattern j' = journal_pattern j →
  preparation s' = preparation s → admission_fence s' = admission_fence s →
  cutoff_fence s' = cutoff_fence s → applied_switches s' = applied_switches s →
  segment_generation s' = segment_generation s → transfers s' = transfers s →
  typed s' → log_ok s' → switches_valid s' = returned () →
  (published_generation s' = 0 ∨ preparation_generation (preparation s) < published_generation s') →
  Forall (λ c, candidate_valid c = returned ()) (candidates s') →
  (∀ c, closure s' = Some c → closure_valid c s' = returned ()) →
  (completed s' = false → completed s = false) →
  (completed s' = true → terminal_retained s = true) →
  (terminal_retained s = true → is_Some (closure s') ∧ candidates s' = []) →
  admission_ok j' s'.
Proof.
  intros Hok Ej Ep Ea Ec El Eg Et ? ? ? Hpub ? ? Hc1 Hc2 Hdr.
  assert (segments_kept s s') as Hk by (by apply segments_same).
  destruct Hok. split; try done.
  - unfold fences_valid. rewrite Ep, Ea, Ec. done.
  - by rewrite Ep, Eg.
  - by rewrite Ep.
  - intros Hc. destruct (adm_pattern0 (Hc1 Hc)) as (a & Ha & ?). exists a. rewrite Ej. split; [|done].
    unfold segment. rewrite Eg. by apply Hk.
  - rewrite Et, Ea. done.
  - unfold terminal_retained. rewrite Et. apply Hc2.
  - unfold terminal_retained. rewrite Et. intros Hr.
    destruct (adm_drained0 Hr) as (? & _ & _ & ? & ?). destruct (Hdr Hr) as [? ?].
    unfold drained. rewrite Ec, Et. split_and!; try done.
    unfold pending_switch, cutoff_switch in *. by rewrite El, Ec, Eg.
  - rewrite Et. apply (history_kept s); [exact Hk|done|lia|done].
Qed.

Lemma typed_parts s : typed s ↔
  typed (preparation s) ∧ typed (candidates s) ∧ typed (admission_fence s) ∧
  typed (cutoff_fence s) ∧ typed (closure s) ∧ typed (transfers s) ∧
  typed (applied_switches s) ∧ segment_generation s < 2 ^ 64 ∧
  published_generation s < 2 ^ 64 ∧ typed (timing_profiles s).
Proof. done. Qed.

Lemma typed_snoc `{!Codec T} (l : list T) x : typed l → typed x → typed (l ++ [x]).
Proof. intros Hl Hx. cbn. apply Forall_app. by repeat constructor. Qed.

End history.

(** The members of a state that an admission keeps typed. *)
Ltac typed_admission Hok :=
  let Ht := fresh in
  pose proof (adm_typed _ _ Hok) as Ht; apply typed_parts in Ht;
  destruct Ht as (? & ? & ? & ? & ? & ? & ? & ? & ? & ?); apply typed_parts;
  split_and!; try assumption.

Section kept.
Context `{JL : JsonLib} `{TL : !TextLib}.
Implicit Types (s : SequenceAdmissionState) (j : ActiveSequenceJournal).

Lemma profile_kept j s p : admission_ok j s → typed p → profile_accepted j s p →
  log_ok (set_profiles s (timing_profiles s ++ [p])) →
  admission_ok j (set_profiles s (timing_profiles s ++ [p])).
Proof.
  intros Hok Hp [[(Hc & Hr & _) _] _ _ _ _ _ _ _ _] Hlog.
  apply (same_segments_ok j j s); try apply Hok; try done.
  - typed_admission Hok. by apply typed_snoc.
  - intros Hr'. congruence.
Qed.

Lemma candidate_kept j s c size : admission_ok j s → typed c →
  candidate_valid c = returned () → accepting s j → closure s = None →
  log_ok (with_candidate s size c) → admission_ok j (with_candidate s size c).
Proof.
  intros Hok Hc Hv (Hd & Hr & _) Hcl Hlog.
  assert (last_watermark (with_candidate s size c) = Some (watermark c)) as Hl.
  { unfold last_watermark. by rewrite candidates_with_candidate, last_snoc. }
  unfold with_candidate in *. cbn [candidates set_candidates] in *.
  assert (typed (candidates s ++ [c])) as Hcs.
  { apply typed_snoc; [|done]. by apply (adm_typed _ _ Hok). }
  assert (Forall (λ c, candidate_valid c = returned ()) (candidates s ++ [c])) as Hvs.
  { apply Forall_app. split; [apply Hok|by repeat constructor]. }
  case_match; apply (same_segments_ok j j s); try done; try apply Hok; try congruence.
  - typed_admission Hok. cbn. cbn in Hc. split; [naive_solver|done].
  - intros c' [= <-]. unfold closure_valid. rewrite Hl. cbn. by rewrite bool_decide_true.
  - typed_admission Hok.
  - cbn. rewrite Hcl. done.
Qed.

Lemma overlay_kept j s g : admission_ok j s → g < 2 ^ 64 → overlay_accepted j s g →
  log_ok (set_switches s (applied_switches s) g) →
  admission_ok j (set_switches s (applied_switches s) g).
Proof.
  intros Hok Hg [[Hd Hr] _ Hcut _ (a & Ha & Hlt) _] Hlog.
  apply (same_segments_ok j j s); try done; try apply Hok; try congruence.
  - typed_admission Hok.
  - pose proof (adm_switches _ _ Hok) as Hs. unfold switches_valid in *.
    cbn [cutoff_fence set_switches]. rewrite Hcut in *. exact Hs.
  - right. apply segment_of_generation in Ha. pose proof (adm_low _ _ Hok).
    cbn [published_generation set_switches]. lia.
Qed.

Lemma close_kept j s c : admission_ok j s → typed c → closure s = None → completed s = false →
  closure_valid c s = returned () → log_ok (set_closure s (Some c)) →
  admission_ok j (set_closure s (Some c)).
Proof.
  intros Hok Hc Hcl Hd Hv Hlog.
  apply (same_segments_ok j j s); try done; try apply Hok; try congruence.
  - typed_admission Hok.
  - by intros c' [= <-].
  - intros Hr. destruct (adm_drained _ _ Hok Hr) as (_ & [? ?] & _). congruence.
Qed.

Lemma complete_kept j s : admission_ok j s → completed s = false → terminal_retained s = true →
  log_ok (set_completed s) → admission_ok j (set_completed s).
Proof.
  intros Hok Hd Hr Hlog. apply (same_segments_ok j j s); try done; try apply Hok.
  intros _. destruct (adm_drained _ _ Hok Hr) as (? & ? & ? & _). done.
Qed.

(** ** Fences *)

Lemma fence_kept j s f : admission_ok j s → typed f → completed s = false →
  (if fence_kind f =? SequenceFenceKind.admission then admission_fence s = None
   else cutoff_fence s = None) →
  fences_valid (with_fence s f) = returned () → switches_valid (with_fence s f) = returned () →
  log_ok (with_fence s f) → admission_ok j (with_fence s f).
Proof.
  intros Hok Hf Hd Hnone Hfv Hsv Hlog. unfold with_fence in *.
  destruct (fence_kind f =? _) eqn:Ek.
  - assert (transfers s = []) as Et.
    { destruct (transfers s) eqn:E; [done|]. pose proof (adm_fenced _ _ Hok) as H. rewrite E in H.
      destruct (H ltac:(done)). congruence. }
    assert (terminal_retained s = false) as Er by (unfold terminal_retained; by rewrite Et).
    destruct (switches_segment _ (switches_valid_facts _ Hsv)) as (a' & Ha').
    destruct (adm_pattern _ _ Hok Hd) as (a & Ha & Hp).
    split; try done; try apply Hok.
    + typed_admission Hok.
    + intros _. exists a'. split; [done|]. rewrite <- Hp.
      unfold segment, segment_of in Ha, Ha'.
      cbn [preparation applied_switches segment_generation set_fences] in Ha'.
      change (cutoff_switch (set_fences s (Some f) (cutoff_fence s))) with (cutoff_switch s) in Ha'.
      revert Ha Ha'. destruct (segment_generation s =? preparation_generation (preparation s)); [by intros <-%returned_inj <-%returned_inj|congruence].
    + cbn [transfers set_fences]. rewrite Et. constructor.
  - assert (terminal_retained s = false) as Er.
    { destruct (terminal_retained s) eqn:E; [|done].
      destruct (adm_drained _ _ Hok E) as ([? ?] & _). congruence. }
    assert (segments_kept s (set_fences s (admission_fence s) (Some f))) as Hk.
    { intros g a. unfold segment_of, cutoff_switch. rewrite Hnone.
      cbn [preparation applied_switches segment_generation set_fences].
      change (admission_frame (set_fences s (admission_fence s) (Some f))) with (admission_frame s).
      destruct (g =? preparation_generation (preparation s)); [done|]. destruct (find_switch g (applied_switches s)); [done|]. done. }
    split; try done; try apply Hok.
    + typed_admission Hok.
    + intros _. destruct (adm_pattern _ _ Hok Hd) as (a & Ha & ?). exists a. split; [by apply Hk|done].
    + change (terminal_retained (set_fences s (admission_fence s) (Some f))) with (terminal_retained s).
      congruence.
    + apply (history_kept s); [done|done|done|apply Hok].
Qed.

(** ** Switches *)

Lemma switch_segments_kept j s a : switch_accepted j s a →
  segments_kept s (set_switches s (applied_switches s ++ [a]) 0).
Proof.
  intros Ha g b. unfold segment_of. cbn [preparation applied_switches set_switches].
  change (admission_frame (set_switches s (applied_switches s ++ [a]) 0)) with (admission_frame s).
  change (cutoff_switch (set_switches s (applied_switches s ++ [a]) 0)) with (cutoff_switch s).
  destruct (g =? _); [done|]. rewrite find_switch_app.
  destruct (find_switch g (applied_switches s)); [done|]. intros H. checks.
  assert (is_Some (cutoff_fence s)) as Hc.
  { destruct (cutoff_switch_fence _ _ H) as (f & _ & Hf & _). by exists f. }
  pose proof (switch_agrees _ _ _ Ha Hc) as E. rewrite E in *. checks. subst.
  unfold find_switch. rewrite filter_cons, decide_True; done.
Qed.

Lemma switch_kept j s a : admission_ok j s → typed a → switch_accepted j s a →
  log_ok (set_switches s (applied_switches s ++ [a]) 0) →
  admission_ok j (set_switches s (applied_switches s ++ [a]) 0).
Proof.
  intros Hok Hta Ha Hlog. destruct (switch_open _ _ _ Ha) as (Hd & Hr & _).
  pose proof (switch_segments_kept _ _ _ Ha) as Hk.
  split; try done; try apply Hok; try apply Ha.
  - typed_admission Hok; [by apply typed_snoc|done].
  - by left.
  - intros _. destruct (adm_pattern _ _ Hok Hd) as (b & Hb & ?). exists b. split; [by apply Hk|done].
  - change (terminal_retained (set_switches s (applied_switches s ++ [a]) 0)) with (terminal_retained s).
    congruence.
  - apply (history_kept s); [done|done|done|apply Hok].
Qed.
End kept.
