(* ===== verification/SnapshotLaws.v ===== *)
(** Every admission that can be read keeps what its snapshot needs.

    Transfers, switches of the journal, and from there any journal.

    A sealed admission opens again.

    The checks of [snapshot] hold of the admission of any journal that can be
    read, the timing profiles apart, and the document holds the whole state. *)

From S2P Require Import Prelude Json Foundation Text Project Sequence Soundset Outcome Admission AdmissionCodec AdmissionMachine Journal AdmissionLaws AdmissionLog JournalLaws SnapshotHistory.

Section invariant.
Context `{JL : JsonLib} `{TL : !TextLib} `{TW : !TextLaws}.
Implicit Types (s : SequenceAdmissionState) (j : ActiveSequenceJournal) (t : SequenceAdmissionTransfer).

(** ** A longer loop holds what a shorter one does *)

Lemma tail_event_longer len len' e : len ≤ len' → len' < 2 ^ 32 →
  tail_event_valid len e = true → tail_event_valid len' e = true.
Proof.
  intros ?? He. unfold tail_event_valid in *. bool_to_prop. rewrite !andb_true_iff, !N.leb_le, !N.ltb_lt.
  rewrite u32_sub_le in * by lia. split_and!; try done; lia.
Qed.

Lemma presses_longer len len' occupied l : len ≤ len' →
  presses_valid len occupied l = returned () → presses_valid len' occupied l = returned ().
Proof.
  intros Hle. revert occupied. induction l as [|p l IH]; intros occupied H; [done|].
  cbn [presses_valid] in *. apply bind_returned in H as ([] & H1 & H).
  apply bind_returned in H as ([] & H2 & H). apply IH in H. rewrite H, H2. checks.
  repeat match goal with H : ?b = true |- context [?b] => rewrite H end.
  rewrite (proj2 (N.leb_le _ _)), (proj2 (N.leb_le _ _)), (proj2 (N.ltb_lt _ _)) by lia. done.
Qed.

Lemma tail_valid_longer t len len' : len ≤ len' → len' < 2 ^ 32 →
  tail_valid t len = returned () → tail_valid t len' = returned ().
Proof.
  intros Hle Hlt H. unfold tail_valid in *. apply bind_returned in H as ([] & H1 & H).
  rewrite H1. cbn [mbind outcome_bind]. apply bind_returned in H as ([] & H2 & H).
  rewrite H2. cbn [mbind outcome_bind]. apply bind_returned in H as ([] & H3 & H).
  rewrite H3. cbn [mbind outcome_bind]. apply bind_returned in H as ([] & H4 & H).
  apply for_all_returned in H4.
  rewrite (proj2 (for_all_returned _ _ ())).
  - cbn [mbind outcome_bind]. unfold checkpoint_valid in *. apply bind_returned in H as ([] & H5 & H).
    rewrite H5. cbn [mbind outcome_bind]. apply bind_returned in H as ([] & H6 & H).
    rewrite H6. cbn [mbind outcome_bind]. by eapply presses_longer.
  - eapply Forall_impl; [exact H4|]. cbn. intros e He. apply require_returned in He.
    rewrite (tail_event_longer len len'); done.
Qed.

Lemma loop_length_most b : valid_bars b = true → pattern_length_ticks b ≤ pattern_length_ticks 8.
Proof. intros H. apply valid_bars_spec in H. destruct H as [-> | [-> | [-> | ->]]]; done. Qed.

Lemma digest_hash_valid x : hash_valid (digest x) = true.
Proof.
  pose proof (digest_valid (canonical_json dump x)) as H. unfold digest, hash_valid, valid_sha256 in *.
  case_bool_decide as E; [|done]. rewrite E. exact H.
Qed.

(** ** Transfers *)

Lemma checkpoint_frame s pattern c : checkpoint s pattern = returned c →
  history s (transfers s) →
  ∃ a, segment s = returned a ∧ authority_pattern a = pattern ∧
    checkpoint_generation c = segment_generation s ∧ frame a ≤ last_runtime_frame c.
Proof.
  intros H Hh. unfold checkpoint in H. apply bind_returned in H as (a & Ha & H). exists a.
  apply bind_returned in H as ([] & Hp & H). split; [done|]. checks. split; [done|].
  pose proof (segment_of_generation _ _ _ Ha) as Eg.
  destruct (last (transfers s)) as [t|] eqn:E; [|checks; subst; cbn; by split].
  case_match; checks; subst; [|cbn; by split]. split; [congruence|].
  inversion Hh as [En|l t' _ _ _ _ Ht El]; [by rewrite <- En in E|].
  rewrite last_snoc in E. injection E as <-.
  destruct (kept_segment _ _ Ht) as (b & Hb & _ & Hf). unfold transfer_generation in Hb.
  assert (a = b) as ->; [|done]. apply returned_inj. rewrite <- Ha, <- Hb. unfold segment. congruence.
Qed.

Lemma receipts_of_hashes l : Forall (λ r, hash_valid (payload_sha256 r) = true) (receipt_of <$> l).
Proof. apply Forall_fmap, Forall_forall. intros c _. apply digest_hash_valid. Qed.

Lemma transfer_accepted_ok j s t previous : journal_ok j → admission_ok j s →
  typed t → transfer_accepted j s t previous → transfer_ok (with_transfer s t) t.
Proof.
  intros Hj Hok Ht Ha. pose proof Ha as Ha'. destruct Ha' as [_ _ _ Hp _ Htail Hbase Hg Hf Hk _].
  destruct (checkpoint_frame _ _ _ Hbase (adm_history _ _ Hok)) as (a & Hsa & Hpa & Hga & Hfa).
  assert (transfer_generation t = segment_generation s) as Eg by (unfold transfer_generation; congruence).
  split.
  - eapply tail_valid_longer; [|done|exact Htail]. apply loop_length_most, (ok_bars _ Hj).
  - exists a. rewrite Eg. split; [exact Hsa|]. split; [congruence|lia].
  - rewrite Eg. apply Hok.
  - rewrite Eg. done.
  - destruct (terminal t) eqn:Et.
    + apply terminal_transfer_facts in Hk. rewrite (terminal_digest _ _ Hk). apply digest_hash_valid.
    + apply prefix_transfer_facts in Hk; [|done]. rewrite (prefix_digest _ _ _ _ Hk). apply digest_hash_valid.
  - destruct (terminal t) eqn:Et.
    + apply terminal_transfer_facts in Hk. by rewrite (terminal_receipts _ _ Hk).
    + apply prefix_transfer_facts in Hk; [|done]. rewrite (prefix_receipts _ _ _ _ Hk). apply receipts_of_hashes.
  - destruct (terminal t) eqn:Et.
    + apply terminal_transfer_facts in Hk. destruct Hk as [_ _ _ _ [? ?] ? ? ? ? _]. done.
    + apply prefix_transfer_facts in Hk; [|done]. by destruct Hk.
Qed.

Lemma history_below s t l : Forall (λ e, transfer_ok s e) l → transfer_generation t = segment_generation s →
  Forall (λ e, transfer_generation e ≤ transfer_generation t) l.
Proof. intros Hl ->. eapply Forall_impl; [exact Hl|]. intros e He. apply He. Qed.

Lemma history_all s l : history s l → Forall (transfer_ok s) l.
Proof. induction 1; [constructor|]. apply Forall_app. split; [done|]. by constructor. Qed.

Lemma history_ordinary s l : history s l →
  match last l with Some t => terminal t | None => false end = false →
  Forall (λ e, terminal e = false) l.
Proof.
  destruct 1; [constructor|]. rewrite last_snoc. intros ?. apply Forall_app. split; [done|]. by constructor.
Qed.

Lemma transfer_step_kept j s t previous : journal_ok j → admission_ok j s → typed t →
  transfer_accepted j s t previous → log_ok (with_transfer s t) →
  admission_ok j (with_transfer s t).
Proof.
  intros Hj Hok Ht Ha Hlog. pose proof (transfer_accepted_ok _ _ _ _ Hj Hok Ht Ha) as Hto.
  pose proof Ha as Ha'. destruct Ha' as [Hfresh (Hd & Hr & _) Hfen Hp _ _ Hbase Hg _ Hk _].
  destruct (checkpoint_frame _ _ _ Hbase (adm_history _ _ Hok)) as (a & Hsa & _ & Hga & _).
  assert (segments_kept s (with_transfer s t)) as Hkept by (by apply segments_same).
  split; try done; try apply Hok.
  - pose proof (adm_typed _ _ Hok) as Hty. apply typed_parts in Hty.
    destruct Hty as (? & Hc & ? & ? & ? & ? & ? & ? & ? & ?). apply typed_parts. unfold with_transfer.
    cbn [preparation candidates admission_fence cutoff_fence closure transfers applied_switches
         segment_generation published_generation timing_profiles set_candidates set_transfers].
    split_and!; try done; [by apply Forall_drop|by apply typed_snoc].
  - unfold with_transfer. cbn [candidates set_candidates]. by apply Forall_drop, (adm_candidates j s).
  - intros c Hc. eapply (closure_valid_log c s); [apply Hok|done| |by apply (adm_closure _ _ Hok)].
    by eapply admitted_with_transfer.
  - change (completed (with_transfer s t)) with (completed s). congruence.
  - unfold terminal_retained, with_transfer. cbn [transfers set_candidates set_transfers].
    rewrite last_snoc. intros Et. rewrite Et in Hk. apply terminal_transfer_facts in Hk.
    destruct Hk as [H1 H2 H3 H4 _ _ _ _ _ H6]. unfold drained.
    cbn [cutoff_fence closure candidates transfers set_candidates set_transfers].
    split_and!; try done; [by rewrite H3, drop_nil|]. rewrite last_snoc. by intros ? [= <-].
  - unfold with_transfer at 2. cbn [transfers set_candidates set_transfers].
    assert (history (with_transfer s t) (transfers s)) as Hh.
    { apply (history_kept s); [done|done|done|apply Hok]. }
    constructor; try done.
    + by eapply history_ordinary.
    + eapply history_below; [by apply history_all|]. unfold transfer_generation. cbn. congruence.
Qed.

(** ** Every record *)

Lemma change_kept j s news j' replay' : journal_ok j → admission_ok j s →
  admission_change j s (Some (candidate_bytes s)) news j' replay' →
  ∃ s', admission j' = Some s' ∧ admission_ok j' s'.
Proof.
  intros Hj Hok H. pose proof H as Hc.
  apply change_log in Hc as (s' & Es & Hlog & _); [|apply Hok].
  pose proof (change_same_session _ _ _ _ _ _ H) as (_ & Ep & _).
  exists s'. split; [done|].
  assert (admission_ok j s') as Hs; [|destruct Hs; by split; rewrite ?Ep].
  destruct H; cbn [admission set_admission] in Es; try rewrite transferred_admission in Es;
    injection Es as <-.
  - by apply profile_kept.
  - destruct H0 as [? [? ?] _ _ _ _]. by apply candidate_kept.
  - by apply switch_kept.
  - by apply overlay_kept.
  - by apply fence_kept.
  - by apply close_kept.
  - by eapply transfer_step_kept.
  - by apply complete_kept.
Qed.

(** ** Switches of the journal *)

Lemma pending_switch_typed s b : typed s → pending_switch s = Some b → generation b < 2 ^ 64.
Proof.
  intros Ht%typed_parts Hb. destruct Ht as (_ & _ & _ & Hc & _ & _ & Hl & _).
  apply pending_switch_source in Hb as [[l E]|Hb].
  - rewrite E in Hl. cbn in Hl. apply Forall_app in Hl as [_ [[? _] _]%Forall_cons]. done.
  - apply cutoff_switch_fence in Hb as (f & w & Hf & Hw & ->). rewrite Hf in Hc. cbn in Hc.
    rewrite Hw in Hc. cbn in Hc. naive_solver.
Qed.

Lemma reconcile_kept j j' s b : admission_ok j s → completed s = false → pending_switch s = Some b →
  authority_pattern b = journal_pattern j' → admission_ok j' (set_segment_generation s (generation b)).
Proof.
  intros Hok Hd Hb Hp. pose proof (pending_switch_beyond _ _ Hb) as Hlt.
  set (s' := set_segment_generation s (generation b)).
  assert (segments_kept s s') as Hk by (by apply segments_same).
  assert (terminal_retained s = false) as Hr.
  { destruct (terminal_retained s) eqn:E; [|done].
    destruct (adm_drained _ _ Hok E) as (_ & _ & _ & ? & _). congruence. }
  destruct (log_ok_same s s') as (Hlog & _ & _); [done..|apply Hok|].
  split; try done; try apply Hok.
  - pose proof (pending_switch_typed _ _ (adm_typed _ _ Hok) Hb). typed_admission Hok.
  - apply switches_valid_later; [apply Hok|apply Hok|done].
  - pose proof (adm_low _ _ Hok). cbn [segment_generation preparation s' set_segment_generation]. lia.
  - intros _. exists b. split; [|done]. apply Hk, pending_segment; [|apply Hok|done].
    apply switches_valid_facts, Hok.
  - change (terminal_retained s') with (terminal_retained s). congruence.
  - apply (history_kept s); [done|done| |apply Hok]. cbn. lia.
Qed.

Definition document_admission (d : JournalDocument) : Prop :=
  ∀ s, admission (journal d) = Some s → saw_begin d = true ∧ admission_ok (journal d) s.

Lemma plain_kept_ok j j' : plain_effect j j' →
  (∀ s, admission j = Some s → admission_ok j s) → ∀ s, admission j' = Some s → admission_ok j' s.
Proof.
  intros [Es Ep Eb Ea|_ _ _ H] Hok s Hs.
  - rewrite Ea in Hs. destruct (Hok s Hs). by split; rewrite ?Ep.
  - destruct (admission j) as [s0|]; [|congruence]. specialize (Hok s0 eq_refl).
    destruct (completed s0) eqn:Hd.
    + assert (s = s0) as -> by congruence. destruct Hok. split; try done. congruence.
    + destruct H as (b & Hb & Hp & E). assert (s = set_segment_generation s0 (generation b)) as -> by congruence.
      by eapply reconcile_kept.
Qed.

Context (path : string) (corrupt : string → string → Error).

Lemma replay_admission_ok d payload d' : (saw_begin d = true → journal_ok (journal d)) →
  document_ok d → document_admission d → replay_record path corrupt d payload = returned d' →
  document_admission d'.
Proof.
  intros Hj Hd Hok H. unfold replay_record in H. apply at_reason_returned in H.
  apply bind_returned in H as (kind & _ & H). unfold replay_kind in H.
  destruct d as [began j n]. unfold document_admission in *.
  cbn [saw_begin journal admission_candidate_bytes] in *.
  destruct began; cbn [negb] in H; [destruct (String.prefix _ kind)|].
  - unfold replay_admission in H. cbn [saw_begin journal admission_candidate_bytes] in H.
    apply bind_returned in H as ([[[] j'] replay'] & Ha & H);
      [|by apply bind_returned in H as ([] & H & _)].
    apply bind_returned in H as ([] & _ & <-%returned_inj). cbn [journal saw_begin].
    apply apply_returned in Ha as (identity & k & data & _ & _ & _ & Ha & _).
    apply apply_dispatch_effect in Ha. inversion Ha; subst.
    + intros s [= <-]. split; [done|]. by apply prepared_kept.
    + unfold document_ok in Hd. cbn [saw_begin journal admission_candidate_bytes] in Hd.
      match goal with H : admission j = Some ?x |- _ => rename x into s; pose proof H as Hs end.
      rewrite Hs in Hd. destruct Hd as (_ & _ & ->).
      match goal with H : admission_change _ _ _ _ _ _ |- _ =>
        apply change_kept in H as (s' & Es' & Hs') end; [|by apply Hj|by apply Hok].
      rewrite Es'. by intros ? [= <-].
  - apply bind_returned in H as (j' & Hp & <-%returned_inj). apply replay_plain_effect in Hp.
    cbn [journal saw_begin]. intros s Hs. split; [done|]. eapply plain_kept_ok; [exact Hp| |done].
    intros s0 Hs0. by apply Hok.
  - apply bind_returned in H as (j' & Hb & <-%returned_inj). apply replay_begin_empty in Hb.
    cbn [journal]. intros s. congruence.
Qed.

Lemma read_journal_admission payloads d s :
  read_journal path corrupt payloads = returned d → admission (journal d) = Some s →
  admission_ok (journal d) s.
Proof.
  intros H. unfold read_journal in H. apply bind_returned in H as (d' & H & H').
  apply bind_returned in H' as ([] & _ & <-%returned_inj).
  assert (document_admission d' → admission (journal d') = Some s → admission_ok (journal d') s) as Hfin
    by (intros Hd Hs; by apply Hd).
  intros Hs. apply Hfin; [|done]. clear Hfin Hs.
  assert (saw_begin empty_document = true → journal_ok (journal empty_document)) as H1 by done.
  assert (document_ok empty_document) as H2 by done.
  assert (document_admission empty_document) as H3 by done.
  revert H H1 H2 H3. generalize empty_document. induction payloads as [|p l IH]; intros d0 H H1 H2 H3.
  - by apply returned_inj in H as ->.
  - cbn [fold_outcome] in H. apply bind_returned in H as (d1 & Hp & H). apply (IH d1 H).
    + intros _. by eapply replay_ok.
    + by apply replay_record_ok in Hp as (? & _).
    + by eapply replay_admission_ok.
Qed.

(** ** A completed admission *)

Lemma completed_change j s replay news j' replay' :
  admission_change j s replay news j' replay' → completed s = false.
Proof.
  destruct 1; try done.
  - match goal with H : profile_accepted _ _ _ |- _ => by destruct H as [[(? & _) _] _ _ _ _ _ _ _ _] end.
  - match goal with H : candidate_accepted _ _ _ _ |- _ => by destruct H as [_ [(? & _) _] _ _ _ _] end.
  - match goal with H : switch_accepted _ _ _ |- _ => by destruct (switch_open _ _ _ H) end.
  - match goal with H : overlay_accepted _ _ _ |- _ => by destruct (overlay_open _ _ _ H) end.
  - match goal with H : transfer_accepted _ _ _ _ |- _ => by destruct (transfer_open _ _ _ _ H) end.
Qed.

Lemma completed_record d payload d' s : saw_begin d = true →
  admission (journal d) = Some s → completed s = true →
  replay_record path corrupt d payload = returned d' →
  saw_begin d' = true ∧ admission (journal d') = Some s.
Proof.
  intros Hb Hs Hd H. unfold replay_record in H. apply at_reason_returned in H.
  apply bind_returned in H as (kind & _ & H). unfold replay_kind in H. rewrite Hb in H.
  cbn [negb] in H. destruct (String.prefix _ kind).
  - exfalso. unfold replay_admission in H.
    apply bind_returned in H as ([[[] j'] replay'] & Ha & H);
      [|by apply bind_returned in H as ([] & H & _)].
    apply apply_returned in Ha as (identity & k & data & _ & _ & _ & Ha & _).
    apply apply_dispatch_effect in Ha. inversion Ha; subst; [congruence|].
    match goal with H : admission_change _ _ _ _ _ _ |- _ => apply completed_change in H end. congruence.
  - apply bind_returned in H as (j' & Hp & <-%returned_inj). split; [done|].
    apply replay_plain_effect in Hp as [_ _ _ Ea|_ _ _ Ea]; cbn [journal]; [congruence|].
    rewrite Hs, Hd in Ea. done.
Qed.

(** C26: a completed admission is final.  Once the admission of a journal is
    completed, everything it admitted was transferred: no candidate is outstanding,
    it is closed, fenced on both ends, no switch is pending and its last transfer is
    the terminal one, with no press owned; and whatever the journal
    records afterwards, the admission stays as it is. *)
Theorem completed_admission_final payloads more d d' s :
  read_journal path corrupt payloads = returned d →
  admission (journal d) = Some s → completed s = true →
  read_journal path corrupt (payloads ++ more) = returned d' →
  admission (journal d') = Some s ∧ candidates s = [] ∧ is_Some (closure s) ∧
  is_Some (admission_fence s) ∧ is_Some (cutoff_fence s) ∧ pending_switch s = None ∧
  ∃ t, last (transfers s) = Some t ∧ terminal t = true ∧ owned_presses (transfer_checkpoint t) = [].
Proof.
  intros Hr Hs Hd H. pose proof (read_journal_admission _ _ _ Hr Hs) as Hok. split.
  - unfold read_journal in H, Hr. apply bind_returned in Hr as (d0 & Hr & Hr').
    apply bind_returned in Hr' as ([] & Hb & <-%returned_inj).
    apply at_reason_returned, require_returned in Hb. rewrite fold_outcome_app, Hr in H.
    cbn [mbind outcome_bind] in H. apply bind_returned in H as (d1 & H & H').
    apply bind_returned in H' as ([] & _ & <-%returned_inj).
    clear Hok Hr. revert d0 Hb Hs H. induction more as [|p l IH]; intros d0 Hb Hs H.
    + by apply returned_inj in H as <-.
    + cbn [fold_outcome] in H. apply bind_returned in H as (d2 & Hp & H).
      destruct (completed_record _ _ _ _ Hb Hs Hd Hp). by apply (IH d2).
  - pose proof (adm_completed _ _ Hok Hd) as Ht.
    destruct (adm_drained _ _ Hok Ht) as (Hcut & Hcl & Hc & Hp & _).
    unfold terminal_retained in Ht. destruct (last (transfers s)) as [t|] eqn:El; [|done].
    assert (t ∈ transfers s) as Hin by by apply last_Some_elem_of.
    pose proof (history_all _ _ (adm_history _ _ Hok)) as Hall. rewrite Forall_forall in Hall.
    destruct (Hall t Hin) as [_ _ _ _ _ _ Hk]. rewrite Ht in Hk. destruct Hk as (_ & _ & _ & _ & _ & Hpr).
    split_and!; try done.
    + apply (adm_fenced _ _ Hok). intros E. rewrite E in El. done.
    + by exists t.
Qed.
End invariant.

Section opening.
Context `{JL : JsonLib} `{TL : !TextLib} `{TW : !TextLaws}.
Implicit Types (s : SequenceAdmissionState) (j : ActiveSequenceJournal) (t : SequenceAdmissionTransfer).

(** ** The loops over receipts and candidates *)

(** A loop that checks that watermarks increase from [previous]. *)
Definition rises (previous : option N) (l : list N) : Prop :=
  StronglySorted N.lt l ∧ ∀ p, previous = Some p → Forall (N.lt p) l.

Lemma rises_cons previous w l : rises previous (w :: l) → advances previous w = true ∧ rises (Some w) l.
Proof.
  intros [[Hs Hw]%StronglySorted_inv Hp]. split.
  - apply advances_true. intros v Hv. by apply Hp, Forall_cons in Hv as [? _].
  - split; [done|]. by intros p [= <-].
Qed.

Lemma rises_app previous l l' : rises previous (l ++ l') →
  rises previous l ∧ rises (match last l with Some w => Some w | None => previous end) l'.
Proof.
  revert previous. induction l as [|w l IH]; intros previous H; cbn [app] in *.
  - split; [|done]. split; [constructor|done].
  - pose proof H as [Hs Hp]. apply rises_cons in H as [Ha H]. apply IH in H as [H1 H2]. split.
    + destruct H1 as [H1 H3]. split; [constructor; [done|by apply H3]|].
      intros p Ep. specialize (Hp p Ep). apply Forall_cons in Hp as [? Hp].
      apply Forall_app in Hp as [? _]. by constructor.
    + rewrite last_cons. by destruct (last l).
Qed.

Lemma check_receipts first previous l :
  rises previous (receipt_watermark <$> l) → Forall (λ r, first ≤ receipt_watermark r) l →
  Forall (λ r, hash_valid (payload_sha256 r) = true) l →
  fold_outcome (check_receipt first) previous l =
    returned (match last l with Some r => Some (receipt_watermark r) | None => previous end).
Proof.
  revert previous. induction l as [|r l IH]; intros previous Hr Hf Hh; [done|].
  rewrite fmap_cons in Hr. apply rises_cons in Hr as [Ha Hr].
  apply Forall_cons in Hf as [Hf Hfs], Hh as [Hh Hhs]. cbn [fold_outcome].
  assert (check_receipt first previous r = returned (Some (receipt_watermark r))) as ->.
  { unfold check_receipt. by rewrite Ha, Hh, (proj2 (N.leb_le _ _)). }
  cbn [mbind outcome_bind]. rewrite IH by done. rewrite last_cons. by destruct (last l).
Qed.

Lemma check_candidates s previous l :
  rises previous (watermark <$> l) →
  Forall (λ c, preparation_first_watermark (preparation s) ≤ watermark c) l →
  Forall (λ c, candidate_valid c = returned ()) l →
  fold_outcome (check_candidate s) previous l =
    returned (match last l with Some c => Some (watermark c) | None => previous end).
Proof.
  revert previous. induction l as [|c l IH]; intros previous Hr Hf Hv; [done|].
  rewrite fmap_cons in Hr. apply rises_cons in Hr as [Ha Hr].
  apply Forall_cons in Hf as [Hf Hfs], Hv as [Hv Hvs]. cbn [fold_outcome].
  assert (check_candidate s previous c = returned (Some (watermark c))) as ->.
  { unfold check_candidate. rewrite Hv. cbn [mbind outcome_bind]. by rewrite Ha, (proj2 (N.leb_le _ _)). }
  cbn [mbind outcome_bind]. rewrite IH by done. rewrite last_cons. by destruct (last l).
Qed.

(** ** The loop over the transfers *)

Definition receipts_in (l : list SequenceAdmissionTransfer) : list SequenceCandidateReceipt :=
  mjoin (candidate_receipts <$> l).

Lemma receipts_in_snoc l t : receipts_in (l ++ [t]) = receipts_in l ++ candidate_receipts t.
Proof. unfold receipts_in. rewrite fmap_app, join_app. cbn [fmap list_fmap mjoin list_join]. by rewrite app_nil_r. Qed.

(** What the loop knows after the transfers [l]. *)
Definition loop_after s (l : list SequenceAdmissionTransfer) (r : SnapshotLoop) : Prop :=
  seen_watermark r = receipt_watermark <$> last (receipts_in l) ∧
  (∀ id, id ∈ seen_transfers r ↔ id ∈ transfer_id <$> l) ∧
  seen_terminal r = match last l with Some t => terminal t | None => false end ∧
  seen_generation r = match last l with Some t => transfer_generation t
                      | None => preparation_generation (preparation s) end.

Lemma check_transfers s l : history s l →
  (∀ t, last l = Some t → terminal t = true → drained s ∧ last (transfers s) = Some t) →
  (l ≠ [] → is_Some (admission_fence s)) →
  rises None (receipt_watermark <$> receipts_in l) →
  Forall (λ r, preparation_first_watermark (preparation s) ≤ receipt_watermark r) (receipts_in l) →
  ∃ r, fold_outcome (check_transfer s)
         (MkSnapshotLoop None [] false (preparation_generation (preparation s))) l = returned r ∧
       loop_after s l r.
Proof.
  induction 1 as [|l t Hl IH Hord Hid Hgen Ht]; intros Hterm Hfen Hrise Hfirst.
  { eexists. split; [done|]. by split_and!. }
  rewrite receipts_in_snoc, fmap_app in Hrise. apply rises_app in Hrise as [Hr1 Hr2].
  rewrite receipts_in_snoc in Hfirst. apply Forall_app in Hfirst as [Hf1 Hf2].
  destruct IH as (r & Hr & (Ew & Eid & Et & Eg)); [|intros ?; apply Hfen; by destruct l|done..|].
  { intros t' Hl' Ht'. rewrite Forall_forall in Hord. apply last_Some_elem_of in Hl'.
    rewrite (Hord _ Hl') in Ht'. done. }
  rewrite fold_outcome_app, Hr. cbn [mbind outcome_bind fold_outcome].
  assert (seen_terminal r = false) as Et'.
  { rewrite Et. destruct (last l) as [t'|] eqn:E; [|done]. rewrite Forall_forall in Hord.
    by apply Hord, last_Some_elem_of. }
  destruct Ht as [Htail (a & Ha & Hpa & Hfa) Hlow Hhigh Hdig Hrec Hkind].
  unfold transfer_generation in *. unfold check_transfer. rewrite Et'.
  rewrite (bool_decide_false (transfer_id t ∈ seen_transfers r)); [|rewrite Eid; intros (e & Ee & He)%list_elem_of_fmap;
    rewrite Forall_forall in Hid; by apply (Hid e)].
  cbn [negb andb require mbind outcome_bind]. rewrite Htail. cbn [mbind outcome_bind].
  rewrite Ha. cbn [mbind outcome_bind].
  assert (seen_generation r ≤ checkpoint_generation (transfer_checkpoint t)) as Hge.
  { rewrite Eg. destruct (last l) as [t'|] eqn:E; [|done]. rewrite Forall_forall in Hgen.
    by apply Hgen, last_Some_elem_of. }
  rewrite (proj2 (N.leb_le _ _) Hge), (proj2 (N.leb_le _ _) Hhigh), (proj2 (N.leb_le _ _) Hfa),
    (bool_decide_true _ Hpa).
  cbn [andb require mbind outcome_bind]. rewrite Hdig. cbn [require mbind outcome_bind].
  assert (∀ w b, match last (candidate_receipts t) with
                 | Some x => Some (receipt_watermark x) | None => seen_watermark r end = w →
    terminal t = b → loop_after s (l ++ [t])
      (MkSnapshotLoop w (transfer_id t :: seen_transfers r) b
         (checkpoint_generation (transfer_checkpoint t)))) as Hafter.
  { intros w b <- <-. unfold loop_after. rewrite receipts_in_snoc, last_app, last_snoc, fmap_app.
    split_and!; try done.
    - cbn [seen_watermark]. rewrite Ew. by destruct (last (candidate_receipts t)).
    - intros id. cbn [seen_transfers]. rewrite elem_of_cons, Eid, elem_of_app. cbn [fmap list_fmap].
      rewrite list_elem_of_singleton. tauto. }
  destruct (terminal t) eqn:Ett.
  - destruct Hkind as (E1 & E2 & E3 & E4 & E5 & E6).
    destruct (Hterm t) as (([f Hf] & [c Hc] & Hcand & Hpend & Hpat) & Hlast); [by rewrite last_snoc|done|].
    destruct Hfen as [g Hg]; [by destruct l|].
    specialize (Hpat t Hlast). rewrite Hf in Hpat. rewrite E1, E2, E3, E4, E5, E6, Hf, Hc, Hg, Hcand, Hpend.
    cbn [is_empty has_value negb]. rewrite !bool_decide_true by done.
    eexists. split; [done|]. apply Hafter; [by rewrite E3|done].
  - destruct Hkind as [E1 E2]. rewrite !bool_decide_true by done.
    cbn [andb require mbind outcome_bind]. rewrite Ew.
    rewrite check_receipts; [|rewrite fmap_last in Hr2; by destruct (last (receipts_in l))|done|done].
    eexists. split; [done|]. apply Hafter; [by rewrite Ew|done].
Qed.

(** ** The whole state *)

Lemma admitted_rises s : log_ok s →
  rises None ((receipt_watermark <$> all_receipts s) ++ (watermark <$> candidates s)).
Proof.
  intros Hok. split; [|done]. pose proof (log_sorted _ Hok) as H. unfold admitted in H.
  by rewrite fmap_app, <- !list_fmap_compose in H.
Qed.

Lemma admitted_first s : log_ok s →
  Forall (λ r, preparation_first_watermark (preparation s) ≤ receipt_watermark r) (all_receipts s) ∧
  Forall (λ c, preparation_first_watermark (preparation s) ≤ watermark c) (candidates s).
Proof.
  intros Hok. pose proof (log_from _ Hok) as H. unfold admitted in H.
  rewrite fmap_app, Forall_app, !Forall_fmap in H. exact H.
Qed.

Lemma admission_snapshot_valid j s : admission_ok j s →
  profiles_valid s (journal_revision j) = returned () → snapshot_valid s j = returned ().
Proof.
  intros Hok Hprof. pose proof (adm_log _ _ Hok) as Hlog.
  pose proof (admitted_rises s Hlog) as Hrise. apply rises_app in Hrise as [Hr1 Hr2].
  destruct (admitted_first s Hlog) as [Hf1 Hf2].
  unfold snapshot_valid.
  assert ((published_generation s =? 0) ||
    (preparation_generation (preparation s) <? published_generation s) = true) as ->.
  { destruct (adm_published _ _ Hok) as [->|H]; [done|]. apply orb_true_iff. right. by apply N.ltb_lt. }
  cbn [require mbind outcome_bind]. rewrite (log_prepared _ Hlog). cbn [mbind outcome_bind].
  rewrite (adm_fences _ _ Hok). cbn [mbind outcome_bind]. rewrite (adm_switches _ _ Hok).
  cbn [mbind outcome_bind]. rewrite Hprof. cbn [mbind outcome_bind].
  assert ((if completed s then returned ()
           else current ← segment s;
                require (bool_decide (authority_pattern current = journal_pattern j))
                  "snapshot segment Pattern mismatch") = returned ()) as ->.
  { destruct (completed s) eqn:E; [done|]. destruct (adm_pattern _ _ Hok E) as (a & -> & Ha).
    cbn. by rewrite bool_decide_true. }
  cbn [mbind outcome_bind].
  destruct (check_transfers s (transfers s)) as (r & -> & (Ew & _ & Et & _));
    [apply Hok| |apply Hok|exact Hr1|exact Hf1|].
  { intros t Hl Ht. split; [|done]. apply (adm_drained _ _ Hok). unfold terminal_retained. by rewrite Hl. }
  cbn [mbind outcome_bind].
  rewrite check_candidates; [|rewrite Ew, <- fmap_last; unfold all_receipts in Hr2;
    by destruct (last _)|done|apply Hok].
  cbn [mbind outcome_bind].
  rewrite !(proj2 (N.leb_le _ _)) by apply Hlog. cbn [andb require mbind outcome_bind].
  assert ((if (N.of_nat (length (candidates s)) =? candidate_limit (preparation s)) ||
              (candidate_bytes s =? candidate_byte_limit (preparation s))
           then require (has_value (closure s)) "full snapshot lacks closure"
           else returned ()) = returned ()) as ->.
  { match goal with |- (if ?b then _ else _) = _ => destruct b eqn:E; [|done] end.
    apply orb_true_iff in E.
    assert (is_Some (closure s)) as [c ->]; [|done]. apply (log_closed _ Hlog). unfold full.
    by rewrite <- !N.eqb_eq. }
  assert (match closure s with Some c => closure_valid c s | None => returned () end = returned ()) as ->.
  { destruct (closure s) as [c|] eqn:E; [|done]. by apply (adm_closure _ _ Hok). }
  cbn [mbind outcome_bind].
  assert ((if is_empty (transfers s) then returned ()
           else require (has_value (admission_fence s)) "transfer history lacks authority") =
          returned ()) as ->.
  { destruct (transfers s) eqn:E; [done|]. destruct (adm_fenced _ _ Hok) as [f ->]; [by rewrite E|done]. }
  cbn [mbind outcome_bind]. destruct (completed s) eqn:E; [|done]. rewrite Et.
  pose proof (adm_completed _ _ Hok E) as Hr. unfold terminal_retained in Hr. by rewrite Hr.
Qed.
End opening.

Section roundtrip.
Context `{JL : JsonLib} `{!JsonLaws JL} `{TL : !TextLib} `{TW : !TextLaws}.
Implicit Types (s : SequenceAdmissionState) (j : ActiveSequenceJournal) (t : SequenceAdmissionTransfer).

(** The record a retained transfer is bounded as. *)
Definition transfer_bounded j s t : Prop :=
  record_bound (transfer_record (session_id j) (encode (preparation_identity (preparation s))) (encode t)) =
    returned ().

Lemma snapshot_encode j s : typed s → N.of_nat (length (candidates s)) ≤ 1024 →
  Forall (transfer_bounded j s) (transfers s) → snapshot_valid s j = returned () →
  snapshot (encode s) j = returned s.
Proof.
  intros Ht Hc Hb Hv.
  assert (fields (encode s)
    [("preparation", encode (preparation s)); ("candidates", encode (candidates s));
     ("admission_fence", encode (admission_fence s)); ("cutoff_fence", encode (cutoff_fence s));
     ("closure", encode (closure s)); ("transfers", encode (transfers s));
     ("applied_switches", encode (applied_switches s));
     ("segment_generation", encode (segment_generation s));
     ("published_generation", encode (published_generation s));
     ("completed", encode (completed s)); ("timing_profiles", encode (timing_profiles s))]) as Hf
    by (by apply fields_j_object).
  unfold snapshot. rewrite (at_fields _ _ "candidates" (encode (candidates s)) Hf) by done.
  cbn [mbind outcome_bind]. 
  assert (bounded_array (encode (candidates s)) kSequenceAdmissionMaxCandidates = true) as ->.
  { unfold bounded_array. cbn [encode codec_list]. rewrite array_is_array.
    rewrite array_size, array_items, length_map by apply array_is_array. by apply N.leb_le. }
  cbn [require mbind outcome_bind].
  rewrite (at_fields _ _ "transfers" (encode (transfers s)) Hf) by done. cbn [mbind outcome_bind].
  assert (is_array (encode (transfers s)) = true) as -> by apply array_is_array.
  cbn [require mbind outcome_bind].
  rewrite (proj2 (for_all_returned _ _ ())).
  - cbn [mbind outcome_bind]. rewrite decode_encode by done. cbn [mbind outcome_bind]. by rewrite Hv.
  - cbn [encode codec_list]. rewrite array_items. apply Forall_fmap. eapply Forall_impl; [exact Hb|].
    intros t Hbt. cbv beta. rewrite (at_fields _ _ "preparation" (encode (preparation s)) Hf) by done.
    cbn [mbind outcome_bind].
    rewrite (at_fields (encode (preparation s)) [("identity", encode (preparation_identity (preparation s)));
      ("project_id", encode (preparation_project (preparation s)));
      ("pattern_id", encode (preparation_pattern (preparation s)));
      ("publication_generation", encode (preparation_generation (preparation s)));
      ("first_watermark", encode (preparation_first_watermark (preparation s)));
      ("candidate_limit", j_uint (candidate_limit (preparation s)));
      ("candidate_byte_limit", j_uint (candidate_byte_limit (preparation s)));
      ("fence_timeout_ms", j_uint (fence_timeout_ms (preparation s)));
      ("quantize_enabled", encode (preparation_quantize (preparation s)));
      ("swing_percent", j_uint (preparation_swing (preparation s)))] "identity"
      (encode (preparation_identity (preparation s)))) by (done || by apply fields_j_object).
    exact Hbt.
Qed.
End roundtrip.
