(* ===== verification/RecoveryLaws.v ===== *)
(** A sealed session is recovered as it was.

    [seal] stores the journal in a document from which [list_recoverable] reads the
    same journal, provided the events that are still in it fit the Pattern that is
    recorded into; every operation keeps them fitting, except a switch to a
    shorter Pattern. *)

From S2P Require Import Prelude Json Foundation Text Project Sequence Soundset Outcome Admission AdmissionCodec AdmissionMachine Journal AdmissionLaws AdmissionLog JournalLaws JournalAppend SnapshotHistory SnapshotLaws.

(** ** Events that fit a loop *)

Record events_ok (len : N) (l : list PatternEvent) : Prop := {
  events_valid : forallb (tail_event_valid len) l = true;
  events_canonical : Sequence.canonical_events l
}.

Lemma merge_canonical_id l : Sequence.canonical_events l → merge_pattern_events [] l = l.
Proof.
  intros Hl. apply canonical_unique; [apply merge_canonical|done|]. intros e.
  rewrite merge_elem. cbn [app]. apply last_with_key_canonical, Hl.
Qed.

Lemma forallb_filter (p : PatternEvent → bool) (P : PatternEvent → Prop) `{∀ e, Decision (P e)} l :
  forallb p l = true → forallb p (filter P l) = true.
Proof.
  rewrite !forallb_forall. intros Hl e He. apply Hl. apply list_elem_of_In in He.
  apply list_elem_of_In. by apply list_elem_of_filter in He as [_ ?].
Qed.

Lemma events_ok_residual len committed l : events_ok len l → events_ok len (uncommitted_residual committed l).
Proof. intros [? ?]. split; [by apply forallb_filter|by apply canonical_filter]. Qed.

Lemma events_ok_nil len : events_ok len [].
Proof. split; [done|]. split; constructor. Qed.

Section fitting.
Context `{JL : JsonLib} `{TL : !TextLib}.
Implicit Types (j : ActiveSequenceJournal) (f g : SequenceFlushRecord).

Lemma events_ok_longer len len' l : len ≤ len' → len' < 2 ^ 32 → events_ok len l → events_ok len' l.
Proof.
  intros ?? [Hv Hc]. split; [|done]. rewrite forallb_forall in Hv |- *. intros e He.
  by eapply tail_event_longer, Hv.
Qed.

Record flush_fits (len : N) f : Prop := {
  fits_canonical : events_ok len (canonical_events f);
  fits_recovery : events_ok len (recovery_events f)
}.

(** The events of the journal fit the Pattern it records into. *)
Record events_fit j : Prop := {
  fits_pending : events_ok (pattern_length_ticks (journal_bars j)) (pending_events j);
  fits_flushes : Forall (flush_fits (pattern_length_ticks (journal_bars j))) (flushes j)
}.

Lemma settle_fits len sequence g f : flush_fits len f → flush_fits len (settle sequence g f).
Proof.
  intros [Hc Hr]. unfold settle. case_match; [done|]. case_match; split; cbn; try done.
  - apply events_ok_nil.
  - by apply events_ok_residual.
Qed.

Lemma new_events_ok j l : forallb (tail_event_valid (pattern_length_ticks (journal_bars j)))
    (merge_pattern_events [] l) = true →
  events_ok (pattern_length_ticks (journal_bars j)) (merge_pattern_events [] l).
Proof. intros H. split; [done|apply merge_canonical]. Qed.

Lemma tail_fits j session pattern revision input l record :
  append_tail j session pattern revision input l = success (append_record record ()) →
  events_ok (pattern_length_ticks (journal_bars j)) (merge_pattern_events [] l).
Proof.
  intros H. unfold append_tail in H. do 3 (case_match; [done|]). apply new_events_ok.
  by bool_to_prop.
Qed.

Lemma flush_fits_new j session command pattern revision l record f :
  append_flush j session command pattern revision l = success (append_record record f) →
  flush_fits (pattern_length_ticks (journal_bars j)) f.
Proof.
  intros H. unfold append_flush in H. do 2 (case_match; [done|]). case_match; [by case_match|].
  do 3 (case_match; [done|]). injection H as _ <-. bool_to_prop. split; by apply new_events_ok.
Qed.

Lemma switch_bars j session pattern bars fingerprint revision record :
  switch_pattern j session pattern bars fingerprint revision = success (append_record record ()) →
  valid_bars bars = true.
Proof. intros H. unfold switch_pattern in H. case_match; [done|]. by bool_to_prop. Qed.

Lemma longer_loop b b' : valid_bars b = true → valid_bars b' = true → b ≤ b' →
  pattern_length_ticks b ≤ pattern_length_ticks b'.
Proof.
  intros Hb Hb' Hle. pose proof (bars_fit _ Hb). pose proof (bars_fit _ Hb').
  rewrite !pattern_length_small by done. lia.
Qed.

(** C27: the events of a recording session keep fitting its Pattern.  Whatever an
    operation appends, the events that are pending and those of every flush stay
    in canonical order and inside the loop of the Pattern the journal records
    into, as long as the operation does not switch to a Pattern with fewer bars. *)
Theorem appended_events_fit j record j' : journal_ok j → events_fit j →
  appends j record j' → journal_bars j ≤ journal_bars j' → events_fit j'.
Proof.
  intros Hj Hfit H Hbars. pose proof Hfit as [Hp Hf]. destruct H; try (by split).
  - match goal with H : append_tail _ _ _ _ _ _ = _ |- _ => apply tail_fits in H end. by split.
  - match goal with H : append_flush _ _ _ _ _ _ = _ |- _ => apply flush_fits_new in H end.
    split; cbn; [apply events_ok_nil|]. apply Forall_app. split; [done|by constructor].
  - unfold settled_journal in *. destruct (find_flush _ _); [|done]. split; cbn.
    + by apply events_ok_residual.
    + apply Forall_fmap. eapply Forall_impl; [exact Hf|]. intros f. apply settle_fits.
  - by destruct (reconciled_commit r); split.
  - match goal with H : switch_pattern _ _ _ _ _ _ = _ |- _ => apply switch_bars in H; rename H into Hv end.
    assert (flushes (reconciled j) = flushes j ∧ pending_events (reconciled j) = pending_events j)
      as [Ef Ep] by (unfold reconciled; by repeat case_match).
    pose proof (loop_length_bound _ Hv). cbn [journal_bars set_pattern] in Hbars.
    pose proof (longer_loop _ _ (ok_bars _ Hj) Hv Hbars) as Hle.
    split; cbn; rewrite ?Ef, ?Ep; [by eapply events_ok_longer|].
    eapply Forall_impl; [exact Hf|]. intros f [? ?]. split; by eapply events_ok_longer.
Qed.
End fitting.

Section recovery.
Context `{JL : JsonLib} `{!JsonLaws JL} `{TL : !TextLib} `{TW : !TextLaws} (path : string).
Implicit Types (j : ActiveSequenceJournal) (f g : SequenceFlushRecord).

Lemma array_is_array_events l : is_array (events_json l) = true.
Proof. apply array_is_array. Qed.

Lemma flush_snapshot_fields f : fields (flush_snapshot f)
  [("command_id", j_string (value (flush_command f)));
   ("events", events_json (AdmissionMachine.canonical_events f));
   ("expected_revision", j_uint (flush_revision f)); ("flush_seq", j_uint (flush_seq f));
   ("kind", j_string "flush"); ("payload_version", j_int 2);
   ("pattern_id", j_string (value (flush_pattern f)));
   ("completed", j_bool (flush_completed f));
   ("recovery_events", events_json (recovery_events f))].
Proof.
  exact (fields_j_set _ _ "recovery_events" _
           (fields_j_set _ _ "completed" _ (fields_j_object (flush_fields f) eq_refl))).
Qed.

Lemma parse_flush_snapshot_json len f : len < 2 ^ 32 → flush_ok f → flush_fits len f →
  parse_flush_snapshot path len (flush_snapshot f) = returned f.
Proof.
  intros Hlen [Hs Hr Hc Hp Hres _] [[Hv1 Hc1] [Hv2 Hc2]]. pose proof (flush_snapshot_fields f) as Hf.
  unfold parse_flush_snapshot. rewrite (fields_object _ _ Hf), (fields_size _ _ Hf).
  cbn [length Nat.eqb andb require mbind outcome_bind].
  read Hf. rewrite string_eq, !(array_is_array_events _). cbn [require mbind outcome_bind bool_decide].
  rewrite (get_bool_at_fields _ _ "completed" (flush_completed f) _ Hf) by done.
  rewrite bool_decide_true by done. cbn [require mbind outcome_bind]. rewrite Hc, Hp.
  cbn [andb require mbind outcome_bind]. rewrite !parse_events_json by done.
  cbn [mbind outcome_bind]. change (Z.to_N 2 =? 2) with true. cbn [require mbind outcome_bind].
  rewrite !merge_canonical_id, !bool_decide_true by done.
  assert (forallb (λ e, bool_decide (e ∈ AdmissionMachine.canonical_events f)) (recovery_events f) = true) as ->.
  { apply forallb_forall. intros e He%list_elem_of_In. rewrite Forall_forall in Hres.
    by apply bool_decide_eq_true, Hres. }
  by destruct f.
Qed.

Lemma parse_state_string s : parse_state (state_string s) = returned s.
Proof. by destruct s. Qed.

(** The Capture and the admission that are sealed can be read back: sizes and
    revisions fit, profiles agree with the input around them. *)
Record sealable j : Prop := {
  sealable_events : events_fit j;
  sealable_capture c : capture_commit j = Some c → capture_ok c;
  sealable_profiles s : admission j = Some s → profiles_valid s (journal_revision j) = returned ();
  sealable_transfers s : admission j = Some s → Forall (transfer_bounded j s) (transfers s)
}.

(** The journal as it is when [snapshot] reads the admission. *)
Definition without_admission j : ActiveSequenceJournal :=
  MkSequenceJournal (session_id j) (journal_pattern j) (journal_bars j) (pattern_fingerprint j)
    (journal_revision j) (next_flush_seq j) (session_state j) (flushes j) (armed_capture_slot j)
    (capture_commit j) (next_tail_seq j) (last_input_sequence j) (pending_events j) None.

Lemma journal_json_fields j : fields (journal_json j)
  [("admission", match admission j with Some s => encode s | None => j_null end);
   ("armed_capture_slot", optional_slot_json (armed_capture_slot j));
   ("bars", j_uint (journal_bars j));
   ("capture_commit", match capture_commit j with Some c => capture_json c | None => j_null end);
   ("expected_revision", j_uint (journal_revision j));
   ("flushes", j_array (flush_snapshot <$> flushes j));
   ("last_input_sequence", match last_input_sequence j with Some n => j_uint n | None => j_null end);
   ("next_flush_seq", j_uint (next_flush_seq j)); ("next_tail_seq", j_uint (next_tail_seq j));
   ("pattern_fingerprint", j_string (pattern_fingerprint j));
   ("pattern_id", j_string (value (journal_pattern j)));
   ("pending_events", events_json (pending_events j));
   ("session_id", j_string (value (session_id j)));
   ("state", j_string (state_string (session_state j)))].
Proof. by apply fields_j_object. Qed.

Lemma parse_snapshot_json j : journal_ok (set_capture j (armed_capture_slot j) None) → sealable j →
  (∀ s, admission j = Some s → admission_ok j s) →
  parse_snapshot_fields path (journal_json j) = returned j.
Proof.
  intros [H1 H2 H3 H4 H5 H6 H7 H8 H9 _ H11 _ _] [[[Hpv Hpc] Hff] Hcap Hprof Htr] Hadm.
  cbn [session_id journal_pattern journal_bars pattern_fingerprint journal_revision next_flush_seq
       next_tail_seq last_input_sequence armed_capture_slot flushes set_capture] in *.
  pose proof (journal_json_fields j) as Hf. pose proof (bars_fit _ H3). pose proof (loop_length_bound _ H3).
  assert (next_flush_seq j < 2 ^ 64) by (rewrite H6; apply wrap_lt).
  unfold parse_snapshot_fields. read Hf. rewrite parse_state_string. cbn [mbind outcome_bind].
  rewrite (optional_slot_fields _ _ "armed_capture_slot" (armed_capture_slot j) Hf) by done.
  cbn [mbind outcome_bind].
  assert ((if is_null match capture_commit j with Some c => capture_json c | None => j_null end
           then returned None
           else c ← parse_capture path match capture_commit j with Some c => capture_json c | None => j_null end;
                returned (Some c)) = returned (capture_commit j)) as ->.
  { destruct (capture_commit j) as [c|] eqn:E; [|by rewrite null_is_null].
    assert (is_null (capture_json c) = false) as -> by apply object_not_null.
    rewrite parse_capture_json by auto. done. }
  cbn [mbind outcome_bind]. rewrite H1, H2, H3, H4. cbn [andb require mbind outcome_bind]. read Hf.
  assert ((if is_null match last_input_sequence j with Some n => j_uint n | None => j_null end
           then returned None
           else n ← sequence_integer 64 match last_input_sequence j with Some n => j_uint n | None => j_null end;
                returned (Some n)) = returned (last_input_sequence j)) as ->.
  { destruct (last_input_sequence j) as [n|] eqn:E; [|by rewrite null_is_null].
    rewrite uint_not_null, sequence_integer_uint by auto. done. }
  cbn [mbind outcome_bind]. rewrite array_is_array_events, array_is_array.
  cbn [require mbind outcome_bind]. rewrite parse_events_json by done. cbn [mbind outcome_bind].
  rewrite merge_canonical_id, bool_decide_true by done. cbn [require mbind outcome_bind].
  rewrite array_items, (traverse_map _ flush_snapshot id), list_fmap_id.
  2:{ intros f Hin. rewrite Forall_forall in Hff, H11. apply parse_flush_snapshot_json; auto. }
  cbn [mbind outcome_bind].
  change (MkSequenceJournal _ _ _ _ _ _ _ _ _ _ _ _ _ _) with (without_admission j).
  destruct (admission j) as [s|] eqn:E.
  - assert (is_null (encode s) = false) as -> by apply object_not_null.
    pose proof (Hadm s eq_refl) as Hok.
    rewrite (snapshot_encode (without_admission j) s); [|apply Hok| |by apply Htr|].
    + cbn [mbind outcome_bind]. f_equal. destruct j. cbn in E |- *. by rewrite E.
    + pose proof (log_count _ (adm_log _ _ Hok)). pose proof (log_prepared _ (adm_log _ _ Hok)) as Hp.
      unfold preparation_valid in Hp. checks. unfold kSequenceAdmissionMaxCandidates in *. lia.
    + apply admission_snapshot_valid; [|by apply Hprof]. by destruct Hok.
  - rewrite null_is_null. f_equal. destruct j. cbn in E |- *. by rewrite E.
Qed.


Lemma seal_ok j st : journal_ok j →
  journal_ok (set_capture (set_state j st) (armed_capture_slot j) None).
Proof. intros Hok. destruct Hok. by apply (ok_same j); cbn; try assumption; try reflexivity. Qed.

End recovery.
