(* ===== verification/JournalSession.v ===== *)
(** Sessions that the journal's operations write, and a document model of the
    printer and the hash to run them on. *)

From S2P Require Import Prelude Json Foundation Text Project Sequence Soundset Outcome Admission AdmissionCodec AdmissionMachine Journal AdmissionLaws AdmissionLog AdmissionRetry JournalLaws JournalAppend Sha256.

(** ** Sessions *)

Section session.
Context `{JL : JsonLib} `{TL : !TextLib} (path : string) (corrupt : string → string → Error)
  (validate_admission_project : ProjectId → Result ()).

(** The payloads of a journal: begun, and extended by operations on what is read
    from it. *)
Inductive session_log : list json → Prop :=
  | log_begun head session pattern bars fingerprint revision armed record :
      revision < 2 ^ 64 →
      begin_session head session pattern bars fingerprint revision armed = success record →
      session_log [record]
  | log_appended payloads d record j :
      session_log payloads → read_journal path corrupt payloads = returned d →
      N.of_nat (length (flushes (journal d))) < 2 ^ 64 →
      appends (journal d) record j → session_log (payloads ++ [record])
  | log_admitted payloads d session identity kind data record :
      session_log payloads → read_journal path corrupt payloads = returned d →
      append_admission_record validate_admission_project d session identity kind data = success (append_record record ()) →
      session_log (payloads ++ [record]).
End session.

Section readable.
Context `{JL : JsonLib} `{!JsonLaws JL} `{TL : !TextLib} (path : string)
  (corrupt : string → string → Error) (validate_admission_project : ProjectId → Result ()).

Lemma begin_read head session pattern bars fingerprint revision armed record : revision < 2 ^ 64 →
  begin_session head session pattern bars fingerprint revision armed = success record →
  ∃ d, read_journal path corrupt [record] = returned d.
Proof.
  intros Hr H. unfold begin_session in H. case_match eqn:E1; [done|]. case_match; [done|].
  injection H as <-. bool_to_prop.
  assert (fields (begin_record session pattern bars fingerprint revision armed)
    [("armed_capture_slot", optional_slot_json armed); ("bars", j_uint bars);
     ("contract", j_string (journal_contract (recording_protocol sequence_session)));
     ("expected_revision", j_uint revision); ("kind", j_string "begin");
     ("pattern_fingerprint", j_string fingerprint); ("pattern_id", j_string (value pattern));
     ("session_id", j_string (value session))]) as Hf by (by apply fields_j_object).
  assert (bars < 2 ^ 8) by (by apply bars_fit).
  unfold read_journal. cbn [fold_outcome]. unfold replay_record, replay_kind. read Hf.
  cbn [saw_begin empty_document negb]. unfold replay_begin. read Hf. rewrite string_eq.
  cbn [bool_decide decide]. read Hf.
  rewrite (optional_slot_fields _ _ "armed_capture_slot" armed Hf);
    [|done|by intros p ->; bool_to_prop].
  rewrite !bool_decide_true by done. recheck. by eexists.
Qed.

End readable.

(** ** A document model of the printer *)

(** Members are printed in the order of their names, strings without escapes. *)
Definition text_key (s : string) : list N := N_of_ascii <$> chars s.

Fixpoint join_text (l : list string) : string :=
  match l with [] => "" | [s] => s | s :: l' => (s +:+ "," +:+ join_text l')%string end.

Definition print_members (l : list (string * string)) : string :=
  "{" +:+ join_text ((λ p, "'" +:+ p.1 +:+ "':" +:+ p.2) <$> stable_sort (λ p, text_key p.1) l) +:+ "}".

Fixpoint print_dom (d : dom) : string :=
  match d with
  | DNull => "null"
  | DBool b => if b then "true" else "false"
  | DInt z => if (z <? 0)%Z then "-" +:+ to_string (Z.to_N (- z)) else to_string (Z.to_N z)
  | DUint n => to_string n
  | DString s => "'" +:+ s +:+ "'"
  | DArray l => "[" +:+ join_text (print_dom <$> l) +:+ "]"
  | DObject l => print_members ((λ p, (p.1, print_dom p.2)) <$> l)
  end.

Definition dom_text : TextLib (JL := dom_lib) := {|
  dump := print_dom : json (JsonLib := dom_lib) → string;
  hash256_hex_string s := sha256_hex (chars s);
  library_what := "library"
|}.

Lemma assoc_set_fresh {A} k (v : A) l : k ∉ l.*1 → assoc_set k v l = l ++ [(k, v)].
Proof.
  induction l as [|[k' v'] l IH]; [done|]. rewrite fmap_cons, not_elem_of_cons. cbn.
  intros [Hne Hk]. rewrite (proj2 (String.eqb_neq _ _)) by done. by rewrite IH.
Qed.

Lemma canonicalize_members fuel l acc : NoDup (acc.*1 ++ l.*1) →
  foldl (λ o e, j_set (JsonLib := dom_lib) o e.1 (canonicalize (JL := dom_lib) fuel e.2)) (DObject acc) l =
    DObject (acc ++ ((λ e, (e.1, canonicalize (JL := dom_lib) fuel e.2)) <$> l)).
Proof.
  revert acc. induction l as [|[k v] l IH]; intros acc Hl; cbn [foldl].
  - by rewrite app_nil_r.
  - rewrite fmap_cons in Hl. cbn [fst snd] in *.
    assert (k ∉ acc.*1 ∧ NoDup ((acc ++ [(k, canonicalize (JL := dom_lib) fuel v)]).*1 ++ l.*1)) as [Hk Hn].
    { rewrite fmap_app, <- app_assoc. cbn. split; [|done].
      apply NoDup_app in Hl as (_ & Hd & _). intros Hin. apply (Hd k Hin). left. }
    change (j_set (JsonLib := dom_lib) (DObject acc) k (canonicalize (JL := dom_lib) fuel v))
      with (DObject (assoc_set k (canonicalize (JL := dom_lib) fuel v) acc)).
    rewrite assoc_set_fresh by done. rewrite IH by done. rewrite fmap_cons. by rewrite <- app_assoc.
Qed.

Lemma canonicalize_object fuel l : canonicalize (JL := dom_lib) (S fuel) (DObject l) =
  foldl (λ o e, j_set (JsonLib := dom_lib) o e.1 (canonicalize (JL := dom_lib) fuel e.2)) (DObject []) l.
Proof. done. Qed.

Lemma text_key_inj s t : text_key s = text_key t → s = t.
Proof.
  unfold text_key. intros E.
  assert (chars s = chars t) as Ec.
  { revert E. generalize (chars t). generalize (chars s). induction l as [|a l IH]; intros [|b l'] E; try done.
    rewrite !fmap_cons in E. injection E as E1 E2. f_equal; [|by apply IH].
    rewrite <- (ascii_N_embedding a), <- (ascii_N_embedding b). by rewrite E1. }
  unfold chars in Ec. rewrite <- (String.string_of_list_ascii_of_string s), Ec.
  apply String.string_of_list_ascii_of_string.
Qed.

Lemma print_members_perm (h : dom → string) l l' : NoDup l.*1 → l ≡ₚ l' →
  print_members ((λ e, (e.1, h e.2)) <$> l) = print_members ((λ e, (e.1, h e.2)) <$> l').
Proof.
  intros Hl Hp. unfold print_members. erewrite stable_sort_perm_eq; [reflexivity| |by apply Permutation_map].
  intros x y Hx Hy E%text_key_inj.
  apply list_elem_of_fmap in Hx as (u & -> & Hu), Hy as (v & -> & Hv). cbn in E.
  destruct u as [k u], v as [k' v]. cbn in *. subst.
  apply list_elem_of_lookup in Hu as [i Hi], Hv as [i' Hi'].
  assert (i = i') as ->; [|by simplify_eq].
  eapply NoDup_lookup; [exact Hl|by rewrite list_lookup_fmap, Hi|by rewrite list_lookup_fmap, Hi'].
Qed.

#[export] Instance dom_text_laws : TextLaws (TL := dom_text).
Proof.
  split.
  - intros l l' Hl Hp.
    assert (∀ l, NoDup l.*1 → canonical_json (JL := dom_lib) print_dom (DObject l) =
      print_members ((λ e, (e.1, print_dom (canonicalize (JL := dom_lib) kMaximumJsonContainerDepth e.2))) <$> l)) as Hc.
    { intros m Hm. unfold canonical_json. rewrite canonicalize_object, canonicalize_members by done.
      cbn [app print_dom].
      by rewrite <- list_fmap_compose. }
    change (canonical_json (JL := dom_lib) print_dom (DObject l) =
            canonical_json (JL := dom_lib) print_dom (DObject l')).
    rewrite (Hc l Hl), (Hc l') by (by rewrite <- Hp).
    exact (print_members_perm (λ d, print_dom (canonicalize (JL := dom_lib) kMaximumJsonContainerDepth d)) l l' Hl Hp).
  - intros s. apply sha256_hex_form.
Qed.
