(* ===== verification/JournalRuns.v ===== *)
(** Runs of the recording journal on concrete input.

    Two sessions, with and without an admission, that witness the theorems, and
    the two sessions that cannot be opened again once they are sealed. *)

From S2P Require Import Prelude Json Foundation Text Project Sequence Soundset Outcome Admission AdmissionCodec AdmissionMachine Journal AdmissionLaws AdmissionLog AdmissionRetry JournalLaws JournalAppend SnapshotHistory SnapshotLaws RecoveryLaws JournalSession.

#[local] Existing Instances dom_lib dom_text.

Definition path : string := "active.jsonl".
Definition corrupt (reason message : string) : Error := reason_error invalid_project message reason.

Definition project_found (_ : ProjectId) : Result () := success ().

Definition session : SequenceSessionId := MkId "00000000-0000-4000-8000-000000000001".
Definition long_pattern : PatternId := MkId "00000000-0000-4000-8000-000000000002".
Definition short_pattern : PatternId := MkId "00000000-0000-4000-8000-000000000003".
Definition command : CommandId := MkId "00000000-0000-4000-8000-000000000004".
Definition fingerprint : string :=
  "1fd38d5cbd2a997b91f725cb1cb0a710849db30dac491ee42e92443fd8e3c1a2".

Definition late_event : PatternEvent := MkPatternEvent (MkPadSlotId 0 0) 20000 480 100.

(** An operation, as a call on the journal that was read. *)
Definition Call : Type := JournalDocument → Result (Append ()).

Definition discard {A} (r : Result (Append A)) : Result (Append ()) :=
  match r with
  | success (append_record record _) => success (append_record record ())
  | success (Unchanged _) => success (Unchanged ())
  | failure e => failure e
  | thrown => thrown
  end.

(** The payloads with the record a call appends, [None] when it appends none. *)
Definition written (payloads : list json) (call : Call) : option (list json) :=
  match read_journal path corrupt payloads with
  | returned d =>
      if Nat.leb (length (flushes (journal d))) 100 then
        match call d with
        | success (append_record record _) => Some (payloads ++ [record])
        | _ => None
        end
      else None
  | _ => None
  end.

Fixpoint run (payloads : list json) (calls : list Call) : option (list json) :=
  match calls with
  | [] => Some payloads
  | call :: calls' => payloads' ← written payloads call; run payloads' calls'
  end.

(** What a call appends is a record of the session. *)
Definition session_call (call : Call) : Prop :=
  ∀ d record, call d = success (append_record record ()) →
    (∃ j, appends (journal d) record j) ∨
    (∃ session identity kind data,
       append_admission_record project_found d session identity kind data = success (append_record record ())).

Lemma run_log payloads calls payloads' : session_log path corrupt project_found payloads →
  Forall session_call calls → run payloads calls = Some payloads' → session_log path corrupt project_found payloads'.
Proof.
  intros Hl Hc. revert payloads Hl. induction Hc as [|call calls Hcall _ IH]; intros payloads Hl H; cbn in H.
  - by injection H as <-.
  - destruct (written payloads call) as [p|] eqn:E; [|done]. cbn in H. apply (IH p); [|done].
    unfold written in E. destruct (read_journal path corrupt payloads) as [d| |] eqn:Er; try done.
    destruct (Nat.leb _ _) eqn:Ef; [|done]. apply Nat.leb_le in Ef.
    destruct (call d) as [[record []|]| |] eqn:Ecall; try done. injection E as <-.
    destruct (Hcall d record Ecall) as [[j Hj]|(s & i & k & data & Ha)].
    + refine (log_appended path corrupt project_found payloads d record j Hl Er _ Hj). u_lia.
    + exact (log_admitted path corrupt project_found payloads d s i k data record Hl Er Ha).
Qed.

(** ** An event late in a long Pattern, then a short Pattern *)

Definition begun : list json :=
  match begin_session 7 session long_pattern 8 fingerprint 7 None with success r => [r] | _ => [] end.

Lemma begun_log : session_log path corrupt project_found begun.
Proof.
  assert (Nat.eqb (length begun) 1 = true) as H by (vm_compute; reflexivity).
  unfold begun in *. destruct (begin_session _ _ _ _ _ _ _) as [r| |] eqn:E; [|discriminate..].
  by apply (log_begun path corrupt project_found 7 session long_pattern 8 fingerprint 7 None r).
Qed.

Definition tail_call : Call := λ d, append_tail (journal d) session long_pattern 7 1 [late_event].
Definition flush_call : Call := λ d,
  discard (append_flush (journal d) session command long_pattern 7 [late_event]).
Definition complete_call : Call := λ d, complete_flush (journal d) session 0 8 fingerprint.
Definition switch_call : Call := λ d, switch_pattern (journal d) session short_pattern 1 fingerprint 8.

Lemma discard_appended {A} (r : Result (Append A)) record :
  discard r = success (append_record record ()) → ∃ a, r = success (append_record record a).
Proof. destruct r as [[r a|a]| |]; try done. intros [= ->]. by exists a. Qed.

Lemma calls_ok : Forall session_call [tail_call; flush_call; complete_call; switch_call].
Proof.
  apply Forall_cons; split.
  { intros d record H. left. eexists. refine (appends_tail _ _ _ _ 1 _ _ _ H). done. }
  apply Forall_cons; split.
  { intros d record H. left. apply discard_appended in H as [f H]. eexists.
    exact (appends_flush _ _ _ _ _ _ _ _ H). }
  apply Forall_cons; split.
  { intros d record H. left. eexists. refine (appends_complete _ _ 0 8 _ _ _ _ H); done. }
  apply Forall_singleton. intros d record H. left. eexists. exact (appends_switch _ _ _ _ _ _ _ H).
Qed.


(** ** A session with an admission *)

Definition identity : SequenceAdmissionIdentity := MkAdmissionIdentity command 1 1.
Definition preparation_ : SequenceAdmissionPreparation :=
  MkAdmissionPreparation identity (MkId "00000000-0000-4000-8000-000000000005") long_pattern 1 1 4
    4096 1000 true 50.
Definition start_fence : SequenceAdmissionFence :=
  MkAdmissionFence SequenceFenceKind.admission (MkId "00000000-0000-4000-8000-000000000006") 1 10 0
    long_pattern 1 120 true None SequenceSwitchOutcome.none None.
Definition end_fence : SequenceAdmissionFence :=
  MkAdmissionFence SequenceFenceKind.cutoff (MkId "00000000-0000-4000-8000-000000000007") 2 40 0
    long_pattern 1 120 true None SequenceSwitchOutcome.none None.
Definition press (w f : N) : SequenceAdmissionCandidate :=
  MkAdmissionCandidate w f (MkPadSlotId 0 0) SequenceCandidateKind.press 100 w.
Definition prefix_transfer : SequenceAdmissionTransfer :=
  MkAdmissionTransfer (MkId "00000000-0000-4000-8000-000000000008") false 1 1
    (sequence_admission_candidates_sha256 [press 1 20])
    [sequence_admission_candidate_receipt (press 1 20)] long_pattern 7 (Some 1) [late_event]
    (MkAdmissionCheckpoint long_pattern 1 30 []).
Definition terminal_transfer : SequenceAdmissionTransfer :=
  MkAdmissionTransfer (MkId "00000000-0000-4000-8000-000000000009") true 0 0
    (sequence_admission_candidates_sha256 []) [] long_pattern 7 None [late_event]
    (MkAdmissionCheckpoint long_pattern 1 40 []).
Definition profile (w f : N) : SequenceAdmissionTimingProfile :=
  MkTimingProfile command w long_pattern 1 7 f 0 120 true 50.

Definition prepare_call : Call := λ d, prepare_admission project_found d session preparation_.
Definition start_call : Call := λ d, retain_admission_fence project_found d session identity start_fence.
Definition press_call (w f : N) : Call := λ d, append_admission_candidate project_found d session identity (press w f).
Definition profile_call (w f : N) : Call := λ d,
  retain_admission_timing_profile project_found d session identity (profile w f).
Definition prefix_call : Call := λ d, transfer_admission_prefix project_found d session identity prefix_transfer.
Definition close_call : Call := λ d, close_admission project_found d session identity
  (MkAdmissionClosure (Some 1) SequenceAdmissionCloseReason.requested).
Definition end_call : Call := λ d, retain_admission_fence project_found d session identity end_fence.
Definition terminal_call : Call := λ d, transfer_admission_prefix project_found d session identity terminal_transfer.
Definition finish_call : Call := λ d, complete_admission project_found d session identity.

Definition session_of (calls : list Call) : list json :=
  match run begun calls with Some l => l | None => [] end.

Definition opening_calls : list Call := [prepare_call; start_call; profile_call 1 10; press_call 1 20].
Definition ending_calls : list Call :=
  [prefix_call; close_call; end_call; terminal_call; flush_call; complete_call; finish_call].

Definition plain_session : list json := session_of [tail_call; flush_call; complete_call].
Definition switched_session : list json :=
  session_of [tail_call; flush_call; complete_call; switch_call].
Definition outstanding_session : list json := session_of opening_calls.
Definition complete_session : list json := session_of (opening_calls ++ ending_calls).
Definition early_session : list json :=
  session_of [prepare_call; start_call; profile_call 9 50; press_call 1 100].

Lemma opening_calls_ok : Forall session_call (opening_calls ++ ending_calls).
Proof.
  assert (∀ s i k (data : json) d record, append_admission_record project_found d s i k data = success (append_record record ()) →
    (∃ j, appends (journal d) record j) ∨
    (∃ session identity kind data,
       append_admission_record project_found d session identity kind data = success (append_record record ()))) as Ha
    by (intros; right; eauto).
  pose proof calls_ok as [_ [Hf [Hc _]%Forall_cons]%Forall_cons]%Forall_cons.
  cbn [app opening_calls ending_calls].
  repeat (apply Forall_cons; split; [first [exact Hf|exact Hc|intros d record H; exact (Ha _ _ _ _ _ _ H)]|]).
  done.
Qed.

Lemma early_calls_ok : Forall session_call [prepare_call; start_call; profile_call 9 50; press_call 1 100].
Proof.
  repeat (apply Forall_cons; split; [intros d record H; right; unfold prepare_call, prepare_admission,
    start_call, retain_admission_fence, profile_call, retain_admission_timing_profile, press_call,
    append_admission_candidate in H; eauto|]). done.
Qed.

Lemma session_of_log calls : Forall session_call calls → Nat.ltb 0 (length (session_of calls)) = true →
  session_log path corrupt project_found (session_of calls).
Proof.
  intros Hc Hl. unfold session_of in *. destruct (run begun calls) as [l|] eqn:E; [|done].
  by apply (run_log begun calls); [apply begun_log| |].
Qed.

(** ** What is sealed and cannot be opened *)

(** The message with which opening the sealed journal fails. *)
Definition opening_fails (payloads : list json) : option string :=
  match read_journal path corrupt payloads with
  | returned d =>
      match seal (journal d) session "owner lost" with
      | success document =>
          inner ← j_at document "journal";
          match parse_journal_snapshot path inner with failure e => Some (message e) | _ => None end
      | _ => None
      end
  | _ => None
  end.

Definition unrecoverable (payloads : list json) (m : string) : Prop :=
  session_log path corrupt project_found payloads ∧
  ∃ d document inner e, read_journal path corrupt payloads = returned d ∧
    seal (journal d) session "owner lost" = success document ∧
    j_at document "journal" = Some inner ∧
    parse_journal_snapshot path inner = failure e ∧ message e = m.

Lemma opening_fails_unrecoverable payloads m : session_log path corrupt project_found payloads →
  opening_fails payloads = Some m → unrecoverable payloads m.
Proof.
  intros Hl H. split; [done|]. unfold opening_fails in H.
  destruct (read_journal path corrupt payloads) as [d| |] eqn:Er; try done.
  destruct (seal _ _ _) as [document| |] eqn:Es; try done.
  destruct (j_at document "journal") as [inner|] eqn:Ej; [|done]. cbn in H.
  destruct (parse_journal_snapshot path inner) as [|e|] eqn:Ep; try done. injection H as H.
  by exists d, document, inner, e.
Qed.

(** A session that went on to a shorter Pattern cannot be recovered.  The
    session records an event late in an eight-bar Pattern, flushes it, completes
    the flush and switches to a one-bar Pattern, each operation accepted; sealed,
    it cannot be opened, because [parse_journal_snapshot] holds the events of
    every flush, the completed ones of the Pattern before included, against the
    loop of the Pattern recorded into last. *)
Theorem shorter_pattern_unrecoverable :
  unrecoverable switched_session "Sequence Journal event is invalid".
Proof.
  apply opening_fails_unrecoverable.
  - apply session_of_log; [apply calls_ok|]. vm_compute. reflexivity.
  - vm_compute. reflexivity.
Qed.

(** A candidate that plays after the frame of a retained profile which applies
    from a later watermark on is accepted, and the session cannot be opened. *)
Theorem early_candidate_unrecoverable :
  unrecoverable early_session "Sequence recovery payload is invalid and has been retained".
Proof.
  apply opening_fails_unrecoverable.
  - apply session_of_log; [apply early_calls_ok|]. vm_compute. reflexivity.
  - vm_compute. reflexivity.
Qed.

(** ** Witnesses *)

Lemma outstanding_log : session_log path corrupt project_found outstanding_session.
Proof.
  apply session_of_log; [|vm_compute; reflexivity].
  pose proof opening_calls_ok as H. by apply Forall_app in H as [H _].
Qed.

Lemma complete_log : session_log path corrupt project_found complete_session.
Proof. apply session_of_log; [apply opening_calls_ok|]. vm_compute. reflexivity. Qed.

(** What is read, and the admission in it, when [check] holds of both. *)
Definition reads (payloads : list json)
    (check : JournalDocument → SequenceAdmissionState → bool) : bool :=
  match read_journal path corrupt payloads with
  | returned d => match admission (journal d) with Some s => check d s | None => false end
  | _ => false
  end.

Lemma reads_admission payloads check : reads payloads check = true →
  ∃ d s, read_journal path corrupt payloads = returned d ∧ admission (journal d) = Some s ∧
    check d s = true.
Proof.
  unfold reads. destruct (read_journal path corrupt payloads) as [d| |]; try done.
  destruct (admission (journal d)) as [s|] eqn:E; [|done]. intros H. by exists d, s.
Qed.

Lemma admission_bounded_witness : ∃ d s,
  read_journal path corrupt outstanding_session = returned d ∧
  admission (journal d) = Some s ∧ length (candidates s) = 1%nat ∧
  admission_candidate_bytes d = candidate_bytes s ∧ candidate_bytes s ≤ 1048576.
Proof.
  destruct (reads_admission outstanding_session (λ _ s, Nat.eqb (length (candidates s)) 1))
    as (d & s & Hr & Hs & Hc); [vm_compute; reflexivity|].
  destruct (admission_bounded path corrupt outstanding_session d s Hr Hs) as (_ & _ & _ & [H1 H2] & _ & H3).
  exists d, s. apply Nat.eqb_eq in Hc. split_and!; try assumption. eapply N.le_trans; eassumption.
Defined.

(** One more candidate on what is outstanding. *)
Definition next_call : Call := press_call 2 25.

Lemma next_written : ∃ d record,
  read_journal path corrupt outstanding_session = returned d ∧
  append_admission_record project_found d session identity "admission-candidate" (encode (press 2 25)) =
    success (append_record record ()).
Proof.
  assert (match read_journal path corrupt outstanding_session with
          | returned d => match next_call d with success (append_record _ _) => true | _ => false end
          | _ => false end = true) as H by (vm_compute; reflexivity).
  destruct (read_journal path corrupt outstanding_session) as [d| |] eqn:Er;
    [|discriminate H|discriminate H].
  destruct (next_call d) as [[record []|]| |] eqn:E;
    [|discriminate H..].
  exists d, record. split; [reflexivity|exact E].
Qed.

Lemma admission_retry_witness : ∃ d record d',
  read_journal path corrupt outstanding_session = returned d ∧
  read_journal path corrupt (outstanding_session ++ [record]) = returned d' ∧
  append_admission_record project_found d' session identity "admission-candidate" (encode (press 2 25)) =
    success (Unchanged ()).
Proof.
  destruct next_written as (d & record & Hr & H).
  destruct (admission_retry path corrupt project_found outstanding_session d session identity "admission-candidate"
              (encode (press 2 25)) record Hr H) as (d' & Hr' & H').
  exists d, record, d'. split; [exact Hr|]. split; [exact Hr'|exact H'].
Defined.

Lemma admission_log_grows_witness : ∃ d record d',
  read_journal path corrupt outstanding_session = returned d ∧
  read_journal path corrupt (outstanding_session ++ [record]) = returned d' ∧
  log_extended record (journal_log (journal d)) (journal_log (journal d')).
Proof.
  destruct next_written as (d & record & Hr & H).
  destruct (admission_record_read path corrupt project_found outstanding_session d _ _ _ _ record Hr H)
    as (j & n & Hr' & _).
  exists d, record. eexists. split; [exact Hr|]. split; [exact Hr'|].
  exact (admission_log_grows path corrupt outstanding_session record d _ Hr Hr').
Defined.

Lemma completed_admission_final_witness : ∃ d s,
  read_journal path corrupt complete_session = returned d ∧ admission (journal d) = Some s ∧
  completed s = true ∧ candidates s = [].
Proof.
  destruct (reads_admission complete_session (λ _ s, completed s)) as (d & s & Hr & Hs & Hc);
    [vm_compute; reflexivity|].
  assert (read_journal path corrupt (complete_session ++ []) = returned d) as Hr'
    by (rewrite app_nil_r; exact Hr).
  destruct (completed_admission_final path corrupt complete_session [] d d s Hr Hs Hc Hr') as (_ & H & _).
  exists d, s. split; [exact Hr|]. split; [exact Hs|]. split; [exact Hc|exact H].
Defined.



Lemma admission_state_roundtrip_witness : ∃ s : SequenceAdmissionState,
  length (transfers s) = 2%nat ∧ decode (encode s) = returned s.
Proof.
  destruct (reads_admission complete_session (λ _ s, Nat.eqb (length (transfers s)) 2))
    as (d & s & Hr & Hs & Hc); [vm_compute; reflexivity|]. exists s. apply Nat.eqb_eq in Hc.
  split; [exact Hc|]. apply admission_state_roundtrip.
  exact (adm_typed _ _ (read_journal_admission path corrupt complete_session d s Hr Hs)).
Defined.

(** Deciding that a journal can be sealed and opened. *)
Definition events_checked (len : N) (l : list PatternEvent) : bool :=
  forallb (tail_event_valid len) l && bool_decide (merge_pattern_events [] l = l).

Definition is_returned {A} (r : Outcome A) : bool :=
  match r with returned _ => true | _ => false end.

Definition sealing_checked (d : JournalDocument) (s : SequenceAdmissionState) : bool :=
  let j := journal d in
  let len := pattern_length_ticks (journal_bars j) in
  events_checked len (pending_events j) &&
  forallb (λ f, events_checked len (AdmissionMachine.canonical_events f) && events_checked len (recovery_events f))
    (flushes j) &&
  negb (has_value (capture_commit j)) && is_returned (profiles_valid s (journal_revision j)) &&
  forallb (λ t, is_returned (record_bound (transfer_record (session_id j)
    (encode (preparation_identity (preparation s))) (encode t)))) (transfers s) &&
  bool_decide (session_id j = session).

Lemma events_checked_ok len l : events_checked len l = true → events_ok len l.
Proof.
  unfold events_checked. intros H. bool_to_prop. split; [done|].
  match goal with H : merge_pattern_events [] l = l |- _ => rewrite <- H end. apply merge_canonical.
Qed.

Lemma sealing_checked_ok d s : admission (journal d) = Some s → sealing_checked d s = true →
  sealable (journal d) ∧ session_id (journal d) = session.
Proof.
  intros Hs H. unfold sealing_checked in H. bool_to_prop.
  repeat match goal with H : forallb _ _ = true |- _ => rewrite forallb_forall in H end.
  split; [split|done].
  - split; [by apply events_checked_ok|]. apply Forall_forall. intros f Hf.
    match goal with H : ∀ f : SequenceFlushRecord, _ |- _ =>
      apply list_elem_of_In, H, andb_true_iff in Hf as [? ?] end.
    split; by apply events_checked_ok.
  - intros c Hc. by rewrite Hc in *.
  - intros s' Hs'. rewrite Hs in Hs'. injection Hs' as <-.
    by destruct (profiles_valid s (journal_revision (journal d))) as [[]| |].
  - intros s' Hs'. rewrite Hs in Hs'. injection Hs' as <-. apply Forall_forall. intros t Ht.
    match goal with H : ∀ t : SequenceAdmissionTransfer, _ |- _ =>
      apply list_elem_of_In, H in Ht end.
    unfold transfer_bounded. by destruct (record_bound _) as [[]| |].
Qed.


Lemma appended_events_fit_witness : ∃ d record j,
  appends (journal d) record j ∧ events_fit j ∧ pending_events j = [late_event].
Proof.
  assert (match read_journal path corrupt begun with
          | returned d => is_empty (flushes (journal d)) && is_empty (pending_events (journal d)) &&
                          match tail_call d with success (append_record _ _) => true | _ => false end
          | _ => false end = true) as H by (vm_compute; reflexivity).
  destruct (read_journal path corrupt begun) as [d| |] eqn:Er; [|discriminate H|discriminate H].
  apply andb_true_iff in H as [Hf H]. apply andb_true_iff in Hf as [Hf Hp].
  apply is_empty_true in Hf, Hp.
  destruct (tail_call d) as [[record []|]| |] eqn:E; [|discriminate H..].
  set (j := set_tail (journal d) (Some 1) (u64_add (next_tail_seq (journal d)) 1)
       (merge_pattern_events [] [late_event])).
  assert (appends (journal d) record j) as Ha by (refine (appends_tail _ _ _ _ 1 _ _ _ E); reflexivity).
  exists d, record, j. split; [exact Ha|]. split; [|reflexivity].
  refine (appended_events_fit (journal d) record j _ _ Ha _).
  - exact (read_journal_invariant path corrupt begun d Er).
  - split; [rewrite Hp; apply events_ok_nil|rewrite Hf; constructor].
  - reflexivity.
Defined.
