(* ===== verification/JsonText.v ===== *)
(** JSON texts: what the parsers of the JSON library give back of a printed document.

    The parser, the event (SAX) parser and the printer are third-party code
    (foundation/src/json.cpp bounds the first with its DepthGuard).  [ParseLib]
    lists what the source calls, [ParseLaws] what it relies on: a document of
    plain values, printed, is one line of the documented length, and both parsers
    give back what was printed.  The documents the laws speak of are the trees
    [dom], built by the library's constructors. *)

From S2P Require Import Prelude Json Foundation Text Soundset Outcome Fields.

(** ** Events *)

(** The calls of [nlohmann::json_sax]. *)
Inductive Sax :=
  | sax_null
  | sax_boolean (value : bool)
  | sax_number_integer (n : Z)
  | sax_number_unsigned (n : N)
  | sax_number_float (raw : string)
  | sax_string (value : string)
  | sax_binary
  | sax_key (value : string)
  | sax_start_object
  | sax_end_object
  | sax_start_array
  | sax_end_array.

(** [parse_guarded depth] is [nlohmann::json::parse] with a guard that stops it at
    a container nested more than [depth] deep; [sax_events] are the events
    [sax_parse] delivers of a text, [None] of a malformed one. *)
Class ParseLib `{JL : JsonLib} := {
  parse_guarded : nat → string → option json;
  sax_events : string → option (list Sax)
}.

(** ** Documents *)

Definition newline : ascii := ascii_of_N 10.

(** Printable ASCII that is printed as it is. *)
Definition plain_char (c : ascii) : bool :=
  let n := N_of_ascii c in
  (32 <=? n) && (n <=? 126) && negb (n =? 34) && negb (n =? 92).
Definition plain_text (s : string) : bool := forallb plain_char (chars s).

(** Plain values, nested at most [depth] deep. *)
Fixpoint printable (depth : nat) (d : dom) {struct d} : bool :=
  match d with
  | DNull | DBool _ => true
  | DUint n => n <? 2 ^ 64
  | DInt _ => false
  | DString s => plain_text s
  | DArray l => match depth with O => false | S k => forallb (printable k) l end
  | DObject l =>
      match depth with
      | O => false
      | S k => distinct_keys l && forallb (λ p, plain_text p.1 && printable k p.2) l
      end
  end.

Definition text_length (s : string) : N := N.of_nat (String.length s).

(** The length of the printed document: tokens, and a comma between members. *)
Fixpoint text_size (d : dom) : N :=
  match d with
  | DNull => 4
  | DBool b => if b then 4 else 5
  | DInt _ => 0
  | DUint n => text_length (to_string n)
  | DString s => text_length s + 2
  | DArray l => 2 + sum_of text_size l + (N.of_nat (length l) - 1)
  | DObject l =>
      2 + sum_of (λ p, text_length p.1 + 3 + text_size p.2) l + (N.of_nat (length l) - 1)
  end.

(** The events of a document; members come in some order. *)
Inductive tokens : dom → list Sax → Prop :=
  | tokens_null : tokens DNull [sax_null]
  | tokens_bool b : tokens (DBool b) [sax_boolean b]
  | tokens_uint n : tokens (DUint n) [sax_number_unsigned n]
  | tokens_string s : tokens (DString s) [sax_string s]
  | tokens_array l t : tokens_items l t → tokens (DArray l) (sax_start_array :: t ++ [sax_end_array])
  | tokens_object l l' t : l ≡ₚ l' → tokens_members l' t →
      tokens (DObject l) (sax_start_object :: t ++ [sax_end_object])
with tokens_items : list dom → list Sax → Prop :=
  | tokens_no_item : tokens_items [] []
  | tokens_item d l t t' : tokens d t → tokens_items l t' → tokens_items (d :: l) (t ++ t')
with tokens_members : list (string * dom) → list Sax → Prop :=
  | tokens_no_member : tokens_members [] []
  | tokens_member k d l t t' : tokens d t → tokens_members l t' →
      tokens_members ((k, d) :: l) (sax_key k :: t ++ t').

Scheme tokens_rec := Minimality for tokens Sort Prop
  with tokens_items_rec := Minimality for tokens_items Sort Prop
  with tokens_members_rec := Minimality for tokens_members Sort Prop.
Combined Scheme tokens_mutind from tokens_rec, tokens_items_rec, tokens_members_rec.

Section text.
Context `{JL : JsonLib} `{TL : !TextLib}.

(** The document of the library that a tree describes. *)
Fixpoint build (d : dom) : json :=
  match d with
  | DNull => j_null
  | DBool b => j_bool b
  | DInt z => j_int z
  | DUint n => j_uint n
  | DString s => j_string s
  | DArray l => j_array (build <$> l)
  | DObject l => j_object ((λ p, (p.1, build p.2)) <$> l)
  end.

Definition text (j : json) : string := canonical_json dump j.
End text.

(** ** Documented behaviour *)

Class ParseLaws `{TL : TextLib} `{PL : !ParseLib} : Prop := {
  parse_printed d : printable kMaximumJsonContainerDepth d = true →
    parse_guarded kMaximumJsonContainerDepth (text (build d)) = Some (build d);
  sax_printed d : printable kMaximumJsonContainerDepth d = true →
    ∃ l, sax_events (text (build d)) = Some l ∧ tokens d l;
  printed_size d : printable kMaximumJsonContainerDepth d = true →
    text_length (text (build d)) = text_size d;
  printed_line d : printable kMaximumJsonContainerDepth d = true →
    newline ∉ chars (text (build d));
  set_printed l k d : NoDup l.*1 →
    j_set (build (DObject l)) k (build d) = build (DObject (assoc_set k d l));
  erase_printed l k : NoDup l.*1 →
    j_erase (build (DObject l)) k = build (DObject (filter (λ p, p.1 ≠ k) l));
  equal_string j a b : j_eq_string j a = true → j_eq_string j b = bool_decide (a = b)
}.
