(* ===== verification/JournalFile.v ===== *)
(** The file of a recording session.

    Models the file side of packages/project-io/src/sequence_journal.cpp: records
    in checksummed envelopes, one to a line, read by [read_checked_journal_records]
    with the cache of the prefix parsed last, the search for the Project of an
    admission, and the operations of [SequenceJournal] on a storage platform
    (include/lmdj/project_io/storage_platform.hpp, an interface).  From
    sequence_admission_codec.cpp, [preflight]: the bounds a line is held against
    before a document is built from it. *)

From S2P Require Import Prelude Json Foundation Text Project Sequence Soundset Outcome Admission AdmissionMachine Journal JsonText Fields.

(** ** Preflight *)

Definition size_max : N := 2 ^ 64 - 1.

Record Frame := MkFrame {
  frame_array : bool;
  frame_name : string;
  frame_key : string;
  frame_count : N;
  frame_maximum : N;
  frame_start : N;
  frame_budget : N
}.

(** The SAX handler [Bounds]; the last frame is the head of [frames]. *)
Record Bounds := MkBounds {
  payload_kind : string;
  payload_keys : gset string;
  frames : list Frame;
  total : N
}.

Definition no_bounds : Bounds := MkBounds "" ∅ [] 0.

Definition charge (b : Bounds) (bytes_count : N) : option Bounds :=
  if size_max - total b <? bytes_count then None
  else
    let total' := total b + bytes_count in
    if forallb (λ f, total' - frame_start f <=? frame_budget f) (frames b)
    then Some (MkBounds (payload_kind b) (payload_keys b) (frames b) total')
    else None.

Definition item (b : Bounds) : option Bounds :=
  match frames b with
  | [] => Some b
  | f :: fs =>
      if negb (frame_array f) then Some b
      else
        let f' := MkFrame (frame_array f) (frame_name f) (frame_key f) (frame_count f + 1)
                    (frame_maximum f) (frame_start f) (frame_budget f) in
        if frame_count f' <=? frame_maximum f'
        then Some (MkBounds (payload_kind b) (payload_keys b) (f' :: fs) (total b))
        else None
  end.

Definition scalar (b : Bounds) (n : N) : option Bounds := b' ← item b; charge b' n.

(** [frames.size() == 2 && frames.back().name == "payload"]. *)
Definition in_payload (b : Bounds) : bool :=
  match frames b with [f; _] => bool_decide (frame_name f = "payload") | _ => false end.

Definition string_event (b : Bounds) (value : string) : option Bounds :=
  let kind := match frames b with
              | f :: _ => in_payload b && bool_decide (frame_key f = "kind") | [] => false end in
  scalar (if kind then MkBounds value (payload_keys b) (frames b) (total b) else b)
    (text_length value + 2).

Definition key_event (b : Bounds) (value : string) : option Bounds :=
  match frames b with
  | [] => None
  | f :: fs =>
      if is_empty fs && negb (bool_decide (value = "checksum")) &&
         negb (bool_decide (value = "payload")) then None
      else if in_payload b && bool_decide (value ∈ payload_keys b) then None
      else
        let keys := if in_payload b then {[ value ]} ∪ payload_keys b else payload_keys b in
        let f' := MkFrame (frame_array f) (frame_name f) value (frame_count f) (frame_maximum f)
                    (frame_start f) (frame_budget f) in
        charge (MkBounds (payload_kind b) keys (f' :: fs) (total b)) (text_length value + 3)
  end.

(** The containers that may be as long as a session or its history. *)
Definition unbounded (array : bool) (name : string) (l : list Frame) : bool :=
  let size := length l in
  let back_name := match l with f :: _ => frame_name f | [] => "" end in
  let back_array := match l with f :: _ => frame_array f | [] => false end in
  let named (s : string) := bool_decide (name = s) in
  let below (s : string) := bool_decide (back_name = s) in
  Nat.eqb size 0 || (Nat.eqb size 1 && named "payload") || (Nat.eqb size 2 && named "journal") ||
  (Nat.eqb size 3 && below "journal" && named "admission") ||
  (array && Nat.eqb size 4 && below "admission" &&
   (named "transfers" || named "applied_switches" || named "timing_profiles")) ||
  (array && Nat.eqb size 3 && below "journal" &&
   (named "flushes" || named "pending_events" || named "rebases")) ||
  (array && named "events" &&
   ((Nat.eqb size 2 && below "payload") || below "flushes")) ||
  (array && named "recovery_events" && below "flushes") ||
  (negb array && named "flushes" && back_array).

Definition budget_of (array : bool) (name : string) (l : list Frame) : N :=
  let named (s : string) := bool_decide (name = s) in
  if named "preparation" || named "admission_fence" || named "cutoff_fence" || named "closure" then
    kSequenceAdmissionControlBytes
  else if named "candidates" || named "candidate_receipts" then kSequenceAdmissionCandidateBytes
  else if named "recoverable_tail" && array then kSequenceAdmissionTransferBytes
  else if named "data" || (named "transfers" && negb array) then kSequenceAdmissionTransferBytes
  else if unbounded array name l then size_max
  else kSequenceAdmissionControlBytes.

Definition maximum_of (array : bool) (name : string) : N :=
  let named (s : string) := bool_decide (name = s) in
  if named "owned_presses" && array then 64
  else if (named "candidates" || named "candidate_receipts") && array
  then kSequenceAdmissionMaxCandidates
  else size_max.

(** Members of the envelope that are never arrays. *)
Definition refused_array (array : bool) (name : string) (l : list Frame) : bool :=
  let named (s : string) := bool_decide (name = s) in
  array && (is_empty l || named "payload" || named "journal" || named "admission" ||
            named "checksum").

Definition frame_name_in (l : list Frame) : string :=
  match l with
  | [] => ""
  | f :: _ => if frame_array f then frame_name f else frame_key f
  end.

Definition start (b : Bounds) (array : bool) : option Bounds :=
  if Nat.leb kMaximumJsonContainerDepth (length (frames b)) then None
  else
    b' ← item b;
    let name := frame_name_in (frames b') in
    if refused_array array name (frames b') then None
    else
      let f := MkFrame array name "" 0 (maximum_of array name) (total b')
                 (budget_of array name (frames b')) in
      charge (MkBounds (payload_kind b') (payload_keys b') (f :: frames b') (total b')) 1.

Definition end_ (b : Bounds) : option Bounds :=
  match frames b with
  | [] => None
  | _ => b' ← charge b 1; Some (MkBounds (payload_kind b') (payload_keys b') (tail (frames b')) (total b'))
  end.

Definition decimal_length (z : Z) : N :=
  text_length (to_string (Z.to_N (Z.abs z))) + (if (z <? 0)%Z then 1 else 0).

Definition sax_event (b : Bounds) (e : Sax) : option Bounds :=
  match e with
  | sax_null => scalar b 4
  | sax_boolean v => scalar b (if v then 4 else 5)
  | sax_number_integer z => scalar b (decimal_length z)
  | sax_number_unsigned n => scalar b (text_length (to_string n))
  | sax_number_float raw => scalar b (text_length raw)
  | sax_string s => string_event b s
  | sax_binary => None
  | sax_key k => key_event b k
  | sax_start_object => start b false
  | sax_end_object => end_ b
  | sax_start_array => start b true
  | sax_end_array => end_ b
  end.

Fixpoint sax_run (b : Bounds) (l : list Sax) : option Bounds :=
  match l with [] => Some b | e :: l' => b' ← sax_event b e; sax_run b' l' end.

Section file.
Context `{JL : JsonLib} `{TL : !TextLib} `{PL : !ParseLib}.

Definition admission_keys : gset string := {[ "data"; "identity"; "kind"; "session_id" ]}.
Definition recovery_keys : gset string := {[ "contract"; "journal"; "reason" ]}.

Definition preflight (bytes : string) : Outcome () :=
  match sax_events bytes ≫= sax_run no_bounds with
  | None => raised (Some "admission JSON exceeds bounds or is malformed")
  | Some bounds =>
      if String.prefix "admission-" (payload_kind bounds) then
        let limit := if bool_decide (payload_kind bounds = "admission-transfer")
                     then kSequenceAdmissionTransferBytes else kSequenceAdmissionControlBytes in
        require ((text_length bytes <=? limit) &&
                 bool_decide (payload_keys bounds = admission_keys))
          "admission envelope exceeds bounds or has unknown fields"
      else if bool_decide ("journal" ∈ payload_keys bounds) then
        require (bool_decide (payload_keys bounds = recovery_keys))
          "recovery envelope has unknown fields"
      else returned ()
  end.

(** ** Envelopes *)

Definition checked_record (payload : json) : json :=
  j_object [("checksum", j_string (hash256_hex_string (text payload))); ("payload", payload)].

Definition corrupt_record_error (path : string) (record_offset observed_length : N)
    (reason message : string) : Error :=
  MkError _ invalid_project message
    (j_object
       [("durable_prefix_length", j_uint record_offset); ("journal_retained", j_bool true);
        ("observed_length", j_uint observed_length); ("path", j_string path);
        ("reason", j_string reason); ("record_offset", j_uint record_offset);
        ("remedy", j_string
           "retain the journal; repair the invalid record or discard the recovery journal explicitly")]).

Definition checked_payload (record : json) (path : string) (record_offset observed_length : N) :
    Result json :=
  let envelope_invalid :=
    corrupt_record_error path record_offset observed_length
      "sequence_journal_record_envelope_invalid" "Sequence Journal record envelope is invalid" in
  catch_all (λ _, envelope_invalid)
    (if negb (is_object record) || negb (Nat.eqb (j_size record) 2) ||
        negb (j_contains record "checksum") || negb (j_contains record "payload")
     then refused envelope_invalid
     else
       checksum ← get_string_at record "checksum";
       payload ← at_ record "payload";
       if negb (lowercase_sha256 checksum) ||
          negb (bool_decide (hash256_hex_string (text payload) = checksum))
       then refused (corrupt_record_error path record_offset observed_length
              "sequence_journal_checksum_mismatch"
              "Sequence Journal checksum does not match its canonical payload")
       else returned payload).

(** [parse_bounded_or_throw]. *)
Definition parse_bounded_or_throw (source : string) : Outcome json :=
  match parse_bounded_json parse_guarded source with
  | Some j => returned j
  | None => raised (Some "JSON is malformed or exceeds the maximum container depth")
  end.

(** ** Lines *)

Record CheckedJournalRecord := MkCheckedRecord { payload : json; record_offset : N }.

(** [bytes.find('\n', cursor)] in what is left after [cursor]: the line, and what
    follows its end. *)
Fixpoint find_line (rest : list ascii) : option (list ascii * list ascii) :=
  match rest with
  | [] => None
  | c :: rest' =>
      if bool_decide (c = newline) then Some ([], rest')
      else '(line, after) ← find_line rest'; Some (c :: line, after)
  end.

Definition torn_error (kind : SessionKind) (path : string) (cursor observed_length : N) : Error :=
  MkError _ invalid_project (torn_message (recording_protocol kind))
    (j_object
       [("durable_prefix_length", j_uint cursor); ("journal_retained", j_bool true);
        ("observed_length", j_uint observed_length); ("path", j_string path);
        ("reason", j_string (torn_reason (recording_protocol kind)));
        ("record_offset", j_uint cursor);
        ("remedy", j_string (torn_remedy (recording_protocol kind)))]).

Definition record_error (kind : SessionKind) (path : string) (offset observed_length : N) : Error :=
  corrupt_record_error path offset observed_length
    (match kind with
     | sequence_session => "sequence_journal_record_invalid"
     | performance_session => "performance_journal_record_invalid" end)
    ("active " +:+ protocol_name (recording_protocol kind) +:+ " Journal record is invalid").

(** One line that is not empty. *)
Definition read_line (kind : SessionKind) (path : string) (offset observed_length : N)
    (line : string) : Result json :=
  catch_all (λ _, record_error kind path offset observed_length)
    ((match kind with sequence_session => preflight line | _ => returned () end);;
     envelope ← parse_bounded_or_throw line;
     returning (checked_payload envelope path offset observed_length)).

(** The loop over the lines from [cursor] on; each pass consumes a byte at least. *)
Fixpoint read_lines (fuel : nat) (kind : SessionKind) (path : string) (observed_length cursor : N)
    (rest : list ascii) : Result (list CheckedJournalRecord * N) :=
  match fuel, rest with
  | O, _ | _, [] => success ([], cursor)
  | S fuel', _ =>
      match find_line rest with
      | None => failure (torn_error kind path cursor observed_length)
      | Some (line, after) =>
          let next := cursor + N.of_nat (length line) + 1 in
          if is_empty line then read_lines fuel' kind path observed_length next after
          else
            j ← read_line kind path cursor observed_length (String.string_of_list_ascii line);
            '(l, valid) ← read_lines fuel' kind path observed_length next after;
            success (MkCheckedRecord j cursor :: l, valid)
      end
  end.

(** ** The storage platform

    The interface of storage_platform.hpp: [S] is what is stored.  The two optional
    companions of a platform are options. *)

Class ProjectStoragePlatform (S : Type) := {
  acquire_writer : S → string → Result ();
  exists_ : S → string → Result bool;
  byte_length : S → string → Result N;
  read_complete : S → string → Result (list ascii);
  create_immutable : S → string → list ascii → S * Result ();
  append_durable : S → string → N → list ascii → S * Result ();
  remove : S → string → S * Result ();
  list_names : S → string → Result (list string);
  directory_exists : S → string → Result bool;
  validate_managed_tree : S → string → Result ();
  text_reader : option (S → string → Result (list ascii));
  layout_validator : option (S → string → Result ())
}.

Context {S : Type} `{SP : !ProjectStoragePlatform S}.

(** [bundle / name]. *)
Definition below (bundle name : string) : string := bundle +:+ "/" +:+ name.

Definition recording_active_path (bundle : string) (kind : SessionKind) : string :=
  below (below bundle "recovery/active") (active_filename (recording_protocol kind)).

Definition read_complete_text (s : S) (path : string) (use_text_reader : bool) :
    Result (list ascii) :=
  match (if use_text_reader then text_reader else None) with
  | Some read => read s path
  | None => read_complete s path
  end.

Definition required_directories (bundle : string) : list string :=
  bundle :: (below bundle <$>
    ["assets"; "history"; "history/checkpoints"; "history/transactions"; "recovery";
     "recovery/active"; "recovery/sealed"]).

(** [if (!present.has_value() || !present.value())]. *)
Definition present (r : Result bool) : bool := match r with success b => b | _ => false end.

Definition validate_journal_tree (s : S) (bundle : string) : Result () :=
  validate_managed_tree s bundle ;;
  (fix required (l : list string) : Result () :=
     match l with
     | [] =>
         match byte_length s (below bundle "manifest.json") with
         | success _ => success ()
         | _ => failure (MkError _ invalid_project
                  "Sequence Journal Project manifest is missing or invalid"
                  (j_object [("path", j_string (below bundle "manifest.json"))]))
         end
     | directory :: l' =>
         if present (directory_exists s directory) then required l'
         else failure (MkError _ invalid_project
                "Sequence Journal managed directory is missing or invalid"
                (j_object [("path", j_string directory)]))
     end) (required_directories bundle).

(** ** The cache of the prefix parsed last *)

(** The cache belongs to a thread and remembers its platform; the model has one
    platform, so the comparison of the two is left out. *)

Definition kSequenceParsePrefixBytes : N := 1024 * 1024.

Record SequenceProjectParsePrefix := MkProjectPrefix {
  manifest_bytes : list ascii;
  checkpoint_bytes : list ascii;
  checkpoint_path : string;
  prefix_project : string
}.

#[global] Instance project_prefix_eq_dec : EqDecision SequenceProjectParsePrefix.
Proof. solve_decision. Defined.

Record SequenceParsePrefix := MkPrefix {
  prefix_path : string;
  prefix_bytes : list ascii;
  prefix_document : JournalDocument;
  project_parse_prefix : option SequenceProjectParsePrefix
}.

Record CheckedJournalRecords := MkChecked {
  records : list CheckedJournalRecord;
  valid_prefix_length : N;
  observed_length : N;
  reused_sequence_prefix : option SequenceParsePrefix;
  sequence_bytes : list ascii
}.

Definition bytes_size (bytes : list ascii) : N := N.of_nat (length bytes).

(** [bytes] extends the prefix: it is reused. *)
Definition reusable (path : string) (bytes : list ascii) (p : SequenceParsePrefix) : bool :=
  bool_decide (prefix_path p = path) && (bytes_size (prefix_bytes p) <=? bytes_size bytes) &&
  bool_decide (take (length (prefix_bytes p)) bytes = prefix_bytes p).

Definition missing_journal (kind : SessionKind) (path : string) : Error :=
  MkError _ not_found ("active " +:+ protocol_name (recording_protocol kind) +:+
                       " Journal does not exist") (j_object [("path", j_string path)]).

Definition read_checked_journal_records (s : S) (bundle : string) (kind : SessionKind)
    (cache : option SequenceParsePrefix) : Result CheckedJournalRecords :=
  let sequence := match kind with sequence_session => true | _ => false end in
  (match (if sequence then layout_validator else None) with
   | Some validate => validate s bundle
   | None => validate_journal_tree s bundle
   end);;
  let path := recording_active_path bundle kind in
  found ← exists_ s path;
  if negb found then failure (missing_journal kind path)
  else
    bytes ← read_complete_text s path sequence;
    let reused := p ← cache; if sequence && reusable path bytes p then Some p else None in
    let cursor := match reused with Some p => length (prefix_bytes p) | None => 0%nat end in
    '(l, valid) ← read_lines (length bytes) kind path (bytes_size bytes) (N.of_nat cursor)
                    (drop cursor bytes);
    success (MkChecked l valid (bytes_size bytes) reused
      (if sequence && (bytes_size bytes <=? kSequenceParsePrefixBytes) then bytes else [])).

(** ** The Project of an admission *)

Definition kProjectManifest : string := "lmdj.project.manifest.v1".

(** [manifest.at("contract") != ... || !manifest.at("head_revision").is_number_unsigned()]. *)
Definition manifest_head (manifest : json) (message : string) : Outcome N :=
  contract ← at_ manifest "contract";
  require (j_eq_string contract kProjectManifest) message;;
  head ← at_ manifest "head_revision";
  require (is_number_unsigned head) message;;
  library (get_u64 head).

Definition of_bytes (bytes : list ascii) : string := String.string_of_list_ascii bytes.

Definition manifest_checkpoint (bytes : list ascii) : Outcome string :=
  manifest ← parse_bounded_or_throw (of_bytes bytes);
  head ← manifest_head manifest "invalid admission Project manifest";
  let checkpoint := "history/checkpoints/" +:+ to_string head +:+ ".json" in
  recorded ← at_ manifest "head_checkpoint";
  require (j_eq_string recorded checkpoint) "invalid admission Project checkpoint path";;
  returned checkpoint.

Definition checkpoint_project (bytes : list ascii) (project_id : ProjectId) : Outcome () :=
  data ← parse_bounded_or_throw (of_bytes bytes);
  id ← at_ data "project_id";
  require (j_eq_string id (value project_id)) "admission Project identity mismatch".

(** [can_reuse]: the retained node fits beside the bytes of the Journal. *)
Definition fits_budget (budget : N) (manifest checkpoint : list ascii) : bool :=
  (bytes_size manifest <=? budget) && (bytes_size checkpoint <=? u64_sub budget (bytes_size manifest)).

(** With the node to retain, when it fits. *)
Definition validate_admission_project (s : S) (bundle : string) (project_id : ProjectId)
    (parsed_prefix : option SequenceProjectParsePrefix) (budget : N) :
    Result (option SequenceProjectParsePrefix) :=
  let prefix := p ← parsed_prefix;
                if fits_budget budget (manifest_bytes p) (checkpoint_bytes p) then Some p else None in
  manifest ← read_complete_text s (below bundle "manifest.json") true;
  catch_all (λ what, MkError _ invalid_project what (j_object [("journal_retained", j_bool true)]))
    (let reused_manifest := p ← prefix; if bool_decide (manifest = manifest_bytes p) then Some p else None in
     checkpoint ← match reused_manifest with
                  | Some p => returned (checkpoint_path p)
                  | None => manifest_checkpoint manifest
                  end;
     state ← returning (read_complete_text s (below bundle checkpoint) true);
     let reused_checkpoint :=
       p ← prefix; if bool_decide (checkpoint = checkpoint_path p) &&
                      bool_decide (state = checkpoint_bytes p) then Some p else None in
     match reused_checkpoint with
     | Some p => require (bool_decide (prefix_project p = value project_id))
                   "admission Project identity mismatch"
     | None => checkpoint_project state project_id
     end;;
     returned
       (if fits_budget budget manifest state then
          match reused_manifest, reused_checkpoint with
          | Some p, Some _ => Some p
          | _, _ => Some (MkProjectPrefix manifest state checkpoint (value project_id))
          end
        else None)).

(** ** Reading a Sequence session *)

Record JournalRead := MkRead { read_document : JournalDocument; read_valid_prefix : N }.

(** Replay with the place of each record in the error it would give. *)
Definition replay_records (path : string) (observed : N) (d : JournalDocument)
    (l : list CheckedJournalRecord) : Outcome JournalDocument :=
  fold_outcome (λ d r, replay_record path
    (corrupt_record_error path (record_offset r) observed) d (payload r)) d l.

Definition last_offset (l : list CheckedJournalRecord) : N :=
  match last l with Some r => record_offset r | None => 0 end.

Definition replay_checked (path : string) (checked : CheckedJournalRecords) : Result JournalDocument :=
  let initial := match reused_sequence_prefix checked with
                 | Some p => prefix_document p | None => empty_document end in
  catch_all (λ _, corrupt_record_error path (last_offset (records checked)) (observed_length checked)
                    "sequence_journal_record_invalid" "active Sequence Journal record is invalid")
    (d ← replay_records path (observed_length checked) initial (records checked);
     require (saw_begin d) "Sequence Journal has no durable begin record";;
     returned d).

Definition checked_project (s : S) (bundle : string) (checked : CheckedJournalRecords)
    (document : JournalDocument) : Result (option SequenceProjectParsePrefix) :=
  match admission (journal document) with
  | None => success None
  | Some a =>
      validate_admission_project s bundle (preparation_project (preparation a))
        (reused_sequence_prefix checked ≫= project_parse_prefix)
        (if is_empty (sequence_bytes checked) then 0
         else u64_sub kSequenceParsePrefixBytes (bytes_size (sequence_bytes checked)))
  end.

(** The cache after a read that succeeded, unless the file is too long. *)
Definition retained_prefix (path : string) (checked : CheckedJournalRecords)
    (document : JournalDocument) (project : option SequenceProjectParsePrefix) :
    option SequenceParsePrefix :=
  if is_empty (sequence_bytes checked) then None
  else
    let read := MkPrefix path (sequence_bytes checked) document project in
    match reused_sequence_prefix checked with
    | Some p =>
        if (observed_length checked =? bytes_size (prefix_bytes p)) &&
           is_empty (records checked) && bool_decide (project = project_parse_prefix p)
        then Some p else Some read
    | None => Some read
    end.

(** [read_journal]; a read that fails clears the cache. *)
Definition read_journal_file (s : S) (bundle : string) (cache : option SequenceParsePrefix) :
    option SequenceParsePrefix * Result JournalRead :=
  let path := recording_active_path bundle sequence_session in
  match (checked ← read_checked_journal_records s bundle sequence_session cache;
         document ← replay_checked path checked;
         project ← checked_project s bundle checked document;
         success (checked, document, project)) with
  | success (checked, document, project) =>
      (retained_prefix path checked document project,
       success (MkRead document (valid_prefix_length checked)))
  | failure e => (None, failure e)
  | thrown => (None, thrown)
  end.

(** ** Writing *)

Definition record_line (payload : json) : list ascii := chars (text (checked_record payload)) ++ [newline].

Definition append_recording_record (s : S) (bundle : string) (kind : SessionKind) (valid_prefix : N)
    (payload : json) : S * Result () :=
  append_durable s (recording_active_path bundle kind) valid_prefix (record_line payload).

(** The state of a session's methods: the storage and the cache of the thread. *)
Definition Store : Type := S * option SequenceParsePrefix.

(** What the methods of [SequenceJournal] share: the arguments are checked, then
    the session is read under the writer's lease, and at most one record is
    appended.  [confirm]: without a new record the journal is made durable again. *)
Definition journal_method {A} (arguments : Result ()) (confirm : bool)
    (operation : JournalDocument → Result (Append A)) (bundle : string) (st : Store) :
    Store * Result A :=
  match (arguments;; acquire_writer st.1 bundle) with
  | failure e => (st, failure e)
  | thrown => (st, thrown)
  | success _ =>
      let '(cache, read) := read_journal_file st.1 bundle st.2 in
      match (d ← read; r ← operation (read_document d); success (d, r)) with
      | failure e => ((st.1, cache), failure e)
      | thrown => ((st.1, cache), thrown)
      | success (d, append_record record a) =>
          let '(s', written) := append_recording_record st.1 bundle sequence_session
                                  (read_valid_prefix d) record in
          ((s', cache), written;; success a)
      | success (d, Unchanged a) =>
          if confirm then
            let '(s', written) := append_durable st.1 (recording_active_path bundle sequence_session)
                                    (read_valid_prefix d) [] in
            ((s', cache), written;; success a)
          else ((st.1, cache), success a)
      end
  end.

Definition check_arguments (valid : bool) (message : string) : Result () :=
  if valid then success () else invalid message.

Definition uuids (l : list string) : bool := forallb is_valid_uuid l.

Section methods.
Context (bundle : string) (st : Store).

Definition file_append_tail (session : SequenceSessionId) (pattern : PatternId)
    (revision input_sequence : N) (events : list PatternEvent) : Store * Result () :=
  journal_method
    (check_arguments (uuids [value session; value pattern] && negb (is_empty events))
       "Sequence tail metadata is invalid") false
    (λ d, append_tail (journal d) session pattern revision input_sequence events) bundle st.

Definition file_append_flush (session : SequenceSessionId) (command : CommandId)
    (pattern : PatternId) (revision : N) (events : list PatternEvent) :
    Store * Result SequenceFlushRecord :=
  journal_method
    (check_arguments (uuids [value session; value command; value pattern] && negb (is_empty events))
       "Sequence flush metadata is invalid") false
    (λ d, append_flush (journal d) session command pattern revision events) bundle st.

Definition file_complete_flush (session : SequenceSessionId) (sequence committed : N)
    (fingerprint : string) : Store * Result () :=
  journal_method
    (check_arguments (uuids [value session] && lowercase_sha256 fingerprint)
       "Sequence completion is invalid") false
    (λ d, complete_flush (journal d) session sequence committed fingerprint) bundle st.

Definition file_set_state (session : SequenceSessionId) (state : SequenceSessionState) :
    Store * Result () :=
  journal_method (success ()) true (λ d, set_session_state (journal d) session state) bundle st.

Definition file_rebase (session : SequenceSessionId) (revision : N) : Store * Result () :=
  journal_method (success ()) false (λ d, rebase (journal d) session revision) bundle st.

Definition file_prepare_armed_capture (session : SequenceSessionId) (c : SequenceCaptureCommit) :
    Store * Result () :=
  journal_method
    (check_arguments (uuids [value session; value (capture_command c); value (capture_asset c)] &&
        is_valid_slot (capture_slot c) && lowercase_sha256 (sha256 (capture_artifact c)) &&
        negb (bool_decide (media_type (capture_artifact c) = "")))
       "armed Capture preparation identity is invalid") false
    (λ d, prepare_armed_capture (journal d) session c) bundle st.

Definition file_complete_armed_capture (session : SequenceSessionId) (command : CommandId)
    (s : PadSlotId) (committed : N) : Store * Result () :=
  journal_method
    (check_arguments (uuids [value session; value command] && is_valid_slot s)
       "armed Capture completion identity is invalid") false
    (λ d, complete_armed_capture (journal d) session command s committed) bundle st.

Definition file_disarm_capture (session : SequenceSessionId) (s : PadSlotId) : Store * Result () :=
  journal_method
    (check_arguments (uuids [value session] && is_valid_slot s)
       "armed Capture disarm identity is invalid") false
    (λ d, disarm_capture (journal d) session s) bundle st.

Definition file_resolve_capture_disarm (session : SequenceSessionId) (s : PadSlotId)
    (inspect_truth : option (SequenceCaptureCommit → Result (option N))) :
    Store * Result SequenceCaptureDisarmResult :=
  journal_method
    (check_arguments (uuids [value session] && is_valid_slot s && has_value inspect_truth)
       "checked armed Capture disarm identity is invalid") false
    (λ d, resolve_capture_disarm (journal d) session s inspect_truth) bundle st.

Definition file_switch_pattern (session : SequenceSessionId) (pattern : PatternId) (bars : N)
    (fingerprint : string) (revision : N) : Store * Result () :=
  journal_method
    (check_arguments (uuids [value session; value pattern] && valid_bars bars &&
        lowercase_sha256 fingerprint) "Sequence switch metadata is invalid") false
    (λ d, switch_pattern (journal d) session pattern bars fingerprint revision) bundle st.

(** The methods of an admission; an exact retry makes the journal durable again.
    (A check of the Project that fails also clears the cache, on which no result
    depends.) *)
Definition admission_project (project_id : ProjectId) : Result () :=
  validate_admission_project st.1 bundle project_id None 0;; success ().

Definition file_admission (session : SequenceSessionId) (identity : SequenceAdmissionIdentity)
    (kind : string) (data : json) : Store * Result () :=
  journal_method (success ()) true
    (λ d, append_admission_record admission_project d session identity kind data) bundle st.
End methods.

(** ** Beginning *)

Definition other_session_kind (kind : SessionKind) : SessionKind :=
  match kind with sequence_session => performance_session | performance_session => sequence_session end.

Definition session_kind_string (kind : SessionKind) : string :=
  match kind with sequence_session => "sequence" | performance_session => "performance" end.

Definition active_recording_session (s : S) (bundle : string) (requested : SessionKind) :
    Result (option SessionKind) :=
  found ← exists_ s (recording_active_path bundle requested);
  if found : bool then success (Some requested)
  else
    found ← exists_ s (recording_active_path bundle (other_session_kind requested));
    success (if found : bool then Some (other_session_kind requested) else None).

Definition manifest_head_revision (s : S) (bundle : string) : Result N :=
  let path := below bundle "manifest.json" in
  bytes ← read_complete s path;
  catch_all (λ what, MkError _ invalid_project
      "recording session could not validate the Project revision"
      (j_object [("detail", j_string what); ("path", j_string path)]))
    (manifest ← parse_bounded_or_throw (of_bytes bytes);
     manifest_head manifest "Project manifest head is invalid").

Definition session_active_error (kind : SessionKind) (active : option SequenceSessionId) : Error :=
  let reason := match kind with
                | sequence_session => "sequence_session_active"
                | performance_session => "recording_session_active" end in
  let details := j_object [("reason", j_string reason);
                           ("session_kind", j_string (session_kind_string kind))] in
  MkError _ invalid_argument
    ("a " +:+ protocol_name (recording_protocol kind) +:+
     " session is already active for this Project")
    (match active with
     | Some id => j_set details "session_id" (j_string (value id))
     | None => details end).

(** [created.error()], unless the file exists already. *)
Definition created_error (e : Error) : Error :=
  match (if j_contains (details e) "storage_condition" then j_at (details e) "storage_condition"
         else None) with
  | Some condition =>
      if is_string condition && j_eq_string condition "already_exists"
      then reason_error invalid_argument
             "a Sequence session is already active for this Project" "sequence_session_active"
      else e
  | None => e
  end.

Definition begin (bundle : string) (st : Store) (session : SequenceSessionId) (pattern : PatternId)
    (bars : N) (fingerprint : string) (revision : N) (armed : option PadSlotId) : Store * Result () :=
  let checked :=
    check_arguments (uuids [value session; value pattern] && valid_bars bars &&
        lowercase_sha256 fingerprint &&
        match armed with Some s => is_valid_slot s | None => true end)
      "Sequence begin metadata is invalid";;
    acquire_writer st.1 bundle;;
    validate_journal_tree st.1 bundle;;
    active_recording_session st.1 bundle sequence_session in
  match checked with
  | failure e => (st, failure e)
  | thrown => (st, thrown)
  | success (Some sequence_session) =>
      let '(cache, read) := read_journal_file st.1 bundle st.2 in
      ((st.1, cache),
       failure (session_active_error sequence_session
         (match read with success r => Some (session_id (journal (read_document r))) | _ => None end)))
  | success (Some performance_session) =>
      (st, failure (session_active_error performance_session None))
  | success None =>
      match (head ← manifest_head_revision st.1 bundle;
             begin_session head session pattern bars fingerprint revision armed) with
      | failure e => (st, failure e)
      | thrown => (st, thrown)
      | success record =>
          let '(s', created) :=
            create_immutable st.1 (recording_active_path bundle sequence_session)
              (record_line record) in
          ((s', st.2), match created with failure e => failure (created_error e) | r => r end)
      end
  end.

(** [read_active]. *)
Definition read_active (bundle : string) (st : Store) : Store * Result ActiveSequenceJournal :=
  let '(cache, read) := read_journal_file st.1 bundle st.2 in
  ((st.1, cache), (d ← read; success (journal (read_document d)))).

(** ** Ending *)

Definition file_remove_active_if_complete (bundle : string) (st : Store)
    (session : SequenceSessionId) : Store * Result () :=
  match acquire_writer st.1 bundle with
  | failure e => (st, failure e)
  | thrown => (st, thrown)
  | success _ =>
      let '(cache, read) := read_journal_file st.1 bundle st.2 in
      match (d ← read; remove_active_if_complete (journal (read_document d)) session) with
      | failure e => ((st.1, cache), failure e)
      | thrown => ((st.1, cache), thrown)
      | success _ =>
          let '(s', removed) := remove st.1 (recording_active_path bundle sequence_session) in
          ((s', cache), removed)
      end
  end.

(** [std::isalnum] in the "C" locale, and the two characters a name may hold. *)
Definition file_char (c : ascii) : bool :=
  let n := N_of_ascii c in
  ((48 <=? n) && (n <=? 57)) || ((65 <=? n) && (n <=? 90)) || ((97 <=? n) && (n <=? 122)) ||
  (n =? 45) || (n =? 95).

Definition file_reason (reason : string) : string :=
  let result := of_bytes ((λ c, if file_char c then c else ascii_of_N 95) <$> chars reason) in
  if bool_decide (result = "") then "recovery" else result.

(** The first name that is free, tried with the suffixes from [suffix] on. *)
Fixpoint free_name (fuel : nat) (s : S) (directory stem : string) (suffix : N)
    (destination : string) : Result string :=
  found ← exists_ s destination;
  if negb found then success destination
  else match fuel with
       | O => thrown
       | Datatypes.S fuel' =>
           free_name fuel' s directory stem (suffix + 1)
             (below directory (stem +:+ "-" +:+ to_string suffix +:+ ".json"))
       end.

(** [seal]; [names] bounds the suffixes tried. *)
Definition file_seal (names : nat) (bundle : string) (st : Store) (session : SequenceSessionId)
    (reason : string) : Store * Result string :=
  match (check_arguments (negb (bool_decide (reason = ""))) "Sequence recovery reason is empty";;
         acquire_writer st.1 bundle) with
  | failure e => (st, failure e)
  | thrown => (st, thrown)
  | success _ =>
      let '(cache, read) := read_journal_file st.1 bundle st.2 in
      let directory := below bundle "recovery/sealed" in
      let stem := value session +:+ sealed_name_marker kSequenceProtocol +:+ "-" +:+ file_reason reason in
      match (d ← read;
             document ← seal (journal (read_document d)) session reason;
             destination ← free_name names st.1 directory stem 1
                             (below directory (stem +:+ ".json"));
             success (document, destination)) with
      | failure e => ((st.1, cache), failure e)
      | thrown => ((st.1, cache), thrown)
      | success (document, destination) =>
          let '(s1, written) := create_immutable st.1 destination (record_line document) in
          match written with
          | failure e => ((s1, cache), failure e)
          | thrown => ((s1, cache), thrown)
          | success _ =>
              let '(s2, removed) := remove s1 (recording_active_path bundle sequence_session) in
              ((s2, cache), removed;; success destination)
          end
      end
  end.

(** ** Recovery *)

Record CheckedRecoveryDocument := MkRecovery { recovery_payload : json; recovery_path : string }.

Definition recovery_document_error (kind : SessionKind) (path what : string) : Error :=
  MkError _ invalid_project
    (protocol_name (recording_protocol kind) +:+ " recovery payload is invalid and has been retained")
    (j_object
       [("detail", j_string what); ("path", j_string path);
        ("reason", j_string (match kind with
                             | sequence_session => "sequence_recovery_payload_invalid"
                             | performance_session => "performance_recovery_payload_invalid" end));
        ("recovery_retained", j_bool true);
        ("remedy", j_string
           "retain the recovery file; repair its versioned payload or discard this recovery candidate explicitly")]).

Definition string_member (j : json) (key : string) : Outcome bool :=
  if j_contains j key then v ← at_ j key; returned (is_string v) else returned false.

(** The payload of one file, [None] when it is of the other kind. *)
Definition recovery_contents (kind : SessionKind) (path : string) (bytes : list ascii) :
    Result (option json) :=
  catch_all (recovery_document_error kind path)
    ((match kind with sequence_session => preflight (of_bytes bytes) | _ => returned () end);;
     envelope ← parse_bounded_or_throw (of_bytes bytes);
     payload ← returning (checked_payload envelope path 0 (bytes_size bytes));
     contract_ok ← (if is_object payload then string_member payload "contract" else returned false);
     reason_ok ← (if contract_ok : bool then
                    if j_contains payload "journal" then string_member payload "reason"
                    else returned false
                  else returned false);
     require reason_ok "recording recovery payload shape is invalid";;
     contract ← get_string_at payload "contract";
     if bool_decide (contract = recovery_contract (recording_protocol (other_session_kind kind)))
     then returned None
     else
       require (bool_decide (contract = recovery_contract (recording_protocol kind)))
         "recording recovery contract is unknown";;
       returned (Some payload)).

(** [path.extension() == ".json"] of a name: what follows its last dot, unless the
    dot is its first character. *)
Definition json_extension (name : string) : bool :=
  let l := chars name in
  let n := length l in
  Nat.ltb 5 n && bool_decide (drop (n - 5) l = chars ".json").

Fixpoint read_recovery_documents (s : S) (directory : string) (kind : SessionKind)
    (names : list string) : Result (list CheckedRecoveryDocument) :=
  match names with
  | [] => success []
  | name :: names' =>
      if negb (json_extension name) then read_recovery_documents s directory kind names'
      else
        let path := below directory name in
        bytes ← read_complete s path;
        payload ← recovery_contents kind path bytes;
        l ← read_recovery_documents s directory kind names';
        success (match payload with Some j => MkRecovery j path :: l | None => l end)
  end.

Definition path_key (path : string) : list N := N_of_ascii <$> chars path.

Definition read_checked_recovery_documents (s : S) (bundle : string) (kind : SessionKind) :
    Result (list CheckedRecoveryDocument) :=
  validate_journal_tree s bundle;;
  names ← list_names s (below bundle "recovery/sealed");
  l ← read_recovery_documents s (below bundle "recovery/sealed") kind names;
  success (stable_sort (λ d, path_key (recovery_path d)) l).

Record SequenceRecoveryCandidate := MkCandidateDocument {
  candidate_journal : ActiveSequenceJournal;
  candidate_reason : string;
  candidate_path : string
}.

Definition recovery_candidate (s : S) (bundle : string) (d : CheckedRecoveryDocument) :
    Result SequenceRecoveryCandidate :=
  match j_at (recovery_payload d) "journal", j_at (recovery_payload d) "reason" ≫= get_string with
  | Some inner, Some reason =>
      j ← parse_journal_snapshot (recovery_path d) inner;
      (match admission j with
       | Some a => validate_admission_project s bundle (preparation_project (preparation a)) None 0;;
                   success ()
       | None => success ()
       end);;
      success (MkCandidateDocument j reason (recovery_path d))
  | _, _ => thrown
  end.

Fixpoint recovery_candidates (s : S) (bundle : string) (l : list CheckedRecoveryDocument) :
    Result (list SequenceRecoveryCandidate) :=
  match l with
  | [] => success []
  | d :: l' => c ← recovery_candidate s bundle d; r ← recovery_candidates s bundle l'; success (c :: r)
  end.

Definition list_recoverable (s : S) (bundle : string) : Result (list SequenceRecoveryCandidate) :=
  documents ← read_checked_recovery_documents s bundle sequence_session;
  recovery_candidates s bundle documents.
End file.
