(* ===== verification/JournalCache.v ===== *)
(** Lines of a journal, and the cache of the prefix parsed last.

    Reading lines is compositional, a torn last line is reported at its start, and
    reading with the cache gives what reading without it gives.

    Reading with the cache of the prefix parsed last.

    The cache is an optimisation: a read that finds the prefix in the file parses
    only what follows it, and one that finds the Project's files as they were does
    not parse them again.  Here: it never changes what a read gives. *)

From S2P Require Import Prelude Json Foundation Text Project Sequence Soundset Outcome Admission AdmissionMachine Journal AdmissionLog JsonText JournalFile.

(** ** Lines *)

Lemma find_line_end l r : newline ∉ l → find_line (l ++ newline :: r) = Some (l, r).
Proof.
  induction l as [|c l IH]; cbn [find_line app]; [by rewrite bool_decide_true|].
  rewrite not_elem_of_cons. intros [Hc Hl]. rewrite bool_decide_false by congruence. by rewrite IH.
Qed.

Lemma find_line_torn l : newline ∉ l → find_line l = None.
Proof.
  induction l as [|c l IH]; cbn [find_line]; [done|]. rewrite not_elem_of_cons. intros [Hc Hl].
  rewrite bool_decide_false by congruence. by rewrite IH.
Qed.

Lemma find_line_some r l a : find_line r = Some (l, a) → r = l ++ newline :: a ∧ newline ∉ l.
Proof.
  revert l a. induction r as [|c r IH]; intros l a; cbn [find_line]; [done|]. case_bool_decide as Hc.
  - intros [= <- <-]. subst. split; [done|apply not_elem_of_nil].
  - destruct (find_line r) as [[l' a']|] eqn:E; [|done]. intros [= <- <-].
    destruct (IH _ _ eq_refl) as [-> ?]. split; [done|]. apply not_elem_of_cons. by split.
Qed.

Section lines.
Context `{JL : JsonLib} `{TL : !TextLib} `{PL : !ParseLib} (kind : SessionKind) (path : string).

Lemma checked_payload_success j o n p : checked_payload j path o n = success p →
  ∀ o' n', checked_payload j path o' n' = success p.
Proof.
  unfold checked_payload. intros H o' n'. case_match; [done|].
  destruct (get_string_at j "checksum") as [c| |]; [|done..]. cbn in *.
  destruct (at_ j "payload") as [q| |]; [|done..]. cbn in *. by case_match.
Qed.

Lemma read_line_success o n l j : read_line kind path o n l = success j →
  ∀ o' n', read_line kind path o' n' l = success j.
Proof.
  unfold read_line. intros H o' n'.
  destruct (match kind with sequence_session => preflight l | _ => returned () end) as [[]| |]; [|done..].
  cbn in *. destruct (parse_bounded_or_throw l) as [e| |]; [|done..]. cbn in *.
  destruct (checked_payload e path o n) as [p| |] eqn:E; [|done..].
  by rewrite (checked_payload_success _ _ _ _ E).
Qed.

Lemma read_lines_fuel f n c r : (length r ≤ f)%nat →
  read_lines f kind path n c r = read_lines (length r) kind path n c r.
Proof.
  revert c r. induction (lt_wf f) as [f _ IH]. intros c r Hf.
  destruct f as [|f]; [by destruct r; [|cbn in Hf; lia]|]. destruct r as [|x r]; [done|].
  cbn [read_lines length]. destruct (find_line (x :: r)) as [[l a]|] eqn:E; [|done].
  apply find_line_some in E as [E _]. apply (f_equal length) in E. rewrite length_app in E. cbn in E, Hf.
  rewrite (IH f) by lia. destruct (Nat.eq_dec f (length r)) as [->|]; [by rewrite <- (IH (length r)) by lia|].
  rewrite <- (IH (length r)) by lia. done.
Qed.

(** Lines that read are followed by whatever comes after them. *)
Lemma read_lines_app f n c a l v n' b : read_lines f kind path n c a = success (l, v) →
  (length a ≤ f)%nat →
  v = c + N.of_nat (length a) ∧
  read_lines (length (a ++ b)) kind path n' c (a ++ b) =
    '(l', v') ← read_lines (length b) kind path n' v b; success (l ++ l', v').
Proof.
  revert c a l. induction (lt_wf f) as [f _ IH]. intros c a l H Hf.
  destruct a as [|x a].
  { assert (l = [] ∧ v = c) as [-> ->].
    { destruct f; cbn in H; injection H as <- <-; done. }
    split; [cbn; lia|]. cbn [app]. by destruct (read_lines _ _ _ _ _ b) as [[]| |]. }
  destruct f as [|f]; [cbn in Hf; lia|]. cbn [read_lines] in H.
  destruct (find_line (x :: a)) as [[line after]|] eqn:E; [|done].
  apply find_line_some in E as [E Hline].
  assert (length (x :: a) = length line + 1 + length after)%nat as Elen.
  { rewrite E, length_app. cbn. lia. }
  assert (find_line ((x :: a) ++ b) = Some (line, after ++ b)) as Ef.
  { rewrite E, <- app_assoc. cbn [app]. by apply find_line_end. }
  assert (∀ c', read_lines (length (a ++ b)) kind path n' c' (after ++ b) =
                read_lines (length (after ++ b)) kind path n' c' (after ++ b)) as Hfuel.
  { intros c'. apply read_lines_fuel. rewrite !length_app. cbn in Elen. lia. }
  change (length ((x :: a) ++ b)) with (S (length (a ++ b))). cbn [read_lines].
  change ((x :: a) ++ b) with (x :: (a ++ b)) in *. rewrite Ef. rewrite Hfuel.
  destruct (is_empty line) eqn:El.
  - eapply (IH f) in H as [-> H]; [|lia|cbn in Hf, Elen; lia]. split; [|exact H]. rewrite Elen. lia.
  - destruct (read_line _ _ _ n _) as [j| |] eqn:Ej; [|done..]. cbn [mbind result_bind] in H.
    destruct (read_lines f _ _ _ _ after) as [[l1 v1]| |] eqn:E1; [|done..]. injection H as <- <-.
    eapply (IH f) in E1 as [-> H1]; [|lia|cbn in Hf, Elen; lia].
    split; [rewrite Elen; lia|]. rewrite (read_line_success _ _ _ _ Ej). cbn [mbind result_bind].
    rewrite H1. by destruct (read_lines (length b) _ _ _ _ b) as [[]| |].
Qed.
End lines.

(** ** Replay *)

Section replay.
Context `{JL : JsonLib} `{TL : !TextLib}.

Lemma replay_record_saw path corrupt d p d' : replay_record path corrupt d p = returned d' → saw_begin d' = true.
Proof.
  unfold replay_record. intros H%at_reason_returned. apply bind_returned in H as (k & _ & H).
  unfold replay_kind in H. case_match.
  - by apply bind_returned in H as (? & _ & <-%returned_inj).
  - case_match; [|by apply bind_returned in H as (? & _ & <-%returned_inj)].
    unfold replay_admission in H. apply bind_returned in H as ([[? ?] ?] & _ & H).
    by apply bind_returned in H as (? & _ & <-%returned_inj).
Qed.

Lemma replay_records_saw path n d l d' : replay_records path n d l = returned d' →
  saw_begin d = true → saw_begin d' = true.
Proof.
  unfold replay_records. revert d. induction l as [|r l IH]; intros d H Hd; cbn [fold_outcome] in H.
  - by apply returned_inj in H as <-.
  - apply bind_returned in H as (d1 & H1 & H). by apply (IH d1), (replay_record_saw _ _ _ _ _ H1).
Qed.

Lemma replay_record_raised path corrupt d p w : replay_record path corrupt d p ≠ raised w.
Proof. unfold replay_record, at_reason. by case_match. Qed.

Lemma replay_records_raised path n d l w : replay_records path n d l ≠ raised w.
Proof.
  unfold replay_records. revert d. induction l as [|r l IH]; intros d; cbn [fold_outcome]; [done|].
  destruct (replay_record _ _ _ _) as [d'| |] eqn:E; [apply IH|done|by apply replay_record_raised in E].
Qed.

Lemma replay_records_app path n d l l' :
  replay_records path n d (l ++ l') = d' ← replay_records path n d l; replay_records path n d' l'.
Proof. apply fold_outcome_app. Qed.

(** What replay accepts does not depend on the errors it would give. *)
Lemma at_reason_accepts {A} c c' reason message (r r' : Outcome A) :
  (∀ a, r = returned a ↔ r' = returned a) →
  ∀ a, at_reason c reason message r = returned a ↔ at_reason c' reason message r' = returned a.
Proof.
  intros H a. pose proof (H a). unfold at_reason. destruct r, r'; split; intros; try done; naive_solver.
Qed.

Lemma bind_accepts {A B} (r r' : Outcome A) (f f' : A → Outcome B) :
  (∀ a, r = returned a ↔ r' = returned a) → (∀ a b, f a = returned b ↔ f' a = returned b) →
  ∀ b, r ≫= f = returned b ↔ r' ≫= f' = returned b.
Proof. intros H1 H2 b. rewrite !bind_returned. naive_solver. Qed.

Lemma traverse_accepts {A B} (f f' : A → Outcome B) l :
  (∀ a b, f a = returned b ↔ f' a = returned b) →
  ∀ r, traverse f l = returned r ↔ traverse f' l = returned r.
Proof.
  intros H. induction l as [|a l IH]; cbn [traverse]; [done|].
  apply bind_accepts; [apply H|]. intros b. by apply bind_accepts.
Qed.

Ltac accepts :=
  repeat first
    [ done
    | apply at_reason_accepts
    | apply traverse_accepts; intros
    | apply bind_accepts; [|intros]
    | case_match ].

Lemma replay_record_accepts path c c' d p :
  ∀ d', replay_record path c d p = returned d' ↔ replay_record path c' d p = returned d'.
Proof.
  unfold replay_record. apply at_reason_accepts. apply bind_accepts; [done|].
  intros k. unfold replay_kind. case_match; [done|]. case_match; [done|].
  apply bind_accepts; [|done]. unfold replay_plain.
  case_match; [unfold replay_tail; accepts|]. case_match; [unfold replay_flush; accepts|].
  case_match; [unfold replay_complete, complete_one; accepts|]. done.
Qed.

(** The document does not depend on where in the file its records are. *)
Lemma replay_records_read path c n d l d' :
  replay_records path n d l = returned d' ↔
  fold_outcome (replay_record path c) d (payload <$> l) = returned d'.
Proof.
  unfold replay_records. revert d. induction l as [|r l IH]; intros d; [done|].
  cbn [fold_outcome fmap list_fmap]. rewrite !bind_returned. split; intros (d1 & H1 & H2); exists d1.
  - split; [by rewrite (replay_record_accepts _ _ (corrupt_record_error path (record_offset r) n))|]. by apply IH.
  - split; [by rewrite (replay_record_accepts _ _ c)|]. by apply IH.
Qed.
End replay.

Section cache.
Context `{JL : JsonLib} `{TL : !TextLib} `{PL : !ParseLib} `{PW : !ParseLaws}.
Context {St : Type} `{SP : !ProjectStoragePlatform St}.

(** What a retained Project node says of the bytes it holds. *)
Definition project_node_ok (q : SequenceProjectParsePrefix) : Prop :=
  manifest_checkpoint (manifest_bytes q) = returned (checkpoint_path q) ∧
  checkpoint_project (checkpoint_bytes q) (MkId (prefix_project q)) = returned ().

(** What a retained prefix says: its bytes are lines that replay to its document. *)
Record prefix_ok (p : SequenceParsePrefix) : Prop := {
  ok_lines : ∃ l v, read_lines (length (prefix_bytes p)) sequence_session (prefix_path p) 0 0
                      (prefix_bytes p) = success (l, v) ∧
             replay_records (prefix_path p) 0 empty_document l = returned (prefix_document p);
  ok_begun : saw_begin (prefix_document p) = true;
  ok_project : ∀ q, project_parse_prefix p = Some q → project_node_ok q
}.

Definition cache_ok (cache : option SequenceParsePrefix) : Prop := ∀ p, cache = Some p → prefix_ok p.

(** Reads of one thread after another, each with what the one before retained. *)
Fixpoint reads_cached (states : list (St * string)) (cache : option SequenceParsePrefix) :
    list (Result JournalRead) :=
  match states with
  | [] => []
  | (s, bundle) :: states' =>
      let '(cache', r) := read_journal_file s bundle cache in r :: reads_cached states' cache'
  end.

Lemma replay_records_observed path n n' d l d' :
  replay_records path n d l = returned d' → replay_records path n' d l = returned d'.
Proof.
  intros H. apply (replay_records_read _ (corrupt_record_error path 0 0)).
  by apply (replay_records_read _ (corrupt_record_error path 0 0)) in H.
Qed.

Lemma read_lines_observed kind path n n' f c r l v :
  (length r ≤ f)%nat → read_lines f kind path n c r = success (l, v) →
  read_lines (length r) kind path n' c r = success (l, v).
Proof.
  intros Hf H. eapply (read_lines_app _ _ _ _ _ _ _ _ n' []) in H as [_ H]; [|done].
  rewrite app_nil_r in H. rewrite H. cbn. by rewrite app_nil_r.
Qed.

(** ** The Project's node *)

Lemma checkpoint_identity bytes id id' :
  checkpoint_project bytes id = returned () →
  checkpoint_project bytes id' =
    require (bool_decide (value id = value id')) "admission Project identity mismatch".
Proof.
  unfold checkpoint_project. intros H. apply bind_returned in H as (data & -> & H).
  cbn [mbind outcome_bind]. apply bind_returned in H as (i & -> & H). cbn [mbind outcome_bind].
  apply require_returned in H. by rewrite (equal_string _ _ _ H).
Qed.

Lemma project_cached s bundle id prefix budget :
  (∀ q, prefix = Some q → project_node_ok q) →
  validate_admission_project s bundle id prefix budget =
    validate_admission_project s bundle id None budget.
Proof.
  intros Hok. destruct prefix as [q|]; [|done]. destruct (Hok q eq_refl) as [Hm Hc].
  unfold validate_admission_project. cbn [mbind option_bind].
  destruct (fits_budget budget (manifest_bytes q) (checkpoint_bytes q)); [|done].
  destruct (read_complete_text s (below bundle "manifest.json") true) as [m| |]; [|done..].
  cbn [mbind result_bind option_bind]. f_equal. case_bool_decide as Em.
  - subst m. rewrite Hm. cbn [mbind outcome_bind].
    destruct (read_complete_text s (below bundle (checkpoint_path q)) true) as [st| |]; [|done..].
    cbn [returning mbind outcome_bind]. rewrite bool_decide_true by done. cbn [andb].
    destruct (decide (st = checkpoint_bytes q)) as [->|]; [|by rewrite bool_decide_false].
    rewrite bool_decide_true by done. rewrite (checkpoint_identity _ _ id Hc). cbn [value].
    unfold require. case_bool_decide as Ei; [|done]. cbn [mbind outcome_bind].
    by destruct q; cbn in *; subst.
  - cbn [mbind option_bind]. destruct (manifest_checkpoint m) as [c| |]; [|done..].
    cbn [mbind outcome_bind].
    destruct (read_complete_text s (below bundle c) true) as [st| |]; [|done..].
    cbn [returning mbind outcome_bind].
    destruct (bool_decide (c = checkpoint_path q)) eqn:Ec; [|done]. cbn [andb].
    destruct (decide (st = checkpoint_bytes q)) as [->|]; [|by rewrite bool_decide_false].
    rewrite bool_decide_true by done. by rewrite (checkpoint_identity _ _ id Hc).
Qed.

Lemma project_node s bundle id budget q :
  validate_admission_project s bundle id None budget = success (Some q) → project_node_ok q.
Proof.
  unfold validate_admission_project. cbn [mbind option_bind].
  destruct (read_complete_text s (below bundle "manifest.json") true) as [m| |]; [|done..].
  cbn [mbind result_bind]. unfold catch_all.
  destruct (manifest_checkpoint m) as [c| |] eqn:Em; [|done..]. cbn [mbind outcome_bind].
  destruct (read_complete_text s (below bundle c) true) as [st| |]; [|done..].
  cbn [returning mbind outcome_bind].
  destruct (checkpoint_project st id) as [[]| |] eqn:Ec; [|done..]. cbn [mbind outcome_bind].
  destruct (fits_budget _ _ _); [|done]. intros [= <-]. split; [done|]. cbn. by destruct id.
Qed.

(** ** Reading *)

Lemma reusable_split path bytes p : reusable path bytes p = true →
  prefix_path p = path ∧ ∃ rest, bytes = prefix_bytes p ++ rest.
Proof.
  unfold reusable. intros H. bool_to_prop. split; [done|]. exists (drop (length (prefix_bytes p)) bytes).
  match goal with H : take _ _ = _ |- _ => rewrite <- H at 1 end. by rewrite take_drop.
Qed.

(** With and without the cache the same lines are read; what is read without it
    are those of the prefix, and then those read with it. *)
Lemma checked_cached s bundle cache : cache_ok cache →
  match read_checked_journal_records s bundle sequence_session cache,
        read_checked_journal_records s bundle sequence_session None with
  | success hot, success cold =>
      valid_prefix_length hot = valid_prefix_length cold ∧
      observed_length hot = observed_length cold ∧ sequence_bytes hot = sequence_bytes cold ∧
      reused_sequence_prefix cold = None ∧
      match reused_sequence_prefix hot with
      | None => records hot = records cold
      | Some p => prefix_ok p ∧ prefix_path p = recording_active_path bundle sequence_session ∧
          ∃ l, records cold = l ++ records hot ∧
               replay_records (prefix_path p) 0 empty_document l = returned (prefix_document p)
      end
  | failure e, failure e' => e = e'
  | thrown, thrown => True
  | _, _ => False
  end.
Proof.
  intros Hok. unfold read_checked_journal_records.
  destruct (match layout_validator with Some _ => _ | None => _ end) as [[]| |]; try done.
  cbn [mbind result_bind]. destruct (exists_ _ _) as [[]| |]; try done. cbn [mbind result_bind negb].
  destruct (read_complete_text _ _ _) as [bytes| |]; try done. cbn [mbind result_bind option_bind andb].
  set (path := recording_active_path bundle sequence_session).
  set (n := bytes_size bytes). change (N.of_nat 0) with 0. rewrite drop_0.
  destruct cache as [p|]; cbn [mbind option_bind].
  2: { change (N.of_nat 0) with 0. rewrite drop_0. by destruct (read_lines _ _ _ _ _ _) as [[l v]| |]. }
  destruct (reusable path bytes p) eqn:Er.
  2: { change (N.of_nat 0) with 0. rewrite drop_0. by destruct (read_lines _ _ _ _ 0 _) as [[l v]| |]. }
  apply reusable_split in Er as [Hpath [rest Hb]]. pose proof (Hok p eq_refl) as Hp.
  destruct (ok_lines _ Hp) as (l & v & Hl & Hd). rewrite Hpath in Hl.
  pose proof (read_lines_app _ _ _ _ _ _ _ _ n rest Hl ltac:(done)) as [-> Hall]. rewrite <- Hb in Hall.
  rewrite Hall. assert (drop (length (prefix_bytes p)) bytes = rest) as ->.
  { rewrite Hb. by apply drop_app_length. }
  rewrite (read_lines_fuel _ _ (length bytes)) by (rewrite Hb, length_app; lia).
  rewrite N.add_0_l. destruct (read_lines (length rest) _ _ _ _ rest) as [[l' v']| |]; try done.
  cbn. split_and!; try done. by exists l.
Qed.

Lemma replay_checked_cached hot cold path :
  observed_length hot = observed_length cold → reused_sequence_prefix cold = None →
  match reused_sequence_prefix hot with
  | None => records hot = records cold
  | Some p => prefix_ok p ∧ prefix_path p = path ∧
      ∃ l, records cold = l ++ records hot ∧
           replay_records (prefix_path p) 0 empty_document l = returned (prefix_document p)
  end →
  replay_checked path hot = replay_checked path cold.
Proof.
  intros Hn Hc H. unfold replay_checked. rewrite Hc, <- Hn. destruct (reused_sequence_prefix hot) as [p|].
  2: { by rewrite H. }
  destruct H as (Hp & <- & l & -> & Hl). rewrite replay_records_app.
  rewrite (replay_records_observed _ _ (observed_length hot) _ _ _ Hl). cbn [mbind outcome_bind].
  destruct (replay_records _ _ (prefix_document p) _) as [d| |w] eqn:E; [|done|].
  - cbn [mbind outcome_bind]. by rewrite (replay_records_saw _ _ _ _ _ E (ok_begun _ Hp)).
  - by apply replay_records_raised in E.
Qed.

Lemma checked_read s bundle checked : 
  read_checked_journal_records s bundle sequence_session None = success checked →
  reused_sequence_prefix checked = None ∧
  (sequence_bytes checked = [] ∨
   read_lines (length (sequence_bytes checked)) sequence_session
     (recording_active_path bundle sequence_session) (observed_length checked) 0
     (sequence_bytes checked) = success (records checked, valid_prefix_length checked)).
Proof.
  unfold read_checked_journal_records.
  destruct (match layout_validator with Some _ => _ | None => _ end) as [[]| |]; try done.
  cbn [mbind result_bind]. destruct (exists_ _ _) as [[]| |]; try done. cbn [mbind result_bind negb].
  destruct (read_complete_text _ _ _) as [bytes| |]; try done. cbn [mbind result_bind option_bind andb].
  change (N.of_nat 0) with 0. rewrite drop_0.
  destruct (read_lines _ _ _ _ 0 _) as [[l v]| |] eqn:E; try done. intros [= <-]. cbn.
  split; [done|]. case_match; [right; exact E|by left].
Qed.

Lemma cached_read s bundle cache : cache_ok cache →
  (read_journal_file s bundle cache).2 = (read_journal_file s bundle None).2 ∧
  cache_ok (read_journal_file s bundle cache).1.
Proof.
  intros Hok. pose proof (checked_cached s bundle cache Hok) as H. unfold read_journal_file.
  set (path := recording_active_path bundle sequence_session) in *.
  destruct (read_checked_journal_records s bundle sequence_session cache) as [hot|e|] eqn:Eh,
    (read_checked_journal_records s bundle sequence_session None) as [cold|e'|] eqn:Ec; try done.
  2: { by subst. }
  destruct H as (Hv & Hn & Hs & Hr & H). cbn [mbind result_bind].
  rewrite (replay_checked_cached hot cold path Hn Hr H).
  destruct (replay_checked path cold) as [d| |] eqn:Ed; [|done..]. cbn [mbind result_bind].
  assert (checked_project s bundle hot d = checked_project s bundle cold d) as Hproj.
  { unfold checked_project. destruct (admission (journal d)); [|done]. rewrite Hs, Hr.
    apply project_cached. intros q Hq. destruct (reused_sequence_prefix hot) as [p|]; [|done].
    destruct H as [Hp _]. by apply (ok_project _ Hp). }
  rewrite Hproj. destruct (checked_project s bundle cold d) as [project| |] eqn:Ep; [|done..].
  cbn [mbind result_bind fst snd]. rewrite Hv. split; [done|].
  intros p Hp. apply checked_read in Ec as [_ Hlines]. rewrite <- Hs in Hlines.
  unfold retained_prefix in Hp. destruct (is_empty (sequence_bytes hot)) eqn:Ee; [done|].
  assert (prefix_ok (MkPrefix path (sequence_bytes hot) d project)) as Hnew.
  { destruct Hlines as [Hlines|Hlines]; [by rewrite Hlines in Ee|].
    unfold replay_checked in Ed. rewrite Hr in Ed. unfold catch_all in Ed.
    destruct (_ ≫= _) as [d'| |] eqn:E in Ed; [|done..]. injection Ed as ->.
    apply bind_returned in E as (d' & E & E'). apply bind_returned in E' as ([] & Hb & <-%returned_inj).
    apply require_returned in Hb. split; cbn; [|done|].
    - exists (records cold), (valid_prefix_length cold). split; [|by eapply replay_records_observed].
      by eapply read_lines_observed.
    - intros q ->. unfold checked_project in Ep. destruct (admission _) as [a|]; [|done].
      rewrite Hr in Ep. by eapply project_node. }
  destruct (reused_sequence_prefix hot) as [p'|]; [|by injection Hp as <-].
  case_match; injection Hp as <-; [by destruct H|done].
Qed.

(** C17: the cache of the prefix parsed last never changes what a read of the
    session gives.  Whatever a thread has retained from earlier reads, of this file
    or of another one, reading gives the document, the valid length and every error
    it gives without a cache (a torn line, a line that is refused, a record that
    cannot be replayed, an admission whose Project is not there), and what it
    retains then may be used as well: so a sequence of reads of a storage that
    changes between them gives what reads without a cache give. *)
Theorem cached_read_exact (states : list (St * string)) cache : cache_ok cache →
  reads_cached states cache = (λ p, (read_journal_file p.1 p.2 None).2) <$> states.
Proof.
  revert cache. induction states as [|[s bundle] states IH]; intros cache Hok; [done|].
  cbn [reads_cached fmap list_fmap fst snd]. destruct (cached_read s bundle cache Hok) as [<- Hok'].
  destruct (read_journal_file s bundle cache) as [cache' r]. cbn in *. f_equal. by apply IH.
Qed.
End cache.
