(* ===== verification/Preflight.v ===== *)
(** What the preflight accepts.

    [fits] holds a document against the bounds the preflight gives its containers;
    the preflight of a printed document that fits succeeds.  The sum of the tokens
    is never more than the text, so a short text fits. *)

From S2P Require Import Prelude Json Foundation Text Soundset Outcome Admission AdmissionMachine JsonText JournalFile.

(** ** The tokens of a document *)

Fixpoint cost (d : dom) : N :=
  match d with
  | DNull => 4
  | DBool b => if b then 4 else 5
  | DInt _ => 0
  | DUint n => text_length (to_string n)
  | DString s => text_length s + 2
  | DArray l => 2 + sum_of cost l
  | DObject l => 2 + sum_of (λ p, text_length p.1 + 3 + cost p.2) l
  end.

Definition member_cost (p : string * dom) : N := text_length p.1 + 3 + cost p.2.

Lemma sum_of_perm {A} (f : A → N) l l' : l ≡ₚ l' → sum_of f l = sum_of f l'.
Proof. induction 1; rewrite ?sum_of_cons; lia. Qed.

Lemma sum_of_le {A} (f g : A → N) l : Forall (λ x, f x ≤ g x) l → sum_of f l ≤ sum_of g l.
Proof. induction 1; rewrite ?sum_of_cons; [done|lia]. Qed.

Lemma sum_of_in {A} (f : A → N) x l : x ∈ l → f x ≤ sum_of f l.
Proof. induction 1; rewrite ?sum_of_cons; lia. Qed.

(** Induction on documents. *)
Lemma dom_rect' (P : dom → Prop) :
  P DNull → (∀ b, P (DBool b)) → (∀ z, P (DInt z)) → (∀ n, P (DUint n)) → (∀ s, P (DString s)) →
  (∀ l, Forall P l → P (DArray l)) → (∀ l, Forall (λ p, P p.2) l → P (DObject l)) → ∀ d, P d.
Proof.
  intros Hnull Hbool Hint Huint Hstring Ha Ho. fix IH 1. intros [|b|z|n|s|l|l].
  - exact Hnull.
  - apply Hbool.
  - apply Hint.
  - apply Huint.
  - apply Hstring.
  - apply Ha. induction l; constructor; [apply IH|assumption].
  - apply Ho. induction l as [|[k d] l IHl]; constructor; [apply IH|assumption].
Qed.

Lemma cost_le d : cost d ≤ text_size d.
Proof.
  induction d as [| | | | |l IH|l IH] using dom_rect'; cbn [cost text_size]; try lia.
  - pose proof (sum_of_le _ _ _ IH). lia.
  - enough (sum_of (λ p, text_length p.1 + 3 + cost p.2) l ≤
            sum_of (λ p, text_length p.1 + 3 + text_size p.2) l) by lia.
    apply sum_of_le. eapply Forall_impl; [exact IH|]. cbn. lia.
Qed.

(** ** Bounds of the containers *)

Definition plain_frame (array : bool) (name : string) : Frame := MkFrame array name "" 0 0 0 0.

(** Of the frames, what the bounds of a container look at. *)
Definition outline (l : list Frame) : list (bool * string) := (λ f, (frame_array f, frame_name f)) <$> l.

Lemma outline_length l l' : outline l = outline l' → length l = length l'.
Proof. unfold outline. intros H%(f_equal length). by rewrite !length_fmap in H. Qed.

Lemma outline_bounds l l' array name : outline l = outline l' →
  budget_of array name l = budget_of array name l' ∧
  refused_array array name l = refused_array array name l'.
Proof.
  intros H. pose proof (outline_length _ _ H) as Hl.
  destruct l as [|f l], l' as [|f' l']; try done. cbn in H. injection H as Ha Hn _.
  unfold budget_of, refused_array, unbounded. cbn in *. rewrite Ha, Hn. injection Hl as ->. done.
Qed.

Fixpoint fits (o : list Frame) (name : string) (d : dom) : bool :=
  match d with
  | DArray l =>
      Nat.ltb (length o) kMaximumJsonContainerDepth && negb (refused_array true name o) &&
      (cost d <=? budget_of true name o) && (N.of_nat (length l) <=? maximum_of true name) &&
      forallb (fits (plain_frame true name :: o) name) l
  | DObject l =>
      Nat.ltb (length o) kMaximumJsonContainerDepth && (cost d <=? budget_of false name o) &&
      forallb (λ p, fits (plain_frame false name :: o) p.1 p.2) l
  | DInt _ => false
  | _ => true
  end.

Lemma forallb_same {A} (f g : A → bool) l : Forall (λ x, f x = g x) l → forallb f l = forallb g l.
Proof. induction 1 as [|x l E _ IH]; cbn; [done|]. by rewrite E, IH. Qed.

Lemma fits_outline d : ∀ o o' name, outline o = outline o' → fits o name d = fits o' name d.
Proof.
  induction d as [| | | | |l IH|l IH] using dom_rect'; intros o o' name H; try done; cbn [fits];
    destruct (outline_bounds _ _ true name H) as [Eb Er], (outline_bounds _ _ false name H) as [Eb' _];
    rewrite (outline_length _ _ H), ?Er, ?Eb, ?Eb'; f_equal.
  - apply forallb_same. eapply Forall_impl; [exact IH|]. intros ? Hx. apply Hx. cbn. by f_equal.
  - apply forallb_same. eapply Forall_impl; [exact IH|]. intros ? Hx. apply Hx. cbn. by f_equal.
Qed.

(** ** Running the events *)

Definition bump (f : Frame) : Frame :=
  if frame_array f then
    MkFrame (frame_array f) (frame_name f) (frame_key f) (frame_count f + 1) (frame_maximum f)
      (frame_start f) (frame_budget f)
  else f.

Definition set_key (f : Frame) (k : string) : Frame :=
  MkFrame (frame_array f) (frame_name f) k (frame_count f) (frame_maximum f) (frame_start f)
    (frame_budget f).

Definition set_count (f : Frame) (n : N) : Frame :=
  MkFrame (frame_array f) (frame_name f) (frame_key f) n (frame_maximum f) (frame_start f)
    (frame_budget f).

(** There is room for [n] more bytes in every frame. *)
Definition room (F : list Frame) (T n : N) : Prop :=
  T + n ≤ size_max ∧ Forall (λ f, T + n - frame_start f ≤ frame_budget f) F.

Lemma room_le F T m n : room F T n → m ≤ n → room F T m.
Proof. intros [? H] ?. split; [lia|]. eapply Forall_impl; [exact H|]. cbn. lia. Qed.

Lemma room_add F T m n : room F T (m + n) → room F (T + m) n.
Proof. intros [? H]. split; [lia|]. eapply Forall_impl; [exact H|]. cbn. lia. Qed.

(** Only the start and the budget of a frame matter. *)
Lemma room_same F F' T n : (λ f, (frame_start f, frame_budget f)) <$> F = (λ f, (frame_start f, frame_budget f)) <$> F' →
  room F T n → room F' T n.
Proof.
  intros E [? H]. split; [done|]. revert F' E. induction H as [|f F Hf _ IH]; intros [|f' F'] E; try done.
  rewrite !fmap_cons in E. injection E as E1 E2 E. constructor; [by rewrite <- E1, <- E2|by apply IH].
Qed.

Lemma charge_room k ks F T n : room F T n → charge (MkBounds k ks F T) n = Some (MkBounds k ks F (T + n)).
Proof.
  intros [H1 H2]. unfold charge. cbn. rewrite (proj2 (N.ltb_ge _ _)) by lia.
  rewrite (proj2 (List.forallb_forall _ _)); [done|]. intros f Hf%list_elem_of_In.
  rewrite Forall_forall in H2. apply N.leb_le, H2, Hf.
Qed.

(** One more value may come in the last frame. *)
Definition takes_item (F : list Frame) : Prop :=
  match F with
  | [] => True
  | f :: _ => frame_array f = true → frame_count f + 1 ≤ frame_maximum f
  end.

Definition bumped (F : list Frame) : list Frame := match F with [] => [] | f :: F' => bump f :: F' end.

Lemma item_bumped k ks F T : takes_item F →
  item (MkBounds k ks F T) = Some (MkBounds k ks (bumped F) T).
Proof.
  unfold item, bumped, bump. destruct F as [|f F]; cbn; [done|]. intros H.
  destruct (frame_array f) eqn:E; cbn; [|done]. by rewrite (proj2 (N.leb_le _ _)) by auto.
Qed.

Lemma bumped_outline F : outline (bumped F) = outline F.
Proof. destruct F as [|f F]; [done|]. cbn. unfold bump. by destruct (frame_array f) eqn:E; cbn; rewrite ?E. Qed.

Lemma bumped_room F T n : room F T n → room (bumped F) T n.
Proof.
  apply room_same. destruct F as [|f F]; [done|]. cbn. unfold bump. by destruct (frame_array f).
Qed.

Lemma bumped_name F : frame_name_in (bumped F) = frame_name_in F.
Proof. destruct F as [|f F]; [done|]. cbn. unfold bump. by destruct (frame_array f) eqn:E; cbn; rewrite ?E. Qed.

Lemma scalar_room k ks F T n : takes_item F → room F T n →
  scalar (MkBounds k ks F T) n = Some (MkBounds k ks (bumped F) (T + n)).
Proof.
  intros Hi Hr. unfold scalar. rewrite item_bumped by done. cbn [mbind option_bind].
  by apply charge_room, bumped_room.
Qed.

Lemma sax_run_app b l l' : sax_run b (l ++ l') = b' ← sax_run b l; sax_run b' l'.
Proof.
  revert b. induction l as [|e l IH]; intros b; cbn [sax_run app]; [done|].
  destruct (sax_event b e); cbn; [apply IH|done].
Qed.

(** The next value is the kind of the payload. *)
Definition kind_member (F : list Frame) : bool :=
  match F with
  | [f; _] => bool_decide (frame_name f = "payload") && bool_decide (frame_key f = "kind")
  | _ => false
  end.

(** A value inside the payload, its kind apart, changes nothing but the sum. *)
Definition runs (d : dom) (t : list Sax) : Prop := ∀ k ks F T,
  fits F (frame_name_in F) d = true → takes_item F → room F T (cost d) → kind_member F = false →
  (2 ≤ length F)%nat → sax_run (MkBounds k ks F T) t = Some (MkBounds k ks (bumped F) (T + cost d)).

Definition runs_items (l : list dom) (t : list Sax) : Prop := ∀ k ks f F T,
  frame_array f = true → Forall (λ d, fits (f :: F) (frame_name f) d = true) l →
  frame_count f + N.of_nat (length l) ≤ frame_maximum f → room (f :: F) T (sum_of cost l) → (2 ≤ length F)%nat →
  sax_run (MkBounds k ks (f :: F) T) t =
    Some (MkBounds k ks (set_count f (frame_count f + N.of_nat (length l)) :: F) (T + sum_of cost l)).

Definition runs_members (l : list (string * dom)) (t : list Sax) : Prop := ∀ k ks f F T,
  frame_array f = false → Forall (λ p, fits (f :: F) p.1 p.2 = true) l →
  room (f :: F) T (sum_of member_cost l) → (2 ≤ length F)%nat →
  ∃ key, sax_run (MkBounds k ks (f :: F) T) t =
    Some (MkBounds k ks (set_key f key :: F) (T + sum_of member_cost l)).

Lemma set_count_same f : set_count f (frame_count f + N.of_nat 0) = f.
Proof. destruct f. unfold set_count. cbn. by rewrite N.add_0_r. Qed.

Lemma set_key_same f : set_key f (frame_key f) = f.
Proof. by destruct f. Qed.

Lemma in_payload_deep k ks f F T : (2 ≤ length F)%nat → in_payload (MkBounds k ks (f :: F) T) = false.
Proof. destruct F as [|? [|]]; cbn; [lia..|done]. Qed.

Lemma string_event_quiet k ks F T s : takes_item F → room F T (text_length s + 2) → kind_member F = false →
  string_event (MkBounds k ks F T) s = Some (MkBounds k ks (bumped F) (T + (text_length s + 2))).
Proof.
  intros Hi Hr Hk. unfold string_event. cbn [frames].
  replace (match F with f :: _ => in_payload (MkBounds k ks F T) && bool_decide (frame_key f = "kind") | [] => false end)
    with false; [by apply scalar_room|].
  by destruct F as [|f [|f' [|]]].
Qed.

Lemma start_frame k ks F T array n : (length F < kMaximumJsonContainerDepth)%nat → takes_item F →
  refused_array array (frame_name_in F) F = false → room F T n → 2 ≤ n → n ≤ budget_of array (frame_name_in F) F →
  let name := frame_name_in F in
  let f := MkFrame array name "" 0 (maximum_of array name) T (budget_of array name F) in
  start (MkBounds k ks F T) array = Some (MkBounds k ks (f :: bumped F) (T + 1)) ∧
  room (f :: bumped F) (T + 1) (n - 1).
Proof.
  intros Hd Hi Hr Hroom Hn Hb. cbn zeta. unfold start. cbn [frames].
  rewrite (proj2 (Nat.leb_gt _ _)) by done. rewrite item_bumped by done. cbn [mbind option_bind frames total payload_kind payload_keys].
  rewrite bumped_name. destruct (outline_bounds _ _ array (frame_name_in F) (bumped_outline F)) as [-> ->].
  rewrite Hr. set (f := MkFrame _ _ _ _ _ _ _).
  assert (room (f :: bumped F) T n) as Hall.
  { pose proof (bumped_room _ _ _ Hroom) as [? ?]. split; [done|]. constructor; [cbn; lia|done]. }
  split; [apply charge_room; eapply room_le; [exact Hall|lia]|].
  apply room_add. eapply room_le; [exact Hall|lia].
Qed.

Lemma end_frame k ks f F T : room (f :: F) T 1 → end_ (MkBounds k ks (f :: F) T) = Some (MkBounds k ks F (T + 1)).
Proof. intros H. unfold end_. cbn [frames]. by rewrite charge_room. Qed.

Lemma key_event_nested k ks f F T s : (2 ≤ length F)%nat → room (f :: F) T (text_length s + 3) →
  key_event (MkBounds k ks (f :: F) T) s = Some (MkBounds k ks (set_key f s :: F) (T + (text_length s + 3))).
Proof.
  intros HF Hr. unfold key_event. cbn [frames]. rewrite in_payload_deep by done. cbn [andb].
  destruct F as [|f' F]; [cbn in HF; lia|]. cbn [is_empty andb payload_kind payload_keys total].
  apply charge_room. by apply (room_same (f :: f' :: F)).
Qed.

Lemma bumped_length F : length (bumped F) = length F.
Proof. by destruct F. Qed.

(** Inside a new frame, the bounds are those of a plain one. *)
Lemma fits_inside F array m T B name d : (fits (plain_frame array name :: F) name d = true →
  fits (MkFrame array name "" 0 m T B :: bumped F) name d = true).
Proof. intros <-. apply fits_outline. cbn. f_equal. apply bumped_outline. Qed.

Lemma fits_member F m T B name k d : (fits (plain_frame false name :: F) k d = true →
  fits (MkFrame false name "" 0 m T B :: bumped F) k d = true).
Proof. intros <-. apply fits_outline. cbn. f_equal. apply bumped_outline. Qed.

Lemma fits_renamed f f' F name d : frame_array f = frame_array f' → frame_name f = frame_name f' →
  fits (f :: F) name d = fits (f' :: F) name d.
Proof. intros Ea En. apply fits_outline. cbn. by rewrite Ea, En. Qed.

Lemma run_array l t : runs_items l t → runs (DArray l) (sax_start_array :: t ++ [sax_end_array]).
Proof.
  intros IH k ks F T Hf Hi Hr _ HF. cbn [fits] in Hf. rewrite !andb_true_iff in Hf.
  destruct Hf as [[[[Hd%Nat.ltb_lt Href%negb_true_iff] Hc%N.leb_le] Hm%N.leb_le] Hall].
  assert (2 ≤ cost (DArray l)) as H2 by (cbn [cost]; lia).
  destruct (start_frame k ks F T true (cost (DArray l)) Hd Hi Href Hr H2 Hc) as [Hs Hr'].
  cbn [sax_run sax_event]. rewrite Hs. cbn [mbind option_bind]. rewrite sax_run_app.
  cbn [cost] in *. rewrite IH.
  - cbn [mbind option_bind sax_run sax_event frame_count set_count]. rewrite end_frame.
    + cbn [mbind option_bind]. do 2 f_equal. lia.
    + apply (room_same (MkFrame true (frame_name_in F) "" 0 (maximum_of true (frame_name_in F)) T
                          (budget_of true (frame_name_in F) F) :: bumped F)); [done|].
      apply room_add. eapply room_le; [exact Hr'|lia].
  - done.
  - apply Forall_forall. intros d Hd'%list_elem_of_In. cbn [frame_name]. apply fits_inside.
    by eapply List.forallb_forall in Hall.
  - cbn. lia.
  - eapply room_le; [exact Hr'|lia].
  - by rewrite bumped_length.
Qed.

Lemma run_object l l' t : l ≡ₚ l' → runs_members l' t →
  runs (DObject l) (sax_start_object :: t ++ [sax_end_object]).
Proof.
  intros Hp IH k ks F T Hf Hi Hr _ HF. cbn [fits] in Hf. rewrite !andb_true_iff in Hf.
  destruct Hf as [[Hd%Nat.ltb_lt Hc%N.leb_le] Hall].
  assert (2 ≤ cost (DObject l)) as H2 by (cbn [cost]; lia).
  destruct (start_frame k ks F T false (cost (DObject l)) Hd Hi eq_refl Hr H2 Hc) as [Hs Hr'].
  cbn [sax_run sax_event]. rewrite Hs. cbn [mbind option_bind]. rewrite sax_run_app.
  cbn [cost] in *. change (λ p, text_length p.1 + 3 + cost p.2) with member_cost in *.
  rewrite (sum_of_perm _ _ _ Hp) in *.
  edestruct IH as [key IHk]; [| | | |rewrite IHk].
  - done.
  - apply Forall_forall. intros p Hp'. rewrite <- Hp in Hp'. apply fits_member.
    by eapply List.forallb_forall in Hall; [|by apply list_elem_of_In].
  - eapply room_le; [exact Hr'|lia].
  - by rewrite bumped_length.
  - cbn [mbind option_bind sax_run sax_event]. rewrite end_frame.
    + cbn [mbind option_bind]. do 2 f_equal. lia.
    + apply (room_same (MkFrame false (frame_name_in F) "" 0 (maximum_of false (frame_name_in F)) T
                          (budget_of false (frame_name_in F) F) :: bumped F)); [done|].
      apply room_add. eapply room_le; [exact Hr'|lia].
Qed.

Lemma run_tokens :
  (∀ d t, tokens d t → runs d t) ∧ (∀ l t, tokens_items l t → runs_items l t) ∧
  (∀ l t, tokens_members l t → runs_members l t).
Proof.
  apply tokens_mutind.
  - intros k ks F T _ Hi Hr _ _. cbn [sax_run sax_event]. by rewrite scalar_room.
  - intros b k ks F T _ Hi Hr _ _. cbn [sax_run sax_event]. by rewrite scalar_room.
  - intros n k ks F T _ Hi Hr _ _. cbn [sax_run sax_event]. by rewrite scalar_room.
  - intros s k ks F T _ Hi Hr Hk _. cbn [sax_run sax_event]. by rewrite string_event_quiet.
  - intros l t _. apply run_array.
  - intros l l' t Hp _. by apply run_object.
  - intros k ks f F T _ _ _ _ _. cbn [sax_run length sum_of foldr]. by rewrite set_count_same, N.add_0_r.
  - intros d l t t' _ IHd _ IHl k ks f F T Ha Hf Hm Hr HF. apply Forall_cons in Hf as [Hd Hl].
    rewrite sax_run_app. rewrite sum_of_cons in *. cbn [length] in Hm.
    rewrite IHd; [|by cbn; rewrite Ha|cbn; intros _; lia|eapply room_le; [exact Hr|lia]| |cbn; lia].
    2: { destruct F as [|? [|]]; cbn in HF |- *; [lia..|done]. }
    cbn [mbind option_bind bumped]. unfold bump. rewrite Ha.
    rewrite IHl; [|done| |cbn; lia| |done].
    + cbn. do 2 f_equal; [|lia]. unfold set_count. cbn. rewrite Ha. do 2 f_equal. lia.
    + eapply Forall_impl; [exact Hl|]. intros d' Hd'. etrans; [|exact Hd']. by apply fits_renamed.
    + apply (room_same (f :: F)); [done|]. by apply room_add.
  - intros k ks f F T _ _ _ _. exists (frame_key f). cbn [sax_run sum_of foldr].
    by rewrite set_key_same, N.add_0_r.
  - intros key d l t t' _ IHd _ IHl k ks f F T Ha Hf Hr HF. apply Forall_cons in Hf as [Hd Hl]. cbn in Hd.
    rewrite sum_of_cons in *. unfold member_cost at 1 in Hr. cbn [fst snd] in Hr.
    cbn [sax_run sax_event]. rewrite key_event_nested; [|done|eapply room_le; [exact Hr|lia]].
    cbn [mbind option_bind]. rewrite sax_run_app.
    assert (room (set_key f key :: F) (T + (text_length key + 3)) (cost d + sum_of member_cost l)) as Hr'.
    { apply (room_same (f :: F)); [done|]. apply room_add. eapply room_le; [exact Hr|lia]. }
    rewrite IHd; [| |by cbn; rewrite Ha|eapply room_le; [exact Hr'|lia]| |cbn; lia].
    2: { cbn. rewrite Ha. rewrite <- Hd. by apply fits_renamed. }
    2: { destruct F as [|? [|]]; cbn in HF |- *; [lia..|done]. }
    cbn [mbind option_bind bumped]. replace (bump (set_key f key)) with (set_key f key) by (unfold bump; cbn; by rewrite Ha).
    edestruct (IHl k ks (set_key f key) F) as [key' ->]; [done| | |done|].
    + eapply Forall_impl; [exact Hl|]. intros p Hp. etrans; [|exact Hp]. by apply fits_renamed.
    + by apply room_add.
    + exists key'. unfold member_cost at 2. cbn [fst snd]. do 2 f_equal. lia.
Qed.

(** ** The payload and its envelope *)

(** The kind the preflight reads of the payload. *)
Definition kind_of (l : list (string * dom)) (k : string) : string :=
  match assoc "kind" l with Some (DString s) => s | _ => k end.

Definition kind_string (l : list (string * dom)) : Prop :=
  ∀ d, ("kind", d) ∈ l → ∃ s, d = DString s.

Lemma assoc_member {A} k (v : A) l : NoDup l.*1 → (k, v) ∈ l → assoc k l = Some v.
Proof.
  induction l as [|[k' v'] l IH]; rewrite ?fmap_cons, ?elem_of_nil, ?elem_of_cons; [done|].
  intros [Hk Hl]%NoDup_cons [[= <- <-]|Hin]; cbn [assoc]; [by rewrite String.eqb_refl|].
  rewrite (proj2 (String.eqb_neq _ _)); [by apply IH|]. intros ->. apply Hk.
  exact (list_elem_of_fmap_2 fst _ _ Hin).
Qed.

Lemma assoc_some {A} k (v : A) l : assoc k l = Some v → (k, v) ∈ l.
Proof.
  induction l as [|[k' v'] l IH]; cbn [assoc]; [done|]. destruct (String.eqb_spec k k') as [->|].
  - intros [= ->]. left.
  - intros H. right. by apply IH.
Qed.

Lemma assoc_perm {A} k (l l' : list (string * A)) : NoDup l.*1 → l ≡ₚ l' → assoc k l = assoc k l'.
Proof.
  intros Hn Hp. assert (NoDup l'.*1) as Hn' by (by rewrite <- Hp).
  destruct (assoc k l) as [v|] eqn:E.
  - symmetry. apply assoc_member; [done|]. rewrite <- Hp. by apply assoc_some.
  - destruct (assoc k l') as [v|] eqn:E'; [|done]. apply assoc_some in E'. rewrite <- Hp in E'.
    by rewrite (assoc_member _ _ _ Hn E') in E.
Qed.

Definition payload_frames : list Frame := [plain_frame false "payload"; plain_frame false ""].

Lemma payload_key_event k ks f e T s :
  frame_name f = "payload" → s ∉ ks → room [f; e] T (text_length s + 3) →
  key_event (MkBounds k ks [f; e] T) s =
    Some (MkBounds k ({[ s ]} ∪ ks) [set_key f s; e] (T + (text_length s + 3))).
Proof.
  intros Hn Hs Hr. unfold key_event. cbn [frames is_empty andb in_payload payload_keys].
  unfold set_key. rewrite Hn. rewrite (bool_decide_false (s ∈ ks)) by done. cbn [bool_decide decide andb].
  apply charge_room. by apply (room_same [f; e]).
Qed.

Lemma payload_outline f e name d : frame_array f = false → frame_array e = false → frame_name f = "payload" →
  frame_name e = "" → fits [f; e] name d = fits payload_frames name d.
Proof. intros Ha Ha' Hn Hn'. apply fits_outline. cbn. by rewrite Ha, Ha', Hn, Hn'. Qed.

(** A member of the payload. *)
Lemma run_payload_member k ks f e T key d t : tokens d t →
  frame_array f = false → frame_array e = false → frame_name f = "payload" → frame_name e = "" →
  fits payload_frames key d = true → (key = "kind" → ∃ s, d = DString s) →
  room [f; e] T (cost d) → frame_key f = key →
  sax_run (MkBounds k ks [f; e] T) t =
    Some (MkBounds (kind_of [(key, d)] k) ks [f; e] (T + cost d)).
Proof.
  intros Ht Ha Ha' Hn Hn' Hf Hk Hr Hkey.
  assert (bump f = f) as Hb by (unfold bump; by rewrite Ha).
  destruct (decide (key = "kind")) as [->|Hne].
  - destruct (Hk eq_refl) as [s ->]. inversion Ht; subst. cbn [sax_run sax_event]. unfold string_event.
    cbn [frames in_payload frame_key]. rewrite Hn, Hkey. rewrite !bool_decide_true by done. cbn [andb payload_keys frames total]. rewrite scalar_room; [|by cbn; rewrite Ha|done].
    cbn [mbind option_bind bumped]. by rewrite Hb.
  - destruct run_tokens as [Hrun _]. rewrite (Hrun d t Ht); [|  |by cbn; rewrite Ha|done| |cbn; lia].
    + cbn [bumped]. rewrite Hb. unfold kind_of. cbn [assoc].
      by rewrite (proj2 (String.eqb_neq _ _)) by congruence.
    + cbn [frame_name_in]. rewrite Ha, Hkey. etrans; [|exact Hf]. by apply payload_outline.
    + cbn. rewrite Hkey. by rewrite (bool_decide_false (key = "kind")), andb_false_r by done.
Qed.

Lemma kind_of_cons key d l k : key ∉ l.*1 →
  kind_of l (kind_of [(key, d)] k) = kind_of ((key, d) :: l) k.
Proof.
  intros Hk. unfold kind_of. cbn [assoc]. destruct (String.eqb_spec "kind" key) as [<-|]; [|done].
  destruct (assoc "kind" l) as [v|] eqn:E; [|done]. apply assoc_some, (list_elem_of_fmap_2 fst) in E. done.
Qed.

Lemma run_payload_array l t : tokens_members l t → ∀ k ks f e T,
  frame_array f = false → frame_array e = false → frame_name f = "payload" → frame_name e = "" →
  Forall (λ p, fits payload_frames p.1 p.2 = true) l → kind_string l →
  NoDup l.*1 → Forall (λ p, p.1 ∉ ks) l → room [f; e] T (sum_of member_cost l) →
  ∃ key, sax_run (MkBounds k ks [f; e] T) t =
    Some (MkBounds (kind_of l k) (list_to_set l.*1 ∪ ks) [set_key f key; e] (T + sum_of member_cost l)).
Proof.
  induction 1 as [|key d l t t' Ht Hl IH]; intros k ks f e T Ha Ha' Hn Hn' Hf Hk Hd Hks Hr.
  { exists (frame_key f). cbn [sax_run sum_of foldr fmap list_fmap list_to_set].
    by rewrite set_key_same, N.add_0_r, union_empty_l_L. }
  apply Forall_cons in Hf as [Hfd Hfl], Hks as [Hkd Hkl]. cbn in Hfd, Hkd.
  rewrite fmap_cons, NoDup_cons in Hd. destruct Hd as [Hkey Hd]. cbn in Hkey.
  rewrite sum_of_cons in *. unfold member_cost at 1 in Hr. cbn [fst snd] in Hr.
  cbn [sax_run sax_event]. rewrite payload_key_event; [|done|done|eapply room_le; [exact Hr|lia]].
  cbn [mbind option_bind]. rewrite sax_run_app.
  assert (room [set_key f key; e] (T + (text_length key + 3)) (cost d + sum_of member_cost l)) as Hr'.
  { apply (room_same [f; e]); [done|]. apply room_add. eapply room_le; [exact Hr|lia]. }
  rewrite (run_payload_member _ _ _ _ _ key d t); try done.
  2: { intros ->. apply Hk. left. }
  2: { eapply room_le; [exact Hr'|lia]. }
  cbn [mbind option_bind].
  edestruct (IH (kind_of [(key, d)] k) ({[ key ]} ∪ ks) (set_key f key) e) as [key' ->]; try done.
  - intros d' Hd'. apply Hk. by right.
  - rewrite Forall_forall in Hkl |- *. intros p Hp. rewrite not_elem_of_union, not_elem_of_singleton.
    split; [|by apply Hkl]. intros E. apply Hkey. rewrite <- E. exact (list_elem_of_fmap_2 fst _ _ Hp).
  - by apply room_add.
  - exists key'. rewrite kind_of_cons by done. cbn [fmap list_fmap list_to_set fst].
    do 2 f_equal; [set_solver|]. unfold member_cost at 2. cbn [fst snd]. lia.
Qed.

(** ** Acceptance *)

(** What a payload needs: its containers within their bounds, a kind that is a
    string, and, of an admission or a recovery document, exactly its members. *)
Record payload_fits (l : list (string * dom)) : Prop := {
  payload_members_fit : Forall (λ p, fits payload_frames p.1 p.2 = true) l;
  payload_kind_string : kind_string l;
  payload_shape :
    if String.prefix "admission-" (kind_of l "")
    then list_to_set l.*1 = admission_keys
    else "journal" ∈ l.*1 → list_to_set l.*1 = recovery_keys
}.

Definition admission_limit (l : list (string * dom)) : N :=
  if bool_decide (kind_of l "" = "admission-transfer")
  then kSequenceAdmissionTransferBytes else kSequenceAdmissionControlBytes.

Definition envelope (checksum : string) (l : list (string * dom)) : dom :=
  DObject [("checksum", DString checksum); ("payload", DObject l)].

Section accepts.
Context `{JL : JsonLib} `{TL : !TextLib} `{PL : !ParseLib} `{PW : !ParseLaws}.

Lemma first_key_event k ks f T s : frame_array f = false → s = "checksum" ∨ s = "payload" → room [f] T (text_length s + 3) →
  key_event (MkBounds k ks [f] T) s = Some (MkBounds k ks [set_key f s] (T + (text_length s + 3))).
Proof.
  intros Ha Hs Hr. unfold key_event. cbn [frames is_empty in_payload andb].
  replace (negb (bool_decide (s = "checksum")) && negb (bool_decide (s = "payload"))) with false
    by (destruct Hs as [-> | ->]; reflexivity).
  cbn [payload_kind payload_keys total]. apply charge_room. by apply (room_same [f]).
Qed.

Lemma printable_envelope depth checksum l : printable (S depth) (envelope checksum l) = true →
  plain_text checksum = true ∧ printable depth (DObject l) = true ∧ NoDup l.*1.
Proof.
  unfold envelope. intros H. cbn [printable] in H. rewrite andb_true_iff in H. destruct H as [_ H].
  cbn [forallb fst snd] in H. rewrite !andb_true_iff in H. destruct H as [[_ Hc] [[_ Hl] _]].
  split_and!; [exact Hc|exact Hl|]. destruct depth; [done|]. cbn [printable] in Hl.
  rewrite andb_true_iff in Hl. apply distinct_keys_nodup. by destruct Hl.
Qed.

Lemma run_checksum k ks f T c : frame_array f = false → room [f] T (member_cost ("checksum", DString c)) →
  sax_run (MkBounds k ks [f] T) [sax_key "checksum"; sax_string c] =
    Some (MkBounds k ks [set_key f "checksum"] (T + member_cost ("checksum", DString c))).
Proof.
  intros Ha Hr. unfold member_cost in *. cbn [fst snd cost] in *. cbn [sax_run sax_event].
  rewrite first_key_event; [|done|by left|eapply room_le; [exact Hr|lia]]. cbn [mbind option_bind].
  assert (room [set_key f "checksum"] (T + (text_length "checksum" + 3)) (text_length c + 2)) as Hr'.
  { apply (room_same [f]); [done|]. by apply room_add. }
  rewrite string_event_quiet; [|by cbn; rewrite Ha|done|done]. cbn [mbind option_bind bumped].
  unfold bump. cbn [frame_array set_key]. rewrite Ha. do 2 f_equal. lia.
Qed.

Lemma run_payload_object f T l t : tokens (DObject l) t → NoDup l.*1 → payload_fits l →
  frame_array f = false → frame_name f = "" → room [f] T (member_cost ("payload", DObject l)) →
  sax_run (MkBounds "" ∅ [f] T) (sax_key "payload" :: t) =
    Some (MkBounds (kind_of l "") (list_to_set l.*1) [set_key f "payload"]
            (T + member_cost ("payload", DObject l))).
Proof.
  intros Ht Hd [Hf Hk _] Ha Hn Hr. unfold member_cost in *. cbn [fst snd] in *. cbn [sax_run sax_event].
  rewrite first_key_event; [|done|by right|eapply room_le; [exact Hr|lia]]. cbn [mbind option_bind].
  set (f1 := set_key f "payload"). set (T1 := T + (text_length "payload" + 3)).
  assert (room [f1] T1 (cost (DObject l))) as Hr1.
  { apply (room_same [f]); [done|]. by apply room_add. }
  inversion Ht as [| | | | |? l' t' Hp Hm E1 E2]; subst.
  assert (frame_name_in [f1] = "payload") as Hname by (cbn; by rewrite Ha).
  assert (budget_of false (frame_name_in [f1]) [f1] = size_max) as Hbudget by (by rewrite Hname).
  assert (2 ≤ cost (DObject l)) as H2 by (cbn [cost]; lia).
  destruct (start_frame "" ∅ [f1] T1 false (cost (DObject l))) as [Hs Hr2]; try done.
  { unfold kMaximumJsonContainerDepth. cbn. lia. } { cbn. by rewrite Ha. } { rewrite Hbudget. destruct Hr1. lia. }
  rewrite Hname in Hs, Hr2. rewrite Hname in Hbudget. cbn [sax_run sax_event]. rewrite Hs.
  cbn [mbind option_bind]. rewrite sax_run_app. cbn [bumped] in *.
  assert (bump f1 = f1) as Hb by (unfold bump; cbn; by rewrite Ha). rewrite Hb in *.
  cbn [cost] in *. change (λ p, text_length p.1 + 3 + cost p.2) with member_cost in *.
  rewrite (sum_of_perm _ _ _ Hp) in *.
  assert (NoDup l'.*1) as Hd' by (by rewrite <- Hp).
  edestruct (run_payload_array l' t' Hm "" ∅) as [key Hrun]; [..|rewrite Hrun].
  - done.
  - exact Ha.
  - done.
  - exact Hn.
  - by rewrite <- Hp.
  - intros d Hin. apply Hk. by rewrite Hp.
  - done.
  - apply Forall_forall. intros ? _. apply not_elem_of_empty.
  - eapply room_le; [exact Hr2|lia].
  - cbn [mbind option_bind sax_run sax_event]. rewrite end_frame.
    + cbn [mbind option_bind]. f_equal. rewrite union_empty_r_L. f_equal.
      * unfold kind_of. by rewrite (assoc_perm _ _ _ Hd Hp).
      * apply list_to_set_perm_L. by rewrite Hp.
      * lia.
    + apply (room_same (MkFrame false "payload" "" 0 (maximum_of false "payload") T1 (budget_of false "payload" [f1]) :: [f1])); [done|].
      apply room_add. eapply room_le; [exact Hr2|lia].
Qed.

(** The two members of the envelope, in either order. *)
Lemma run_envelope checksum l t : tokens (envelope checksum l) t → NoDup l.*1 → payload_fits l →
  cost (envelope checksum l) ≤ size_max →
  ∃ b, sax_run no_bounds t = Some b ∧ payload_kind b = kind_of l "" ∧
       payload_keys b = list_to_set l.*1.
Proof.
  intros Ht Hd Hl Hc. inversion Ht as [| | | | |? l' t' Hp Hm E1 E2]; subst.
  set (c := member_cost ("checksum", DString checksum)). set (p := member_cost ("payload", DObject l)).
  assert (cost (envelope checksum l) = 2 + (c + p)) as Ecost.
  { unfold envelope. cbn [cost sum_of foldr fst snd]. unfold c, p, member_cost. cbn [fst snd cost]. lia. }
  rewrite Ecost in Hc. cbn [sax_run sax_event].
  set (f := MkFrame false "" "" 0 size_max 0 size_max).
  change (start no_bounds false) with (Some (MkBounds "" ∅ [f] 1)). cbn [mbind option_bind].
  assert (∀ key T n, T + n ≤ size_max → room [set_key f key] T n) as Hroom.
  { intros key T n ?. split; [done|]. constructor; [cbn; lia|constructor]. }
  rewrite sax_run_app.
  apply Permutation_length_2_inv in Hp as [-> | ->].
  - inversion Hm as [|? ? ? t1 t2 H1 Hm2]; subst. inversion Hm2 as [|? ? ? t3 t4 H2 Hm3]; subst.
    inversion Hm3; subst. inversion H1; subst. rewrite app_nil_r.
    change (sax_key "checksum" :: [sax_string checksum] ++ sax_key "payload" :: t3)
      with ([sax_key "checksum"; sax_string checksum] ++ (sax_key "payload" :: t3)).
    rewrite sax_run_app, run_checksum; [|done|apply (Hroom ""); unfold c in Hc; lia].
    cbn [mbind option_bind]. fold c.
    rewrite (run_payload_object _ _ l); [|done..|apply Hroom; unfold p in Hc; lia].
    cbn [mbind option_bind sax_run sax_event]. fold p. rewrite end_frame by (apply (Hroom "payload"); lia).
    by eexists.
  - inversion Hm as [|? ? ? t1 t2 H1 Hm2]; subst. inversion Hm2 as [|? ? ? t3 t4 H2 Hm3]; subst.
    inversion Hm3; subst. inversion H2; subst. rewrite app_nil_r.
    change (sax_key "payload" :: t1 ++ sax_key "checksum" :: [sax_string checksum])
      with ((sax_key "payload" :: t1) ++ [sax_key "checksum"; sax_string checksum]).
    rewrite sax_run_app, (run_payload_object f 1 l); [|done..|apply (Hroom ""); unfold p in Hc; lia].
    cbn [mbind option_bind]. fold p. rewrite run_checksum; [|done|apply (Hroom "payload"); unfold c in Hc; lia].
    cbn [mbind option_bind sax_run sax_event]. fold c. rewrite end_frame by (apply (Hroom "checksum"); lia).
    by eexists.
Qed.

(** The preflight of a printed envelope whose payload fits. *)
Lemma preflight_accepts checksum l :
  printable kMaximumJsonContainerDepth (envelope checksum l) = true → payload_fits l →
  text_length (text (build (envelope checksum l))) ≤ size_max →
  (String.prefix "admission-" (kind_of l "") = true →
   text_length (text (build (envelope checksum l))) ≤ admission_limit l) →
  preflight (text (build (envelope checksum l))) = returned ().
Proof.
  intros Hp Hl Hsize Hlimit. destruct (sax_printed _ Hp) as (t & Et & Ht).
  apply printable_envelope in Hp as Hd. destruct Hd as (_ & _ & Hd).
  edestruct (run_envelope checksum l t) as (b & Hrun & Hk & Hkeys); try done.
  { rewrite (printed_size _ Hp) in Hsize. pose proof (cost_le (envelope checksum l)). lia. }
  unfold preflight. rewrite Et. cbn [mbind option_bind]. rewrite Hrun, Hk, Hkeys.
  destruct Hl as [_ _ Hshape]. destruct (String.prefix _ _).
  - rewrite Hshape, (bool_decide_true (admission_keys = admission_keys)), andb_true_r by done. unfold admission_limit in Hlimit.
    by rewrite (proj2 (N.leb_le _ _)) by auto.
  - case_bool_decide as Hj; [|done]. apply elem_of_list_to_set in Hj.
    by rewrite (Hshape Hj), bool_decide_true.
Qed.
End accepts.
