(* ===== verification/JournalFiles.v ===== *)
(** Journal files: what was written is what is read.

    A session's file is the concatenation of its record lines.  Reading it gives
    the records back in order; a file that ends inside its last line, as a crash
    during an append leaves it, is reported as torn, with the length of the
    records that are whole. *)

From S2P Require Import Prelude Json Foundation Text Project Sequence Soundset Outcome Fields Admission AdmissionMachine Journal AdmissionLog JournalLaws JsonText JournalFile JournalCache Preflight.

(** ** Documents that fit a line *)

(** The envelope adds a digest and its own punctuation to the payload. *)
Definition envelope_bytes : N := 90.

Record writable (l : list (string * dom)) : Prop := {
  writable_plain : printable (pred kMaximumJsonContainerDepth) (DObject l) = true;
  writable_fits : payload_fits l;
  writable_size : text_size (DObject l) + envelope_bytes ≤ size_max;
  writable_limit : String.prefix "admission-" (kind_of l "") = true →
    text_size (DObject l) + envelope_bytes ≤ admission_limit l
}.

Lemma plain_lower_hex c : is_lower_hex c = true → plain_char c = true.
Proof.
  unfold is_lower_hex, char_in, plain_char, byte_of. rewrite orb_true_iff, !andb_true_iff, !N.leb_le.
  change (N_of_ascii "0") with 48. change (N_of_ascii "9") with 57.
  change (N_of_ascii "a") with 97. change (N_of_ascii "f") with 102. intros H.
  cbn zeta. set (n := N_of_ascii c) in *.
  rewrite !negb_true_iff, !N.eqb_neq. lia.
Qed.

Lemma plain_sha256 s : valid_sha256 s = true → plain_text s = true ∧ text_length s = 64.
Proof.
  unfold valid_sha256, text_length. case_bool_decide as Hl; [|done]. cbn. intros H. rewrite Hl. split; [|done].
  unfold plain_text. apply List.forallb_forall. intros c Hc. apply plain_lower_hex.
  by eapply List.forallb_forall in H.
Qed.

Lemma lowercase_valid s : lowercase_sha256 s = valid_sha256 s.
Proof.
  unfold lowercase_sha256, valid_sha256. case_bool_decide as H; [by rewrite H|].
  by rewrite (proj2 (Nat.eqb_neq _ _)).
Qed.

(** What the journal relies on of a storage platform: a durable append that
    succeeds has put the bytes after the valid prefix, and has changed nothing
    else that a session looks at. *)
Class StorageLaws `{JL : JsonLib} (St : Type) `{SP : !ProjectStoragePlatform St} : Prop := {
  append_read (s s' : St) path text old bytes :
    read_complete_text s path text = success old →
    append_durable s path (bytes_size old) bytes = (s', success ()) →
    read_complete_text s' path text = success (old ++ bytes);
  append_exists (s s' : St) path n bytes :
    exists_ s path = success true → append_durable s path n bytes = (s', success ()) →
    exists_ s' path = success true;
  append_tree (s s' : St) bundle path n bytes :
    validate_journal_tree s bundle = success () →
    append_durable s path n bytes = (s', success ()) → validate_journal_tree s' bundle = success ();
  append_layout (s s' : St) validate bundle path n bytes : layout_validator = Some validate →
    validate s bundle = success () →
    append_durable s path n bytes = (s', success ()) → validate s' bundle = success ()
}.

Section files.
Context `{JL : JsonLib} `{LW : !JsonLaws JL} `{TL : !TextLib} `{TW : !TextLaws} `{PL : !ParseLib} `{PW : !ParseLaws}.

Definition checksum_of (l : list (string * dom)) : string := hash256_hex_string (text (build (DObject l))).

Lemma checked_record_build l : checked_record (build (DObject l)) = build (envelope (checksum_of l) l).
Proof. done. Qed.

Lemma envelope_printable l : printable (pred kMaximumJsonContainerDepth) (DObject l) = true →
  printable kMaximumJsonContainerDepth (envelope (checksum_of l) l) = true.
Proof.
  intros H. change kMaximumJsonContainerDepth with (S (pred kMaximumJsonContainerDepth)).
  unfold envelope. set (k := pred _) in *. clearbody k. destruct k as [|k]; [done|].
  change (printable (S (S k)) (DObject [("checksum", DString (checksum_of l)); ("payload", DObject l)]))
    with (distinct_keys [("checksum", DString (checksum_of l)); ("payload", DObject l)] &&
          (plain_text "checksum" && plain_text (checksum_of l) &&
           (plain_text "payload" && printable (S k) (DObject l) && true))).
  rewrite H. destruct (plain_sha256 (checksum_of l)) as [-> _]; [apply digest_valid|]. done.
Qed.

Lemma envelope_size l : text_size (envelope (checksum_of l) l) = text_size (DObject l) + envelope_bytes.
Proof.
  unfold envelope. remember (DObject l) as d. cbn [text_size sum_of foldr fst snd length].
  destruct (plain_sha256 (checksum_of l)) as [_ ->]; [apply digest_valid|].
  change (text_length "checksum") with 8. change (text_length "payload") with 7. unfold envelope_bytes. lia.
Qed.

Lemma envelope_length l : printable (pred kMaximumJsonContainerDepth) (DObject l) = true →
  text_length (text (build (envelope (checksum_of l) l))) = text_size (DObject l) + envelope_bytes.
Proof. intros H. by rewrite printed_size, envelope_size by by apply envelope_printable. Qed.

Lemma preflight_writable l : writable l → preflight (text (build (envelope (checksum_of l) l))) = returned ().
Proof.
  intros [Hp Hf Hs Hl]. pose proof (envelope_length l Hp) as He.
  apply preflight_accepts; [by apply envelope_printable|done|by rewrite He|]. rewrite He. apply Hl.
Qed.

Lemma checked_payload_build l path o n :
  checked_payload (build (envelope (checksum_of l) l)) path o n = success (build (DObject l)).
Proof.
  unfold checked_payload. set (e := build (envelope _ l)).
  assert (fields e [("checksum", j_string (checksum_of l)); ("payload", build (DObject l))]) as [Ho Hs Hc Ha].
  { by apply fields_j_object. }
  rewrite Ho, Hs, !Hc. cbn [negb orb assoc String.eqb Ascii.eqb Bool.eqb has_value length Nat.eqb].
  unfold get_string_at, at_. rewrite !Ha.
  cbn [assoc String.eqb Ascii.eqb Bool.eqb mbind outcome_bind library].
  rewrite string_get. cbn [library mbind outcome_bind]. rewrite lowercase_valid.
  unfold checksum_of at 1. rewrite digest_valid. by rewrite bool_decide_true.
Qed.

Lemma read_line_writable l path o n : writable l →
  read_line sequence_session path o n (text (build (envelope (checksum_of l) l))) = success (build (DObject l)).
Proof.
  intros H. unfold read_line. rewrite (preflight_writable l H). cbn [mbind outcome_bind].
  unfold parse_bounded_or_throw, parse_bounded_json.
  rewrite parse_printed by apply envelope_printable, H. cbn [mbind outcome_bind].
  by rewrite checked_payload_build.
Qed.

(** ** Files *)

Definition line_of (l : list (string * dom)) : list ascii := record_line (build (DObject l)).
Definition file_of (ls : list (list (string * dom))) : list ascii := concat (line_of <$> ls).
Definition payload_of (l : list (string * dom)) : json := build (DObject l).

Lemma line_split l : writable l → ∃ body, line_of l = body ++ [newline] ∧ newline ∉ body ∧ body ≠ [] ∧
  String.string_of_list_ascii body = text (build (envelope (checksum_of l) l)).
Proof.
  intros H. exists (chars (text (build (envelope (checksum_of l) l)))).
  pose proof (envelope_printable l (writable_plain _ H)) as Hp. split_and!.
  - done.
  - by apply printed_line.
  - intros E. apply (f_equal length) in E. rewrite length_chars in E. change (length []) with 0%nat in E.
    pose proof (envelope_length l (writable_plain _ H)) as He. unfold text_length, envelope_bytes in He. lia.
  - apply String.string_of_list_ascii_of_string.
Qed.

Lemma read_one l path c n rest : writable l →
  read_lines (length (line_of l ++ rest)) sequence_session path n c (line_of l ++ rest) =
    '(r, v) ← read_lines (length rest) sequence_session path n (c + bytes_size (line_of l)) rest;
    success (MkCheckedRecord (payload_of l) c :: r, v).
Proof.
  intros H. destruct (line_split l H) as (body & Eb & Hn & Hne & Ht). rewrite Eb, <- app_assoc. cbn [app].
  destruct body as [|x body]; [done|].
  change (length ((x :: body) ++ newline :: rest)) with (S (length (body ++ newline :: rest))).
  cbn [read_lines]. cbn [app]. change (x :: body ++ newline :: rest) with ((x :: body) ++ newline :: rest).
  rewrite find_line_end by done. cbn [is_empty]. rewrite Ht, (read_line_writable l path c n H).
  cbn [mbind result_bind]. rewrite read_lines_fuel by (rewrite !length_app; cbn; lia).
  replace (c + N.of_nat (length (x :: body)) + 1) with (c + bytes_size ((x :: body) ++ [newline])).
  { done. } unfold bytes_size. rewrite length_app. cbn. lia.
Qed.

(** The records of a file, each at its place. *)
Fixpoint placed (c : N) (ls : list (list (string * dom))) : list CheckedJournalRecord :=
  match ls with
  | [] => []
  | l :: ls' => MkCheckedRecord (payload_of l) c :: placed (c + bytes_size (line_of l)) ls'
  end.

Lemma placed_payloads c ls : payload <$> placed c ls = payload_of <$> ls.
Proof. revert c. induction ls as [|l ls IH]; intros c; [done|]. cbn. f_equal. apply IH. Qed.

Lemma bytes_size_app a b : bytes_size (a ++ b) = bytes_size a + bytes_size b.
Proof. unfold bytes_size. rewrite length_app. lia. Qed.

Lemma read_file ls path c n rest : Forall writable ls →
  read_lines (length (file_of ls ++ rest)) sequence_session path n c (file_of ls ++ rest) =
    '(r, v) ← read_lines (length rest) sequence_session path n (c + bytes_size (file_of ls)) rest;
    success (placed c ls ++ r, v).
Proof.
  intros H. revert c. induction H as [|l ls Hl _ IH]; intros c.
  - cbn. rewrite N.add_0_r. by destruct (read_lines _ _ _ _ c rest) as [[]| |].
  - change (file_of (l :: ls)) with (line_of l ++ file_of ls). rewrite <- app_assoc, read_one by done.
    rewrite IH, bytes_size_app, N.add_assoc. cbn [placed].
    by destruct (read_lines (length rest) _ _ _ _ rest) as [[]| |].
Qed.

Lemma read_torn l path c n k : writable l → (0 < k < length (line_of l))%nat →
  read_lines (length (take k (line_of l))) sequence_session path n c (take k (line_of l)) =
    failure (torn_error sequence_session path c n).
Proof.
  intros H Hk. destruct (line_split l H) as (body & Eb & Hn & _). rewrite Eb, length_app in Hk. cbn in Hk.
  rewrite Eb, take_app_le by lia.
  assert (newline ∉ take k body) as Ht.
  { intros Hin. apply Hn. rewrite <- (take_drop k body), elem_of_app. by left. }
  destruct (take k body) as [|x t] eqn:E.
  - apply (f_equal length) in E. rewrite length_take in E. cbn in E. lia.
  - cbn [length read_lines]. by rewrite find_line_torn.
Qed.

(** ** Sessions *)

Section session.
Context {St : Type} `{SP : !ProjectStoragePlatform St}.

(** The session's file holds [bytes], in a bundle with a valid layout. *)
Record holds (s : St) (bundle : string) (bytes : list ascii) : Prop := {
  holds_layout : match layout_validator with
                 | Some validate => validate s bundle
                 | None => validate_journal_tree s bundle end = success ();
  holds_exists : exists_ s (recording_active_path bundle sequence_session) = success true;
  holds_bytes : read_complete_text s (recording_active_path bundle sequence_session) true = success bytes
}.

(** The Project of an admission is there. *)
Definition project_ok (s : St) (bundle : string) (d : JournalDocument) : Prop :=
  ∀ a, admission (journal d) = Some a → ∀ budget,
    ∃ q, validate_admission_project s bundle (preparation_project (preparation a)) None budget = success q.

Lemma read_file_ok s bundle bytes ls corrupt d : holds s bundle bytes → bytes = file_of ls → Forall writable ls →
  read_journal (recording_active_path bundle sequence_session) corrupt (payload_of <$> ls) = returned d →
  project_ok s bundle d →
  (read_journal_file s bundle None).2 = success (MkRead d (bytes_size bytes)).
Proof.
  intros [Hl He Hb] -> Hw Hd Hp. unfold read_journal in Hd. apply bind_returned in Hd as (d1 & Hd & Hs).
  apply bind_returned in Hs as ([] & Hs & <-%returned_inj).
  assert (saw_begin d1 = true) as Hbegin.
  { unfold at_reason, require in Hs. by destruct (saw_begin d1). }
  unfold read_journal_file, read_checked_journal_records. rewrite Hl. cbn [mbind result_bind].
  rewrite He. cbn [mbind result_bind negb]. rewrite Hb. cbn [mbind result_bind option_bind andb].
  rewrite drop_0. pose proof (read_file ls (recording_active_path bundle sequence_session) (N.of_nat 0)
    (bytes_size (file_of ls)) [] Hw) as Hr.
  rewrite app_nil_r in Hr. rewrite Hr. cbn [length read_lines mbind result_bind]. rewrite app_nil_r.
  unfold replay_checked. cbn [reused_sequence_prefix records observed_length].
  erewrite (proj2 (replay_records_read _ corrupt _ _ _ d1)); [|by rewrite placed_payloads].
  cbn [mbind outcome_bind]. rewrite Hbegin. cbn [require mbind outcome_bind catch_all result_bind].
  unfold checked_project. destruct (admission (journal d1)) as [a|] eqn:Ea; [|done].
  cbn [reused_sequence_prefix mbind option_bind].
  set (budget := if is_empty _ then _ else _). destruct (Hp a Ea budget) as [q ->]. done.
Qed.

Lemma file_of_snoc ls l : file_of (ls ++ [l]) = file_of ls ++ line_of l.
Proof. unfold file_of. rewrite fmap_app, concat_app. cbn. by rewrite app_nil_r. Qed.

Lemma holds_appended `{!StorageLaws St} s s' bundle bytes more : holds s bundle bytes →
  append_durable s (recording_active_path bundle sequence_session) (bytes_size bytes) more = (s', success ()) →
  holds s' bundle (bytes ++ more).
Proof.
  intros [Hl He Hb] H. split; [|by eapply append_exists|by eapply append_read].
  destruct layout_validator as [validate|] eqn:Ev; [by eapply append_layout|by eapply append_tree].
Qed.

(** C16: what a method reports as done is durable.  On the file of a session whose
    records read as the journal [d], with any cache, a method of the journal that
    succeeds has done what its operation does to [d]: either the operation asked
    for no record and the file holds what it held, or the file holds the records
    and after them the record the operation asked for; and the cache the method
    leaves may be used by the next one. *)
Theorem method_durable `{!StorageLaws St} {A} ls s bundle corrupt d cache arguments confirm
    (operation : JournalDocument → Result (Append A)) st' a :
  let path := recording_active_path bundle sequence_session in
  Forall writable ls → read_journal path corrupt (payload_of <$> ls) = returned d →
  holds s bundle (file_of ls) → project_ok s bundle d → cache_ok cache →
  (∀ record b, operation d = success (append_record record b) → ∃ l, record = payload_of l ∧ writable l) →
  journal_method arguments confirm operation bundle (s, cache) = (st', success a) →
  cache_ok st'.2 ∧
  (operation d = success (Unchanged a) ∧ holds st'.1 bundle (file_of ls) ∨
   ∃ l, operation d = success (append_record (payload_of l) a) ∧ writable l ∧
        holds st'.1 bundle (file_of (ls ++ [l]))).
Proof.
  intros path Hls Hd Hb Hp Hc Hop H. unfold journal_method in H.
  destruct (arguments;; _) as [[]| |]; [|done..]. cbn [fst snd] in H.
  pose proof (read_file_ok s bundle _ ls corrupt d Hb eq_refl Hls Hd Hp) as Hr.
  destruct (cached_read s bundle cache Hc) as [Hcold Hc']. rewrite Hr in Hcold.
  destruct (read_journal_file s bundle cache) as [cache' read]. cbn [fst snd] in *. subst read.
  cbn [mbind result_bind read_document read_valid_prefix] in H.
  destruct (operation d) as [[record b|b]| |] eqn:Eo; [| |done..]; cbn [mbind result_bind read_valid_prefix] in H.
  - destruct (Hop record b eq_refl) as (l & -> & Hl). unfold append_recording_record in H.
    destruct (append_durable _ _ _ _) as [s' [[]| |]] eqn:Ea; [|done..].
    cbn [mbind result_bind] in H. injection H as <- <-. split; [done|]. right. exists l. split_and!; [done..|].
    rewrite file_of_snoc. by eapply holds_appended.
  - destruct confirm.
    + destruct (append_durable _ _ _ _) as [s' [[]| |]] eqn:Ea; [|done..].
      cbn [mbind result_bind] in H. injection H as <- <-. split; [done|]. left. split; [done|].
      rewrite <- (app_nil_r (file_of ls)). by eapply holds_appended.
    + injection H as <- <-. split; [done|]. by left.
Qed.

(** C15: a crash during an append never changes what a session holds: it leaves the
    session as it was, or with the whole record, or in a state that is reported
    and tells where the whole records end.  Whatever prefix of the new line has
    reached the file of a session whose records read as the journal [d], and as
    [d'] with the new record, reading the file, with any cache, gives [d] when
    nothing was written, [d'] when all of it was, and otherwise the torn-line error
    whose durable prefix is exactly the whole records. *)
Theorem interrupted_append ls l k s bundle corrupt d d' cache :
  let path := recording_active_path bundle sequence_session in
  let bytes := file_of ls ++ take k (line_of l) in
  Forall writable ls → writable l →
  read_journal path corrupt (payload_of <$> ls) = returned d →
  read_journal path corrupt (payload_of <$> (ls ++ [l])) = returned d' →
  holds s bundle bytes → project_ok s bundle d → project_ok s bundle d' → cache_ok cache →
  (read_journal_file s bundle cache).2 =
    if bool_decide (k = 0%nat) then success (MkRead d (bytes_size (file_of ls)))
    else if bool_decide (length (line_of l) ≤ k)%nat then success (MkRead d' (bytes_size (file_of (ls ++ [l]))))
    else failure (torn_error sequence_session path (bytes_size (file_of ls)) (bytes_size bytes)).
Proof.
  intros path bytes Hls Hl Hd Hd' Hb Hp Hp' Hc. rewrite (proj1 (cached_read s bundle cache Hc)).
  case_bool_decide as Hk; [|case_bool_decide as Hk'].
  - subst k bytes. cbn [take] in *. rewrite app_nil_r in Hb. by eapply read_file_ok.
  - subst bytes. rewrite take_ge in Hb by done. rewrite <- file_of_snoc in Hb. eapply read_file_ok; try done.
    apply Forall_app. by split; [|constructor].
  - destruct Hb as [Hlayout He Hb]. unfold read_journal_file, read_checked_journal_records.
    rewrite Hlayout. cbn [mbind result_bind]. rewrite He. cbn [mbind result_bind negb]. rewrite Hb.
    cbn [mbind result_bind option_bind andb]. rewrite drop_0. subst bytes.
    rewrite read_file by done. rewrite read_torn by (try done; lia). cbn [mbind result_bind snd].
    do 2 f_equal.
Qed.
End session.
End files.
