(* ===== verification/MapLib.v ===== *)
(** A document library with a printer and a parser, to run the journal's files on.

    Objects keep their members in the order of their names, as the library's map
    does; the printer writes JSON without spaces, and the parser reads it back. *)

From S2P Require Import Prelude Json Foundation Text Soundset Outcome Sha256 JournalSession JsonText Preflight JournalFile.

(** ** Members in order *)

Definition member_key {A} (p : string * A) : list N := text_key p.1.

Definition in_order {A} (l : list (string * A)) : list (string * A) := stable_sort member_key l.

Lemma member_key_inj {A} (l : list (string * A)) : NoDup l.*1 →
  ∀ x y, x ∈ l → y ∈ l → member_key x = member_key y → x = y.
Proof.
  intros Hl [k v] [k' v'] Hx Hy E%text_key_inj. cbn in E. subst k'.
  pose proof (assoc_member _ _ _ Hl Hx). pose proof (assoc_member _ _ _ Hl Hy). by simplify_eq.
Qed.

Lemma in_order_perm {A} (l : list (string * A)) : in_order l ≡ₚ l.
Proof. apply stable_sort_perm. Qed.

Lemma in_order_eq {A} (l l' : list (string * A)) : NoDup l.*1 → l ≡ₚ l' → in_order l = in_order l'.
Proof. intros Hl. apply stable_sort_perm_eq. by apply member_key_inj. Qed.

Lemma assoc_filter {A} k (l : list (string * A)) :
  assoc k l = snd <$> head (filter (λ p, member_key p = text_key k) l).
Proof.
  induction l as [|[k' v] l IH]; [done|]. cbn [assoc]. rewrite filter_cons. unfold member_key at 1. cbn [fst].
  destruct (String.eqb_spec k k') as [->|Hk]; [by rewrite decide_True|].
  rewrite decide_False; [done|]. intros E%text_key_inj. by apply Hk.
Qed.

Lemma assoc_in_order {A} k (l : list (string * A)) : assoc k (in_order l) = assoc k l.
Proof. rewrite !assoc_filter. unfold in_order. by rewrite stable_sort_filter. Qed.

Lemma assoc_set_fresh' {A} k (v : A) l : k ∉ l.*1 → assoc_set k v l ≡ₚ (k, v) :: l.
Proof. intros H. rewrite assoc_set_fresh by done. symmetry. apply Permutation_cons_append. Qed.

Lemma assoc_set_perm {A} k (v : A) l l' : NoDup l.*1 → l ≡ₚ l' → assoc_set k v l ≡ₚ assoc_set k v l'.
Proof.
  intros Hn Hp. revert Hn. induction Hp as [|[k1 v1] l l' Hp IH|[k1 v1] [k2 v2] l|l l' l'' H1 IH1 H2 IH2];
    intros Hn; [done| | |].
  - cbn in *. apply NoDup_cons in Hn as [_ Hn]. destruct (String.eqb k k1); [by rewrite Hp|by rewrite IH].
  - cbn in *. apply NoDup_cons in Hn as [Hn _]. destruct (String.eqb_spec k k1), (String.eqb_spec k k2); subst;
      try (by apply Permutation_swap). exfalso. apply Hn. left.
  - rewrite IH1 by done. apply IH2. by rewrite <- H1.
Qed.

Lemma assoc_set_fmap {A B} (f : A → B) k v l :
  assoc_set k (f v) ((λ p, (p.1, f p.2)) <$> l) = (λ p, (p.1, f p.2)) <$> assoc_set k v l.
Proof.
  induction l as [|[k' v'] l IH]; [done|]. cbn [fmap list_fmap assoc_set fst snd].
  destruct (String.eqb k k'); [done|]. cbn. by f_equal.
Qed.

Lemma assoc_set_keys {A} k (v : A) l : (assoc_set k v l).*1 = if bool_decide (k ∈ l.*1) then l.*1 else l.*1 ++ [k].
Proof.
  induction l as [|[k' v'] l IH]; [done|]. cbn [assoc_set]. rewrite fmap_cons. cbn [fst].
  destruct (String.eqb_spec k k') as [->|Hk].
  - rewrite bool_decide_true by left. done.
  - rewrite fmap_cons. cbn [fst]. rewrite IH. rewrite (bool_decide_ext (k ∈ k' :: l.*1) (k ∈ l.*1)) by set_solver.
    by case_match.
Qed.

Lemma assoc_set_nodup {A} k (v : A) l : NoDup l.*1 → NoDup (assoc_set k v l).*1.
Proof.
  intros H. rewrite assoc_set_keys. case_bool_decide; [done|]. rewrite Permutation_app_comm. by constructor.
Qed.

Lemma keys_fmap {A B} (f : A → B) (l : list (string * A)) : ((λ p, (p.1, f p.2)) <$> l).*1 = l.*1.
Proof. induction l as [|[] l IH]; [done|]. cbn. by f_equal. Qed.

(** ** The library *)

Definition map_lib : JsonLib := {|
  json := dom;
  j_null := DNull;
  j_bool := DBool;
  j_uint := DUint;
  j_int := DInt;
  j_string := DString;
  j_array := DArray;
  j_object l := DObject (in_order l);
  is_null := is_null (JsonLib := dom_lib);
  is_boolean := is_boolean (JsonLib := dom_lib);
  is_string := is_string (JsonLib := dom_lib);
  is_array := is_array (JsonLib := dom_lib);
  is_object := is_object (JsonLib := dom_lib);
  is_number_unsigned := is_number_unsigned (JsonLib := dom_lib);
  is_number_integer := is_number_integer (JsonLib := dom_lib);
  j_size := j_size (JsonLib := dom_lib);
  j_contains := j_contains (JsonLib := dom_lib);
  j_at := j_at (JsonLib := dom_lib);
  j_items := j_items (JsonLib := dom_lib);
  j_entries := j_entries (JsonLib := dom_lib);
  j_eq_string := j_eq_string (JsonLib := dom_lib);
  get_bool := get_bool (JsonLib := dom_lib);
  get_string := get_string (JsonLib := dom_lib);
  get_u64 := get_u64 (JsonLib := dom_lib);
  get_i64 := get_i64 (JsonLib := dom_lib);
  j_set d k v := match d with DObject l => DObject (in_order (assoc_set k v l)) | _ => d end;
  j_erase := j_erase (JsonLib := dom_lib);
  j_push_back := j_push_back (JsonLib := dom_lib)
|}.

#[export] Instance map_laws : JsonLaws map_lib.
Proof.
  constructor; try apply dom_laws; try done; cbn.
  - intros l Hl. apply Permutation_length, in_order_perm.
  - intros l k. by rewrite assoc_in_order.
  - intros l k _. apply assoc_in_order.
  - by intros [].
  - intros [| | | | | |l] k v ?; try done. cbn. rewrite (Permutation_length (in_order_perm _)).
    apply assoc_set_length.
  - intros [| | | | | |l] k v k' ?; try done. cbn. rewrite assoc_in_order, assoc_set_assoc.
    by case_bool_decide.
  - intros [| | | | | |l] k v k' ?; try done. cbn. by rewrite assoc_in_order, assoc_set_assoc.
Qed.

(** ** Printing *)

Definition quote : ascii := ascii_of_N 34.

Fixpoint commas (l : list (list ascii)) : list ascii :=
  match l with [] => [] | [x] => x | x :: l' => x ++ ","%char :: commas l' end.

Definition quoted (s : string) : list ascii := quote :: chars s ++ [quote].

Fixpoint print (d : dom) : list ascii :=
  match d with
  | DNull => chars "null"
  | DBool b => chars (if b then "true" else "false")
  | DInt z => if (z <? 0)%Z then "-"%char :: chars (to_string (Z.to_N (- z))) else chars (to_string (Z.to_N z))
  | DUint n => chars (to_string n)
  | DString s => quoted s
  | DArray l => "["%char :: commas (print <$> l) ++ ["]"%char]
  | DObject l => "{"%char :: commas ((λ p, quoted p.1 ++ ":"%char :: print p.2) <$> l) ++ ["}"%char]
  end.

Definition map_text : TextLib (JL := map_lib) := {|
  dump := (λ d, String.string_of_list_ascii (print d)) : json (JsonLib := map_lib) → string;
  hash256_hex_string s := sha256_hex (chars s);
  library_what := "library"
|}.

#[export] Instance map_text_laws : TextLaws (TL := map_text).
Proof.
  split; [|intros s; apply sha256_hex_form]. intros l l' Hl Hp.
  assert (j_object (JsonLib := map_lib) l = j_object (JsonLib := map_lib) l') as ->; [|done].
  exact (f_equal DObject (in_order_eq l l' Hl Hp)).
Qed.

(** ** Parsing *)

Fixpoint until_quote (cs : list ascii) : option (list ascii * list ascii) :=
  match cs with
  | [] => None
  | c :: r =>
      if ascii_eqb c quote then Some ([], r)
      else if plain_char c then '(s, r') ← until_quote r; Some (c :: s, r')
      else None
  end.

Definition literal (word : string) (d : dom) (cs : list ascii) : option (dom * list ascii) :=
  let n := String.length word in
  if bool_decide (take n cs = chars word) then Some (d, drop n cs) else None.

Definition read_number (cs : list ascii) : dom * list ascii :=
  let r := skip_digits cs in (DUint (decimal_value 0 (take (length cs - length r) cs)), r).

Definition eat (c : ascii) (cs : list ascii) : option (list ascii) :=
  match cs with x :: r => if ascii_eqb x c then Some r else None | [] => None end.

Definition read_key (cs : list ascii) : option (string * list ascii) :=
  r ← eat quote cs;
  '(k, r) ← until_quote r;
  r ← eat ":" r;
  Some (of_bytes k, r).

Fixpoint read_value (fuel : nat) (cs : list ascii) : option (dom * list ascii) :=
  match fuel, cs with
  | S f, c :: r =>
      if ascii_eqb c quote then '(s, r') ← until_quote r; Some (DString (of_bytes s), r')
      else if ascii_eqb c "["%char then
        match eat "]" r with
        | Some r' => Some (DArray [], r')
        | None => '(l, r') ← read_items f r; Some (DArray l, r')
        end
      else if ascii_eqb c "{"%char then
        match eat "}" r with
        | Some r' => Some (DObject [], r')
        | None => '(l, r') ← read_members f r; Some (DObject l, r')
        end
      else if is_digit c then Some (read_number cs)
      else if ascii_eqb c "n"%char then literal "null" DNull cs
      else if ascii_eqb c "t"%char then literal "true" (DBool true) cs
      else literal "false" (DBool false) cs
  | _, _ => None
  end
with read_items (fuel : nat) (cs : list ascii) : option (list dom * list ascii) :=
  match fuel with
  | O => None
  | S f =>
      '(d, r) ← read_value f cs;
      match eat "," r with
      | Some r' => '(l, r'') ← read_items f r'; Some (d :: l, r'')
      | None => r' ← eat "]" r; Some ([d], r')
      end
  end
with read_members (fuel : nat) (cs : list ascii) : option (list (string * dom) * list ascii) :=
  match fuel with
  | O => None
  | S f =>
      '(k, r0) ← read_key cs;
      '(d, r) ← read_value f r0;
      match eat "," r with
      | Some r' => '(l, r'') ← read_members f r'; Some ((k, d) :: l, r'')
      | None => r' ← eat "}" r; Some ([(k, d)], r')
      end
  end.

(** One document and nothing after it. *)
Definition read_document_text (s : string) : option dom :=
  match read_value (2 * String.length s) (chars s) with Some (d, []) => Some d | _ => None end.

Fixpoint nested (depth : nat) (d : dom) {struct d} : bool :=
  match d with
  | DArray l => match depth with O => false | S k => forallb (nested k) l end
  | DObject l => match depth with O => false | S k => forallb (λ p, nested k p.2) l end
  | _ => true
  end.

Fixpoint document_events (d : dom) : list Sax :=
  match d with
  | DNull => [sax_null]
  | DBool b => [sax_boolean b]
  | DInt z => [sax_number_integer z]
  | DUint n => [sax_number_unsigned n]
  | DString s => [sax_string s]
  | DArray l => sax_start_array :: concat (document_events <$> l) ++ [sax_end_array]
  | DObject l =>
      sax_start_object :: concat ((λ p, sax_key p.1 :: document_events p.2) <$> l) ++ [sax_end_object]
  end.

Definition map_parse : ParseLib (JL := map_lib) := {|
  parse_guarded := (λ depth s, d ← read_document_text s; if nested depth d then Some d else None)
    : nat → string → option (json (JsonLib := map_lib));
  sax_events s := document_events <$> read_document_text s
|}.

(** ** What is printed is read *)

Lemma until_quote_end s rest : plain_text s = true → until_quote (chars s ++ quote :: rest) = Some (chars s, rest).
Proof.
  unfold plain_text. induction (chars s) as [|c l IH]; intros H; cbn [app until_quote].
  { unfold ascii_eqb. by rewrite Ascii.eqb_refl. }
  cbn [forallb] in H. apply andb_true_iff in H as [Hc H]. unfold ascii_eqb.
  destruct (Ascii.eqb_spec c quote) as [->|]; [by vm_compute in Hc|]. by rewrite Hc, IH.
Qed.

Lemma of_bytes_chars s : of_bytes (chars s) = s.
Proof. apply String.string_of_list_ascii_of_string. Qed.

Lemma eat_here c rest : eat c (c :: rest) = Some rest.
Proof. unfold eat, ascii_eqb. by rewrite Ascii.eqb_refl. Qed.

Lemma read_key_printed k rest : plain_text k = true →
  read_key (quoted k ++ ":"%char :: rest) = Some (k, rest).
Proof.
  intros H. unfold read_key, quoted. cbn [app]. rewrite eat_here. cbn [mbind option_bind].
  rewrite <- app_assoc. cbn [app]. rewrite until_quote_end by done. cbn [mbind option_bind].
  rewrite eat_here. cbn [mbind option_bind]. by rewrite of_bytes_chars.
Qed.

Lemma decimal_nonempty fuel n : decimal (S fuel) n ≠ [].
Proof. cbn [decimal]. case_match; [done|]. intros E%(f_equal length). rewrite length_app in E. cbn in E. lia. Qed.

Lemma read_number_printed n rest : n < 2 ^ 64 → stops_digits rest →
  read_number (chars (to_string n) ++ rest) = (DUint n, rest).
Proof.
  intros Hn Hr. unfold read_number. rewrite to_string_chars, skip_digits_app by (try done; apply decimal_digits).
  rewrite length_app. replace (length (decimal 20 n) + length rest - length rest)%nat with (length (decimal 20 n)) by lia.
  rewrite take_app_length, decimal_value_decimal; [done|]. pose proof pow_64_20. lia.
Qed.

(** The first character of a printed document. *)
Definition closing (c : ascii) : bool := ascii_eqb c "]" || ascii_eqb c "}".

Lemma digit_head n : ∃ c t, chars (to_string n) = c :: t ∧ is_digit c = true.
Proof.
  rewrite to_string_chars. pose proof (decimal_digits 20 n) as Hd. pose proof (decimal_nonempty 19 n) as Hne.
  destruct (decimal 20 n) as [|c t]; [done|]. exists c, t. split; [done|]. by apply Forall_cons in Hd as [? _].
Qed.

Lemma digit_other c : is_digit c = true →
  ascii_eqb c quote = false ∧ ascii_eqb c "[" = false ∧ ascii_eqb c "{" = false ∧ closing c = false.
Proof.
  intros H. unfold closing, ascii_eqb.
  repeat split; rewrite ?orb_false_iff; split_and?; apply Ascii.eqb_neq; intros ->; by vm_compute in H.
Qed.

Lemma print_head k d : printable k d = true → ∃ c t, print d = c :: t ∧ closing c = false.
Proof.
  intros H. destruct d as [|[]| |n|s|l|l]; try done; try (eexists _, _; split; [reflexivity|reflexivity]).
  destruct (digit_head n) as (c & t & E & Hc). exists c, t. split; [exact E|]. by apply digit_other.
Qed.

Definition reads_back (d : dom) : Prop := ∀ f rest, (2 * length (print d) ≤ f)%nat → stops_digits rest →
  read_value f (print d ++ rest) = Some (d, rest).

Definition print_member (p : string * dom) : list ascii := quoted p.1 ++ ":"%char :: print p.2.

Lemma literal_printed w d rest : literal w d (chars w ++ rest) = Some (d, rest).
Proof.
  unfold literal. rewrite <- length_chars, take_app_length, bool_decide_true by done.
  by rewrite drop_app_length.
Qed.

Lemma commas_cons x y l : commas (x :: y :: l) = x ++ ","%char :: commas (y :: l).
Proof. done. Qed.

Lemma not_eat c x : x ≠ c → ∀ r, eat c (x :: r) = None.
Proof. intros H r. unfold eat, ascii_eqb. by rewrite (proj2 (Ascii.eqb_neq _ _)). Qed.

Lemma read_items_printed l : Forall reads_back l → l ≠ [] → ∀ f rest,
  (2 * length (commas (print <$> l)) + 1 ≤ f)%nat →
  read_items f (commas (print <$> l) ++ "]"%char :: rest) = Some (l, rest).
Proof.
  induction 1 as [|d l Hd _ IH]; intros Hne f rest Hf; [done|]. destruct f as [|f]; [lia|]. cbn [read_items].
  destruct l as [|d' l].
  - cbn [fmap list_fmap commas] in *. rewrite Hd by (try done; lia). cbn [mbind option_bind].
    rewrite not_eat, eat_here by done. done.
  - rewrite !fmap_cons, commas_cons, length_app in Hf. cbn [length] in Hf. rewrite !fmap_cons, commas_cons.
    rewrite <- app_assoc. cbn [app].
    rewrite Hd by (try done; lia). cbn [mbind option_bind]. rewrite eat_here, <- fmap_cons.
    rewrite IH; [done..|]. rewrite fmap_cons. lia.
Qed.

Lemma read_members_printed l : Forall (λ p, plain_text p.1 = true ∧ reads_back p.2) l → l ≠ [] → ∀ f rest,
  (2 * length (commas (print_member <$> l)) + 1 ≤ f)%nat →
  read_members f (commas (print_member <$> l) ++ "}"%char :: rest) = Some (l, rest).
Proof.
  induction 1 as [|[k d] l [Hk Hd] _ IH]; intros Hne f rest Hf; [done|]. destruct f as [|f]; [lia|].
  cbn [read_members fst snd] in *. destruct l as [|p l].
  - cbn [fmap list_fmap commas] in *. unfold print_member in *. cbn [fst snd] in *. rewrite length_app in Hf. cbn [length] in Hf.
    rewrite <- app_assoc. cbn [app]. rewrite read_key_printed by done. cbn [mbind option_bind].
    rewrite Hd by (try done; lia). cbn [mbind option_bind]. rewrite not_eat, eat_here by done. done.
  - rewrite !fmap_cons, commas_cons, length_app in Hf. cbn [length] in Hf. rewrite !fmap_cons, commas_cons.
    unfold print_member at 1. unfold print_member at 1 in Hf. cbn [fst snd] in *. rewrite length_app in Hf. cbn [length] in Hf.
    rewrite <- !app_assoc. cbn [app]. rewrite read_key_printed by done. cbn [mbind option_bind].
    rewrite Hd by (try done; lia). cbn [mbind option_bind].
    rewrite eat_here, <- fmap_cons. rewrite IH; [done..|]. rewrite fmap_cons. lia.
Qed.

Lemma read_printed d : ∀ k, printable k d = true → reads_back d.
Proof.
  induction d as [|b|z|n|s|l IH|l IH] using dom_rect'; intros k Hp f rest Hf Hr; cbn [print] in *.
  - destruct f as [|f]; [cbn in Hf; lia|]. apply (literal_printed "null").
  - destruct f as [|f]; [destruct b; cbn in Hf; lia|].
    destruct b; [apply (literal_printed "true")|apply (literal_printed "false")].
  - done.
  - destruct (digit_head n) as (c & t & E & Hc). rewrite E in *. destruct f as [|f]; [cbn in Hf; lia|].
    cbn [app read_value]. destruct (digit_other c Hc) as (-> & -> & -> & _). rewrite Hc, app_comm_cons, <- E.
    rewrite read_number_printed by (try done; by apply N.ltb_lt). done.
  - unfold quoted in *. destruct f as [|f]; [cbn in Hf; lia|]. cbn [app read_value].
    unfold ascii_eqb at 1. rewrite Ascii.eqb_refl, <- app_assoc. cbn [app].
    rewrite until_quote_end by done. cbn [mbind option_bind]. by rewrite of_bytes_chars.
  - destruct k as [|k]; [done|]. cbn [printable] in Hp. destruct f as [|f]; [cbn in Hf; lia|].
    cbn [app read_value]. change (ascii_eqb "[" quote) with false. change (ascii_eqb "[" "[") with true. cbn match.
    rewrite <- app_assoc. cbn [app]. destruct l as [|d l].
    + cbn [fmap list_fmap commas app]. by rewrite eat_here.
    + assert (Forall reads_back (d :: l)) as Hall.
      { apply Forall_forall. intros x Hx. rewrite Forall_forall in IH. apply (IH x Hx k).
        eapply List.forallb_forall in Hp; [exact Hp|by apply list_elem_of_In]. }
      destruct (print_head k d) as (c & t & Ec & Hc). { cbn in Hp. by apply andb_true_iff in Hp as [? _]. }
      assert (∃ u, commas (print <$> d :: l) = c :: u) as [u Eu].
      { rewrite fmap_cons, Ec. destruct l; cbn; by eexists. }
      cbn [length] in Hf. rewrite length_app in Hf. cbn [length] in Hf.
      rewrite Eu at 1. cbn [app]. rewrite not_eat.
      2: { intros ->. by vm_compute in Hc. }
      rewrite read_items_printed by (try done; lia). done.
  - destruct k as [|k]; [done|]. cbn [printable] in Hp. destruct f as [|f]; [cbn in Hf; lia|].
    cbn [app read_value]. change (ascii_eqb "{" quote) with false. change (ascii_eqb "{" "[") with false.
    change (ascii_eqb "{" "{") with true. cbn match.
    rewrite <- app_assoc. cbn [app]. destruct l as [|p l].
    + cbn [fmap list_fmap commas app]. by rewrite eat_here.
    + apply andb_true_iff in Hp as [_ Hp].
      assert (Forall (λ p, plain_text p.1 = true ∧ reads_back p.2) (p :: l)) as Hall.
      { apply Forall_forall. intros x Hx. rewrite Forall_forall in IH.
        eapply List.forallb_forall in Hp; [|by apply list_elem_of_In]. apply andb_true_iff in Hp as [Hk Hp].
        split; [done|]. by apply (IH x Hx k). }
      assert (∃ u, commas (print_member <$> p :: l) = quote :: u) as [u Eu].
      { rewrite fmap_cons. unfold print_member at 1, quoted. destruct l; cbn; by eexists. }
      change (λ p : string * dom, quoted p.1 ++ ":"%char :: print p.2) with print_member in *.
      cbn [length] in Hf. rewrite length_app in Hf. cbn [length] in Hf.
      rewrite Eu at 1. cbn [app]. rewrite not_eat by done.
      rewrite read_members_printed by (try done; lia). done.
Qed.

(** ** Built documents *)

Abbreviation built := (build (JL := map_lib)).

Lemma built_object l : built (DObject l) = DObject ((λ p, (p.1, built p.2)) <$> in_order l).
Proof.
  change (DObject (in_order ((λ p, (p.1, built p.2)) <$> l)) = DObject ((λ p, (p.1, built p.2)) <$> in_order l)).
  f_equal. by apply stable_sort_fmap.
Qed.

Lemma built_array l : built (DArray l) = DArray (built <$> l).
Proof. done. Qed.

Lemma distinct_keys_iff {A} (l : list (string * A)) : NoDup l.*1 → distinct_keys l = true.
Proof.
  induction l as [|[k v] l IH]; [done|]. rewrite fmap_cons. intros [Hk Hl]%NoDup_cons. cbn [distinct_keys fst] in *.
  rewrite assoc_in_keys, bool_decide_false by done. by rewrite IH.
Qed.

Lemma printable_object k l : printable (S k) (DObject l) = true ↔
  NoDup l.*1 ∧ Forall (λ p, plain_text p.1 = true ∧ printable k p.2 = true) l.
Proof.
  cbn [printable]. rewrite andb_true_iff. split.
  - intros [Hd Hl]. split; [by apply distinct_keys_nodup|]. apply Forall_forall. intros p Hp%list_elem_of_In.
    by eapply List.forallb_forall in Hl; [apply andb_true_iff in Hl|].
  - intros [Hd Hl]. split; [by apply distinct_keys_iff|]. apply List.forallb_forall. intros p Hp%list_elem_of_In.
    rewrite Forall_forall in Hl. apply andb_true_iff, Hl, Hp.
Qed.

Lemma printable_array k l : printable (S k) (DArray l) = true ↔ Forall (λ d, printable k d = true) l.
Proof. cbn [printable]. rewrite Forall_forall. setoid_rewrite list_elem_of_In. apply List.forallb_forall. Qed.

Lemma built_members l : NoDup l.*1 → NoDup ((λ p, (p.1, built p.2)) <$> in_order l).*1.
Proof. intros H. rewrite keys_fmap. by rewrite in_order_perm. Qed.

Lemma built_printable d : ∀ k, printable k d = true → printable k (built d) = true.
Proof.
  induction d as [| | | | |l IH|l IH] using dom_rect'; intros k H; try done; (destruct k as [|k]; [done|]).
  - rewrite printable_array in H. change (built (DArray l)) with (DArray (built <$> l)). rewrite printable_array, Forall_fmap.
    rewrite Forall_forall in H, IH |- *. intros d Hd. by apply (IH d Hd k), H.
  - rewrite printable_object in H. destruct H as [Hn H]. rewrite built_object, printable_object.
    split; [by apply built_members|]. rewrite Forall_fmap, in_order_perm.
    rewrite Forall_forall in H, IH |- *. intros p Hp. destruct (H p Hp). split; [done|]. by apply (IH p Hp k).
Qed.

Lemma filter_sorted {A} (P : string * A → Prop) `{!∀ x, Decision (P x)} l :
  StronglySorted (key_le member_key) l → StronglySorted (key_le member_key) (filter P l).
Proof.
  induction 1 as [|x l Hl IH Hx]; [constructor|]. rewrite filter_cons. case_decide; [|done].
  constructor; [done|]. rewrite Forall_forall in Hx |- *. intros y [_ Hy]%list_elem_of_filter. by apply Hx.
Qed.

Lemma filter_built (l : list (string * dom)) (k : string) : filter (λ p, p.1 ≠ k) ((λ p, (p.1, built p.2)) <$> l) =
  (λ p, (p.1, built p.2)) <$> filter (λ p, p.1 ≠ k) l.
Proof.
  induction l as [|[k' d] l IH]; [done|]. rewrite fmap_cons, !filter_cons. cbn [fst].
  case_decide; [|done]. rewrite fmap_cons. by f_equal.
Qed.

Lemma filter_in_order (l : list (string * dom)) (k : string) : NoDup l.*1 →
  filter (λ p, p.1 ≠ k) (in_order ((λ p, (p.1, built p.2)) <$> l)) =
    in_order ((λ p, (p.1, built p.2)) <$> filter (λ p, p.1 ≠ k) l).
Proof.
  intros Hl. rewrite <- filter_built. set (m := (λ p, (p.1, built p.2)) <$> l). assert (NoDup m.*1) as Hm by (by unfold m; rewrite keys_fmap).
  apply (stable_sort_unique member_key).
  - intros x y [_ Hx]%list_elem_of_filter [_ Hy]%list_elem_of_filter. rewrite in_order_perm in Hx, Hy.
    by apply (member_key_inj m).
  - apply filter_sorted, stable_sort_sorted.
  - apply stable_sort_sorted.
  - by rewrite !in_order_perm.
Qed.

(** The members of an object are inserted in their order already. *)
Lemma insert_all (g : dom → dom) l acc : NoDup (acc.*1 ++ l.*1) → in_order acc = acc →
  foldl (λ o e, j_set (JsonLib := map_lib) o e.1 (g e.2)) (DObject acc) l =
    DObject (in_order (acc ++ ((λ e, (e.1, g e.2)) <$> l))).
Proof.
  revert acc. induction l as [|[k v] l IH]; intros acc Hn Ha; cbn [foldl].
  { cbn [fmap list_fmap]. by rewrite app_nil_r, Ha. }
  rewrite fmap_cons in Hn. rewrite fmap_cons. cbn [fst snd] in *.
  change (j_set (JsonLib := map_lib) (DObject acc) k (g v)) with (DObject (in_order (assoc_set k (g v) acc))).
  assert (k ∉ acc.*1) as Hk.
  { apply NoDup_app in Hn as (_ & Hd & _). intros Hin. apply (Hd k Hin). left. }
  rewrite assoc_set_fresh by done. rewrite IH.
  - f_equal. apply in_order_eq.
    + rewrite fmap_app, keys_fmap, in_order_perm, fmap_app, <- app_assoc. by cbn.
    + rewrite in_order_perm, <- app_assoc. by cbn.
  - rewrite in_order_perm, fmap_app, <- app_assoc. by cbn.
  - apply stable_sort_id, stable_sort_sorted.
Qed.

Lemma push_all (g : dom → dom) l acc :
  foldl (λ a x, j_push_back (JsonLib := map_lib) a (g x)) (DArray acc) l = DArray (acc ++ (g <$> l)).
Proof.
  revert acc. induction l as [|x l IH]; intros acc; cbn [foldl]; [by rewrite app_nil_r|].
  change (j_push_back (JsonLib := map_lib) (DArray acc) (g x)) with (DArray (acc ++ [g x])).
  rewrite IH, <- app_assoc. done.
Qed.

Lemma in_order_built l : in_order ((λ p, (p.1, built p.2)) <$> in_order l) = (λ p, (p.1, built p.2)) <$> in_order l.
Proof.
  apply stable_sort_id. unfold in_order.
  rewrite <- (stable_sort_fmap (λ p, (p.1, built p.2)) member_key member_key) by done. apply stable_sort_sorted.
Qed.

Lemma canonical_built d : ∀ k, printable k d = true → canonicalize (JL := map_lib) (S k) (built d) = built d.
Proof.
  induction d as [| | | | |l IH|l IH] using dom_rect'; intros k H; try done; (destruct k as [|k]; [done|]).
  - rewrite printable_array in H. rewrite built_array.
    change (foldl (λ a x, j_push_back (JsonLib := map_lib) a (canonicalize (JL := map_lib) (S k) x)) (DArray [])
              (built <$> l) = DArray (built <$> l)).
    rewrite push_all. cbn [app]. f_equal. rewrite <- list_fmap_compose. apply list_fmap_ext.
    intros i d Hd%list_elem_of_lookup_2. rewrite Forall_forall in IH, H. by apply (IH d Hd k), H.
  - rewrite printable_object in H. destruct H as [Hn H]. rewrite built_object.
    set (m := (λ p, (p.1, built p.2)) <$> in_order l).
    change (foldl (λ o e, j_set (JsonLib := map_lib) o e.1 (canonicalize (JL := map_lib) (S k) e.2)) (DObject [])
              m = DObject m).
    rewrite insert_all; [|by apply built_members|done]. cbn [app]. f_equal.
    replace ((λ e, (e.1, canonicalize (JL := map_lib) (S k) e.2)) <$> m) with m; [apply in_order_built|].
    unfold m. rewrite <- list_fmap_compose. apply list_fmap_ext. intros i p Hp%list_elem_of_lookup_2.
    rewrite in_order_perm in Hp. cbn. f_equal. rewrite Forall_forall in IH, H. symmetry.
    apply (IH p Hp k). by destruct (H p Hp).
Qed.

Lemma text_built d : printable kMaximumJsonContainerDepth d = true →
  chars (text (JL := map_lib) (TL := map_text) (built d)) = print (built d).
Proof.
  intros H. unfold text, canonical_json. rewrite canonical_built by done. apply chars_of_list.
Qed.

Lemma read_built d : printable kMaximumJsonContainerDepth d = true →
  read_document_text (text (JL := map_lib) (TL := map_text) (built d)) = Some (built d).
Proof.
  intros H. unfold read_document_text. rewrite <- length_chars, text_built by done.
  pose proof (read_printed (built d) _ (built_printable _ _ H) (2 * length (print (built d)))%nat []) as Hr.
  rewrite app_nil_r in Hr. by rewrite Hr.
Qed.

Lemma printable_nested d : ∀ k, printable k d = true → nested k d = true.
Proof.
  induction d as [| | | | |l IH|l IH] using dom_rect'; intros k H; try done; (destruct k as [|k]; [done|]);
    cbn [nested]; apply List.forallb_forall; intros x Hx%list_elem_of_In.
  - rewrite printable_array, Forall_forall in H. rewrite Forall_forall in IH. by apply (IH x Hx k), H.
  - rewrite printable_object, Forall_forall in H. rewrite Forall_forall in IH. apply (IH x Hx k), H, Hx.
Qed.

(** The length of a list of printed parts. *)
Definition N_length (l : list ascii) : N := N.of_nat (length l).

Lemma N_length_app a b : N_length (a ++ b) = N_length a + N_length b.
Proof. unfold N_length. rewrite length_app. lia. Qed.

Lemma N_length_cons c l : N_length (c :: l) = 1 + N_length l.
Proof. unfold N_length. cbn [length]. lia. Qed.

Lemma commas_length l : N_length (commas l) = sum_of N_length l + (N.of_nat (length l) - 1).
Proof.
  induction l as [|x [|y l] IH]; [done|cbn; lia|].
  rewrite commas_cons, N_length_app, N_length_cons, IH. rewrite !sum_of_cons. cbn [length]. lia.
Qed.

Lemma sum_of_same {A} (f g : A → N) l : Forall (λ x, f x = g x) l → sum_of f l = sum_of g l.
Proof. induction 1 as [|x l E _ IH]; [done|]. rewrite !sum_of_cons. lia. Qed.

Lemma quoted_length s : N_length (quoted s) = text_length s + 2.
Proof.
  unfold quoted, text_length. rewrite N_length_cons, N_length_app. unfold N_length. rewrite length_chars. cbn. lia.
Qed.

Lemma printed_length d : ∀ k, printable k d = true → N_length (print (built d)) = text_size d.
Proof.
  induction d as [|b|z|n|s|l IH|l IH] using dom_rect'; intros k H; try done; cbn [text_size].
  - by destruct b.
  - change (print (built (DUint n))) with (chars (to_string n)). unfold N_length, text_length. by rewrite length_chars.
  - apply quoted_length.
  - destruct k as [|k]; [done|]. rewrite printable_array in H. rewrite built_array. cbn [print].
    rewrite N_length_cons, N_length_app, commas_length, !sum_of_fmap, !length_fmap. unfold N_length at 2. cbn [length].
    rewrite (sum_of_same _ text_size l); [lia|]. rewrite Forall_forall in IH, H |- *. intros x Hx. by apply (IH x Hx k), H.
  - destruct k as [|k]; [done|]. rewrite printable_object in H. destruct H as [Hn H]. rewrite built_object. cbn [print].
    rewrite N_length_cons, N_length_app, commas_length, !sum_of_fmap, !length_fmap. unfold N_length at 2. cbn [length fst snd].
    rewrite (sum_of_perm _ _ _ (in_order_perm l)), (Permutation_length (in_order_perm l)).
    rewrite (sum_of_same _ (λ p, text_length p.1 + 3 + text_size p.2) l); [lia|].
    rewrite Forall_forall in IH, H |- *. intros p Hp. rewrite N_length_app, N_length_cons, quoted_length.
    rewrite (IH p Hp k) by by destruct (H p Hp). lia.
Qed.

Definition no_newline (l : list ascii) : Prop := Forall (λ c, c ≠ newline) l.

Lemma plain_no_newline s : plain_text s = true → no_newline (chars s).
Proof.
  unfold plain_text, no_newline. intros H. apply Forall_forall. intros c Hc%list_elem_of_In ->.
  eapply List.forallb_forall in H; [|exact Hc]. by vm_compute in H.
Qed.

Lemma digits_no_newline n : no_newline (chars (to_string n)).
Proof.
  rewrite to_string_chars. eapply Forall_impl; [apply decimal_digits|]. intros c Hc ->. by vm_compute in Hc.
Qed.

Lemma commas_no_newline l : Forall no_newline l → no_newline (commas l).
Proof.
  unfold no_newline. induction 1 as [|x l Hx Hl IH]; [constructor|]. destruct l as [|y l]; [done|].
  rewrite commas_cons. apply Forall_app. split; [done|]. by constructor.
Qed.

Lemma quoted_no_newline s : plain_text s = true → no_newline (quoted s).
Proof.
  intros H. constructor; [done|]. apply Forall_app. split; [by apply plain_no_newline|]. by repeat constructor.
Qed.

Lemma print_line d : ∀ k, printable k d = true → no_newline (print d).
Proof.
  induction d as [|b|z|n|s|l IH|l IH] using dom_rect'; intros k H; try done; cbn [print].
  - by apply plain_no_newline.
  - destruct b; by apply plain_no_newline.
  - apply digits_no_newline.
  - by apply quoted_no_newline.
  - destruct k as [|k]; [done|]. rewrite printable_array in H. constructor; [done|].
    apply Forall_app. split; [|by repeat constructor]. apply commas_no_newline, Forall_fmap.
    rewrite Forall_forall in IH, H |- *. intros x Hx. by apply (IH x Hx k), H.
  - destruct k as [|k]; [done|]. rewrite printable_object in H. destruct H as [_ H]. constructor; [done|].
    apply Forall_app. split; [|by repeat constructor]. apply commas_no_newline, Forall_fmap.
    rewrite Forall_forall in IH, H |- *. intros p Hp. destruct (H p Hp) as [Hk Hd]. apply Forall_app.
    split; [by apply quoted_no_newline|]. constructor; [done|]. by apply (IH p Hp k).
Qed.

Lemma events_tokens d : ∀ k, printable k d = true → tokens d (document_events (built d)).
Proof.
  induction d as [|b|z|n|s|l IH|l IH] using dom_rect'; intros k H; try done; [constructor..| |];
    (destruct k as [|k]; [done|]).
  - rewrite printable_array in H. rewrite built_array. cbn [document_events]. rewrite <- list_fmap_compose. constructor.
    induction IH as [|d l Hd _ IHl]; [constructor|]. apply Forall_cons in H as [Hp H]. cbn.
    constructor; [by eapply Hd|by apply IHl].
  - rewrite printable_object in H. destruct H as [_ H]. rewrite built_object. cbn [document_events]. rewrite <- list_fmap_compose.
    apply (tokens_object l (in_order l)); [symmetry; apply in_order_perm|].
    rewrite <- in_order_perm in IH, H. induction IH as [|[key d] m Hd _ IHm]; [constructor|].
    apply Forall_cons in H as [[_ Hp] H]. cbn. constructor; [by eapply Hd|by apply IHm].
Qed.

#[export] Instance map_parse_laws : ParseLaws (TL := map_text) (PL := map_parse).
Proof.
  split.
  - intros d H. cbn [parse_guarded map_parse]. rewrite read_built by done. cbn [mbind option_bind].
    by rewrite (printable_nested _ _ (built_printable _ _ H)).
  - intros d H. cbn [sax_events map_parse]. rewrite read_built by done. eexists. split; [reflexivity|]. by eapply events_tokens.
  - intros d H. unfold text_length. rewrite <- length_chars, text_built by done. by eapply printed_length.
  - intros d H. rewrite text_built by done. pose proof (print_line _ _ (built_printable _ _ H)) as Hl.
    unfold no_newline in Hl. rewrite Forall_forall in Hl. intros Hin. by apply (Hl _ Hin).
  - intros l k d Hl.
    change (DObject (in_order (assoc_set k (built d) (in_order ((λ p, (p.1, built p.2)) <$> l)))) =
            DObject (in_order ((λ p, (p.1, built p.2)) <$> assoc_set k d l))).
    f_equal. rewrite <- (assoc_set_fmap built). apply in_order_eq.
    + apply assoc_set_nodup. by rewrite in_order_perm, keys_fmap.
    + apply assoc_set_perm; [by rewrite in_order_perm, keys_fmap|apply in_order_perm].
  - intros l k Hl.
    change (DObject (filter (λ p, p.1 ≠ k) (in_order ((λ p, (p.1, built p.2)) <$> l))) =
            DObject (in_order ((λ p, (p.1, built p.2)) <$> filter (λ p, p.1 ≠ k) l))).
    f_equal. by apply filter_in_order.
  - intros [] ? ? H; try done. cbn in *. apply bool_decide_eq_true_1 in H as ->. done.
Qed.
