(* ===== verification/JournalFileRuns.v ===== *)
(** Runs of the journal's files on a storage in memory.

    A storage platform that keeps its files in a map, and a session on it whose
    last append is interrupted: witnesses of the theorems on files. *)

From S2P Require Import Prelude Json Foundation Text Project Soundset Outcome Admission AdmissionMachine Journal JsonText JournalFile JournalCache Preflight JournalFiles MapLib.

#[local] Existing Instances map_lib map_text map_parse.

(** ** Files in memory *)

Abbreviation Memory := (gmap string (list ascii)).

Definition no_file (path : string) : Error := MkError _ not_found "no file" (j_object [("path", j_string path)]).

Definition file_of_memory (s : Memory) (path : string) : Result (list ascii) :=
  match s !! path with Some bytes => success bytes | None => failure (no_file path) end.

#[local] Instance memory_platform : ProjectStoragePlatform Memory := {|
  acquire_writer _ _ := success ();
  exists_ s path := success (has_value (s !! path));
  byte_length s path := bytes ← file_of_memory s path; success (bytes_size bytes);
  read_complete := file_of_memory;
  create_immutable s path bytes :=
    match s !! path with
    | Some _ => (s, failure (MkError _ invalid_argument "exists"
                       (j_object [("storage_condition", j_string "already_exists")])))
    | None => (<[path := bytes]> s, success ())
    end;
  append_durable s path valid bytes :=
    match s !! path with
    | Some old => (<[path := take (N.to_nat valid) old ++ bytes]> s, success ())
    | None => (s, failure (no_file path))
    end;
  remove s path :=
    match s !! path with
    | Some _ => (delete path s, success ())
    | None => (s, failure (no_file path))
    end;
  list_names s directory :=
    success ((λ p, String.substring (String.length directory + 1) (String.length p.1) p.1) <$>
      filter (λ p, String.prefix (directory +:+ "/") p.1 = true) (map_to_list s));
  directory_exists _ _ := success true;
  validate_managed_tree _ _ := success ();
  text_reader := None;
  layout_validator := None
|}.

(** ** A session *)

Definition uuid_text (c : string) : string := "00000000-0000-4000-8000-00000000000" +:+ c.
Definition print_digest : string := "1fd38d5cbd2a997b91f725cb1cb0a710849db30dac491ee42e92443fd8e3c1a2".

Definition begin_members : list (string * dom) :=
  [("armed_capture_slot", DNull); ("bars", DUint 2); ("contract", DString "lmdj.sequence.journal.v3");
   ("expected_revision", DUint 3); ("kind", DString "begin");
   ("pattern_fingerprint", DString print_digest); ("pattern_id", DString (uuid_text "2"));
   ("session_id", DString (uuid_text "1"))].

Definition slot_document : dom := DObject [("bank", DUint 0); ("pad", DUint 5)].

Definition tail_members : list (string * dom) :=
  [("events", DArray [DObject [("duration_tick", DUint 480); ("onset_tick", DUint 960);
                               ("slot", slot_document); ("velocity", DUint 100)]]);
   ("expected_revision", DUint 3); ("input_sequence", DUint 7); ("kind", DString "tail");
   ("pattern_id", DString (uuid_text "2")); ("tail_seq", DUint 0)].

Definition bundle : string := "project".
Definition active : string := recording_active_path bundle sequence_session.

Definition project_files : Memory := {[ below bundle "manifest.json" := chars "{}" ]}.
Definition memory_with (bytes : list ascii) : Memory := <[active := bytes]> project_files.

(** Deciding that a payload fits. *)
Definition writable_check (l : list (string * dom)) : bool :=
  printable (pred kMaximumJsonContainerDepth) (DObject l) &&
  (forallb (λ p, fits payload_frames p.1 p.2) l &&
   forallb (λ p, negb (String.eqb p.1 "kind") || match p.2 with DString _ => true | _ => false end) l) &&
  (negb (String.prefix "admission-" (kind_of l "")) && negb (has_value (assoc "journal" l)) &&
   (text_size (DObject l) + envelope_bytes <=? size_max)).

Lemma writable_checked l : writable_check l = true → writable l.
Proof.
  unfold writable_check. rewrite !andb_true_iff, !negb_true_iff. intros [[Hp [Hf Hk]] [[Ha Hj] Hs]].
  split; [done| |by apply N.leb_le|by rewrite Ha]. split.
  - apply Forall_forall. intros p Hin%list_elem_of_In. by eapply List.forallb_forall in Hf.
  - intros d Hin%list_elem_of_In. eapply List.forallb_forall in Hk; [|exact Hin]. destruct d; try done. by eexists.
  - rewrite Ha. intros Hin. rewrite assoc_in_keys in Hj. by apply bool_decide_eq_false_1 in Hj.
Qed.

Definition refused_record (reason message : string) : Error := plain_error invalid_project message.

Lemma session_writable : writable begin_members ∧ writable tail_members.
Proof. split; apply writable_checked; vm_compute; reflexivity. Qed.

(** What reading gives, as a value. *)
Definition read_value_of (payloads : list json) : option JournalDocument :=
  match read_journal active refused_record payloads with returned d => Some d | _ => None end.

Definition journal_of (payloads : list json) : JournalDocument := value_or (read_value_of payloads) empty_document.

Lemma journal_of_read payloads : has_value (read_value_of payloads) = true →
  read_journal active refused_record payloads = returned (journal_of payloads).
Proof. unfold journal_of, read_value_of. by case_match. Qed.

Lemma memory_holds bytes : holds (memory_with bytes) bundle bytes.
Proof.
  assert (memory_with bytes !! active = Some bytes) as H by apply lookup_insert_eq.
  split.
  - assert (∃ m, memory_with bytes !! below bundle "manifest.json" = Some m) as [m Hm].
    { exists (chars "{}"). unfold memory_with. rewrite lookup_insert_ne by (intros E; by vm_compute in E).
      apply lookup_singleton_eq. }
    cbv [layout_validator memory_platform validate_journal_tree validate_managed_tree mbind result_bind
         required_directories directory_exists present JournalFile.byte_length file_of_memory fmap list_fmap]. by rewrite Hm.
  - cbv [exists_ memory_platform]. fold active. by rewrite H.
  - cbv [read_complete_text text_reader memory_platform read_complete file_of_memory]. fold active. by rewrite H.
Qed.

Definition torn_bytes : list ascii := file_of [begin_members] ++ take 5 (line_of tail_members).

(** The tail's line was cut after five bytes. *)
Lemma interrupted_append_witness :
  (read_journal_file (memory_with torn_bytes) bundle None).2 =
    failure (torn_error sequence_session active (bytes_size (file_of [begin_members])) (bytes_size torn_bytes)).
Proof.
  refine (eq_trans (interrupted_append [begin_members] tail_members 5 (memory_with torn_bytes) bundle
    refused_record (journal_of (payload_of <$> [begin_members]))
    (journal_of (payload_of <$> [begin_members; tail_members])) None _ _ _ _ _ _ _ _) _).
  - constructor; [apply session_writable|constructor].
  - apply session_writable.
  - apply journal_of_read. vm_compute. reflexivity.
  - apply journal_of_read. vm_compute. reflexivity.
  - apply memory_holds.
  - intros a Ha. exfalso. vm_compute in Ha. discriminate Ha.
  - intros a Ha. exfalso. vm_compute in Ha. discriminate Ha.
  - intros p Hp. discriminate Hp.
  - change (bool_decide (5%nat = 0%nat)) with false.
    assert (bool_decide (length (line_of tail_members) ≤ 5)%nat = false) as -> by (vm_compute; reflexivity).
    reflexivity.
Defined.

(** The whole line is there the second time; the cache holds what was read first. *)
Lemma cached_read_exact_witness : ∃ p,
  let states := [(memory_with (file_of [begin_members]), bundle);
                 (memory_with (file_of [begin_members; tail_members]), bundle)] in
  (read_journal_file (memory_with (file_of [begin_members])) bundle None).1 = Some p ∧
  reads_cached states None = (λ q, (read_journal_file q.1 q.2 None).2) <$> states.
Proof.
  eexists. split; [vm_compute; reflexivity|]. apply cached_read_exact. intros q Hq. discriminate Hq.
Defined.

Lemma memory_read (s : Memory) path text : read_complete_text s path text = file_of_memory s path.
Proof. by destruct text. Qed.

#[local] Instance memory_laws : StorageLaws Memory.
Proof.
  split; cbn [append_durable memory_platform exists_].
  - intros s s' path text old bytes. rewrite !memory_read. unfold file_of_memory.
    destruct (s !! path) as [o|] eqn:E; [|done]. intros [= ->] [= <-].
    unfold bytes_size. rewrite Nat2N.id, take_ge by done. by rewrite lookup_insert_eq.
  - intros s s' path n bytes H. destruct (s !! path) as [o|] eqn:E; [|done]. intros [= <-].
    by rewrite lookup_insert_eq.
  - intros s s' bundle path n bytes H. destruct (s !! path) as [o|] eqn:E; [|done]. intros [= <-].
    cbv [validate_journal_tree validate_managed_tree memory_platform mbind result_bind required_directories
         directory_exists present JournalFile.byte_length file_of_memory fmap list_fmap] in *.
    destruct (decide (path = below bundle "manifest.json")) as [->|]; [by rewrite lookup_insert_eq|].
    by rewrite lookup_insert_ne.
  - done.
Qed.

Definition tail_event : PatternEvent := MkPatternEvent (MkPadSlotId 0 5) 960 480 100.

Definition the_tail (d : JournalDocument) : Result (Append ()) :=
  append_tail (journal d) (MkId (uuid_text "1")) (MkId (uuid_text "2")) 3 7 [tail_event].

Definition tail_arguments : Result () :=
  check_arguments (uuids [uuid_text "1"; uuid_text "2"] &&
     negb (is_empty [tail_event])) "Sequence tail metadata is invalid".

Definition append_the_tail : Store (S := Memory) * Result () :=
  journal_method tail_arguments false the_tail bundle (memory_with (file_of [begin_members]), None).

Lemma append_the_tail_method : append_the_tail =
  file_append_tail bundle (memory_with (file_of [begin_members]), None) (MkId (uuid_text "1"))
    (MkId (uuid_text "2")) 3 7 [tail_event].
Proof. reflexivity. Qed.

Definition begun_document : JournalDocument := journal_of (payload_of <$> [begin_members]).

Lemma the_tail_record : the_tail begun_document = success (append_record (payload_of tail_members) ()).
Proof. vm_cast_no_check (eq_refl (the_tail begun_document)). Qed.

(** One press is appended to a session that has just begun. *)
Lemma method_durable_witness :
  append_the_tail.2 = success () ∧
  (the_tail begun_document = success (Unchanged ()) ∧ holds append_the_tail.1.1 bundle (file_of [begin_members]) ∨
   ∃ l, the_tail begun_document = success (append_record (payload_of l) ()) ∧ writable l ∧
        holds append_the_tail.1.1 bundle (file_of ([begin_members] ++ [l]))).
Proof.
  assert (append_the_tail.2 = success ()) as Hdone by (vm_cast_no_check (eq_refl append_the_tail.2)).
  split; [exact Hdone|].
  assert (H := method_durable [begin_members] (memory_with (file_of [begin_members])) bundle refused_record
    begun_document None tail_arguments false the_tail append_the_tail.1 ()).
  cbv zeta in H. apply (λ h1 h2 h3 h4 h5 h6 h7, proj2 (H h1 h2 h3 h4 h5 h6 h7)); clear H.
  - constructor; [apply session_writable|constructor].
  - apply journal_of_read. vm_compute. reflexivity.
  - apply memory_holds.
  - intros a Ha. exfalso. vm_compute in Ha. discriminate Ha.
  - intros p Hp. discriminate Hp.
  - intros record b H. rewrite the_tail_record in H. injection H as <- <-. exists tail_members.
    split; [reflexivity|apply session_writable].
  - fold append_the_tail. rewrite <- Hdone. apply surjective_pairing.
Defined.
