(* ===== verification/Bundle.v ===== *)
(** The index of a Project Bundle.

    Models the container format of packages/project-io/src/project_bundle_transfer.cpp:
    portable paths, [parse_index] (the validating reader of an index) and the index
    a Project's files must have, whose digest identifies the Bundle. *)

From S2P Require Import Prelude Json Foundation Io Text Project Soundset Outcome Journal JsonText JournalFile.

(** ** Bounds *)

Definition kMaximumIndexBytes : N := 4 * 1024 * 1024.
Definition kMaximumEntries : N := 4096.
Definition kMaximumEntryBytes : N := 64 * 1024 * 1024.
Definition kMaximumPayloadBytes : N := 512 * 1024 * 1024.
Definition kMaximumChunkBytes : N := 1024 * 1024.
Definition kMaximumPathBytes : N := 255.

Definition kBundleContractVersion : string := "2.0.0".
Definition kProjectBundleConditionResourceLimit : string := "resource_limit".

(** ** Paths *)

Definition portable_char (c : ascii) : bool :=
  char_in c "A" "Z" || char_in c "a" "z" || char_in c "0" "9" ||
  ascii_eqb c "." || ascii_eqb c "_" || ascii_eqb c "-".

Definition segment_ok (segment : list ascii) : bool :=
  negb (is_empty segment) && negb (bool_decide (segment = chars ".")) &&
  negb (bool_decide (segment = chars "..")).

(** The loop over the characters; [segment] is what was read since
    [segment_begin]. *)
Fixpoint portable_loop (segment rest : list ascii) : bool :=
  match rest with
  | [] => segment_ok segment
  | c :: rest' =>
      if ascii_eqb c "/" then segment_ok segment && portable_loop [] rest'
      else portable_char c && portable_loop (segment ++ [c]) rest'
  end.

Definition portable_path (path : string) : bool :=
  let l := chars path in
  negb (is_empty l) && (text_length path <=? kMaximumPathBytes) &&
  negb (bool_decide (head l = Some "/"%char)) && negb (bool_decide (last l = Some "/"%char)) &&
  portable_loop [] l.

Definition fold_char (c : ascii) : ascii :=
  if char_in c "A" "Z" then ascii_of_N (byte_of c + (97 - 65)) else c.

Definition ascii_fold (value : string) : string := of_bytes (fold_char <$> chars value).

Definition path_bytes (path : string) : list N := byte_of <$> chars path.

Definition unsigned_byte_less (left right : string) : bool :=
  negb (lex_le (path_bytes right) (path_bytes left)).

(** ** Entries *)

Record BundleEntry := MkEntry {
  entry_path : string;
  entry_bytes : N;
  entry_offset : N;
  entry_sha256 : string
}.

Record ParsedIndex := MkIndex {
  index_project : ProjectId;
  index_digest : string;
  index_version : string;
  index_entries : list BundleEntry
}.

Section index.
Context `{JL : JsonLib} `{TL : !TextLib} `{PL : !ParseLib}.

Definition invalid_bundle (message : string) : Error := plain_error invalid_project message.

Definition resource_limit (message : string) : Error :=
  MkError _ invalid_project message
    (j_object [("transfer_condition", j_string kProjectBundleConditionResourceLimit)]).

Definition exact_keys (value : json) (keys : list string) : bool :=
  is_object value && Nat.eqb (j_size value) (length keys) && forallb (j_contains value) keys.

Definition unsigned_value (value : json) : option N :=
  if is_number_unsigned value then get_u64 value
  else if negb (is_number_integer value) then None
  else z ← get_i64 value; if (z <? 0)%Z then None else Some (Z.to_N z).

(** [value.at(key)] of a member that [exact_keys] found. *)
Definition member_of (value : json) (key : string) : Result json :=
  match j_at value key with Some j => success j | None => thrown end.

Definition string_of_json (value : json) : Result string :=
  match get_string value with Some s => success s | None => thrown end.

Definition entry_keys : list string := ["bytes"; "offset"; "path"; "sha256"].

Definition index_keys : list string :=
  ["bundle_digest"; "compression"; "contract"; "contract_version"; "entries"; "project_contract";
   "project_id"; "uncompressed_bytes"].

(** What the loop over the entries carries. *)
Record IndexLoop := MkLoop {
  loop_entries : list BundleEntry;
  exact_paths : gset string;
  folded_paths : gset string;
  expected_offset : N;
  previous_path : string
}.

Definition loop_start : IndexLoop := MkLoop [] ∅ ∅ 0 "".

Definition parse_entry (s : IndexLoop) (encoded : json) : Result IndexLoop :=
  let shape := invalid_bundle "Project Bundle entry shape is invalid" in
  let valued := invalid_bundle "Project Bundle entry value is invalid" in
  unless_refused (exact_keys encoded entry_keys) shape;;
  jp ← member_of encoded "path"; js ← member_of encoded "sha256";
  unless_refused (is_string jp && is_string js) shape;;
  path ← string_of_json jp; digest ← string_of_json js;
  jb ← member_of encoded "bytes"; jo ← member_of encoded "offset";
  match portable_path path && lowercase_sha256 digest, unsigned_value jb, unsigned_value jo with
  | true, Some bytes, Some offset =>
      unless_refused (bytes <=? kMaximumEntryBytes) (resource_limit "Project Bundle entry exceeds 64 MiB");;
      unless_refused (offset =? expected_offset s)
        (invalid_bundle "Project Bundle offsets are not contiguous");;
      unless_refused (bool_decide (previous_path s = "") || unsigned_byte_less (previous_path s) path)
        (invalid_bundle "Project Bundle paths are not canonically sorted");;
      unless_refused (negb (bool_decide (path ∈ exact_paths s)) &&
                      negb (bool_decide (ascii_fold path ∈ folded_paths s)))
        (invalid_bundle "Project Bundle paths collide");;
      let next := u64_add (expected_offset s) bytes in
      unless_refused (next <=? kMaximumPayloadBytes)
        (resource_limit "Project Bundle payload exceeds 512 MiB");;
      success (MkLoop (loop_entries s ++ [MkEntry path bytes offset digest]) ({[ path ]} ∪ exact_paths s)
                 ({[ ascii_fold path ]} ∪ folded_paths s) next path)
  | _, _, _ => failure valued
  end.

Fixpoint parse_entries (s : IndexLoop) (l : list json) : Result IndexLoop :=
  match l with [] => success s | j :: l' => s' ← parse_entry s j; parse_entries s' l' end.

(** [index.at(key) != text]. *)
Definition member_is (value : json) (key text : string) : bool :=
  match j_at value key with Some j => j_eq_string j text | None => false end.

Definition member_test (value : json) (key : string) (test : json → bool) : bool :=
  match j_at value key with Some j => test j | None => false end.

Definition index_shape (index : json) (encoded : string) : bool :=
  bool_decide (text index = encoded) && exact_keys index index_keys &&
  member_is index "contract" "lmdj.project-bundle.v1" &&
  member_is index "contract_version" kBundleContractVersion && member_is index "compression" "none" &&
  member_is index "project_contract" "lmdj.project.v5" && member_test index "project_id" is_string &&
  member_test index "bundle_digest" is_string && member_test index "entries" is_array.

Definition digest_of (index : json) : string := hash256_hex_string (text index).

Definition parse_index (encoded : string) : Result ParsedIndex :=
  match parse_bounded_json parse_guarded encoded with
  | None => failure (invalid_bundle "Project Bundle index is not valid bounded JSON")
  | Some index =>
      unless_refused (index_shape index encoded) (invalid_bundle "Project Bundle index shape is invalid");;
      ji ← member_of index "project_id"; jd ← member_of index "bundle_digest";
      project_id ← string_of_json ji; declared_digest ← string_of_json jd;
      unless_refused (is_valid_uuid project_id && lowercase_sha256 declared_digest)
        (invalid_bundle "Project Bundle identity is invalid");;
      je ← member_of index "entries";
      unless_refused (negb (Nat.eqb (j_size je) 0)) (invalid_bundle "Project Bundle entries are empty");;
      unless_refused (N.of_nat (j_size je) <=? kMaximumEntries)
        (resource_limit "Project Bundle entry count exceeds 4096");;
      s ← parse_entries loop_start (j_items je);
      jt ← member_of index "uncompressed_bytes";
      unless_refused (bool_decide (unsigned_value jt = Some (expected_offset s)))
        (invalid_bundle "Project Bundle payload total is invalid");;
      unless_refused (bool_decide (digest_of (j_erase index "bundle_digest") = declared_digest))
        (invalid_bundle "Project Bundle digest does not match its index");;
      jv ← member_of index "contract_version"; version ← string_of_json jv;
      success (MkIndex (MkId project_id) declared_digest version (loop_entries s))
  end.

(** ** The index of an inventory *)

Record InventoryEntry := MkInventory {
  inventory_path : string;
  inventory_bytes : N;
  inventory_digest : string
}.

Definition project_contract_id (contract : ProjectContract) : string :=
  match contract with
  | ProjectContract.v1 => "lmdj.project.v1"
  | ProjectContract.v2 => "lmdj.project.v2"
  | ProjectContract.v3 => "lmdj.project.v3"
  | ProjectContract.v4 => "lmdj.project.v4"
  | ProjectContract.v5 => "lmdj.project.v5"
  end.

(** The entries in the order given, and the offset after them. *)
Fixpoint encode_entries (offset : N) (l : list InventoryEntry) : list json * N :=
  match l with
  | [] => ([], offset)
  | e :: l' =>
      let '(encoded, total) := encode_entries (u64_add offset (inventory_bytes e)) l' in
      (j_object [("bytes", j_uint (inventory_bytes e)); ("offset", j_uint offset);
                 ("path", j_string (inventory_path e)); ("sha256", j_string (inventory_digest e))]
         :: encoded, total)
  end.

Definition sorted_inventory (l : list InventoryEntry) : list InventoryEntry :=
  stable_sort (λ e, path_bytes (inventory_path e)) l.

Definition inventory_index (project_id : ProjectId) (contract : ProjectContract) (version : string)
    (l : list InventoryEntry) : json :=
  let '(entries, total) := encode_entries 0 (sorted_inventory l) in
  j_object [("compression", j_string "none"); ("contract", j_string "lmdj.project-bundle.v1");
            ("contract_version", j_string version); ("entries", j_array entries);
            ("project_contract", j_string (project_contract_id contract));
            ("project_id", j_string (value project_id)); ("uncompressed_bytes", j_uint total)].

Definition inventory_digest_of (project_id : ProjectId) (contract : ProjectContract) (version : string)
    (l : list InventoryEntry) : string :=
  digest_of (inventory_index project_id contract version l).
End index.
