(* ===== verification/BundleTransfer.v ===== *)
(** Import, duplication and discovery of Project Bundles.

    Models [ProjectBundleTransfer] of packages/project-io/src/project_bundle_transfer.cpp
    and [sanitized_storage_error] of storage_error.hpp: the inventory of a Project
    directory, the import sessions with their staging area, the commit that
    publishes a staged Project, and the copy of a local Project.  The mutex of the
    object makes each method one step.  The Project store and the storage platform
    are interfaces. *)

From S2P Require Import Prelude Json Foundation Io Text Project Soundset Outcome Admission AdmissionMachine Journal JsonText JournalFile Bundle.

(** ** Interfaces *)

(** The operations of storage_platform.hpp on directories.  A lease that is kept
    is part of what is stored: [take_writer] is [acquire_writer], and
    [release_writer] the end of the lease.  [range_reader] is the optional
    companion that reads at most the given count of bytes from an offset. *)
Class ProjectStorageTree `{JL : JsonLib} (S : Type) := {
  take_writer : S → string → S * Result ();
  release_writer : S → string → S;
  ensure_directory : S → string → S * Result ();
  list_directories : S → string → Result (list string);
  remove_tree : S → string → S * Result ();
  publish_directory_if_absent : S → string → string → S * Result ();
  range_reader : option (S → string → N → N → Result (list ascii))
}.

(** What the transfer calls of [ProjectStore] and of the journal of Performances;
    loading a Project may recover it, which writes. *)
Class ProjectStore `{JL : JsonLib} (S : Type) := {
  load : S → string → S * Result ProjectState;
  create : S → string → ProjectState → S * Result ();
  inspect_committed : S → string → S * Result ProjectState;
  read_active_performance : S → string → S * Result SequenceSessionId
}.

(** ** Paths and tokens *)

(** [path / name]. *)
Definition join (path name : string) : string :=
  if bool_decide (last (chars path) = Some "/"%char) then path +:+ name else path +:+ "/" +:+ name.

(** What lies between the separators; repeated separators are one. *)
Fixpoint components (part rest : list ascii) : list (list ascii) :=
  let done := if is_empty part then [] else [part] in
  match rest with
  | [] => done
  | c :: rest' => if ascii_eqb c "/" then done ++ components [] rest' else components (part ++ [c]) rest'
  end.

(** [path.is_absolute() && path.lexically_normal() == path && path != root_path()]. *)
Definition valid_workspace (path : string) : bool :=
  bool_decide (head (chars path) = Some "/"%char) && negb (is_empty (components [] (chars path))) &&
  forallb (λ c, negb (bool_decide (c = chars ".")) && negb (bool_decide (c = chars "..")))
    (components [] (chars path)).

(** [path.parent_path()] of a path with a file name. *)
Fixpoint parent_chars (l : list ascii) : option (list ascii) :=
  match l with
  | [] => None
  | c :: l' =>
      match parent_chars l' with
      | Some p => Some (c :: p)
      | None => if ascii_eqb c "/" then Some [] else None
      end
  end.

Definition parent_path (path : string) : string := of_bytes (value_or (parent_chars (chars path)) []).

Definition staging_root (workspace : string) : string := join workspace ".lmdj-host/import-staging".
Definition projects_root (workspace : string) : string := join workspace "projects".
Definition project_directory (workspace : string) (id : ProjectId) : string :=
  join (projects_root workspace) (value id +:+ ".lmdj").

(** [PublishToken]: [claim] and [force_failure] answer for the caller. *)
Record PublishToken := MkPublishToken { claim_publish : bool; force_publish_failure : bool }.

(** What the caller is told. *)
Inductive PublishNotice := publish_committed | publish_aborted.

Section transfer.
Context `{JL : JsonLib} `{TL : !TextLib} `{PL : !ParseLib} {S : Type} `{SP : !ProjectStoragePlatform S} `{ST : !ProjectStorageTree S} `{PS : !ProjectStore S}.

(** ** Errors *)

Definition bundle_argument (message : string) : Error := plain_error invalid_argument message.
Definition session_not_found : Error :=
  plain_error not_found "Project Bundle import session was not found".

Definition sanitized_storage_error (source : Error) (message : string) : Error :=
  MkError _ (code source) message
    (if is_object (details source) && j_contains (details source) "storage_condition"
     then match j_at (details source) "storage_condition" with
          | Some condition => j_set (j_object []) "storage_condition" condition
          | None => j_object []
          end
     else j_object []).

Definition kStorageConditionProjectBusy : string := "project_busy".
Definition kStorageConditionAlreadyExists : string := "already_exists".
Definition kStorageConditionInvalidState : string := "invalid_state".

(** [details.is_object() && details.value("storage_condition", "") == condition]. *)
Definition storage_condition (e : Error) (condition : string) : bool :=
  is_object (details e) && member_is (details e) "storage_condition" condition.

Definition sanitize {A} (message : string) (r : Result A) : Result A :=
  match r with failure e => failure (sanitized_storage_error e message) | r => r end.

(** A query of the platform, and an operation on what is stored. *)
Definition query {A} (message : string) (f : S → Result A) : Io S A :=
  λ s, (s, sanitize message (f s)).
Definition operate {A} (message : string) (f : Io S A) : Io S A :=
  λ s, let '(s', r) := f s in (s', sanitize message r).

(** ** The inventory of a directory *)

Inductive InventoryPurpose := transfer | discovery.
#[local] Instance purpose_eq_dec : EqDecision InventoryPurpose.
Proof. solve_decision. Defined.

Definition bytes_digest (bytes : list ascii) : string := hash256_hex_string (of_bytes bytes).

Definition changed : Error :=
  MkError _ io_error "Project inventory file changed or returned invalid bytes"
    (j_object [("storage_condition", j_string kStorageConditionInvalidState)]).

Definition kWindowBytes : N := 1024 * 1024.

(** The windows of a file from [offset] to [length]; each has a byte at least. *)
Fixpoint read_windows (fuel : nat) (read_range : N → N → Result (list ascii)) (length offset : N)
    (bytes : list ascii) : Result (list ascii * N) :=
  if length <=? offset then success (bytes, offset)
  else match fuel with
       | O => thrown
       | Datatypes.S fuel' =>
           let capacity := N.min kWindowBytes (u64_sub length offset) in
           window ← sanitize "Project inventory range could not be read" (read_range offset capacity);
           unless_refused (negb (is_empty window) && (bytes_size window <=? capacity)) changed;;
           read_windows fuel' read_range length (u64_add offset (bytes_size window)) (bytes ++ window)
       end.

Definition read_inventory_entry (s : S) (path portable : string) (purpose : InventoryPurpose) :
    Result InventoryEntry :=
  length ← sanitize "Project inventory file length could not be read" (byte_length s path);
  unless_refused (bool_decide (purpose = discovery) || (length <=? kMaximumEntryBytes))
    (resource_limit "Project inventory entry exceeds 64 MiB");;
  match range_reader with
  | None =>
      unless_refused (length <=? kMaximumEntryBytes)
        (MkError _ io_error "Large Project inventory requires bounded storage reads"
           (j_object [("reason", j_string "bounded_read_unavailable")]));;
      content ← sanitize "Project inventory file could not be read" (read_complete s path);
      unless_refused (bytes_size content =? length) changed;;
      success (MkInventory portable length (bytes_digest content))
  | Some read_range =>
      '(bytes, offset) ← read_windows (N.to_nat length) (read_range s path) length 0 [];
      after ← sanitize "Project inventory final length could not be read" (byte_length s path);
      unless_refused (after =? length) changed;;
      extra ← sanitize "Project inventory EOF could not be read" (read_range s path offset 1);
      unless_refused (is_empty extra) changed;;
      success (MkInventory portable length (bytes_digest bytes))
  end.

(** [relative.empty() ? root : root / relative], and [relative / name]. *)
Definition inside (root relative : string) : string :=
  if bool_decide (relative = "") then root else join root relative.
Definition child (relative name : string) : string :=
  if bool_decide (relative = "") then name else join relative name.

Definition collect_file (s : S) (root : string) (purpose : InventoryPurpose)
    (acc : list InventoryEntry * N) (portable : string) : Result (list InventoryEntry * N) :=
  let '(entries, total) := acc in
  unless_refused (portable_path portable) (invalid_bundle "Project inventory contains an invalid path");;
  e ← read_inventory_entry s (join root portable) portable purpose;
  unless_refused (inventory_bytes e <=? u64_sub (2 ^ 64 - 1) total)
    (resource_limit "Project inventory byte count overflows");;
  let total' := u64_add total (inventory_bytes e) in
  unless_refused (bool_decide (purpose = discovery) || (total' <=? kMaximumPayloadBytes))
    (resource_limit "Project inventory exceeds 512 MiB");;
  unless_refused (N.of_nat (length (entries ++ [e])) <=? kMaximumEntries)
    (resource_limit "Project inventory entry count exceeds 4096");;
  success (entries ++ [e], total').

(** [depth] bounds the nesting of directories. *)
Fixpoint collect_inventory (depth : nat) (s : S) (root relative : string) (purpose : InventoryPurpose)
    (acc : list InventoryEntry * N) : Result (list InventoryEntry * N) :=
  match depth with
  | O => thrown
  | Datatypes.S depth' =>
      names ← sanitize "Project inventory could not list files" (list_names s (inside root relative));
      acc ← fold_result (collect_file s root purpose) acc (child relative <$> names);
      directories ← sanitize "Project inventory could not list directories"
                      (list_directories s (inside root relative));
      fold_result (λ acc name, collect_inventory depth' s root (child relative name) purpose acc)
        acc directories
  end.

Context (depth : nat).

Definition project_digest (s : S) (path : string) (project_id : ProjectId) (contract : ProjectContract)
    (version : string) (purpose : InventoryPurpose) : Result string :=
  sanitize "Project inventory tree is invalid" (validate_managed_tree s path);;
  '(entries, _) ← collect_inventory depth s path "" purpose ([], 0);
  success (inventory_digest_of project_id contract version entries).

(** ** Summaries *)

Record LocalProjectSummary := MkSummary {
  summary_project : ProjectId;
  summary_pattern : PatternId;
  summary_revision : N;
  summary_bpm : N;
  asset_count : N;
  assigned_pad_count : N;
  bundle_digest : string
}.

(** [state.patterns.begin()->first]: the least identity. *)
Definition first_pattern (state : ProjectState) : option PatternId :=
  head (stable_sort (λ id, path_bytes (value id)) (map_to_list (patterns state)).*1).

Definition assigned_pads (state : ProjectState) : N :=
  N.of_nat (length (filter (λ p, has_value (pad_asset_id p) = true) (concat (banks state)))).

(** The writer's lease, when the path is not busy, lasts to the end. *)
Definition summarize_project (path version : string) (purpose : InventoryPurpose) : Io S LocalProjectSummary :=
  leased ← attempt (λ s, take_writer s path);
  let busy := match leased with failure e => storage_condition e kStorageConditionProjectBusy | _ => false end in
  match leased with
  | failure e =>
      demand busy (sanitized_storage_error e "Project inventory writer could not be acquired")
  | r => pure_result r
  end;;
  finally (λ s, if busy then s else release_writer s path)
    (state ← operate "Project could not be validated" (λ s, load s path);
     match first_pattern state with
     | None => stop (invalid_bundle "Project has no playable Pattern")
     | Some pattern =>
         digest ← observe (λ s, project_digest s path (project_id state) (contract state) version purpose);
         mret (MkSummary (project_id state) pattern (revision state) (bpm state)
                 (N.of_nat (size (assets state))) (assigned_pads state) digest)
     end).

(** [directory.extension() == ".lmdj"], and its stem. *)
Definition lmdj_stem (name : string) : option string :=
  let l := chars name in
  let n := length l in
  if Nat.ltb 5 n && bool_decide (drop (n - 5) l = chars ".lmdj") then Some (of_bytes (take (n - 5) l)) else None.

Fixpoint summarize_all (root : string) (names : list string) : Io S (list LocalProjectSummary) :=
  match names with
  | [] => mret []
  | name :: names' =>
      match lmdj_stem name with
      | None => summarize_all root names'
      | Some stem =>
          summary ← summarize_project (join root name) kBundleContractVersion discovery;
          demand (bool_decide (stem = value (summary_project summary)))
            (invalid_bundle "Local Project directory identity is invalid");;
          l ← summarize_all root names';
          mret (summary :: l)
      end
  end.

Definition list_local_projects (workspace : string) : Io S (list LocalProjectSummary) :=
  demand (valid_workspace workspace)
    (bundle_argument "Workspace root must be a normalized absolute path");;
  let root := projects_root workspace in
  found ← query "Local Project root could not be inspected" (λ s, directory_exists s root);
  if negb found then mret []
  else
    names ← query "Local Projects could not be listed" (λ s, list_directories s root);
    l ← summarize_all root names;
    mret (stable_sort (λ s, path_bytes (value (summary_project s))) l).
(** ** Import sessions *)

Record Session := MkSession {
  workspace : string;
  root : string;
  bundle : string;
  index_path : string;
  session_token : string;
  expected_index_bytes : N;
  expected_index_sha256 : string;
  index_written : N;
  session_index : option ParsedIndex;
  next_entry : N;
  entry_written : N
}.

Record Impl := MkImpl { sessions : gmap string Session; used_tokens : gset string }.

(** What is stored, and what the object keeps. *)
Definition Transfer : Type := S * Impl.

Definition stored {A} (m : Io S A) : Io Transfer A := λ t, let '(s', r) := m t.1 in ((s', t.2), r).

Definition put_session (token : string) (x : Session) : Io Transfer () :=
  update (λ t, (t.1, MkImpl (<[token := x]> (sessions t.2)) (used_tokens t.2))).
Definition use_token (token : string) : Io Transfer () :=
  update (λ t, (t.1, MkImpl (sessions t.2) ({[ token ]} ∪ used_tokens t.2))).
Definition erase_session (token : string) (t : Transfer) : Transfer :=
  (t.1, MkImpl (delete token (sessions t.2)) (used_tokens t.2)).
Definition find_session (token : string) : Io Transfer Session :=
  λ t, (t, match sessions t.2 !! token with Some x => success x | None => failure session_not_found end).

(** [lease.reset(); (void)remove_tree(root)]. *)
Definition drop_staging (root : string) (s : S) : S := (remove_tree (release_writer s root) root).1.

Definition staging_directories (root bundle : string) : list string :=
  [root; bundle; join bundle "assets"; join bundle "history/checkpoints";
   join bundle "history/transactions"; join bundle "recovery/active"; join bundle "recovery/sealed"].

Record BundleImportSession := MkImportSession { import_token : string; import_index_bytes : N }.

Definition begin (workspace token : string) (index_bytes : N) (index_sha256 : string) :
    Io Transfer BundleImportSession :=
  demand (valid_workspace workspace && is_valid_uuid token && lowercase_sha256 index_sha256 &&
          negb (index_bytes =? 0)) (bundle_argument "Project Bundle import identity is invalid");;
  demand (index_bytes <=? kMaximumIndexBytes) (resource_limit "Project Bundle index exceeds 4 MiB");;
  t ← current;
  demand (negb (bool_decide (token ∈ used_tokens t.2)))
    (bundle_argument "Project Bundle import token was already used");;
  use_token token;;
  let root := join (staging_root workspace) token in
  let bundle := join root "project.lmdj" in
  let index_path := join root "index.json" in
  stored (operate "Project Bundle staging writer is busy" (λ s, take_writer s root));;
  stored (on_failure (drop_staging root)
    (io_each (λ directory, operate "Project Bundle staging could not be created"
                (λ s, ensure_directory s directory)) (staging_directories root bundle);;
     operate "Project Bundle index staging could not be created"
       (λ s, create_immutable s index_path [])));;
  put_session token (MkSession workspace root bundle index_path token index_bytes index_sha256 0 None 0 0);;
  mret (MkImportSession token index_bytes).

Definition set_index_written (x : Session) (n : N) : Session :=
  MkSession (workspace x) (root x) (bundle x) (index_path x) (session_token x) (expected_index_bytes x)
    (expected_index_sha256 x) n (session_index x) (next_entry x) (entry_written x).
Definition set_index (x : Session) (index : ParsedIndex) : Session :=
  MkSession (workspace x) (root x) (bundle x) (index_path x) (session_token x) (expected_index_bytes x)
    (expected_index_sha256 x) (index_written x) (Some index) (next_entry x) (entry_written x).
Definition set_entry (x : Session) (next written : N) : Session :=
  MkSession (workspace x) (root x) (bundle x) (index_path x) (session_token x) (expected_index_bytes x)
    (expected_index_sha256 x) (index_written x) (session_index x) next written.

Record BundleImportIdentity := MkIdentity {
  identity_project : ProjectId;
  identity_digest : string;
  entry_count : N
}.

Definition append_index (token : string) (offset : N) (bytes : list ascii) (final : bool) :
    Io Transfer (option BundleImportIdentity) :=
  x ← find_session token;
  let next := u64_add (index_written x) (bytes_size bytes) in
  demand (negb (has_value (session_index x)) && (offset =? index_written x) && negb (is_empty bytes) &&
          (bytes_size bytes <=? kMaximumChunkBytes) && (next <=? expected_index_bytes x) &&
          Bool.eqb final (next =? expected_index_bytes x))
    (bundle_argument "Project Bundle index chunk is invalid");;
  stored (operate "Project Bundle index chunk could not be staged"
    (λ s, append_durable s (index_path x) (index_written x) bytes));;
  let x := set_index_written x next in
  put_session token x;;
  if negb final then mret None
  else
    staged ← stored (query "Project Bundle index could not be read" (λ s, read_complete s (index_path x)));
    demand (bool_decide (bytes_digest staged = expected_index_sha256 x))
      (invalid_bundle "Project Bundle index hash does not match");;
    index ← pure_result (parse_index (of_bytes staged));
    put_session token (set_index x index);;
    mret (Some (MkIdentity (index_project index) (index_digest index)
                  (N.of_nat (length (index_entries index)) mod 2 ^ 32))).

Definition append_entry (token : string) (entry_index offset : N) (bytes : list ascii) (final : bool) :
    Io Transfer () :=
  x ← find_session token;
  let chunk := bundle_argument "Project Bundle entry chunk is invalid" in
  match session_index x ≫= λ index, index_entries index !! N.to_nat entry_index with
  | None => stop chunk
  | Some entry =>
      demand ((entry_index =? next_entry x) && (offset =? entry_written x) &&
              (bytes_size bytes <=? kMaximumChunkBytes)) chunk;;
      let next := u64_add (entry_written x) (bytes_size bytes) in
      demand ((next <=? entry_bytes entry) && Bool.eqb final (next =? entry_bytes entry) &&
              (final || negb (is_empty bytes)))
        (bundle_argument "Project Bundle entry boundary is invalid");;
      let destination := join (bundle x) (entry_path entry) in
      stored (operate "Project Bundle entry directory could not be created"
        (λ s, ensure_directory s (parent_path destination)));;
      stored (operate "Project Bundle entry chunk could not be staged"
        (λ s, if entry_written x =? 0 then create_immutable s destination bytes
              else append_durable s destination (entry_written x) bytes));;
      put_session token (set_entry x (next_entry x) next);;
      if negb final then mret ()
      else
        staged ← stored (query "Project Bundle entry could not be read" (λ s, read_complete s destination));
        demand (bool_decide (bytes_digest staged = entry_sha256 entry))
          (invalid_bundle "Project Bundle entry hash does not match");;
        put_session token (set_entry x (next_entry x + 1) 0)
  end.

(** The end of a commit that publishes nothing. *)
Definition close_session (x : Session) (t : Transfer) : Transfer :=
  erase_session (session_token x) (drop_staging (root x) t.1, t.2).

Definition mark_local_copy (e : Error) : Error :=
  if is_object (details e)
  then MkError _ (code e) (message e) (j_set (details e) "local_copy" (j_bool true)) else e.

Definition marked {A} (r : Result A) : Result A :=
  match r with failure e => failure (mark_local_copy e) | r => r end.

Definition map_result {A B} (f : Result A → Result B) (m : Io S A) : Io S B :=
  λ s, let '(s', r) := m s in (s', f r).

(** A local Project of that identity exists: the same one is reported. *)
Definition existing_project (destination : string) (index : ParsedIndex) : Io S LocalProjectSummary :=
  existing ← map_result marked (summarize_project destination (index_version index) transfer);
  demand (bool_decide (bundle_digest existing = index_digest index))
    (plain_error duplicate_id "A different local Project already uses this Project ID");;
  mret existing.

(** The last step of a commit: the staged directory becomes the Project. *)
Definition publish_staged (x : Session) (destination : string) : Io Transfer () :=
  finally (λ t, erase_session (session_token x) ((remove_tree t.1 (root x)).1, t.2))
    (stored (operate "Project Bundle could not be published atomically"
       (λ s, publish_directory_if_absent (release_writer s (root x)) (bundle x) destination))).

(** With the summary of what is staged: whether it may be published. *)
Definition check_staged (x : Session) : Io S (LocalProjectSummary * ParsedIndex) :=
  let incomplete := bundle_argument "Project Bundle import is incomplete" in
  match session_index x with
  | None => stop incomplete
  | Some index =>
      demand ((next_entry x =? N.of_nat (length (index_entries index))) && (entry_written x =? 0)) incomplete;;
      staged ← summarize_project (bundle x) (index_version index) transfer;
      demand (bool_decide (summary_project staged = index_project index) &&
              bool_decide (bundle_digest staged = index_digest index))
        (invalid_bundle "Project Bundle identity does not match its validated Project");;
      operate "Local Project root could not be created"
        (λ s, ensure_directory s (projects_root (workspace x)));;
      mret (staged, index)
  end.

Definition commit (token : string) : Io Transfer LocalProjectSummary :=
  x ← find_session token;
  '(staged, index) ← on_failure (close_session x) (stored (check_staged x));
  let destination := project_directory (workspace x) (index_project index) in
  on_failure (close_session x)
    (stored (operate "Local Project writer is busy" (λ s, take_writer s destination)));;
  finally (λ t, (release_writer t.1 destination, t.2))
    (found ← on_failure (close_session x)
       (stored (query "Local Project destination could not be inspected"
          (λ s, directory_exists s destination)));
     if found : bool then
       summary ← on_failure (close_session x) (stored (existing_project destination index));
       update (close_session x);;
       mret summary
     else publish_staged x destination;; mret staged).

Definition abort (token : string) : Io Transfer () :=
  x ← find_session token;
  removed ← attempt (stored (λ s, remove_tree (release_writer s (root x)) (root x)));
  update (erase_session token);;
  pure_result (sanitize "Project Bundle staging could not be removed" removed).

Definition cleanup_one (root name : string) : Io Transfer () :=
  t ← current;
  if bool_decide (is_Some (sessions t.2 !! name)) then mret ()
  else
    let path := join root name in
    leased ← attempt (stored (λ s, take_writer s path));
    match leased with
    | failure e =>
        if storage_condition e kStorageConditionProjectBusy then mret ()
        else stop (sanitized_storage_error e "Project Bundle staging cleanup is busy")
    | thrown => pure_result thrown
    | success _ =>
        stored (operate "Project Bundle staging cleanup failed"
          (λ s, remove_tree (release_writer s path) path))
    end.

Definition cleanup_incomplete (workspace : string) : Io Transfer () :=
  demand (valid_workspace workspace)
    (bundle_argument "Workspace root must be a normalized absolute path");;
  let root := staging_root workspace in
  found ← stored (query "Project Bundle staging root could not be inspected" (λ s, directory_exists s root));
  if negb found then mret ()
  else
    names ← stored (query "Project Bundle staging could not be listed" (λ s, list_directories s root));
    io_each (cleanup_one root) names.
(** ** Duplication *)

(** What is stored, and what the caller was told of the publication. *)
Definition Copy : Type := S * option PublishNotice.

Definition copying {A} (m : Io S A) : Io Copy A := λ t, let '(s', r) := m t.1 in ((s', t.2), r).
Definition on_copy (f : S → S) (t : Copy) : Copy := (f t.1, t.2).
Definition notify (n : PublishNotice) (t : Copy) : Copy := (t.1, Some n).

(** The lease of [path] lasts to the end of [m]. *)
Definition under_lease {A} (message path : string) (m : Io Copy A) : Io Copy A :=
  copying (operate message (λ s, take_writer s path));;
  finally (on_copy (λ s, release_writer s path)) m.

(** The order of [std::set<ArtifactRef>]. *)
Definition artifact_key (a : ArtifactRef) : list N :=
  ((λ n, n + 1) <$> path_bytes (sha256 a)) ++ 0 :: ((λ n, n + 1) <$> path_bytes (media_type a)) ++
  [0; Foundation.byte_length a].

Definition project_artifacts (state : ProjectState) : list ArtifactRef :=
  stable_sort artifact_key
    ((asset_artifact <$> (map_to_list (assets state)).*2) ++
     omap recording_artifact (map_to_list (performances state)).*2).

Definition copy_artifact (source bundle : string) (a : ArtifactRef) (total : N) : Io S N :=
  let name := sha256 a +:+ ".wav" in
  demand (Foundation.byte_length a <=? kMaximumEntryBytes)
    (resource_limit "Project duplicate Artifact exceeds 64 MiB");;
  let total' := u64_add total (Foundation.byte_length a) in
  demand (total' <=? kMaximumPayloadBytes) (resource_limit "Project duplicate exceeds 512 MiB");;
  content ← query "Source Project Artifact could not be read"
              (λ s, read_complete s (join (join source "assets") name));
  demand ((bytes_size content =? Foundation.byte_length a) && bool_decide (bytes_digest content = sha256 a))
    (invalid_bundle "Source Project Artifact is corrupt");;
  operate "Project duplicate Artifact could not be staged"
    (λ s, create_immutable s (join (join bundle "assets") name) content);;
  mret total'.

Fixpoint copy_artifacts (source bundle : string) (l : list ArtifactRef) (copied : gset string) (total : N) :
    Io S () :=
  match l with
  | [] => mret ()
  | a :: l' =>
      if bool_decide (sha256 a ∈ copied) then copy_artifacts source bundle l' copied total
      else
        total' ← copy_artifact source bundle a total;
        copy_artifacts source bundle l' ({[ sha256 a ]} ∪ copied) total'
  end.

Definition duplicate_initial (state : ProjectState) (id : ProjectId) : ProjectState :=
  MkProjectState (contract state) id 0 (bpm state) (quantize_enabled state) (swing_percent state)
    (banks state) (assets state) (patterns state) (performances state) (pattern_slots state).

(** The copy, staged and validated. *)
Definition stage_duplicate (source root : string) (state : ProjectState) (id : ProjectId) :
    Io S LocalProjectSummary :=
  let bundle := join root "project.lmdj" in
  io_each (λ directory, operate "Project duplicate staging could not be created"
             (λ s, ensure_directory s directory)) [root; bundle; join bundle "assets"];;
  copy_artifacts source bundle (project_artifacts state) ∅ 0;;
  operate "Project duplicate could not be staged" (λ s, create s bundle (duplicate_initial state id));;
  summarize_project bundle kBundleContractVersion transfer.

Definition active_session_error (message reason : string) (session : SequenceSessionId) : Error :=
  MkError _ invalid_argument message
    (j_object [("reason", j_string reason); ("session_id", j_string (value session))]).

(** No session records into the source: [not_found] is what an idle journal says. *)
Definition require_idle (blocked : SequenceSessionId → Error) (message : string)
    (r : Result SequenceSessionId) : Result () :=
  match r with
  | success session => failure (blocked session)
  | failure e => if bool_decide (code e = not_found) then success () else failure (sanitized_storage_error e message)
  | thrown => thrown
  end.

Definition sequence_idle (source : string) : Io S () :=
  r ← attempt (observe (λ s, j ← (read_active source (s, None)).2; success (session_id j)));
  pure_result (require_idle
    (active_session_error "Project duplicate is blocked by the active Sequence Journal" "sequence_session_active")
    "Source Sequence Journal could not be read" r).

Definition performance_idle (source : string) : Io S () :=
  r ← attempt (λ s, read_active_performance s source);
  pure_result (require_idle
    (active_session_error "Project duplicate is blocked by the active Performance Journal"
       "performance_session_active") "Source Performance Journal could not be read" r).

Definition publication_error (e : Error) : Error :=
  if storage_condition e kStorageConditionAlreadyExists
  then plain_error duplicate_id "A local Project already uses this Project ID"
  else sanitized_storage_error e "Project duplicate could not be published atomically".

Definition publish_duplicate (token : PublishToken) (root destination : string) : Io Copy () :=
  if negb (claim_publish token) then
    update (on_copy (drop_staging root));;
    stop (plain_error internal_error "Project duplicate was cancelled before publication")
  else if force_publish_failure token then
    update (notify publish_aborted);; update (on_copy (drop_staging root));;
    stop (MkError _ io_error "Project duplicate publication failed"
            (j_object [("stage", j_string "directory_publication")]))
  else
    published ← attempt (copying (λ s,
      publish_directory_if_absent (release_writer s root) (join root "project.lmdj") destination));
    match published with
    | success _ =>
        update (notify publish_committed);; update (on_copy (λ s, (remove_tree s root).1))
    | failure e =>
        update (notify publish_aborted);; update (on_copy (λ s, (remove_tree s root).1));;
        stop (publication_error e)
    | thrown => pure_result thrown
    end.

Definition duplicate (workspace : string) (source_id id : ProjectId) (token : PublishToken) :
    Io Copy LocalProjectSummary :=
  demand (valid_workspace workspace && is_valid_uuid (value source_id) && is_valid_uuid (value id) &&
          negb (bool_decide (source_id = id))) (bundle_argument "Project duplicate identity is invalid");;
  let source := project_directory workspace source_id in
  let destination := project_directory workspace id in
  under_lease "Source Project writer is busy" source
    (found ← copying (query "Source Project could not be inspected" (λ s, directory_exists s source));
     demand found (plain_error not_found "Source Project was not found");;
     under_lease "Local Project writer is busy" destination
       (taken ← copying (query "Local Project destination could not be inspected"
                           (λ s, directory_exists s destination));
        demand (negb taken) (plain_error duplicate_id "A local Project already uses this Project ID");;
        copying (sequence_idle source);; copying (performance_idle source);;
        committed ← copying (operate "Source Project could not be validated" (λ s, inspect_committed s source));
        demand (bool_decide (project_id committed = source_id))
          (invalid_bundle "Local Project directory identity is invalid");;
        let root := join (staging_root workspace) ("duplicate-" +:+ value id) in
        copying (operate "Project duplicate staging writer is busy" (λ s, take_writer s root));;
        on_failure (on_copy (λ s, release_writer s root))
          (copying (operate "Project duplicate staging could not be reset" (λ s, remove_tree s root)));;
        staged ← on_failure (on_copy (drop_staging root)) (copying (stage_duplicate source root committed id));
        publish_duplicate token root destination;;
        mret staged)).
End transfer.
