(* ===== verification/BundleLaws.v ===== *)
(** What a Bundle index promises.

    An index that is read has portable, sorted paths that do not collide, and
    contiguous contents within the limits; the index of a Project's inventory is
    read back, with the digest the inventory has. *)

From S2P Require Import Prelude Json Foundation Io Text Project Soundset Outcome Fields Journal JsonText JournalFile Preflight JournalFiles Bundle.

(** ** Results *)

Section results.
Context `{JL : JsonLib}.

Lemma unless_refused_success b e u : unless_refused b e = success u ↔ b = true.
Proof. unfold unless_refused. destruct b, u; split; done. Qed.
End results.

(** Take a successful [Result] computation apart. *)
Ltac result_inv H :=
  repeat match type of H with
  | _ ≫= _ = success _ =>
      let a := fresh "a" in let Ha := fresh "Ha" in
      apply result_bind_success in H as (a & Ha & H);
      try (apply unless_refused_success in Ha); result_inv Ha
  | success _ = success _ => injection H as H
  end.

(** ** Valid entries *)

(** Strictly increasing in the unsigned order of the bytes. *)
Definition path_lt (a b : BundleEntry) : Prop := unsigned_byte_less (entry_path a) (entry_path b) = true.

(** The bytes of the entries, in order. *)
Definition payload_bytes (l : list BundleEntry) : N := sum_of entry_bytes l.

(** Each entry begins where the one before ends. *)
Fixpoint contiguous (offset : N) (l : list BundleEntry) : Prop :=
  match l with
  | [] => True
  | e :: l' => entry_offset e = offset ∧ contiguous (offset + entry_bytes e) l'
  end.

Definition entry_ok (e : BundleEntry) : Prop :=
  portable_path (entry_path e) = true ∧ lowercase_sha256 (entry_sha256 e) = true ∧
  entry_bytes e ≤ kMaximumEntryBytes.

Record entries_ok (l : list BundleEntry) : Prop := {
  entries_each : Forall entry_ok l;
  entries_contiguous : contiguous 0 l;
  entries_sorted : StronglySorted path_lt l;
  entries_folded : NoDup (ascii_fold ∘ entry_path <$> l);
  entries_total : payload_bytes l ≤ kMaximumPayloadBytes
}.

Record index_ok (p : ParsedIndex) : Prop := {
  index_entries_ok : entries_ok (index_entries p);
  index_some : index_entries p ≠ [];
  index_count : N.of_nat (length (index_entries p)) ≤ kMaximumEntries;
  index_identity : is_valid_uuid (value (index_project p)) = true ∧ lowercase_sha256 (index_digest p) = true
}.

Lemma unsigned_byte_less_trans a b c :
  unsigned_byte_less a b = true → unsigned_byte_less b c = true → unsigned_byte_less a c = true.
Proof.
  unfold unsigned_byte_less. rewrite !negb_true_iff. intros H1 H2.
  destruct (lex_le (path_bytes c) (path_bytes a)) eqn:E; [|done].
  destruct (lex_le_total (path_bytes b) (path_bytes c)) as [Hbc|Hbc]; [|congruence].
  rewrite (lex_le_trans _ _ _ Hbc E) in H1. done.
Qed.

Lemma payload_bytes_app l e : payload_bytes (l ++ [e]) = payload_bytes l + entry_bytes e.
Proof. unfold payload_bytes. rewrite sum_of_app. cbn. lia. Qed.

Lemma contiguous_app o l e : contiguous o l → entry_offset e = o + payload_bytes l → contiguous o (l ++ [e]).
Proof.
  unfold payload_bytes. revert o. induction l as [|x l IH]; intros o; cbn [contiguous app].
  - intros _ ->. split; [cbn; lia|done].
  - rewrite sum_of_cons. intros [Hx Hl] He. split; [done|]. apply IH; [done|]. lia.
Qed.

Lemma sorted_app_last {A} (R : A → A → Prop) `{!Transitive R} l x : StronglySorted R l →
  (∀ y, last l = Some y → R y x) → StronglySorted R (l ++ [x]).
Proof.
  induction 1 as [|y l Hl IH Hy]; intros Hx; cbn [app]; [by repeat constructor|].
  constructor.
  - apply IH. intros z Hz. apply Hx. rewrite last_cons, Hz. done.
  - apply Forall_app. split; [done|]. constructor; [|done].
    destruct (last l) as [z|] eqn:E; [|by apply Hx; rewrite last_cons, E].
    transitivity z; [|by apply Hx; rewrite last_cons, E].
    rewrite Forall_forall in Hy. apply Hy. by apply last_Some_elem_of.
Qed.

(** ** The loop *)

Section parse.
Context `{JL : JsonLib} `{TL : !TextLib} `{PL : !ParseLib}.

(** What the loop carries is what its entries say. *)
Record loop_ok (s : IndexLoop) : Prop := {
  loop_entries_ok : entries_ok (loop_entries s);
  loop_exact : ∀ x, x ∈ exact_paths s ↔ x ∈ entry_path <$> loop_entries s;
  loop_folded : ∀ x, x ∈ folded_paths s ↔ x ∈ ascii_fold ∘ entry_path <$> loop_entries s;
  loop_offset : expected_offset s = payload_bytes (loop_entries s);
  loop_previous : previous_path s = value_or (entry_path <$> last (loop_entries s)) ""
}.

Lemma loop_start_ok : loop_ok loop_start.
Proof.
  split; cbn; try done; try set_solver.
  split; try constructor. unfold payload_bytes, kMaximumPayloadBytes. cbn. lia.
Qed.

Lemma portable_nonempty p : portable_path p = true → p ≠ "".
Proof. by intros H ->. Qed.

Lemma parse_entry_ok s j s' : loop_ok s → parse_entry s j = success s' → loop_ok s'.
Proof.
  intros [[He Hc Hs Hn Ht] Hx Hf Ho Hp] H. unfold parse_entry in H. result_inv H.
  destruct (portable_path _ && lowercase_sha256 _) eqn:Ev; [|by repeat case_match].
  destruct (unsigned_value _) as [bytes|]; [|done]. destruct (unsigned_value _) as [offset|]; [|done].
  result_inv H. bool_to_prop. subst s'.
  match goal with H : portable_path ?p = true |- _ => set (path := p) in *; rename H into Hpath end.
  match goal with H : lowercase_sha256 ?d = true |- _ => set (digest := d) in *; rename H into Hdigest end.
  match goal with H : offset = expected_offset s |- _ => subst offset end.
  assert (bytes ≤ kMaximumEntryBytes) as Hbytes by done.
  assert (u64_add (expected_offset s) bytes = payload_bytes (loop_entries s) + bytes) as Enext.
  { rewrite Ho. unfold u64_add, wrap. apply N.mod_small. unfold kMaximumEntryBytes, kMaximumPayloadBytes in *. lia. }
  assert (path ∉ entry_path <$> loop_entries s) as Hnew by (by rewrite <- Hx).
  assert (ascii_fold path ∉ ascii_fold ∘ entry_path <$> loop_entries s) as Hnewf by (by rewrite <- Hf).
  split; cbn.
  - split.
    + apply Forall_app. split; [done|]. constructor; [|constructor]. by split_and!.
    + apply contiguous_app; [done|]. cbn. by rewrite Ho.
    + apply sorted_app_last; [intros ???; apply unsigned_byte_less_trans|done|].
      intros y Hy. unfold path_lt. cbn. rewrite Hy in Hp. cbn in Hp. rewrite <- Hp.
      assert (previous_path s ≠ "") as Hne.
      { rewrite Hp. apply portable_nonempty. rewrite Forall_forall in He. apply He. by apply last_Some_elem_of. }
      match goal with H : bool_decide (previous_path s = "") || _ = true |- _ => rename H into Hless end.
      apply orb_true_iff in Hless as [Hless|Hless]; [by apply bool_decide_eq_true_1 in Hless|done].
    + rewrite fmap_app. apply NoDup_app. split_and!; [done| |apply NoDup_singleton].
      intros x Hin Hin'. cbn in Hin'. apply list_elem_of_singleton in Hin' as ->. done.
    + rewrite payload_bytes_app. cbn. lia.
  - intros x. rewrite fmap_app. cbn. rewrite elem_of_union, elem_of_app, Hx. set_solver.
  - intros x. rewrite fmap_app. cbn. rewrite elem_of_union, elem_of_app, Hf. set_solver.
  - by rewrite payload_bytes_app.
  - by rewrite last_snoc.
Qed.

Lemma parse_entries_ok l : ∀ s s', loop_ok s → parse_entries s l = success s' →
  loop_ok s' ∧ length (loop_entries s') = (length (loop_entries s) + length l)%nat.
Proof.
  induction l as [|j l IH]; intros s s' Hs H; cbn [parse_entries] in H.
  - injection H as <-. split; [done|]. cbn. lia.
  - apply result_bind_success in H as (s1 & H1 & H). pose proof (parse_entry_ok _ _ _ Hs H1) as Hs1.
    destruct (IH _ _ Hs1 H) as [Hok Hlen]. split; [done|]. rewrite Hlen.
    unfold parse_entry in H1. result_inv H1. repeat (case_match; [|done]). repeat case_match; try done.
    result_inv H1. subst. cbn. rewrite length_app. cbn. lia.
Qed.

Lemma index_sound `{!JsonLaws JL} encoded p : parse_index encoded = success p → index_ok p.
Proof.
  unfold parse_index. destruct (parse_bounded_json _ _) as [index|]; [|done]. intros H.
  result_inv H. subst p. bool_to_prop.
  match goal with H : parse_entries _ _ = success _ |- _ =>
    destruct (parse_entries_ok _ _ _ loop_start_ok H) as [[Hok _ _ _ _] Hlen] end.
  cbn in Hlen. match goal with H : member_of index "entries" = success ?j |- _ => assert (is_array j = true) as Harray end.
  { match goal with H : index_shape _ _ = true |- _ => unfold index_shape in H; bool_to_prop end.
    match goal with H : member_test index "entries" _ = true, H' : member_of index "entries" = _ |- _ =>
      unfold member_test in H; unfold member_of in H'; destruct (j_at index "entries"); [|done];
      injection H' as ->; exact H end. }
  pose proof (array_size _ Harray) as Hsize.
  split; cbn; [done| | |done].
  - intros E. rewrite E in Hlen. cbn in Hlen.
    match goal with H : (_ =? 0)%nat = false |- _ => apply Nat.eqb_neq in H end. lia.
  - rewrite Hlen. lia.
Qed.
End parse.

(** ** The index of an inventory *)

Fixpoint entries_at (offset : N) (l : list InventoryEntry) : list BundleEntry :=
  match l with
  | [] => []
  | e :: l' =>
      MkEntry (inventory_path e) (inventory_bytes e) offset (inventory_digest e) ::
      entries_at (offset + inventory_bytes e) l'
  end.

(** What a Project's files must be for a Bundle of them to be imported. *)
Record inventory_ok (l : list InventoryEntry) : Prop := {
  inventory_each : Forall (λ e, portable_path (inventory_path e) = true ∧ lowercase_sha256 (inventory_digest e) = true ∧
                                inventory_bytes e ≤ kMaximumEntryBytes) l;
  inventory_folded : NoDup (ascii_fold ∘ inventory_path <$> l);
  inventory_total : sum_of inventory_bytes l ≤ kMaximumPayloadBytes;
  inventory_some : l ≠ [];
  inventory_count : N.of_nat (length l) ≤ kMaximumEntries
}.

Definition entry_document (e : BundleEntry) : dom :=
  DObject [("bytes", DUint (entry_bytes e)); ("offset", DUint (entry_offset e));
           ("path", DString (entry_path e)); ("sha256", DString (entry_sha256 e))].

Definition index_document (project : ProjectId) (contract version : string) (entries : list BundleEntry) :
    list (string * dom) :=
  [("compression", DString "none"); ("contract", DString "lmdj.project-bundle.v1");
   ("contract_version", DString version); ("entries", DArray (entry_document <$> entries));
   ("project_contract", DString contract); ("project_id", DString (value project));
   ("uncompressed_bytes", DUint (payload_bytes entries))].

Lemma entries_at_length o l : length (entries_at o l) = length l.
Proof. revert o. induction l as [|e l IH]; intros o; [done|]. cbn. by rewrite IH. Qed.

Lemma entries_at_paths {A} (f : string → A) o l : f ∘ entry_path <$> entries_at o l = f ∘ inventory_path <$> l.
Proof. revert o. induction l as [|e l IH]; intros o; [done|]. cbn. f_equal. apply IH. Qed.

Lemma entries_at_bytes o l : payload_bytes (entries_at o l) = sum_of inventory_bytes l.
Proof.
  unfold payload_bytes. revert o. induction l as [|e l IH]; intros o; [done|]. cbn [entries_at].
  rewrite !sum_of_cons, IH. done.
Qed.

Lemma entries_at_contiguous o l : contiguous o (entries_at o l).
Proof. revert o. induction l as [|e l IH]; intros o; cbn; [done|]. split; [done|apply IH]. Qed.

Lemma in_entries_at o l e : e ∈ entries_at o l →
  ∃ i, i ∈ l ∧ entry_path e = inventory_path i ∧ entry_bytes e = inventory_bytes i ∧ entry_sha256 e = inventory_digest i.
Proof.
  revert o. induction l as [|i l IH]; intros o; cbn [entries_at]; [by rewrite elem_of_nil|].
  rewrite elem_of_cons. intros [->|H]; [exists i; split; [left|done]|].
  destruct (IH _ H) as (j & Hj & ?). exists j. split; [by right|done].
Qed.

Lemma entries_at_sorted o l : StronglySorted (key_le (λ e, path_bytes (inventory_path e))) l →
  NoDup (inventory_path <$> l) → StronglySorted path_lt (entries_at o l).
Proof.
  intros H. revert o. induction H as [|i l Hl IH Hi]; intros o Hn; cbn [entries_at]; constructor.
  - apply IH. by apply NoDup_cons in Hn as [_ Hn].
  - rewrite Forall_forall in Hi. apply Forall_forall. intros e He. apply in_entries_at in He as (k & Hk & Ek & _).
    unfold path_lt, unsigned_byte_less. cbn. rewrite Ek. apply negb_true_iff.
    destruct (lex_le (path_bytes (inventory_path k)) (path_bytes (inventory_path i))) eqn:E; [|done]. exfalso.
    pose proof (lex_le_antisym _ _ E (Hi k Hk)) as Eq.
    assert (inventory_path k = inventory_path i) as Ep.
    { apply chars_inj. unfold path_bytes in Eq. revert Eq. generalize (chars (inventory_path i)).
      generalize (chars (inventory_path k)). induction l0 as [|a l0 IH0]; intros [|b m] Eq; try done.
      rewrite !fmap_cons in Eq. injection Eq as Ea Eq. f_equal; [|by apply IH0].
      unfold byte_of in Ea. by rewrite <- (ascii_N_embedding a), <- (ascii_N_embedding b), Ea. }
    cbn in Hn. apply NoDup_cons in Hn as [Hn _]. apply Hn. rewrite <- Ep. by apply (list_elem_of_fmap_2 inventory_path).
Qed.

Lemma inventory_entries_ok l : inventory_ok l → entries_ok (entries_at 0 (sorted_inventory l)).
Proof.
  intros [He Hf Ht _ _]. assert (sorted_inventory l ≡ₚ l) as Hp by apply stable_sort_perm.
  assert (NoDup (ascii_fold ∘ inventory_path <$> sorted_inventory l)) as Hn by (by rewrite Hp).
  split.
  - apply Forall_forall. intros e (i & Hi & Ep & Eb & Es)%in_entries_at. rewrite Hp in Hi.
    rewrite Forall_forall in He. unfold entry_ok. rewrite Ep, Eb, Es. by apply He.
  - apply entries_at_contiguous.
  - apply entries_at_sorted; [apply stable_sort_sorted|].
    apply (NoDup_fmap_1 ascii_fold). by rewrite <- list_fmap_compose.
  - by rewrite entries_at_paths.
  - rewrite entries_at_bytes, (sum_of_perm _ _ _ Hp). done.
Qed.

(** ** Plain texts *)

Lemma char_at_lookup s i c : chars s !! i = Some c → char_at s i = c.
Proof.
  revert i. induction s as [|a s IH]; intros [|i] H; cbn in *; try done; [by injection H|].
  apply IH in H. done.
Qed.

Lemma plain_uuid s : is_valid_uuid s = true → plain_text s = true ∧ text_length s = 36.
Proof.
  unfold is_valid_uuid, text_length. case_bool_decide as Hl; [|done]. rewrite Hl. cbn [negb orb].
  destruct (ascii_eqb (char_at s 8) "-") eqn:E8; [|done]. destruct (ascii_eqb (char_at s 13) "-") eqn:E13; [|done].
  destruct (ascii_eqb (char_at s 18) "-") eqn:E18; [|done]. destruct (ascii_eqb (char_at s 23) "-") eqn:E23; [|done].
  cbn [negb orb]. destruct (forallb _ (seq 0 36)) eqn:Ef; [|done]. cbn [negb]. intros _. split; [|done].
  unfold plain_text. apply List.forallb_forall. intros c [i Hi]%list_elem_of_In%list_elem_of_lookup.
  pose proof (lookup_lt_Some _ _ _ Hi) as Hlt. rewrite length_chars, Hl in Hlt.
  eapply List.forallb_forall in Ef; [|apply in_seq; split; [apply Nat.le_0_l|exact Hlt]].
  rewrite (char_at_lookup _ _ _ Hi) in Ef. apply orb_true_iff in Ef as [Ef|Ef]; [|by apply plain_lower_hex].
  apply bool_decide_eq_true_1 in Ef. unfold uuid_dashes in Ef.
  assert (char_at s i = "-"%char) as Ec.
  { rewrite !elem_of_cons, elem_of_nil in Ef.
    destruct Ef as [-> |[-> |[-> |[-> |[]]]]]; by apply Ascii.eqb_eq. }
  rewrite (char_at_lookup _ _ _ Hi) in Ec. by rewrite Ec.
Qed.

Lemma portable_char_plain c : portable_char c = true → plain_char c = true.
Proof.
  unfold portable_char, char_in, ascii_eqb. rewrite !orb_true_iff, !andb_true_iff, !N.leb_le, !Ascii.eqb_eq.
  intros [[[[[H|H]|H]| ->]| ->]| ->]; [..|done|done|done]; unfold plain_char, byte_of in *; cbn zeta;
    set (n := N_of_ascii c) in *; cbn in H; rewrite !andb_true_iff, !negb_true_iff, !N.eqb_neq, !N.leb_le; lia.
Qed.

Lemma portable_loop_plain rest : ∀ segment, portable_loop segment rest = true → forallb plain_char rest = true.
Proof.
  induction rest as [|c rest IH]; intros segment; cbn [portable_loop forallb]; [done|].
  unfold ascii_eqb. destruct (Ascii.eqb_spec c "/") as [->|].
  - rewrite andb_true_iff. intros [_ H]. by rewrite (IH _ H).
  - rewrite andb_true_iff. intros [Hc H]. by rewrite (portable_char_plain _ Hc), (IH _ H).
Qed.

Lemma portable_plain p : portable_path p = true → plain_text p = true.
Proof. unfold portable_path. rewrite !andb_true_iff. intros [_ H]. by eapply portable_loop_plain. Qed.

Section index.
Context `{JL : JsonLib} `{LW : !JsonLaws JL} `{TL : !TextLib} `{TW : !TextLaws} `{PL : !ParseLib} `{PW : !ParseLaws}.

Lemma encode_entries_build l : ∀ o, o + sum_of inventory_bytes l < 2 ^ 64 →
  encode_entries o l = (build ∘ entry_document <$> entries_at o l, o + sum_of inventory_bytes l).
Proof.
  induction l as [|e l IH]; intros o Ho; cbn [encode_entries entries_at].
  - cbn. by rewrite N.add_0_r.
  - rewrite sum_of_cons in Ho |- *. assert (u64_add o (inventory_bytes e) = o + inventory_bytes e) as ->.
    { unfold u64_add, wrap. apply N.mod_small. lia. }
    rewrite IH by lia. rewrite fmap_cons. f_equal. lia.
Qed.

Lemma inventory_index_build project contract version l : sum_of inventory_bytes l < 2 ^ 64 →
  inventory_index project contract version l =
    build (DObject (index_document project (project_contract_id contract) version (entries_at 0 (sorted_inventory l)))).
Proof.
  intros H. unfold inventory_index. assert (sorted_inventory l ≡ₚ l) as Hp by apply stable_sort_perm.
  rewrite encode_entries_build by (by rewrite (sum_of_perm _ _ _ Hp)). unfold index_document.
  cbn [build fmap list_fmap fst snd]. rewrite N.add_0_l, entries_at_bytes. rewrite <- list_fmap_compose. done.
Qed.

(** ** Reading it *)

Lemma entry_document_fields e : fields (build (entry_document e))
  [("bytes", j_uint (entry_bytes e)); ("offset", j_uint (entry_offset e));
   ("path", j_string (entry_path e)); ("sha256", j_string (entry_sha256 e))].
Proof. by apply fields_j_object. Qed.

Lemma exact_keys_same j l keys : fields j l → list_to_set (C := gset string) l.*1 = list_to_set keys → NoDup l.*1 → NoDup keys →
  exact_keys j keys = true.
Proof.
  intros [Ho Hs Hc Ha] He Hl Hk. unfold exact_keys. rewrite Ho, Hs. cbn [andb].
  assert (l.*1 ≡ₚ keys) as Hp.
  { apply NoDup_Permutation; [done..|]. intros x. rewrite <- !(elem_of_list_to_set (C := gset string)), He. done. }
  rewrite <- (Permutation_length Hp), length_fmap, Nat.eqb_refl. cbn [andb].
  apply List.forallb_forall. intros k Hin%list_elem_of_In. rewrite Hc, assoc_in_keys.
  apply bool_decide_eq_true_2. by rewrite Hp.
Qed.

Lemma member_of_fields j l k v : fields j l → assoc k l = Some v → member_of j k = success v.
Proof. intros H E. unfold member_of. by rewrite (fields_at _ _ H), E. Qed.

Lemma string_of_json_string s : string_of_json (j_string s) = success s.
Proof. unfold string_of_json. by rewrite string_get. Qed.

Lemma unsigned_value_uint n : n < 2 ^ 64 → unsigned_value (j_uint n) = Some n.
Proof. intros H. unfold unsigned_value. rewrite uint_is_unsigned by done. by apply uint_get. Qed.

Lemma parse_entry_document s e rest : loop_ok s → entries_ok (loop_entries s ++ e :: rest) →
  ∃ s', parse_entry s (build (entry_document e)) = success s' ∧ loop_entries s' = loop_entries s ++ [e].
Proof.
  intros [[_ _ _ _ Hsum] Hx Hf Ho Hp] [He Hc Hs Hn Ht]. pose proof (entry_document_fields e) as Hd.
  apply Forall_app in He as [_ He]. apply Forall_cons in He as [(Hpath & Hsha & Hbytes) _].
  assert (entry_offset e = payload_bytes (loop_entries s)) as Hoff.
  { clear -Hc. assert (∀ l o, contiguous o (l ++ e :: rest) → entry_offset e = o + payload_bytes l) as H.
    { unfold payload_bytes. induction l as [|x l IH]; intros o; cbn [app contiguous].
      - intros [-> _]. cbn. lia.
      - rewrite sum_of_cons. intros [_ H]. rewrite (IH _ H). lia. }
    rewrite (H _ _ Hc). lia. }
  assert (payload_bytes (loop_entries s) + entry_bytes e ≤ kMaximumPayloadBytes) as Htotal.
  { clear -Ht. unfold payload_bytes in *. rewrite sum_of_app, sum_of_cons in Ht. lia. }
  assert (kMaximumPayloadBytes < 2 ^ 64) as Hmax by done. assert (kMaximumEntryBytes < 2 ^ 64) as Hmax' by done.
  unfold parse_entry. rewrite (exact_keys_same _ _ entry_keys Hd);
    [|reflexivity|by apply distinct_keys_nodup|repeat constructor; set_solver].
  cbn [unless_refused mbind result_bind].
  rewrite (member_of_fields _ _ "path" _ Hd eq_refl), (member_of_fields _ _ "sha256" _ Hd eq_refl).
  rewrite (member_of_fields _ _ "bytes" _ Hd eq_refl), (member_of_fields _ _ "offset" _ Hd eq_refl). cbn [mbind result_bind].
  rewrite !string_is_string. cbn [andb unless_refused mbind result_bind]. unfold string_of_json. rewrite !string_get.
  cbn [mbind result_bind]. rewrite Hpath, Hsha. cbn [andb]. rewrite !unsigned_value_uint by lia.
  rewrite (proj2 (N.leb_le _ _) Hbytes). cbn [unless_refused mbind result_bind].
  rewrite Ho, Hoff, N.eqb_refl. cbn [unless_refused mbind result_bind].
  assert (bool_decide (previous_path s = "") || unsigned_byte_less (previous_path s) (entry_path e) = true) as ->.
  { rewrite Hp. destruct (last (loop_entries s)) as [y|] eqn:Ey; [|done]. cbn [fmap option_fmap option_map value_or].
    apply orb_true_iff. right. apply last_Some in Ey as [l' El].
    rewrite El, <- app_assoc in Hs. cbn in Hs. clear -Hs.
    induction l' as [|z l' IH]; cbn in Hs; inversion Hs as [|? ? Hs' Hz]; subst; [|by apply IH].
    apply Forall_cons in Hz as [Hz _]. exact Hz. }
  cbn [unless_refused mbind result_bind].
  rewrite fmap_app in Hn. cbn in Hn. apply NoDup_app in Hn as (_ & Hn & _).
  assert (ascii_fold (entry_path e) ∉ folded_paths s) as Hfold.
  { rewrite Hf. intros Hin. apply (Hn _ Hin). left. }
  assert (entry_path e ∉ exact_paths s) as Hexact.
  { rewrite Hx. intros Hin. apply Hfold. rewrite Hf. rewrite list_fmap_compose. by apply list_elem_of_fmap_2. }
  rewrite !bool_decide_false by done. cbn [negb andb unless_refused mbind result_bind].
  assert (u64_add (payload_bytes (loop_entries s)) (entry_bytes e) = payload_bytes (loop_entries s) + entry_bytes e) as ->.
  { unfold u64_add, wrap. apply N.mod_small. lia. }
  rewrite (proj2 (N.leb_le _ _) Htotal). cbn [unless_refused mbind result_bind].
  eexists. split; [reflexivity|]. cbn. by destruct e; cbn in *; subst.
Qed.

Lemma parse_entries_documents l : ∀ s, loop_ok s → entries_ok (loop_entries s ++ l) →
  ∃ s', parse_entries s (build ∘ entry_document <$> l) = success s' ∧ loop_entries s' = loop_entries s ++ l.
Proof.
  induction l as [|e l IH]; intros s Hs Hl.
  - exists s. split; [done|]. by rewrite app_nil_r.
  - destruct (parse_entry_document s e l Hs Hl) as (s1 & H1 & E1).
    destruct (IH s1) as (s2 & H2 & E2).
    + by eapply parse_entry_ok.
    + by rewrite E1, <- app_assoc.
    + exists s2. split; [|by rewrite E2, E1, <- app_assoc]. cbn [fmap list_fmap parse_entries compose].
      rewrite H1. cbn [mbind result_bind]. exact H2.
Qed.

(** The text of a Bundle's index: the inventory's index with its digest. *)
Definition bundle_members (project : ProjectId) (l : list InventoryEntry) : list (string * dom) :=
  ("bundle_digest", DString (inventory_digest_of project ProjectContract.v5 kBundleContractVersion l)) ::
  index_document project "lmdj.project.v5" kBundleContractVersion (entries_at 0 (sorted_inventory l)).

Definition bundle_index_text (project : ProjectId) (l : list InventoryEntry) : string :=
  text (build (DObject (bundle_members project l))).

Lemma offset_bound l e : e ∈ l → ∀ o, contiguous o l → entry_offset e ≤ o + payload_bytes l.
Proof.
  unfold payload_bytes.
  induction 1 as [x l|x y l Hin IH]; intros o; cbn [contiguous]; rewrite sum_of_cons; intros [Hx Hl].
  - rewrite Hx. lia.
  - specialize (IH _ Hl). lia.
Qed.

Lemma entry_printable l e k : entries_ok l → e ∈ l → printable (S k) (entry_document e) = true.
Proof.
  intros [He Hc _ _ Ht] Hin. pose proof (offset_bound _ _ Hin _ Hc) as Ho.
  pose proof (sum_of_in entry_bytes _ _ Hin : entry_bytes e ≤ payload_bytes l) as Hb.
  rewrite Forall_forall in He. destruct (He e Hin) as (Hp & Hs & _).
  unfold entry_document. cbn [printable distinct_keys assoc String.eqb Ascii.eqb Bool.eqb has_value negb andb forallb fst snd].
  unfold kMaximumPayloadBytes in Ht. rewrite (portable_plain _ Hp). rewrite lowercase_valid in Hs.
  destruct (plain_sha256 _ Hs) as [-> _]. rewrite !(proj2 (N.ltb_lt _ _)) by lia. done.
Qed.

Lemma bundle_printable project l : is_valid_uuid (value project) = true → inventory_ok l →
  printable kMaximumJsonContainerDepth (DObject (bundle_members project l)) = true.
Proof.
  intros Hu Hl. pose proof (inventory_entries_ok l Hl) as He. set (es := entries_at 0 (sorted_inventory l)) in *.
  change kMaximumJsonContainerDepth with (S (S 62)). unfold bundle_members, index_document. fold es.
  set (entries := DArray (entry_document <$> es)). assert (printable (S 62) entries = true) as Hp.
  { unfold entries. cbn [printable]. apply List.forallb_forall.
    intros d Hd%list_elem_of_In. apply list_elem_of_fmap in Hd as (e & -> & Hin). by eapply entry_printable. }
  clearbody entries. pose proof (entries_total _ He) as Ht. unfold kMaximumPayloadBytes in Ht.
  cbn [printable distinct_keys assoc String.eqb Ascii.eqb Bool.eqb has_value negb andb forallb fst snd].
  change (printable 63) with (printable (S 62)). rewrite Hp.
  destruct (plain_uuid _ Hu) as [-> _]. unfold inventory_digest_of, digest_of.
  match goal with |- context [hash256_hex_string ?s] => destruct (plain_sha256 (hash256_hex_string s)) as [-> _]; [apply digest_valid|] end.
  rewrite (proj2 (N.ltb_lt _ _)) by lia. done.
Qed.

(** C18: a Project's files can be carried to another workspace.  The index of any
    inventory that respects the limits (portable paths that do not collide when
    case is folded, sizes and counts within the bounds) is accepted when it is
    read, and gives the Project, the digest the inventory has, and one entry for
    each file in the order of their paths, laid out one after the other. *)
Theorem bundle_index_roundtrip project l : is_valid_uuid (value project) = true → inventory_ok l →
  parse_index (bundle_index_text project l) =
    success (MkIndex project (inventory_digest_of project ProjectContract.v5 kBundleContractVersion l)
               kBundleContractVersion (entries_at 0 (sorted_inventory l))).
Proof.
  intros Hu Hl. pose proof (bundle_printable _ _ Hu Hl) as Hp. pose proof (inventory_entries_ok l Hl) as He.
  unfold parse_index, parse_bounded_json, bundle_index_text. rewrite parse_printed by done.
  set (digest := inventory_digest_of project ProjectContract.v5 kBundleContractVersion l).
  set (es := entries_at 0 (sorted_inventory l)) in *.
  assert (fields (build (DObject (bundle_members project l)))
    [("bundle_digest", j_string digest); ("compression", j_string "none");
     ("contract", j_string "lmdj.project-bundle.v1"); ("contract_version", j_string kBundleContractVersion);
     ("entries", j_array (build <$> (entry_document <$> es))); ("project_contract", j_string "lmdj.project.v5");
     ("project_id", j_string (value project)); ("uncompressed_bytes", j_uint (payload_bytes es))]) as Hf.
  { by apply fields_j_object. }
  assert (digest_of (j_erase (build (DObject (bundle_members project l))) "bundle_digest") = digest) as Hdigest.
  { rewrite erase_printed by (by apply distinct_keys_nodup). unfold digest, inventory_digest_of.
    rewrite inventory_index_build; [done|]. pose proof (inventory_total _ Hl). unfold kMaximumPayloadBytes in *. lia. }
  assert (valid_sha256 digest = true) as Hvalid by apply digest_valid.
  set (index := build (DObject (bundle_members project l))) in *. clearbody index.
  assert (index_shape index (text index) = true) as ->.
  { unfold index_shape, member_is, member_test.
    rewrite (exact_keys_same _ _ index_keys Hf);
      [|reflexivity|by apply distinct_keys_nodup|repeat constructor; set_solver].
    rewrite !(fields_at _ _ Hf). cbn [assoc String.eqb Ascii.eqb Bool.eqb].
    rewrite !string_eq, !string_is_string, array_is_array, !bool_decide_true by done. done. }
  cbn [unless_refused mbind result_bind].
  rewrite (member_of_fields _ _ "project_id" _ Hf eq_refl), (member_of_fields _ _ "bundle_digest" _ Hf eq_refl).
  cbn [mbind result_bind]. rewrite string_of_json_string. cbn [mbind result_bind]. rewrite string_of_json_string. cbn [mbind result_bind].
  rewrite Hu, lowercase_valid, Hvalid. cbn [andb unless_refused mbind result_bind].
  rewrite (member_of_fields _ _ "entries" _ Hf eq_refl). cbn [mbind result_bind].
  rewrite array_size, array_items, !length_fmap by apply array_is_array.
  assert (length es = length l) as Hlen.
  { unfold es. rewrite entries_at_length. apply Permutation_length, stable_sort_perm. }
  rewrite Hlen, (proj2 (N.leb_le _ _)) by apply Hl.
  rewrite (proj2 (Nat.eqb_neq _ _)) by (intros E; apply (inventory_some _ Hl); by apply nil_length_inv).
  cbn [negb unless_refused mbind result_bind]. rewrite <- list_fmap_compose.
  destruct (parse_entries_documents es loop_start loop_start_ok He) as (s & Hs & Es).
  rewrite Hs. cbn [mbind result_bind].
  destruct (parse_entries_ok _ _ _ loop_start_ok Hs) as [[_ _ _ Hoff _] _].
  rewrite (member_of_fields _ _ "uncompressed_bytes" _ Hf eq_refl). cbn [mbind result_bind].
  pose proof (entries_total _ He) as Ht. unfold kMaximumPayloadBytes in Ht.
  rewrite unsigned_value_uint by lia. rewrite Hoff, Es. cbn [loop_entries loop_start app].
  rewrite Hdigest, !bool_decide_true by done. cbn [unless_refused mbind result_bind].
  cbn [unless_refused mbind result_bind]. rewrite (member_of_fields _ _ "contract_version" _ Hf eq_refl).
  cbn [mbind result_bind]. rewrite string_of_json_string. cbn [mbind result_bind].
  by destruct project.
Qed.
End index.
