(* ===== verification/BundleStaging.v ===== *)
(** Importing a Bundle: what is staged is what the index says.

    Whatever chunks a caller sends, in whatever order and however the platform
    fails between them, the entries an import session has counted as complete hold
    exactly the bytes their digests name.

    Publishing an imported Bundle.

    A commit publishes only a complete import whose validated Project is the one
    its index names, and only where no Project is; what it reports is that
    Project. *)

From S2P Require Import Prelude Json Foundation Io Text Project Soundset Outcome Journal JsonText JournalFile Bundle BundleTransfer BundleLaws.

(** ** Paths *)

Definition join_prefix (path : string) : string :=
  if bool_decide (last (chars path) = Some "/"%char) then path else path +:+ "/".

Lemma append_assoc (a b c : string) : (a +:+ b) +:+ c = a +:+ (b +:+ c).
Proof. induction a as [|x a IH]; [done|]. exact (f_equal (String x) IH). Qed.

Lemma join_append path name : join path name = join_prefix path +:+ name.
Proof. unfold join, join_prefix. case_bool_decide; [done|]. by rewrite append_assoc. Qed.

Lemma join_inj path a b : join path a = join path b → a = b.
Proof. rewrite !join_append. apply (inj (String.append (join_prefix path))). Qed.

Lemma chars_append a b : chars (a +:+ b) = chars a ++ chars b.
Proof. induction a as [|x a IH]; [done|]. exact (f_equal (cons x) IH). Qed.

Lemma staged_paths root path : join root "index.json" ≠ join (join root "project.lmdj") path.
Proof.
  rewrite (join_append (join root "project.lmdj")), (join_append root "index.json"), (join_append root "project.lmdj").
  set (pre := join_prefix root). unfold join_prefix. rewrite bool_decide_false.
  - rewrite !append_assoc. intros H%(inj (String.append _)). discriminate H.
  - rewrite chars_append. change (chars "project.lmdj") with (chars "project.lmd" ++ ["j"%char]).
    rewrite app_assoc, last_snoc. by intros [=].
Qed.

(** ** The platform *)

(** What staging relies on: a file that was created holds its bytes, an append
    keeps what lies before the given length whatever happens, and one that succeeds
    puts its bytes there; other files keep theirs. *)
Class TreeLaws `{JL : JsonLib} (S : Type) `{SP : !ProjectStoragePlatform S} `{ST : !ProjectStorageTree S} : Prop := {
  create_read (s s' : S) p bytes :
    create_immutable s p bytes = (s', success ()) → read_complete s' p = success bytes;
  create_other (s s' : S) p bytes r q :
    create_immutable s p bytes = (s', r) → q ≠ p → read_complete s' q = read_complete s q;
  append_complete (s s' : S) p n old bytes :
    read_complete s p = success old → n ≤ bytes_size old →
    append_durable s p n bytes = (s', success ()) →
    read_complete s' p = success (take (N.to_nat n) old ++ bytes);
  append_kept (s s' : S) p n old bytes r :
    read_complete s p = success old → n ≤ bytes_size old → append_durable s p n bytes = (s', r) →
    ∃ new, read_complete s' p = success new ∧ n ≤ bytes_size new ∧
           take (N.to_nat n) new = take (N.to_nat n) old;
  append_other (s s' : S) p n bytes r q :
    append_durable s p n bytes = (s', r) → q ≠ p → read_complete s' q = read_complete s q;
  ensure_kept (s s' : S) p r q :
    ensure_directory s p = (s', r) → read_complete s' q = read_complete s q
}.

Section staging.
Context `{JL : JsonLib} `{LW : !JsonLaws JL} `{TL : !TextLib} `{PL : !ParseLib}.
Context {S : Type} `{SP : !ProjectStoragePlatform S} `{ST : !ProjectStorageTree S} `{TW : !TreeLaws S}.

(** ** Operations *)

Lemma stored_end {A} (m : Io S A) (t t' : Transfer (S := S)) r : stored m t = (t', r) →
  ∃ s', m t.1 = (s', r) ∧ t' = (s', t.2).
Proof. unfold stored. destruct (m t.1) as [s' r']. intros [= <- <-]. by eexists. Qed.

Lemma operate_end {A} message (m : Io S A) s s' r : operate message m s = (s', r) →
  ∃ r', m s = (s', r') ∧ r = sanitize message r'.
Proof. unfold operate. destruct (m s) as [s1 r1]. intros [= <- <-]. by eexists. Qed.

Lemma sanitize_success {A} message (r : Result A) a : sanitize message r = success a ↔ r = success a.
Proof. destruct r; split; naive_solver. Qed.

Lemma query_end {A} message (f : S → Result A) s s' r : query message f s = (s', r) →
  s' = s ∧ r = sanitize message (f s).
Proof. unfold query. by intros [= <- <-]. Qed.

(** ** Sessions *)

(** A file of [n] bytes that an append at [n] extends. *)
Definition has_prefix (s : S) (path : string) (n : N) : Prop :=
  ∃ c, read_complete s path = success c ∧ n ≤ bytes_size c.

Definition staged_entry (s : S) (x : Session) (e : BundleEntry) : Prop :=
  ∃ c, read_complete s (join (bundle x) (entry_path e)) = success c ∧
       bytes_size c = entry_bytes e ∧ bytes_digest c = entry_sha256 e.

Record indexed (s : S) (x : Session) (p : ParsedIndex) : Prop := {
  indexed_file : ∃ c, read_complete s (index_path x) = success c ∧ bytes_size c = expected_index_bytes x ∧
                      bytes_digest c = expected_index_sha256 x ∧ parse_index (of_bytes c) = success p;
  indexed_next : next_entry x ≤ N.of_nat (length (index_entries p));
  indexed_done : ∀ i e, index_entries p !! i = Some e → N.of_nat i < next_entry x → staged_entry s x e;
  indexed_current : ∀ e, index_entries p !! N.to_nat (next_entry x) = Some e →
    entry_written x ≤ entry_bytes e ∧
    (entry_written x = 0 ∨ has_prefix s (join (bundle x) (entry_path e)) (entry_written x))
}.

Record session_ok (s : S) (x : Session) : Prop := {
  session_paths : index_path x = join (root x) "index.json" ∧ bundle x = join (root x) "project.lmdj";
  session_bounds : index_written x ≤ expected_index_bytes x ∧ expected_index_bytes x ≤ kMaximumIndexBytes;
  session_prefix : session_index x = None → has_prefix s (index_path x) (index_written x) ∧ next_entry x = 0 ∧ entry_written x = 0;
  session_indexed : ∀ p, session_index x = Some p → indexed s x p
}.

(** The session of [token], with the index that was announced. *)
Definition session_here (token : string) (announced : N * string) (t : Transfer (S := S)) : Prop :=
  ∃ x, sessions t.2 !! token = Some x ∧ session_ok t.1 x ∧
       (expected_index_bytes x, expected_index_sha256 x) = announced.

(** The session is untouched and so are the files it has written. *)
Lemma staged_entry_frame s s' x e : (∀ q, q = join (bundle x) (entry_path e) → read_complete s' q = read_complete s q) →
  staged_entry s x e → staged_entry s' x e.
Proof. intros H (c & Hc & ?). exists c. split; [by rewrite H|done]. Qed.

Lemma bytes_size_nat c : N.to_nat (bytes_size c) = length c.
Proof. unfold bytes_size. by rewrite Nat2N.id. Qed.

Lemma appended_size n old bytes : n ≤ bytes_size old →
  bytes_size (take (N.to_nat n) old ++ bytes) = n + bytes_size bytes.
Proof. unfold bytes_size. intros H. rewrite length_app, length_take. lia. Qed.

Lemma find_session_end token (t t' : Transfer (S := S)) r : find_session token t = (t', r) →
  t' = t ∧ ((∃ x, sessions t.2 !! token = Some x ∧ r = success x) ∨ r = failure session_not_found).
Proof. unfold find_session. intros [= <- <-]. split; [done|]. case_match; naive_solver. Qed.

Lemma put_session_end token x (t t' : Transfer (S := S)) r : put_session token x t = (t', r) →
  t' = (t.1, MkImpl (<[token := x]> (sessions t.2)) (used_tokens t.2)) ∧ r = success ().
Proof. unfold put_session, update. by intros [= <- <-]. Qed.

Lemma session_put token announced x s m used : session_ok s x →
  (expected_index_bytes x, expected_index_sha256 x) = announced →
  session_here token announced (s, MkImpl (<[token := x]> m) used).
Proof. intros H. exists x. split; [apply lookup_insert_eq|done]. Qed.

(** ** The chunks of the index *)

Lemma index_add x (bytes : list ascii) : index_written x ≤ expected_index_bytes x → expected_index_bytes x ≤ kMaximumIndexBytes →
  bytes_size bytes ≤ kMaximumChunkBytes →
  u64_add (index_written x) (bytes_size bytes) = index_written x + bytes_size bytes.
Proof.
  intros. unfold u64_add, wrap. apply N.mod_small. unfold kMaximumIndexBytes, kMaximumChunkBytes in *. lia.
Qed.

Ltac bind_step H := apply io_bind_end in H as [(? & ? & ? & H)|(? & ? & ?)].

Lemma append_index_kept token announced offset bytes final t t' r : session_here token announced t →
  append_index token offset bytes final t = (t', r) → session_here token announced t'.
Proof.
  intros (x & Hx & Hok & Hannounced) H. unfold append_index in H.
  apply io_bind_end in H as [(t1 & y & Hfind & H)|(r1 & Hfind & _)]; apply find_session_end in Hfind as [-> Hfind].
  2: { by exists x. }
  assert (y = x) as -> by naive_solver. clear Hfind.
  apply io_bind_end in H as [(t1 & u & Hd & H)|(r1 & Hd & _)]; apply demand_end in Hd as [-> Hd]; [|by exists x].
  destruct Hd as [[Hvalid _]|Hd]; [|done]. bool_to_prop. clear u.
  match goal with H : has_value (session_index x) = false |- _ => rename H into Hnone end.
  destruct (session_index x) eqn:Eindex; [done|]. clear Hnone.
  destruct Hok as [Hpaths [Hw He] Hprefix _]. destruct (Hprefix Eindex) as ((old & Hold & Hn) & Hnext & Hentry).
  rewrite index_add in * by done. set (n := index_written x) in *.
  apply io_bind_end in H as [(t1 & u & Hs & H)|(r1 & Hs & _)]; apply stored_end in Hs as (s1 & Hs & ->);
    apply operate_end in Hs as (r' & Hs & Er).
  2: { destruct (append_kept _ _ _ _ _ _ _ Hold Hn Hs) as (new & Hnew & Hn' & _). exists x. split_and!; [done| |done].
       split; cbn; [done..| |by rewrite Eindex]. intros _. split_and!; [by exists new|done..]. }
  symmetry in Er. apply sanitize_success in Er as ->. destruct u.
  pose proof (append_complete _ _ _ _ _ _ Hold Hn Hs) as Hread.
  pose proof (appended_size n old bytes Hn) as Hsize. set (content := take _ old ++ bytes) in *.
  apply io_bind_end in H as [(t2 & u & Hput & H)|(r1 & Hput & Hr1)]; apply put_session_end in Hput as [-> Hput];
    [|by destruct (Hr1 _ Hput)].
  cbn [fst snd] in *. set (x' := set_index_written x (n + bytes_size bytes)) in *.
  assert (session_ok s1 x') as Hok'.
  { split; cbn; [done|split; [lia|done]| |by rewrite Eindex]. intros _. split_and!; [|done..].
    exists content. split; [done|]. rewrite Hsize. lia. }
  destruct final; cbn [negb] in H; [|injection H as <- _; by apply session_put].
  apply io_bind_end in H as [(t3 & staged & Hq & H)|(r1 & Hq & _)]; apply stored_end in Hq as (s2 & Hq & ->);
    apply query_end in Hq as [-> Hq]; cbn [fst snd] in *.
  2: { by apply session_put. }
  symmetry in Hq. apply sanitize_success in Hq. cbn in Hq. rewrite Hread in Hq. injection Hq as <-.
  apply io_bind_end in H as [(t3 & u' & Hd & H)|(r1 & Hd & _)]; apply demand_end in Hd as [-> Hd]; [|by apply session_put].
  destruct Hd as [[Hdigest _]|Hd]; [|done]. apply bool_decide_eq_true_1 in Hdigest.
  apply io_bind_end in H as [(t3 & p & Hp & H)|(r1 & Hp & _)].
  2: { unfold pure_result in Hp. injection Hp as <- _. by apply session_put. }
  unfold pure_result in Hp. injection Hp as <- Hp.
  apply io_bind_end in H as [(t4 & u2 & Hput' & H)|(r1 & Hput' & Hr1)]; apply put_session_end in Hput' as [-> Hput'];
    [|by destruct (Hr1 _ Hput')].
  injection H as <- _. cbn [fst snd]. apply session_put; [|done]. split; cbn; [done|split; [lia|done]|done|].
  intros p' [= <-]. split; cbn.
  - exists content. split_and!; [done| |done..]. rewrite Hsize.
    match goal with H : Bool.eqb true _ = true |- _ => apply eqb_prop in H; symmetry in H; apply N.eqb_eq in H; exact H end.
  - rewrite Hnext. lia.
  - intros i e _. rewrite Hnext. lia.
  - intros e _. rewrite Hentry. split; [lia|by left].
Qed.

(** ** The chunks of the entries *)

Lemma entry_add n m (bytes : list ascii) : n ≤ m → m ≤ kMaximumEntryBytes → bytes_size bytes ≤ kMaximumChunkBytes →
  u64_add n (bytes_size bytes) = n + bytes_size bytes.
Proof. intros. unfold u64_add, wrap. apply N.mod_small. unfold kMaximumEntryBytes, kMaximumChunkBytes in *. lia. Qed.

Lemma sorted_paths_distinct l i j e e' : StronglySorted path_lt l → l !! i = Some e → l !! j = Some e' → (i < j)%nat →
  entry_path e ≠ entry_path e'.
Proof.
  intros H. revert i j. induction H as [|x l Hl IH Hx]; intros [|i] [|j] Hi Hj Hlt; try done; try lia.
  - cbn in Hi, Hj. injection Hi as ->. rewrite Forall_forall in Hx.
    pose proof (Hx _ (list_elem_of_lookup_2 _ _ _ Hj)) as Hp. unfold path_lt, unsigned_byte_less in Hp.
    intros E. rewrite E, lex_le_refl in Hp. done.
  - cbn in Hi, Hj. apply (IH i j); [done..|lia].
Qed.

(** Writing the current entry leaves the index and the entries before it. *)
Lemma indexed_frame s s' x p e : indexed s x p →
  index_entries p !! N.to_nat (next_entry x) = Some e →
  index_path x = join (root x) "index.json" → bundle x = join (root x) "project.lmdj" →
  (∀ q, q ≠ join (bundle x) (entry_path e) → read_complete s' q = read_complete s q) →
  ∀ x', index_path x' = index_path x → bundle x' = bundle x → expected_index_bytes x' = expected_index_bytes x →
  expected_index_sha256 x' = expected_index_sha256 x → next_entry x' = next_entry x →
  entry_written x' ≤ entry_bytes e →
  (entry_written x' = 0 ∨ has_prefix s' (join (bundle x) (entry_path e)) (entry_written x')) →
  indexed s' x' p.
Proof.
  intros [(c & Hc & Hsize & Hdigest & Hparse) Hnext Hdone _] He Hpath Hbundle Hframe x' E1 E2 E3 E4 E5 Hw Hp.
  split.
  - exists c. rewrite E1, E3, E4. split_and!; [|done..]. rewrite Hframe; [done|].
    rewrite Hpath, Hbundle. apply staged_paths.
  - by rewrite E5.
  - intros i e' Hi Hlt. rewrite E5 in Hlt. pose proof (Hdone i e' Hi Hlt) as Hs. unfold staged_entry in *. rewrite E2.
    destruct Hs as (c' & Hc' & ?). exists c'. split; [|done]. rewrite Hframe; [done|]. intros Eq%join_inj.
    eapply sorted_paths_distinct; [apply (index_entries_ok p)|exact Hi|exact He|lia|done].
    by eapply index_sound.
  - intros e' He'. rewrite E5, He in He'. injection He' as <-. by rewrite E2.
Qed.
Lemma indexed_same s s' x p : (∀ q, read_complete s' q = read_complete s q) → indexed s x p → indexed s' x p.
Proof.
  intros Hq [(c & Hc & ?) Hnext Hdone Hcurrent]. split; [exists c; by rewrite Hq|done| |].
  - intros i e Hi Hlt. destruct (Hdone i e Hi Hlt) as (c' & Hc' & ?). exists c'. by rewrite Hq.
  - intros e He. destruct (Hcurrent e He) as [? [?|(c' & Hc' & ?)]]; (split; [done|]); [by left|right].
    exists c'. by rewrite Hq.
Qed.

Definition write_chunk (x : Session) (destination : string) (bytes : list ascii) : Io S () :=
  λ s, if entry_written x =? 0 then create_immutable s destination bytes
       else append_durable s destination (entry_written x) bytes.

Lemma write_chunk_end x destination bytes s s' r : write_chunk x destination bytes s = (s', r) →
  (entry_written x = 0 ∨ has_prefix s destination (entry_written x)) →
  (∀ q, q ≠ destination → read_complete s' q = read_complete s q) ∧
  (entry_written x = 0 ∨ has_prefix s' destination (entry_written x)) ∧
  (r = success () → ∃ c, read_complete s' destination = success c ∧
                         bytes_size c = entry_written x + bytes_size bytes).
Proof.
  unfold write_chunk. intros H Hp. destruct (N.eqb_spec (entry_written x) 0) as [E|E].
  - split_and!; [intros q Hq; by eapply create_other|by left|]. intros ->. exists bytes.
    split; [by eapply create_read|]. rewrite E. lia.
  - destruct Hp as [?|(old & Hold & Hn)]; [done|]. split_and!; [intros q Hq; by eapply append_other| |].
    + right. destruct (append_kept _ _ _ _ _ _ _ Hold Hn H) as (new & ? & ? & _). by exists new.
    + intros ->. eexists. split; [by eapply append_complete|]. by apply appended_size.
Qed.

(** A session whose index is known, with another count of what was written. *)
Lemma session_with s (x' : Session) p : session_index x' = Some p → indexed s x' p →
  index_path x' = join (root x') "index.json" → bundle x' = join (root x') "project.lmdj" →
  index_written x' ≤ expected_index_bytes x' → expected_index_bytes x' ≤ kMaximumIndexBytes → session_ok s x'.
Proof.
  intros E H. split; [done|done|by rewrite E|]. rewrite E. by intros p' [= <-].
Qed.

(** The last chunk of an entry is read back and counted. *)
Lemma entry_counted s x p e c : indexed s x p → index_entries p !! N.to_nat (next_entry x) = Some e →
  entry_written x = entry_bytes e → read_complete s (join (bundle x) (entry_path e)) = success c →
  bytes_size c = entry_bytes e → bytes_digest c = entry_sha256 e →
  indexed s (set_entry x (next_entry x + 1) 0) p.
Proof.
  intros [Hfile Hnext Hdone _] He Hw Hc Hsize Hdigest. pose proof (lookup_lt_Some _ _ _ He) as Hlt.
  split; cbn; [done|lia| |].
  - intros i e' Hi Hi'. destruct (decide (N.of_nat i = next_entry x)) as [E|E]; [|apply (Hdone i); [done|lia]].
    assert (i = N.to_nat (next_entry x)) as -> by lia. rewrite He in Hi. injection Hi as <-. by exists c.
  - intros e' _. split; [lia|by left].
Qed.

Lemma append_entry_kept token announced entry_index offset bytes final t t' r : session_here token announced t →
  append_entry token entry_index offset bytes final t = (t', r) → session_here token announced t'.
Proof.
  intros (x & Hx & Hok & Hannounced) H. assert (session_here token announced t) as Hhere by by exists x. unfold append_entry in H.
  apply io_bind_end in H as [(t1 & y & Hfind & H)|(r1 & Hfind & _)]; apply find_session_end in Hfind as [-> Hfind]; [|done].
  assert (y = x) as -> by naive_solver. clear Hfind.
  destruct (session_index x) as [p|] eqn:Eindex; cbn [mbind option_bind] in H; [|by injection H as <- _].
  destruct (index_entries p !! N.to_nat entry_index) as [e|] eqn:Ee; [|by injection H as <- _].
  apply io_bind_end in H as [(t1 & u & Hd & H)|(r1 & Hd & _)]; apply demand_end in Hd as [-> Hd]; [|done].
  destruct Hd as [[Hvalid _]|Hd]; [|done]. bool_to_prop. subst entry_index offset. clear u.
  apply io_bind_end in H as [(t1 & u & Hd & H)|(r1 & Hd & _)]; apply demand_end in Hd as [-> Hd]; [|done].
  destruct Hd as [[Hvalid _]|Hd]; [|done]. clear u.
  destruct Hok as [[Hpath Hbundle] [Hw He] _ Hindexed]. pose proof (Hindexed p Eindex) as Hp.
  destruct (indexed_current _ _ _ Hp e Ee) as [Hew Hprefix].
  assert (entry_bytes e ≤ kMaximumEntryBytes) as Hmax.
  { destruct (indexed_file _ _ _ Hp) as (c & _ & _ & _ & Hparse). apply index_sound in Hparse as [[Heach _ _ _ _] _ _ _].
    rewrite Forall_forall in Heach. apply (Heach e). by eapply list_elem_of_lookup_2. }
  rewrite (entry_add _ (entry_bytes e)) in Hvalid, H by done. bool_to_prop.
  set (destination := join (bundle x) (entry_path e)) in *.
  apply io_bind_end in H as [(t1 & u & Hs & H)|(r1 & Hs & _)]; apply stored_end in Hs as (s1 & Hs & ->);
    apply operate_end in Hs as (r' & Hs & Er); pose proof (λ q, ensure_kept _ _ _ _ q Hs) as Hens; cbn [fst snd] in *.
  2: { exists x. split_and!; [done| |done]. eapply session_with; [done| |done..].
       by eapply indexed_same. }
  clear Hs Er r' u. pose proof (indexed_same _ _ _ _ Hens Hp) as Hp1.
  assert (entry_written x = 0 ∨ has_prefix s1 destination (entry_written x)) as Hprefix1.
  { destruct (indexed_current _ _ _ Hp1 e Ee) as [_ ?]. done. }
  apply io_bind_end in H as [(t1 & u & Hs & H)|(r1 & Hs & _)]; apply stored_end in Hs as (s2 & Hs & ->);
    apply operate_end in Hs as (r' & Hs & Er); cbn [fst snd] in *;
    destruct (write_chunk_end x destination bytes s1 s2 r' Hs Hprefix1) as (Hframe & Hkept & Hdone).
  { destruct u. symmetry in Er. apply sanitize_success in Er as ->. destruct (Hdone eq_refl) as (c & Hc & Hsize).
    set (n := entry_written x + bytes_size bytes) in *.
    apply io_bind_end in H as [(t2 & u & Hput & H)|(r1 & Hput & Hr1)]; apply put_session_end in Hput as [-> Hput];
      [|by destruct (Hr1 _ Hput)]. cbn [fst snd] in *.
    set (x' := set_entry x (next_entry x) n) in *.
    assert (indexed s2 x' p) as Hp2.
    { apply (indexed_frame s1 s2 x p e); try done. right. exists c. split; [done|]. rewrite Hsize. done. }
    assert (session_ok s2 x') as Hok2 by by eapply (session_with s2).
    destruct final; cbn [negb] in H; [|injection H as <- _; by apply session_put].
    apply io_bind_end in H as [(t3 & staged & Hq & H)|(r1 & Hq & _)]; apply stored_end in Hq as (s3 & Hq & ->);
      apply query_end in Hq as [-> Hq]; cbn [fst snd] in *; [|by apply session_put].
    symmetry in Hq. apply sanitize_success in Hq. rewrite Hc in Hq. injection Hq as <-.
    apply io_bind_end in H as [(t3 & u' & Hd & H)|(r1 & Hd & _)]; apply demand_end in Hd as [-> Hd]; [|by apply session_put].
    destruct Hd as [[Hdigest _]|Hd]; [|done]. apply bool_decide_eq_true_1 in Hdigest.
    apply put_session_end in H as [-> _]. cbn [fst snd]. apply session_put; [|done].
    assert (n = entry_bytes e) as En.
    { match goal with H : Bool.eqb true _ = true |- _ => apply eqb_prop in H; symmetry in H; by apply N.eqb_eq in H end. }
    eapply (session_with s2); [done| |done..].
    apply (entry_counted s2 x' p e c); [done|done|done|done|by rewrite Hsize|done]. }
  exists x. split_and!; [done| |done]. eapply session_with; [done| |done..]. by apply (indexed_frame s1 s2 x p e).
Qed.

(** ** An import *)

(** The calls of a caller that sends chunks, with whatever result. *)
Inductive chunk_sent (token : string) (t t' : Transfer (S := S)) : Prop :=
  | index_sent offset bytes final r :
      append_index token offset bytes final t = (t', r) → chunk_sent token t t'
  | entry_sent entry_index offset bytes final r :
      append_entry token entry_index offset bytes final t = (t', r) → chunk_sent token t t'.

Lemma begin_here workspace token index_bytes index_sha256 t t' r :
  begin workspace token index_bytes index_sha256 t = (t', success r) → session_here token (index_bytes, index_sha256) t'.
Proof.
  unfold begin. intros H.
  apply io_bind_success in H as (t1 & u1 & Hd & H). apply demand_end in Hd as [-> _].
  apply io_bind_success in H as (t2 & u2 & Hd & H). apply demand_end in Hd as [-> [[Hbytes _]|Hd]]; [|done].
  apply io_bind_success in H as (t3 & u3 & Hc & H). unfold current in Hc. injection Hc as <- <-.
  apply io_bind_success in H as (t4 & u4 & Hd & H). apply demand_end in Hd as [-> _].
  apply io_bind_success in H as (t5 & u5 & _ & H).
  apply io_bind_success in H as (t6 & u6 & _ & H).
  apply io_bind_success in H as (t7 & u7 & Hs & H).
  apply stored_end in Hs as (s7 & Hs & ->). unfold on_failure in Hs.
  match type of Hs with match ?m with _ => _ end = _ => destruct m as [s8 [u8|e|]] eqn:Es end; [|done..]. injection Hs as <- _.
  apply io_bind_success in Es as (s9 & u9 & _ & Hcreate).
  apply operate_end in Hcreate as (r' & Hcreate & Er). symmetry in Er. apply sanitize_success in Er as ->.
  apply io_bind_success in H as (t8 & u10 & Hput & H). apply put_session_end in Hput as [-> _].
  injection H as <- _. cbn [fst snd]. apply session_put; [|done]. destruct u8. apply create_read in Hcreate.
  apply N.leb_le in Hbytes. split; cbn; [done|split; [lia|done]| |done].
  intros _. split_and!; [|done..]. exists []. split; [done|]. unfold bytes_size. cbn. lia.
Qed.

(** C12: an import counts an entry as staged only when the file is right.  After an
    import has begun, whatever index and entry chunks are sent for it in whatever
    order, accepted, refused or failing in the middle on the platform's side, the
    index the session has read is the one whose length and digest were announced,
    and is a valid one; and every entry the session has counted is a file of its
    staging directory with exactly the length and the digest the index gives it. *)
Theorem staged_entries_exact workspace token index_bytes index_sha256 t t0 r t' :
  begin workspace token index_bytes index_sha256 t = (t0, success r) → rtc (chunk_sent token) t0 t' →
  ∃ x, sessions t'.2 !! token = Some x ∧
    ∀ p, session_index x = Some p →
      index_ok p ∧
      (∃ c, read_complete t'.1 (index_path x) = success c ∧ bytes_size c = index_bytes ∧
            bytes_digest c = index_sha256 ∧ parse_index (of_bytes c) = success p) ∧
      next_entry x ≤ N.of_nat (length (index_entries p)) ∧
      ∀ i e, index_entries p !! i = Some e → N.of_nat i < next_entry x →
        ∃ c, read_complete t'.1 (join (bundle x) (entry_path e)) = success c ∧
             bytes_size c = entry_bytes e ∧ bytes_digest c = entry_sha256 e.
Proof.
  intros Hb%begin_here Hs. assert (session_here token (index_bytes, index_sha256) t') as (x & Hx & Hok & [= E1 E2]).
  { induction Hs as [|t1 t2 t3 [] _ IH]; [done|..]; apply IH;
      [by eapply append_index_kept|by eapply append_entry_kept]. }
  exists x. split; [done|]. intros p Ep. destruct (session_indexed _ _ Hok p Ep) as [Hfile Hnext Hdone _].
  rewrite E1, E2 in Hfile. split_and!; [|done..]. destruct Hfile as (c & _ & _ & _ & Hparse). by eapply index_sound.
Qed.
End staging.

Section commit.
Context `{JL : JsonLib} `{LW : !JsonLaws JL} `{TL : !TextLib} `{PL : !ParseLib}.
Context {S : Type} `{SP : !ProjectStoragePlatform S} `{ST : !ProjectStorageTree S} `{PS : !ProjectStore S} (depth : nat).

(** ** What every operation but the publication keeps *)

(** The operations a commit of the session [x] is made of, its publication apart:
    of what is stored it only removes the staging area of the session. *)
Record stable (x : Session) (K : S → Prop) : Prop := {
  stable_take s p : K s → K (take_writer s p).1;
  stable_release s p : K s → K (release_writer s p);
  stable_ensure s p : K s → K (ensure_directory s p).1;
  stable_remove s : K s → K (remove_tree s (root x)).1;
  stable_load s p : K s → K (load s p).1
}.

Section session.
Context (x : Session) (K : S → Prop) (HK : stable x K).

Definition keeps {T A} (view : T → S) (m : Io T A) : Prop := ∀ t t' r, m t = (t', r) → K (view t) → K (view t').

Lemma keeps_bind {T A B} view (m : Io T A) (f : A → Io T B) :
  keeps view m → (∀ a, keeps view (f a)) → keeps view (m ≫= f).
Proof.
  intros Hm Hf t t' r H Ht. apply io_bind_end in H as [(t1 & a & H1 & H2)|(r1 & H1 & _)].
  - eapply Hf; [exact H2|]. by eapply Hm.
  - by eapply Hm.
Qed.

Lemma keeps_same {T A} view (m : Io T A) : (∀ t, (m t).1 = t) → keeps view m.
Proof. intros H t t' r E. specialize (H t). rewrite E in H. cbn in H. by subst. Qed.

Lemma keeps_demand {T} view b e : keeps view (demand (T := T) b e).
Proof. by apply keeps_same. Qed.
Lemma keeps_stop {T A} view e : keeps view (stop (T := T) (A := A) e).
Proof. by apply keeps_same. Qed.
Lemma keeps_ret {T A} view (a : A) : keeps view (mret a : Io T A).
Proof. by apply keeps_same. Qed.
Lemma keeps_pure {T A} view (r : Result A) : keeps view (pure_result (T := T) r).
Proof. by apply keeps_same. Qed.
Lemma keeps_observe {A} (f : S → Result A) : keeps id (observe f).
Proof. by apply keeps_same. Qed.
Lemma keeps_query {A} message (f : S → Result A) : keeps id (query message f).
Proof. by apply keeps_same. Qed.

Lemma keeps_operate {A} message (m : Io S A) : (∀ s, K s → K (m s).1) → keeps id (operate message m).
Proof.
  intros Hm s s' r H Hs. apply operate_end in H as (r' & H & _). specialize (Hm s Hs). by rewrite H in Hm.
Qed.

Lemma keeps_attempt {T A} view (m : Io T A) : keeps view m → keeps view (attempt m).
Proof. intros Hm t t' r. unfold attempt. destruct (m t) as [t1 r1] eqn:E. intros [= <- _]. by eapply Hm. Qed.

Lemma keeps_finally {T A} view final (m : Io T A) :
  (∀ t, K (view t) → K (view (final t))) → keeps view m → keeps view (finally final m).
Proof.
  intros Hf Hm t t' r. unfold finally. destruct (m t) as [t1 r1] eqn:E. intros [= <- _] Ht.
  apply Hf. by eapply Hm.
Qed.

Lemma keeps_on_failure {T A} view handler (m : Io T A) :
  (∀ t, K (view t) → K (view (handler t))) → keeps view m → keeps view (on_failure handler m).
Proof.
  intros Hf Hm t t' r. unfold on_failure. destruct (m t) as [t1 [a|e|]] eqn:E; intros [= <- _] Ht.
  - by eapply Hm.
  - apply Hf. by eapply Hm.
  - by eapply Hm.
Qed.

Lemma keeps_stored {A} (m : Io S A) : keeps id m → keeps fst (stored m).
Proof. intros Hm t t' r H Ht. apply stored_end in H as (s' & H & ->). cbn. by eapply Hm. Qed.

Lemma keeps_map {A B} (f : Result A → Result B) (m : Io S A) : keeps id m → keeps id (map_result f m).
Proof. intros Hm s s' r. unfold map_result. destruct (m s) as [s1 r1] eqn:E. intros [= <- _]. by eapply Hm. Qed.

Lemma stable_drop s : K s → K (drop_staging (root x) s).
Proof. intros H. unfold drop_staging. by apply (stable_remove x K HK), (stable_release x K HK). Qed.

Lemma stable_close (t : Transfer (S := S)) : K t.1 → K (close_session x t).1.
Proof. apply stable_drop. Qed.

Lemma summarize_keeps path version purpose : keeps id (summarize_project depth path version purpose).
Proof.
  unfold summarize_project. apply keeps_bind.
  { apply keeps_attempt. intros s s' r H Hs. pose proof (stable_take x K HK s path Hs) as Ht. by rewrite H in Ht. }
  intros leased. apply keeps_bind.
  { destruct leased; [apply keeps_pure|apply keeps_demand|apply keeps_pure]. }
  intros _. apply keeps_finally.
  { intros s Hs. case_match; [done|]. by apply (stable_release x K HK). }
  apply keeps_bind; [apply keeps_operate; intros s Hs; by apply (stable_load x K HK)|]. intros state.
  destruct (first_pattern state); [|apply keeps_stop].
  apply keeps_bind; [apply keeps_observe|intros; apply keeps_ret].
Qed.

Lemma check_keeps : keeps id (check_staged depth x).
Proof.
  unfold check_staged. destruct (session_index x); [|apply keeps_stop].
  apply keeps_bind; [apply keeps_demand|]. intros _. apply keeps_bind; [apply summarize_keeps|]. intros staged.
  apply keeps_bind; [apply keeps_demand|]. intros _.
  apply keeps_bind; [apply keeps_operate; intros s Hs; by apply (stable_ensure x K HK)|]. intros; apply keeps_ret.
Qed.

Lemma existing_keeps destination p : keeps id (existing_project depth destination p).
Proof.
  unfold existing_project. apply keeps_bind; [apply keeps_map, summarize_keeps|]. intros existing.
  apply keeps_bind; [apply keeps_demand|intros; apply keeps_ret].
Qed.

(** ** Verified imports *)

(** The summary of what is staged is that of the index. *)
Definition verified (p : ParsedIndex) (summary : LocalProjectSummary) : Prop :=
  session_index x = Some p ∧ next_entry x = N.of_nat (length (index_entries p)) ∧ entry_written x = 0 ∧
  summary_project summary = index_project p ∧ bundle_digest summary = index_digest p.

Lemma check_staged_success s s' staged p : check_staged depth x s = (s', success (staged, p)) → verified p staged.
Proof.
  unfold check_staged, verified. destruct (session_index x) as [q|]; [|done]. intros H.
  apply io_bind_success in H as (s1 & u1 & Hd & H). apply demand_end in Hd as [-> [[Hc _]|Hd]]; [|done].
  apply io_bind_success in H as (s2 & summary & _ & H).
  apply io_bind_success in H as (s3 & u3 & Hd & H). apply demand_end in Hd as [-> [[Hm _]|Hd]]; [|done].
  apply io_bind_success in H as (s4 & u4 & _ & H). injection H as _ <- <-. by bool_to_prop.
Qed.

(** A step of a commit: one that fails ends the session. *)
Lemma guarded_end {A} (m : Io S A) (t t' : Transfer (S := S)) r :
  on_failure (close_session x) (stored m) t = (t', r) →
  ∃ s', m t.1 = (s', r) ∧ t' = match r with failure _ => close_session x (s', t.2) | _ => (s', t.2) end.
Proof.
  unfold on_failure, stored. destruct (m t.1) as [s' [a|e|]]; intros [= <- <-]; by eexists.
Qed.

Lemma existing_success destination p s s' summary :
  existing_project depth destination p s = (s', success summary) → bundle_digest summary = index_digest p.
Proof.
  unfold existing_project. intros H.
  apply io_bind_success in H as (s1 & existing & _ & H).
  apply io_bind_success in H as (s2 & u & Hd & H). apply demand_end in Hd as [-> [[Hd _]|Hd]]; [|done].
  injection H as _ <-. by apply bool_decide_eq_true_1 in Hd.
Qed.

(** What the publication of the staged directory leaves, with the leases given back. *)
Definition published (destination : string) (s : S) : S :=
  (remove_tree (publish_directory_if_absent (release_writer s (root x)) (bundle x) destination).1 (root x)).1.

(** What a commit that found its session may do. *)
Record commit_end (t t' : Transfer (S := S)) (r : Result LocalProjectSummary) : Prop := {
  commit_reports : ∀ summary, r = success summary →
    ∃ p staged, verified p staged ∧ bundle_digest summary = index_digest p;
  commit_publishes : K t'.1 ∨
    ∃ p staged s, let destination := project_directory (workspace x) (index_project p) in
      verified p staged ∧ K s ∧ directory_exists s destination = success false ∧
      t'.1 = release_writer (published destination s) destination;
  commit_closes : r ≠ thrown → sessions t'.2 = delete (session_token x) (sessions t.2)
}.

Lemma take_kept message path (s s' : S) r : operate message (λ s, take_writer s path) s = (s', r) → K s → K s'.
Proof. apply (keeps_operate message (λ s, take_writer s path) (λ s, stable_take x K HK s path)). Qed.

(** The steps under the lease of the destination. *)
Definition destination_steps (p : ParsedIndex) (staged : LocalProjectSummary) :
    Io (Transfer (S := S)) LocalProjectSummary :=
  let destination := project_directory (workspace x) (index_project p) in
  found ← on_failure (close_session x)
       (stored (query "Local Project destination could not be inspected"
          (λ s, directory_exists s destination)));
  if found : bool then
    summary ← on_failure (close_session x) (stored (existing_project depth destination p));
    update (close_session x);; mret summary
  else publish_staged x destination;; mret staged.

(** Their end, before that lease is given back. *)
Definition steps_end (p : ParsedIndex) (s : S) (u : Impl) (t' : Transfer (S := S))
    (r : Result LocalProjectSummary) : Prop :=
  let destination := project_directory (workspace x) (index_project p) in
  (∀ summary, r = success summary → bundle_digest summary = index_digest p) ∧
  (K t'.1 ∨ directory_exists s destination = success false ∧ t'.1 = published destination s) ∧
  (r ≠ thrown → sessions t'.2 = delete (session_token x) (sessions u)).

(** A step of the commit that stops it. *)
Lemma stopped_end {A} p s u (m : Io S A) t' r r' : K s → keeps id m →
  on_failure (close_session x) (stored m) (s, u) = (t', r') →
  (∃ e, r' = failure e ∧ r = failure e) ∨ r' = thrown ∧ r = thrown → steps_end p s u t' r.
Proof.
  intros Hs Hm H Hr. apply guarded_end in H as (s1 & H & E). pose proof (Hm _ _ _ H Hs) as Hk.
  destruct Hr as [(e & -> & ->)|[-> ->]]; subst t'; (split_and!; [done|left|done]); [by apply stable_close|done].
Qed.

Lemma publish_end p staged s u t' r : bundle_digest staged = index_digest p →
  let destination := project_directory (workspace x) (index_project p) in
  directory_exists s destination = success false →
  (publish_staged x destination;; mret staged) (s, u) = (t', r) → steps_end p s u t' r.
Proof.
  intros Hd destination Hx H.
  assert (∀ t2 r2, publish_staged x destination (s, u) = (t2, r2) →
            t2.1 = published destination s ∧ sessions t2.2 = delete (session_token x) (sessions u)) as Hpub.
  { intros t2 r2. unfold publish_staged, finally, stored, operate, published. cbn [fst snd].
    destruct (publish_directory_if_absent _ _ _) as [s2 r3]. by intros [= <- _]. }
  split_and!.
  - intros summary ->. apply io_bind_success in H as (t2 & w & _ & H). by injection H as _ <-.
  - right. split; [done|].
    apply io_bind_end in H as [(t2 & w & Hp & H)|(r2 & Hp & _)]; [injection H as <- _|]; by eapply Hpub.
  - intros _. apply io_bind_end in H as [(t2 & w & Hp & H)|(r2 & Hp & _)]; [injection H as <- _|]; by eapply Hpub.
Qed.

Lemma destination_end p staged s u t' r : verified p staged → K s →
  destination_steps p staged (s, u) = (t', r) → steps_end p s u t' r.
Proof.
  intros Hv Hs H. unfold destination_steps in H. apply io_bind_cases in H as [(t1 & found & Hq & H)|Hstop].
  2: { destruct Hstop as [(e & Hq & Hr)|[Hq Hr]]; (eapply stopped_end; [done| |exact Hq|naive_solver]); apply keeps_query. }
  apply guarded_end in Hq as (s1 & Hq & ->). apply query_end in Hq as [-> Hq]. symmetry in Hq. apply sanitize_success in Hq.
  destruct found.
  - apply io_bind_cases in H as [(t2 & summary & He & H)|Hstop].
    2: { destruct Hstop as [(e & He & Hr)|[He Hr]];
         (eapply stopped_end; [done| |exact He|naive_solver]); apply existing_keeps. }
    apply guarded_end in He as (s2 & He & ->). pose proof (existing_success _ _ _ _ _ He) as Hd.
    pose proof (existing_keeps _ _ _ _ _ He Hs) as Hk. unfold update in H. cbn in H. injection H as <- <-.
    split_and!; [by intros ? [= <-]|left; by apply stable_close|done].
  - eapply publish_end; [by destruct Hv as (_ & _ & _ & _ & ?)|exact Hq|exact H].
Qed.

(** A commit that stops before the destination is leased. *)
Lemma stopped_commit {A} s u (m : Io S A) t t' r : K s → keeps id m → sessions t.2 = sessions u →
  (∃ e, on_failure (close_session x) (stored m) (s, u) = (t', failure e) ∧ r = failure e) ∨
  on_failure (close_session x) (stored m) (s, u) = (t', thrown) ∧ r = thrown → commit_end t t' r.
Proof.
  intros Hs Hm Hu H.
  assert (∃ r', on_failure (close_session x) (stored m) (s, u) = (t', r') ∧
            ((∃ e, r' = failure e ∧ r = failure e) ∨ r' = thrown ∧ r = thrown)) as (r' & H' & Hr) by naive_solver.
  apply guarded_end in H' as (s1 & H' & E). pose proof (Hm _ _ _ H' Hs) as Hk.
  destruct Hr as [(e & -> & ->)|[-> ->]]; subst t'; (split; [done|left|]);
    [by apply stable_close|cbn; by rewrite Hu|done|done].
Qed.

(** A commit under the lease of the destination. *)
Lemma released_end p staged s u t t' r : verified p staged → K s → sessions t.2 = sessions u →
  finally (λ t, (release_writer t.1 (project_directory (workspace x) (index_project p)), t.2))
    (destination_steps p staged) (s, u) = (t', r) → commit_end t t' r.
Proof.
  intros Hv Hs Hu H. unfold finally in H. destruct (destination_steps p staged (s, u)) as [t1 r1] eqn:E.
  injection H as <- <-. destruct (destination_end _ _ _ _ _ _ Hv Hs E) as (Hr & Hk & Hx). split.
  - intros summary Hsum. exists p, staged. eauto.
  - cbn. destruct Hk as [Hk|[Hd ->]]; [left; by apply (stable_release x K HK)|right; by exists p, staged, s].
  - cbn. rewrite Hu. exact Hx.
Qed.

End session.

End commit.
