(* ===== verification/BundleRuns.v ===== *)
(** An import in memory.

    A platform that keeps its files in a map, and the import of a Bundle of two
    files on it, from the first chunk of the index to the commit: witnesses of the
    theorems on Bundles. *)

From S2P Require Import Prelude Json Foundation Io Text Project Soundset Outcome Journal JsonText JournalFile MapLib Bundle BundleTransfer BundleLaws BundleStaging.

#[local] Existing Instances map_lib map_text map_parse.

(** ** Files in memory *)

Abbreviation Tree := (gmap string (list ascii)).

Definition missing (path : string) : Error := MkError _ not_found "no file" (j_object [("path", j_string path)]).

Definition tree_file (s : Tree) (path : string) : Result (list ascii) :=
  match s !! path with Some bytes => success bytes | None => failure (missing path) end.

(** What lies below [directory]: the rest of each path. *)
Definition paths_below (s : Tree) (directory : string) : list (list ascii) :=
  let n := S (String.length directory) in
  (λ p, drop n (chars p.1)) <$> filter (λ p, String.prefix (directory +:+ "/") p.1 = true) (map_to_list s).

Definition is_name (l : list ascii) : bool := negb (existsb (λ c, ascii_eqb c "/") l).

(** The first name of a path of several. *)
Fixpoint first_name (l : list ascii) : option (list ascii) :=
  match l with
  | [] => None
  | c :: l' => if ascii_eqb c "/" then Some [] else first_name l' ≫= λ r, Some (c :: r)
  end.

Definition moved (source target path : string) : string :=
  if String.prefix (source +:+ "/") path
  then target +:+ of_bytes (drop (String.length source) (chars path)) else path.

#[local] Instance tree_files : ProjectStoragePlatform Tree := {|
  acquire_writer _ _ := success ();
  exists_ s path := success (has_value (s !! path));
  byte_length s path := bytes ← tree_file s path; success (bytes_size bytes);
  read_complete := tree_file;
  create_immutable s path bytes :=
    match s !! path with
    | Some _ => (s, failure (plain_error invalid_argument "exists"))
    | None => (<[path := bytes]> s, success ())
    end;
  append_durable s path valid bytes :=
    match s !! path with
    | Some old => (<[path := take (N.to_nat valid) old ++ bytes]> s, success ())
    | None => (s, failure (missing path))
    end;
  remove s path :=
    match s !! path with Some _ => (delete path s, success ()) | None => (s, failure (missing path)) end;
  list_names s directory := success (of_bytes <$> filter (λ l, is_name l = true) (paths_below s directory));
  directory_exists s directory := success (negb (is_empty (paths_below s directory)));
  validate_managed_tree _ _ := success ();
  text_reader := None;
  layout_validator := None
|}.

#[local] Instance tree_directories : ProjectStorageTree Tree := {|
  take_writer s _ := (s, success ());
  release_writer s _ := s;
  ensure_directory s _ := (s, success ());
  list_directories s directory := success (of_bytes <$> remove_dups (omap first_name (paths_below s directory)));
  remove_tree s path := (filter (λ p, String.prefix (path +:+ "/") p.1 = false) s, success ());
  publish_directory_if_absent s source target :=
    (list_to_map ((λ p, (moved source target p.1, p.2)) <$> map_to_list s), success ());
  range_reader := None
|}.

#[local] Instance tree_laws : TreeLaws Tree.
Proof.
  split; cbn [create_immutable append_durable ensure_directory read_complete tree_files tree_directories];
    unfold tree_file.
  - intros s s' p bytes H. destruct (s !! p); [done|]. injection H as <-. by rewrite lookup_insert_eq.
  - intros s s' p bytes r q H Hq. destruct (s !! p); injection H as <- _; [done|]. by rewrite lookup_insert_ne.
  - intros s s' p n old bytes Hold _ H. destruct (s !! p) as [o|]; [|done]. injection Hold as ->. injection H as <-.
    by rewrite lookup_insert_eq.
  - intros s s' p n old bytes r Hold Hn H. destruct (s !! p) as [o|]; [|done]. injection Hold as ->. injection H as <- _.
    rewrite lookup_insert_eq. eexists. split_and!; [done|rewrite appended_size; [lia|done]|].
    rewrite take_app_le; [by rewrite take_idemp|]. unfold bytes_size in Hn. rewrite length_take. lia.
  - intros s s' p n bytes r q H Hq. destruct (s !! p); injection H as <- _; [|done]. by rewrite lookup_insert_ne.
  - intros s s' p r q H. by injection H as <- _.
Qed.

(** ** A Project and its store *)

Definition project_text : string := "00000000-0000-4000-8000-0000000000aa".
Definition other_text : string := "00000000-0000-4000-8000-0000000000bb".
Definition token_text : string := "00000000-0000-4000-8000-0000000000cc".
Definition pattern_text : string := "00000000-0000-4000-8000-0000000000dd".

Definition imported : ProjectState :=
  MkProjectState ProjectContract.v5 (MkId project_text) 7 120 false 50 empty_banks ∅
    {[ MkId pattern_text := MkPattern (MkId pattern_text) 1 [] ]} ∅ (replicate 16 None).

(** Whatever has a manifest is that Project. *)
#[local] Instance tree_store : ProjectStore Tree := {|
  load s path := (s, if has_value (s !! join path "manifest.json") then success imported else failure (missing path));
  create s _ _ := (s, success ());
  inspect_committed s _ := (s, success imported);
  read_active_performance s path := (s, failure (missing path))
|}.

(** ** Its Bundle *)

Definition manifest_bytes : list ascii := chars "{}".
Definition wave_bytes : list ascii := chars "RIFF".

Definition bundle_files : list InventoryEntry :=
  [MkInventory "manifest.json" (bytes_size manifest_bytes) (bytes_digest manifest_bytes);
   MkInventory "assets/kick.wav" (bytes_size wave_bytes) (bytes_digest wave_bytes)].

Definition index_text : string := bundle_index_text (MkId project_text) bundle_files.

Definition bundle_index : ParsedIndex :=
  MkIndex (MkId project_text)
    (inventory_digest_of (MkId project_text) ProjectContract.v5 kBundleContractVersion bundle_files)
    kBundleContractVersion (entries_at 0 (sorted_inventory bundle_files)).

Definition importable (e : InventoryEntry) : bool :=
  portable_path (inventory_path e) && lowercase_sha256 (inventory_digest e) && (inventory_bytes e <=? kMaximumEntryBytes).

Lemma bundle_files_ok : inventory_ok bundle_files.
Proof.
  split; [|by apply (bool_decide_unpack (NoDup (ascii_fold ∘ inventory_path <$> bundle_files)))|by vm_compute|done|by vm_compute].
  assert (forallb importable bundle_files = true) as H by (vm_compute; reflexivity).
  apply Forall_forall. intros e He%list_elem_of_In. eapply List.forallb_forall in H; [|exact He].
  unfold importable in H. rewrite !andb_true_iff in H. destruct H as [[? ?] ?%N.leb_le]. done.
Qed.

Lemma bundle_index_roundtrip_witness : parse_index index_text = success bundle_index.
Proof. apply bundle_index_roundtrip; [reflexivity|apply bundle_files_ok]. Defined.

(** ** The import *)

Definition workspace_path : string := "/w".

(** Another Project is there already. *)
Definition other_manifest : string := join (project_directory workspace_path (MkId other_text)) "manifest.json".
Definition before : Transfer (S := Tree) := ({[ other_manifest := manifest_bytes ]}, MkImpl ∅ ∅).

Definition index_bytes : list ascii := chars index_text.

Definition begun : Transfer (S := Tree) * Result BundleImportSession :=
  begin workspace_path token_text (bytes_size index_bytes) (bytes_digest index_bytes) before.
Definition half : nat := 100.
Definition chunk1 := append_index token_text 0 (take half index_bytes) false begun.1.
Definition chunk2 := append_index token_text (N.of_nat half) (drop half index_bytes) true chunk1.1.
(** The canonical order puts the asset first. *)
Definition chunk3 := append_entry token_text 0 0 wave_bytes true chunk2.1.
(** A chunk that is refused. *)
Definition chunk4 := append_entry token_text 1 1 manifest_bytes true chunk3.1.
Definition chunk5 := append_entry token_text 1 0 manifest_bytes true chunk4.1.

#[local] Strategy expand [begun chunk1 chunk2 chunk3 chunk4 chunk5].

Definition succeeded {A} (r : Result A) : bool := match r with success _ => true | _ => false end.

Lemma import_runs :
  (succeeded begun.2, succeeded chunk1.2, succeeded chunk2.2, succeeded chunk3.2, succeeded chunk4.2, succeeded chunk5.2)
  = (true, true, true, true, false, true).
Proof. vm_compute. reflexivity. Qed.

Lemma staged_entries_exact_witness : ∃ x, sessions chunk5.1.2 !! token_text = Some x ∧
  ∀ p, session_index x = Some p →
    index_ok p ∧
    (∃ c, read_complete chunk5.1.1 (index_path x) = success c ∧ bytes_size c = bytes_size index_bytes ∧
          bytes_digest c = bytes_digest index_bytes ∧ parse_index (of_bytes c) = success p) ∧
    next_entry x ≤ N.of_nat (length (index_entries p)) ∧
    ∀ i e, index_entries p !! i = Some e → N.of_nat i < next_entry x →
      ∃ c, read_complete chunk5.1.1 (join (bundle x) (entry_path e)) = success c ∧
           bytes_size c = entry_bytes e ∧ bytes_digest c = entry_sha256 e.
Proof.
  set (r := MkImportSession token_text (bytes_size index_bytes)).
  assert (begun.2 = success r) as Hr by (vm_cast_no_check (eq_refl begun.2)).
  eapply (staged_entries_exact workspace_path token_text (bytes_size index_bytes) (bytes_digest index_bytes) before begun.1 r).
  - rewrite <- Hr. exact (surjective_pairing begun).
  - apply (rtc_l _ _ chunk1.1); [exact (index_sent _ _ _ _ _ _ _ (surjective_pairing chunk1))|].
    apply (rtc_l _ _ chunk2.1); [exact (index_sent _ _ _ _ _ _ _ (surjective_pairing chunk2))|].
    apply (rtc_l _ _ chunk3.1); [exact (entry_sent _ _ _ _ _ _ _ _ (surjective_pairing chunk3))|].
    apply (rtc_l _ _ chunk4.1); [exact (entry_sent _ _ _ _ _ _ _ _ (surjective_pairing chunk4))|].
    apply (rtc_l _ _ chunk5.1); [exact (entry_sent _ _ _ _ _ _ _ _ (surjective_pairing chunk5))|]. apply rtc_refl.
Defined.

Definition committed : Transfer (S := Tree) * Result LocalProjectSummary := commit 3 token_text chunk5.1.

#[local] Strategy expand [committed].

Definition imported_manifest : string := join (project_directory workspace_path (MkId project_text)) "manifest.json".

(** The published Project is there, the staging area is not, and the other Project is. *)
Lemma import_published :
  (succeeded committed.2, has_value (committed.1.1 !! imported_manifest), size committed.1.1,
   has_value (committed.1.1 !! other_manifest)) = (true, true, 3%nat, true).
Proof. vm_compute. reflexivity. Qed.

Definition the_session : Session :=
  MkSession workspace_path (join (staging_root workspace_path) token_text)
    (join (join (staging_root workspace_path) token_text) "project.lmdj")
    (join (join (staging_root workspace_path) token_text) "index.json") token_text
    (bytes_size index_bytes) (bytes_digest index_bytes) (bytes_size index_bytes) (Some bundle_index) 2 0.

Definition other_kept (s : Tree) : Prop := s !! other_manifest = Some manifest_bytes.

Lemma other_stable : stable the_session other_kept.
Proof.
  split; cbn [take_writer release_writer ensure_directory remove_tree tree_directories load tree_store fst];
    try (intros; assumption).
  intros s H. unfold other_kept in *. apply map_lookup_filter_Some. split; [exact H|by vm_compute].
Qed.

