(* ===== verification/Cooker.v ===== *)
(** The cooker: from a Project's Pattern to what the runtime plays.

    Models packages/project-cooker: runtime_snapshot.hpp (data) and
    project_cooker.cpp ([resolve_voice_dsp] in both builds, [resolve_pad_playback],
    [resolve_playback] and [cook]).

    A [std::shared_ptr<const PcmSample>] is the sample it points to.  The artifact
    resolver is a callback of the host: a function, [None] when it is empty.  The
    linear gain is a [float] computed by the C++ library ([std::pow], narrowed);
    its type, its value for a gain in millidecibels and [std::isfinite] are
    parameters. *)

From S2P Require Import Prelude Json Foundation Text Project Playback Sequence Wav Analysis Sha256.

(** Conversions to narrow integers. *)
Definition to_u8 (v : Z) : N := Z.to_N (v mod 2 ^ 8).
Definition to_u16 (v : Z) : N := Z.to_N (v mod 2 ^ 16).
Definition to_u32 (v : Z) : N := Z.to_N (v mod 2 ^ 32).
Definition to_int8 (v : Z) : Z :=
  let u := (v mod 2 ^ 8)%Z in if (u <? 2 ^ 7)%Z then u else (u - 2 ^ 8)%Z.

(** ** Data *)

Record ResolvedVoiceDsp := MkVoiceDsp {
  loop_start_offset : N;
  dsp_loop_crossfade_frames : N;
  dsp_pitch_cents : Z;
  dsp_pan : Z;
  dsp_flags : N;
  attack_frames : N;
  release_frames : N;
  dsp_tone : Z;
  eq_flags : N;
  eq_low_freq_hz : N;
  eq_low_gain_millidb : Z;
  eq_mid_freq_hz : N;
  eq_mid_gain_millidb : Z;
  eq_mid_q_milli : N;
  eq_high_freq_hz : N;
  eq_high_gain_millidb : Z
}.

#[export] Instance ResolvedVoiceDsp_eq_dec : EqDecision ResolvedVoiceDsp.
Proof. solve_decision. Defined.

(** [ResolvedVoiceDsp{}], and [is_neutral]. *)
Definition neutral_dsp : ResolvedVoiceDsp := MkVoiceDsp 0 0 0 0 0 0 0 0 0 0 0 0 0 0 0 0.
Definition is_neutral (dsp : ResolvedVoiceDsp) : bool := bool_decide (dsp = neutral_dsp).

Definition kReverse : N := 0x01.
Definition kPingPong : N := 0x02.
Definition kEqLow : N := 0x01.
Definition kEqLowCut : N := 0x02.
Definition kEqMid : N := 0x04.
Definition kEqHigh : N := 0x08.
Definition kEqHighCut : N := 0x10.

Section cooker.
Context `{JL : JsonLib}.

(** [float], [static_cast<float>(std::pow(10.0, v / 20000.0))] and
    [std::isfinite]. *)
Context {float : Type} (linear_gain_of : Z → float) (isfinite : float → bool).

Record ResolvedPlayback := MkResolvedPlayback {
  resolved_start_frame : N;
  resolved_end_frame : N;
  resolved_trigger_mode : TriggerMode;
  linear_gain : float;
  resolved_muted : bool;
  dsp : ResolvedVoiceDsp
}.

Record ResolvedEvent := MkResolvedEvent {
  resolved_slot : PadSlotId;
  resolved_onset_tick : N;
  resolved_duration_tick : N;
  resolved_velocity : N;
  resolved_sample : PcmSample
}.

Record ResolvedPad := MkResolvedPad {
  resolved_pad_slot : PadSlotId;
  resolved_artifact : ArtifactRef;
  resolved_pad_sample : PcmSample;
  resolved_playback : ResolvedPlayback
}.

Record RuntimeSnapshot := MkRuntimeSnapshot {
  snapshot_project_id : ProjectId;
  snapshot_pattern_id : PatternId;
  project_revision : N;
  snapshot_bpm : N;
  snapshot_bars : N;
  ppq : N;
  loop_length_ticks : N;
  pads : list ResolvedPad;
  resolved_events : list ResolvedEvent
}.

Definition refused_playback {A} (m : string) : Result A := failure (plain_error invalid_argument m).

(** ** Voice settings *)

(** What both builds compute first. *)
Definition dsp_loop_start (p : PadPlayback) (source_rate runtime_start runtime_end : N) : N :=
  clamp (u64_mul (value_or (loop_start_frame p) (trim_start_frame p)) 48000 / source_rate)
    runtime_start (u64_sub runtime_end 1).

Definition dsp_crossfade (p : PadPlayback) (source_rate runtime_start runtime_end : N) : N :=
  let loop_length := u64_sub runtime_end (dsp_loop_start p source_rate runtime_start runtime_end) in
  N.min (u64_mul (loop_crossfade_frames p) 48000 / source_rate) (loop_length / 2).

Definition dsp_loop_offset (p : PadPlayback) (source_rate runtime_start runtime_end : N) : N :=
  wrap 32 (u64_sub (dsp_loop_start p source_rate runtime_start runtime_end) runtime_start).

Definition resolved_tone (p : PadPlayback) : Z :=
  if (-2 <=? tone p)%Z && (tone p <=? 2)%Z then 0%Z else to_int8 (tone p).

Definition resolved_release_ms (p : PadPlayback) : Z :=
  if bool_decide (trigger_mode p = TriggerMode.one_shot) then 0%Z else release_ms p.

Definition shelf_flags (band : option PadEqShelf) (present cut : N) : N :=
  match band with
  | None => 0
  | Some b => N.lor present (if bool_decide (shelf_kind b = EqBandKind.cut) then cut else 0)
  end.

Definition resolved_eq_flags (e : PadEq) : N :=
  N.lor (N.lor (shelf_flags (eq_low e) kEqLow kEqLowCut)
               (if eq_mid e then kEqMid else 0))
        (shelf_flags (eq_high e) kEqHigh kEqHighCut).

Definition band_field {B A} (band : option B) (f : B → A) (zero : A) : A :=
  match band with Some b => f b | None => zero end.

(** [resolve_voice_dsp], built with LMDJ_VOICE_DSP=1. *)
Definition resolve_voice_dsp (p : PadPlayback) (source_rate source_frames runtime_start
    runtime_end : N) : Result ResolvedVoiceDsp :=
  if negb (is_valid_playback_for_source p source_frames) then
    refused_playback "Pad playback voice settings are invalid"
  else
    let e := pad_eq p in
    success (MkVoiceDsp
      (dsp_loop_offset p source_rate runtime_start runtime_end)
      (wrap 32 (dsp_crossfade p source_rate runtime_start runtime_end))
      (to_int16 (pitch_cents p)) (to_int8 (pan p))
      (N.lor (if reverse p then kReverse else 0)
             (if bool_decide (loop_mode p = LoopMode.ping_pong) then kPingPong else 0))
      (u32_mul (to_u32 (attack_ms p)) 48) (u32_mul (to_u32 (resolved_release_ms p)) 48)
      (resolved_tone p) (resolved_eq_flags e)
      (band_field (eq_low e) (λ b, to_u16 (shelf_freq_hz b)) 0)
      (band_field (eq_low e) (λ b, to_int16 (shelf_gain_millidb b)) 0%Z)
      (band_field (eq_mid e) (λ b, to_u16 (bell_freq_hz b)) 0)
      (band_field (eq_mid e) (λ b, to_int16 (bell_gain_millidb b)) 0%Z)
      (band_field (eq_mid e) (λ b, to_u16 (bell_q_milli b)) 0)
      (band_field (eq_high e) (λ b, to_u16 (shelf_freq_hz b)) 0)
      (band_field (eq_high e) (λ b, to_int16 (shelf_gain_millidb b)) 0%Z)).

(** The same, built with LMDJ_VOICE_DSP=0: the block is empty. *)
Definition resolve_without_dsp (p : PadPlayback) (source_rate source_frames runtime_start
    runtime_end : N) : Result () :=
  if negb (is_valid_playback_for_source p source_frames) then
    refused_playback "Pad playback voice settings are invalid"
  else
    let neutral :=
      (dsp_loop_offset p source_rate runtime_start runtime_end =? 0) &&
      (wrap 32 (dsp_crossfade p source_rate runtime_start runtime_end) =? 0) &&
      (pitch_cents p =? 0)%Z && (pan p =? 0)%Z && negb (reverse p) &&
      negb (bool_decide (loop_mode p = LoopMode.ping_pong)) &&
      (attack_ms p =? 0)%Z && (resolved_release_ms p =? 0)%Z && (resolved_tone p =? 0)%Z &&
      negb (has_value (eq_low (pad_eq p))) && negb (has_value (eq_mid (pad_eq p))) &&
      negb (has_value (eq_high (pad_eq p))) in
    if negb neutral then
      refused_playback "Pad playback voice settings are not supported by this build"
    else success ().

(** ** Playback *)

(** Every enumerator is a valid mode. *)
Definition valid_trigger_mode (mode : TriggerMode) : bool :=
  match mode with
  | TriggerMode.one_shot | TriggerMode.gate | TriggerMode.loop_gate
  | TriggerMode.loop_toggle => true
  end.

(** Division rounding up, as the source writes it. *)
Definition divide_up (n d : N) : N := u64_add (n / d) (if n mod d =? 0 then 0 else 1).

Definition resolve_pad_playback (p : PadPlayback) (source_rate source_frames : N) :
    Result ResolvedPlayback :=
  if (source_rate =? 0) || negb (valid_trigger_mode (trigger_mode p)) ||
     ((2 ^ 64 - 1) / 48000 <? source_frames) then
    refused_playback "Pad playback cannot be resolved from invalid PCM or mode"
  else
    let source_end := value_or (trim_end_frame p) source_frames in
    if (source_end <=? trim_start_frame p) || (source_frames <? source_end) then
      refused_playback "Pad playback trim is outside source bounds"
    else
      let prepared_frames := divide_up (u64_mul source_frames 48000) source_rate in
      let runtime_start := u64_mul (trim_start_frame p) 48000 / source_rate in
      let runtime_end := divide_up (u64_mul source_end 48000) source_rate in
      if (runtime_end <=? runtime_start) || (prepared_frames <? runtime_end) ||
         (2 ^ 32 - 1 <? runtime_start) || (2 ^ 32 - 1 <? runtime_end) then
        refused_playback "Pad playback runtime trim is outside prepared PCM bounds"
      else if (gain_millidb p <? -60000)%Z || (6000 <? gain_millidb p)%Z then
        refused_playback "Pad playback gain is outside supported bounds"
      else
        let gain := linear_gain_of (gain_millidb p) in
        if negb (isfinite gain) then refused_playback "Pad playback gain is not finite"
        else
          d ← resolve_voice_dsp p source_rate source_frames runtime_start runtime_end;
          success (MkResolvedPlayback (wrap 32 runtime_start) (wrap 32 runtime_end)
                     (trigger_mode p) gain (muted p) d).

Definition resolve_playback (p : PadPlayback) (source prepared : PcmSample) :
    Result ResolvedPlayback :=
  let source_size := N.of_nat (length (interleaved source)) in
  let prepared_size := N.of_nat (length (interleaved prepared)) in
  if (channels source =? 0) || (channels prepared =? 0) ||
     negb (source_size mod channels source =? 0) ||
     negb (prepared_size mod channels prepared =? 0) ||
     negb (sample_rate prepared =? 48000) then
    refused_playback "Pad playback cannot be resolved from invalid PCM or mode"
  else
    resolved ← resolve_pad_playback p (sample_rate source) (source_size / channels source);
    if prepared_size / channels prepared <? resolved_end_frame resolved then
      refused_playback "Pad playback runtime trim is outside prepared PCM bounds"
    else success resolved.

(** ** Cooking *)

Definition valid_pattern (p : Pattern) : bool :=
  if negb (is_valid_uuid (value (pattern_id p))) ||
     negb ((bars p =? 1) || (bars p =? 2) || (bars p =? 4) || (bars p =? 8)) then false
  else
    let loop_length := pattern_length_ticks (bars p) in
    if existsb (λ e, negb (is_valid_slot (slot e)) || (velocity e =? 0) || (127 <? velocity e) ||
                     (loop_length <=? onset_tick e) || (duration_tick e =? 0) ||
                     (u32_sub loop_length (onset_tick e) <? duration_tick e)) (events p)
    then false
    else bool_decide (merge_pattern_events [] (events p) = events p).

Record DecodedArtifact := MkDecodedArtifact {
  decoded_byte_length : N;
  decoded_source : PcmSample;
  decoded_prepared : PcmSample
}.

Definition ArtifactResolver : Type := ArtifactRef → Result (list ascii).

Definition cook_error {A} (c : ErrorCode) (m : string) : Result A := failure (plain_error c m).

(** The lambda [resolve_sample], with the map [decoded] it captures. *)
Definition resolve_sample (resolve : ArtifactResolver) (decoded : gmap string DecodedArtifact)
    (artifact : ArtifactRef) : Result (gmap string DecodedArtifact * DecodedArtifact) :=
  if negb (valid_sha256 (sha256 artifact)) then
    cook_error invalid_project "asset artifact hash is invalid"
  else match decoded !! sha256 artifact with
  | Some cached =>
      if negb (decoded_byte_length cached =? byte_length artifact) then
        cook_error cook_failed "cached artifact bytes do not match declared metadata"
      else success (decoded, cached)
  | None =>
      bytes ← resolve artifact;
      if negb (size bytes =? byte_length artifact) ||
         negb (bool_decide (sha256_hex bytes = sha256 artifact)) then
        cook_error cook_failed "artifact bytes do not match declared metadata"
      else
        source ← decode_wav bytes;
        prepared ← prepare_runtime_pcm source;
        let d := MkDecodedArtifact (size bytes) source prepared in
        success (<[sha256 artifact := d]> decoded, d)
  end.

(** What the loop over the Pads builds. *)
Record CookedPads := MkCookedPads {
  decoded : gmap string DecodedArtifact;
  cooked_pads : list ResolvedPad;
  pad_samples : gmap PadSlotId PcmSample
}.

(** [pad_samples.emplace(slot, sample)] keeps an entry that is there. *)
Definition emplace_sample (m : gmap PadSlotId PcmSample) (s : PadSlotId) (q : PcmSample) :
    gmap PadSlotId PcmSample :=
  match m !! s with Some _ => m | None => <[s := q]> m end.

Definition cook_pad (st : ProjectState) (resolve : ArtifactResolver) (c : CookedPads)
    (entry : PadSlotId * PadSlot) : Result CookedPads :=
  let '(s, assignment) := entry in
  if negb (bool_decide (pad_id assignment = s)) then
    cook_error invalid_project "project pad slot identity is invalid"
  else match pad_asset_id assignment with
  | None => success c
  | Some _ =>
      asset ← resolve_slot_asset st s;
      match asset with
      | None => cook_error missing_asset "assigned pad references a missing asset"
      | Some a =>
          resolved ← resolve_sample resolve (decoded c) (asset_artifact a);
          playback ← resolve_playback (pad_playback assignment) (decoded_source resolved.2)
                       (decoded_prepared resolved.2);
          success (MkCookedPads resolved.1
            (cooked_pads c ++
               [MkResolvedPad s (asset_artifact a) (decoded_prepared resolved.2) playback])
            (emplace_sample (pad_samples c) s (decoded_prepared resolved.2)))
      end
  end.

(** The slots of the banks in the order of the two loops. *)
Definition bank_slots (bs : list (list PadSlot)) : list (PadSlotId * PadSlot) :=
  mjoin (imap (λ b row, imap (λ p assignment,
    (MkPadSlotId (N.of_nat b) (N.of_nat p), assignment)) row) bs).

Definition cook_event (samples : gmap PadSlotId PcmSample) (e : PatternEvent) :
    option ResolvedEvent :=
  (λ sample, MkResolvedEvent (slot e) (onset_tick e) (duration_tick e) (velocity e) sample)
    <$> samples !! slot e.

Definition cook (st : ProjectState) (id : PatternId) (resolve : option ArtifactResolver) :
    Result RuntimeSnapshot :=
  if negb (is_valid_uuid (value (project_id st))) || (bpm st <? 40) || (240 <? bpm st) ||
     negb (is_valid_uuid (value id)) || negb (has_value resolve) then
    cook_error invalid_project "project or cook request is invalid"
  else match patterns st !! id with
  | None => cook_error not_found "pattern does not exist"
  | Some p =>
      if negb (bool_decide (pattern_id p = id)) || negb (valid_pattern p) then
        cook_error invalid_project "pattern is invalid"
      else
        resolve ← throwing resolve;
        c ← fold_result (cook_pad st resolve) (MkCookedPads ∅ [] ∅) (bank_slots (banks st));
        success (MkRuntimeSnapshot (project_id st) (pattern_id p) (revision st) (bpm st) (bars p)
                   kPpq (pattern_length_ticks (bars p)) (cooked_pads c)
                   (omap (cook_event (pad_samples c)) (events p)))
  end.
End cooker.
