(* ===== verification/CookerLaws.v ===== *)
(** What the cooker hands to the runtime.

    A resolved playback plays inside its prepared sample; the build without the
    voice DSP accepts exactly the settings whose block is neutral; a snapshot
    holds a sound sample for every assigned Pad and every event of the Pattern on
    one; and cooking a well-formed Project succeeds when the artifacts of its
    assigned Pads are what they are declared to be. *)

From S2P Require Import Prelude Json Foundation Text Project Playback Fields Lineage Soundset Sequence Performance Commands Invariant Handler GridEdit Wav WavLaws Analysis AnalysisLaws Sha256 Cooker.

Lemma to_int16_small v : int16 v → to_int16 v = v.
Proof. apply int16_of_uint16. Qed.

Lemma to_int8_small v : (-128 ≤ v < 128)%Z → to_int8 v = v.
Proof.
  intros H. unfold to_int8. destruct (Z.ltb_spec v 0).
  - replace (v mod 2 ^ 8)%Z with (v + 256)%Z by (apply (Z.mod_unique _ _ (-1)); lia).
    destruct (Z.ltb_spec (v + 256) (2 ^ 7)); lia.
  - rewrite Z.mod_small by lia. destruct (Z.ltb_spec v (2 ^ 7)); lia.
Qed.

Lemma to_u32_small v : (0 ≤ v < 2 ^ 32)%Z → to_u32 v = Z.to_N v.
Proof. intros H. unfold to_u32. by rewrite Z.mod_small. Qed.

Section playback.
Context `{JL : JsonLib} {float : Type} (linear_gain_of : Z → float) (isfinite : float → bool).

(** ** Voice settings *)

Lemma tone_ranges p : is_valid_tone_playback p = true →
  (0 ≤ attack_ms p ≤ 2000)%Z ∧ (0 ≤ release_ms p ≤ 4000)%Z ∧ (-100 ≤ tone p ≤ 100)%Z.
Proof.
  unfold is_valid_tone_playback, in_range, kPadAttackMsMax, kPadReleaseMsMax, kPadToneMin, kPadToneMax.
  intros H. bool_to_prop. lia.
Qed.

Lemma frames_48_zero v bound : (0 ≤ v ≤ bound)%Z → (bound < 2 ^ 24)%Z →
  (u32_mul (to_u32 v) 48 = 0 ↔ v = 0%Z).
Proof.
  intros Hv Hb. rewrite to_u32_small by lia. rewrite u32_mul_small by lia. lia.
Qed.

Lemma shelf_flags_zero band present cut : present ≠ 0 →
  shelf_flags band present cut = 0 ↔ band = None.
Proof.
  intros Hp. destruct band as [b|]; [|done]. cbn. split; [|done].
  intros [? _]%N.lor_eq_0_iff. done.
Qed.

Lemma resolved_eq_flags_zero e : resolved_eq_flags e = 0 ↔
  eq_low e = None ∧ eq_mid e = None ∧ eq_high e = None.
Proof.
  unfold resolved_eq_flags. rewrite !N.lor_eq_0_iff, !shelf_flags_zero by done.
  destruct (eq_mid e); naive_solver.
Qed.

Lemma has_value_false {A} (o : option A) : has_value o = false ↔ o = None.
Proof. by destruct o. Qed.

(** The build without the voice DSP never plays a Pad differently: it accepts
    the settings of a Pad exactly when the build with it resolves them to the
    neutral block, at every source rate and trim. *)
Theorem dsp_builds_agree p rate n first last : n < 2 ^ 64 →
  (∀ e, trim_end_frame p = Some e → e < 2 ^ 64) →
  resolve_without_dsp p rate n first last = success () ↔
  resolve_voice_dsp p rate n first last = success neutral_dsp.
Proof.
  intros Hn He. unfold resolve_without_dsp, resolve_voice_dsp.
  destruct (is_valid_playback_for_source p n) eqn:Hv; cbn [negb]; [|by split].
  apply valid_for_source_aux in Hv as (Hs & _ & _); [|done..].
  destruct Hs as [Ht Hg Hp Hpan _]. apply tone_ranges in Ht as (Ha & Hr & Hto).
  assert (resolved_release_ms p = 0%Z ∨ resolved_release_ms p = release_ms p) as Hrel
    by (unfold resolved_release_ms; case_bool_decide; tauto).
  assert (0 ≤ resolved_release_ms p ≤ 4000)%Z as Hrr by lia.
  rewrite to_int16_small by (unfold int16; lia). rewrite to_int8_small by lia.
  pose proof (frames_48_zero (attack_ms p) 2000 Ha ltac:(lia)) as Fa.
  pose proof (frames_48_zero (resolved_release_ms p) 4000 Hrr ltac:(lia)) as Fr.
  pose proof (resolved_eq_flags_zero (pad_eq p)) as Fe. unfold neutral_dsp.
  split.
  - match goal with |- context [if negb ?b then _ else _] => destruct b eqn:Hb end; [|done].
    intros _. cbn [negb] in Hb. rewrite !andb_true_iff, !negb_true_iff, !has_value_false in Hb.
    destruct Hb as (((((((((((Ho & Hc) & Hpi) & Hpa) & Hre) & Hpp) & Hat) & Hrl) & Htn) & Hl) & Hm) & Hh).
    apply N.eqb_eq in Ho, Hc. apply Z.eqb_eq in Hpi, Hpa, Hat, Hrl, Htn.
    rewrite (proj2 Fa Hat), (proj2 Fr Hrl), (proj2 Fe) by done.
    by rewrite Ho, Hc, Hpi, Hpa, Hre, Hpp, Htn, Hl, Hm, Hh.
  - intros E. apply success_inj in E. 
    pose proof (f_equal loop_start_offset E) as E1. pose proof (f_equal dsp_loop_crossfade_frames E) as E2.
    pose proof (f_equal dsp_pitch_cents E) as E3. pose proof (f_equal dsp_pan E) as E4.
    pose proof (f_equal dsp_flags E) as E5. pose proof (f_equal attack_frames E) as E6.
    pose proof (f_equal release_frames E) as E7. pose proof (f_equal dsp_tone E) as E8.
    pose proof (f_equal eq_flags E) as E9.
    cbn [loop_start_offset dsp_loop_crossfade_frames dsp_pitch_cents dsp_pan dsp_flags attack_frames
      release_frames dsp_tone eq_flags] in *. clear E.
    apply Fa in E6. apply Fr in E7. apply Fe in E9 as (Hl & Hm & Hh).
    apply N.lor_eq_0_iff in E5 as [E5 E5'].
    assert (reverse p = false) as -> by (by destruct (reverse p)).
    assert (bool_decide (loop_mode p = LoopMode.ping_pong) = false) as ->
      by (by destruct (bool_decide _)).
    by rewrite E1, E2, E3, E4, E6, E7, E8, Hl, Hm, Hh.
Qed.

(** ** Playback *)

(** The first frame of a trim at the runtime rate, and the frame after its last. *)
Definition runtime_start_of (p : PadPlayback) (rate : N) : N := trim_start_frame p * 48000 / rate.
Definition runtime_end_of (p : PadPlayback) (rate n : N) : N :=
  (value_or (trim_end_frame p) n * 48000 + rate - 1) / rate.

(** The block plays inside a sample of [frames] frames: the trim is a non-empty
    part of it, the loop point lies in the trim, and the crossfade is at most
    half of the loop. *)
Record plays_in (r : @ResolvedPlayback float) (frames : N) : Prop := {
  plays_trim : resolved_start_frame r < resolved_end_frame r ≤ frames;
  plays_loop : loop_start_offset (dsp r) < resolved_end_frame r - resolved_start_frame r;
  plays_fade : 2 * dsp_loop_crossfade_frames (dsp r) ≤
    resolved_end_frame r - resolved_start_frame r - loop_start_offset (dsp r)
}.

Lemma divide_up_spec n d : 0 < d → n < 2 ^ 64 - 1 → divide_up n d = (n + d - 1) / d.
Proof.
  intros Hd Hn. unfold divide_up. rewrite <- ceil_div by done.
  assert (n / d ≤ n) by (apply N.Div0.div_le_upper_bound; nia).
  apply u64_add_small. destruct (n mod d =? 0); lia.
Qed.

Lemma ceil_mono a b d : 0 < d → a ≤ b → (a + d - 1) / d ≤ (b + d - 1) / d.
Proof. intros Hd H. apply N.Div0.div_le_mono. lia. Qed.

Lemma floor_lt_ceil a b d : 0 < d → a < b → a / d < (b + d - 1) / d.
Proof.
  intros Hd H. apply N.le_succ_l. apply N.div_le_lower_bound; [lia|].
  pose proof (N.Div0.mul_div_le a d). lia.
Qed.

Lemma dsp_inside p rate s e : s < e → e < 2 ^ 32 →
  let dsp_offset := dsp_loop_offset p rate s e in
  dsp_offset < e - s ∧
  wrap 32 (dsp_crossfade p rate s e) = dsp_crossfade p rate s e ∧
  2 * dsp_crossfade p rate s e ≤ e - s - dsp_offset.
Proof.
  intros Hse He. unfold dsp_loop_offset, dsp_crossfade.
  assert (s ≤ dsp_loop_start p rate s e ≤ e - 1) as Hl.
  { unfold dsp_loop_start. rewrite (u64_sub_le e 1) by lia. apply clamp_bounds. lia. }
  set (l := dsp_loop_start p rate s e) in *. rewrite !u64_sub_le by lia.
  rewrite (wrap_small 32 (l - s)) by lia.
  set (x := u64_mul (loop_crossfade_frames p) 48000 / rate).
  assert (2 * N.min x ((e - l) / 2) ≤ e - l) by (pose proof (N.Div0.mul_div_le (e - l) 2); lia).
  split_and!; [lia|apply wrap_small; lia|lia].
Qed.

Lemma resolve_pad_playback_spec p rate n :
  0 < rate → n ≤ (2 ^ 64 - 1) / 48000 → (∀ e, trim_end_frame p = Some e → e < 2 ^ 64) →
  match resolve_pad_playback linear_gain_of isfinite p rate n with
  | success r =>
      is_valid_playback_for_source p n = true ∧ plays_in r ((n * 48000 + rate - 1) / rate) ∧
      resolved_start_frame r = runtime_start_of p rate ∧
      resolved_end_frame r = runtime_end_of p rate n
  | failure _ => ¬ (is_valid_playback_for_source p n = true ∧ runtime_end_of p rate n < 2 ^ 32 ∧
                    isfinite (linear_gain_of (gain_millidb p)) = true)
  | thrown => False
  end.
Proof.
  intros Hrate Hn Hw. assert (n * 48000 < 2 ^ 64 - 1) as Hn48 by (revert Hn; dlia).
  unfold resolve_pad_playback. assert (n < 2 ^ 64) as Hn64 by lia.
  pose proof (valid_for_source_aux p n Hn64 Hw) as Hv.
  destruct (N.eqb_spec rate 0); [lia|]. cbn [orb].
  assert (valid_trigger_mode (trigger_mode p) = true) as -> by (by destruct (trigger_mode p)).
  cbn [negb orb]. destruct (N.ltb_spec ((2 ^ 64 - 1) / 48000) n); [lia|].
  set (e := value_or (trim_end_frame p) n) in *. fold e in Hv.
  destruct ((e <=? trim_start_frame p) || (n <? e)) eqn:Htrim.
  { intros [Hok _]. apply Hv in Hok as (_ & [Hlt _ _] & Hle). lia. }
  unfold u64_mul. rewrite !(wrap_small 64) by lia. rewrite !divide_up_spec by lia.
  fold (runtime_start_of p rate). change ((e * 48000 + rate - 1) / rate) with (runtime_end_of p rate n).
  assert (runtime_start_of p rate < runtime_end_of p rate n) as Hse
    by (apply floor_lt_ceil; lia).
  assert (runtime_end_of p rate n ≤ (n * 48000 + rate - 1) / rate) as Hen
    by (apply ceil_mono; lia).
  destruct ((runtime_end_of p rate n <=? runtime_start_of p rate) ||
            ((n * 48000 + rate - 1) / rate <? runtime_end_of p rate n) ||
            (2 ^ 32 - 1 <? runtime_start_of p rate) || (2 ^ 32 - 1 <? runtime_end_of p rate n)) eqn:Hr.
  { intros (_ & H32 & _). rewrite !orb_true_iff, N.leb_le, !N.ltb_lt in Hr. lia. }
  rewrite !orb_false_iff, N.leb_gt, !N.ltb_ge in Hr. destruct Hr as (_ & H32).
  destruct (_ || _) eqn:Hgain in |- *.
  { intros [Hok _]. apply Hv in Hok as ([_ Hg _ _ _] & _). lia. }
  destruct (isfinite (linear_gain_of (gain_millidb p))) eqn:Hfin; cbn [negb]; [|by intros (_ & _ & ?)].
  unfold resolve_voice_dsp. destruct (is_valid_playback_for_source p n) eqn:Hok; cbn [negb];
    [|by intros [? _]].
  cbn [mbind result_bind]. destruct (dsp_inside p rate _ _ Hse ltac:(lia)) as (Ho & Hc & Hf).
  split; [done|]. rewrite !(wrap_small 32 (runtime_start_of _ _)), !(wrap_small 32 (runtime_end_of _ _ _)) by lia.
  split; [|done]. split; cbn [resolved_start_frame resolved_end_frame dsp loop_start_offset
    dsp_loop_crossfade_frames]; [lia|done|by rewrite Hc].
Qed.

(** C38: Resolving the playback of a Pad for a source of 44.1 or 48 kHz succeeds
    when the settings are valid for the source, its end fits 32 bits and the gain
    is finite, and only when they are valid; the trim becomes the runtime frames
    that cover it, which are a non-empty part of the prepared sample, with the
    loop point inside and the crossfade at most half of the loop.  No call
    throws. *)
Theorem playback_resolved p rate n : rate = 44100 ∨ rate = 48000 → n ≤ (2 ^ 64 - 1) / 48000 →
  (∀ e, trim_end_frame p = Some e → e < 2 ^ 64) →
  match resolve_pad_playback linear_gain_of isfinite p rate n with
  | success r =>
      is_valid_playback_for_source p n = true ∧ plays_in r ((n * 48000 + rate - 1) / rate) ∧
      resolved_start_frame r = runtime_start_of p rate ∧
      resolved_end_frame r = runtime_end_of p rate n
  | failure _ => ¬ (is_valid_playback_for_source p n = true ∧ runtime_end_of p rate n < 2 ^ 32 ∧
                    isfinite (linear_gain_of (gain_millidb p)) = true)
  | thrown => False
  end.
Proof. intros Hr. apply resolve_pad_playback_spec. lia. Qed.
End playback.

Section cook.
Context `{JL : JsonLib} {float : Type} (linear_gain_of : Z → float) (isfinite : float → bool).
Context (resolve : ArtifactResolver).
Implicit Type st : ProjectState.
Notation cook_pad := (cook_pad linear_gain_of isfinite).
Notation CookedPads := (@CookedPads float).
Notation ResolvedPad := (@ResolvedPad float).

(** ** The slots of the banks *)

Lemma bank_slots_elem bs s x : (s, x) ∈ bank_slots bs → pad_at bs s = Some x.
Proof.
  unfold bank_slots. intros (l & Hx & Hl)%list_elem_of_join.
  apply list_elem_of_lookup in Hl as [b Hb]. rewrite list_lookup_imap in Hb.
  destruct (bs !! b) as [row|] eqn:Eb; [|done]. cbn in Hb. injection Hb as <-.
  apply list_elem_of_lookup in Hx as [k Hk]. rewrite list_lookup_imap in Hk.
  destruct (row !! k) as [y|] eqn:Ek; [|done]. cbn in Hk. injection Hk as <- <-.
  unfold pad_at. cbn [bank pad]. rewrite !Nat2N.id, Eb. cbn. by rewrite Ek.
Qed.

(** The slots that have an Asset, in the order of the banks. *)
Definition assigned (entries : list (PadSlotId * PadSlot)) : list PadSlotId :=
  (filter (λ e, is_Some (pad_asset_id e.2)) entries).*1.

(** ** What is kept of an artifact *)

Record decoded_ok (d : DecodedArtifact) : Prop := {
  decoded_source_ok : pcm_ok (decoded_source d);
  decoded_prepared_ok : pcm_ok (decoded_prepared d);
  decoded_resampled : resampled (decoded_source d) (decoded_prepared d)
}.

Lemma resolve_sample_post m a :
  (∀ b, resolve b ≠ thrown) → (∀ b bytes, resolve b = success bytes → size bytes < 2 ^ 63) →
  map_Forall (λ _, decoded_ok) m →
  post (λ r, map_Forall (λ _, decoded_ok) r.1 ∧ decoded_ok r.2) (resolve_sample resolve m a).
Proof.
  intros Hthrow Hsize Hm. unfold resolve_sample. destruct (valid_sha256 (sha256 a)); [|done].
  cbn [negb]. destruct (m !! sha256 a) as [d|] eqn:E.
  - destruct (_ =? _); [|done]. split; [done|]. by eapply Hm.
  - eapply post_bind_eq; [apply Hthrow|]. intros bytes Hb. apply Hsize in Hb.
    destruct (_ || _); [done|]. eapply post_bind; [apply decode_wav_post|].
    intros source [Hok Hl]. unfold size in Hb.
    pose proof (prepare_interpolates source Hok ltac:(lia)) as Hp.
    destruct (_ || _) in Hp; [|by destruct Hp as [e ->]].
    destruct Hp as (q & -> & Hq & Hr). cbn.
    split; [|done]. by apply map_Forall_insert_2.
Qed.

(** ** Pads *)

(** The sample of the first Pad that has the slot. *)
Definition pad_sample (l : list ResolvedPad) (s : PadSlotId) : option PcmSample :=
  resolved_pad_sample <$> head (filter (λ p, resolved_pad_slot p = s) l).

Record pad_sound st (p : ResolvedPad) : Prop := {
  sound_assigned : ∃ x id a, pad_at (banks st) (resolved_pad_slot p) = Some x ∧
    pad_asset_id x = Some id ∧ assets st !! id = Some a ∧ resolved_artifact p = asset_artifact a ∧
    resolved_muted (resolved_playback p) = muted (pad_playback x) ∧
    resolved_trigger_mode (resolved_playback p) = trigger_mode (pad_playback x);
  sound_sample : pcm_ok (resolved_pad_sample p) ∧ sample_rate (resolved_pad_sample p) = 48000;
  sound_plays : plays_in (resolved_playback p) (frame_count (resolved_pad_sample p))
}.

Record cooked_ok st (done : list (PadSlotId * PadSlot)) (c : CookedPads) : Prop := {
  cooked_decoded : map_Forall (λ _, decoded_ok) (decoded c);
  cooked_slots : resolved_pad_slot <$> cooked_pads c = assigned done;
  cooked_sound : Forall (pad_sound st) (cooked_pads c);
  cooked_samples s : pad_samples c !! s = pad_sample (cooked_pads c) s
}.

Lemma assigned_snoc done s x : assigned (done ++ [(s, x)]) =
  assigned done ++ if pad_asset_id x then [s] else [].
Proof.
  unfold assigned. rewrite filter_app, fmap_app. f_equal. destruct (pad_asset_id x) eqn:E.
  - by rewrite filter_cons_True by (cbn; rewrite E; eauto).
  - rewrite filter_cons_False; [done|]. cbn. rewrite E. by intros [].
Qed.

Lemma pad_sample_snoc m l p : (∀ s, m !! s = pad_sample l s) →
  ∀ s, emplace_sample m (resolved_pad_slot p) (resolved_pad_sample p) !! s = pad_sample (l ++ [p]) s.
Proof.
  intros Hm s. unfold pad_sample, emplace_sample in *. rewrite filter_app. specialize (Hm s) as Hs.
  specialize (Hm (resolved_pad_slot p)) as Hp.
  destruct (decide (resolved_pad_slot p = s)) as [E|E].
  - subst s. rewrite (filter_cons_True _ p) by done. cbn [filter list_filter].
    destruct (filter _ l) as [|q l']; cbn in Hp |- *; rewrite Hp; [apply lookup_insert_eq|done].
  - rewrite (filter_cons_False _ p) by done. cbn [filter list_filter]. rewrite app_nil_r, <- Hs.
    destruct (m !! resolved_pad_slot p); [done|]. by rewrite lookup_insert_ne.
Qed.

Lemma resolve_pad_playback_bounds p rate n : 0 < rate →
  (∀ e, trim_end_frame p = Some e → e < 2 ^ 64) →
  post (λ r, plays_in r ((n * 48000 + rate - 1) / rate) ∧
             resolved_muted r = muted p ∧ resolved_trigger_mode r = trigger_mode p)
    (resolve_pad_playback linear_gain_of isfinite p rate n).
Proof.
  intros Hrate Hw. destruct (N.leb_spec n ((2 ^ 64 - 1) / 48000)) as [Hn|Hn].
  - pose proof (resolve_pad_playback_spec linear_gain_of isfinite p rate n Hrate Hn Hw) as H.
    destruct (resolve_pad_playback _ _ p rate n) as [r|e|] eqn:E; [|done..]. cbn.
    split; [apply H|]. clear H. unfold resolve_pad_playback in E.
    repeat (case_match; [discriminate E|]). apply result_bind_success in E as (d & _ & E).
    apply success_inj in E as <-. done.
  - unfold resolve_pad_playback. apply N.ltb_lt in Hn as ->. by rewrite orb_true_r.
Qed.

Lemma resolve_playback_post p d : decoded_ok d → (∀ e, trim_end_frame p = Some e → e < 2 ^ 64) →
  post (λ r, plays_in r (frame_count (decoded_prepared d)) ∧
             resolved_muted r = muted p ∧ resolved_trigger_mode r = trigger_mode p)
    (resolve_playback linear_gain_of isfinite p (decoded_source d) (decoded_prepared d)).
Proof.
  intros [Hs Hp (Hr & Hc & Hf & _)] Hw. unfold resolve_playback. destruct (_ || _); [done|].
  fold (frame_count (decoded_source d)). fold (frame_count (decoded_prepared d)).
  eapply post_bind; [apply resolve_pad_playback_bounds; [destruct (pcm_rate _ Hs) as [-> | ->]; lia|done]|].
  intros r [Hplay Hrest]. destruct (_ <? _); [done|]. cbn. split; [|done]. rewrite Hf. exact Hplay.
Qed.

(** Trim ends are 64-bit numbers. *)
Definition trims_typed st : Prop :=
  ∀ s x e, pad_at (banks st) s = Some x → trim_end_frame (pad_playback x) = Some e → e < 2 ^ 64.

(** The host's resolver returns, with a vector the machine can hold. *)
Definition resolver_ok : Prop :=
  (∀ a, resolve a ≠ thrown) ∧ (∀ a bytes, resolve a = success bytes → size bytes < 2 ^ 63).

Lemma cook_pad_post st done s x c : trims_typed st → resolver_ok →
  pad_at (banks st) s = Some x → cooked_ok st done c →
  post (cooked_ok st (done ++ [(s, x)])) (cook_pad st resolve c (s, x)).
Proof.
  intros Htyped [Hthrow Hsize] Hx [Hd Hsl Hso Hsa]. unfold Cooker.cook_pad.
  destruct (bool_decide (pad_id x = s)); [|done]. cbn [negb].
  pose proof (assigned_snoc done s x) as Hsnoc.
  destruct (pad_asset_id x) as [id|] eqn:Eid.
  - unfold resolve_slot_asset. destruct (is_valid_slot s); [|done]. cbn [negb].
    rewrite Hx. cbn [throwing mbind result_bind]. rewrite Eid.
    destruct (assets st !! id) as [a|] eqn:Ea; [|done].
    eapply post_bind; [by apply resolve_sample_post|]. intros [m d] [Hm Hdok]. cbn [fst snd] in *.
    eapply post_bind; [apply resolve_playback_post; [done|intros e; by apply (Htyped s x e)]|].
    intros pb (Hpb & Hmute & Hmode). cbn [post].
    set (p := MkResolvedPad s (asset_artifact a) (decoded_prepared d) pb).
    split; cbn [decoded cooked_pads pad_samples].
    + done.
    + by rewrite fmap_app, Hsl, Hsnoc.
    + apply Forall_app_2; [done|]. constructor; [|constructor]. split.
      * exists x, id, a. done.
      * destruct Hdok as [_ Hp (Hr & _)]. done.
      * done.
    + apply (pad_sample_snoc _ _ p Hsa).
  - cbn [post]. rewrite app_nil_r in Hsnoc. split; [done|by rewrite Hsnoc|done|done].
Qed.

Lemma cook_pads_post st : trims_typed st → resolver_ok →
  post (cooked_ok st (bank_slots (banks st)))
    (fold_result (cook_pad st resolve) (MkCookedPads ∅ [] ∅) (bank_slots (banks st))).
Proof.
  intros Ht Hr. apply (post_fold (cooked_ok st) _ _ []).
  - intros done c [s x] Hin Hc. by apply cook_pad_post; [| |apply bank_slots_elem|].
  - by split.
Qed.

(** The events of a Pattern on the Pads of a snapshot. *)
Definition sounding (pads : list ResolvedPad) (es : list PatternEvent) : list ResolvedEvent :=
  omap (λ e, (λ q, MkResolvedEvent (slot e) (onset_tick e) (duration_tick e) (velocity e) q)
               <$> pad_sample pads (slot e)) es.

Record snapshot_ok st (p : Pattern) (snapshot : @RuntimeSnapshot float) : Prop := {
  snapshot_slots : resolved_pad_slot <$> pads snapshot = assigned (bank_slots (banks st));
  snapshot_sound : Forall (pad_sound st) (pads snapshot);
  snapshot_events : resolved_events snapshot = sounding (pads snapshot) (events p);
  snapshot_valid : Forall (event_fits (loop_length_ticks snapshot)) (events p);
  snapshot_loop : loop_length_ticks snapshot = pattern_length_ticks (bars p) ∧
                  snapshot_bpm snapshot = bpm st ∧ snapshot_pattern_id snapshot = pattern_id p ∧
                  project_revision snapshot = revision st
}.

Lemma valid_pattern_events p : valid_pattern p = true →
  Forall (event_fits (pattern_length_ticks (bars p))) (events p) ∧
  merge_pattern_events [] (events p) = events p.
Proof.
  unfold valid_pattern. destruct (_ || _); [done|].
  match goal with |- context [existsb ?f ?l] => destruct (existsb f l) eqn:E end; [done|].
  intros H%bool_decide_eq_true_1. split; [|done].
  apply Forall_forall. intros e He%list_elem_of_In.
  apply event_invalid_spec; [unfold pattern_length_ticks, u32_mul; apply (wrap_lt 32)|].
  destruct (event_invalid _ e) eqn:Ei; [|done]. rewrite <- E. symmetry.
  apply existsb_exists. exists e. split; [done|].
  unfold event_invalid, valid_velocity in Ei. rewrite !orb_true_iff in *.
  rewrite !negb_true_iff, andb_false_iff, !N.leb_gt in Ei.
  rewrite negb_true_iff, !N.eqb_eq, N.ltb_lt.
  intuition lia.
Qed.

(** C7: Whatever the resolver answers, cooking never throws, and a snapshot it
    returns is sound: it has one Pad for every slot with an Asset, in bank
    order, each with that Asset's artifact, a well-formed 48 kHz sample, and a
    playback that stays inside the sample; and its events are those of the
    Pattern whose slot has a Pad, in order and with that Pad's sample, all inside
    the loop. *)
Theorem cook_sound st id : trims_typed st → resolver_ok →
  match cook linear_gain_of isfinite st id (Some resolve) with
  | success snapshot => ∃ p, patterns st !! id = Some p ∧ snapshot_ok st p snapshot
  | failure _ => True
  | thrown => False
  end.
Proof.
  intros Ht Hr. unfold cook. destruct (_ || _); [done|].
  destruct (patterns st !! id) as [p|] eqn:Ep; [|done].
  destruct (valid_pattern p) eqn:Hv; [|by rewrite orb_true_r].
  destruct (bool_decide (pattern_id p = id)); [|done]. cbn [negb orb throwing mbind result_bind].
  pose proof (cook_pads_post st Ht Hr) as Hpads.
  destruct (fold_result _ _ _) as [c| |]; [|done..]. cbn [post mbind result_bind] in *.
  exists p. split; [done|]. apply valid_pattern_events in Hv as [Hv _].
  destruct Hpads as [_ Hsl Hso Hsa]. split; cbn; try done.
  unfold sounding. apply list_omap_ext, Forall_Forall2_diag, Forall_true.
  intros e. unfold cook_event. by rewrite Hsa.
Qed.

(** ** Cooking a well-formed Project *)

(** The store of artifacts by digest, and the artifacts it holds as declared. *)
Context (content : string → list ascii).

Record artifact_held (a : ArtifactRef) (source : PcmSample) : Prop := {
  held_digest : valid_sha256 (sha256 a) = true ∧ sha256_hex (content (sha256 a)) = sha256 a;
  held_length : size (content (sha256 a)) = byte_length a ∧ byte_length a < 2 ^ 63;
  held_audio : decode_wav (content (sha256 a)) = success source;
  held_frames : frame_count source ≤ (2 ^ 64 - 1) / 48000
}.

(** A Pad whose Asset is held and whose playback suits it. *)
Definition pad_ready st (x : PadSlot) : Prop := ∀ i, pad_asset_id x = Some i →
  ∃ a source, assets st !! i = Some a ∧ artifact_held (asset_artifact a) source ∧
    is_valid_playback_for_source (pad_playback x) (frame_count source) = true ∧
    runtime_end_of (pad_playback x) (sample_rate source) (frame_count source) < 2 ^ 32 ∧
    isfinite (linear_gain_of (gain_millidb (pad_playback x))) = true.

Definition cached_ok (m : gmap string DecodedArtifact) : Prop := ∀ sha d, m !! sha = Some d →
  decoded_byte_length d = size (content sha) ∧ decode_wav (content sha) = success (decoded_source d) ∧
  decoded_ok d.

Lemma resolve_sample_held m a source :
  resolve a = success (content (sha256 a)) → artifact_held a source → cached_ok m →
  ∃ m' d, resolve_sample resolve m a = success (m', d) ∧ cached_ok m' ∧
          decoded_source d = source ∧ decoded_ok d.
Proof.
  intros Hres [[Hv Hd] [Hl Hsmall] Ha Hf] Hm. unfold resolve_sample. rewrite Hv. cbn [negb].
  destruct (m !! sha256 a) as [d|] eqn:E.
  - destruct (Hm _ _ E) as (Hbl & Hdec & Hok). rewrite Hbl, Hl, N.eqb_refl.
    exists m, d. split_and!; [done|done| |done]. rewrite Ha in Hdec. by apply success_inj in Hdec.
  - rewrite Hres. cbn [mbind result_bind]. rewrite Hl, N.eqb_refl, bool_decide_eq_true_2 by done.
    cbn [negb orb]. rewrite Ha. cbn [mbind result_bind].
    pose proof (decode_wav_post (content (sha256 a))) as Hp. rewrite Ha in Hp.
    destruct Hp as [Hok Hlen]. unfold size in Hl.
    pose proof (prepare_interpolates source Hok ltac:(lia)) as Hprep.
    apply N.leb_le in Hf. rewrite Hf, orb_true_r in Hprep. destruct Hprep as (q & -> & Hq & Hr).
    cbn [mbind result_bind]. do 2 eexists. split; [reflexivity|]. split; [|done].
    intros sha d. rewrite lookup_insert_Some. intros [[<- <-]|[_ Hd']]; [|by apply Hm].
    cbn. unfold size. rewrite Hl. done.
Qed.

Lemma resolve_playback_held p d :
  decoded_ok d → (∀ e, trim_end_frame p = Some e → e < 2 ^ 64) →
  frame_count (decoded_source d) ≤ (2 ^ 64 - 1) / 48000 →
  is_valid_playback_for_source p (frame_count (decoded_source d)) = true →
  runtime_end_of p (sample_rate (decoded_source d)) (frame_count (decoded_source d)) < 2 ^ 32 →
  isfinite (linear_gain_of (gain_millidb p)) = true →
  ∃ r, resolve_playback linear_gain_of isfinite p (decoded_source d) (decoded_prepared d) = success r.
Proof.
  intros [Hs Hp (Hr & Hc & Hf & _)] Hw Hn Hv H32 Hfin. unfold resolve_playback.
  pose proof (pcm_channels _ Hs) as Hcs. pose proof (pcm_channels _ Hp) as Hcp.
  rewrite (pcm_frames _ Hs), (pcm_frames _ Hp), Hr.
  destruct (N.eqb_spec (channels (decoded_source d)) 0); [lia|].
  destruct (N.eqb_spec (channels (decoded_prepared d)) 0); [lia|]. cbn [negb orb N.eqb].
  fold (frame_count (decoded_source d)). fold (frame_count (decoded_prepared d)).
  pose proof (resolve_pad_playback_spec linear_gain_of isfinite p (sample_rate (decoded_source d))
    (frame_count (decoded_source d)) ltac:(destruct (pcm_rate _ Hs) as [-> | ->]; lia) Hn Hw) as H.
  destruct (resolve_pad_playback _ _ _ _ _) as [r|e|]; [|tauto|done]. cbn [mbind result_bind].
  destruct H as (_ & [[_ Hle] _ _] & _). rewrite Hf. unfold prepared_count.
  destruct (N.ltb_spec ((frame_count (decoded_source d) * 48000 +
    sample_rate (decoded_source d) - 1) / sample_rate (decoded_source d)) (resolved_end_frame r)).
  - exfalso. change (48000 =? 48000) with true in *. lia.
  - by exists r.
Qed.

Lemma cook_pad_held st s x c :
  trims_typed st → (∀ a, resolve a = success (content (sha256 a))) →
  banks_ok (assets st) (banks st) → is_valid_slot s = true → pad_at (banks st) s = Some x →
  pad_ready st x → cached_ok (decoded c) →
  ∃ c', cook_pad st resolve c (s, x) = success c' ∧ cached_ok (decoded c').
Proof.
  intros Ht Hres Hb Hs Hx Hready Hc. unfold Cooker.cook_pad.
  rewrite bool_decide_eq_true_2 by apply (pad_ok_id _ _ _ (Hb s x Hx)). cbn [negb].
  destruct (pad_asset_id x) as [i|] eqn:Ei; [|by exists c].
  destruct (Hready i Ei) as (a & source & Ea & Hheld & Hv & H32 & Hfin).
  unfold resolve_slot_asset. rewrite Hs, Hx. cbn [negb throwing mbind result_bind].
  rewrite Ei, Ea. destruct (resolve_sample_held (decoded c) (asset_artifact a) source)
    as (m & d & -> & Hm & Hd & Hok); [done..|].
  cbn [mbind result_bind fst snd]. subst source.
  destruct (resolve_playback_held (pad_playback x) d) as [r ->];
    [done|intros e; by apply (Ht s x e)|apply Hheld|done..|].
  cbn. eexists. split; [reflexivity|exact Hm].
Qed.

Lemma bank_slots_held st c l :
  trims_typed st → (∀ a, resolve a = success (content (sha256 a))) →
  banks_ok (assets st) (banks st) →
  (∀ s x, (s, x) ∈ l → is_valid_slot s = true ∧ pad_at (banks st) s = Some x ∧ pad_ready st x) →
  cached_ok (decoded c) → ∃ c', fold_result (cook_pad st resolve) c l = success c'.
Proof.
  intros Ht Hres Hb. revert c. induction l as [|[s x] l IH]; intros c Hl Hc; [by exists c|].
  cbn [fold_result]. destruct (Hl s x) as (Hs & Hx & Hready); [left|].
  destruct (cook_pad_held st s x c) as (c' & -> & Hc'); [done..|]. cbn [mbind result_bind].
  apply IH; [|done]. intros s' x' Hin. apply Hl. by right.
Qed.

Lemma bank_slots_valid st s x : state_shape st → (s, x) ∈ bank_slots (banks st) →
  is_valid_slot s = true.
Proof.
  intros [Hb Hr _] H%bank_slots_elem. unfold pad_at in H.
  destruct (banks st !! N.to_nat (bank s)) as [row|] eqn:E; [|done]. cbn in H.
  pose proof (lookup_lt_Some _ _ _ E). pose proof (lookup_lt_Some _ _ _ H).
  rewrite Forall_forall in Hr. specialize (Hr row (list_elem_of_lookup_2 _ _ _ E)).
  apply is_valid_slot_spec. lia.
Qed.

Lemma canonical_merges l : canonical_events l → merge_pattern_events [] l = l.
Proof.
  intros H. apply canonical_unique; [apply merge_canonical|done|]. intros e.
  rewrite merge_elem. cbn [app]. apply last_with_key_canonical, H.
Qed.

Lemma pattern_ok_valid_pattern i p : pattern_ok i p → valid_pattern p = true.
Proof.
  intros [_ Hv Hc]. apply validate_pattern_ok in Hv as (Hu & Hb & He).
  unfold valid_pattern. rewrite Hu. unfold valid_bars in Hb. rewrite Hb. cbn [negb orb].
  match goal with |- context [existsb ?f ?l] => destruct (existsb f l) eqn:E end.
  - apply existsb_exists in E as (e & Hin%list_elem_of_In & E).
    rewrite Forall_forall in He. specialize (He e Hin).
    apply event_invalid_spec in He; [|unfold pattern_length_ticks, u32_mul; apply (wrap_lt 32)].
    unfold event_invalid, valid_velocity in He. rewrite !orb_false_iff, !negb_false_iff, andb_true_iff in He.
    rewrite !orb_true_iff in E. destruct (is_valid_slot (slot e)); cbn [negb] in *; lia.
  - rewrite canonical_merges by done. by apply bool_decide_eq_true_2.
Qed.

(** C8: A well-formed Project cooks.  When the store of artifacts answers by
    digest and holds, for the Asset of every assigned Pad, bytes of the declared
    digest and length that decode, when the Pad's playback is valid for that
    source and its end and gain are representable, then cooking any Pattern of
    the Project returns a snapshot: none of the cooker's own checks (of the
    Project's id and tempo, the Pattern and its canonical events, the Pads'
    identities and Assets) refuses what the Domain's commands produce. *)
Theorem cook_complete st i p :
  project_ok st → trims_typed st → patterns st !! i = Some p →
  (∀ a, resolve a = success (content (sha256 a))) →
  (∀ s x, pad_at (banks st) s = Some x → pad_ready st x) →
  ∃ snapshot, cook linear_gain_of isfinite st i (Some resolve) = success snapshot ∧
              snapshot_pattern_id snapshot = i.
Proof.
  intros Hok Ht Hp Hres Hready. pose proof Hok as [Hshape Hu Htempo _ _ Hb Hpat _ _ _].
  pose proof (Hpat i p Hp) as Hpok. pose proof (pattern_ok_valid_pattern i p Hpok) as Hv.
  destruct Hpok as [Hid Hval _]. apply validate_pattern_ok in Hval as (Hpu & _ & _).
  unfold cook. rewrite Hu, Hp. rewrite Hid in Hpu. rewrite Hpu.
  assert ((bpm st <? 40) = false) as -> by lia. assert ((240 <? bpm st) = false) as -> by lia.
  cbn [negb orb has_value]. rewrite bool_decide_eq_true_2, Hv by done.
  cbn [negb orb throwing mbind result_bind].
  destruct (bank_slots_held st (MkCookedPads ∅ [] ∅) (bank_slots (banks st)) Ht Hres Hb) as [c ->].
  - intros s x Hin. split_and!; [by eapply bank_slots_valid|by apply bank_slots_elem|].
    by eapply Hready, bank_slots_elem.
  - intros sha d E. cbn in E. by rewrite lookup_empty in E.
  - cbn [mbind result_bind]. eexists. split; [reflexivity|]. done.
Qed.
End cook.

(** ** Witnesses: a Project with one Pad that plays the example file *)

Definition example_digest : string := Eval vm_compute in sha256_hex example_wav.

Definition example_artifact : ArtifactRef := MkArtifactRef example_digest "audio/wav" 56.

Definition example_wav_asset : Asset := MkAsset (MkId (id_of 3)) example_artifact None None.

Definition example_pad : PadSlot :=
  MkPadSlot (MkPadSlotId 0 0) (Some (MkId (id_of 3))) default_playback None.

Definition example_with_asset : ProjectState :=
  with_assets example_stored (emplace (assets example_stored) (MkId (id_of 3)) example_wav_asset).

Definition example_cookable : ProjectState :=
  with_banks example_with_asset (set_pad_at (banks example_with_asset) (MkPadSlotId 0 0) example_pad).

Definition example_content (sha : string) : list ascii := example_wav.

Definition example_resolve : ArtifactResolver (JL := dom_lib) := λ a, success example_wav.

Definition example_source : PcmSample := MkPcmSample 44100 2 [1; -1; 2; -2; 3; -32768]%Z.

Lemma example_cookable_ok : project_ok (JL := dom_lib) example_cookable.
Proof.
  apply (with_pad_ok _ _ _ _ (MkPadSlot (MkPadSlotId 0 0) None default_playback None)).
  - change (content_ok (JL := dom_lib) (contract example_stored) example_with_asset).
    apply (with_asset_ok (contract example_stored) example_stored example_wav_asset);
      [apply example_stored_ok|done|]. by split.
  - done.
  - split; [done| |done|done]. intros id [= <-]. by eexists.
Qed.

Lemma example_cookable_pads s x : pad_at (banks example_cookable) s = Some x →
  x = example_pad ∨ pad_asset_id x = None ∧ pad_playback x = default_playback.
Proof.
  unfold example_cookable. cbn [banks with_banks].
  rewrite (pad_at_set _ _ _ _ (MkPadSlot (MkPadSlotId 0 0) None default_playback None)) by done.
  case_decide; [intros [= <-]; by left|]. intros Hx. right.
  apply pad_at_empty_banks in Hx as ->. done.
Qed.

Lemma example_trims : trims_typed example_cookable.
Proof. intros s x e [->|[_ E]]%example_cookable_pads; [done|by rewrite E]. Qed.

Lemma example_held : artifact_held (JL := dom_lib) example_content example_artifact example_source.
Proof. split; [split; [done|vm_compute; reflexivity]|done|reflexivity|done]. Qed.

Lemma example_pads_ready s x : pad_at (banks example_cookable) s = Some x →
  pad_ready (JL := dom_lib) (λ v, v) (λ _, true) example_content example_cookable x.
Proof.
  intros [->|[E _]]%example_cookable_pads i Hi; [|congruence].
  injection Hi as <-. exists example_wav_asset, example_source.
  split; [reflexivity|]. split; [exact example_held|]. by split.
Qed.

Lemma cook_complete_witness :
  ∃ snapshot, cook (JL := dom_lib) (λ v, v) (λ _, true) example_cookable (MkId (id_of 2))
                (Some example_resolve) = success snapshot ∧
              snapshot_pattern_id snapshot = MkId (id_of 2).
Proof.
  exact (cook_complete (JL := dom_lib) (λ v, v) (λ _, true) example_resolve example_content
    example_cookable (MkId (id_of 2)) _ example_cookable_ok example_trims eq_refl
    (λ a, eq_refl) example_pads_ready).
Defined.

Lemma cook_sound_witness :
  trims_typed example_cookable ∧
  match cook (JL := dom_lib) (λ v, v) (λ _, true) example_cookable (MkId (id_of 2))
          (Some example_resolve) with
  | success snapshot => ∃ p, patterns example_cookable !! MkId (id_of 2) = Some p ∧
      snapshot_ok example_cookable p snapshot
  | failure _ => True
  | thrown => False
  end.
Proof.
  split; [exact example_trims|].
  apply (cook_sound (JL := dom_lib) (λ v, v) (λ _, true) example_resolve example_cookable
    (MkId (id_of 2)) example_trims).
  split; [intros a; discriminate|]. intros a bytes E. apply success_inj in E as <-. reflexivity.
Defined.

Lemma playback_resolved_witness :
  ∃ r, resolve_pad_playback (JL := dom_lib) (λ v, v) (λ _, true) example_loop 44100 1000 = success r ∧
    plays_in r 1089.
Proof.
  pose proof (playback_resolved (JL := dom_lib) (λ v, v) (λ _, true) example_loop 44100 1000
    (or_introl eq_refl) ltac:(discriminate) ltac:(intros e; discriminate)) as H.
  destruct (resolve_pad_playback (JL := dom_lib) _ _ _ _ _) as [r|e|] eqn:E;
    [|discriminate (eq_trans (eq_sym E) eq_refl)|destruct H].
  exists r. split; [reflexivity|]. exact (proj1 (proj2 H)).
Defined.

Lemma dsp_builds_agree_witness :
  resolve_without_dsp (JL := dom_lib) example_loop 48000 1000 100 1000 ≠ success () ∧
  resolve_without_dsp (JL := dom_lib) default_playback 48000 1000 0 1000 = success () ∧
  resolve_voice_dsp (JL := dom_lib) default_playback 48000 1000 0 1000 = success neutral_dsp.
Proof.
  split; [discriminate|]. split; [reflexivity|].
  apply (dsp_builds_agree (JL := dom_lib) default_playback 48000 1000 0 1000);
    [reflexivity|intros e; discriminate|reflexivity].
Defined.
