(* ===== verification/Replay.v ===== *)
(** What the replay of a Performance plays.

    Models packages/project-cooker: performance_replay.hpp (data) and
    performance_replay.cpp.  The replay cooks the Project once for its Pads, on an
    empty Pattern of a fresh identity, and once for each Pattern slot, all through
    one cache of resolved artifacts; so [cook] is written again over a resolver
    that keeps a state ([cook_with]). *)

From S2P Require Import Prelude Json Foundation Io Text Project Playback Sequence Performance Wav Analysis Sha256 Cooker.

Record CachedArtifact := MkCachedArtifact { cached_artifact : ArtifactRef; cached_bytes : list ascii }.

Abbreviation ArtifactCache := (gmap string CachedArtifact).

Section replay.
Context `{JL : JsonLib} {float : Type}.
Context (linear_gain_of : Z → float) (isfinite : float → bool).

Abbreviation Snapshot := (@RuntimeSnapshot float).
Abbreviation Pad := (@ResolvedPad float).

(** ** Cooking with a resolver that keeps a state *)

Section stateful.
Context {C : Type} (resolve : ArtifactRef → Io C (list ascii)).

Definition resolve_sample_with (decoded : gmap string DecodedArtifact) (artifact : ArtifactRef) :
    Io C (gmap string DecodedArtifact * DecodedArtifact) :=
  if negb (valid_sha256 (sha256 artifact)) then
    pure_result (cook_error invalid_project "asset artifact hash is invalid")
  else match decoded !! sha256 artifact with
  | Some cached =>
      if negb (decoded_byte_length cached =? byte_length artifact) then
        pure_result (cook_error cook_failed "cached artifact bytes do not match declared metadata")
      else mret (decoded, cached)
  | None =>
      bytes ← resolve artifact;
      if negb (size bytes =? byte_length artifact) ||
         negb (bool_decide (sha256_hex bytes = sha256 artifact)) then
        pure_result (cook_error cook_failed "artifact bytes do not match declared metadata")
      else
        source ← pure_result (decode_wav bytes);
        prepared ← pure_result (prepare_runtime_pcm source);
        let d := MkDecodedArtifact (size bytes) source prepared in
        mret (<[sha256 artifact := d]> decoded, d)
  end.

Definition cook_pad_with (st : ProjectState) (c : CookedPads) (entry : PadSlotId * PadSlot) : Io C CookedPads :=
  let '(s, assignment) := entry in
  if negb (bool_decide (pad_id assignment = s)) then
    pure_result (cook_error invalid_project "project pad slot identity is invalid")
  else match pad_asset_id assignment with
  | None => mret c
  | Some _ =>
      asset ← pure_result (resolve_slot_asset st s);
      match asset with
      | None => pure_result (cook_error missing_asset "assigned pad references a missing asset")
      | Some a =>
          resolved ← resolve_sample_with (decoded c) (asset_artifact a);
          playback ← pure_result (resolve_playback linear_gain_of isfinite (pad_playback assignment)
                                    (decoded_source resolved.2) (decoded_prepared resolved.2));
          mret (MkCookedPads resolved.1
            (cooked_pads c ++
               [MkResolvedPad s (asset_artifact a) (decoded_prepared resolved.2) playback])
            (emplace_sample (pad_samples c) s (decoded_prepared resolved.2)))
      end
  end.

Fixpoint fold_io {A B} (f : A → B → Io C A) (a : A) (l : list B) : Io C A :=
  match l with [] => mret a | b :: l' => a' ← f a b; fold_io f a' l' end.

Definition cook_with (st : ProjectState) (id : PatternId) : Io C Snapshot :=
  if negb (is_valid_uuid (value (project_id st))) || (bpm st <? 40) || (240 <? bpm st) ||
     negb (is_valid_uuid (value id)) then
    pure_result (cook_error invalid_project "project or cook request is invalid")
  else match patterns st !! id with
  | None => pure_result (cook_error not_found "pattern does not exist")
  | Some p =>
      if negb (bool_decide (pattern_id p = id)) || negb (valid_pattern p) then
        pure_result (cook_error invalid_project "pattern is invalid")
      else
        c ← fold_io (cook_pad_with st) (MkCookedPads ∅ [] ∅) (bank_slots (banks st));
        mret (MkRuntimeSnapshot (project_id st) (pattern_id p) (revision st) (bpm st) (bars p)
                kPpq (pattern_length_ticks (bars p)) (cooked_pads c)
                (omap (cook_event (pad_samples c)) (events p)))
  end.
End stateful.

(** ** The cache of artifacts *)

Definition cached_resolver (resolve : ArtifactResolver) (artifact : ArtifactRef) : Io ArtifactCache (list ascii) :=
  λ cache,
    match cache !! sha256 artifact with
    | Some cached =>
        if negb (bool_decide (cached_artifact cached = artifact)) then
          (cache, cook_error cook_failed "reused artifact digest has conflicting metadata")
        else (cache, success (cached_bytes cached))
    | None =>
        match resolve artifact with
        | success bytes => (<[sha256 artifact := MkCachedArtifact artifact bytes]> cache, success bytes)
        | r => (cache, r)
        end
    end.

(** ** The identity of the empty Pattern *)

Definition kMaximumSuffix : N := 0xffffffffffff.

(** [std::hex << std::setw(12) << std::setfill('0')] of a number of at most 12 digits. *)
Fixpoint hex_fixed (width : nat) (n : N) : list ascii :=
  match width with O => [] | S w => hex_fixed w (n / 16) ++ [hex_digit (n mod 16)] end.

Definition projection_candidate (suffix : N) : PatternId :=
  MkId ("ffffffff-ffff-4fff-bfff-" +:+ String.string_of_list_ascii (hex_fixed 12 suffix)).

(** The loop from [suffix]; [fuel] counts the suffixes up to the number of Patterns. *)
Fixpoint first_free (fuel : nat) (st : ProjectState) (suffix : N) : option PatternId :=
  match fuel with
  | O => None
  | S fuel' =>
      if suffix <=? kMaximumSuffix then
        let candidate := projection_candidate suffix in
        if bool_decide (is_Some (patterns st !! candidate)) then first_free fuel' st (suffix + 1)
        else Some candidate
      else None
  end.

Definition projection_pattern_id (st : ProjectState) : option PatternId :=
  first_free (S (base.size (patterns st))) st 0.

(** ** The projection *)

Record PerformanceReplayBoundary := MkBoundary { offset_tick : N; boundary_event : PerformanceEvent }.

Record PerformanceReplayProjection := MkProjection {
  replay_performance_id : PerformanceId;
  resolved_revision : N;
  replay_bpm : N;
  replay_quantize_enabled : bool;
  replay_swing_percent : N;
  replay_pads : list (option Pad);
  replay_patterns : list (option Snapshot);
  boundaries : list PerformanceReplayBoundary;
  event_count : N;
  replay_initial_live_state : option PerformanceInitialLiveState
}.

Definition pad_index (s : PadSlotId) : nat := N.to_nat (bank s * 16 + pad s).

Definition place_pad (placed : list (option Pad)) (p : Pad) : Result (list (option Pad)) :=
  match placed !! pad_index (resolved_pad_slot p) with
  | Some None => success (<[pad_index (resolved_pad_slot p) := Some p]> placed)
  | _ => cook_error invalid_project "Project contains an invalid replay Pad slot"
  end.

(** The loop over the Pattern slots. *)
Fixpoint cook_slots {C} (resolve : ArtifactRef → Io C (list ascii)) (st : ProjectState)
    (l : list (option PatternId)) : Io C (list (option Snapshot)) :=
  match l with
  | [] => mret []
  | slot :: l' =>
      snapshot ← match slot with
                 | None => mret None
                 | Some id => s ← cook_with resolve st id; mret (Some s)
                 end;
      rest ← cook_slots resolve st l';
      mret (snapshot :: rest)
  end.

Definition first_tick (l : list PerformanceEvent) : N :=
  match l with [] => 0 | e :: _ => performance_event_tick e end.

Definition replay_boundaries (l : list PerformanceEvent) : list PerformanceReplayBoundary :=
  (λ e, MkBoundary (u64_sub (performance_event_tick e) (first_tick l)) e) <$> l.

(** [project.patterns.emplace(id, {id, 1, {}})]. *)
Definition projection_source (st : ProjectState) (id : PatternId) : ProjectState :=
  with_patterns st (<[id := MkPattern id 1 []]> (patterns st)).

Definition project_replay (st : ProjectState) (p : Performance) (id : PerformanceId)
    (resolve : ArtifactResolver) : Io ArtifactCache PerformanceReplayProjection :=
  match projection_pattern_id st with
  | None =>
      pure_result (cook_error invalid_project "Project has no available replay projection Pattern identity")
  | Some projection =>
      pad_snapshot ← cook_with (cached_resolver resolve) (projection_source st projection) projection;
      placed ← pure_result (fold_result place_pad (replicate 64 None) (pads pad_snapshot));
      slots ← cook_slots (cached_resolver resolve) st (pattern_slots st);
      let canonical := canonical_performance_events (performance_events p) (performance_event_profile p) in
      mret (MkProjection id (revision st) (bpm st) (quantize_enabled st) (swing_percent st) placed slots
              (replay_boundaries canonical) (N.of_nat (length canonical)) (initial_live_state p))
  end.

Definition cook_performance_replay (st : ProjectState) (id : PerformanceId)
    (resolve : option ArtifactResolver) : Result PerformanceReplayProjection :=
  match performances st !! id with
  | None => cook_error not_found "Performance does not exist"
  | Some p =>
      if negb (bool_decide (performance_id p = id)) then
        cook_error invalid_project "Performance identity does not match its map key"
      else
        validate_performance p;;
        match resolve with
        | None => cook_error invalid_argument "Performance replay requires an Artifact resolver"
        | Some resolve => (project_replay st p id resolve ∅).2
        end
  end.
End replay.
