(* ===== verification/ReplayLaws.v ===== *)
(** What a replay holds.

    The cache of artifacts changes nothing that is heard: every Pad and Pattern of
    a replay is the one the cooker makes without it; and a well-formed Project
    whose artifacts are there can be replayed. *)

From S2P Require Import Prelude Json Foundation Io Text Project Playback Sequence Performance Invariant Handler Wav Analysis Sha256 Cooker CookerLaws Replay.

Section cooking.
Context `{JL : JsonLib} {float : Type} (linear_gain_of : Z → float) (isfinite : float → bool).
Context {C : Type} (run : ArtifactRef → Io C (list ascii)) (resolve : ArtifactResolver).

Abbreviation cook := (cook linear_gain_of isfinite).
Abbreviation cook_with := (cook_with linear_gain_of isfinite run).

(** ** Cooking with a state and without *)

(** [m], when it succeeds in a state of [I], keeps it and gives what [r] gives. *)
Definition agrees (I : C → Prop) {A} (m : Io C A) (r : Result A) : Prop :=
  ∀ c c' a, I c → m c = (c', success a) → I c' ∧ r = success a.

(** When [r] succeeds, so does [m] in any state of [I], and keeps it. *)
Definition follows (I : C → Prop) {A} (m : Io C A) (r : Result A) : Prop :=
  ∀ c a, I c → r = success a → ∃ c', m c = (c', success a) ∧ I c'.

Lemma agrees_pure I {A} (r : Result A) : agrees I (pure_result r) r.
Proof. intros c c' a Hc [= <- ->]. done. Qed.
Lemma follows_pure I {A} (r : Result A) : follows I (pure_result r) r.
Proof. intros c a Hc ->. by exists c. Qed.

Lemma agrees_bind I {A B} (m : Io C A) r (f : A → Io C B) g :
  agrees I m r → (∀ a, r = success a → agrees I (f a) (g a)) → agrees I (m ≫= f) (r ≫= g).
Proof.
  intros Hm Hf c c' b Hc H. apply io_bind_success in H as (c1 & a & H1 & H2).
  destruct (Hm _ _ _ Hc H1) as [Hc1 Ha]. rewrite Ha. by eapply Hf.
Qed.

Lemma follows_bind I {A B} (m : Io C A) r (f : A → Io C B) g :
  follows I m r → (∀ a, r = success a → follows I (f a) (g a)) → follows I (m ≫= f) (r ≫= g).
Proof.
  intros Hm Hf c b Hc H. apply result_bind_success in H as (a & Ha & H).
  destruct (Hm _ _ Hc Ha) as (c1 & H1 & Hc1). destruct (Hf a Ha _ _ Hc1 H) as (c' & H2 & Hc').
  exists c'. split; [|done]. apply io_bind_success. by exists c1, a.
Qed.

(** The Pattern slots, each cooked on its own. *)
Fixpoint uncached_slots (st : ProjectState) (l : list (option PatternId)) : Result (list (option (@RuntimeSnapshot float))) :=
  match l with
  | [] => success []
  | slot :: l' =>
      snapshot ← match slot with
                 | None => success None
                 | Some id => s ← cook st id (Some resolve); success (Some s)
                 end;
      rest ← uncached_slots st l';
      success (snapshot :: rest)
  end.

Section relation.
Context (rel : ∀ A, Io C A → Result A → Prop).
Context (rel_pure : ∀ A (r : Result A), rel A (pure_result r) r).
Context (rel_bind : ∀ A B (m : Io C A) r (f : A → Io C B) g,
  rel A m r → (∀ a, r = success a → rel B (f a) (g a)) → rel B (m ≫= f) (r ≫= g)).

Lemma sample_with_rel decoded a : rel _ (run a) (resolve a) →
  rel _ (resolve_sample_with run decoded a) (resolve_sample resolve decoded a).
Proof.
  intros Hr. unfold resolve_sample_with, resolve_sample.
  destruct (negb _); [apply rel_pure|]. destruct (decoded !! sha256 a) as [d|].
  { destruct (negb _); [apply rel_pure|]. apply (rel_pure _ (success _)). }
  apply rel_bind; [exact Hr|]. intros bytes _. destruct (_ || _); [apply rel_pure|].
  apply rel_bind; [apply rel_pure|]. intros source _. apply rel_bind; [apply rel_pure|]. intros prepared _.
  apply (rel_pure _ (success _)).
Qed.

Lemma pad_with_rel st c s x : (∀ i a, assets st !! i = Some a → rel _ (run (asset_artifact a)) (resolve (asset_artifact a))) →
  rel _ (cook_pad_with linear_gain_of isfinite run st c (s, x)) (cook_pad linear_gain_of isfinite st resolve c (s, x)).
Proof.
  intros Hr. unfold cook_pad_with, cook_pad. destruct (negb _); [apply rel_pure|].
  destruct (pad_asset_id x); [|apply (rel_pure _ (success _))].
  apply rel_bind; [apply rel_pure|]. intros [a|] Ha; [|apply rel_pure].
  assert (∃ i, assets st !! i = Some a) as [i Hi].
  { unfold resolve_slot_asset in Ha. destruct (negb _); [done|].
    apply result_bind_success in Ha as (q & _ & Ha). injection Ha as Ha.
    destruct (pad_asset_id q) as [i|]; [by exists i|done]. }
  apply rel_bind; [apply sample_with_rel; by eapply Hr|]. intros resolved _.
  apply rel_bind; [apply rel_pure|]. intros playback _. apply (rel_pure _ (success _)).
Qed.

Lemma cook_with_rel st id : (∀ i a, assets st !! i = Some a → rel _ (run (asset_artifact a)) (resolve (asset_artifact a))) →
  rel _ (cook_with st id) (cook st id (Some resolve)).
Proof.
  intros Hr. unfold Replay.cook_with, Cooker.cook. cbn [has_value negb]. rewrite orb_false_r.
  destruct (_ || _); [apply rel_pure|]. destruct (patterns st !! id) as [p|]; [|apply rel_pure].
  destruct (negb _ || _); [apply rel_pure|]. cbn [throwing mbind result_bind].
  apply rel_bind; [|intros c _; apply (rel_pure _ (success _))].
  generalize (MkCookedPads (float := float) ∅ [] ∅). induction (bank_slots (banks st)) as [|[s x] l IH]; intros c.
  - apply (rel_pure _ (success _)).
  - cbn [fold_io fold_result]. apply rel_bind; [by apply pad_with_rel|]. intros c' _. apply IH.
Qed.

Lemma slots_with_rel st l : (∀ i a, assets st !! i = Some a → rel _ (run (asset_artifact a)) (resolve (asset_artifact a))) →
  rel _ (cook_slots linear_gain_of isfinite run st l)
    (uncached_slots st l).
Proof.
  intros Hr. induction l as [|slot l IH]; cbn [cook_slots uncached_slots].
  { apply (rel_pure _ (success _)). }
  apply rel_bind.
  - destruct slot as [id|]; [|apply (rel_pure _ (success _))].
    apply rel_bind; [by apply cook_with_rel|]. intros s _. apply (rel_pure _ (success _)).
  - intros snapshot _. apply rel_bind; [exact IH|]. intros rest _. apply (rel_pure _ (success _)).
Qed.
End relation.
End cooking.

(** ** The cache *)

Section cache.
Context `{JL : JsonLib} (resolve : ArtifactResolver).

(** What the cache holds was resolved. *)
Definition cache_ok (c : ArtifactCache) : Prop := ∀ sha e, c !! sha = Some e →
  sha256 (cached_artifact e) = sha ∧ resolve (cached_artifact e) = success (cached_bytes e).

Lemma cached_agrees a : agrees cache_ok (cached_resolver resolve a) (resolve a).
Proof.
  intros c c' b Hc. unfold cached_resolver. destruct (c !! sha256 a) as [e|] eqn:E.
  - case_bool_decide as Ea; [|done]. cbn [negb]. intros [= <- <-]. split; [done|].
    destruct (Hc _ _ E) as [_ <-]. by rewrite Ea.
  - destruct (resolve a) as [bytes| |] eqn:Er; intros H; injection H as <-; [|done..]. subst. split; [|done].
    intros sha e. rewrite lookup_insert_Some. intros [[<- <-]|[_ He]]; [done|by apply Hc].
Qed.

(** Artifacts that may share a cache. *)
Context (used : ArtifactRef → Prop) (Hused : ∀ a b, used a → used b → sha256 a = sha256 b → a = b).

Definition cache_used (c : ArtifactCache) : Prop :=
  cache_ok c ∧ ∀ sha e, c !! sha = Some e → used (cached_artifact e).

Lemma cached_follows a : used a → follows cache_used (cached_resolver resolve a) (resolve a).
Proof.
  intros Ha c b [Hc Hu] Hr. unfold cached_resolver. destruct (c !! sha256 a) as [e|] eqn:E.
  - destruct (Hc _ _ E) as [Hs He]. assert (cached_artifact e = a) as Ea by (apply Hused; eauto).
    rewrite bool_decide_true by done. cbn [negb]. rewrite Ea, Hr in He. injection He as ->. by exists c.
  - rewrite Hr. eexists. split; [done|]. split; intros sha e; rewrite lookup_insert_Some;
      intros [[<- <-]|[_ He]]; (done || by eapply Hu || by apply Hc).
Qed.
End cache.

(** ** The fresh identity *)

Lemma hex_fixed_length w n : length (hex_fixed w n) = w.
Proof. revert n. induction w as [|w IH]; intros n; [done|]. cbn. rewrite length_app, IH. cbn. lia. Qed.

Lemma hex_digit_inj a b : a < 16 → b < 16 → hex_digit a = hex_digit b → a = b.
Proof.
  intros Ha Hb H.
  assert (∀ x y, x ∈ seq 0 16 → y ∈ seq 0 16 → hex_digit (N.of_nat x) = hex_digit (N.of_nat y) → x = y) as Hall.
  { intros x y Hx Hy. rewrite elem_of_seq in Hx, Hy. do 16 (destruct x as [|x]; [do 16 (destruct y as [|y]; [vm_compute; congruence|]); lia|]). lia. }
  specialize (Hall (N.to_nat a) (N.to_nat b)). rewrite !N2Nat.id in Hall.
  assert (N.to_nat a = N.to_nat b); [|lia]. apply Hall; [apply elem_of_seq; lia..|done].
Qed.

Lemma hex_fixed_inj w a b : a < 16 ^ N.of_nat w → b < 16 ^ N.of_nat w → hex_fixed w a = hex_fixed w b → a = b.
Proof.
  revert a b. induction w as [|w IH]; intros a b Ha Hb H; [cbn in *; lia|].
  cbn [hex_fixed] in H. apply app_inj_tail in H as [H1 H2].
  rewrite Nat2N.inj_succ, N.pow_succ_r' in Ha, Hb.
  apply hex_digit_inj in H2; [|apply N.mod_lt; lia..].
  apply IH in H1; [|apply N.Div0.div_lt_upper_bound; lia..].
  rewrite (N.div_mod a 16), (N.div_mod b 16) by lia. lia.
Qed.

Lemma projection_candidate_inj a b : a ≤ kMaximumSuffix → b ≤ kMaximumSuffix →
  projection_candidate a = projection_candidate b → a = b.
Proof.
  unfold projection_candidate, kMaximumSuffix. intros Ha Hb H. apply (f_equal value) in H. cbn [value] in H.
  apply (inj (String.append _)) in H. apply (f_equal String.list_ascii_of_string) in H. rewrite !String.list_ascii_of_string_of_list_ascii in H.
  apply (hex_fixed_inj 12); [change (16 ^ N.of_nat 12) with 281474976710656; lia..|done].
Qed.

Lemma hex_digit_hex n : n < 16 → is_lower_hex (hex_digit n) = true.
Proof.
  intros Hn. rewrite <- (N2Nat.id n). assert (N.to_nat n < 16)%nat as Hk by lia. revert Hk. generalize (N.to_nat n).
  intros k Hk. do 16 (destruct k as [|k]; [reflexivity|]). lia.
Qed.

Lemma hex_fixed_hex w n : Forall (λ c, is_lower_hex c = true) (hex_fixed w n).
Proof.
  revert n. induction w as [|w IH]; intros n; [constructor|]. apply Forall_app_2; [apply IH|].
  constructor; [apply hex_digit_hex, N.mod_lt; lia|constructor].
Qed.

Lemma candidate_uuid n : is_valid_uuid (value (projection_candidate n)) = true.
Proof.
  pose proof (hex_fixed_length 12 n) as Hl. pose proof (hex_fixed_hex 12 n) as Hh.
  unfold projection_candidate. destruct (hex_fixed 12 n) as [|c0 [|c1 [|c2 [|c3 [|c4 [|c5 [|c6 [|c7 [|c8 [|c9 [|c10 [|c11 [|]]]]]]]]]]]]]; try done.
  repeat match goal with H : Forall _ (_ :: _) |- _ => apply Forall_cons in H as [? H] end.
  cbv -[is_lower_hex].
  repeat match goal with H : is_lower_hex ?c = true |- _ => rewrite H; clear H end. reflexivity.
Qed.

Lemma first_free_none st fuel start : start + N.of_nat fuel ≤ kMaximumSuffix + 1 → first_free fuel st start = None →
  ∀ k, (k < fuel)%nat → is_Some (patterns st !! projection_candidate (start + N.of_nat k)).
Proof.
  revert start. induction fuel as [|fuel IH]; intros start Hs H k Hk; [lia|]. cbn [first_free] in H.
  rewrite (proj2 (N.leb_le start kMaximumSuffix)) in H by lia. case_bool_decide as Hp; [|done].
  destruct k as [|k]; [by rewrite N.add_0_r|]. replace (start + N.of_nat (S k)) with (start + 1 + N.of_nat k) by lia.
  apply IH; [lia|done|lia].
Qed.

Lemma first_free_some st fuel start id : first_free fuel st start = Some id →
  patterns st !! id = None ∧ ∃ n, n ≤ kMaximumSuffix ∧ id = projection_candidate n.
Proof.
  revert start. induction fuel as [|fuel IH]; intros start H; [done|]. cbn [first_free] in H.
  destruct (N.leb_spec start kMaximumSuffix); [|done]. case_bool_decide as Hp; [by eapply IH|].
  injection H as <-. split; [by apply eq_None_not_Some|by exists start].
Qed.

(** One identity more than there are Patterns is tried. *)
Lemma projection_exists st : N.of_nat (base.size (patterns st)) ≤ kMaximumSuffix →
  ∃ id, projection_pattern_id st = Some id ∧ patterns st !! id = None ∧ is_valid_uuid (value id) = true.
Proof.
  intros Hsize. unfold projection_pattern_id.
  destruct (first_free _ _ _) as [id|] eqn:E.
  - apply first_free_some in E as (Hid & n & Hn & ->). eexists. split_and!; [done..|]. apply candidate_uuid.
  - exfalso. pose proof (first_free_none st (S (base.size (patterns st))) 0 ltac:(lia) E) as Hall.
    assert (((λ k, projection_candidate (N.of_nat k)) <$> seq 0 (S (base.size (patterns st)))) ⊆+ (map_to_list (patterns st)).*1) as Hsub.
    { apply NoDup_submseteq.
      - apply NoDup_fmap_2_strong; [|apply NoDup_seq]. intros x y Hx Hy Hxy. rewrite elem_of_seq in Hx, Hy.
        apply projection_candidate_inj in Hxy; lia.
      - intros id (k & -> & Hk)%list_elem_of_fmap. rewrite elem_of_seq in Hk.
        destruct (Hall k ltac:(lia)) as [p Hp]. apply list_elem_of_fmap. eexists (_, p). split; [done|].
        by apply elem_of_map_to_list. }
    apply submseteq_length in Hsub. rewrite !length_fmap, length_seq, length_map_to_list in Hsub. lia.
Qed.

(** ** The Pads by their slot *)

Lemma imap_fst {A B} (g : nat → B) (row : list A) : (imap (λ p a, (g p, a)) row).*1 = g <$> seq 0 (length row).
Proof.
  revert g. induction row as [|a row IH]; intros g; [done|]. cbn [length seq]. rewrite imap_cons, !fmap_cons. f_equal.
  rewrite <- fmap_S_seq, <- list_fmap_compose. apply (IH (g ∘ S)).
Qed.

Definition slots_from (k n : nat) : list PadSlotId :=
  mjoin ((λ b, (λ p, MkPadSlotId (N.of_nat b) (N.of_nat p)) <$> seq 0 16) <$> seq k n).

Lemma bank_slots_keys bs : length bs = 4%nat → Forall (λ row, length row = 16%nat) bs →
  (bank_slots bs).*1 = slots_from 0 4.
Proof.
  intros Hn H. unfold bank_slots. rewrite <- Hn. clear Hn.
  assert (∀ k, (mjoin (imap (λ b row, imap (λ p (x : PadSlot), (MkPadSlotId (N.of_nat (k + b)) (N.of_nat p), x)) row) bs)).*1 =
    slots_from k (length bs)) as Hk; [|apply (Hk 0%nat)].
  unfold slots_from. induction H as [|row rows Hrow _ IH]; intros k; [done|].
  rewrite imap_cons. cbn [mjoin list_join length seq]. rewrite !fmap_cons, fmap_app. cbn [mjoin list_join]. f_equal.
  - rewrite imap_fst, Hrow, Nat.add_0_r. done.
  - refine (eq_trans _ (IH (S k))). f_equal. f_equal. apply imap_ext. intros b r _. cbn.
    apply imap_ext. intros p x _. do 2 f_equal. lia.
Qed.

Lemma slots_indexed : pad_index <$> slots_from 0 4 = seq 0 64.
Proof. reflexivity. Qed.

Lemma assigned_indexed st : state_shape st → NoDup (pad_index <$> assigned (bank_slots (banks st))) ∧
  Forall (λ s, (pad_index s < 64)%nat) (assigned (bank_slots (banks st))).
Proof.
  intros [Hb Hr _]. pose proof (bank_slots_keys _ Hb Hr) as Hk.
  assert (assigned (bank_slots (banks st)) `sublist_of` slots_from 0 4) as Hs.
  { rewrite <- Hk. unfold assigned. apply fmap_sublist, sublist_filter. }
  pose proof (fmap_sublist pad_index _ _ Hs) as Hi. rewrite slots_indexed in Hi. split.
  - eapply sublist_NoDup; [|exact Hi]. apply NoDup_seq.
  - apply Forall_forall. intros s Hin.
    assert (pad_index s ∈ seq 0 64) as H; [|apply elem_of_seq in H; lia].
    eapply elem_of_sublist; [|exact Hi]. by apply list_elem_of_fmap_2.
Qed.

Section places.
Context `{JL : JsonLib} {float : Type}.
Abbreviation index q := (pad_index (resolved_pad_slot q)).

Lemma place_pads_exact (l : list (@ResolvedPad float)) placed : fold_result place_pad (replicate 64 None) l = success placed →
  length placed = 64%nat ∧ ∀ k q, placed !! k = Some (Some q) ↔ q ∈ l ∧ index q = k.
Proof.
  intros H. apply (fold_result_inv (λ done placed, length placed = 64%nat ∧
    ∀ k q, placed !! k = Some (Some q) ↔ q ∈ done ∧ index q = k)) with (done := []) in H; [exact H| |].
  - clear H. intros done s a s' [Hl Hd]. unfold place_pad. destruct (s !! index a) as [[b|]|] eqn:E; [done| |done].
    intros [= <-]. split; [by rewrite length_insert|]. intros k q. rewrite elem_of_app, list_elem_of_singleton.
    destruct (decide (index a = k)) as [<-|Hk].
    + rewrite list_lookup_insert_eq by (by eapply lookup_lt_Some). split; [intros [= <-]; by split; [right|]|].
      intros [[Hin| ->] Hq]; [|done]. exfalso. assert (s !! index a = Some (Some q)) as Hs by (by apply Hd). congruence.
    + rewrite list_lookup_insert_ne by done. rewrite Hd. naive_solver.
  - split; [by rewrite length_replicate|]. intros k q. rewrite lookup_replicate. set_solver.
Qed.

Lemma place_pads_complete (l : list (@ResolvedPad float)) placed : length placed = 64%nat →
  NoDup (pad_index <$> (resolved_pad_slot <$> l)) → Forall (λ s, (pad_index s < 64)%nat) (resolved_pad_slot <$> l) →
  (∀ q, q ∈ l → placed !! index q = Some None) → ∃ placed', fold_result place_pad placed l = success placed'.
Proof.
  revert placed. induction l as [|q l IH]; intros placed Hl Hn Hf Hp; [by exists placed|].
  rewrite !fmap_cons in Hn, Hf. apply NoDup_cons in Hn as [Hq Hn]. apply Forall_cons in Hf as [Hq64 Hf].
  assert (place_pad placed q = success (<[index q := Some q]> placed)) as E.
  { unfold place_pad. by rewrite Hp by left. }
  cbn [fold_result]. rewrite E. cbn [mbind result_bind]. clear E.
  apply IH; [by rewrite length_insert|done..|]. intros q' Hin. rewrite list_lookup_insert_ne; [apply Hp; by right|].
  intros E. apply Hq. rewrite E. by do 2 apply list_elem_of_fmap_2.
Qed.
End places.

(** ** The replay *)

Section replay.
Context `{JL : JsonLib} {float : Type} (linear_gain_of : Z → float) (isfinite : float → bool).
Context (resolve : ArtifactResolver).

Abbreviation cook := (cook linear_gain_of isfinite).
Abbreviation cook_performance_replay := (cook_performance_replay linear_gain_of isfinite).

(** The Pad of a slot: the sound one of its Asset, or none. *)
Definition pad_replayed (st : ProjectState) (placed : list (option (@ResolvedPad float))) (s : PadSlotId) : Prop :=
  match placed !! pad_index s with
  | Some (Some q) => resolved_pad_slot q = s ∧ pad_sound st q
  | Some None => ∀ x, pad_at (banks st) s = Some x → pad_asset_id x = None
  | None => False
  end.

Definition slot_replayed (st : ProjectState) (slot : option PatternId) (snapshot : option (@RuntimeSnapshot float)) : Prop :=
  match slot with
  | None => snapshot = None
  | Some i => ∃ s, snapshot = Some s ∧ cook st i (Some resolve) = success s
  end.

Definition offsets_of (l : list PerformanceEvent) : list N :=
  (λ e, performance_event_tick e - first_tick l) <$> l.

(** Ticks are 64-bit numbers. *)
Definition ticks_typed (l : list PerformanceEvent) : Prop := Forall (λ e, performance_event_tick e < 2 ^ 64) l.

Lemma profile_key_tick profile a b : key_le (profile_key profile) a b →
  performance_event_tick a ≤ performance_event_tick b.
Proof.
  unfold key_le. destruct profile; cbn; rewrite orb_true_iff, andb_true_iff, N.ltb_lt, N.eqb_eq; lia.
Qed.

Lemma first_tick_exact profile l e : ticks_typed l → StronglySorted (key_le (profile_key profile)) l → e ∈ l →
  u64_sub (performance_event_tick e) (first_tick l) = performance_event_tick e - first_tick l.
Proof.
  intros Ht Hs He. apply u64_sub_le; [|unfold ticks_typed in Ht; rewrite Forall_forall in Ht; by apply Ht].
  destruct Hs as [|a l Hs Ha]; [by apply not_elem_of_nil in He|]. cbn [first_tick].
  apply elem_of_cons in He as [->|He]; [done|]. rewrite Forall_forall in Ha. by eapply profile_key_tick, Ha.
Qed.

Lemma slot_found st s x : state_shape st → pad_at (banks st) s = Some x → (s, x) ∈ bank_slots (banks st).
Proof.
  intros [Hb Hr _] Hx. pose proof (bank_slots_keys _ Hb Hr) as Hk.
  assert (s ∈ (bank_slots (banks st)).*1) as Hs.
  { rewrite Hk. unfold pad_at in Hx. destruct (banks st !! N.to_nat (bank s)) as [row|] eqn:E; [|done]. cbn [mbind option_bind] in Hx.
    pose proof (lookup_lt_Some _ _ _ E). pose proof (lookup_lt_Some _ _ _ Hx).
    rewrite Forall_forall in Hr. specialize (Hr row (list_elem_of_lookup_2 _ _ _ E)).
    unfold slots_from. apply list_elem_of_join. eexists. split; [|apply list_elem_of_fmap_2; apply elem_of_seq; split; [apply Nat.le_0_l|]; rewrite <- Hb; done].
    apply list_elem_of_fmap. exists (N.to_nat (pad s)). split; [by rewrite !N2Nat.id; destruct s|apply elem_of_seq; lia]. }
  apply list_elem_of_fmap in Hs as ([s' x'] & -> & Hin). cbn in Hx.
  pose proof (bank_slots_elem _ _ _ Hin) as Hx'. cbn in *. congruence.
Qed.

Lemma slots_replayed st l snapshots : uncached_slots linear_gain_of isfinite resolve st l = success snapshots →
  Forall2 (slot_replayed st) l snapshots.
Proof.
  revert snapshots. induction l as [|slot l IH]; intros snapshots H; cbn [uncached_slots] in H.
  - injection H as <-. constructor.
  - apply result_bind_success in H as (s & Hs & H). apply result_bind_success in H as (rest & Hrest & H).
    injection H as <-. constructor; [|by apply IH]. destruct slot as [i|]; [|by injection Hs as <-].
    apply result_bind_success in Hs as (a & Ha & Hs). injection Hs as <-. by exists a.
Qed.

Lemma pads_replayed st i snapshot placed : state_shape st → trims_typed st → resolver_ok resolve →
  patterns st !! i = None → cook (projection_source st i) i (Some resolve) = success snapshot →
  fold_result place_pad (replicate 64 None) (pads snapshot) = success placed →
  length placed = 64%nat ∧ ∀ s, is_valid_slot s = true → pad_replayed st placed s.
Proof.
  intros Hshape Ht Hr Hi Hcook Hp. apply place_pads_exact in Hp as [Hl Hp]. split; [done|].
  pose proof (cook_sound linear_gain_of isfinite resolve (projection_source st i) i Ht Hr) as Hs.
  rewrite Hcook in Hs. destruct Hs as (p & _ & [Hslots Hsound _ _ _]).
  change (banks (projection_source st i)) with (banks st) in Hslots.
  intros s Hs. apply is_valid_slot_spec in Hs as [Hb Hpad]. unfold pad_replayed.
  destruct (lookup_lt_is_Some_2 placed (pad_index s)) as [o Eo]. { unfold pad_index. rewrite Hl. lia. }
  rewrite Eo. destruct o as [q|].
  - apply Hp in Eo as [Hin Hq]. rewrite Forall_forall in Hsound. specialize (Hsound q Hin).
    split; [|by destruct Hsound; split].
    assert (resolved_pad_slot q ∈ assigned (bank_slots (banks st))) as Ha.
    { rewrite <- Hslots. by apply list_elem_of_fmap_2. }
    apply list_elem_of_fmap in Ha as ([s' x] & E & [_ Ha]%list_elem_of_filter). cbn in E.
    apply bank_slots_valid, is_valid_slot_spec in Ha; [|done]. rewrite <- E in Ha. unfold pad_index in Hq.
    destruct (resolved_pad_slot q), s. cbn in *. f_equal; lia.
  - intros x Hx. destruct (pad_asset_id x) as [a|] eqn:Ea; [|done]. exfalso.
    assert (s ∈ assigned (bank_slots (banks st))) as Ha.
    { unfold assigned. apply list_elem_of_fmap. exists (s, x). split; [done|].
      apply list_elem_of_filter. split; [cbn; rewrite Ea; by eexists|by apply slot_found]. }
    rewrite <- Hslots in Ha. apply list_elem_of_fmap in Ha as (q & -> & Hq).
    assert (placed !! pad_index (resolved_pad_slot q) = Some (Some q)) as E by (by apply Hp). congruence.
Qed.

(** C9: a replay plays the Performance of the Project it was made from.  Of a
    well-formed Project, whatever the resolver answers, a replay that is returned
    has: for each of the 64 slots the sound Pad of the slot's Asset, or none where
    there is no Asset; for each Pattern slot exactly the snapshot that cooking its
    Pattern alone, without the shared cache, gives; and the events of the
    Performance in their order, each at its distance from the first one, with
    their number and the recorded live state. *)
Theorem replay_exact st id r : project_ok st → trims_typed st → resolver_ok resolve →
  (∀ p, performances st !! id = Some p → ticks_typed (performance_events p)) →
  cook_performance_replay st id (Some resolve) = success r →
  ∃ p, performances st !! id = Some p ∧ validate_performance p = success () ∧
    (replay_performance_id r, resolved_revision r, replay_bpm r, replay_initial_live_state r) =
      (id, revision st, bpm st, initial_live_state p) ∧
    (∀ s, is_valid_slot s = true → pad_replayed st (replay_pads r) s) ∧
    Forall2 (slot_replayed st) (pattern_slots st) (replay_patterns r) ∧
    boundary_event <$> boundaries r = performance_events p ∧
    offset_tick <$> boundaries r = offsets_of (performance_events p) ∧
    event_count r = N.of_nat (length (performance_events p)).
Proof.
  intros Hok Ht Hr Htick H. pose proof Hok as [Hshape _ _ _ _ _ _ _ _ Hperf]. unfold Replay.cook_performance_replay in H.
  destruct (performances st !! id) as [p|] eqn:Ep; [|done]. destruct (negb _); [done|].
  apply result_bind_success in H as ([] & Hv & H). exists p. split; [done|]. split; [done|].
  destruct (Hperf id p Ep) as (_ & Hps & _).
  assert (canonical_performance_events (performance_events p) (performance_event_profile p) = performance_events p) as Hc.
  { symmetry. by apply canonical_fixpoint, (validate_performance_ok p Hps). }
  destruct (project_replay _ _ st p id resolve ∅) as [cache r'] eqn:E. cbn [snd] in H. subst r'.
  unfold project_replay in E. destruct (projection_pattern_id st) as [i|] eqn:Ei; [|done].
  apply first_free_some in Ei as [Ei _].
  apply io_bind_success in E as (c1 & snapshot & Hcook & E).
  apply (cook_with_rel linear_gain_of isfinite _ resolve (λ A, agrees (cache_ok resolve))) in Hcook as [Hc1 Hcook];
    [|apply agrees_pure|by intros; apply agrees_bind|by intros; apply cached_agrees|by intros sha e ?%lookup_empty_Some].
  apply io_bind_success in E as (c2 & placed & Hplaced & E). injection Hplaced as <- Hplaced.
  apply io_bind_success in E as (c3 & slots & Hslots & E). injection E as <- <-. cbn.
  apply (slots_with_rel linear_gain_of isfinite _ resolve (λ A, agrees (cache_ok resolve))) in Hslots as [_ Hslots];
    [|apply agrees_pure|by intros; apply agrees_bind|by intros; apply cached_agrees|done].
  rewrite Hc. split; [done|]. split; [by apply (pads_replayed _ _ _ _ Hshape Ht Hr Ei Hcook Hplaced)|].
  split; [by apply slots_replayed|]. unfold replay_boundaries, offsets_of. rewrite <- !list_fmap_compose.
  split; [apply list_fmap_id|]. split; [|done]. apply list_fmap_ext. intros k e He. cbn.
  eapply first_tick_exact; [by apply Htick|by apply (validate_performance_ok p Hps)|by eapply list_elem_of_lookup_2].
Qed.

(** ** A replay of a well-formed Project *)

Context (content : string → list ascii).

Lemma projection_ok st i : project_ok st → is_valid_uuid (value i) = true → project_ok (projection_source st i).
Proof.
  intros Hok Hi. apply (with_pattern_ok (contract st)); [done|]. split; [done| |split; constructor].
  apply validate_pattern_ok. split_and!; [done|done|constructor].
Qed.

Lemma slots_complete st l : project_ok st → trims_typed st → (∀ a, resolve a = success (content (sha256 a))) →
  (∀ s x, pad_at (banks st) s = Some x → pad_ready linear_gain_of isfinite content st x) →
  (∀ i, Some i ∈ l → is_Some (patterns st !! i)) →
  ∃ snapshots, uncached_slots linear_gain_of isfinite resolve st l = success snapshots.
Proof.
  intros Hok Ht Hres Hready. induction l as [|slot l IH]; intros Hl; [by eexists|]. cbn [uncached_slots].
  destruct IH as [rest Hrest]. { intros i Hi. apply Hl. by right. }
  destruct slot as [i|]; [|rewrite Hrest; by eexists].
  destruct (Hl i) as [p Hp]; [left|].
  destruct (cook_complete linear_gain_of isfinite resolve content st i p Hok Ht Hp Hres Hready) as (s & Hs & _).
  rewrite Hs. cbn [mbind result_bind]. rewrite Hrest. by eexists.
Qed.

(** C10: whatever a well-formed Project has recorded can be replayed.  When the
    artifacts of its assigned Pads are there and decode, when two Assets with the
    same bytes have the same media type, and when there are fewer than 2^48
    Patterns, every Performance of the Project has a replay: a fresh identity for
    the empty Pattern is always found, no Pad is placed twice, and the cache of
    artifacts never refuses. *)
Theorem replay_complete st id p : project_ok st → trims_typed st → resolver_ok resolve → performances st !! id = Some p →
  N.of_nat (base.size (patterns st)) ≤ kMaximumSuffix →
  (∀ a, resolve a = success (content (sha256 a))) →
  (∀ s x, pad_at (banks st) s = Some x → pad_ready linear_gain_of isfinite content st x) →
  (∀ i j a b, assets st !! i = Some a → assets st !! j = Some b →
     sha256 (asset_artifact a) = sha256 (asset_artifact b) → asset_artifact a = asset_artifact b) →
  ∃ r, cook_performance_replay st id (Some resolve) = success r.
Proof.
  intros Hok Ht Hr Hp Hsize Hres Hready Hsame. pose proof Hok as [Hshape _ _ _ _ _ _ [Hslots _] _ Hperf].
  destruct (Hperf id p Hp) as (Hid & _ & Hv).
  unfold Replay.cook_performance_replay. rewrite Hp, bool_decide_true, Hv by done. cbn [negb mbind result_bind].
  unfold project_replay. destruct (projection_exists st Hsize) as (i & -> & Hfresh & Hu).
  set (used a := ∃ j x, assets st !! j = Some x ∧ asset_artifact x = a).
  assert (∀ a b, used a → used b → sha256 a = sha256 b → a = b) as Hused.
  { intros a b (j & x & Hx & <-) (k & y & Hy & <-). by apply (Hsame j k). }
  assert (∀ j x, assets st !! j = Some x →
    follows (cache_used resolve used) (cached_resolver resolve (asset_artifact x)) (resolve (asset_artifact x))) as Hf.
  { intros j x Hx. apply cached_follows; [done|by exists j, x]. }
  pose proof (projection_ok st i Hok Hu) as Hok'.
  destruct (cook_complete linear_gain_of isfinite resolve content (projection_source st i) i (MkPattern i 1 [])
    Hok' Ht (lookup_insert_eq _ _ _) Hres Hready) as (snapshot & Hcook & _).
  pose proof (cook_with_rel linear_gain_of isfinite (cached_resolver resolve) resolve
    (λ A, follows (cache_used resolve used)) (λ A, follows_pure _) (λ A B m r f g, follows_bind _ m r f g)) as Hrel.
  destruct (Hrel (projection_source st i) i Hf ∅ snapshot) as (c1 & E1 & Hc1); [split; intros sha e He;
    by rewrite lookup_empty in He|exact Hcook|].
  pose proof (cook_sound linear_gain_of isfinite resolve (projection_source st i) i Ht Hr) as Hs. rewrite Hcook in Hs.
  destruct Hs as (q & _ & [Hpads _ _ _ _]). destruct (assigned_indexed st Hshape) as [Hn H64].
  change (banks (projection_source st i)) with (banks st) in Hpads. rewrite <- Hpads in Hn, H64.
  destruct (place_pads_complete (pads snapshot) (replicate 64 None)) as [placed Hplaced]; [done..| |].
  { intros q' Hq'. apply lookup_replicate. split; [done|]. rewrite Forall_forall in H64. by apply H64, list_elem_of_fmap_2. }
  destruct (slots_complete st (pattern_slots st) Hok Ht Hres Hready) as [slots Huncached].
  { intros j Hj. rewrite Forall_forall in Hslots. by apply (Hslots (Some j)). }
  pose proof (slots_with_rel linear_gain_of isfinite (cached_resolver resolve) resolve
    (λ A, follows (cache_used resolve used)) (λ A, follows_pure _) (λ A B m r f g, follows_bind _ m r f g)) as Hrel'.
  destruct (Hrel' st (pattern_slots st) Hf c1 slots Hc1 Huncached) as (c2 & E2 & _).
  unfold mbind at 1, io_bind at 1. rewrite E1. unfold mbind at 1, io_bind at 1, pure_result at 1. rewrite Hplaced.
  unfold mbind, io_bind. rewrite E2. by eexists.
Qed.
End replay.

(** ** Witnesses *)

Definition replayed_id : PerformanceId := performance_id example_performance.

Definition example_replayable : ProjectState :=
  with_performances example_cookable {[ replayed_id := example_performance ]}.

Lemma example_replayable_ok : project_ok (JL := dom_lib) example_replayable.
Proof.
  destruct example_cookable_ok as [[] ? ? ? ? ? ? ? ? _]. split; try (done || by split).
  cbn [performances example_replayable with_performances]. intros id p [<- <-]%lookup_singleton_Some.
  split; [done|]. split; [|reflexivity]. intros s Hs. injection Hs as <-. reflexivity.
Qed.

Lemma replay_complete_witness :
  ∃ r, cook_performance_replay (JL := dom_lib) (λ v, v) (λ _, true) example_replayable replayed_id
         (Some example_resolve) = success r.
Proof.
  apply (replay_complete (JL := dom_lib) (λ v, v) (λ _, true) example_resolve example_content
    example_replayable replayed_id example_performance example_replayable_ok example_trims).
  - split; [intros a; discriminate|]. intros a bytes E. apply success_inj in E as <-. reflexivity.
  - reflexivity.
  - unfold kMaximumSuffix. apply N.leb_le. vm_compute. reflexivity.
  - intros a. reflexivity.
  - exact example_pads_ready.
  - intros i j a b Ha Hb _.
    assert (map_Forall (λ _ x, asset_artifact x = example_artifact) (assets example_replayable)) as Hall.
    { apply (bool_decide_unpack _). vm_compute. exact I. }
    by rewrite (Hall i a Ha), (Hall j b Hb).
Defined.

(** The replay of the example: one Pad, no Pattern slot, and the four events. *)
Definition example_replay : option (PerformanceReplayProjection (float := Z)) :=
  match cook_performance_replay (JL := dom_lib) (λ v, v) (λ _, true) example_replayable replayed_id
          (Some example_resolve) with success r => Some r | _ => None end.

Lemma replay_exact_witness : ∃ r, example_replay = Some r ∧
  boundary_event <$> boundaries r = performance_events example_performance ∧
  offset_tick <$> boundaries r = [0; 0; 480; 960].
Proof.
  destruct example_replay as [r|] eqn:E; [|vm_compute in E; discriminate E]. exists r. split; [reflexivity|].
  assert (cook_performance_replay (JL := dom_lib) (λ v, v) (λ _, true) example_replayable replayed_id
    (Some example_resolve) = success r) as Hr.
  { unfold example_replay in E. destruct (cook_performance_replay _ _ _ _ _) as [r'| |]; [|discriminate E..].
    by injection E as ->. }
  destruct (replay_exact (JL := dom_lib) (λ v, v) (λ _, true) example_resolve example_replayable replayed_id r
    example_replayable_ok example_trims) as (p & Hp & _ & _ & _ & _ & Hb & Ho & _); [| |exact Hr|].
  - split; [intros a; discriminate|]. intros a bytes Eb. apply success_inj in Eb as <-. reflexivity.
  - intros p Hp. injection Hp as <-. repeat constructor.
  - injection Hp as <-. split; [exact Hb|]. rewrite Ho. reflexivity.
Defined.
