(* ===== verification/Provider.v ===== *)
(** Providers: capabilities and the registry.

    Models packages/provider-sdk: capability.hpp and capability.cpp (descriptors,
    their canonical JSON), registry.hpp and registry.cpp ([Registry]).  A Provider
    is host code: its name and its capabilities are data here, what it runs is a
    parameter, as are the validators of its outputs. *)

From S2P Require Import Prelude Json Foundation Io Text Soundset.

(** ** Characters and names *)

(** [std::isalnum] in the C locale. *)
Definition is_alnum (c : ascii) : bool :=
  char_in c "A" "Z" || char_in c "a" "z" || char_in c "0" "9".
Definition is_lower (c : ascii) : bool := char_in c "a" "z".

Definition valid_token (value : string) : bool :=
  negb (is_empty (chars value)) &&
  forallb (λ c, is_alnum c || ascii_eqb c "." || ascii_eqb c "_" || ascii_eqb c "-") (chars value).

(** The parts between the separators; [part] is what was read since the last one. *)
Fixpoint split_on (separator : ascii) (part rest : list ascii) : list (list ascii) :=
  match rest with
  | [] => [part]
  | c :: rest' =>
      if ascii_eqb c separator then part :: split_on separator [] rest'
      else split_on separator (part ++ [c]) rest'
  end.

Definition segment_valid (segment : list ascii) : bool :=
  match segment with
  | [] => false
  | c :: rest => is_lower c && forallb (λ c, is_lower c || is_digit c || ascii_eqb c "-") rest
  end.

Definition valid_contract_id (value : string) : bool :=
  existsb (λ c, ascii_eqb c ".") (chars value) && forallb segment_valid (split_on "." [] (chars value)).

Definition semver_component (component : list ascii) : bool :=
  negb (is_empty component) &&
  negb (Nat.ltb 1 (length component) && ascii_eqb (value_or (head component) " "%char) "0") &&
  forallb is_digit component.

(** Both [valid_semver], of the registry and of the attempt store. *)
Definition valid_semver (value : string) : bool :=
  let components := split_on "." [] (chars value) in
  forallb semver_component components && Nat.eqb (length components) 3.

Definition valid_port_name (value : string) : bool :=
  match chars value with
  | [] => false
  | c :: rest => is_lower c && forallb (λ c, is_lower c || is_digit c || ascii_eqb c "_") rest
  end.

(** ** Descriptors *)

Inductive Determinism := deterministic | seeded | nondeterministic.
Inductive ResourceClass := light | cpu | gpu | remote.

Record ArtifactPortDescriptor := MkPort {
  port_name : string;
  media_types : list string;
  schema_id : string;
  schema_version : string;
  port_required : bool;
  max_count : N
}.

#[export] Instance ArtifactPortDescriptor_eq_dec : EqDecision ArtifactPortDescriptor.
Proof. solve_decision. Defined.

Record ResourceRequirements := MkResources { resource_class : ResourceClass; memory_mib : option N }.
Record ExecutionPolicy := MkExecution { timeout_ms : N; max_attempts : N }.

Record CapabilityPolicy := MkPolicy {
  data_classifications : list string;
  regions : list string;
  required_permissions : list string
}.

Record CapabilityDescriptor := MkCapability {
  capability_id : string;
  contract_version : string;
  input_artifacts : list ArtifactPortDescriptor;
  output_artifacts : list ArtifactPortDescriptor;
  determinism : Determinism;
  progress_events : list string;
  error_codes : list string;
  resources : ResourceRequirements;
  execution : ExecutionPolicy;
  policy : CapabilityPolicy;
  platforms : list string;
  max_output_bytes : N
}.

Definition determinism_name (d : Determinism) : string :=
  match d with
  | deterministic => "deterministic" | seeded => "seeded" | nondeterministic => "nondeterministic"
  end.

Definition resource_class_name (c : ResourceClass) : string :=
  match c with light => "light" | cpu => "cpu" | gpu => "gpu" | remote => "remote" end.

(** [std::sort] of strings. *)
Definition sorted_strings (values : list string) : list string := stable_sort bytes values.

(** [std::sort] by name; the descriptors that are kept have distinct names. *)
Definition sorted_ports (ports : list ArtifactPortDescriptor) : list ArtifactPortDescriptor :=
  stable_sort (λ p, bytes (port_name p)) ports.

Record ArtifactBinding := MkBinding { binding_port : string; binding_artifact : ArtifactRef }.
#[export] Instance ArtifactBinding_eq_dec : EqDecision ArtifactBinding.
Proof. solve_decision. Defined.

Section json.
Context `{JL : JsonLib}.

Definition strings_json (values : list string) : json := j_array (j_string <$> values).

Definition port_json (p : ArtifactPortDescriptor) : json :=
  j_object [("media_types", strings_json (sorted_strings (media_types p))); ("max_count", j_uint (max_count p));
            ("name", j_string (port_name p)); ("required", j_bool (port_required p));
            ("schema_id", j_string (schema_id p)); ("schema_version", j_string (schema_version p))].

Definition ports_json (ports : list ArtifactPortDescriptor) : json := j_array (port_json <$> sorted_ports ports).

Definition resources_json (r : ResourceRequirements) : json :=
  let base := j_object [("class", j_string (resource_class_name (resource_class r)))] in
  match memory_mib r with Some n => j_set base "memory_mib" (j_uint n) | None => base end.

Definition capability_contract_json (c : CapabilityDescriptor) : json :=
  j_object
    [("capability_id", j_string (capability_id c)); ("contract", j_string "lmdj.capability.v2");
     ("contract_version", j_string (contract_version c));
     ("determinism", j_string (determinism_name (determinism c)));
     ("errors", strings_json (sorted_strings (error_codes c)));
     ("execution", j_object [("max_attempts", j_uint (max_attempts (execution c)));
                             ("timeout_ms", j_uint (timeout_ms (execution c)))]);
     ("input_artifacts", ports_json (input_artifacts c)); ("output_artifacts", ports_json (output_artifacts c));
     ("policy", j_object
        [("data_classifications", strings_json (sorted_strings (data_classifications (policy c))));
         ("regions", strings_json (sorted_strings (regions (policy c))));
         ("required_permissions", strings_json (sorted_strings (required_permissions (policy c))))]);
     ("progress_events", strings_json (sorted_strings (progress_events c)));
     ("resources", resources_json (resources c))].

Definition binding_to_json (b : ArtifactBinding) : json :=
  j_object [("artifact", artifact_to_json (binding_artifact b)); ("port", j_string (binding_port b))].

Definition canonical_capability_json (dump : json → string) (c : CapabilityDescriptor) : string :=
  canonical_json dump (capability_contract_json c).
End json.

(** ** Normalizing and validating *)

Fixpoint adjacent_find (values : list string) : bool :=
  match values with
  | a :: (b :: _) as rest => bool_decide (a = b) || adjacent_find rest
  | _ => false
  end.

(** Both [unique_nonempty]. *)
Definition unique_nonempty (values : list string) : bool :=
  negb (existsb (λ v, bool_decide (v = "")) values) && negb (adjacent_find (sorted_strings values)).

Definition normalize_port (p : ArtifactPortDescriptor) : ArtifactPortDescriptor :=
  MkPort (port_name p) (sorted_strings (media_types p)) (schema_id p) (schema_version p) (port_required p) (max_count p).

Definition normalize_ports (ports : list ArtifactPortDescriptor) : list ArtifactPortDescriptor :=
  sorted_ports (normalize_port <$> ports).

Definition normalize_capability (c : CapabilityDescriptor) : CapabilityDescriptor :=
  MkCapability (capability_id c) (contract_version c) (normalize_ports (input_artifacts c))
    (normalize_ports (output_artifacts c)) (determinism c) (sorted_strings (progress_events c))
    (sorted_strings (error_codes c)) (resources c) (execution c)
    (MkPolicy (sorted_strings (data_classifications (policy c))) (sorted_strings (regions (policy c)))
       (sorted_strings (required_permissions (policy c))))
    (sorted_strings (platforms c)) (max_output_bytes c).

Definition valid_port (p : ArtifactPortDescriptor) : bool :=
  valid_port_name (port_name p) && negb (is_empty (media_types p)) && unique_nonempty (media_types p) &&
  valid_contract_id (schema_id p) && valid_semver (schema_version p) && negb (max_count p =? 0).

(** The loop of [valid_ports] with the names it has seen. *)
Fixpoint valid_ports_from (names : gset string) (ports : list ArtifactPortDescriptor) : bool :=
  match ports with
  | [] => true
  | p :: ports' =>
      valid_port p && negb (bool_decide (port_name p ∈ names)) &&
      valid_ports_from ({[ port_name p ]} ∪ names) ports'
  end.
Definition valid_ports (ports : list ArtifactPortDescriptor) : bool := valid_ports_from ∅ ports.

Definition all_error_codes : list ErrorCode :=
  [invalid_argument; not_found; revision_conflict; duplicate_id; unsupported_audio; missing_asset;
   invalid_project; cook_failed; provider_not_found; provider_failed; permission_denied; io_error; internal_error].

Definition valid_capability (c : CapabilityDescriptor) : bool :=
  valid_contract_id (capability_id c) && valid_semver (contract_version c) && valid_ports (input_artifacts c) &&
  negb (is_empty (output_artifacts c)) && valid_ports (output_artifacts c) &&
  unique_nonempty (progress_events c) && unique_nonempty (error_codes c) &&
  forallb (λ code, bool_decide (code ∈ error_code_name <$> all_error_codes)) (error_codes c) &&
  (0 <? timeout_ms (execution c)) && (0 <? max_attempts (execution c)) &&
  unique_nonempty (data_classifications (policy c)) && negb (is_empty (platforms c)) &&
  unique_nonempty (platforms c) && unique_nonempty (regions (policy c)) &&
  unique_nonempty (required_permissions (policy c)).

(** ** The registry *)

Record ModelIdentity := MkModel { model_id : string; model_version : string; model_sha256 : string }.
#[export] Instance ModelIdentity_eq_dec : EqDecision ModelIdentity.
Proof. solve_decision. Defined.

Record DomainErrorValidation := MkDomainError { domain_capability : string; domain_code : ErrorCode; domain_reason : string }.

Section registry.
Context `{JL : JsonLib} {Run Validator : Type}.

(** What the registry calls of a Provider; [provider_run] is what an execution calls. *)
Record Provider := MkProvider {
  provider_name : string;
  provider_capabilities : list string;
  provider_run : Run
}.

(** [validate] may be empty, as any [std::function]. *)
Record OutputValidation := MkValidation {
  validated_capability : string;
  validated_port : string;
  validate : option Validator;
  scratch_bytes : N
}.

Record ProviderRegistration := MkRegistration {
  implementation : option Provider;
  registered_version : string;
  registered_sha256 : string;
  registered_model : option ModelIdentity;
  registered_capabilities : list CapabilityDescriptor;
  output_validation : list OutputValidation;
  domain_errors : list DomainErrorValidation
}.

Record ProviderDescriptor := MkDescriptor {
  provider_id : string;
  provider_version : string;
  provider_sha256 : string;
  model_identity : option ModelIdentity;
  capabilities : list CapabilityDescriptor
}.

Record ProviderEntry := MkProviderEntry {
  descriptor : ProviderDescriptor;
  entry_implementation : Provider;
  entry_validation : list OutputValidation;
  entry_domain_errors : list DomainErrorValidation
}.

(** [Registry]: its [providers_]. *)
Abbreviation Registry := (gmap string ProviderEntry).

Definition invalid_registration (message : string) : Error := plain_error invalid_argument message.

Definition model_valid (m : option ModelIdentity) : bool :=
  match m with
  | None => true
  | Some m => valid_token (model_id m) && negb (bool_decide (model_version m = "")) && valid_sha256 (model_sha256 m)
  end.

(** [find_if] by id. *)
Definition find_capability (id : string) (l : list CapabilityDescriptor) : option CapabilityDescriptor :=
  snd <$> list_find (λ c, capability_id c = id) l.

(** The loop over the descriptors, with the ids it has seen. *)
Fixpoint normalize_all (ids : gset string) (l : list CapabilityDescriptor) : Result (list CapabilityDescriptor) :=
  match l with
  | [] => success []
  | c :: l' =>
      let c := normalize_capability c in
      unless_refused (valid_capability c && negb (bool_decide (capability_id c ∈ ids)))
        (invalid_registration "provider capability descriptor is invalid");;
      rest ← normalize_all ({[ capability_id c ]} ∪ ids) l';
      success (c :: rest)
  end.

Definition domain_code_allowed (code : ErrorCode) : bool :=
  bool_decide (code = provider_failed) || bool_decide (code = unsupported_audio) || bool_decide (code = invalid_argument).

Definition domain_error_valid (l : list CapabilityDescriptor) (d : DomainErrorValidation) : bool :=
  match find_capability (domain_capability d) l with
  | None => false
  | Some c =>
      domain_code_allowed (domain_code d) && bool_decide (error_code_name (domain_code d) ∈ error_codes c) &&
      valid_port_name (domain_reason d) && negb (String.prefix "input_" (domain_reason d)) &&
      negb (String.prefix "output_" (domain_reason d))
  end.

Fixpoint check_domain_errors (l : list CapabilityDescriptor) (reasons : gset (string * string))
    (ds : list DomainErrorValidation) : Result () :=
  match ds with
  | [] => success ()
  | d :: ds' =>
      unless_refused (domain_error_valid l d &&
                      negb (bool_decide ((domain_capability d, domain_reason d) ∈ reasons)))
        (invalid_registration "consumer domain error must be declared and cannot claim SDK failures");;
      check_domain_errors l ({[ (domain_capability d, domain_reason d) ]} ∪ reasons) ds'
  end.

Definition validation_valid (l : list CapabilityDescriptor) (v : OutputValidation) : bool :=
  has_value (validate v) &&
  match find_capability (validated_capability v) l with
  | None => false
  | Some c => existsb (λ p, bool_decide (port_name p = validated_port v)) (output_artifacts c)
  end.

Fixpoint check_validations (l : list CapabilityDescriptor) (ports : gset (string * string))
    (vs : list OutputValidation) : Result (gset (string * string)) :=
  match vs with
  | [] => success ports
  | v :: vs' =>
      unless_refused (validation_valid l v &&
                      negb (bool_decide ((validated_capability v, validated_port v) ∈ ports)))
        (invalid_registration "output validator must bind exactly one declared capability port");;
      check_validations l ({[ (validated_capability v, validated_port v) ]} ∪ ports) vs'
  end.

Definition output_ports (l : list CapabilityDescriptor) : list (string * string) :=
  l ≫= λ c, (λ p, (capability_id c, port_name p)) <$> output_artifacts c.

Definition registration_metadata (id : string) (r : ProviderRegistration) : bool :=
  valid_token id && valid_semver (registered_version r) && valid_sha256 (registered_sha256 r) &&
  model_valid (registered_model r) && negb (is_empty (registered_capabilities r)).

Definition add (r : ProviderRegistration) : Io Registry () := λ m,
  match
    match implementation r with
    | None => failure (invalid_registration "provider implementation is required")
    | Some p =>
        let id := provider_name p in
        unless_refused (registration_metadata id r)
          (invalid_registration "provider registration metadata is invalid");;
        unless_refused (negb (bool_decide (is_Some (m !! id))))
          (MkError _ duplicate_id "provider id is already registered"
             (j_object [("provider_id", j_string id)]));;
        normalized ← normalize_all ∅ (registered_capabilities r);
        let l := stable_sort (λ c, bytes (capability_id c)) normalized in
        check_domain_errors l ∅ (domain_errors r);;
        ports ← check_validations l ∅ (output_validation r);
        unless_refused (forallb (λ q, bool_decide (q ∈ ports)) (output_ports l))
          (invalid_registration "output port requires an explicit consumer validator");;
        unless_refused (unique_nonempty (provider_capabilities p))
          (invalid_registration "provider capabilities are invalid");;
        unless_refused (bool_decide (sorted_strings (provider_capabilities p) = capability_id <$> l))
          (invalid_registration "provider implementation and descriptors disagree");;
        success (id, MkProviderEntry
          (MkDescriptor id (registered_version r) (registered_sha256 r) (registered_model r) l)
          p (output_validation r) (domain_errors r))
    end
  with
  | success (id, e) => (<[id := e]> m, success ())
  | failure e => (m, failure e)
  | thrown => (m, thrown)
  end.

(** In the order of the ids, as [std::map]. *)
Definition list_providers (m : Registry) : list ProviderDescriptor :=
  descriptor <$> (stable_sort (λ p, bytes p.1) (map_to_list m)).*2.

Definition select (m : Registry) (id capability : string) : Result ProviderEntry :=
  match m !! id with
  | None =>
      failure (MkError _ provider_not_found "provider is not registered"
                 (j_object [("provider_id", j_string id)]))
  | Some e =>
      match find_capability capability (capabilities (descriptor e)) with
      | None =>
          failure (MkError _ invalid_argument "provider does not implement requested capability"
                     (j_object [("provider_id", j_string id); ("capability", j_string capability)]))
      | Some _ => success e
      end
  end.
End registry.
