(* ===== verification/ProviderLaws.v ===== *)
(** What a registry holds.

    Every entry of a registry, however it was filled, is a Provider whose
    descriptors are valid and in canonical form, and whose every output has exactly
    one validator; and the canonical form forgets the order a host wrote. *)

From S2P Require Import Prelude Json Foundation Io Text Soundset Outcome JsonText MapLib Provider.

(** ** Sorted lists of texts *)

Lemma sorted_strings_perm l : sorted_strings l ≡ₚ l.
Proof. apply stable_sort_perm. Qed.

Lemma sorted_strings_eq l l' : l ≡ₚ l' → sorted_strings l = sorted_strings l'.
Proof. apply stable_sort_perm_eq. intros x y _ _. apply bytes_inj. Qed.

#[export] Instance sorted_strings_proper : Proper ((≡ₚ) ==> (=)) sorted_strings.
Proof. intros l l'. apply sorted_strings_eq. Qed.

Lemma sorted_strings_idem l : sorted_strings (sorted_strings l) = sorted_strings l.
Proof. apply sorted_strings_eq, sorted_strings_perm. Qed.

Lemma adjacent_find_sorted l : StronglySorted (key_le bytes) l → adjacent_find l = false ↔ NoDup l.
Proof.
  induction 1 as [|a l Hl IH Ha]; [split; [constructor|done]|]. rewrite NoDup_cons, <- IH. destruct l as [|b l].
  { split; [|done]. intros _. split; [apply not_elem_of_nil|done]. }
  change (adjacent_find (a :: b :: l)) with (bool_decide (a = b) || adjacent_find (b :: l)).
  rewrite orb_false_iff, bool_decide_eq_false. split; intros [H1 H2]; (split; [|done]).
  - intros [->|Hin]%elem_of_cons; [done|]. apply H1, bytes_inj.
    apply Forall_cons in Ha as [Hab _]. apply StronglySorted_inv in Hl as [_ Hb]. rewrite Forall_forall in Hb.
    apply lex_le_antisym; [exact Hab|]. exact (Hb a Hin).
  - intros ->. apply H1. left.
Qed.

Lemma unique_nonempty_spec l : unique_nonempty l = true ↔ NoDup l ∧ "" ∉ l.
Proof.
  unfold unique_nonempty. rewrite andb_true_iff, !negb_true_iff, adjacent_find_sorted by apply stable_sort_sorted.
  rewrite sorted_strings_perm. split; intros [H1 H2].
  - split; [done|]. intros Hin. assert (existsb (λ v, bool_decide (v = "")) l = true) as E; [|congruence].
    apply existsb_exists. exists "". split; [by apply list_elem_of_In|by apply bool_decide_eq_true_2].
  - split; [|done]. destruct (existsb _ l) eqn:E; [|done]. apply existsb_exists in E as (v & Hv%list_elem_of_In & E).
    apply bool_decide_eq_true_1 in E. by subst.
Qed.

#[export] Instance unique_nonempty_proper : Proper ((≡ₚ) ==> (=)) unique_nonempty.
Proof.
  intros l l' H. apply eq_true_iff_eq. rewrite !unique_nonempty_spec, H. done.
Qed.

(** ** Ports *)

Lemma valid_ports_from_spec ports : ∀ names, valid_ports_from names ports = true ↔
  Forall (λ p, valid_port p = true ∧ port_name p ∉ names) ports ∧ NoDup (port_name <$> ports).
Proof.
  induction ports as [|p ports IH]; intros names; cbn [valid_ports_from].
  { split; [by repeat constructor|done]. }
  rewrite !andb_true_iff, negb_true_iff, bool_decide_eq_false, IH, Forall_cons, fmap_cons, NoDup_cons.
  assert (Forall (λ q, valid_port q = true ∧ port_name q ∉ {[port_name p]} ∪ names) ports ↔
          Forall (λ q, valid_port q = true ∧ port_name q ∉ names) ports ∧ port_name p ∉ port_name <$> ports) as ->.
  { rewrite !Forall_forall, list_elem_of_fmap. split.
    - intros H. split; [intros q Hq; specialize (H q Hq); set_solver|]. intros (q & E & Hq). specialize (H q Hq). set_solver.
    - intros [H Hn] q Hq. destruct (H q Hq). split; [done|]. rewrite not_elem_of_union, not_elem_of_singleton. naive_solver. }
  tauto.
Qed.

Lemma valid_ports_spec ports : valid_ports ports = true ↔
  Forall (λ p, valid_port p = true) ports ∧ NoDup (port_name <$> ports).
Proof.
  unfold valid_ports. rewrite valid_ports_from_spec, !Forall_forall. set_solver.
Qed.

(** Ports up to the order a host wrote them in, and their media types. *)
Definition ports_equiv (l l' : list ArtifactPortDescriptor) : Prop := normalize_port <$> l ≡ₚ normalize_port <$> l'.

Lemma normalize_port_idem p : normalize_port (normalize_port p) = normalize_port p.
Proof. unfold normalize_port. cbn. by rewrite sorted_strings_idem. Qed.

Lemma normalized_names (l : list ArtifactPortDescriptor) : port_name <$> (normalize_port <$> l) = port_name <$> l.
Proof. by rewrite <- list_fmap_compose. Qed.

Lemma sorted_ports_perm l : sorted_ports l ≡ₚ l.
Proof. apply stable_sort_perm. Qed.

Lemma names_identify l : NoDup (port_name <$> l) → ∀ x y, x ∈ l → y ∈ l →
  bytes (port_name x) = bytes (port_name y) → x = y.
Proof.
  intros Hn x y [i Hi]%list_elem_of_lookup [j Hj]%list_elem_of_lookup E%bytes_inj.
  assert (i = j) as ->; [|congruence].
  eapply NoDup_lookup; [exact Hn|rewrite list_lookup_fmap, Hi; done|rewrite list_lookup_fmap, Hj; cbn; by rewrite E].
Qed.

Lemma normalize_ports_eq l l' : NoDup (port_name <$> l) → ports_equiv l l' → normalize_ports l = normalize_ports l'.
Proof. intros Hn Hp. apply stable_sort_perm_eq; [|exact Hp]. apply names_identify. by rewrite normalized_names. Qed.

Lemma normalize_ports_sorted l : normalize_ports l = normalize_port <$> sorted_ports l.
Proof. by apply stable_sort_fmap. Qed.

Lemma normalize_ports_idem l : normalize_ports (normalize_ports l) = normalize_ports l.
Proof.
  assert (normalize_port <$> normalize_ports l = normalize_ports l) as E.
  { rewrite normalize_ports_sorted, <- list_fmap_compose. apply list_fmap_ext. intros _ x _. apply normalize_port_idem. }
  unfold normalize_ports at 1. rewrite E. apply stable_sort_id, stable_sort_sorted.
Qed.

(** ** Descriptors *)

Record capability_equiv (c c' : CapabilityDescriptor) : Prop := {
  equiv_scalars : (capability_id c, contract_version c, determinism c, resources c, execution c, max_output_bytes c) =
                  (capability_id c', contract_version c', determinism c', resources c', execution c', max_output_bytes c');
  equiv_inputs : ports_equiv (input_artifacts c) (input_artifacts c');
  equiv_outputs : ports_equiv (output_artifacts c) (output_artifacts c');
  equiv_events : progress_events c ≡ₚ progress_events c';
  equiv_errors : error_codes c ≡ₚ error_codes c';
  equiv_data : data_classifications (policy c) ≡ₚ data_classifications (policy c');
  equiv_regions : regions (policy c) ≡ₚ regions (policy c');
  equiv_permissions : required_permissions (policy c) ≡ₚ required_permissions (policy c');
  equiv_platforms : platforms c ≡ₚ platforms c'
}.

Definition distinct_ports (c : CapabilityDescriptor) : Prop :=
  NoDup (port_name <$> input_artifacts c) ∧ NoDup (port_name <$> output_artifacts c).

Lemma normalize_equiv c c' : distinct_ports c → capability_equiv c c' → normalize_capability c = normalize_capability c'.
Proof.
  intros [Hi Ho] [E Hei Heo Hev Her Hd Hr Hp Hpl]. injection E as E1 E2 E3 E4 E5 E6. unfold normalize_capability.
  rewrite (normalize_ports_eq _ _ Hi Hei), (normalize_ports_eq _ _ Ho Heo), Hev, Her, Hd, Hr, Hp, Hpl. congruence.
Qed.

Lemma normalize_idem c : normalize_capability (normalize_capability c) = normalize_capability c.
Proof.
  unfold normalize_capability. cbn [capability_id contract_version input_artifacts output_artifacts determinism
    progress_events error_codes resources execution policy data_classifications regions required_permissions platforms
    max_output_bytes].
  by rewrite !normalize_ports_idem, !sorted_strings_idem.
Qed.

Section json.
Context `{JL : JsonLib}.

Lemma ports_json_normalized l : ports_json (normalize_ports l) = ports_json l.
Proof.
  unfold ports_json. unfold sorted_ports at 1. rewrite stable_sort_id by apply stable_sort_sorted.
  rewrite normalize_ports_sorted, <- list_fmap_compose. f_equal. apply list_fmap_ext. intros _ p _.
  unfold port_json. cbn. by rewrite sorted_strings_idem.
Qed.

Lemma json_normalized c : capability_contract_json (normalize_capability c) = capability_contract_json c.
Proof.
  unfold capability_contract_json, normalize_capability. cbn [capability_id contract_version determinism error_codes
    execution input_artifacts output_artifacts policy data_classifications regions required_permissions progress_events resources].
  by rewrite !ports_json_normalized, !sorted_strings_idem.
Qed.
End json.

(** C37: the canonical text of a capability depends on what the capability is and
    not on the order its descriptor was written in.  Two descriptors with distinct
    port names that differ in the order of their ports, media types, events, error
    codes, policies or platforms have the same canonical text and are registered as
    the same descriptor; registering does not change the text. *)
Theorem capability_canonical `{JL : JsonLib} dump c c' : distinct_ports c → capability_equiv c c' →
  canonical_capability_json dump c = canonical_capability_json dump c' ∧
  normalize_capability c = normalize_capability c' ∧
  canonical_capability_json dump (normalize_capability c) = canonical_capability_json dump c.
Proof.
  intros Hd Hc. pose proof (normalize_equiv c c' Hd Hc) as E. unfold canonical_capability_json.
  split; [|by rewrite json_normalized]. by rewrite <- (json_normalized c), <- (json_normalized c'), E.
Qed.

(** ** What [add] checks *)

(** A list of pairs none of which is new twice, from a set of those seen. *)
Definition fresh {K} `{Countable K} (seen : gset K) (keys : list K) : Prop := NoDup keys ∧ Forall (λ k, k ∉ seen) keys.

Lemma fresh_cons {K} `{Countable K} (seen : gset K) k keys :
  k ∉ seen → fresh ({[ k ]} ∪ seen) keys → fresh seen (k :: keys).
Proof.
  intros Hk [Hn Hf]. rewrite Forall_forall in Hf. split.
  - constructor; [|done]. intros Hin. specialize (Hf k Hin). set_solver.
  - constructor; [done|]. apply Forall_forall. intros x Hx. specialize (Hf x Hx). set_solver.
Qed.

Lemma fresh_inv {K} `{Countable K} (seen : gset K) k keys : fresh seen (k :: keys) → k ∉ seen ∧ fresh ({[ k ]} ∪ seen) keys.
Proof.
  intros [Hn Hf]. apply NoDup_cons in Hn as [Hk Hn]. apply Forall_cons in Hf as [Hks Hf]. rewrite Forall_forall in Hf.
  split; [done|]. split; [done|]. apply Forall_forall. intros x Hx. specialize (Hf x Hx). set_solver.
Qed.

Section registry.
Context `{JL : JsonLib} {Run Validator : Type}.
Abbreviation ProviderEntry := (@ProviderEntry Run Validator).
Abbreviation Registry := (gmap string ProviderEntry).
Abbreviation ProviderRegistration := (@ProviderRegistration Run Validator).

Definition capability_ok (c : CapabilityDescriptor) : Prop := valid_capability c = true ∧ normalize_capability c = c.

Lemma refused_post {A} (Q : A → Prop) valid e k : (valid = true → post Q k) → post Q (unless_refused valid e;; k).
Proof. unfold unless_refused. destruct valid; [|done]. intros H. by apply H. Qed.

Lemma normalize_all_post l : ∀ ids,
  post (λ l', length l' = length l ∧ Forall capability_ok l' ∧ fresh ids (capability_id <$> l')) (normalize_all ids l).
Proof.
  induction l as [|c l IH]; intros ids; cbn [normalize_all]; [by repeat constructor|].
  apply refused_post. intros Hc. bool_to_prop. eapply post_bind; [apply IH|]. intros rest (Hlen & Hok & Hf).
  split; [by cbn; f_equal|]. split.
  - constructor; [split; [done|apply normalize_idem]|done].
  - rewrite fmap_cons. by apply fresh_cons.
Qed.

Definition domain_key (d : DomainErrorValidation) : string * string := (domain_capability d, domain_reason d).

Lemma check_domain_errors_post l ds : ∀ seen,
  post (λ _, Forall (λ d, domain_error_valid l d = true) ds ∧ fresh seen (domain_key <$> ds))
    (check_domain_errors l seen ds).
Proof.
  induction ds as [|d ds IH]; intros seen; cbn [check_domain_errors]; [by repeat constructor|].
  apply refused_post. intros Hd. bool_to_prop. eapply post_weaken; [apply IH|]. intros _ [Hok Hf].
  split; [by constructor|]. rewrite fmap_cons. by apply fresh_cons.
Qed.

Definition validation_port (v : @OutputValidation Validator) : string * string := (validated_capability v, validated_port v).

Lemma check_validations_post l (vs : list (@OutputValidation Validator)) : ∀ seen,
  post (λ ports, Forall (λ v, validation_valid l v = true) vs ∧ fresh seen (validation_port <$> vs) ∧
                 ∀ q, q ∈ ports ↔ q ∈ seen ∨ q ∈ validation_port <$> vs) (check_validations l seen vs).
Proof.
  induction vs as [|v vs IH]; intros seen; cbn [check_validations].
  { split; [done|]. split; [by repeat constructor|]. set_solver. }
  apply refused_post. intros Hv. bool_to_prop. eapply post_weaken; [apply IH|]. intros ports (Hok & Hf & Hp).
  split; [by constructor|]. rewrite fmap_cons.
  split; [by apply fresh_cons|]. intros q. rewrite Hp, elem_of_cons. unfold validation_port at 2. set_solver.
Qed.

(** What an entry of a registry is, under its name. *)
Record entry_ok (id : string) (e : ProviderEntry) : Prop := {
  entry_id : provider_id (descriptor e) = id ∧ provider_name (entry_implementation e) = id;
  entry_metadata : valid_token id = true ∧ valid_semver (provider_version (descriptor e)) = true ∧
    valid_sha256 (provider_sha256 (descriptor e)) = true ∧ model_valid (model_identity (descriptor e)) = true;
  entry_some : capabilities (descriptor e) ≠ [];
  entry_capabilities : Forall capability_ok (capabilities (descriptor e));
  entry_sorted : StronglySorted (key_le (λ c, bytes (capability_id c))) (capabilities (descriptor e));
  entry_distinct : NoDup (capability_id <$> capabilities (descriptor e));
  entry_implemented : provider_capabilities (entry_implementation e) ≡ₚ capability_id <$> capabilities (descriptor e);
  entry_outputs : validation_port <$> entry_validation e ≡ₚ output_ports (capabilities (descriptor e));
  entry_validators : Forall (λ v, is_Some (validate v)) (entry_validation e);
  entry_errors : Forall (λ d, domain_error_valid (capabilities (descriptor e)) d = true) (entry_domain_errors e);
  entry_reasons : NoDup (domain_key <$> entry_domain_errors e)
}.

Lemma find_capability_some id l c : find_capability id l = Some c → c ∈ l ∧ capability_id c = id.
Proof.
  unfold find_capability. intros H. apply fmap_Some in H as ([i c'] & H & ->).
  apply list_find_Some in H as (Hi & E & _). split; [by eapply list_elem_of_lookup_2|done].
Qed.

Lemma elem_of_output_ports q l : q ∈ output_ports l ↔
  ∃ c p, c ∈ l ∧ p ∈ output_artifacts c ∧ q = (capability_id c, port_name p).
Proof.
  unfold output_ports. rewrite list_elem_of_bind. split.
  - intros (c & Hq & Hc). apply list_elem_of_fmap in Hq as (p & -> & Hp). by exists c, p.
  - intros (c & p & Hc & Hp & ->). exists c. split; [|done]. apply list_elem_of_fmap. by exists p.
Qed.

Lemma validation_valid_port l v : validation_valid l v = true →
  is_Some (validate v) ∧ validation_port v ∈ output_ports l.
Proof.
  unfold validation_valid. intros [Hv H]%andb_true_iff. split; [by destruct (validate v)|].
  destruct (find_capability _ l) as [c|] eqn:E; [|done]. apply find_capability_some in E as [Hc E].
  apply existsb_exists in H as (p & Hp%list_elem_of_In & Ep%bool_decide_eq_true_1).
  apply elem_of_output_ports. exists c, p. unfold validation_port. by rewrite E, Ep.
Qed.

Lemma valid_capability_outputs c : valid_capability c = true → NoDup (port_name <$> output_artifacts c).
Proof. unfold valid_capability. intros H. bool_to_prop. by apply valid_ports_spec. Qed.

Lemma output_ports_distinct l : Forall capability_ok l → NoDup (capability_id <$> l) → NoDup (output_ports l).
Proof.
  intros Hok. induction Hok as [|c l [Hc _] _ IH]; [constructor|]. rewrite fmap_cons, NoDup_cons. intros [Hn Hl].
  change (output_ports (c :: l)) with (((λ p, (capability_id c, port_name p)) <$> output_artifacts c) ++ output_ports l).
  apply NoDup_app. split; [|split; [|by apply IH]].
  - rewrite (list_fmap_compose port_name (pair (capability_id c))).
    apply NoDup_fmap_2; [intros x y [=]; done|by apply valid_capability_outputs].
  - intros q (p & -> & _)%list_elem_of_fmap (c' & p' & Hc' & _ & [= E _])%elem_of_output_ports.
    apply Hn. rewrite E. by apply list_elem_of_fmap_2.
Qed.

(** Distinct validators of distinct ports, all declared and all bound. *)
Lemma validators_exact (l : list CapabilityDescriptor) (vs : list (@OutputValidation Validator)) (ports : gset (string * string)) :
  Forall capability_ok l → NoDup (capability_id <$> l) →
  Forall (λ v, validation_valid l v = true) vs → NoDup (validation_port <$> vs) →
  (∀ q, q ∈ ports ↔ q ∈ (∅ : gset (string * string)) ∨ q ∈ validation_port <$> vs) →
  forallb (λ q, bool_decide (q ∈ ports)) (output_ports l) = true →
  validation_port <$> vs ≡ₚ output_ports l ∧ Forall (λ v, is_Some (validate v)) vs.
Proof.
  intros Hok Hl Hvs Hnd Hports Hall. rewrite Forall_forall in Hvs. split.
  - apply NoDup_Permutation; [done|by apply output_ports_distinct|]. intros q. split.
    + intros (v & -> & Hv)%list_elem_of_fmap. by apply validation_valid_port, Hvs.
    + intros Hq. rewrite forallb_forall in Hall. apply list_elem_of_In, Hall, bool_decide_eq_true_1, Hports in Hq. set_solver.
  - apply Forall_forall. intros v Hv. by eapply validation_valid_port, Hvs.
Qed.

(** The entry [add] makes. *)
Lemma add_cases (r : ProviderRegistration) (m : Registry) :
  (∃ e, add r m = (m, failure e)) ∨
  (∃ id e, m !! id = None ∧ entry_ok id e ∧ add r m = (<[ id := e ]> m, success ())).
Proof.
  unfold add. destruct (implementation r) as [p|]; [|by left; eexists].
  match goal with |- context [match ?x with success _ => _ | _ => _ end] =>
    assert (post (λ q, m !! q.1 = None ∧ entry_ok q.1 q.2) x) as H; [|destruct x as [[id e]|e|]; [|by left; eexists|done]] end.
  2: { right. exists id, e. destruct H. done. }
  apply refused_post. intros Hmeta. unfold registration_metadata in Hmeta. bool_to_prop.
  apply refused_post. intros Hid. bool_to_prop. eapply post_bind; [apply normalize_all_post|]. intros normalized (Hlen & Hok & Hnd & _).
  pose proof (stable_sort_perm (λ c, bytes (capability_id c)) normalized) as Hperm.
  pose proof (stable_sort_sorted (λ c, bytes (capability_id c)) normalized) as Hsorted.
  set (l := stable_sort (λ c, bytes (capability_id c)) normalized) in *. clearbody l.
  rewrite <- Hperm in Hok, Hnd.
  eapply post_bind; [apply check_domain_errors_post|]. intros _ [Hde [Hdr _]].
  eapply post_bind; [apply check_validations_post|]. intros ports (Hvs & [Hvn _] & Hports).
  apply refused_post. intros Hall. apply refused_post. intros _. apply refused_post. intros Himpl. bool_to_prop.
  destruct (validators_exact l _ ports Hok Hnd Hvs Hvn Hports Hall) as [Hout Hval].
  split; [by apply eq_None_not_Some|]. split; try done; cbn.
  - intros ->. apply Permutation_nil_l in Hperm. subst normalized. by destruct (registered_capabilities r).
  - by rewrite <- Himpl, sorted_strings_perm.
Qed.

(** The registry the calls of [add] leave. *)
Definition registry_of (rs : list ProviderRegistration) : Registry := foldl (λ m r, (add r m).1) ∅ rs.

Lemma registry_of_ok rs : map_Forall entry_ok (registry_of rs).
Proof.
  unfold registry_of. induction rs as [|r rs IH] using rev_ind; [apply map_Forall_empty|]. rewrite foldl_snoc.
  destruct (add_cases r (foldl (λ m r, (add r m).1) ∅ rs)) as [[e ->]|(id & e & _ & He & ->)]; [done|].
  by apply map_Forall_insert_2.
Qed.

Lemma elem_of_list_providers (m : Registry) d : d ∈ list_providers m ↔ ∃ id e, m !! id = Some e ∧ d = descriptor e.
Proof.
  unfold list_providers. rewrite list_elem_of_fmap. split.
  - intros (e & -> & He). apply list_elem_of_fmap in He as ([id e'] & -> & He). rewrite elem_of_stable_sort in He.
    apply elem_of_map_to_list in He. by exists id, e'.
  - intros (id & e & He & ->). exists e. split; [done|]. apply list_elem_of_fmap. exists (id, e). split; [done|].
    rewrite elem_of_stable_sort. by apply elem_of_map_to_list.
Qed.

(** C21: a registry only ever holds Providers it may run.  After any registrations,
    accepted and refused, every entry has valid metadata, a sorted list of distinct,
    valid and normalized capabilities that are those its implementation names, one
    validator for each output of each capability and none for anything else, and
    domain errors its capabilities declare; a registration throws nothing, keeps
    every entry there is, and changes nothing when it is refused; what is selected
    is a registered Provider that has the capability, and what is listed is what is
    registered. *)
Theorem registry_sound (rs : list ProviderRegistration) :
  map_Forall entry_ok (registry_of rs) ∧
  (∀ r, (∃ e, add r (registry_of rs) = (registry_of rs, failure e)) ∨
        (∃ id e, registry_of rs !! id = None ∧ add r (registry_of rs) = (<[ id := e ]> (registry_of rs), success ()))) ∧
  (∀ id c e, select (registry_of rs) id c = success e →
     registry_of rs !! id = Some e ∧ c ∈ capability_id <$> capabilities (descriptor e)) ∧
  (∀ d, d ∈ list_providers (registry_of rs) ↔ ∃ id e, registry_of rs !! id = Some e ∧ d = descriptor e).
Proof.
  split; [apply registry_of_ok|]. split; [|split; [|apply elem_of_list_providers]].
  - intros r. destruct (add_cases r (registry_of rs)) as [?|(id & e & ? & _ & ?)]; [by left|right; by exists id, e].
  - unfold select. intros id c e H. destruct (registry_of rs !! id) as [e'|]; [|done].
    destruct (find_capability c _) as [d|] eqn:E; [|done]. injection H as <-.
    apply find_capability_some in E as [Hd <-]. split; [done|]. by apply list_elem_of_fmap_2.
Qed.
End registry.

(** ** A Provider that is registered *)

Definition example_port (name : string) (media : list string) : ArtifactPortDescriptor :=
  MkPort name media "lmdj.audio.v1" "1.0.0" true 1.

Definition example_capability (codes platforms : list string) (outputs : list ArtifactPortDescriptor) : CapabilityDescriptor :=
  MkCapability "audio.separate" "1.2.0" [example_port "source" ["audio/wav"; "audio/flac"]] outputs
    seeded ["progress"] codes (MkResources cpu (Some 512)) (MkExecution 60000 2)
    (MkPolicy ["private"] ["eu"; "us"] ["audio.read"]) platforms 1048576.

Definition example_written : CapabilityDescriptor :=
  example_capability ["PROVIDER_FAILED"; "INVALID_ARGUMENT"] ["web"; "linux"]
    [example_port "vocals" ["audio/wav"]; example_port "drums" ["audio/wav"; "audio/flac"]].
Definition example_sorted : CapabilityDescriptor :=
  example_capability ["INVALID_ARGUMENT"; "PROVIDER_FAILED"] ["linux"; "web"]
    [example_port "drums" ["audio/flac"; "audio/wav"]; example_port "vocals" ["audio/wav"]].

Definition canonical_text (c : CapabilityDescriptor) : string :=
  canonical_capability_json (JL := map_lib) (dump (TextLib := map_text)) c.

Lemma capability_canonical_witness : example_written ≠ example_sorted ∧ canonical_text example_written = canonical_text example_sorted.
Proof.
  split; [done|]. apply (capability_canonical (JL := map_lib) (dump (TextLib := map_text)) example_written example_sorted).
  - split; by apply (bool_decide_unpack _).
  - split; [reflexivity| | | | | | | |]; try unfold ports_equiv; by apply (bool_decide_unpack _).
Defined.

Definition example_registration : @ProviderRegistration () () :=
  MkRegistration (Some (MkProvider "lmdj.separator" ["audio.separate"] ())) "0.1.0"
    "0123456789abcdef0123456789abcdef0123456789abcdef0123456789abcdef" None [example_written]
    [MkValidation "audio.separate" "vocals" (Some ()) 4096; MkValidation "audio.separate" "drums" (Some ()) 0]
    [MkDomainError "audio.separate" provider_failed "too_short"].

(** It is registered, under its canonical descriptor, and once. *)
Example example_registered :
  let m := registry_of (JL := map_lib) [example_registration; example_registration] in
  (capabilities <$> list_providers m = [[normalize_capability example_sorted]]) ∧
  result_has_value (H := map_lib) (select m "lmdj.separator" "audio.separate") = true ∧
  result_has_value (H := map_lib) (select m "lmdj.separator" "audio.mix") = false.
Proof.
  vm_compute. done.
Qed.
