(* ===== verification/Attempt.v ===== *)
(** Attempts: what a Provider may be asked, and what is recorded of it.

    Models the decisions of packages/provider-sdk/src/attempt_store.cpp: the checks
    of a request against its capability and the host's policy, what an execution
    ends in whatever the Provider returned, the document [persist_attempt] writes
    and the reading of it ([inspect], from the text of the file).  The files, the
    callbacks an execution lends to a Provider and its clock are not modelled. *)

From S2P Require Import Prelude Json Foundation Io Text Soundset Fields Outcome JsonText Provider.

(** ** Names *)

Definition valid_media_type (value : string) : bool :=
  negb (is_empty (chars value)) && Nat.leb (String.length value) 128 &&
  existsb (λ c, ascii_eqb c "/") (chars value) &&
  forallb (λ c, (0x21 <=? byte_of c) && (byte_of c <=? 0x7e)) (chars value).

(** [std::toupper] in the C locale. *)
Definition to_upper (c : ascii) : ascii := if is_lower c then ascii_of_N (byte_of c - 32) else c.

(** [substr(0, find('.'))]. *)
Fixpoint before_dot (l : list ascii) : list ascii :=
  match l with [] => [] | c :: l' => if ascii_eqb c "." then [] else c :: before_dot l' end.

Definition windows_reserved_name (value : string) : bool :=
  let base := String.string_of_list_ascii (before_dot (to_upper <$> chars value)) in
  if bool_decide (base ∈ ["CON"; "PRN"; "AUX"; "NUL"]) then true
  else Nat.eqb (String.length base) 4 && (String.prefix "COM" base || String.prefix "LPT" base) &&
       match chars base !! 3%nat with Some c => char_in c "1" "9" | None => false end.

Definition valid_file_id (value : string) : bool :=
  if is_empty (chars value) || Nat.ltb 128 (String.length value) || bool_decide (value = ".") ||
     bool_decide (value = "..") || windows_reserved_name value ||
     bool_decide (last (chars value) = Some "."%char) || bool_decide (last (chars value) = Some " "%char)
  then false
  else forallb (λ c, is_alnum c || ascii_eqb c "." || ascii_eqb c "_" || ascii_eqb c "-") (chars value).

Definition valid_artifact (a : ArtifactRef) : bool := valid_sha256 (sha256 a) && valid_media_type (media_type a).

Definition find_port (ports : list ArtifactPortDescriptor) (name : string) : option ArtifactPortDescriptor :=
  snd <$> list_find (λ p, port_name p = name) ports.

Definition media_type_allowed (p : ArtifactPortDescriptor) (media : string) : bool :=
  existsb (λ allowed, bool_decide (allowed = "*/*") || bool_decide (allowed = media)) (media_types p).

(** ** Bindings in order *)

(** [operator<] of strings as part of a tuple: a string ends below any character. *)
Definition tuple_key (s : string) : list N := ((λ c, byte_of c + 1) <$> chars s) ++ [0].

Definition artifact_order (a : ArtifactRef) : list N :=
  tuple_key (sha256 a) ++ tuple_key (media_type a) ++ [byte_length a].
Definition binding_order (b : ArtifactBinding) : list N :=
  tuple_key (binding_port b) ++ artifact_order (binding_artifact b).

Definition sort_artifacts (l : list ArtifactRef) : list ArtifactRef := stable_sort artifact_order l.
Definition sort_bindings (l : list ArtifactBinding) : list ArtifactBinding := stable_sort binding_order l.

Definition binding_less (a b : ArtifactBinding) : bool := negb (lex_le (binding_order b) (binding_order a)).

(** [std::is_sorted(l.begin(), l.end(), binding_less)]. *)
Fixpoint bindings_sorted (l : list ArtifactBinding) : bool :=
  match l with
  | a :: (b :: _) as rest => negb (binding_less b a) && bindings_sorted rest
  | _ => true
  end.

Definition same_bindings (l l' : list ArtifactBinding) : bool := bool_decide (sort_bindings l = sort_bindings l').

(** [std::count_if(... binding.port == port.name)] within the port's bounds. *)
Definition port_count (l : list ArtifactBinding) (p : ArtifactPortDescriptor) : N :=
  N.of_nat (length (filter (λ b, binding_port b = port_name p) l)).
Definition port_filled (l : list ArtifactBinding) (p : ArtifactPortDescriptor) : bool :=
  ((if port_required p then 1 else 0) <=? port_count l p) && (port_count l p <=? max_count p).

(** ** Requests *)

Record ProviderPolicy := MkProviderPolicy {
  allowed_regions : list string;
  allowed_data_classifications : list string;
  granted_permissions : list string
}.

Section requests.
Context `{JL : JsonLib}.

Record CapabilityRequest := MkRequest {
  requested_capability : string;
  request_inputs : list ArtifactBinding;
  parameters : json;
  data_classification : string;
  platform : string;
  region : string;
  requested_permissions : list string
}.

Definition listed (v : string) (l : list string) : bool := bool_decide (v ∈ l).

(** A check that passes returns an [Error] without a message; here [None]. *)
Definition refused_unless (valid : bool) (c : ErrorCode) (m : string) (rest : option Error) : option Error :=
  if valid then rest else Some (plain_error c m).

Definition validate_request_metadata (r : CapabilityRequest) (c : CapabilityDescriptor) : option Error :=
  refused_unless
    (bool_decide (requested_capability r = capability_id c) && negb (bool_decide (data_classification r = "")) &&
     negb (bool_decide (platform r = "")) && negb (bool_decide (region r = "")))
    invalid_argument "capability request metadata is invalid" None.

Definition validate_policy (r : CapabilityRequest) (c : CapabilityDescriptor) (p : ProviderPolicy) : option Error :=
  refused_unless (unique_nonempty (requested_permissions r)) invalid_argument "required permissions are invalid"
  (refused_unless
    (listed (region r) (regions (policy c)) && listed (region r) (allowed_regions p) &&
     listed (data_classification r) (data_classifications (policy c)) &&
     listed (data_classification r) (allowed_data_classifications p) && listed (platform r) (platforms c))
    permission_denied "capability request is not allowed by Provider policy"
  (refused_unless
    (forallb (λ x, listed x (requested_permissions r) && listed x (granted_permissions p))
       (required_permissions (policy c)))
    permission_denied "capability permission is not granted"
  (refused_unless
    (forallb (λ x, listed x (required_permissions (policy c)) && listed x (granted_permissions p))
       (requested_permissions r))
    permission_denied "capability permission is not granted" None))).

(** The loop over the inputs, with the digests it has seen. *)
Fixpoint validate_inputs (c : CapabilityDescriptor) (hashes : gset string) (l : list ArtifactBinding)
    (rest : option Error) : option Error :=
  match l with
  | [] => rest
  | b :: l' =>
      refused_unless (valid_port_name (binding_port b)) invalid_argument "capability request port name is invalid"
        match find_port (input_artifacts c) (binding_port b) with
        | None => Some (plain_error invalid_argument "capability request names a port the Capability does not declare")
        | Some port =>
            refused_unless
              (valid_artifact (binding_artifact b) && media_type_allowed port (media_type (binding_artifact b)) &&
               negb (bool_decide (sha256 (binding_artifact b) ∈ hashes)))
              invalid_argument "capability request artifacts are invalid"
              (validate_inputs c ({[ sha256 (binding_artifact b) ]} ∪ hashes) l' rest)
        end
  end.

Definition validate_request (r : CapabilityRequest) (c : CapabilityDescriptor) (p : ProviderPolicy) : option Error :=
  match validate_request_metadata r c with
  | Some e => Some e
  | None =>
      validate_inputs c ∅ (request_inputs r)
        (refused_unless (forallb (port_filled (request_inputs r)) (input_artifacts c))
           invalid_argument "capability request input count is invalid" (validate_policy r c p))
  end.

(** ** What an execution ends in *)

(** The provenance of a [Candidate] is not recorded. *)
Record Candidate := MkCandidate { candidate_id : CandidateId; outputs : list ArtifactBinding }.

Record AttemptResult := MkAttempt {
  attempt_id : AttemptId;
  candidate : option Candidate;
  error : option Error
}.

(** [error.details.at("reason")], if the details have it. *)
Definition reason_of (e : Error) : option json :=
  if is_object (details e) && j_contains (details e) "reason" then j_at (details e) "reason" else None.

Definition declared_domain_error (e : Error) (c : CapabilityDescriptor) (domains : list DomainErrorValidation) : bool :=
  if negb (listed (error_code_name (code e)) (error_codes c)) then false
  else if bool_decide (code e = provider_failed) && is_object (details e) && negb (j_contains (details e) "reason") then true
  else
    match reason_of e ≫= get_string with
    | None => false
    | Some reason =>
        existsb (λ d, bool_decide (domain_capability d = capability_id c) && bool_decide (domain_code d = code e) &&
                      bool_decide (domain_reason d = reason)) domains
    end.

(** The loop of [valid_output_bindings], with what it has seen. *)
Fixpoint valid_outputs_from (ports : list ArtifactPortDescriptor) (artifacts : gmap string ArtifactRef)
    (hashes : gset (string * string)) (l : list ArtifactBinding) : bool :=
  match l with
  | [] => true
  | b :: l' =>
      let a := binding_artifact b in
      match find_port ports (binding_port b) with
      | None => false
      | Some port =>
          valid_artifact a && media_type_allowed port (media_type a) &&
          negb (bool_decide ((binding_port b, sha256 a) ∈ hashes)) &&
          match artifacts !! sha256 a with Some a' => bool_decide (a' = a) | None => true end &&
          valid_outputs_from ports
            (match artifacts !! sha256 a with Some _ => artifacts | None => <[ sha256 a := a ]> artifacts end)
            ({[ (binding_port b, sha256 a) ]} ∪ hashes) l'
      end
  end.

Definition valid_output_bindings (l : list ArtifactBinding) (ports : list ArtifactPortDescriptor) : bool :=
  valid_outputs_from ports ∅ ∅ l && forallb (port_filled l) ports.

Definition reason_details (reason : string) : json := j_object [("reason", j_string reason)].

Definition invalid_provider_outcome : Error :=
  MkError _ provider_failed "provider returned an invalid terminal outcome" (reason_details "output_contract_invalid").

Definition execution_error (c : ErrorCode) (reason : string) : Error :=
  MkError _ c "Artifact execution boundary refused the operation" (reason_details reason).

(** [request_error], with the reason that is recorded. *)
Definition recorded_request_error (e : Error) : Error :=
  if bool_decide (code e = invalid_argument) then
    MkError _ (code e) (message e) (j_set (details e) "reason" (j_string "input_binding_invalid"))
  else e.

(** The checks of what a Provider returned; [returned_] is false when it threw or
    was not run, [first_error] is what a callback refused. *)
Definition settle (id : AttemptId) (c : CapabilityDescriptor) (domains : list DomainErrorValidation)
    (minted : list ArtifactBinding) (returned_ : bool) (first_error : option Error) (t : AttemptResult) : AttemptResult :=
  let exactly_one := negb (Bool.eqb (has_value (candidate t)) (has_value (error t))) in
  let valid := exactly_one && bool_decide (attempt_id t = id) in
  let valid :=
    match error t with
    | Some e => if valid && returned_ then declared_domain_error e c domains && is_empty minted else valid
    | None => valid
    end in
  let valid :=
    match candidate t with
    | Some k =>
        if valid then
          valid_file_id (value (candidate_id k)) && valid_output_bindings (outputs k) (output_artifacts c) &&
          same_bindings (outputs k) minted
        else valid
    | None => valid
    end in
  let t := if valid then t else MkAttempt id None (Some invalid_provider_outcome) in
  match first_error with
  | Some e => MkAttempt (attempt_id t) None (Some e)
  | None => t
  end.

(** The loop over the minted outputs of a candidate: the first output that its
    validator refuses ends it.  [verdict] is what the reservation of the scratch
    memory and the validator of an output come to. *)
Definition validated (verdict : ArtifactBinding → option Error) (minted : list ArtifactBinding)
    (t : AttemptResult) : AttemptResult :=
  match candidate t with
  | None => t
  | Some _ =>
      match head (omap verdict minted) with
      | Some e => MkAttempt (attempt_id t) None (Some e)
      | None => t
      end
  end.

(** How the staging of the inputs and the run of the Provider ended. *)
Inductive RunEnd :=
  | inputs_unavailable (e : Error)
  | run_threw
  | run_returned (t : AttemptResult).

Definition provider_returned (run : RunEnd) : bool := match run with run_returned _ => true | _ => false end.
Definition provider_invoked (run : RunEnd) : bool := match run with inputs_unavailable _ => false | _ => true end.

(** What an execution of an accepted request comes to. *)
Definition execution_result (id : AttemptId) (c : CapabilityDescriptor) (domains : list DomainErrorValidation)
    (minted : list ArtifactBinding) (first_error : option Error) (verdict : ArtifactBinding → option Error)
    (run : RunEnd) : AttemptResult :=
  let t :=
    match run with
    | inputs_unavailable e => MkAttempt id None (Some e)
    | run_threw =>
        MkAttempt id None (Some (MkError _ provider_failed "provider execution failed"
                                   (reason_details "output_contract_invalid")))
    | run_returned t => t
    end in
  validated verdict minted (settle id c domains minted (provider_returned run) first_error t).

(** What is recorded: the outputs of an Attempt without a candidate are removed. *)
Definition terminal (id : AttemptId) (t : AttemptResult) (minted : list ArtifactBinding) :
    AttemptResult * list ArtifactBinding :=
  (MkAttempt id (candidate t) (error t), match candidate t with Some _ => minted | None => [] end).
End requests.

(** ** The document of an Attempt *)

Inductive AttemptStatus := succeeded | failed.

Record AttemptProviderIdentity := MkProviderIdentity {
  identity_id : string;
  identity_version : string;
  identity_sha256 : string;
  identity_model : option ModelIdentity
}.

Record AttemptCapabilityIdentity := MkCapabilityIdentity {
  contract_id : string;
  contract_name : string;
  contract_semver : string
}.

Record AttemptRequestMetadata := MkMetadata {
  metadata_capability : string;
  metadata_inputs : list ArtifactBinding;
  parameters_sha256 : string;
  metadata_classification : string;
  metadata_platform : string;
  metadata_region : string;
  metadata_permissions : list string
}.

Section document.
Context `{JL : JsonLib} `{TL : !TextLib} `{PL : !ParseLib}.

Record TerminalAttempt := MkTerminal {
  terminal_id : AttemptId;
  status : AttemptStatus;
  started_at : string;
  ended_at : string;
  terminal_provider : AttemptProviderIdentity;
  terminal_capability : AttemptCapabilityIdentity;
  terminal_request : AttemptRequestMetadata;
  candidate_ids : list CandidateId;
  minted_outputs : list ArtifactBinding;
  candidate_outputs : list ArtifactBinding;
  terminal_artifacts : list ArtifactRef;
  terminal_error : option Error
}.

Definition model_identity_json (m : option ModelIdentity) : json :=
  match m with
  | None => j_null
  | Some m => j_object [("id", j_string (model_id m)); ("version", j_string (model_version m));
                        ("artifact_sha256", j_string (model_sha256 m))]
  end.

Definition binding_array (l : list ArtifactBinding) : json := j_array (binding_to_json <$> sort_bindings l).
Definition artifact_array (l : list ArtifactRef) : json := j_array (artifact_to_json <$> sort_artifacts l).

(** Provider messages and details other than the reason are not recorded. *)
Definition recorded_details (redact : bool) (e : Error) : json :=
  if redact then
    match reason_of e with Some j => j_set (j_object []) "reason" j | None => j_object [] end
  else details e.

Definition recorded_message (redact : bool) (e : Error) : string :=
  if redact then "provider execution failed" else message e.

Definition error_json (redact : bool) (e : option Error) : json :=
  match e with
  | None => j_null
  | Some e => j_object [("code", j_string (error_code_name (code e))); ("details", recorded_details redact e);
                        ("message", j_string (recorded_message redact e))]
  end.

(** [if (!contains(artifacts, a)) artifacts.push_back(a)]. *)
Definition add_artifact (l : list ArtifactRef) (b : ArtifactBinding) : list ArtifactRef :=
  if bool_decide (binding_artifact b ∈ l) then l else l ++ [binding_artifact b].

Definition named_artifacts (inputs minted : list ArtifactBinding) : list ArtifactRef :=
  foldl add_artifact (foldl add_artifact [] (sort_bindings inputs)) minted.

Definition result_outputs (t : AttemptResult) : list ArtifactBinding :=
  match candidate t with Some k => outputs k | None => [] end.
Definition result_candidates (t : AttemptResult) : list CandidateId :=
  match candidate t with Some k => [candidate_id k] | None => [] end.
Definition status_of (t : AttemptResult) : AttemptStatus :=
  match candidate t with Some _ => succeeded | None => failed end.
Definition status_name (s : AttemptStatus) : string :=
  match s with succeeded => "succeeded" | failed => "failed" end.

Definition attempt_document (p : ProviderDescriptor) (c : CapabilityDescriptor) (r : CapabilityRequest)
    (t : AttemptResult) (parameters_hash started ended : string) (minted : list ArtifactBinding) (redact : bool) : json :=
  j_object
    [("artifacts", artifact_array (named_artifacts (request_inputs r) minted));
     ("attempt_id", j_string (value (attempt_id t)));
     ("candidate_ids", j_array ((λ k, j_string (value k)) <$> result_candidates t));
     ("candidate_outputs", binding_array (sort_bindings (result_outputs t)));
     ("capability", j_object [("contract", j_string "lmdj.capability.v2"); ("id", j_string (capability_id c));
                              ("version", j_string (contract_version c))]);
     ("ended_at", j_string ended);
     ("error", error_json redact (error t));
     ("format", j_string "terminal-attempt-v2");
     ("minted_outputs", binding_array minted);
     ("provider", j_object [("artifact_sha256", j_string (provider_sha256 p)); ("id", j_string (provider_id p));
                            ("model_identity", model_identity_json (model_identity p));
                            ("version", j_string (provider_version p))]);
     ("request", j_object [("capability", j_string (requested_capability r));
                           ("data_classification", j_string (data_classification r));
                           ("inputs", binding_array (sort_bindings (request_inputs r)));
                           ("parameters_sha256", j_string parameters_hash); ("platform", j_string (platform r));
                           ("region", j_string (region r));
                           ("required_permissions", strings_json (sorted_strings (requested_permissions r)))]);
     ("started_at", j_string started);
     ("status", j_string (status_name (status_of t)))].

(** The text of the file, which [persist_attempt] writes once. *)
Definition line_of (j : json) : string := text j +:+ String newline EmptyString.

(** ** Reading it *)

(** [test(encoded.at(key))] of a member that [exact_keys] found. *)
Definition has_member (encoded : json) (key : string) (test : json → bool) : bool :=
  match j_at encoded key with Some j => test j | None => false end.

Definition exact_artifact_shape (j : json) : bool := exact_object_keys j ["byte_length"; "media_type"; "sha256"].
Definition exact_binding_shape (j : json) : bool :=
  exact_object_keys j ["artifact"; "port"] && has_member j "artifact" exact_artifact_shape.

Definition shaped_array (shape : json → bool) (j : json) : bool := is_array j && forallb shape (j_items j).

Definition private_shape (encoded : json) (id : AttemptId) : bool :=
  exact_object_keys encoded
    ["artifacts"; "attempt_id"; "candidate_ids"; "candidate_outputs"; "capability"; "ended_at"; "error"; "format";
     "minted_outputs"; "provider"; "request"; "started_at"; "status"] &&
  has_member encoded "format" (λ j, j_eq_string j "terminal-attempt-v2") &&
  has_member encoded "attempt_id" (λ j, j_eq_string j (value id)) &&
  has_member encoded "capability" (λ j, exact_object_keys j ["contract"; "id"; "version"] &&
    has_member j "contract" (λ x, j_eq_string x "lmdj.capability.v2")) &&
  has_member encoded "provider" (λ j, exact_object_keys j ["artifact_sha256"; "id"; "model_identity"; "version"]) &&
  has_member encoded "request" (λ j, exact_object_keys j
    ["capability"; "data_classification"; "inputs"; "parameters_sha256"; "platform"; "region"; "required_permissions"]) &&
  has_member encoded "artifacts" (shaped_array exact_artifact_shape) &&
  has_member encoded "candidate_ids" is_array &&
  has_member encoded "candidate_outputs" (shaped_array exact_binding_shape) &&
  has_member encoded "minted_outputs" (shaped_array exact_binding_shape) &&
  has_member encoded "request" (λ j, has_member j "inputs" (shaped_array exact_binding_shape) &&
    has_member j "required_permissions" is_array).

(** [if (!valid) return failure(invalid_argument(message))]. *)
Definition demand_that (valid : bool) (message : string) : Outcome () :=
  returning (unless_refused valid (plain_error invalid_argument message)).

Definition parse_status (name : string) : Outcome AttemptStatus :=
  if bool_decide (name = "succeeded") then returned succeeded
  else if bool_decide (name = "failed") then returned failed
  else refused (plain_error invalid_argument "Attempt record is not terminal").

Definition parse_error_code (name : string) : option ErrorCode :=
  snd <$> list_find (λ c, error_code_name c = name) all_error_codes.

Definition read_model (j : json) : Outcome (option ModelIdentity) :=
  if is_null j then returned None
  else
    let invalid := "terminal Attempt model identity is invalid" in
    demand_that (exact_object_keys j ["artifact_sha256"; "id"; "version"] && has_member j "id" is_string &&
                 has_member j "version" is_string && has_member j "artifact_sha256" is_string) invalid;;
    id ← get_string_at j "id"; version ← get_string_at j "version"; digest ← get_string_at j "artifact_sha256";
    demand_that (valid_file_id id && negb (bool_decide (version = "")) && valid_sha256 digest) invalid;;
    returned (Some (MkModel id version digest)).

Definition decode_artifact (j : json) : Outcome ArtifactRef := returning (artifact_from_json j).
Definition decode_binding (j : json) : Outcome ArtifactBinding :=
  port ← get_string_at j "port"; a ← at_ j "artifact"; artifact ← decode_artifact a;
  returned (MkBinding port artifact).

Definition valid_binding (b : ArtifactBinding) : bool :=
  valid_port_name (binding_port b) && valid_artifact (binding_artifact b).

Definition read_candidate (j : json) : Outcome CandidateId :=
  s ← library (get_string j);
  demand_that (valid_file_id s) "terminal Candidate id is invalid";;
  returned (MkId s).

Definition read_error (j : json) : Outcome (option Error) :=
  if is_null j then returned None
  else
    let invalid := "terminal Attempt error is invalid" in
    demand_that (exact_object_keys j ["code"; "details"; "message"] && has_member j "details" is_object) invalid;;
    name ← get_string_at j "code"; message ← get_string_at j "message"; details ← at_ j "details";
    match parse_error_code name with
    | Some c => demand_that (negb (bool_decide (message = ""))) invalid;; returned (Some (MkError _ c message details))
    | None => refused (plain_error invalid_argument invalid)
    end.

Definition outcome_consistent (s : AttemptStatus) (ids : list CandidateId) (e : option Error)
    (candidate_outputs minted : list ArtifactBinding) : bool :=
  match s with
  | succeeded => negb (is_empty ids) && negb (has_value e) && same_bindings candidate_outputs minted
  | failed => is_empty ids && has_value e && is_empty candidate_outputs && is_empty minted
  end.

Definition read_document (id : AttemptId) (encoded : json) : Outcome TerminalAttempt :=
  name ← get_string_at encoded "status"; status ← parse_status name;
  provider ← at_ encoded "provider";
  provider_id ← get_string_at provider "id"; provider_version ← get_string_at provider "version";
  provider_sha ← get_string_at provider "artifact_sha256";
  encoded_model ← at_ provider "model_identity"; model ← read_model encoded_model;
  capability ← at_ encoded "capability";
  capability_id ← get_string_at capability "id"; capability_version ← get_string_at capability "version";
  request ← at_ encoded "request";
  parameters_sha ← get_string_at request "parameters_sha256";
  request_capability ← get_string_at request "capability";
  classification ← get_string_at request "data_classification";
  platform ← get_string_at request "platform"; region ← get_string_at request "region";
  started_at ← get_string_at encoded "started_at"; ended_at ← get_string_at encoded "ended_at";
  demand_that
    (valid_file_id provider_id && valid_semver provider_version && valid_sha256 provider_sha &&
     valid_file_id capability_id && valid_semver capability_version && valid_sha256 parameters_sha &&
     bool_decide (request_capability = capability_id) &&
     negb (bool_decide (classification = "")) && negb (bool_decide (platform = "")) &&
     negb (bool_decide (region = "")) && negb (bool_decide (started_at = "")) && negb (bool_decide (ended_at = "")))
    "terminal Attempt identity is invalid";;
  ja ← at_ encoded "artifacts"; artifacts ← traverse decode_artifact (j_items ja);
  ji ← at_ request "inputs"; inputs ← traverse decode_binding (j_items ji);
  jm ← at_ encoded "minted_outputs"; minted ← traverse decode_binding (j_items jm);
  jo ← at_ encoded "candidate_outputs"; outputs ← traverse decode_binding (j_items jo);
  demand_that
    (forallb valid_artifact artifacts && forallb valid_binding inputs && forallb valid_binding minted &&
     forallb valid_binding outputs && bindings_sorted inputs && bindings_sorted minted && bindings_sorted outputs)
    "terminal Attempt artifacts are invalid";;
  jc ← at_ encoded "candidate_ids"; ids ← traverse read_candidate (j_items jc);
  jp ← at_ request "required_permissions"; permissions ← traverse (λ j, library (get_string j)) (j_items jp);
  demand_that (unique_nonempty permissions) "terminal Attempt permissions are invalid";;
  je ← at_ encoded "error"; error ← read_error je;
  demand_that (outcome_consistent status ids error outputs minted) "terminal Attempt outcome is inconsistent";;
  returned (MkTerminal id status started_at ended_at
    (MkProviderIdentity provider_id provider_version provider_sha model)
    (MkCapabilityIdentity capability_id "lmdj.capability.v2" capability_version)
    (MkMetadata request_capability inputs parameters_sha classification platform region permissions)
    ids minted outputs artifacts error).

(** [try { m } catch (const nlohmann::json::exception&) { return failure(e) }]. *)
Definition catch_library {A} (e : Error) (m : Outcome A) : Outcome A :=
  match m with raised None => refused e | r => r end.

(** [AttemptStore::inspect] of the text that is in the Attempt's file: the
    exceptions of the JSON library are caught, the one of [parse_bounded_or_throw]
    is not. *)
Definition inspect (id : AttemptId) (loaded : string) : Outcome TerminalAttempt :=
  demand_that (valid_file_id (value id)) "attempt id is not safe for inspection";;
  catch_library (plain_error invalid_argument "terminal Attempt is not valid canonical JSON")
    match parse_bounded_json parse_guarded loaded with
    | None => raised (Some "JSON is malformed or exceeds the maximum container depth")
    | Some encoded =>
        demand_that (bool_decide (loaded = line_of encoded) && private_shape encoded id)
          "terminal Attempt has an invalid private shape";;
        read_document id encoded
    end.
End document.
