(* ===== verification/AttemptLaws.v ===== *)
(** What is asked of a Provider, and what is recorded of it.

    A request passes exactly when it conforms to its capability and to the policy
    of the host; whatever a Provider returns, an execution of such a request leaves
    an Attempt that can be inspected; and [inspect] reads back exactly the Attempts
    that may be recorded. *)

From S2P Require Import Prelude Json Foundation Io Text Soundset Fields Outcome JsonText MapLib Provider ProviderLaws Attempt.

(** ** Bindings in order *)

Lemma tuple_key_app s t k l : tuple_key s ++ k = tuple_key t ++ l → s = t ∧ k = l.
Proof.
  unfold tuple_key. rewrite <- !app_assoc. intros E.
  assert (chars s = chars t ∧ k = l) as [H ->]; [|split; [|done]].
  2: { apply bytes_inj. unfold bytes. by rewrite H. }
  revert E. generalize (chars s), (chars t). intros a. induction a as [|x a IH]; intros [|y b] E; cbn in E.
  - by injection E.
  - injection E. lia.
  - injection E. lia.
  - injection E as Ex E. destruct (IH _ E) as [-> ->]. split; [|done]. f_equal.
    apply byte_of_inj. lia.
Qed.

Lemma artifact_order_inj a b : artifact_order a = artifact_order b → a = b.
Proof.
  unfold artifact_order. intros [E1 [E2 [= E3]]%tuple_key_app]%tuple_key_app. destruct a, b. cbn in *. congruence.
Qed.

Lemma binding_order_inj a b : binding_order a = binding_order b → a = b.
Proof.
  unfold binding_order. intros [E1 E2%artifact_order_inj]%tuple_key_app. destruct a, b. cbn in *. congruence.
Qed.

Lemma sort_bindings_perm l : sort_bindings l ≡ₚ l.
Proof. apply stable_sort_perm. Qed.

Lemma sort_bindings_idem l : sort_bindings (sort_bindings l) = sort_bindings l.
Proof. apply stable_sort_id, stable_sort_sorted. Qed.

Lemma bindings_sorted_sort l : bindings_sorted (sort_bindings l) = true.
Proof.
  pose proof (stable_sort_sorted binding_order l) as H. fold (sort_bindings l) in H.
  induction H as [|a m Hm IH Ha]; [done|]. destruct m as [|b m]; [done|].
  change (negb (binding_less b a) && bindings_sorted (b :: m) = true). rewrite IH, andb_true_r.
  apply Forall_cons in Ha as [Ha _]. unfold binding_less. by rewrite negb_involutive.
Qed.

Lemma same_bindings_perm l l' : same_bindings l l' = true ↔ l ≡ₚ l'.
Proof.
  unfold same_bindings. rewrite bool_decide_eq_true. split.
  - intros E. by rewrite <- (sort_bindings_perm l), E, sort_bindings_perm.
  - apply stable_sort_perm_eq. intros x y _ _. apply binding_order_inj.
Qed.

Lemma forallb_perm {A} (f : A → bool) l l' : l ≡ₚ l' → forallb f l = forallb f l'.
Proof.
  intros H. apply eq_true_iff_eq. rewrite !forallb_forall. split; intros Hf x Hx; apply Hf.
  - eapply Permutation_in; [symmetry; exact H|exact Hx].
  - eapply Permutation_in; [exact H|exact Hx].
Qed.

Lemma forallb_elem {A} (f : A → bool) l x : forallb f l = true → x ∈ l → f x = true.
Proof. rewrite forallb_forall. intros H Hx%list_elem_of_In. by apply H. Qed.

(** ** Requests *)

Section requests.
Context `{JL : JsonLib}.
Implicit Types (r : CapabilityRequest) (c : CapabilityDescriptor) (p : ProviderPolicy).

Record input_conforms c (b : ArtifactBinding) : Prop := {
  input_named : valid_port_name (binding_port b) = true;
  input_valid : valid_artifact (binding_artifact b) = true;
  input_allowed : ∃ port, find_port (input_artifacts c) (binding_port b) = Some port ∧
    ("*/*" ∈ media_types port ∨ media_type (binding_artifact b) ∈ media_types port)
}.

(** A request its capability can serve. *)
Record request_conforms r c : Prop := {
  conforms_metadata : requested_capability r = capability_id c ∧ data_classification r ≠ "" ∧ platform r ≠ "" ∧ region r ≠ "";
  conforms_inputs : Forall (input_conforms c) (request_inputs r);
  conforms_distinct : NoDup ((λ b, sha256 (binding_artifact b)) <$> request_inputs r);
  conforms_counts : Forall (λ port, (if port_required port then 1 else 0) ≤ port_count (request_inputs r) port ≤ max_count port)
                      (input_artifacts c)
}.

(** What both the capability and the host allow. *)
Record request_permitted r c p : Prop := {
  permitted_region : region r ∈ regions (policy c) ∧ region r ∈ allowed_regions p;
  permitted_data : data_classification r ∈ data_classifications (policy c) ∧
                   data_classification r ∈ allowed_data_classifications p;
  permitted_platform : platform r ∈ platforms c;
  permitted_distinct : NoDup (requested_permissions r) ∧ "" ∉ requested_permissions r;
  permitted_exact : ∀ x, x ∈ requested_permissions r ↔ x ∈ required_permissions (policy c);
  permitted_granted : ∀ x, x ∈ requested_permissions r → x ∈ granted_permissions p
}.

Lemma refused_unless_none v e m rest : refused_unless v e m rest = None ↔ v = true ∧ rest = None.
Proof. unfold refused_unless. destruct v; naive_solver. Qed.

Lemma listed_spec v l : listed v l = true ↔ v ∈ l.
Proof. apply bool_decide_eq_true. Qed.

Lemma forallb_listed (P : string → Prop) f l : (∀ x, f x = true ↔ P x) → forallb f l = true ↔ ∀ x, x ∈ l → P x.
Proof.
  intros Hf. rewrite forallb_forall. split; intros H x Hx; apply Hf, H; by apply list_elem_of_In.
Qed.

Lemma validate_policy_none r c p : validate_policy r c p = None ↔ request_permitted r c p.
Proof.
  unfold validate_policy. rewrite !refused_unless_none, unique_nonempty_spec, !andb_true_iff, !listed_spec.
  rewrite (forallb_listed (λ x, x ∈ requested_permissions r ∧ x ∈ granted_permissions p)).
  2: { intros x. by rewrite andb_true_iff, !listed_spec. }
  rewrite (forallb_listed (λ x, x ∈ required_permissions (policy c) ∧ x ∈ granted_permissions p)).
  2: { intros x. by rewrite andb_true_iff, !listed_spec. }
  split; [intros (? & ? & H1 & H2 & _); split; naive_solver|]. intros []. naive_solver.
Qed.

Lemma media_type_allowed_spec port m :
  media_type_allowed port m = true ↔ "*/*" ∈ media_types port ∨ m ∈ media_types port.
Proof.
  unfold media_type_allowed. rewrite existsb_exists. split.
  - intros (x & Hx%list_elem_of_In & [E|E]%orb_true_iff); apply bool_decide_eq_true_1 in E; subst x; auto.
  - intros [H|H]; eexists; (split; [by apply list_elem_of_In|]); apply orb_true_iff; [left|right]; by apply bool_decide_eq_true_2.
Qed.

Lemma validate_inputs_none c l rest : ∀ hashes, validate_inputs c hashes l rest = None ↔
  Forall (input_conforms c) l ∧ fresh hashes ((λ b, sha256 (binding_artifact b)) <$> l) ∧ rest = None.
Proof.
  induction l as [|b l IH]; intros hashes; cbn [validate_inputs].
  { split; [intros ->|tauto]. by repeat constructor. }
  rewrite refused_unless_none, Forall_cons, fmap_cons. destruct (find_port _ _) as [port|] eqn:Ef.
  2: { split; [naive_solver|]. intros [[[_ _ (port & E & _)] _] _]. congruence. }
  rewrite refused_unless_none, !andb_true_iff, negb_true_iff, bool_decide_eq_false, media_type_allowed_spec, IH.
  split.
  - intros (Hn & [[Hv Hm] Hh] & Hl & Hf & Hr). split; [|split; [by apply fresh_cons|done]].
    split; [split; [done..|by exists port]|done].
  - intros ([[Hn Hv (port' & E & Hm)] Hl] & Hf & Hr). rewrite Ef in E. injection E as <-. apply fresh_inv in Hf as [? ?].
    naive_solver.
Qed.

Lemma port_filled_spec l port :
  port_filled l port = true ↔ (if port_required port then 1 else 0) ≤ port_count l port ≤ max_count port.
Proof. unfold port_filled. by rewrite andb_true_iff, !N.leb_le. Qed.

Lemma validate_request_none r c p : validate_request r c p = None ↔ request_conforms r c ∧ validate_policy r c p = None.
Proof.
  unfold validate_request, validate_request_metadata.
  set (v := bool_decide (requested_capability r = capability_id c) && _ && _ && _).
  assert (v = true ↔ requested_capability r = capability_id c ∧ data_classification r ≠ "" ∧ platform r ≠ "" ∧ region r ≠ "") as Hv.
  { subst v. rewrite !andb_true_iff, !negb_true_iff, !bool_decide_eq_false, bool_decide_eq_true. tauto. }
  destruct v; cbn [refused_unless].
  2: { split; [done|]. intros [[Hm _ _ _] _]. apply Hv in Hm. done. }
  rewrite validate_inputs_none, refused_unless_none.
  assert (forallb (port_filled (request_inputs r)) (input_artifacts c) = true ↔
    Forall (λ port, (if port_required port then 1 else 0) ≤ port_count (request_inputs r) port ≤ max_count port)
      (input_artifacts c)) as ->.
  { rewrite forallb_forall, Forall_forall. split; intros H x Hx; apply port_filled_spec, H; by apply list_elem_of_In. }
  split.
  - intros (Hi & [Hn _] & Hc & Hp). split; [|done]. split; [by apply Hv|done..].
  - intros [[Hm Hi Hn Hc] Hp]. split; [done|]. split; [|done]. split; [done|]. apply Forall_forall. set_solver.
Qed.

Lemma refused_unless_some v e m rest e' : refused_unless v e m rest = Some e' →
  v = true ∧ rest = Some e' ∨ v = false ∧ e' = plain_error e m.
Proof. unfold refused_unless. destruct v; [by left|]. intros [= <-]. by right. Qed.

(** A refusal of the inputs, or of what follows them when they conform. *)
Lemma validate_inputs_some c l rest e : ∀ hashes, validate_inputs c hashes l rest = Some e →
  code e = invalid_argument ∨ rest = Some e ∧ validate_inputs c hashes l None = None.
Proof.
  induction l as [|b l IH]; intros hashes; cbn [validate_inputs]; [by right|].
  intros [[-> H]|[_ ->]]%refused_unless_some; [|by left]. cbn [refused_unless]. destruct (find_port _ _); [|left; by injection H as <-].
  apply refused_unless_some in H as [[-> H]|[_ ->]]; [|by left]. by apply IH.
Qed.

Lemma validate_policy_some r c p e : validate_policy r c p = Some e → code e = invalid_argument ∨ code e = permission_denied.
Proof.
  unfold validate_policy. intros H.
  repeat (apply refused_unless_some in H as [[_ H]|[_ ->]]; [|cbn; auto]). done.
Qed.

Lemma request_refused r c p e : validate_request r c p = Some e →
  (code e = invalid_argument ∨ code e = permission_denied ∧ request_conforms r c) ∧ message e ≠ "" ∧ details e = j_object [].
Proof.
  intros H. split.
  - unfold validate_request in H.
    destruct (validate_request_metadata r c) as [e'|] eqn:Em.
    { injection H as ->. left. by apply refused_unless_some in Em as [[_ ?]|[_ ->]]. }
    apply validate_inputs_some in H as [?|[H Hi]]; [by left|].
    apply refused_unless_some in H as [[Hc H]|[_ ->]]; [|by left].
    destruct (validate_policy_some _ _ _ _ H); [by left|right]. split; [done|].
    apply validate_inputs_none in Hi as (Hi & [Hn _] & _). split; [|done..|].
    + apply refused_unless_none in Em as [Em _]. bool_to_prop. done.
    + apply Forall_forall. intros port Hp%list_elem_of_In. apply port_filled_spec. rewrite forallb_forall in Hc. by apply Hc.
  - unfold validate_request, validate_request_metadata, validate_policy in H.
    assert (∀ v ec m rest, m ≠ "" → (rest = Some e → message e ≠ "" ∧ details e = j_object []) →
      refused_unless v ec m rest = Some e → message e ≠ "" ∧ details e = j_object []) as Hstep.
    { intros v ec m rest Hm Hr [[_ ?]|[_ ->]]%refused_unless_some; [by apply Hr|done]. }
    assert (∀ l rest hashes, (rest = Some e → message e ≠ "" ∧ details e = j_object []) →
      validate_inputs c hashes l rest = Some e → message e ≠ "" ∧ details e = j_object []) as Hin.
    { intros l rest. induction l as [|b l IH]; intros hashes Hr; cbn [validate_inputs]; [done|].
      apply Hstep; [done|]. destruct (find_port _ _); [|by intros [= <-]]. apply Hstep; [done|]. by apply IH. }
    destruct (refused_unless _ _ _ None) as [e'|] eqn:Em; [injection H as ->; by apply Hstep in Em|].
    revert H. apply Hin. repeat (apply Hstep; [done|]). done.
Qed.

(** C0: a Provider is asked only for what was granted.  A request passes exactly
    when it conforms to the capability (its inputs are valid, distinct, of a
    declared port and an accepted media type, and as many as the port takes) and
    both the capability and the host allow it: the region, the class of its data
    and the platform, and exactly the permissions the capability requires, all of
    them granted.  A request is denied permission only when it conforms. *)
Theorem request_authorized r c p :
  (validate_request r c p = None ↔ request_conforms r c ∧ request_permitted r c p) ∧
  (∀ e, validate_request r c p = Some e →
     code e = invalid_argument ∨ code e = permission_denied ∧ request_conforms r c).
Proof.
  split; [by rewrite validate_request_none, validate_policy_none|].
  intros e H. by apply request_refused in H as [? _].
Qed.
End requests.

(** ** Reading a document back *)

Section document.
Context `{JL : JsonLib} `{HL : !JsonLaws JL} `{TL : !TextLib} `{PL : !ParseLib}.

(** [m] gives [a] when [valid] holds, and is refused when it does not. *)
Definition accepts {A} (m : Outcome A) (valid : bool) (a : A) : Prop :=
  if valid then m = returned a else ∃ e, m = refused e.

Lemma accepts_returned {A} (a : A) : accepts (returned a) true a.
Proof. done. Qed.

Lemma accepts_bind {A B} (m : Outcome A) (f : A → Outcome B) v v' a b :
  accepts m v a → (v = true → accepts (f a) v' b) → accepts (m ≫= f) (v && v') b.
Proof.
  unfold accepts. destruct v; cbn [andb].
  - intros -> H. by apply H.
  - intros [e ->] _. by exists e.
Qed.

Lemma accepts_demand valid m : accepts (demand_that valid m) valid ().
Proof. unfold accepts, demand_that, unless_refused. destruct valid; [done|by eexists]. Qed.

Lemma accepts_last {A} valid m (a : A) : accepts (demand_that valid m;; returned a) valid a.
Proof. unfold accepts, demand_that, unless_refused. destruct valid; [done|by eexists]. Qed.

Lemma accepts_traverse {A B} (f : json → Outcome B) (g : A → json) (h : A → B) v l :
  (∀ a, accepts (f (g a)) (v a) (h a)) → accepts (traverse f (g <$> l)) (forallb v l) (h <$> l).
Proof.
  intros H. induction l as [|a l IH]; [done|]. rewrite !fmap_cons. cbn [traverse forallb].
  apply (accepts_bind _ _ _ _ (h a)); [apply H|]. intros _. rewrite <- (andb_true_r (forallb v l)).
  apply (accepts_bind _ _ _ _ (h <$> l)); [exact IH|]. intros _. apply accepts_returned.
Qed.

(** Evaluate the next read, of the object whose members [H] lists. *)
Ltac read_of H m :=
  lazymatch m with
  | get_string_at ?j ?k => rewrite (get_string_at_fields j _ k _ _ H eq_refl)
  | at_ ?j ?k => rewrite (at_fields j _ k _ H eq_refl)
  end; cbn [mbind outcome_bind].
Ltac read_at H :=
  lazymatch goal with
  | |- accepts (?m ≫= _) _ _ => read_of H m
  | |- ?m ≫= _ = _ => read_of H m
  end.

(** *** Artifacts and bindings *)

Definition fits_u64 (a : ArtifactRef) : Prop := byte_length a < 2 ^ 64.

Lemma decode_artifact_json a : fits_u64 a → decode_artifact (artifact_to_json a) = returned a.
Proof.
  intros Ha. unfold decode_artifact, artifact_from_json, artifact_to_json.
  rewrite !object_at by (apply distinct_keys_nodup; reflexivity). cbn [assoc String.eqb Ascii.eqb Bool.eqb throwing mbind result_bind].
  rewrite !string_get, uint_get by done. cbn. by destruct a.
Qed.

Lemma binding_json_fields b : fields (binding_to_json b)
  [("artifact", artifact_to_json (binding_artifact b)); ("port", j_string (binding_port b))].
Proof. by apply fields_j_object. Qed.

Lemma decode_binding_json b : fits_u64 (binding_artifact b) → decode_binding (binding_to_json b) = returned b.
Proof.
  intros Hb. unfold decode_binding. pose proof (binding_json_fields b) as Hf.
  do 2 read_at Hf. rewrite decode_artifact_json by done. by destruct b.
Qed.

Lemma artifact_shape_json a : exact_artifact_shape (artifact_to_json a) = true.
Proof.
  unfold exact_artifact_shape, artifact_to_json. by erewrite exact_keys_fields by (apply fields_j_object; reflexivity).
Qed.

Lemma binding_shape_json b : exact_binding_shape (binding_to_json b) = true.
Proof.
  unfold exact_binding_shape, has_member. pose proof (binding_json_fields b) as Hf.
  rewrite (exact_keys_fields _ _ _ Hf), (fields_at _ _ Hf). cbn [assoc String.eqb Ascii.eqb Bool.eqb].
  by rewrite artifact_shape_json.
Qed.

Lemma shaped_array_json {A} (shape : json → bool) (g : A → json) l :
  (∀ a, shape (g a) = true) → shaped_array shape (j_array (g <$> l)) = true.
Proof.
  intros H. unfold shaped_array. rewrite array_is_array, array_items. apply forallb_forall.
  intros j (a & -> & _)%list_elem_of_In%list_elem_of_fmap. apply H.
Qed.

Lemma traverse_all {A} (f : json → Outcome A) (g : A → json) (P : A → Prop) l :
  (∀ a, P a → f (g a) = returned a) → Forall P l → traverse f (j_items (j_array (g <$> l))) = returned l.
Proof.
  intros H Hl. rewrite array_items. rewrite Forall_forall in Hl.
  rewrite (traverse_map f g id) by (intros a Ha; by apply H, Hl). by rewrite list_fmap_id.
Qed.

(** *** The parts of the document *)

Definition model_recordable (m : option ModelIdentity) : bool :=
  match m with
  | None => true
  | Some m => valid_file_id (model_id m) && negb (bool_decide (model_version m = "")) && valid_sha256 (model_sha256 m)
  end.

Lemma read_model_json m : accepts (read_model (model_identity_json m)) (model_recordable m) m.
Proof.
  unfold read_model. destruct m as [m|]; cbn [model_identity_json model_recordable]; [|by rewrite null_is_null].
  rewrite object_not_null. set (l := [("id", _); _; _]).
  assert (fields (j_object l) l) as Hf by by apply fields_j_object.
  unfold has_member. rewrite (exact_keys_fields _ _ _ Hf), !(fields_at _ _ Hf). cbn [l assoc String.eqb Ascii.eqb Bool.eqb].
  rewrite !string_is_string. rewrite <- (andb_true_l (_ && valid_sha256 _)).
  eapply accepts_bind; [apply accepts_demand|]. intros _. do 3 read_at Hf. destruct m. apply accepts_last.
Qed.

Lemma parse_error_code_name c : parse_error_code (error_code_name c) = if bool_decide (c ∈ all_error_codes) then Some c else None.
Proof. by destruct c. Qed.

(** What is recorded of an error. *)
Definition recorded_error (redact : bool) (e : Error) : Error :=
  MkError _ (code e) (recorded_message redact e) (recorded_details redact e).

Definition error_recordable (redact : bool) (e : option Error) : bool :=
  match e with
  | None => true
  | Some e => is_object (recorded_details redact e) && bool_decide (code e ∈ all_error_codes) &&
              negb (bool_decide (recorded_message redact e = ""))
  end.

Lemma read_error_json redact e :
  accepts (read_error (error_json redact e)) (error_recordable redact e) (recorded_error redact <$> e).
Proof.
  unfold read_error. destruct e as [e|]; cbn [error_json error_recordable fmap option_fmap option_map]; [|by rewrite null_is_null].
  rewrite object_not_null. set (l := [("code", _); _; _]).
  assert (fields (j_object l) l) as Hf by by apply fields_j_object.
  unfold has_member. rewrite (exact_keys_fields _ _ _ Hf), !(fields_at _ _ Hf). subst l. assoc_cbn. rewrite <- andb_assoc.
  eapply accepts_bind; [apply accepts_demand|]. intros _. do 3 read_at Hf.
  rewrite parse_error_code_name. case_bool_decide; cbn [andb]; [|by eexists].
  apply accepts_last.
Qed.

Lemma read_candidate_json k : accepts (read_candidate (j_string (value k))) (valid_file_id (value k)) k.
Proof.
  unfold read_candidate. rewrite string_get. cbn [library mbind outcome_bind]. destruct k. apply accepts_last.
Qed.

Lemma read_candidates_json l :
  accepts (traverse read_candidate (j_items (j_array ((λ k, j_string (value k)) <$> l))))
    (forallb (λ k, valid_file_id (value k)) l) l.
Proof.
  rewrite array_items. rewrite <- (list_fmap_id l) at 3.
  apply (accepts_traverse read_candidate (λ k, j_string (value k)) id). exact read_candidate_json.
Qed.

Lemma read_strings_json l : traverse (λ j, library (get_string j)) (j_items (strings_json l)) = returned l.
Proof.
  unfold strings_json. rewrite array_items. rewrite (traverse_map _ _ id) by (intros s _; cbn; by rewrite string_get).
  by rewrite list_fmap_id.
Qed.

Lemma status_name_parsed s : parse_status (status_name s) = returned s.
Proof. by destruct s. Qed.

(** *** The whole document *)

Section attempt.
Context (p : ProviderDescriptor) (c : CapabilityDescriptor) (r : CapabilityRequest) (t : AttemptResult).
Context (parameters_hash started ended : string) (minted : list ArtifactBinding) (redact : bool).

Definition terminal_of : TerminalAttempt :=
  MkTerminal (attempt_id t) (status_of t) started ended
    (MkProviderIdentity (provider_id p) (provider_version p) (provider_sha256 p) (model_identity p))
    (MkCapabilityIdentity (capability_id c) "lmdj.capability.v2" (contract_version c))
    (MkMetadata (requested_capability r) (sort_bindings (request_inputs r)) parameters_hash (data_classification r)
       (platform r) (region r) (sorted_strings (requested_permissions r)))
    (result_candidates t) (sort_bindings minted) (sort_bindings (result_outputs t))
    (sort_artifacts (named_artifacts (request_inputs r) minted)) (recorded_error redact <$> error t).

Definition identity_recordable : bool :=
  valid_file_id (provider_id p) && valid_semver (provider_version p) && valid_sha256 (provider_sha256 p) &&
  valid_file_id (capability_id c) && valid_semver (contract_version c) && valid_sha256 parameters_hash &&
  bool_decide (requested_capability r = capability_id c) &&
  negb (bool_decide (data_classification r = "")) && negb (bool_decide (platform r = "")) &&
  negb (bool_decide (region r = "")) && negb (bool_decide (started = "")) && negb (bool_decide (ended = "")).

Definition bindings_recordable : bool :=
  forallb valid_binding (request_inputs r) && forallb valid_binding minted && forallb valid_binding (result_outputs t).

(** What an Attempt must be for [inspect] to accept it. *)
Definition recordable : bool :=
  model_recordable (model_identity p) &&
  (identity_recordable &&
   (bindings_recordable &&
    (forallb (λ k, valid_file_id (value k)) (result_candidates t) &&
     (unique_nonempty (requested_permissions r) &&
      (error_recordable redact (error t) &&
       outcome_consistent (status_of t) (result_candidates t) (error t) (result_outputs t) minted))))).

Abbreviation document := (attempt_document p c r t parameters_hash started ended minted redact).

Definition document_members : list (string * json) :=
  [("artifacts", artifact_array (named_artifacts (request_inputs r) minted));
   ("attempt_id", j_string (value (attempt_id t)));
   ("candidate_ids", j_array ((λ k, j_string (value k)) <$> result_candidates t));
   ("candidate_outputs", binding_array (sort_bindings (result_outputs t)));
   ("capability", j_object [("contract", j_string "lmdj.capability.v2"); ("id", j_string (capability_id c));
                            ("version", j_string (contract_version c))]);
   ("ended_at", j_string ended); ("error", error_json redact (error t));
   ("format", j_string "terminal-attempt-v2"); ("minted_outputs", binding_array minted);
   ("provider", j_object [("artifact_sha256", j_string (provider_sha256 p)); ("id", j_string (provider_id p));
                          ("model_identity", model_identity_json (model_identity p));
                          ("version", j_string (provider_version p))]);
   ("request", j_object [("capability", j_string (requested_capability r));
                         ("data_classification", j_string (data_classification r));
                         ("inputs", binding_array (sort_bindings (request_inputs r)));
                         ("parameters_sha256", j_string parameters_hash); ("platform", j_string (platform r));
                         ("region", j_string (region r));
                         ("required_permissions", strings_json (sorted_strings (requested_permissions r)))]);
   ("started_at", j_string started); ("status", j_string (status_name (status_of t)))].

Lemma document_fields : fields document document_members.
Proof. by apply fields_j_object. Qed.

Lemma document_shape : private_shape document (attempt_id t) = true.
Proof.
  pose proof document_fields as Hf. unfold private_shape, has_member.
  rewrite (exact_keys_fields _ _ _ Hf), !(fields_at _ _ Hf). unfold document_members. assoc_cbn.
  rewrite !string_eq, !bool_decide_true by done.
  erewrite !exact_keys_fields by (apply fields_j_object; reflexivity).
  rewrite !object_at by (apply distinct_keys_nodup; reflexivity). assoc_cbn.
  rewrite string_eq, bool_decide_true by done. unfold artifact_array, binding_array, strings_json.
  rewrite !shaped_array_json by (exact artifact_shape_json || exact binding_shape_json).
  by rewrite !array_is_array.
Qed.

(** What is named by valid bindings is valid, and order changes nothing. *)
Lemma elem_of_named a inputs m : a ∈ named_artifacts inputs m → ∃ b, (b ∈ inputs ∨ b ∈ m) ∧ a = binding_artifact b.
Proof.
  assert (∀ l acc, a ∈ foldl add_artifact acc l → a ∈ acc ∨ ∃ b, b ∈ l ∧ a = binding_artifact b) as Hfold.
  { induction l as [|b l IH]; intros acc; cbn [foldl]; [by left|]. intros [H|(x & Hx & ->)]%IH; [|right; exists x; set_solver].
    unfold add_artifact in H. case_bool_decide; [by left|]. apply elem_of_app in H as [H|H%list_elem_of_singleton]; [by left|].
    right. exists b. split; [left|done]. }
  unfold named_artifacts. intros [[H|(b & Hb & ->)]%Hfold|(b & Hb & ->)]%Hfold.
  - by apply elem_of_nil in H.
  - exists b. rewrite sort_bindings_perm in Hb. auto.
  - eauto.
Qed.

Lemma bindings_checked :
  forallb valid_artifact (sort_artifacts (named_artifacts (request_inputs r) minted)) &&
  forallb valid_binding (sort_bindings (request_inputs r)) && forallb valid_binding (sort_bindings minted) &&
  forallb valid_binding (sort_bindings (result_outputs t)) && bindings_sorted (sort_bindings (request_inputs r)) &&
  bindings_sorted (sort_bindings minted) && bindings_sorted (sort_bindings (result_outputs t)) = bindings_recordable.
Proof.
  rewrite !bindings_sorted_sort, !andb_true_r, !(forallb_perm valid_binding (sort_bindings _) _ (sort_bindings_perm _)).
  unfold bindings_recordable. destruct (forallb valid_binding (request_inputs r)) eqn:Hi, (forallb valid_binding minted) eqn:Hm;
    rewrite ?andb_false_r; try done.
  assert (forallb valid_artifact (sort_artifacts (named_artifacts (request_inputs r) minted)) = true) as ->; [|done].
  apply forallb_forall. intros a Ha%list_elem_of_In. unfold sort_artifacts in Ha. rewrite stable_sort_perm in Ha.
  apply elem_of_named in Ha as (b & [Hb|Hb] & ->).
  - pose proof (forallb_elem _ _ _ Hi Hb) as H. by apply andb_true_iff in H as [_ H].
  - pose proof (forallb_elem _ _ _ Hm Hb) as H. by apply andb_true_iff in H as [_ H].
Qed.

Lemma is_empty_sorted l : is_empty (sort_bindings l) = is_empty l.
Proof.
  pose proof (Permutation_length (sort_bindings_perm l)) as H. by destruct (sort_bindings l), l.
Qed.

Lemma outcome_checked :
  outcome_consistent (status_of t) (result_candidates t) (recorded_error redact <$> error t)
    (sort_bindings (result_outputs t)) (sort_bindings minted) =
  outcome_consistent (status_of t) (result_candidates t) (error t) (result_outputs t) minted.
Proof.
  unfold outcome_consistent. rewrite !is_empty_sorted.
  assert (same_bindings (sort_bindings (result_outputs t)) (sort_bindings minted) = same_bindings (result_outputs t) minted) as ->.
  { unfold same_bindings. by rewrite !sort_bindings_idem. }
  by destruct (status_of t), (error t).
Qed.

Lemma artifacts_read l : Forall fits_u64 l → traverse decode_artifact (j_items (artifact_array l)) = returned (sort_artifacts l).
Proof.
  intros H. apply (traverse_all _ _ fits_u64); [exact decode_artifact_json|]. unfold sort_artifacts. by rewrite stable_sort_perm.
Qed.

Lemma bindings_read l : Forall (λ b, fits_u64 (binding_artifact b)) l →
  traverse decode_binding (j_items (binding_array l)) = returned (sort_bindings l).
Proof.
  intros H. apply (traverse_all _ _ (λ b, fits_u64 (binding_artifact b))); [exact decode_binding_json|].
  by rewrite sort_bindings_perm.
Qed.

(** Lengths fit the 64 bits they have in memory. *)
Definition attempt_typed : Prop :=
  Forall (λ b, fits_u64 (binding_artifact b)) (request_inputs r ++ minted ++ result_outputs t).

Lemma named_typed : attempt_typed → Forall fits_u64 (named_artifacts (request_inputs r) minted).
Proof.
  unfold attempt_typed. rewrite !Forall_forall. intros H a (b & Hb & ->)%elem_of_named. apply H. set_solver.
Qed.

Lemma document_read : attempt_typed → accepts (read_document (attempt_id t) document) recordable terminal_of.
Proof.
  intros Ht. pose proof (named_typed Ht) as Hn. unfold attempt_typed in Ht. rewrite !Forall_app in Ht. destruct Ht as (Hi & Hm & Ho).
  pose proof document_fields as Hf. unfold read_document.
  read_at Hf. rewrite status_name_parsed. cbn [mbind outcome_bind]. read_at Hf.
  match goal with |- context [j_object (("artifact_sha256", ?v) :: ?l)] =>
    pose proof (fields_j_object (("artifact_sha256", v) :: l) eq_refl) as Hp end. do 4 read_at Hp.
  eapply accepts_bind; [apply read_model_json|]. intros _. read_at Hf.
  match goal with |- context [j_object (("contract", ?v) :: ?l)] =>
    pose proof (fields_j_object (("contract", v) :: l) eq_refl) as Hc end. do 2 read_at Hc. read_at Hf.
  match goal with |- context [j_object (("capability", ?v) :: ?l)] =>
    pose proof (fields_j_object (("capability", v) :: l) eq_refl) as Hr end. do 5 read_at Hr. do 2 read_at Hf.
  eapply accepts_bind; [apply accepts_demand|]. intros _.
  read_at Hf. rewrite (artifacts_read _ Hn). cbn [mbind outcome_bind].
  read_at Hr. rewrite bindings_read by (by rewrite sort_bindings_perm). cbn [mbind outcome_bind].
  read_at Hf. rewrite bindings_read by done. cbn [mbind outcome_bind].
  read_at Hf. rewrite bindings_read by (by rewrite sort_bindings_perm). cbn [mbind outcome_bind].
  rewrite !sort_bindings_idem, bindings_checked. eapply accepts_bind; [apply accepts_demand|]. intros _.
  read_at Hf. eapply accepts_bind; [apply read_candidates_json|]. intros _.
  read_at Hr. rewrite read_strings_json. cbn [mbind outcome_bind].
  rewrite (unique_nonempty_proper _ _ (sorted_strings_perm _)). eapply accepts_bind; [apply accepts_demand|]. intros _.
  read_at Hf. eapply accepts_bind; [apply read_error_json|]. intros _. rewrite outcome_checked. apply accepts_last.
Qed.

Lemma accepts_caught {A} (m : Outcome A) v a (e : Error) : accepts m v a →
  accepts (catch_library e m) v a.
Proof. unfold accepts, catch_library. destruct v; [by intros ->|]. intros [e' ->]. by exists e'. Qed.

(** The parser skips the newline that ends the line of a document. *)
Definition parses_lines : Prop := ∀ d, printable kMaximumJsonContainerDepth d = true →
  parse_guarded kMaximumJsonContainerDepth (line_of (build d)) = Some (build d).

(** C0: an Attempt is read back as it was recorded, or not at all.  [inspect] of
    the text an execution wrote gives every member of the Attempt, the bindings and
    the permissions in order and the error as it was redacted, exactly when the
    Attempt may be recorded ([recordable]: its names, versions and digests are
    valid, its bindings and permissions too, and its outcome is one candidate with
    the outputs that were minted, or an error and no outputs); it refuses any
    other Attempt, and lets no exception out. *)
Theorem attempt_roundtrip d : parses_lines → document = build d → printable kMaximumJsonContainerDepth d = true →
  attempt_typed →
  if valid_file_id (value (attempt_id t)) && recordable
  then inspect (attempt_id t) (line_of document) = returned terminal_of
  else ∃ e, inspect (attempt_id t) (line_of document) = refused e.
Proof.
  intros Hparse Ed Hd Ht. fold (accepts (inspect (attempt_id t) (line_of document))
    (valid_file_id (value (attempt_id t)) && recordable) terminal_of).
  unfold inspect. eapply accepts_bind; [apply accepts_demand|]. intros _. apply accepts_caught.
  assert (parse_bounded_json parse_guarded (line_of document) = Some document) as ->.
  { rewrite Ed. by apply Hparse. }
  rewrite document_shape, bool_decide_true by done. cbn [andb]. change recordable with (true && recordable).
  eapply accepts_bind; [apply accepts_demand|]. intros _. by apply document_read.
Qed.
End attempt.
End document.
