(* ===== verification/RuntimeContent.v ===== *)
(** Runtime content: a snapshot as a portable file.

    Models packages/project-cooker: runtime_content_types.hpp, runtime_content.hpp
    and runtime_content.cpp, the encoder, the validating decoder and the inspector
    of the lmdj.runtime-content.v1 contract.

    The internal exception [InvalidContent] is caught by each entry point, which
    turns it into an error: here [require] fails with that error at once.  A read
    out of range is [thrown].  The arrays of 64 cells are lists: what the loops
    have written of those they fill in order, all the cells of those they index by
    slot.  The gain is an IEEE single, given by its 32 bits.  The hash is that of
    the third-party picosha2: an interface. *)

From S2P Require Import Prelude Json Foundation Text Project Wav Cooker.

(** ** The hash interface *)

(** [picosha2::hash256_one_by_one]: an empty hasher, [process] of one range of
    bytes, and [finish] with [get_hash_bytes]. *)
Class HashLib := {
  hasher : Type;
  new_hasher : hasher;
  process : hasher → list ascii → hasher;
  finish_hasher : hasher → list ascii
}.

(** Processing a range in pieces is processing it at once; a digest has 32
    bytes. *)
Class HashLaws `(HL : HashLib) := {
  process_app h a b : process (process h a) b = process h (a ++ b);
  process_nil h : process h [] = h;
  length_finish h : length (finish_hasher h) = 32%nat
}.

(** ** IEEE singles *)

Definition exponent32 (bits : N) : N := N.land (N.shiftr bits 23) 255.
Definition isfinite32 (bits : N) : bool := negb (exponent32 bits =? 255).
Definition signbit32 (bits : N) : bool := N.testbit bits 31.
(** [x <= 2.0F] of an [x] that is finite and has no sign bit: singles of one
    sign are ordered as their bits. *)
Definition at_most_two32 (bits : N) : bool := bits <=? 0x40000000.

(** ** Data *)

Definition kHeaderBytes : N := 136.
Definition kPadBytes : N := 20.
Definition kEventBytes : N := 12.
Definition kSampleHeaderBytes : N := 12.
Definition kRequiredCapabilities : N := 7.
Definition kMagic : string := "LMDJRC01".
Definition kRuntimePcmMediaType : string := "application/vnd.lmdj.runtime-pcm16le".

Record RuntimeContentIdentity := MkContentIdentity {
  identity_sha256 : string;
  identity_byte_length : N
}.

Record RuntimeContentLimits := MkContentLimits {
  maximum_encoded_bytes : N;
  maximum_pcm_bytes : N;
  maximum_sample_frames : N;
  maximum_pads : N;
  maximum_events : N
}.

Record RuntimeContentFootprint := MkContentFootprint {
  footprint_encoded_bytes : N;
  footprint_pcm_bytes : N;
  prepared_float_bytes : N;
  largest_float_sample_bytes : N;
  footprint_pads : N;
  footprint_events : N;
  footprint_samples : N
}.

Record EncodedRuntimeContent := MkEncodedContent {
  content_identity : RuntimeContentIdentity;
  content_bytes : list ascii
}.

(** An event without its pointer to a sample. *)
Record EventFields := MkEventFields {
  field_slot : PadSlotId;
  field_onset : N;
  field_duration : N;
  field_velocity : N
}.

#[export] Instance PcmSample_eq_dec : EqDecision PcmSample.
Proof. solve_decision. Defined.

Section content.
Context `{JL : JsonLib} `{HL : HashLib}.

Abbreviation Playback := (ResolvedPlayback (float := N)).
Abbreviation Pad := (ResolvedPad (float := N)).
Abbreviation Snapshot := (RuntimeSnapshot (float := N)).

(** ** Errors *)

Definition content_error (condition why : string) : Error :=
  MkError _ invalid_argument
    ("why: " +:+ why +:+
     "; remedy: supply canonical supported runtime content within the caller limits")
    (j_object [("runtime_content_condition", j_string condition)]).

Definition construction_error : Error :=
  plain_error internal_error
    "why: runtime content construction failed; remedy: retry with available resources and never publish a partial result".

Definition require (valid : bool) (condition why : string) : Result () :=
  if valid then success () else failure (content_error condition why).

Definition add (left right : N) : Result N :=
  require (right <=? 2 ^ 64 - 1 - left) "overflow" "runtime content byte count overflows";;
  success (left + right).

Definition multiply (left right : N) : Result N :=
  require ((right =? 0) || (left <=? (2 ^ 64 - 1) / right)) "overflow"
    "runtime content byte product overflows";;
  success (left * right).

(** ** Hashing *)

(** The loop over ranges of at most 512 bytes; [fuel] is at least their
    number. *)
Fixpoint hash_bytes (fuel : nat) (h : hasher) (bytes : list ascii) : hasher :=
  match fuel, bytes with
  | S fuel', _ :: _ => hash_bytes fuel' (process h (take 512 bytes)) (drop 512 bytes)
  | _, _ => h
  end.

Definition hash (bytes : list ascii) : list ascii :=
  finish_hasher (hash_bytes (length bytes) new_hasher bytes).

Definition digits : list ascii :=
  ["0"; "1"; "2"; "3"; "4"; "5"; "6"; "7"; "8"; "9"; "a"; "b"; "c"; "d"; "e"; "f"]%char.

Definition digit (n : N) : ascii := value_or (digits !! N.to_nat n) "0"%char.

Definition hex (digest : list ascii) : string :=
  String.string_of_list_ascii
    (mjoin ((λ c, [digit (N.shiftr (byte_of c) 4); digit (N.land (byte_of c) 15)]) <$> digest)).

(** ** Reading *)

(** [Reader]: a method reads from the bytes that are left. *)
Definition Reader (A : Type) : Type := list ascii → Result (A * list ascii).

#[export] Instance reader_ret : MRet Reader := λ A a bytes, success (a, bytes).
#[export] Instance reader_bind : MBind Reader := λ A B f m bytes,
  '(a, rest) ← m bytes; f a rest.

(** A call that reads nothing. *)
Definition lift {A} (r : Result A) : Reader A := λ bytes, a ← r; success (a, bytes).

Definition take_bytes (length : N) : Reader (list ascii) := λ bytes,
  require (length <=? size bytes) "length" "runtime content is truncated";;
  success (take (N.to_nat length) bytes, drop (N.to_nat length) bytes).

(** [value |= bytes[index] << (index * 8)], from [index]. *)
Fixpoint or_bytes (value index : N) (bytes : list ascii) : N :=
  match bytes with
  | [] => value
  | c :: bytes' => or_bytes (N.lor value (N.shiftl (byte_of c) (index * 8))) (index + 1) bytes'
  end.

Definition integer (width : N) : Reader N :=
  bytes ← take_bytes width; mret (M := Reader) (or_bytes 0 0 bytes).

Definition text (length : N) : Reader string :=
  bytes ← take_bytes length; mret (M := Reader) (String.string_of_list_ascii bytes).

(** A loop of [count] passes. *)
Fixpoint read_loop {S} (count : nat) (pass : S → Reader S) (s : S) : Reader S :=
  match count with
  | O => mret (M := Reader) s
  | Datatypes.S count' => s' ← (pass s : Reader S); read_loop count' pass s'
  end.

(** ** Writing *)

(** What [append] adds. *)
Definition append (value : N) (width : nat) : list ascii :=
  (λ index, byte_of_value (N.shiftr value (N.of_nat index * 8))) <$> seq 0 width.

Definition append_text (value : string) : list ascii := chars value.

(** ** Validation *)

Definition validate_pattern (s : Snapshot) : Result () :=
  require (is_valid_uuid (value (snapshot_project_id s)) &&
           is_valid_uuid (value (snapshot_pattern_id s)))
    "source" "runtime content source identity is invalid";;
  require ((40 <=? snapshot_bpm s) && (snapshot_bpm s <=? 240) &&
           ((snapshot_bars s =? 1) || (snapshot_bars s =? 2) || (snapshot_bars s =? 4) ||
            (snapshot_bars s =? 8)) &&
           (ppq s =? 960) && (loop_length_ticks s =? u32_mul (u32_mul (snapshot_bars s) 4) 960))
    "timing" "runtime content Pattern timing is invalid".

Definition validate_counts (pads events samples : N) (limits : RuntimeContentLimits) : Result () :=
  require ((pads <=? 64) && (samples <=? pads) && (events <=? 2 ^ 32 - 1))
    "counts" "runtime content table counts are invalid";;
  require (pads <=? maximum_pads limits) "pad_limit" "runtime content exceeds the Pad allowance";;
  require (events <=? maximum_events limits) "event_limit"
    "runtime content exceeds the event allowance".

Definition mode_number (mode : TriggerMode) : N :=
  match mode with
  | TriggerMode.one_shot => 0
  | TriggerMode.gate => 1
  | TriggerMode.loop_gate => 2
  | TriggerMode.loop_toggle => 3
  end.

Definition modes : list TriggerMode :=
  [TriggerMode.one_shot; TriggerMode.gate; TriggerMode.loop_gate; TriggerMode.loop_toggle].

Definition read_mode (mode : N) : Result TriggerMode :=
  require (mode <? N.of_nat (length modes)) "playback"
    "runtime content trigger mode is unsupported";;
  throwing (modes !! N.to_nat mode).

Definition slot_number (s : PadSlotId) : Result N :=
  require (is_valid_slot s) "slot" "runtime content Pad Slot is invalid";;
  success (bank s * 16 + pad s).

Definition validate_playback (p : Playback) (frames : N) : Result () :=
  require ((resolved_start_frame p <? resolved_end_frame p) && (resolved_end_frame p <=? frames) &&
           isfinite32 (linear_gain p) && negb (signbit32 (linear_gain p)) &&
           at_most_two32 (linear_gain p))
    "playback" "runtime content playback range or gain is invalid";;
  require (is_neutral (dsp p)) "voice_dsp"
    "runtime content v1 cannot carry Pad reverse, pitch, pan, loop, envelope, tone or EQ settings".

Definition event_key (e : EventFields) : list N :=
  [field_onset e; bank (field_slot e); pad (field_slot e)].

(** [event_key(left) < event_key(right)]. *)
Definition event_before (left right : EventFields) : bool :=
  negb (lex_le (event_key right) (event_key left)).

Definition validate_event (e : EventFields) (loop_ticks : N) : Result () :=
  slot_number (field_slot e);;
  require ((1 <=? field_velocity e) && (field_velocity e <=? 127) &&
           (field_onset e <? loop_ticks) && (0 <? field_duration e) &&
           (field_duration e <=? u32_sub loop_ticks (field_onset e)))
    "event" "runtime content event timing or velocity is invalid".

Definition sample_size (p : PcmSample) : N := N.of_nat (length (interleaved p)).

Definition validate_sample (sample : PcmSample) (limits : RuntimeContentLimits) : Result N :=
  require ((sample_rate sample =? 48000) && ((channels sample =? 1) || (channels sample =? 2)) &&
           negb (is_empty (interleaved sample)) && (sample_size sample mod channels sample =? 0))
    "pcm" "runtime content requires complete 48 kHz mono/stereo PCM16 frames";;
  let frames := sample_size sample / channels sample in
  require ((frames <=? 2 ^ 32 - 1) && (frames <=? maximum_sample_frames limits))
    "frame_limit" "runtime content exceeds the sample frame allowance";;
  success (wrap 32 frames).

Definition sample_header (sample : PcmSample) : list ascii :=
  let frames := sample_size sample / channels sample in
  byte_of_value <$> [0x80; 0xbb; 0; 0; channels sample; 0; 0; 0; frames; N.shiftr frames 8;
                     N.shiftr frames 16; N.shiftr frames 24].

(** The two bytes of a value. *)
Definition pcm_bytes_of (pcm : Z) : list ascii :=
  [byte_of_value (uint16_of pcm); byte_of_value (N.shiftr (uint16_of pcm) 8)].

(** The loop that fills [chunk], from the hasher and what the chunk holds, and
    the last, partial [process]. *)
Fixpoint hash_samples (h : hasher) (chunk : list ascii) (interleaved : list Z) : hasher :=
  match interleaved with
  | [] => process h chunk
  | pcm :: rest =>
      let chunk := chunk ++ pcm_bytes_of pcm in
      if Nat.eqb (length chunk) 512 then hash_samples (process h chunk) [] rest
      else hash_samples h chunk rest
  end.

Definition sample_hash (sample : PcmSample) : list ascii :=
  finish_hasher (hash_samples (process new_hasher (sample_header sample)) [] (interleaved sample)).

(** ** The encoder *)

Record EncodedSample := MkEncodedSample {
  encoded_pcm : PcmSample;
  encoded_digest : list ascii;
  encoded_body_bytes : N
}.

(** The local variables of the loop over the Pads: the first [sample_count] of
    [samples], the first [index] of [pad_sample], [by_slot], [pcm_bytes],
    [encoded_bytes] and [prior_slot]. *)
Record PadLoop := MkPadLoop {
  samples : list EncodedSample;
  pad_sample : list N;
  by_slot : list (option Pad);
  pcm_bytes : N;
  encoded_bytes : N;
  prior_slot : N
}.

(** The loop that looks for the sample among those so far: its index, or their
    number. *)
Fixpoint find_sample (digest : list ascii) (body_bytes : N) (samples : list EncodedSample) : N :=
  match samples with
  | [] => 0
  | e :: rest =>
      if negb (bool_decide (encoded_digest e = digest)) || negb (encoded_body_bytes e =? body_bytes)
      then 1 + find_sample digest body_bytes rest
      else 0
  end.

(** A sample that is not among those so far. *)
Definition new_sample (limits : RuntimeContentLimits) (st : PadLoop) (sample : PcmSample)
    (sample_bytes : N) (digest : list ascii) (body_bytes : N) : Result PadLoop :=
  pcm_bytes' ← add (pcm_bytes st) sample_bytes;
  require (pcm_bytes' <=? maximum_pcm_bytes limits) "pcm_limit"
    "runtime content exceeds the total unique decoded PCM allowance";;
  entry ← add 40 body_bytes;
  encoded_bytes' ← add (encoded_bytes st) entry;
  require (encoded_bytes' <=? maximum_encoded_bytes limits) "encoded_limit"
    "runtime content samples exceed the encoded byte allowance";;
  success (MkPadLoop (samples st ++ [MkEncodedSample sample digest body_bytes]) (pad_sample st)
             (by_slot st) pcm_bytes' encoded_bytes' (prior_slot st)).

Definition encode_pad (limits : RuntimeContentLimits) (st : PadLoop) (p : Pad) : Result PadLoop :=
  number ← slot_number (resolved_pad_slot p);
  require (is_empty (pad_sample st) || (prior_slot st <? number)) "pad_order"
    "runtime content Pads are duplicated or not canonically ordered";;
  let sample := resolved_pad_sample p in
  frames ← validate_sample sample limits;
  validate_playback (resolved_playback p) frames;;
  sample_bytes ← multiply (sample_size sample) 2;
  require (sample_bytes <=? maximum_pcm_bytes limits) "pcm_limit"
    "runtime content sample exceeds the decoded PCM allowance";;
  let digest := sample_hash sample in
  body_bytes ← add kSampleHeaderBytes sample_bytes;
  let sample_index := find_sample digest body_bytes (samples st) in
  st' ← (if sample_index =? N.of_nat (length (samples st))
         then new_sample limits st sample sample_bytes digest body_bytes
         else success st);
  success (MkPadLoop (samples st') (pad_sample st' ++ [sample_index])
             (<[N.to_nat number := Some p]> (by_slot st')) (pcm_bytes st') (encoded_bytes st')
             number).

Definition fields_of (e : ResolvedEvent) : EventFields :=
  MkEventFields (resolved_slot e) (resolved_onset_tick e) (resolved_duration_tick e)
    (resolved_velocity e).

(** One pass of the loop over the events, from the event before. *)
Definition encode_event (loop_ticks : N) (by_slot : list (option Pad))
    (previous : option ResolvedEvent) (e : ResolvedEvent) : Result (option ResolvedEvent) :=
  validate_event (fields_of e) loop_ticks;;
  require match previous with
          | None => true
          | Some before => event_before (fields_of before) (fields_of e)
          end
    "event_order" "runtime content events are duplicated or not canonically ordered";;
  number ← slot_number (resolved_slot e);
  cell ← throwing (by_slot !! N.to_nat number);
  match cell with
  | None => failure (content_error "reference" "runtime content event references an absent Pad")
  | Some p =>
      require (bool_decide (resolved_sample e = resolved_pad_sample p)) "reference"
        "runtime content event PCM disagrees with its Pad";;
      success (Some e)
  end.

Definition pad_bytes (p : Pad) (index : N) : list ascii :=
  append (bank (resolved_pad_slot p)) 1 ++ append (pad (resolved_pad_slot p)) 1 ++
  append (mode_number (resolved_trigger_mode (resolved_playback p))) 1 ++
  append (if resolved_muted (resolved_playback p) then 1 else 0) 1 ++
  append index 4 ++ append (resolved_start_frame (resolved_playback p)) 4 ++
  append (resolved_end_frame (resolved_playback p)) 4 ++
  append (linear_gain (resolved_playback p)) 4.

Definition event_bytes (e : EventFields) : list ascii :=
  append (bank (field_slot e)) 1 ++ append (pad (field_slot e)) 1 ++ append (field_velocity e) 1 ++
  append 0 1 ++ append (field_onset e) 4 ++ append (field_duration e) 4.

Definition sample_entry (e : EncodedSample) : list ascii :=
  append (encoded_body_bytes e) 8 ++ encoded_digest e ++ sample_header (encoded_pcm e) ++
  mjoin ((λ pcm, append (uint16_of pcm) 2) <$> interleaved (encoded_pcm e)).

Definition header_bytes (s : Snapshot) (encoded_bytes sample_count : N) : list ascii :=
  append_text kMagic ++
  append 1 2 ++ append 0 2 ++ append 0 2 ++ append 0 2 ++
  append encoded_bytes 8 ++ append kRequiredCapabilities 8 ++
  append_text (value (snapshot_project_id s)) ++ append_text (value (snapshot_pattern_id s)) ++
  append (project_revision s) 8 ++ append (snapshot_bpm s) 2 ++ append (snapshot_bars s) 1 ++
  append 0 1 ++ append (ppq s) 4 ++ append (loop_length_ticks s) 4 ++
  append (N.of_nat (length (pads s))) 4 ++ append (N.of_nat (length (resolved_events s))) 4 ++
  append sample_count 4.

(** The bytes that the last part of [encode] writes. *)
Definition written (s : Snapshot) (st : PadLoop) : list ascii :=
  header_bytes s (encoded_bytes st) (N.of_nat (length (samples st))) ++
  mjoin (zip_with pad_bytes (pads s) (pad_sample st)) ++
  mjoin (event_bytes ∘ fields_of <$> resolved_events s) ++
  mjoin (sample_entry <$> samples st).

Definition encode (s : Snapshot) (limits : RuntimeContentLimits) : Result EncodedRuntimeContent :=
  validate_pattern s;;
  validate_counts (N.of_nat (length (pads s))) (N.of_nat (length (resolved_events s))) 0 limits;;
  pads_bytes ← multiply (N.of_nat (length (pads s))) kPadBytes;
  events_bytes ← multiply (N.of_nat (length (resolved_events s))) kEventBytes;
  tables ← add pads_bytes events_bytes;
  start ← add kHeaderBytes tables;
  require (start <=? maximum_encoded_bytes limits) "encoded_limit"
    "runtime content tables exceed the encoded byte allowance";;
  st ← fold_result (encode_pad limits) (MkPadLoop [] [] (replicate 64 None) 0 start 0) (pads s);
  fold_result (encode_event (loop_length_ticks s) (by_slot st)) None (resolved_events s);;
  let bytes := written s st in
  success (MkEncodedContent (MkContentIdentity (hex (hash bytes)) (encoded_bytes st)) bytes).

(** ** The decoder *)

Record ParsedPad := MkParsedPad {
  parsed_slot : PadSlotId;
  sample_index : N;
  parsed_playback : Playback
}.

Record ParsedSample := MkParsedSample {
  parsed_digest : list ascii;
  parsed_body_bytes : N;
  parsed_frames : N;
  parsed_channels : N;
  parsed_pcm : list ascii
}.

(** The local variables of the loop over the Pads. *)
Record PadTable := MkPadTable {
  table_pads : list ParsedPad;
  slot_index : list (option nat);
  used_samples : list bool;
  next_sample : N;
  table_prior : N
}.

(** [used_samples] and [next_sample] after a reference to a sample. *)
Definition use_sample (index : N) (used : list bool) (next : N) : Result (list bool * N) :=
  cell ← throwing (used !! N.to_nat index);
  if cell : bool then success (used, next)
  else
    require (index =? next) "sample_order"
      "runtime content samples are not ordered by first Pad use";;
    success (<[N.to_nat index := true]> used, next + 1).

Definition decode_pad (sample_count : N) (t : PadTable) : Reader PadTable :=
  b ← integer 1;
  p ← integer 1;
  let s := MkPadSlotId b p in
  number ← lift (slot_number s);
  lift (require (is_empty (table_pads t) || (table_prior t <? number)) "pad_order"
          "runtime content Pads are duplicated or not canonically ordered");;
  m ← integer 1;
  mode ← lift (read_mode m);
  muted ← integer 1;
  lift (require (muted <=? 1) "playback" "runtime content mute value is invalid");;
  index ← integer 4;
  lift (require (index <? sample_count) "reference"
          "runtime content Pad references an absent sample");;
  use ← lift (use_sample index (used_samples t) (next_sample t));
  start ← integer 4;
  end_ ← integer 4;
  gain ← integer 4;
  lift (success (MkPadTable
    (table_pads t ++ [MkParsedPad s index
       (MkResolvedPlayback start end_ mode gain (negb (muted =? 0)) neutral_dsp)])
    (<[N.to_nat number := Some (length (table_pads t))]> (slot_index t)) use.1 use.2 number)).

(** One pass of the loop that checks the events, from the event before. *)
Definition decode_event (loop_ticks : N) (slot_index : list (option nat))
    (previous : option EventFields) : Reader (option EventFields) :=
  b ← integer 1;
  p ← integer 1;
  velocity ← integer 1;
  reserved ← integer 1;
  lift (require (reserved =? 0) "reserved" "runtime content event reserved field is nonzero");;
  onset ← integer 4;
  duration ← integer 4;
  let e := MkEventFields (MkPadSlotId b p) onset duration velocity in
  lift (validate_event e loop_ticks);;
  lift (require match previous with None => true | Some before => event_before before e end
          "event_order" "runtime content events are duplicated or not canonically ordered");;
  number ← lift (slot_number (field_slot e));
  cell ← lift (throwing (slot_index !! N.to_nat number));
  lift (require (has_value cell) "reference" "runtime content event references an absent Pad");;
  lift (success (Some e)).

(** The samples so far and [total_pcm]. *)
Record SampleTable := MkSampleTable {
  table_samples : list ParsedSample;
  total_pcm : N
}.

(** The body of a sample: its rate, channels, frames and what follows. *)
Definition read_body : Reader (N * N * N) :=
  rate ← integer 4;
  channels ← integer 2;
  reserved ← integer 2;
  lift (require (reserved =? 0) "reserved" "runtime content PCM reserved field is nonzero");;
  frames ← integer 4;
  lift (success (rate, channels, frames)).

Definition same_sample (digest : list ascii) (body_bytes : N) (prior : ParsedSample) : bool :=
  bool_decide (parsed_digest prior = digest) && (parsed_body_bytes prior =? body_bytes).

Definition decode_sample (limits : RuntimeContentLimits) (t : SampleTable) : Reader SampleTable :=
  body_bytes ← integer 8;
  digest ← take_bytes 32;
  body ← take_bytes body_bytes;
  '(shape, pcm_left) ← lift (read_body body);
  let '(rate, channels, frames) := shape in
  lift (require ((rate =? 48000) && ((channels =? 1) || (channels =? 2)) && (0 <? frames)) "pcm"
          "runtime content requires complete 48 kHz mono/stereo PCM16 frames");;
  lift (require (frames <=? maximum_sample_frames limits) "frame_limit"
          "runtime content exceeds the sample frame allowance");;
  frame_bytes ← lift (multiply channels 2);
  pcm_bytes ← lift (multiply frames frame_bytes);
  expected ← lift (add kSampleHeaderBytes pcm_bytes);
  lift (require (body_bytes =? expected) "length"
          "runtime content PCM body length disagrees with its shape");;
  total ← lift (add (total_pcm t) pcm_bytes);
  lift (require (total <=? maximum_pcm_bytes limits) "pcm_limit"
          "runtime content exceeds the total unique decoded PCM allowance");;
  lift (require (bool_decide (hash body = digest)) "sample_identity"
          "runtime content sample body digest is false");;
  lift (require (forallb (λ prior, negb (same_sample digest body_bytes prior)) (table_samples t))
          "duplicate_sample" "runtime content sample table is not deduplicated");;
  '(pcm, _) ← lift (take_bytes pcm_bytes pcm_left);
  lift (success (MkSampleTable
    (table_samples t ++ [MkParsedSample digest body_bytes frames channels pcm]) total)).

(** What the checks leave behind: the snapshot without Pads and events, the two
    tables and the bytes of the events. *)
Record ParsedContent := MkParsedContent {
  parsed_snapshot : Snapshot;
  parsed_pads : list ParsedPad;
  parsed_slot_index : list (option nat);
  parsed_event_bytes : list ascii;
  parsed_event_count : N;
  parsed_samples : list ParsedSample;
  parsed_total_pcm : N
}.

(** The header up to the counts. *)
Definition decode_header (bytes : list ascii) : Reader Snapshot :=
  magic ← text 8;
  lift (require (bool_decide (magic = kMagic)) "magic" "runtime content magic is unsupported");;
  major ← integer 2;
  minor ← integer 2;
  patch ← integer 2;
  lift (require ((major =? 1) && (minor =? 0) && (patch =? 0)) "version"
          "runtime content Contract version is unsupported");;
  reserved ← integer 2;
  lift (require (reserved =? 0) "reserved" "runtime content reserved header is nonzero");;
  length ← integer 8;
  lift (require (length =? size bytes) "length" "runtime content header length is false");;
  capabilities ← integer 8;
  lift (require (capabilities =? kRequiredCapabilities) "capabilities"
          "runtime content required capabilities are unsupported or incomplete");;
  project ← text 36;
  pattern ← text 36;
  revision ← integer 8;
  bpm ← integer 2;
  bars ← integer 1;
  timing ← integer 1;
  lift (require (timing =? 0) "reserved" "runtime content timing reserved field is nonzero");;
  ppq ← integer 4;
  loop ← integer 4;
  let s := MkRuntimeSnapshot (MkId project) (MkId pattern) revision bpm bars ppq loop [] [] in
  lift (validate_pattern s);;
  lift (success s).

(** [decode] up to the last check. *)
Definition parse_content (bytes : list ascii) (expected : RuntimeContentIdentity)
    (limits : RuntimeContentLimits) : Result ParsedContent :=
  require (size bytes <=? maximum_encoded_bytes limits) "encoded_limit"
    "runtime content input exceeds the encoded byte allowance";;
  require ((kHeaderBytes <=? size bytes) && (size bytes =? identity_byte_length expected)) "length"
    "runtime content length differs from the complete identity";;
  require (bool_decide (identity_sha256 expected = hex (hash bytes))) "identity"
    "runtime content digest differs from the complete identity";;
  '(s, input) ← decode_header bytes bytes;
  '(pad_count, input) ← integer 4 input;
  '(event_count, input) ← integer 4 input;
  '(sample_count, input) ← integer 4 input;
  validate_counts pad_count event_count sample_count limits;;
  pads_bytes ← multiply pad_count kPadBytes;
  '(pad_input, input) ← take_bytes pads_bytes input;
  events_bytes ← multiply event_count kEventBytes;
  '(events, input) ← take_bytes events_bytes input;
  '(t, _) ← read_loop (N.to_nat pad_count) (decode_pad sample_count)
              (MkPadTable [] (replicate 64 None) (replicate 64 false) 0 0) pad_input;
  require (next_sample t =? sample_count) "reference" "runtime content has unused samples";;
  read_loop (N.to_nat event_count) (decode_event (loop_length_ticks s) (slot_index t)) None events;;
  '(q, input) ← read_loop (N.to_nat sample_count) (decode_sample limits) (MkSampleTable [] 0) input;
  require (is_empty input) "length" "runtime content has trailing bytes";;
  fold_result (λ _ p,
      sample ← throwing (table_samples q !! N.to_nat (sample_index p));
      validate_playback (parsed_playback p) (parsed_frames sample)) () (table_pads t);;
  success (MkParsedContent s (table_pads t) (slot_index t) events event_count (table_samples q)
             (total_pcm q)).

(** The footprint, when it is asked for. *)
Definition content_footprint (bytes : list ascii) (c : ParsedContent) :
    Result RuntimeContentFootprint :=
  fold_result (λ f p,
      sample ← throwing (parsed_samples c !! N.to_nat (sample_index p));
      float_bytes ← multiply (parsed_frames sample) 4;
      total ← add (prepared_float_bytes f) float_bytes;
      success (MkContentFootprint (footprint_encoded_bytes f) (footprint_pcm_bytes f) total
                 (N.max (largest_float_sample_bytes f) float_bytes) (footprint_pads f)
                 (footprint_events f) (footprint_samples f)))
    (MkContentFootprint (size bytes) (parsed_total_pcm c) 0 0 (N.of_nat (length (parsed_pads c)))
       (parsed_event_count c) (N.of_nat (length (parsed_samples c))))
    (parsed_pads c).

(** The words of a sample; [fuel] is at least their number. *)
Fixpoint read_words (fuel : nat) (words : list ascii) : Result (list Z) :=
  match fuel, words with
  | S fuel', _ :: _ =>
      '(word, rest) ← integer 2 words;
      pcm ← read_words fuel' rest;
      success (int16_of word :: pcm)
  | _, _ => success []
  end.

Definition owner (sample : ParsedSample) : Result PcmSample :=
  pcm ← read_words (length (parsed_pcm sample)) (parsed_pcm sample);
  success (MkPcmSample 48000 (parsed_channels sample) pcm).

Definition owned_pad (samples : list ParsedSample) (owners : list PcmSample) (p : ParsedPad) :
    Result Pad :=
  sample ← throwing (samples !! N.to_nat (sample_index p));
  pcm ← throwing (owners !! N.to_nat (sample_index p));
  success (MkResolvedPad (parsed_slot p)
             (MkArtifactRef (hex (parsed_digest sample)) kRuntimePcmMediaType
                (parsed_body_bytes sample))
             pcm (parsed_playback p)).

(** One pass of the loop that reads the events again. *)
Definition reread_event (slot_index : list (option nat)) (pads : list Pad)
    (events : list ResolvedEvent) : Reader (list ResolvedEvent) :=
  b ← integer 1;
  p ← integer 1;
  velocity ← integer 1;
  integer 1;;
  onset ← integer 4;
  duration ← integer 4;
  number ← lift (slot_number (MkPadSlotId b p));
  cell ← lift (throwing (slot_index !! N.to_nat number));
  index ← lift (throwing cell);
  owner ← lift (throwing (pads !! index));
  lift (success (events ++ [MkResolvedEvent (MkPadSlotId b p) onset duration velocity
                              (resolved_pad_sample owner)])).

(** The snapshot, once everything was checked. *)
Definition content_snapshot (c : ParsedContent) : Result Snapshot :=
  owners ← fold_result (λ l sample, o ← owner sample; success (l ++ [o])) [] (parsed_samples c);
  pads ← fold_result (λ l p, o ← owned_pad (parsed_samples c) owners p; success (l ++ [o])) []
           (parsed_pads c);
  '(events, _) ← read_loop (N.to_nat (parsed_event_count c))
                   (reread_event (parsed_slot_index c) pads) [] (parsed_event_bytes c);
  let s := parsed_snapshot c in
  success (MkRuntimeSnapshot (snapshot_project_id s) (snapshot_pattern_id s) (project_revision s)
             (snapshot_bpm s) (snapshot_bars s) (ppq s) (loop_length_ticks s) pads events).

(** ** The entry points *)

(** [catch (InvalidContent) ... catch (...)]. *)
Definition guarded {A} (r : Result A) : Result A := catching (failure construction_error) r.

Definition encode_runtime_content (s : Snapshot) (limits : RuntimeContentLimits) :
    Result EncodedRuntimeContent :=
  guarded (encode s limits).

Definition decode_runtime_content (bytes : list ascii) (expected : RuntimeContentIdentity)
    (limits : RuntimeContentLimits) : Result Snapshot :=
  guarded (c ← parse_content bytes expected limits; content_snapshot c).

Definition inspect_runtime_content (bytes : list ascii) (expected : RuntimeContentIdentity)
    (limits : RuntimeContentLimits) : Result RuntimeContentFootprint :=
  guarded (c ← parse_content bytes expected limits; content_footprint bytes c).
End content.
