(* ===== verification/ContentTables.v ===== *)
(** Reading runtime content: what the readers accept.

    Each reader is characterised both ways: it succeeds exactly on the bytes the
    encoder writes for what it returns.  Loops lift this from one entry of a table
    to the table.

    The tables of runtime content: one entry of each, printed and parsed.

    What a pass of each loop of the decoder does besides reading is a function on
    the entry it read: [check_pad], [check_event], [check_sample].  A pass succeeds
    exactly on the bytes of a typed entry that this function accepts. *)

From S2P Require Import Prelude Json Foundation Text Project Wav WavLaws Cooker RuntimeContent.

(** ** Little-endian numbers *)

Fixpoint le_value (bytes : list ascii) : N :=
  match bytes with [] => 0 | c :: bytes' => byte_of c + 256 * le_value bytes' end.

Lemma le_value_lt bytes : le_value bytes < 2 ^ (8 * N.of_nat (length bytes)).
Proof.
  induction bytes as [|c bytes IH]; [by cbn|]. cbn [le_value length].
  rewrite Nat2N.inj_succ, <- N.add_1_l, N.mul_add_distr_l, N.pow_add_r.
  pose proof (byte_of_lt c). change (2 ^ (8 * 1)) with 256. lia.
Qed.

Lemma or_bytes_value v i bytes : v < 2 ^ (8 * i) →
  or_bytes v i bytes = v + le_value bytes * 2 ^ (8 * i).
Proof.
  revert v i. induction bytes as [|c bytes IH]; intros v i Hv; cbn [or_bytes le_value]; [lia|].
  pose proof (byte_of_lt c). rewrite (N.mul_comm i 8), lor_shiftl by done.
  rewrite IH; rewrite N.mul_add_distr_l, N.pow_add_r; change (2 ^ (8 * 1)) with 256; nia.
Qed.

Lemma or_bytes_all bytes : or_bytes 0 0 bytes = le_value bytes.
Proof. rewrite or_bytes_value by done. change (2 ^ (8 * 0)) with 1. lia. Qed.

Lemma append_S value width : append value (S width) = byte_of_value value :: append (value / 256) width.
Proof.
  unfold append. rewrite <- cons_seq, fmap_cons. cbn [N.of_nat]. f_equal.
  rewrite <- fmap_S_seq, <- list_fmap_compose. apply list_fmap_ext. intros _ i _. cbn.
  rewrite !N.shiftr_div_pow2, N.Div0.div_div. f_equal. f_equal.
  rewrite Nat2N.inj_succ, <- N.add_1_l, N.mul_add_distr_r, N.pow_add_r. done.
Qed.

Lemma length_append value width : length (append value width) = width.
Proof. unfold append. by rewrite length_fmap, length_seq. Qed.

Lemma le_value_append value width : value < 2 ^ (8 * N.of_nat width) →
  le_value (append value width) = value.
Proof.
  revert value. induction width as [|width IH]; intros value.
  { change (2 ^ (8 * N.of_nat 0)) with 1. cbn. lia. }
  rewrite append_S, Nat2N.inj_succ, <- N.add_1_l, N.mul_add_distr_l, N.pow_add_r. cbn [le_value].
  change (2 ^ (8 * 1)) with 256. intros H. rewrite byte_of_value_spec, IH; [dlia|].
  apply N.Div0.div_lt_upper_bound. lia.
Qed.

Lemma append_le_value bytes : append (le_value bytes) (length bytes) = bytes.
Proof.
  induction bytes as [|c bytes IH]; [done|]. cbn [length le_value]. rewrite append_S.
  pose proof (byte_of_lt c). f_equal.
  - apply byte_of_inj. rewrite byte_of_value_spec. dlia.
  - transitivity (append (le_value bytes) (length bytes)); [|done]. f_equal. dlia.
Qed.

Lemma mjoin_cons {A B} (f : A → list B) a l : mjoin (f <$> a :: l) = f a ++ mjoin (f <$> l).
Proof. done. Qed.

Section reading.
Context `{JL : JsonLib} `{HL : HashLib}.

(** ** Results and readers *)

Lemma require_success valid c w u : require valid c w = success u ↔ valid = true.
Proof. unfold require. destruct valid, u; (split; done). Qed.

Lemma add_success l r s : add l r = success s ↔ r ≤ 2 ^ 64 - 1 - l ∧ s = l + r.
Proof.
  unfold add, require. destruct (N.leb_spec r (2 ^ 64 - 1 - l)); cbn [mbind result_bind];
    split; try discriminate; [intros E%success_inj; by subst|intros [_ ->]; done|lia].
Qed.

Lemma add_small l r : l + r < 2 ^ 64 → add l r = success (l + r).
Proof. intros H. apply add_success. split; [lia|done]. Qed.

Lemma multiply_success l r p : multiply l r = success p → p = l * r.
Proof.
  unfold multiply, require. destruct (_ || _); cbn [mbind result_bind]; [|discriminate].
  by intros E%success_inj.
Qed.

Lemma multiply_small l r : l * r < 2 ^ 64 → multiply l r = success (l * r).
Proof.
  intros H. unfold multiply, require. destruct (N.eqb_spec r 0) as [E|E]; [done|].
  destruct (N.leb_spec l ((2 ^ 64 - 1) / r)) as [L|L]; [done|].
  exfalso. assert (2 ^ 64 - 1 < l * r); [|lia].
  pose proof (N.div_mod (2 ^ 64 - 1) r E) as D. pose proof (N.mod_lt (2 ^ 64 - 1) r E) as M.
  revert D M L. generalize ((2 ^ 64 - 1) mod r) ((2 ^ 64 - 1) / r). intros m d D M L. nia.
Qed.

Lemma reader_bind_eq {A B} (m : Reader A) (f : A → Reader B) bytes :
  (m ≫= f) bytes = '(a, rest) ← m bytes; f a rest.
Proof. done. Qed.

Lemma reader_bind_success {A B} (m : Reader A) (f : A → Reader B) bytes r :
  (m ≫= f) bytes = success r ↔ ∃ a rest, m bytes = success (a, rest) ∧ f a rest = success r.
Proof.
  rewrite reader_bind_eq, result_bind_success. split.
  - intros ([a rest] & E & F). by eexists _, _.
  - intros (a & rest & E & F). by exists (a, rest).
Qed.

Lemma lift_success {A} (r : Result A) bytes a rest :
  lift r bytes = success (a, rest) ↔ r = success a ∧ rest = bytes.
Proof.
  unfold lift. rewrite result_bind_success. split.
  - intros (x & -> & E%success_inj). by simplify_eq.
  - intros [-> ->]. by eexists.
Qed.

Lemma take_bytes_success n bytes a rest :
  take_bytes n bytes = success (a, rest) ↔ N.of_nat (length a) = n ∧ bytes = a ++ rest.
Proof.
  unfold take_bytes, require, size. destruct (N.leb_spec n (N.of_nat (length bytes))) as [L|L];
    cbn [mbind result_bind]; split.
  - intros E%success_inj. injection E as <- <-. rewrite length_take, take_drop. split; [lia|done].
  - intros [<- ->]. rewrite Nat2N.id, take_app_length, drop_app_length. done.
  - discriminate.
  - intros [<- ->]. rewrite length_app in L. lia.
Qed.

Lemma take_bytes_append n a rest : N.of_nat (length a) = n →
  take_bytes n (a ++ rest) = success (a, rest).
Proof. intros H. by apply take_bytes_success. Qed.

Lemma integer_success (width : nat) bytes v rest :
  integer (N.of_nat width) bytes = success (v, rest) ↔
  v < 2 ^ (8 * N.of_nat width) ∧ bytes = append v width ++ rest.
Proof.
  unfold integer. rewrite reader_bind_success. split.
  - intros (a & rest' & [Ha ->]%take_bytes_success & E%success_inj). injection E as <- <-.
    rewrite or_bytes_all. apply Nat2N.inj in Ha as <-. rewrite append_le_value.
    split; [apply le_value_lt|done].
  - intros [Hv ->]. exists (append v width), rest. rewrite take_bytes_success, length_append.
    split; [done|]. cbv [mret reader_ret]. by rewrite or_bytes_all, le_value_append.
Qed.

Lemma integer_append (width : nat) v rest : v < 2 ^ (8 * N.of_nat width) →
  integer (N.of_nat width) (append v width ++ rest) = success (v, rest).
Proof. intros H. by apply integer_success. Qed.

Lemma integer_4 v rest : v < 2 ^ 32 → integer 4 (append v 4 ++ rest) = success (v, rest).
Proof. apply (integer_append 4). Qed.

Lemma text_success n bytes s rest :
  text n bytes = success (s, rest) ↔
  N.of_nat (length (chars s)) = n ∧ bytes = append_text s ++ rest.
Proof.
  unfold text, append_text, chars. rewrite reader_bind_success. split.
  - intros (a & rest' & [Ha ->]%take_bytes_success & E%success_inj). injection E as <- <-.
    by rewrite String.list_ascii_of_string_of_list_ascii.
  - intros [Hn ->]. eexists _, rest. rewrite take_bytes_success. split; [done|].
    cbv [mret reader_ret]. by rewrite String.string_of_list_ascii_of_string.
Qed.

(** ** Loops *)

(** Entries that are printed by [print] and checked by [check]. *)
Section loops.
Context {S Q : Type} (pass : S → Reader S) (ok : Q → Prop) (print : Q → list ascii)
  (check : S → Q → Result S).

Lemma read_loop_run qs s s' rest :
  (∀ s q s' rest, ok q → check s q = success s' → pass s (print q ++ rest) = success (s', rest)) →
  Forall ok qs → fold_result check s qs = success s' →
  read_loop (length qs) pass s (mjoin (print <$> qs) ++ rest) = success (s', rest).
Proof.
  intros Hpass. revert s. induction qs as [|q qs IH]; intros s Hok; cbn [fold_result length].
  { intros E%success_inj. by subst. }
  inversion_clear Hok as [|? ? Hq Hqs]. intros (s1 & H1 & Hf)%result_bind_success.
  cbn [read_loop]. rewrite mjoin_cons, <- app_assoc, reader_bind_eq.
  rewrite (Hpass s q s1) by done. cbn [mbind result_bind]. by apply IH.
Qed.

Lemma read_loop_inv n s bytes s' rest :
  (∀ s bytes s' rest, pass s bytes = success (s', rest) →
    ∃ q, ok q ∧ bytes = print q ++ rest ∧ check s q = success s') →
  read_loop n pass s bytes = success (s', rest) →
  ∃ qs, length qs = n ∧ Forall ok qs ∧ bytes = mjoin (print <$> qs) ++ rest ∧
        fold_result check s qs = success s'.
Proof.
  intros Hpass. revert s bytes. induction n as [|n IH]; intros s bytes; cbn [read_loop].
  { intros E%success_inj. injection E as <- <-. by exists []. }
  rewrite reader_bind_success. intros (s1 & rest1 & (q & Hq & -> & Hc)%Hpass & Hl).
  apply IH in Hl as (qs & <- & Hqs & -> & Hf). exists (q :: qs). split; [done|].
  split; [by constructor|]. rewrite mjoin_cons, <- app_assoc. cbn [fold_result].
  rewrite Hc. by split.
Qed.
End loops.
End reading.

(** Run the next read of the goal on the bytes in front; [ty] proves its bound. *)
Ltac read_next ty :=
  rewrite reader_bind_eq;
  first
    [ match goal with |- context [integer ?w (append ?v ?k ++ ?rest)] =>
        rewrite (proj2 (integer_success k (append v k ++ rest) v rest)) by (split; [ty|done])
      end
    | match goal with |- context [lift ?r ?bytes] => change (lift r bytes) with
        (x ← r; success (x, bytes)) end ];
  cbn [mbind result_bind].

(** Invert the first read of [H]. *)
Ltac inv_int H k v :=
  let rest := fresh "rest" in let E := fresh "E" in let B := fresh "B" in
  apply reader_bind_success in H as (v & rest & [B E]%(integer_success k) & H);
  first [subst rest | rewrite E in *; clear E | idtac].

Ltac inv_lift H :=
  let u := fresh "u" in let rest := fresh "rest" in let E := fresh "E" in
  apply reader_bind_success in H as (u & rest & [E ->]%lift_success & H).

(** Steps whose results are known. *)
Ltac known := repeat match goal with
  | H : ?r = success _ |- context [?r] => rewrite H; cbn [mbind result_bind]
  end.

Section tables.
Context `{JL : JsonLib} `{HL : HashLib}.
Abbreviation Playback := (ResolvedPlayback (float := N)).
Abbreviation Pad := (ResolvedPad (float := N)).
Abbreviation Snapshot := (RuntimeSnapshot (float := N)).

(** ** Pads *)

Definition parse_pad (p : Pad) (index : N) : ParsedPad :=
  MkParsedPad (resolved_pad_slot p) index (resolved_playback p).

Definition parsed_pad_bytes (q : ParsedPad) : list ascii :=
  append (bank (parsed_slot q)) 1 ++ append (pad (parsed_slot q)) 1 ++
  append (mode_number (resolved_trigger_mode (parsed_playback q))) 1 ++
  append (if resolved_muted (parsed_playback q) then 1 else 0) 1 ++
  append (sample_index q) 4 ++ append (resolved_start_frame (parsed_playback q)) 4 ++
  append (resolved_end_frame (parsed_playback q)) 4 ++
  append (linear_gain (parsed_playback q)) 4.

Lemma pad_bytes_parsed p index : pad_bytes p index = parsed_pad_bytes (parse_pad p index).
Proof. done. Qed.

Record pad_typed (q : ParsedPad) : Prop := {
  typed_bank : bank (parsed_slot q) < 256;
  typed_pad : pad (parsed_slot q) < 256;
  typed_index : sample_index q < 2 ^ 32;
  typed_start : resolved_start_frame (parsed_playback q) < 2 ^ 32;
  typed_end : resolved_end_frame (parsed_playback q) < 2 ^ 32;
  typed_gain : linear_gain (parsed_playback q) < 2 ^ 32;
  typed_dsp : dsp (parsed_playback q) = neutral_dsp
}.

Definition check_pad (sample_count : N) (t : PadTable) (q : ParsedPad) : Result PadTable :=
  number ← slot_number (parsed_slot q);
  require (is_empty (table_pads t) || (table_prior t <? number)) "pad_order"
    "runtime content Pads are duplicated or not canonically ordered";;
  require (sample_index q <? sample_count) "reference"
    "runtime content Pad references an absent sample";;
  use ← use_sample (sample_index q) (used_samples t) (next_sample t);
  success (MkPadTable (table_pads t ++ [q])
    (<[N.to_nat number := Some (length (table_pads t))]> (slot_index t)) use.1 use.2 number).

Lemma read_mode_number m : read_mode (mode_number m) = success m.
Proof. by destruct m. Qed.

Lemma read_mode_inv n m : read_mode n = success m → n = mode_number m.
Proof.
  unfold read_mode. intros (u & _ & H%throwing_success)%result_bind_success.
  destruct (N.to_nat n) as [|[|[|[|k]]]] eqn:E; cbn in H; simplify_eq; cbn; lia.
Qed.

Lemma mode_number_lt m : mode_number m < 2 ^ (8 * N.of_nat 1).
Proof. by destruct m. Qed.

Lemma decode_pad_run count t q t' rest : pad_typed q → check_pad count t q = success t' →
  decode_pad count t (parsed_pad_bytes q ++ rest) = success (t', rest).
Proof.
  intros [] (number & Hn & Hc)%result_bind_success.
  apply result_bind_success in Hc as (? & Ho%require_success & Hc).
  apply result_bind_success in Hc as (? & Hr%require_success & Hc).
  apply result_bind_success in Hc as (use & Hu & Ht%success_inj).
  destruct q as [s i [start end_ mode gain muted dsp_]]. cbn [parsed_slot sample_index parsed_playback
    resolved_start_frame resolved_end_frame resolved_trigger_mode linear_gain resolved_muted dsp] in *.
  unfold decode_pad, parsed_pad_bytes. rewrite <- !app_assoc.
  cbn [parsed_slot sample_index parsed_playback
    resolved_start_frame resolved_end_frame resolved_trigger_mode linear_gain resolved_muted dsp].
  do 2 read_next done. destruct s as [b p]. cbn [bank pad] in *.
  read_next idtac. rewrite Hn. cbn [mbind result_bind].
  read_next idtac. rewrite Ho. cbn [require mbind result_bind].
  read_next ltac:(apply mode_number_lt). read_next idtac. rewrite read_mode_number.
  cbn [mbind result_bind]. read_next ltac:(by destruct muted).
  read_next idtac. replace ((if muted then 1 else 0) <=? 1) with true by by destruct muted.
  cbn [require mbind result_bind]. read_next done. read_next idtac. rewrite Hr.
  cbn [require mbind result_bind]. read_next idtac. rewrite Hu. cbn [mbind result_bind].
  do 3 read_next done. unfold lift. cbn [mbind result_bind]. subst. by destruct muted.
Qed.

Lemma decode_pad_inv count t bytes t' rest : decode_pad count t bytes = success (t', rest) →
  ∃ q, pad_typed q ∧ bytes = parsed_pad_bytes q ++ rest ∧ check_pad count t q = success t'.
Proof.
  unfold decode_pad. intros H. inv_int H 1%nat b. inv_int H 1%nat p. inv_lift H. rename u into number.
  inv_lift H. inv_int H 1%nat m. inv_lift H. rename u0 into mode. inv_int H 1%nat mute. inv_lift H.
  inv_int H 4%nat index. inv_lift H. inv_lift H. rename u2 into use.
  inv_int H 4%nat start. inv_int H 4%nat end_. inv_int H 4%nat gain.
  apply lift_success in H as [Ht%success_inj ->].
  match goal with H : require (mute <=? 1) _ _ = _ |- _ => apply require_success in H as Hm end.
  match goal with H : read_mode _ = _ |- _ => apply read_mode_inv in H as -> end.
  exists (MkParsedPad (MkPadSlotId b p) index
            (MkResolvedPlayback start end_ mode gain (negb (mute =? 0)) neutral_dsp)).
  split; [by split|]. split.
  - unfold parsed_pad_bytes. rewrite <- !app_assoc. cbn.
    replace (if negb (mute =? 0) then 1 else 0) with mute; [done|].
    bool_to_prop. destruct (N.eqb_spec mute 0); cbn; lia.
  - unfold check_pad. cbn [parsed_slot sample_index]. known. by subst.
Qed.

(** ** Events *)

Record event_typed (e : EventFields) : Prop := {
  typed_event_bank : bank (field_slot e) < 256;
  typed_event_pad : pad (field_slot e) < 256;
  typed_velocity : field_velocity e < 256;
  typed_onset : field_onset e < 2 ^ 32;
  typed_duration : field_duration e < 2 ^ 32
}.

Definition check_event (loop_ticks : N) (slot_index : list (option nat))
    (previous : option EventFields) (e : EventFields) : Result (option EventFields) :=
  validate_event e loop_ticks;;
  require match previous with None => true | Some before => event_before before e end
    "event_order" "runtime content events are duplicated or not canonically ordered";;
  number ← slot_number (field_slot e);
  cell ← throwing (slot_index !! N.to_nat number);
  require (has_value cell) "reference" "runtime content event references an absent Pad";;
  success (Some e).

Lemma decode_event_run loop cells previous e next rest : event_typed e →
  check_event loop cells previous e = success next →
  decode_event loop cells previous (event_bytes e ++ rest) = success (next, rest).
Proof.
  intros [] (? & Hv & Hc)%result_bind_success.
  apply result_bind_success in Hc as (? & Ho & Hc).
  apply result_bind_success in Hc as (number & Hn & Hc).
  apply result_bind_success in Hc as (cell & Hcell & Hc).
  apply result_bind_success in Hc as (? & Hr & Ht).
  unfold decode_event, event_bytes. rewrite <- !app_assoc.
  do 3 read_next done. read_next done. read_next idtac. cbn [N.eqb require mbind result_bind].
  do 2 read_next done. destruct e as [[b p] onset duration velocity].
  cbn [field_slot field_onset field_duration field_velocity bank pad] in *.
  do 5 (read_next idtac; known). apply success_inj in Ht as <-. done.
Qed.

Lemma decode_event_inv loop cells previous bytes next rest :
  decode_event loop cells previous bytes = success (next, rest) →
  ∃ e, event_typed e ∧ bytes = event_bytes e ++ rest ∧ check_event loop cells previous e = success next.
Proof.
  unfold decode_event. intros H. inv_int H 1%nat b. inv_int H 1%nat p. inv_int H 1%nat vel.
  inv_int H 1%nat reserved. inv_lift H. inv_int H 4%nat onset. inv_int H 4%nat duration.
  do 5 inv_lift H. apply lift_success in H as [Ht%success_inj ->].
  match goal with H : require (reserved =? 0) _ _ = _ |- _ => apply require_success in H as Hz end.
  apply N.eqb_eq in Hz. subst reserved.
  exists (MkEventFields (MkPadSlotId b p) onset duration vel). split; [by split|]. split.
  - unfold event_bytes. rewrite <- !app_assoc. done.
  - unfold check_event. known. by subst.
Qed.

(** Reading an event again. *)
Definition resolve_event (slot_index : list (option nat)) (pads : list Pad)
    (events : list ResolvedEvent) (e : EventFields) : Result (list ResolvedEvent) :=
  number ← slot_number (field_slot e);
  cell ← throwing (slot_index !! N.to_nat number);
  index ← throwing cell;
  owner ← throwing (pads !! index);
  success (events ++ [MkResolvedEvent (field_slot e) (field_onset e) (field_duration e)
                        (field_velocity e) (resolved_pad_sample owner)]).

Lemma reread_event_run cells pads events e events' rest : event_typed e →
  resolve_event cells pads events e = success events' →
  reread_event cells pads events (event_bytes e ++ rest) = success (events', rest).
Proof.
  intros [] (number & Hn & Hc)%result_bind_success.
  apply result_bind_success in Hc as (cell & Hcell & Hc).
  apply result_bind_success in Hc as (index & Hi & Hc).
  apply result_bind_success in Hc as (owner & Ho & Ht).
  unfold reread_event, event_bytes. rewrite <- !app_assoc.
  do 4 read_next done. do 2 read_next done. destruct e as [[b p] onset duration velocity].
  cbn [field_slot field_onset field_duration field_velocity bank pad] in *.
  do 4 (read_next idtac; known). apply success_inj in Ht as <-. done.
Qed.

(** ** Samples *)

(** The bytes of a body: 12 of header, then the values. *)
Definition body_of (q : ParsedSample) : list ascii :=
  append 48000 4 ++ append (parsed_channels q) 2 ++ append 0 2 ++ append (parsed_frames q) 4 ++
  parsed_pcm q.

Definition parsed_sample_bytes (q : ParsedSample) : list ascii :=
  append (parsed_body_bytes q) 8 ++ parsed_digest q ++ body_of q.

Record sample_typed (q : ParsedSample) : Prop := {
  typed_digest : length (parsed_digest q) = 32%nat;
  typed_channels : parsed_channels q = 1 ∨ parsed_channels q = 2;
  typed_frames : 0 < parsed_frames q < 2 ^ 32;
  typed_pcm : N.of_nat (length (parsed_pcm q)) = parsed_frames q * (parsed_channels q * 2);
  typed_body : parsed_body_bytes q = 12 + parsed_frames q * (parsed_channels q * 2)
}.

Definition check_sample (limits : RuntimeContentLimits) (t : SampleTable) (q : ParsedSample) :
    Result SampleTable :=
  require (parsed_frames q <=? maximum_sample_frames limits) "frame_limit"
    "runtime content exceeds the sample frame allowance";;
  total ← add (total_pcm t) (parsed_frames q * (parsed_channels q * 2));
  require (total <=? maximum_pcm_bytes limits) "pcm_limit"
    "runtime content exceeds the total unique decoded PCM allowance";;
  require (bool_decide (hash (body_of q) = parsed_digest q)) "sample_identity"
    "runtime content sample body digest is false";;
  require (forallb (λ prior, negb (same_sample (parsed_digest q) (parsed_body_bytes q) prior))
             (table_samples t)) "duplicate_sample" "runtime content sample table is not deduplicated";;
  success (MkSampleTable (table_samples t ++ [q]) total).

Lemma length_body q : sample_typed q → N.of_nat (length (body_of q)) = parsed_body_bytes q.
Proof.
  intros []. unfold body_of. rewrite !length_app, !length_append. lia.
Qed.

Lemma read_body_run q : sample_typed q →
  read_body (body_of q) = success (48000, parsed_channels q, parsed_frames q, parsed_pcm q).
Proof.
  intros [_ Hc [_ Hf] _ _]. unfold read_body, body_of. read_next done.
  read_next ltac:(destruct Hc as [-> | ->]; done). read_next done. read_next idtac.
  cbn [N.eqb require mbind result_bind]. by read_next done.
Qed.

Lemma read_body_inv body rate channels frames pcm :
  read_body body = success (rate, channels, frames, pcm) →
  frames < 2 ^ 32 ∧
  body = append rate 4 ++ append channels 2 ++ append 0 2 ++ append frames 4 ++ pcm.
Proof.
  unfold read_body. intros H. inv_int H 4%nat r. inv_int H 2%nat c. inv_int H 2%nat z. inv_lift H.
  inv_int H 4%nat f. apply lift_success in H as [Ht%success_inj ->]. injection Ht as -> -> ->.
  match goal with H : require (z =? 0) _ _ = _ |- _ => apply require_success in H as Hz end.
  apply N.eqb_eq in Hz. subst z. done.
Qed.

(** What the decoder computes from the shape of a body does not overflow. *)
Lemma frame_bytes_small q : sample_typed q →
  multiply (parsed_channels q) 2 = success (parsed_channels q * 2) ∧
  multiply (parsed_frames q) (parsed_channels q * 2) =
    success (parsed_frames q * (parsed_channels q * 2)) ∧
  add kSampleHeaderBytes (parsed_frames q * (parsed_channels q * 2)) =
    success (parsed_body_bytes q).
Proof.
  intros [_ Hc Hf _ Hb]. rewrite Hb. unfold kSampleHeaderBytes.
  rewrite multiply_small, multiply_small, add_small by (destruct Hc as [-> | ->]; u_lia). done.
Qed.

Lemma decode_sample_run limits t q t' rest : sample_typed q → check_sample limits t q = success t' →
  decode_sample limits t (parsed_sample_bytes q ++ rest) = success (t', rest).
Proof.
  intros Hq Hc. pose proof Hq as [Hd Hch [Hf0 Hf] Hpcm Hb].
  pose proof (frame_bytes_small q Hq) as (F1 & F2 & F3).
  apply result_bind_success in Hc as (? & Hl & Hc).
  apply result_bind_success in Hc as (total & Ht & Hc).
  apply result_bind_success in Hc as (? & Hp & Hc).
  apply result_bind_success in Hc as (? & Hh & Hc).
  apply result_bind_success in Hc as (? & Hdup & Hc%success_inj).
  unfold decode_sample, parsed_sample_bytes. rewrite <- !app_assoc.
  read_next ltac:(destruct Hch as [E|E]; rewrite E in Hb; change (8 * N.of_nat 8) with 64; u_lia).
  rewrite reader_bind_eq, take_bytes_append by (by rewrite Hd). cbn [mbind result_bind].
  rewrite reader_bind_eq, take_bytes_append by (by apply length_body). cbn [mbind result_bind].
  read_next idtac. rewrite read_body_run by done. cbn [mbind result_bind]. read_next idtac.
  assert ((parsed_channels q =? 1) || (parsed_channels q =? 2) = true) as ->
    by (destruct Hch as [-> | ->]; done).
  rewrite (proj2 (N.ltb_lt _ _) Hf0). cbn [N.eqb Pos.eqb andb require mbind result_bind].
  read_next idtac. known. do 3 (read_next idtac; known). read_next idtac. rewrite N.eqb_refl.
  cbn [require mbind result_bind]. do 4 (read_next idtac; known). read_next idtac.
  rewrite <- (app_nil_r (parsed_pcm q)) at 1. rewrite take_bytes_append by done.
  cbn [mbind result_bind]. unfold lift. cbn [mbind result_bind]. subst. by destruct q.
Qed.

Lemma decode_sample_inv limits t bytes t' rest : decode_sample limits t bytes = success (t', rest) →
  ∃ q, sample_typed q ∧ bytes = parsed_sample_bytes q ++ rest ∧ check_sample limits t q = success t'.
Proof.
  unfold decode_sample. intros H. inv_int H 8%nat body_bytes.
  apply reader_bind_success in H as (digest & ? & [Hd ->]%take_bytes_success & H).
  apply reader_bind_success in H as (body & ? & [Hb ->]%take_bytes_success & H).
  apply reader_bind_success in H as ([[[rate channels] frames] left] & ? & [Hbody ->]%lift_success & H).
  apply read_body_inv in Hbody as [Hf ->].
  do 10 inv_lift H. apply reader_bind_success in H as ([pcm more] & ? & [Hpcm ->]%lift_success & H).
  apply lift_success in H as [Ht%success_inj ->]. apply take_bytes_success in Hpcm as [Hlen ->].
  repeat match goal with
  | H : multiply _ _ = success _ |- _ => apply multiply_success in H as ->
  | H : require (_ =? _) _ _ = _ |- _ => apply require_success, N.eqb_eq in H
  | H : require (_ && _ && _) _ _ = _ |- _ => apply require_success in H
  | H : add kSampleHeaderBytes _ = success _ |- _ => apply add_success in H as [_ ->]
  end.
  bool_to_prop. subst rate. unfold kSampleHeaderBytes in *.
  match goal with H : body_bytes = _ |- _ => rewrite H in * end.
  assert (more = []) as ->.
  { apply nil_length_inv. revert Hb. rewrite !length_app, !length_append. lia. }
  rewrite !app_nil_r in *.
  exists (MkParsedSample digest (12 + frames * (channels * 2)) frames channels pcm). split_and!.
  - split; cbn; [lia| |lia|lia|done]. destruct (N.eqb_spec channels 1); [by left|right; lia].
  - unfold parsed_sample_bytes, body_of. rewrite <- !app_assoc. done.
  - unfold check_sample, body_of.
    cbn [parsed_frames parsed_channels parsed_digest parsed_body_bytes parsed_pcm].
    known. by subst.
Qed.

(** ** The header *)

Definition header_front (s : Snapshot) (encoded_bytes : N) : list ascii :=
  append_text kMagic ++ append 1 2 ++ append 0 2 ++ append 0 2 ++ append 0 2 ++
  append encoded_bytes 8 ++ append kRequiredCapabilities 8 ++
  append_text (value (snapshot_project_id s)) ++ append_text (value (snapshot_pattern_id s)) ++
  append (project_revision s) 8 ++ append (snapshot_bpm s) 2 ++ append (snapshot_bars s) 1 ++
  append 0 1 ++ append (ppq s) 4 ++ append (loop_length_ticks s) 4.

Lemma header_bytes_front s encoded_bytes count :
  header_bytes s encoded_bytes count =
  header_front s encoded_bytes ++ append (N.of_nat (length (pads s))) 4 ++
  append (N.of_nat (length (resolved_events s))) 4 ++ append count 4.
Proof. unfold header_bytes, header_front. by rewrite <- !app_assoc. Qed.

(** A snapshot without its Pads and events. *)
Definition bare (s : Snapshot) : Snapshot :=
  MkRuntimeSnapshot (snapshot_project_id s) (snapshot_pattern_id s) (project_revision s)
    (snapshot_bpm s) (snapshot_bars s) (ppq s) (loop_length_ticks s) [] [].

Lemma uuid_size value : is_valid_uuid value = true → N.of_nat (length (chars value)) = 36.
Proof.
  unfold is_valid_uuid. destruct (bool_decide (String.length value = 36%nat)) eqn:E; [|done].
  intros _. apply bool_decide_eq_true_1 in E. rewrite length_chars. lia.
Qed.

Record timing_ok (s : Snapshot) : Prop := {
  ok_project : is_valid_uuid (value (snapshot_project_id s)) = true;
  ok_pattern : is_valid_uuid (value (snapshot_pattern_id s)) = true;
  ok_bpm : 40 ≤ snapshot_bpm s ≤ 240;
  ok_bars : snapshot_bars s = 1 ∨ snapshot_bars s = 2 ∨ snapshot_bars s = 4 ∨ snapshot_bars s = 8;
  ok_ppq : ppq s = 960;
  ok_loop : loop_length_ticks s = snapshot_bars s * 4 * 960
}.

Lemma validate_pattern_success s u : validate_pattern s = success u ↔ timing_ok s.
Proof.
  unfold validate_pattern, require. split.
  - destruct (is_valid_uuid (value (snapshot_project_id s)) && _) eqn:E; [|discriminate].
    cbn [mbind result_bind].
    match goal with |- context [if ?b then _ else _] => destruct b eqn:F; [|discriminate] end.
    intros _. bool_to_prop.
    assert (snapshot_bars s = 1 ∨ snapshot_bars s = 2 ∨ snapshot_bars s = 4 ∨ snapshot_bars s = 8)
      as Hb by (rewrite ?orb_true_iff, ?N.eqb_eq in *; tauto).
    split; try done.
    match goal with H : loop_length_ticks s = _ |- _ => rewrite H end.
    by destruct Hb as [-> | [-> | [-> | ->]]].
  - intros [-> -> [Hl Hh] Hb -> ->]. cbn [andb mbind result_bind].
    rewrite (proj2 (N.leb_le _ _) Hl), (proj2 (N.leb_le _ _) Hh). destruct u.
    by destruct Hb as [-> | [-> | [-> | ->]]].
Qed.

Lemma decode_header_run bytes s rest : timing_ok s → project_revision s < 2 ^ 64 →
  size bytes < 2 ^ 64 →
  decode_header bytes (header_front s (size bytes) ++ rest) = success (bare s, rest).
Proof.
  intros Hok Hr Hsize. pose proof (proj2 (validate_pattern_success (bare s) ())) as Hv.
  specialize (Hv ltac:(by destruct Hok; split)). destruct Hok as [Hp Hq [] Hb Hppq Hl].
  apply uuid_size in Hp, Hq.
  unfold decode_header, header_front. rewrite <- !app_assoc.
  rewrite reader_bind_eq, (proj2 (text_success 8 _ kMagic _)) by done. cbn [mbind result_bind].
  read_next idtac. rewrite bool_decide_eq_true_2 by done. cbn [require mbind result_bind].
  do 3 read_next done. read_next idtac. cbn [N.eqb Pos.eqb andb require mbind result_bind].
  read_next done. read_next idtac. cbn [N.eqb require mbind result_bind].
  read_next done. read_next idtac. rewrite N.eqb_refl. cbn [require mbind result_bind].
  read_next done. read_next idtac. rewrite N.eqb_refl. cbn [require mbind result_bind].
  rewrite reader_bind_eq, (proj2 (text_success 36 _ (value (snapshot_project_id s)) _)) by done.
  cbn [mbind result_bind].
  rewrite reader_bind_eq, (proj2 (text_success 36 _ (value (snapshot_pattern_id s)) _)) by done.
  cbn [mbind result_bind]. read_next done. read_next ltac:(change (2 ^ (8 * N.of_nat 2)) with 65536; lia).
  read_next ltac:(by destruct Hb as [-> | [-> | [-> | ->]]]). read_next done.
  read_next idtac. cbn [N.eqb require mbind result_bind]. read_next ltac:(by rewrite Hppq).
  read_next ltac:(rewrite Hl; by destruct Hb as [-> | [-> | [-> | ->]]]).
  read_next idtac. destruct s as [[i] [j] a b c d e f g]. unfold bare in *.
  cbn [snapshot_project_id snapshot_pattern_id project_revision snapshot_bpm snapshot_bars ppq
    loop_length_ticks value] in *. rewrite Hv. cbn [mbind result_bind]. done.
Qed.

Lemma decode_header_inv bytes input s rest : decode_header bytes input = success (s, rest) →
  timing_ok s ∧ project_revision s < 2 ^ 64 ∧ bare s = s ∧ size bytes < 2 ^ 64 ∧
  input = header_front s (size bytes) ++ rest.
Proof.
  unfold decode_header. intros H.
  apply reader_bind_success in H as (magic & ? & [_ ->]%text_success & H). inv_lift H.
  inv_int H 2%nat major. inv_int H 2%nat minor. inv_int H 2%nat patch. inv_lift H.
  inv_int H 2%nat z. inv_lift H. inv_int H 8%nat len. inv_lift H. inv_int H 8%nat caps.
  inv_lift H.
  apply reader_bind_success in H as (project & ? & [_ ->]%text_success & H).
  apply reader_bind_success in H as (pattern & ? & [_ ->]%text_success & H).
  inv_int H 8%nat revision_. inv_int H 2%nat bpm_. inv_int H 1%nat bars_. inv_int H 1%nat timing.
  inv_lift H. inv_int H 4%nat ppq_. inv_int H 4%nat loop. inv_lift H.
  apply lift_success in H as [<-%success_inj ->].
  repeat match goal with H : require _ _ _ = _ |- _ => apply require_success in H end.
  bool_to_prop. subst. split_and!; [by eapply validate_pattern_success|done|done|done|].
  unfold header_front. by rewrite <- !app_assoc.
Qed.
End tables.
