(* ===== verification/ContentLoops.v ===== *)
(** Writing runtime content: what the encoder computes.

    The hashes are digests of whole ranges, a sample entry is the bytes of a parsed
    sample, and a pass of the loop over the Pads is a condition and a new state.

    The two loops over the Pads run in step.

    [encoded] is what the encoder's loop keeps; [agree] relates its state to the
    decoder's state on the entries that are written for the same Pads. *)

From S2P Require Import Prelude Json Foundation Text Project Wav WavLaws Sha256 Cooker RuntimeContent ContentTables.

Section encoding.
Context `{JL : JsonLib} `{HW : HashLaws}.
Abbreviation Playback := (ResolvedPlayback (float := N)).
Abbreviation Pad := (ResolvedPad (float := N)).
Abbreviation Snapshot := (RuntimeSnapshot (float := N)).

(** ** Hashes *)

Lemma hash_bytes_process fuel h bytes : (length bytes ≤ fuel)%nat →
  hash_bytes fuel h bytes = process h bytes.
Proof.
  revert h bytes. induction fuel as [|fuel IH]; intros h bytes Hf.
  { destruct bytes; [|cbn in Hf; lia]. symmetry. apply process_nil. }
  destruct bytes as [|c bytes]; [symmetry; apply process_nil|]. cbn [hash_bytes].
  rewrite IH by (rewrite length_drop; cbn [length] in *; lia).
  by rewrite process_app, take_drop.
Qed.

Lemma hash_spec bytes : hash bytes = finish_hasher (process new_hasher bytes).
Proof. unfold hash. by rewrite hash_bytes_process. Qed.

Lemma length_hash bytes : length (hash bytes) = 32%nat.
Proof. rewrite hash_spec. apply length_finish. Qed.

Lemma hash_samples_process h chunk l :
  hash_samples h chunk l = process h (chunk ++ mjoin (pcm_bytes_of <$> l)).
Proof.
  revert h chunk. induction l as [|z l IH]; intros h chunk; cbn [hash_samples].
  { by rewrite app_nil_r. }
  rewrite mjoin_cons, app_assoc.
  destruct (Nat.eqb _ _); rewrite IH; [|done]. by rewrite process_app, app_nil_l.
Qed.

(** ** Samples *)

Definition sample_body (p : PcmSample) : list ascii :=
  sample_header p ++ mjoin (pcm_bytes_of <$> interleaved p).

Lemma sample_hash_spec p : sample_hash p = hash (sample_body p).
Proof. unfold sample_hash. by rewrite hash_samples_process, process_app, hash_spec. Qed.

Lemma pcm_bytes_append z : pcm_bytes_of z = append (uint16_of z) 2.
Proof. unfold pcm_bytes_of, append. cbn. by rewrite N.shiftr_0_r. Qed.

Lemma length_words l : length (mjoin (pcm_bytes_of <$> l)) = (2 * length l)%nat.
Proof.
  induction l as [|z l IH]; [done|]. rewrite mjoin_cons, length_app, IH. cbn [length pcm_bytes_of]. lia.
Qed.

(** A sample that [validate_sample] accepts, with its number of frames. *)
Record sample_ok (limits : RuntimeContentLimits) (p : PcmSample) (frames : N) : Prop := {
  ok_rate : sample_rate p = 48000;
  ok_channels : channels p = 1 ∨ channels p = 2;
  ok_frames : 0 < frames < 2 ^ 32;
  ok_size : sample_size p = frames * channels p;
  ok_limit : frames ≤ maximum_sample_frames limits
}.

Lemma validate_sample_success limits p frames :
  validate_sample p limits = success frames ↔ sample_ok limits p frames.
Proof.
  unfold validate_sample. split.
  - intros (? & E%require_success & F)%result_bind_success.
    apply result_bind_success in F as (? & F%require_success & <-%success_inj). bool_to_prop.
    assert (channels p = 1 ∨ channels p = 2) as Hc
      by (match goal with Hc : _ || _ = true |- _ =>
            apply orb_true_iff in Hc as [Hc|Hc]; apply N.eqb_eq in Hc end; auto).
    assert (0 < sample_size p) as Hs.
    { unfold sample_size. destruct (interleaved p); [done|cbn [length]; lia]. }
    rewrite wrap_small by lia.
    assert (sample_size p = sample_size p / channels p * channels p) as Hd
      by (destruct Hc as [Ec|Ec]; rewrite Ec in *; dlia).
    split; try done. split; [|lia]. nia.
  - intros [Hr Hc Hf Hs Hl]. unfold require. rewrite Hr. change (48000 =? 48000) with true.
    assert ((channels p =? 1) || (channels p =? 2) = true) as -> by (by destruct Hc as [-> | ->]).
    assert (is_empty (interleaved p) = false) as ->.
    { unfold sample_size in Hs. destruct (interleaved p); [|done]. cbn in Hs.
      destruct Hc as [Ec|Ec]; rewrite Ec in Hs; lia. }
    rewrite Hs. assert (channels p ≠ 0) by (by destruct Hc as [-> | ->]).
    rewrite N.Div0.mod_mul, N.div_mul by done. cbn [N.eqb negb andb mbind result_bind].
    rewrite (proj2 (N.leb_le frames (2 ^ 32 - 1))) by lia. rewrite (proj2 (N.leb_le _ _) Hl).
    cbn [andb mbind result_bind]. by rewrite wrap_small by lia.
Qed.

Lemma sample_header_append limits p frames : sample_ok limits p frames →
  sample_header p = append 48000 4 ++ append (channels p) 2 ++ append 0 2 ++ append frames 4.
Proof.
  intros [_ Hc _ Hs _]. unfold sample_header. rewrite Hs.
  assert (channels p ≠ 0) by (by destruct Hc as [-> | ->]). rewrite N.div_mul by done.
  unfold append. cbn [seq fmap list_fmap N.of_nat app]. rewrite N.shiftr_0_r.
  by destruct Hc as [-> | ->].
Qed.

(** The parsed form of a sample. *)
Definition parse_sample (e : EncodedSample) : ParsedSample :=
  let p := encoded_pcm e in
  MkParsedSample (encoded_digest e) (encoded_body_bytes e) (sample_size p / channels p) (channels p)
    (mjoin (pcm_bytes_of <$> interleaved p)).

(** An entry tells the digest and the length of the body of a sample. *)
Definition describes (p : PcmSample) (e : EncodedSample) : Prop :=
  encoded_digest e = sample_hash p ∧ encoded_body_bytes e = 12 + 2 * sample_size p.

Lemma sample_ok_frames limits p frames : sample_ok limits p frames →
  sample_size p / channels p = frames.
Proof.
  intros [_ Hc _ -> _]. apply N.div_mul. by destruct Hc as [-> | ->].
Qed.

Lemma parse_sample_typed limits frames e : sample_ok limits (encoded_pcm e) frames →
  describes (encoded_pcm e) e → sample_typed (parse_sample e).
Proof.
  intros Hok [Hd Hb]. pose proof (sample_ok_frames _ _ _ Hok) as Hf. destruct Hok as [_ Hc Hfr Hs _].
  split; unfold parse_sample; cbn [parsed_digest parsed_channels parsed_frames parsed_pcm
    parsed_body_bytes]; rewrite ?Hf.
  - rewrite Hd, sample_hash_spec. apply length_hash.
  - done.
  - done.
  - rewrite length_words. unfold sample_size in Hs. lia.
  - lia.
Qed.

Lemma body_of_parsed limits frames e : sample_ok limits (encoded_pcm e) frames →
  body_of (parse_sample e) = sample_body (encoded_pcm e).
Proof.
  intros Hok. unfold body_of, sample_body, parse_sample.
  cbn [parsed_channels parsed_frames parsed_pcm].
  rewrite (sample_header_append _ _ _ Hok), (sample_ok_frames _ _ _ Hok). by rewrite <- !app_assoc.
Qed.

Lemma sample_entry_parsed limits frames e : sample_ok limits (encoded_pcm e) frames →
  sample_entry e = parsed_sample_bytes (parse_sample e).
Proof.
  intros Hok. unfold sample_entry, parsed_sample_bytes. rewrite (body_of_parsed _ _ _ Hok).
  unfold sample_body, parse_sample. cbn [parsed_body_bytes parsed_digest]. by rewrite !app_assoc.
Qed.

(** ** One pass over the Pads *)

Definition bytes_of_sample (p : PcmSample) : N := 2 * sample_size p.

(** A playback that [validate_playback] accepts. *)
Definition plays (p : Playback) (frames : N) : Prop := validate_playback p frames = success ().

Lemma plays_iff p frames u : validate_playback p frames = success u ↔ plays p frames.
Proof. by destruct u. Qed.

Definition describe (p : PcmSample) : EncodedSample :=
  MkEncodedSample p (sample_hash p) (12 + bytes_of_sample p).

(** The state after a sample that is not among those so far. *)
Definition store (st : PadLoop) (p : PcmSample) : PadLoop :=
  MkPadLoop (samples st ++ [describe p]) (pad_sample st) (by_slot st)
    (pcm_bytes st + bytes_of_sample p) (encoded_bytes st + (52 + bytes_of_sample p)) (prior_slot st).

(** The state after a Pad. *)
Definition place (st : PadLoop) (number : N) (p : Pad) (k : N) : PadLoop :=
  MkPadLoop (samples st) (pad_sample st ++ [k]) (<[N.to_nat number := Some p]> (by_slot st))
    (pcm_bytes st) (encoded_bytes st) number.

Definition storable (limits : RuntimeContentLimits) (st : PadLoop) (p : PcmSample) : Prop :=
  bytes_of_sample p ≤ 2 ^ 64 - 1 - pcm_bytes st ∧
  pcm_bytes st + bytes_of_sample p ≤ maximum_pcm_bytes limits ∧
  52 + bytes_of_sample p ≤ 2 ^ 64 - 1 - encoded_bytes st ∧
  encoded_bytes st + (52 + bytes_of_sample p) ≤ maximum_encoded_bytes limits.

Lemma new_sample_success limits st p st' : bytes_of_sample p < 2 ^ 34 →
  new_sample limits st p (bytes_of_sample p) (sample_hash p) (12 + bytes_of_sample p) = success st' ↔
  storable limits st p ∧ st' = store st p.
Proof.
  intros Hb. unfold new_sample. split.
  - intros (pcm & [Hp ->]%add_success & H)%result_bind_success.
    apply result_bind_success in H as (? & H1%require_success & H).
    apply result_bind_success in H as (entry & [He ->]%add_success & H).
    apply result_bind_success in H as (total & [Ht ->]%add_success & H).
    apply result_bind_success in H as (? & H2%require_success & <-%success_inj). bool_to_prop.
    unfold storable, store, describe. replace (40 + (12 + bytes_of_sample p))
      with (52 + bytes_of_sample p) in * by lia. done.
  - intros [(H1 & H2 & H3 & H4) ->]. rewrite (proj2 (add_success _ _ _) (conj H1 eq_refl)).
    cbn [mbind result_bind].
    rewrite (proj2 (N.leb_le _ _) H2). cbn [require mbind result_bind].
    rewrite add_small by u_lia. cbn [mbind result_bind].
    replace (40 + (12 + bytes_of_sample p)) with (52 + bytes_of_sample p) by lia.
    rewrite (proj2 (add_success _ _ _) (conj H3 eq_refl)). cbn [mbind result_bind].
    by rewrite (proj2 (N.leb_le _ _) H4).
Qed.

Record pad_accepted (limits : RuntimeContentLimits) (first : bool) (prior number : N) (p : Pad) :
    Prop := {
  pad_number : slot_number (resolved_pad_slot p) = success number;
  pad_order : first || (prior <? number) = true;
  pad_pcm : ∃ frames, sample_ok limits (resolved_pad_sample p) frames ∧
                      plays (resolved_playback p) frames;
  pad_limit : bytes_of_sample (resolved_pad_sample p) ≤ maximum_pcm_bytes limits
}.

(** The index of a Pad's sample, and the state once it is stored. *)
Definition sample_index_of (st : PadLoop) (p : PcmSample) : N :=
  find_sample (sample_hash p) (12 + bytes_of_sample p) (samples st).

Definition known_sample (st : PadLoop) (p : PcmSample) : bool :=
  negb (sample_index_of st p =? N.of_nat (length (samples st))).

Lemma sample_ok_bytes limits p frames : sample_ok limits p frames → bytes_of_sample p < 2 ^ 34.
Proof.
  intros [_ Hc Hf Hs _]. unfold bytes_of_sample. rewrite Hs. destruct Hc as [-> | ->]; u_lia.
Qed.

Lemma encode_pad_success limits st p st' :
  encode_pad limits st p = success st' ↔
  ∃ number, pad_accepted limits (is_empty (pad_sample st)) (prior_slot st) number p ∧
    let k := sample_index_of st (resolved_pad_sample p) in
    if known_sample st (resolved_pad_sample p) then st' = place st number p k
    else storable limits st (resolved_pad_sample p) ∧
         st' = place (store st (resolved_pad_sample p)) number p k.
Proof.
  unfold encode_pad, known_sample, sample_index_of. split.
  - intros (number & Hn & H)%result_bind_success.
    apply result_bind_success in H as (? & Ho%require_success & H).
    apply result_bind_success in H as (frames & Hv%validate_sample_success & H).
    apply result_bind_success in H as (? & Hp%plays_iff & H).
    apply result_bind_success in H as (sample_bytes & Hm%multiply_success & H).
    assert (sample_bytes = bytes_of_sample (resolved_pad_sample p)) as ->
      by (unfold bytes_of_sample; lia).
    apply result_bind_success in H as (? & Hl%require_success & H).
    apply result_bind_success in H as (body & [_ ->]%add_success & H).
    apply result_bind_success in H as (st1 & H1 & <-%success_inj).
    exists number. split; [bool_to_prop; split; [done|done|by eexists|done]|].
    change (kSampleHeaderBytes + _) with (12 + bytes_of_sample (resolved_pad_sample p)) in *.
    destruct (_ =? _); cbn [negb].
    + apply new_sample_success in H1 as [Hs ->]; [done|by eapply sample_ok_bytes].
    + by apply success_inj in H1 as <-.
  - intros (number & [Hn Ho (frames & Hok & Hp) Hl] & H). rewrite Hn. cbn [mbind result_bind].
    rewrite Ho. cbn [require mbind result_bind].
    rewrite (proj2 (validate_sample_success _ _ _) Hok). cbn [mbind result_bind].
    unfold plays in Hp. rewrite Hp. cbn [mbind result_bind].
    pose proof (sample_ok_bytes _ _ _ Hok) as Hb.
    rewrite multiply_small by (unfold bytes_of_sample in Hb; u_lia). cbn [mbind result_bind].
    replace (sample_size (resolved_pad_sample p) * 2)
      with (bytes_of_sample (resolved_pad_sample p)) by (unfold bytes_of_sample; lia).
    rewrite (proj2 (N.leb_le _ _) Hl). cbn [require mbind result_bind].
    rewrite add_small by (unfold kSampleHeaderBytes; u_lia). cbn [mbind result_bind].
    change (kSampleHeaderBytes + _) with (12 + bytes_of_sample (resolved_pad_sample p)).
    destruct (_ =? _); cbn [negb] in H.
    + destruct H as [Hs ->].
      by rewrite (proj2 (new_sample_success limits st (resolved_pad_sample p) _ Hb) (conj Hs eq_refl)).
    + by subst.
Qed.
End encoding.

(** ** A concrete hash

    The hash that the library computes is SHA-256: the cooker's own, fed with
    everything that was processed. *)

Definition word_bytes (word : N) : list ascii :=
  (λ shift, byte_of_value (N.shiftr word shift)) <$> [24; 16; 8; 0].

Definition digest_bytes (bytes : list ascii) : list ascii :=
  let padded := pad_message bytes in
  let s := hash_blocks (length padded) initial_state padded in
  mjoin (word_bytes <$> [wa s; wb s; wc s; wd s; we s; wf s; wg s; wh s]).

Definition sha_lib : HashLib := {|
  hasher := list ascii;
  new_hasher := [];
  process := λ processed bytes, processed ++ bytes;
  finish_hasher := digest_bytes
|}.

Lemma sha_laws : HashLaws sha_lib.
Proof.
  split; cbn [process sha_lib hasher finish_hasher].
  - intros h a b. by rewrite app_assoc.
  - intros h. apply app_nil_r.
  - intros h. done.
Qed.

(** ** Sums *)

Lemma sum_of_snoc {A} (f : A → N) l a : sum_of f (l ++ [a]) = sum_of f l + f a.
Proof. rewrite sum_of_app. unfold sum_of. cbn. lia. Qed.

Lemma sum_of_take {A} (f : A → N) n l : sum_of f (take n l) ≤ sum_of f l.
Proof. rewrite <- (take_drop n l) at 2. rewrite sum_of_app. lia. Qed.

Lemma size_mjoin {A} (f : A → list ascii) l :
  size (mjoin (f <$> l)) = sum_of (λ a, size (f a)) l.
Proof.
  induction l as [|a l IH]; [done|]. rewrite mjoin_cons. unfold size, sum_of in *. cbn [foldr].
  rewrite length_app, <- IH. lia.
Qed.

Section loops.
Context `{JL : JsonLib} `{HW : HashLaws}.
Abbreviation Playback := (ResolvedPlayback (float := N)).
Abbreviation Pad := (ResolvedPad (float := N)).

(** ** Looking for a sample *)

Definition key (e : EncodedSample) : list ascii * N := (encoded_digest e, encoded_body_bytes e).

Lemma find_sample_cases d b l :
  (∃ e, l !! N.to_nat (find_sample d b l) = Some e ∧ key e = (d, b)) ∨
  find_sample d b l = N.of_nat (length l) ∧ (d, b) ∉ (key <$> l).
Proof.
  induction l as [|e l IH]; cbn [find_sample]; [right; split; [done|apply not_elem_of_nil]|].
  destruct (decide (encoded_digest e = d)) as [Ed|Ed].
  - rewrite bool_decide_eq_true_2 by done. destruct (N.eqb_spec (encoded_body_bytes e) b) as [Eb|Eb].
    + left. exists e. split; [done|]. unfold key. congruence.
    + cbn [negb orb]. destruct IH as [(e' & Hl & Hk)|[Hl Hn]].
      * left. exists e'. split; [|done]. by rewrite N.add_1_l, N2Nat.inj_succ.
      * right. cbn [length]. split; [lia|]. rewrite fmap_cons. apply not_elem_of_cons.
        split; [|done]. unfold key. congruence.
  - rewrite bool_decide_eq_false_2 by done. cbn [negb orb]. destruct IH as [(e' & Hl & Hk)|[Hl Hn]].
    + left. exists e'. split; [|done]. by rewrite N.add_1_l, N2Nat.inj_succ.
    + right. cbn [length]. split; [lia|]. rewrite fmap_cons. apply not_elem_of_cons.
      split; [|done]. unfold key. congruence.
Qed.

Lemma find_sample_at l i e : NoDup (key <$> l) → l !! i = Some e →
  find_sample (encoded_digest e) (encoded_body_bytes e) l = N.of_nat i.
Proof.
  intros Hn Hi. destruct (find_sample_cases (encoded_digest e) (encoded_body_bytes e) l)
    as [(e' & Hl & Hk)|[_ Hnot]].
  - assert (N.to_nat (find_sample (encoded_digest e) (encoded_body_bytes e) l) = i); [|lia].
    eapply NoDup_lookup; [exact Hn|rewrite list_lookup_fmap, Hl; cbn; by rewrite Hk|].
    by rewrite list_lookup_fmap, Hi.
  - destruct Hnot. apply list_elem_of_fmap. exists e. split; [done|]. by eapply list_elem_of_lookup_2.
Qed.

Lemma find_sample_absent d b l : (d, b) ∉ (key <$> l) → find_sample d b l = N.of_nat (length l).
Proof.
  intros Hn. destruct (find_sample_cases d b l) as [(e & Hl & Hk)|[? _]]; [|done].
  destruct Hn. apply list_elem_of_fmap. exists e. split; [done|]. by eapply list_elem_of_lookup_2.
Qed.

(** ** The encoder's loop *)

Record encoded (limits : RuntimeContentLimits) (start : N) (done : list Pad) (st : PadLoop) : Prop := {
  enc_index : Forall2 (λ p k, ∃ e, samples st !! N.to_nat k = Some e ∧
                                   key e = key (describe (resolved_pad_sample p)))
                done (pad_sample st);
  enc_from : Forall (λ e, e = describe (encoded_pcm e) ∧
                          ∃ p, p ∈ done ∧ encoded_pcm e = resolved_pad_sample p) (samples st);
  enc_pads : Forall (λ p, ∃ frames, sample_ok limits (resolved_pad_sample p) frames ∧
                                    plays (resolved_playback p) frames) done;
  enc_distinct : NoDup (key <$> samples st);
  enc_pcm : pcm_bytes st = sum_of (bytes_of_sample ∘ encoded_pcm) (samples st);
  enc_pcm_fits : pcm_bytes st ≤ maximum_pcm_bytes limits ∧ pcm_bytes st < 2 ^ 64;
  enc_bytes : encoded_bytes st = start + sum_of (λ e, 52 + bytes_of_sample (encoded_pcm e)) (samples st);
  enc_bytes_fit : encoded_bytes st ≤ maximum_encoded_bytes limits ∧ encoded_bytes st < 2 ^ 64;
  enc_count : (length (samples st) ≤ length done)%nat
}.

Lemma encoded_step limits start done st p st' : encoded limits start done st →
  encode_pad limits st p = success st' → encoded limits start (done ++ [p]) st'.
Proof.
  intros [Hi Hf Hp Hd Hs [Hsl Hs64] Hb [Hbl Hb64] Hc]
    (number & [_ _ Hpcm _] & H)%encode_pad_success.
  assert (Forall (λ e, e = describe (encoded_pcm e) ∧
            ∃ q, q ∈ done ++ [p] ∧ encoded_pcm e = resolved_pad_sample q) (samples st)) as Hf'.
  { eapply Forall_impl; [exact Hf|]. intros e [? (q & ? & ?)]. split; [assumption|].
    exists q. split; [apply elem_of_app; by left|assumption]. }
  unfold known_sample, sample_index_of in H.
  destruct (find_sample_cases (sample_hash (resolved_pad_sample p))
    (12 + bytes_of_sample (resolved_pad_sample p)) (samples st)) as [(e & Hl & Hk)|[Hl Hn]].
  - assert (N.to_nat (find_sample (sample_hash (resolved_pad_sample p))
      (12 + bytes_of_sample (resolved_pad_sample p)) (samples st)) < length (samples st))%nat
      as Hlt by (by eapply lookup_lt_Some).
    destruct (N.eqb_spec (find_sample (sample_hash (resolved_pad_sample p))
      (12 + bytes_of_sample (resolved_pad_sample p)) (samples st))
      (N.of_nat (length (samples st)))) as [E|_]; [lia|]. cbn [negb] in H. subst st'.
    split; cbn [place samples pad_sample pcm_bytes encoded_bytes]; try assumption; try (by split).
    + apply Forall2_app; [assumption|]. constructor; [by exists e|constructor].
    + apply Forall_app. split; [assumption|]. by constructor.
    + rewrite length_app. cbn [length]. lia.
  - rewrite (proj2 (N.eqb_eq _ _) Hl) in H. destruct H as [(H1 & H2 & H3 & H4) ->].
    split; cbn [place store samples pad_sample pcm_bytes encoded_bytes].
    + apply Forall2_app.
      * eapply Forall2_impl; [exact Hi|]. intros q k (e & He & Hq). exists e. split; [|assumption].
        by apply lookup_app_l_Some.
      * constructor; [|constructor]. exists (describe (resolved_pad_sample p)). split; [|reflexivity].
        rewrite Hl, Nat2N.id. rewrite lookup_app_r, Nat.sub_diag by lia. reflexivity.
    + apply Forall_app. split; [assumption|]. constructor; [|constructor]. split; [reflexivity|].
      exists p. split; [apply elem_of_app; right; by apply list_elem_of_singleton|reflexivity].
    + apply Forall_app. split; [assumption|]. by constructor.
    + rewrite fmap_app. apply NoDup_app. split_and!; [assumption| |apply NoDup_singleton].
      intros x Hx Hx'%list_elem_of_singleton. subst x. contradiction.
    + rewrite sum_of_app, Hs. cbn. lia.
    + split; [lia|u_lia].
    + rewrite sum_of_app, Hb. cbn. lia.
    + split; [lia|u_lia].
    + rewrite !length_app. cbn [length]. lia.
Qed.

(** ** The decoder's loop *)

(** The first [n] of 64 samples are used. *)
Definition used_upto (n : nat) : list bool := (λ i, bool_decide (i < n)%nat) <$> seq 0 64.

Lemma used_upto_lookup n i : (i < 64)%nat → used_upto n !! i = Some (bool_decide (i < n)%nat).
Proof. intros H. unfold used_upto. by rewrite list_lookup_fmap, lookup_seq_lt. Qed.

Lemma used_upto_insert n : (n < 64)%nat → <[n := true]> (used_upto n) = used_upto (S n).
Proof.
  intros H. apply list_eq. intros i.
  assert (length (used_upto n) = 64%nat) as Hlen by (unfold used_upto; by rewrite length_fmap, length_seq).
  destruct (Nat.lt_ge_cases i 64) as [Hi|Hi].
  - rewrite (used_upto_lookup (S n)) by done. destruct (decide (i = n)) as [->|Hne].
    + rewrite list_lookup_insert_eq by lia. by rewrite bool_decide_eq_true_2 by lia.
    + rewrite list_lookup_insert_ne, used_upto_lookup by done. f_equal. apply bool_decide_ext. lia.
  - rewrite !lookup_ge_None_2; [done| |rewrite length_insert]; unfold used_upto;
      rewrite length_fmap, length_seq; lia.
Qed.

(** What [use_sample] does with an index below 64. *)
Lemma use_sample_success n k r : k < 64 → (n ≤ 64)%nat →
  use_sample k (used_upto n) (N.of_nat n) = success r ↔
  k < N.of_nat n ∧ r = (used_upto n, N.of_nat n) ∨
  k = N.of_nat n ∧ r = (used_upto (S n), N.of_nat (S n)).
Proof.
  intros Hk Hn. unfold use_sample. rewrite used_upto_lookup by lia. cbn [throwing mbind result_bind].
  case_bool_decide as E.
  - split; [intros <-%success_inj; left; split; [lia|done]|]. intros [[_ ->]|[-> _]]; [done|lia].
  - destruct (N.eqb_spec k (N.of_nat n)) as [->|Hne]; cbn [require mbind result_bind].
    + rewrite Nat2N.id, used_upto_insert by lia. replace (N.of_nat n + 1) with (N.of_nat (S n)) by lia.
      split; [intros <-%success_inj; by right|]. intros [[? _]|[_ ->]]; [lia|done].
    + split; [discriminate|]. intros [[? _]|[? _]]; [lia|done].
Qed.

Inductive cell_agrees (done : list Pad) : option Pad → option nat → Prop :=
  | cell_empty : cell_agrees done None None
  | cell_full p i : done !! i = Some p → cell_agrees done (Some p) (Some i).

Record agree (done : list Pad) (st : PadLoop) (t : PadTable) : Prop := {
  agree_length : length (pad_sample st) = length done;
  agree_pads : table_pads t = zip_with parse_pad done (pad_sample st);
  agree_next : next_sample t = N.of_nat (length (samples st));
  agree_used : used_samples t = used_upto (length (samples st));
  agree_cells : Forall2 (cell_agrees done) (by_slot st) (slot_index t);
  agree_prior : table_prior t = prior_slot st
}.

Lemma agree_table_length done st t : agree done st t → length (table_pads t) = length done.
Proof. intros [Hl -> _ _ _ _]. rewrite length_zip_with. lia. Qed.

Lemma agree_first done st t : agree done st t → is_empty (table_pads t) = is_empty (pad_sample st).
Proof.
  intros H. pose proof (agree_table_length _ _ _ H) as E. destruct H as [Hl _ _ _ _ _].
  destruct (table_pads t), (pad_sample st), done; done.
Qed.

(** Both loops place a Pad in the same way. *)
Lemma agree_place done st t p st' number k :
  agree done st t → by_slot st' = by_slot st → pad_sample st' = pad_sample st →
  agree (done ++ [p]) (place st' number p k)
    (MkPadTable (table_pads t ++ [parse_pad p k])
       (<[N.to_nat number := Some (length (table_pads t))]> (slot_index t))
       (used_upto (length (samples st'))) (N.of_nat (length (samples st'))) number).
Proof.
  intros H Eb Ep. pose proof (agree_table_length _ _ _ H) as Elen. destruct H as [Hl Ht _ _ Hc _].
  split; cbn [place samples pad_sample by_slot prior_slot table_pads slot_index used_samples
    next_sample table_prior]; rewrite ?Eb, ?Ep; try reflexivity.
  - rewrite !length_app. cbn [length]. lia.
  - rewrite zip_with_app by done. by rewrite Ht.
  - rewrite Elen. apply Forall2_insert.
    + eapply Forall2_impl; [exact Hc|]. intros _ _ [|q i Hq]; constructor.
      by apply lookup_app_l_Some.
    + constructor. by rewrite lookup_app_r, Nat.sub_diag by lia.
Qed.

Lemma agree_step_encoded limits start count done st t p st' :
  agree done st t → encoded limits start done st → encode_pad limits st p = success st' →
  (length (samples st') ≤ 64)%nat → N.of_nat (length (samples st')) ≤ count →
  ∃ t', check_pad count t (parse_pad p (sample_index_of st (resolved_pad_sample p))) = success t' ∧
        agree (done ++ [p]) st' t' ∧
        pad_sample st' = pad_sample st ++ [sample_index_of st (resolved_pad_sample p)].
Proof.
  intros Ha He H%encode_pad_success H64 Hcount. destruct H as (number & [Hn Ho _ _] & H).
  pose proof (agree_first _ _ _ Ha) as Ef. pose proof (agree_prior _ _ _ Ha) as Epr.
  set (k := sample_index_of st (resolved_pad_sample p)) in *.
  pose (stored := if known_sample st (resolved_pad_sample p) then st
                  else store st (resolved_pad_sample p)).
  assert (st' = place stored number p k) as ->
    by (unfold stored; destruct (known_sample _ _); [done|by destruct H]).
  cbn [place samples] in *.
  assert (k < N.of_nat (length (samples stored)) ∧
          use_sample k (used_samples t) (next_sample t) =
          success (used_upto (length (samples stored)), N.of_nat (length (samples stored))))
    as [Hk Hu].
  { rewrite (agree_used _ _ _ Ha), (agree_next _ _ _ Ha). unfold known_sample in stored. fold k in stored.
    destruct (find_sample_cases (sample_hash (resolved_pad_sample p))
      (12 + bytes_of_sample (resolved_pad_sample p)) (samples st)) as [(e & Hl & _)|[Hl _]];
      fold (sample_index_of st (resolved_pad_sample p)) in Hl; fold k in Hl.
    - apply lookup_lt_Some in Hl. unfold stored in *.
      destruct (N.eqb_spec k (N.of_nat (length (samples st)))) as [E|_]; [lia|]. cbn [negb] in *.
      split; [lia|]. apply use_sample_success; [lia|lia|]. left. split; [lia|done].
    - unfold stored in *. rewrite Hl, N.eqb_refl in *. cbn [negb] in *. cbn [store samples] in *.
      rewrite length_app in *. cbn [length] in *. split; [lia|].
      apply use_sample_success; [lia|lia|]. right. rewrite Nat.add_1_r. done. }
  eexists. split_and!.
  - unfold check_pad. change (parsed_slot (parse_pad p k)) with (resolved_pad_slot p).
    change (sample_index (parse_pad p k)) with k. rewrite Hn.
    cbn [mbind result_bind]. rewrite Ef, Epr, Ho. cbn [require mbind result_bind].
    rewrite (proj2 (N.ltb_lt k count)) by lia. cbn [require mbind result_bind].
    rewrite Hu. cbn [mbind result_bind fst snd]. reflexivity.
  - apply (agree_place done st); [done|unfold stored; by destruct (known_sample _ _)..].
  - cbn [place pad_sample]. unfold stored. by destruct (known_sample _ _).
Qed.

Lemma encode_pad_samples limits st p st' : encode_pad limits st p = success st' →
  (length (samples st) ≤ length (samples st'))%nat.
Proof.
  intros (number & _ & H)%encode_pad_success. destruct (known_sample _ _).
  - by rewrite H.
  - destruct H as [_ ->]. cbn [place store samples]. rewrite length_app. lia.
Qed.

Lemma encode_pads_samples limits ps st st' : fold_result (encode_pad limits) st ps = success st' →
  (length (samples st) ≤ length (samples st'))%nat.
Proof.
  revert st. induction ps as [|p ps IH]; intros st; cbn [fold_result].
  { by intros <-%success_inj. }
  intros (st1 & H%encode_pad_samples & Hf)%result_bind_success. etransitivity; [exact H|]. by apply IH.
Qed.

(** What the encoder's loop writes, the decoder's loop accepts. *)
Lemma loops_encoded limits start count ps done st t stf :
  agree done st t → encoded limits start done st →
  fold_result (encode_pad limits) st ps = success stf →
  (length done + length ps ≤ 64)%nat → N.of_nat (length (samples stf)) ≤ count →
  ∃ t' ks, fold_result (check_pad count) t (zip_with parse_pad ps ks) = success t' ∧
           length ks = length ps ∧ pad_sample stf = pad_sample st ++ ks ∧
           agree (done ++ ps) stf t' ∧ encoded limits start (done ++ ps) stf.
Proof.
  revert done st t. induction ps as [|p ps IH]; intros done st t Ha He Hf Hlen Hcount;
    cbn [fold_result length] in *.
  { apply success_inj in Hf as <-. exists t, []. rewrite !app_nil_r. by split_and!. }
  apply result_bind_success in Hf as (st1 & H1 & Hf).
  pose proof (encode_pads_samples _ _ _ _ Hf) as Hmono.
  pose proof (encoded_step _ _ _ _ _ _ He H1) as He1.
  pose proof (enc_count _ _ _ _ He1) as Hc1. rewrite length_app in Hc1. cbn [length] in Hc1.
  destruct (agree_step_encoded _ _ count _ _ _ _ _ Ha He H1) as (t1 & Hc & Ha1 & Hk); [lia..|].
  destruct (IH _ _ _ Ha1 He1 Hf) as (t' & ks & Ht & Hks & Hp & Ha' & He');
    [rewrite length_app; cbn [length]; lia|done|].
  rewrite <- app_assoc in Ha', He'. eexists t', (_ :: ks). split_and!; [|cbn; lia| |done|done].
  - cbn [zip_with fold_result]. rewrite Hc. exact Ht.
  - by rewrite Hp, Hk, <- app_assoc.
Qed.

(** ** What the decoder's loop accepted, the encoder's loop writes again *)

Lemma NoDup_taken {A} n (l : list A) : NoDup l → NoDup (take n l).
Proof. rewrite <- (take_drop n l) at 1. by intros [? _]%NoDup_app. Qed.

Section again.
Context (limits : RuntimeContentLimits) (start : N) (table : list EncodedSample).
Context (table_distinct : NoDup (key <$> table)).
Context (table_described : Forall (λ e, e = describe (encoded_pcm e)) table).
Context (table_small : (length table ≤ 64)%nat).
Context (pcm_fit : sum_of (bytes_of_sample ∘ encoded_pcm) table < 2 ^ 64)
  (pcm_allowed : sum_of (bytes_of_sample ∘ encoded_pcm) table ≤ maximum_pcm_bytes limits).
Context (bytes_fit : start + sum_of (λ e, 52 + bytes_of_sample (encoded_pcm e)) table < 2 ^ 64)
  (bytes_allowed : start + sum_of (λ e, 52 + bytes_of_sample (encoded_pcm e)) table ≤
                   maximum_encoded_bytes limits).

(** The encoder has stored the first samples of the table. *)
Record stored_upto (st : PadLoop) : Prop := {
  stored_samples : samples st = take (length (samples st)) table;
  stored_pcm : pcm_bytes st = sum_of (bytes_of_sample ∘ encoded_pcm) (samples st);
  stored_bytes : encoded_bytes st = start + sum_of (λ e, 52 + bytes_of_sample (encoded_pcm e)) (samples st)
}.

(** A Pad that plays an entry of the table. *)
Record plays_entry (p : Pad) (q : ParsedPad) : Prop := {
  entry_parsed : parse_pad p (sample_index q) = q;
  entry_sample : encoded_pcm <$> table !! N.to_nat (sample_index q) = Some (resolved_pad_sample p);
  entry_ok : ∃ frames, sample_ok limits (resolved_pad_sample p) frames ∧
                       plays (resolved_playback p) frames
}.

Lemma sum_of_lookup {A} (f : A → N) l i a : l !! i = Some a → f a ≤ sum_of f l.
Proof.
  revert i. induction l as [|b l IH]; intros [|i] H; cbn in H; try done; unfold sum_of in *; cbn.
  - injection H as ->. lia.
  - specialize (IH _ H). lia.
Qed.

Lemma sum_of_take_S {A} (f : A → N) l i a : l !! i = Some a →
  sum_of f (take i l) + f a ≤ sum_of f l.
Proof.
  intros H. etransitivity; [|apply (sum_of_take f (S i))]. rewrite (take_S_r _ _ _ H), sum_of_app.
  unfold sum_of. cbn. lia.
Qed.

Lemma agree_step_stored done st t p q t' :
  agree done st t → stored_upto st → plays_entry p q →
  check_pad (N.of_nat (length table)) t q = success t' →
  ∃ st', encode_pad limits st p = success st' ∧ agree (done ++ [p]) st' t' ∧ stored_upto st' ∧
         pad_sample st' = pad_sample st ++ [sample_index q].
Proof.
  intros Ha [Hs Hpcm Hbytes] [Hq He Hok] H.
  apply result_bind_success in H as (number & Hn & H).
  apply result_bind_success in H as (? & Ho%require_success & H).
  apply result_bind_success in H as (? & Hc%require_success & H).
  apply result_bind_success in H as ([used next] & Hu & <-%success_inj). bool_to_prop.
  set (k := sample_index q) in *.
  destruct (table !! N.to_nat k) as [e|] eqn:Ek; [|done]. injection He as Hp.
  assert (e = describe (resolved_pad_sample p)) as Ee
    by (rewrite <- Hp; by eapply (Forall_lookup_1 _ _ _ _ table_described)).
  assert (length (samples st) ≤ length table)%nat as Hlen
    by (rewrite Hs, length_take; lia).
  rewrite (agree_used _ _ _ Ha), (agree_next _ _ _ Ha) in Hu.
  apply use_sample_success in Hu; [|lia|lia].
  assert (slot_number (resolved_pad_slot p) = success number) as Hslot by (by rewrite <- Hq in Hn).
  rewrite (agree_first _ _ _ Ha), (agree_prior _ _ _ Ha) in Ho.
  assert (bytes_of_sample (resolved_pad_sample p) ≤ maximum_pcm_bytes limits) as Hfit.
  { etransitivity; [|exact pcm_allowed]. rewrite <- Hp.
    by apply (sum_of_lookup (bytes_of_sample ∘ encoded_pcm) table _ e Ek). }
  assert (pad_accepted limits (is_empty (pad_sample st)) (prior_slot st) number p) as Hacc by by split.
  assert (sample_index_of st (resolved_pad_sample p) = k) as Hk.
  { unfold sample_index_of. destruct Hu as [[Hlt _]|[Heq _]].
    - rewrite <- (N2Nat.id k). change (sample_hash (resolved_pad_sample p)) with
        (encoded_digest (describe (resolved_pad_sample p))).
      change (12 + bytes_of_sample (resolved_pad_sample p)) with
        (encoded_body_bytes (describe (resolved_pad_sample p))). rewrite <- Ee.
      apply find_sample_at.
      + rewrite Hs, fmap_take. by apply NoDup_taken.
      + rewrite Hs, lookup_take_lt by lia. exact Ek.
    - rewrite find_sample_absent; [by symmetry|]. rewrite Hs.
      intros (e' & Hkey & (i & Hi & Hlt)%elem_of_take)%list_elem_of_fmap.
      assert (i = N.to_nat k); [|lia].
      eapply NoDup_lookup; [exact table_distinct| |by rewrite list_lookup_fmap, Ek].
      rewrite list_lookup_fmap, Hi. cbn. f_equal. by rewrite Ee, <- Hkey. }
  rewrite <- Hq. fold k. destruct Hu as [[Hlt [= -> ->]]|[Heq [= -> ->]]].
  - exists (place st number p k). split_and!; [|by apply (agree_place done st)|by split|done].
    apply encode_pad_success. exists number. split; [done|]. cbn zeta. unfold known_sample.
    rewrite Hk. by destruct (N.eqb_spec k (N.of_nat (length (samples st)))) as [E|_]; [lia|].
  - assert (Hn1 : samples (store st (resolved_pad_sample p)) = take (S (length (samples st))) table).
    { rewrite Heq, Nat2N.id in Ek. rewrite (take_S_r _ _ _ Ek), <- Hs, Ee. done. }
    assert (length (samples (store st (resolved_pad_sample p))) = S (length (samples st))) as Hl1
      by (cbn [store samples]; rewrite length_app; cbn; lia).
    exists (place (store st (resolved_pad_sample p)) number p k). split_and!; [| | |done].
    + apply encode_pad_success. exists number. split; [done|]. cbn zeta. unfold known_sample.
      rewrite Hk, Heq, N.eqb_refl. cbn [negb]. split; [|done].
      rewrite Heq, Nat2N.id in Ek.
      pose proof (sum_of_take_S (bytes_of_sample ∘ encoded_pcm) _ _ _ Ek) as S1.
      pose proof (sum_of_take_S (λ e, 52 + bytes_of_sample (encoded_pcm e)) _ _ _ Ek) as S2.
      rewrite <- Hs in S1, S2. rewrite <- Hpcm in S1.
      cbn [compose] in S1. rewrite Hp in S1, S2. split_and!; [u_lia|lia|u_lia|lia].
    + rewrite <- Hl1. by apply (agree_place done st).
    + split; cbn [place samples pcm_bytes encoded_bytes].
      * by rewrite Hl1.
      * cbn [store pcm_bytes samples]. rewrite sum_of_app, Hpcm. unfold sum_of. cbn. lia.
      * cbn [store encoded_bytes samples]. rewrite sum_of_app, Hbytes. unfold sum_of. cbn. lia.
Qed.

Lemma loops_stored ps qs done st t t' :
  agree done st t → stored_upto st → Forall2 plays_entry ps qs →
  fold_result (check_pad (N.of_nat (length table))) t qs = success t' →
  ∃ st', fold_result (encode_pad limits) st ps = success st' ∧ agree (done ++ ps) st' t' ∧
         stored_upto st' ∧ pad_sample st' = pad_sample st ++ (sample_index <$> qs).
Proof.
  intros Ha Hs Hps. revert done st t Ha Hs. induction Hps as [|p q ps qs Hp Hps IH];
    intros done st t Ha Hs; cbn [fold_result].
  { intros <-%success_inj. exists st. by rewrite !app_nil_r. }
  intros (t1 & H1 & Hf)%result_bind_success.
  destruct (agree_step_stored _ _ _ _ _ _ Ha Hs Hp H1) as (st1 & He & Ha1 & Hs1 & Hk).
  destruct (IH _ _ _ Ha1 Hs1 Hf) as (st' & He' & Ha' & Hs' & Hk').
  exists st'. rewrite He. cbn [mbind result_bind]. rewrite <- app_assoc in Ha'.
  split_and!; [done..|]. by rewrite Hk', Hk, fmap_cons, <- app_assoc.
Qed.
End again.
End loops.
