(* ===== verification/ContentLaws.v ===== *)
(** Runtime content is a faithful and canonical file.

    Decoding what the encoder wrote gives the snapshot back; whatever the decoder
    accepts, the encoder writes byte for byte; and the inspector accepts exactly
    what the decoder accepts, without building it. *)

From S2P Require Import Prelude Json Foundation Text Project Playback Wav WavLaws Cooker RuntimeContent ContentTables ContentLoops.

Section laws.
Context `{JL : JsonLib} `{HW : HashLaws}.
Abbreviation Playback := (ResolvedPlayback (float := N)).
Abbreviation Pad := (ResolvedPad (float := N)).
Abbreviation Snapshot := (RuntimeSnapshot (float := N)).

(** ** Words *)

Lemma uint16_of_int16 w : w < 2 ^ 16 → uint16_of (int16_of w) = w.
Proof.
  intros H. unfold uint16_of, int16_of. destruct (N.ltb_spec w (2 ^ 15)) as [L|L].
  - rewrite Z.mod_small by lia. lia.
  - replace ((Z.of_N w - 2 ^ 16) mod 2 ^ 16)%Z with (Z.of_N w)
      by (apply (Z.mod_unique _ _ (-1)); lia). lia.
Qed.

Lemma read_words_run l fuel : Forall int16 l → (length l ≤ fuel)%nat →
  read_words fuel (mjoin (pcm_bytes_of <$> l)) = success l.
Proof.
  revert fuel. induction l as [|z l IH]; intros fuel Hl Hf; [by destruct fuel|].
  inversion_clear Hl as [|? ? Hz Hl']. cbn [length] in Hf. destruct fuel as [|fuel]; [lia|].
  rewrite mjoin_cons, pcm_bytes_append.
  pose proof (integer_append 2 (uint16_of z) (mjoin (pcm_bytes_of <$> l)) (uint16_of_lt z)) as Hi.
  change (N.of_nat 2) with 2 in Hi. cbn [read_words].
  destruct (append (uint16_of z) 2 ++ mjoin (pcm_bytes_of <$> l)) as [|c cs] eqn:E.
  { apply (f_equal length) in E. rewrite length_app, length_append in E. cbn in E. lia. }
  rewrite Hi. cbn [mbind result_bind]. rewrite IH by (done || lia). cbn [mbind result_bind].
  by rewrite int16_of_uint16.
Qed.

Lemma read_words_total n bytes fuel : length bytes = (2 * n)%nat → (n ≤ fuel)%nat →
  ∃ l, read_words fuel bytes = success l ∧ length l = n ∧ Forall int16 l ∧
       bytes = mjoin (pcm_bytes_of <$> l).
Proof.
  revert bytes fuel. induction n as [|n IH]; intros bytes fuel Hb Hf.
  { destruct bytes; [|done]. exists []. by destruct fuel. }
  destruct bytes as [|a [|b bytes]]; [cbn in Hb; lia..|]. destruct fuel as [|fuel]; [lia|].
  destruct (IH bytes fuel) as (l & Hl & Hn & Hi & ->); [cbn in Hb; lia|lia|].
  pose proof (le_value_lt [a; b]) as Hlt. cbn [length] in Hlt.
  assert ([a; b] = append (le_value [a; b]) 2) as E by (symmetry; apply append_le_value).
  exists (int16_of (le_value [a; b]) :: l). split_and!.
  - cbn [read_words]. change (a :: b :: mjoin (pcm_bytes_of <$> l)) with
      ([a; b] ++ mjoin (pcm_bytes_of <$> l)). rewrite E at 1.
    rewrite (integer_append 2) by done. cbn [mbind result_bind]. by rewrite Hl.
  - cbn [length]. lia.
  - constructor; [|done]. by apply int16_of_range.
  - rewrite mjoin_cons, pcm_bytes_append, uint16_of_int16 by done. by rewrite <- E.
Qed.

(** ** Events *)

Lemma events_checked done cells index loop evs previous last :
  Forall2 (cell_agrees done) cells index →
  fold_result (encode_event loop cells) previous evs = success last →
  fold_result (check_event loop index) (fields_of <$> previous) (fields_of <$> evs) =
  success (fields_of <$> last).
Proof.
  intros Hc. revert previous. induction evs as [|e evs IH]; intros previous.
  { cbn [fold_result fmap list_fmap]. by intros <-%success_inj. }
  rewrite fmap_cons. cbn [fold_result]. intros (next & H & Hf)%result_bind_success.
  apply result_bind_success in H as (? & Hv & H).
  apply result_bind_success in H as (? & Ho%require_success & H).
  apply result_bind_success in H as (number & Hn & H).
  apply result_bind_success in H as (cell & Hcell%throwing_success & H).
  destruct (Forall2_lookup_l _ _ _ _ _ Hc Hcell) as (j & Hj & Hcj).
  destruct cell as [p|]; [|done].
  apply result_bind_success in H as (? & _ & <-%success_inj).
  inversion Hcj as [|? i Hi]; subst.
  assert (check_event loop index (fields_of <$> previous) (fields_of e) =
          success (Some (fields_of e))) as ->; [|by apply (IH (Some e))].
  unfold check_event. rewrite Hv. cbn [mbind result_bind].
  replace (match fields_of <$> previous with
           | Some before => event_before before (fields_of e) | None => true end) with true
    by (by destruct previous). cbn [require mbind result_bind].
  change (field_slot (fields_of e)) with (resolved_slot e). rewrite Hn. cbn [mbind result_bind].
  by rewrite Hj.
Qed.

(** The Pads of [owned] play the samples of [done]. *)
Definition same_samples (done owned : list Pad) : Prop :=
  Forall2 (λ p q, resolved_pad_sample p = resolved_pad_sample q) done owned.

Lemma events_resolved done owned cells index loop evs previous last acc :
  Forall2 (cell_agrees done) cells index → same_samples done owned →
  fold_result (encode_event loop cells) previous evs = success last →
  fold_result (resolve_event index owned) acc (fields_of <$> evs) = success (acc ++ evs).
Proof.
  intros Hc Hs. revert previous acc. induction evs as [|e evs IH]; intros previous acc.
  { by rewrite app_nil_r. }
  rewrite fmap_cons. cbn [fold_result]. intros (next & H & Hf)%result_bind_success.
  apply result_bind_success in H as (? & Hv & H).
  apply result_bind_success in H as (? & Ho%require_success & H).
  apply result_bind_success in H as (number & Hn & H).
  apply result_bind_success in H as (cell & Hcell%throwing_success & H).
  destruct (Forall2_lookup_l _ _ _ _ _ Hc Hcell) as (j & Hj & Hcj).
  destruct cell as [p|]; [|done].
  apply result_bind_success in H as (? & Hsame%require_success & <-%success_inj).
  apply bool_decide_eq_true_1 in Hsame.
  inversion Hcj as [|? i Hi]; subst. destruct (Forall2_lookup_l _ _ _ _ _ Hs Hi) as (q & Hq & Hpq).
  assert (resolve_event index owned acc (fields_of e) = success (acc ++ [e])) as ->.
  - unfold resolve_event. change (field_slot (fields_of e)) with (resolved_slot e).
    rewrite Hn. cbn [mbind result_bind]. rewrite Hj. cbn [throwing mbind result_bind].
    rewrite Hq. cbn [throwing mbind result_bind]. rewrite <- Hpq, <- Hsame. by destruct e.
  - cbn [mbind result_bind]. by rewrite (IH _ (acc ++ [e]) Hf), <- app_assoc.
Qed.

(** Events that the decoder checks and resolves, the encoder accepts. *)
Lemma events_encoded done cells index loop evs previous last :
  Forall2 (cell_agrees done) cells index →
  fold_result (check_event loop index) (fields_of <$> previous) (fields_of <$> evs) = success last →
  Forall (λ e, ∀ number i p, slot_number (resolved_slot e) = success number →
    index !! N.to_nat number = Some (Some i) → done !! i = Some p →
    resolved_sample e = resolved_pad_sample p) evs →
  ∃ final, fold_result (encode_event loop cells) previous evs = success final.
Proof.
  intros Hc. revert previous. induction evs as [|e evs IH]; intros previous Hf Hs; [by eexists|].
  rewrite fmap_cons in Hf. cbn [fold_result] in *. inversion_clear Hs as [|? ? He Hs'].
  apply result_bind_success in Hf as (next & H & Hf).
  apply result_bind_success in H as (? & Hv & H).
  apply result_bind_success in H as (? & Ho%require_success & H).
  apply result_bind_success in H as (number & Hn & H).
  apply result_bind_success in H as (cell & Hcell%throwing_success & H).
  apply result_bind_success in H as (? & Hval%require_success & <-%success_inj).
  destruct cell as [i|]; [|done].
  destruct (Forall2_lookup_r _ _ _ _ _ Hc Hcell) as (o & Hj & Hcj).
  inversion Hcj as [|p ? Hi]; subst. change (field_slot (fields_of e)) with (resolved_slot e) in Hn.
  assert (encode_event loop cells previous e = success (Some e)) as ->.
  - unfold encode_event. rewrite Hv. cbn [mbind result_bind].
    replace (match previous with
             | Some before => event_before (fields_of before) (fields_of e) | None => true end)
      with true by (by destruct previous). cbn [require mbind result_bind].
    rewrite Hn. cbn [mbind result_bind]. rewrite Hj. cbn [throwing mbind result_bind].
    by rewrite bool_decide_eq_true_2 by (by eapply He).
  - apply (IH (Some e)); [exact Hf|done].
Qed.

(** ** Samples *)

Definition parsed_bytes (q : ParsedSample) : N := parsed_frames q * (parsed_channels q * 2).

Definition parsed_key (q : ParsedSample) : list ascii * N := (parsed_digest q, parsed_body_bytes q).

Lemma not_same_sample q prior : forallb (λ p, negb (same_sample (parsed_digest q)
    (parsed_body_bytes q) p)) prior = true ↔ parsed_key q ∉ (parsed_key <$> prior).
Proof.
  rewrite forallb_forall, list_elem_of_fmap. split.
  - intros H (p & Hk & Hp). specialize (H p ltac:(by apply list_elem_of_In)).
    unfold same_sample in H. unfold parsed_key in Hk. injection Hk as E1 E2.
    rewrite bool_decide_eq_true_2, E2, N.eqb_refl in H by done. done.
  - intros H p Hp. apply negb_true_iff. unfold same_sample.
    destruct (bool_decide_reflect (parsed_digest p = parsed_digest q)) as [E1|]; [|done].
    destruct (N.eqb_spec (parsed_body_bytes p) (parsed_body_bytes q)) as [E2|]; [|done].
    destruct H. exists p. split; [unfold parsed_key; congruence|by apply list_elem_of_In].
Qed.

Lemma check_sample_success limits t q t' :
  check_sample limits t q = success t' ↔
  parsed_frames q ≤ maximum_sample_frames limits ∧
  parsed_bytes q ≤ 2 ^ 64 - 1 - total_pcm t ∧
  total_pcm t + parsed_bytes q ≤ maximum_pcm_bytes limits ∧
  hash (body_of q) = parsed_digest q ∧ (parsed_key q ∉ (parsed_key <$> table_samples t)) ∧
  t' = MkSampleTable (table_samples t ++ [q]) (total_pcm t + parsed_bytes q).
Proof.
  unfold check_sample. fold (parsed_bytes q). split.
  - intros (? & H1%require_success & H)%result_bind_success.
    apply result_bind_success in H as (total & [H2 ->]%add_success & H).
    apply result_bind_success in H as (? & H3%require_success & H).
    apply result_bind_success in H as (? & H4%require_success & H).
    apply result_bind_success in H as (? & H5%require_success & <-%success_inj).
    apply not_same_sample in H5. bool_to_prop. by split_and!.
  - intros (H1 & H2 & H3 & H4 & H5 & ->).
    rewrite (proj2 (N.leb_le _ _) H1). cbn [require mbind result_bind].
    rewrite (proj2 (add_success _ _ _) (conj H2 eq_refl)). cbn [mbind result_bind].
    rewrite (proj2 (N.leb_le _ _) H3). cbn [require mbind result_bind].
    rewrite bool_decide_eq_true_2 by done. cbn [require mbind result_bind].
    by rewrite (proj2 (not_same_sample _ _) H5).
Qed.

(** A table whose samples are distinct, true to their digests and within the
    limits. *)
Record samples_sound (limits : RuntimeContentLimits) (qs : list ParsedSample) : Prop := {
  sound_frames : Forall (λ q, parsed_frames q ≤ maximum_sample_frames limits) qs;
  sound_total : sum_of parsed_bytes qs ≤ maximum_pcm_bytes limits ∧ sum_of parsed_bytes qs < 2 ^ 64;
  sound_digest : Forall (λ q, hash (body_of q) = parsed_digest q) qs;
  sound_distinct : NoDup (parsed_key <$> qs)
}.

Lemma samples_accepted limits pre qs : samples_sound limits (pre ++ qs) →
  fold_result (check_sample limits) (MkSampleTable pre (sum_of parsed_bytes pre)) qs =
  success (MkSampleTable (pre ++ qs) (sum_of parsed_bytes (pre ++ qs))).
Proof.
  revert pre. induction qs as [|q qs IH]; intros pre Hs; cbn [fold_result]; [by rewrite app_nil_r|].
  assert (check_sample limits (MkSampleTable pre (sum_of parsed_bytes pre)) q =
          success (MkSampleTable (pre ++ [q]) (sum_of parsed_bytes (pre ++ [q])))) as ->.
  - destruct Hs as [Hf [Ht Ht64] Hd Hn]. apply check_sample_success. cbn [table_samples total_pcm].
    apply Forall_app in Hf as [_ Hf]. apply Forall_app in Hd as [_ Hd].
    inversion_clear Hf. inversion_clear Hd. rewrite sum_of_app in Ht, Ht64.
    unfold sum_of in Ht, Ht64. cbn [foldr] in Ht, Ht64. fold (sum_of parsed_bytes pre) in Ht, Ht64.
    rewrite fmap_app in Hn. apply NoDup_app in Hn as (_ & Hn & _).
    split_and!; [done|u_lia|lia|done| |].
    + intros Hin. eapply Hn; [exact Hin|]. rewrite fmap_cons. by left.
    + by rewrite sum_of_snoc.
  - cbn [mbind result_bind]. rewrite (cons_middle q pre qs), app_assoc in Hs |- *.
    by apply IH.
Qed.

Lemma samples_checked limits qs t pre : samples_sound limits pre →
  fold_result (check_sample limits) (MkSampleTable pre (sum_of parsed_bytes pre)) qs = success t →
  t = MkSampleTable (pre ++ qs) (sum_of parsed_bytes (pre ++ qs)) ∧ samples_sound limits (pre ++ qs).
Proof.
  revert pre. induction qs as [|q qs IH]; intros pre Hs; cbn [fold_result].
  { rewrite app_nil_r. by intros <-%success_inj. }
  intros (t1 & (H1 & H2 & H3 & H4 & H5 & ->)%check_sample_success & Hf)%result_bind_success.
  cbn [table_samples total_pcm] in *.
  assert (sum_of parsed_bytes (pre ++ [q]) = sum_of parsed_bytes pre + parsed_bytes q) as E
    by apply sum_of_snoc.
  rewrite cons_middle, app_assoc. apply IH; [|by rewrite E].
  destruct Hs as [Hfr [Ht Ht64] Hd Hn]. split.
  - apply Forall_app. split; [done|]. by constructor.
  - rewrite E. split; [done|u_lia].
  - apply Forall_app. split; [done|]. by constructor.
  - rewrite fmap_app. apply NoDup_app. split_and!; [done| |apply NoDup_singleton].
    intros x Hx ->%list_elem_of_singleton. done.
Qed.

Lemma parsed_bytes_of limits frames e : sample_ok limits (encoded_pcm e) frames →
  parsed_bytes (parse_sample e) = bytes_of_sample (encoded_pcm e).
Proof.
  intros Hok. unfold parsed_bytes, parse_sample. cbn [parsed_frames parsed_channels].
  rewrite (sample_ok_frames _ _ _ Hok). destruct Hok as [_ _ _ Hs _].
  unfold bytes_of_sample. rewrite Hs. lia.
Qed.

Lemma sum_of_ext {A} (f g : A → N) l : Forall (λ a, f a = g a) l → sum_of f l = sum_of g l.
Proof. induction 1 as [|a l E _ IH]; [done|]. unfold sum_of in *. cbn. by rewrite E, IH. Qed.

Definition entry_ok (limits : RuntimeContentLimits) (e : EncodedSample) : Prop :=
  e = describe (encoded_pcm e) ∧ ∃ frames, sample_ok limits (encoded_pcm e) frames.

Lemma parse_samples_sound limits es : Forall (entry_ok limits) es → NoDup (key <$> es) →
  sum_of (bytes_of_sample ∘ encoded_pcm) es ≤ maximum_pcm_bytes limits →
  sum_of (bytes_of_sample ∘ encoded_pcm) es < 2 ^ 64 →
  samples_sound limits (parse_sample <$> es) ∧
  sum_of parsed_bytes (parse_sample <$> es) = sum_of (bytes_of_sample ∘ encoded_pcm) es.
Proof.
  intros Hes Hn Hl H64.
  assert (sum_of parsed_bytes (parse_sample <$> es) = sum_of (bytes_of_sample ∘ encoded_pcm) es) as E.
  { rewrite sum_of_fmap. apply sum_of_ext. eapply Forall_impl; [exact Hes|].
    intros e (_ & frames & Hok). by eapply parsed_bytes_of. }
  split; [|done]. split.
  - apply Forall_fmap. eapply Forall_impl; [exact Hes|]. intros e (_ & frames & Hok). cbn.
    rewrite (sample_ok_frames _ _ _ Hok). by destruct Hok.
  - by rewrite E.
  - apply Forall_fmap. eapply Forall_impl; [exact Hes|]. intros e (He & frames & Hok).
    unfold compose. rewrite (body_of_parsed _ _ _ Hok). cbn [parse_sample parsed_digest].
    rewrite He at 2. cbn [describe encoded_digest]. by rewrite sample_hash_spec.
  - by rewrite <- list_fmap_compose.
Qed.

(** ** The written file *)

(** The file of a header, entries of the Pads, events and samples. *)
Definition file_of (s : Snapshot) (total : N) (qs : list ParsedPad) (es : list EventFields)
    (ss : list ParsedSample) : list ascii :=
  header_front s total ++ append (N.of_nat (length qs)) 4 ++ append (N.of_nat (length es)) 4 ++
  append (N.of_nat (length ss)) 4 ++ mjoin (parsed_pad_bytes <$> qs) ++
  mjoin (event_bytes <$> es) ++ mjoin (parsed_sample_bytes <$> ss).

Lemma size_app (a b : list ascii) : size (a ++ b) = size a + size b.
Proof. unfold size. rewrite length_app. lia. Qed.

Lemma size_append v width : size (append v width) = N.of_nat width.
Proof. unfold size. by rewrite length_append. Qed.

Lemma size_header s total : timing_ok s → size (header_front s total) = 124.
Proof.
  intros [Hp%uuid_size Hq%uuid_size _ _ _ _]. unfold header_front. rewrite !size_app, !size_append.
  unfold append_text. fold (size (chars (value (snapshot_project_id s)))) in Hp.
  fold (size (chars (value (snapshot_pattern_id s)))) in Hq. rewrite Hp, Hq. reflexivity.
Qed.

Lemma sum_of_const {A} (f : A → N) c l : (∀ a, f a = c) → sum_of f l = c * N.of_nat (length l).
Proof. intros H. induction l as [|a l IH]; unfold sum_of in *; cbn [foldr length]; rewrite ?H; lia. Qed.

Lemma size_pads qs : size (mjoin (parsed_pad_bytes <$> qs)) = 20 * N.of_nat (length qs).
Proof.
  rewrite size_mjoin. apply sum_of_const. intros q. unfold parsed_pad_bytes.
  by rewrite !size_app, !size_append.
Qed.

Lemma size_events es : size (mjoin (event_bytes <$> es)) = 12 * N.of_nat (length es).
Proof.
  rewrite size_mjoin. apply sum_of_const. intros e. unfold event_bytes.
  by rewrite !size_app, !size_append.
Qed.

Lemma size_samples ss : Forall sample_typed ss →
  size (mjoin (parsed_sample_bytes <$> ss)) = sum_of (λ q, 52 + parsed_bytes q) ss.
Proof.
  intros H. rewrite size_mjoin. apply sum_of_ext. eapply Forall_impl; [exact H|]. intros q Hq.
  unfold parsed_sample_bytes. rewrite !size_app, size_append. unfold size at 2.
  rewrite length_body by done. destruct Hq as [Hd _ _ _ ->]. unfold size. rewrite Hd.
  unfold parsed_bytes. lia.
Qed.

Lemma size_file s total qs es ss : timing_ok s → Forall sample_typed ss →
  size (file_of s total qs es ss) =
  kHeaderBytes + (N.of_nat (length qs) * kPadBytes + N.of_nat (length es) * kEventBytes) +
  sum_of (λ q, 52 + parsed_bytes q) ss.
Proof.
  intros Hs Hss. unfold file_of. rewrite !size_app, !size_append, size_header, size_pads, size_events,
    size_samples by done. unfold kHeaderBytes, kPadBytes, kEventBytes. lia.
Qed.

Lemma mjoin_zip_pads ps ks : length ks = length ps →
  mjoin (zip_with pad_bytes ps ks) = mjoin (parsed_pad_bytes <$> zip_with parse_pad ps ks).
Proof.
  revert ks. induction ps as [|p ps IH]; intros [|k ks]; try done. intros [= H].
  cbn [zip_with fmap list_fmap]. cbn [mjoin list_join]. rewrite pad_bytes_parsed. f_equal. by apply IH.
Qed.

Lemma written_file limits s st : Forall (entry_ok limits) (samples st) →
  length (pad_sample st) = length (pads s) →
  written s st = file_of s (encoded_bytes st) (zip_with parse_pad (pads s) (pad_sample st))
                   (fields_of <$> resolved_events s) (parse_sample <$> samples st).
Proof.
  intros He Hl. unfold written, file_of. rewrite header_bytes_front, mjoin_zip_pads by done.
  rewrite length_zip_with, !length_fmap. replace (Nat.min _ _) with (length (pads s)) by lia.
  assert (sample_entry <$> samples st = parsed_sample_bytes <$> (parse_sample <$> samples st)) as ->.
  { rewrite <- list_fmap_compose. apply list_fmap_ext. intros i e Hi.
    destruct (Forall_lookup_1 _ _ _ _ He Hi) as (_ & frames & Hok). by eapply sample_entry_parsed. }
  rewrite (list_fmap_compose fields_of event_bytes), <- !app_assoc. done.
Qed.

(** ** Parsing a file *)

(** The tables that the decoder builds from entries it accepts. *)
Record tables_ok (limits : RuntimeContentLimits) (loop : N) (qs : list ParsedPad)
    (es : list EventFields) (ss : list ParsedSample) (t : PadTable) (last : option EventFields) :
    Prop := {
  tables_counts : N.of_nat (length qs) ≤ 64 ∧ N.of_nat (length ss) ≤ N.of_nat (length qs) ∧
                  N.of_nat (length es) < 2 ^ 32;
  tables_limits : N.of_nat (length qs) ≤ maximum_pads limits ∧
                  N.of_nat (length es) ≤ maximum_events limits;
  tables_typed : Forall pad_typed qs ∧ Forall event_typed es ∧ Forall sample_typed ss;
  tables_pads : fold_result (check_pad (N.of_nat (length ss)))
                  (MkPadTable [] (replicate 64 None) (replicate 64 false) 0 0) qs = success t;
  tables_used : next_sample t = N.of_nat (length ss);
  tables_events : fold_result (check_event loop (slot_index t)) None es = success last;
  tables_samples : samples_sound limits ss;
  tables_play : fold_result (λ _ p,
      sample ← throwing (ss !! N.to_nat (sample_index p));
      validate_playback (parsed_playback p) (parsed_frames sample)) () qs = success ()
}.

Lemma validate_counts_success pads events samples limits u :
  validate_counts pads events samples limits = success u ↔
  pads ≤ 64 ∧ samples ≤ pads ∧ events < 2 ^ 32 ∧ pads ≤ maximum_pads limits ∧
  events ≤ maximum_events limits.
Proof.
  unfold validate_counts. split.
  - intros (? & H1%require_success & H)%result_bind_success.
    apply result_bind_success in H as (? & H2%require_success & H3%require_success).
    bool_to_prop. split_and!; lia.
  - intros (H1 & H2 & H3 & H4 & H5).
    rewrite (proj2 (N.leb_le _ _) H1), (proj2 (N.leb_le _ _) H2).
    rewrite (proj2 (N.leb_le events (2 ^ 32 - 1))) by lia. cbn [andb require mbind result_bind].
    rewrite (proj2 (N.leb_le _ _) H4), (proj2 (N.leb_le _ _) H5). by destruct u.
Qed.

Lemma parse_content_run limits s qs es ss t last bytes :
  timing_ok s → project_revision s < 2 ^ 64 →
  tables_ok limits (loop_length_ticks s) qs es ss t last →
  table_pads t = qs →
  bytes = file_of s (size bytes) qs es ss → size bytes < 2 ^ 64 →
  size bytes ≤ maximum_encoded_bytes limits →
  parse_content bytes (MkContentIdentity (hex (hash bytes)) (size bytes)) limits =
  success (MkParsedContent (bare s) qs (slot_index t) (mjoin (event_bytes <$> es))
             (N.of_nat (length es)) ss (sum_of parsed_bytes ss)).
Proof.
  intros Hs Hr [(Hq64 & Hsq & He32) (Hlp & Hle) (Tq & Te & Ts) Hpads Hnext Hev Hsound Hplay] Ht Hb H64 Hmax.
  pose proof (size_file s (size bytes) qs es ss Hs Ts) as Hsize. rewrite <- Hb in Hsize.
  unfold parse_content. rewrite (proj2 (N.leb_le _ _) Hmax). cbn [require mbind result_bind].
  rewrite (proj2 (N.leb_le kHeaderBytes (size bytes))) by lia. cbn [identity_byte_length identity_sha256].
  rewrite N.eqb_refl. cbn [andb require mbind result_bind].
  rewrite bool_decide_eq_true_2 by done. cbn [require mbind result_bind].
  assert (decode_header bytes bytes = success (bare s,
    append (N.of_nat (length qs)) 4 ++ append (N.of_nat (length es)) 4 ++
    append (N.of_nat (length ss)) 4 ++ mjoin (parsed_pad_bytes <$> qs) ++
    mjoin (event_bytes <$> es) ++ mjoin (parsed_sample_bytes <$> ss))) as ->.
  { rewrite Hb at 2. unfold file_of. by rewrite decode_header_run. }
  cbn [mbind result_bind]. rewrite !integer_4 by u_lia. cbn [mbind result_bind].
  rewrite integer_4 by u_lia. cbn [mbind result_bind].
  rewrite integer_4 by u_lia. cbn [mbind result_bind].
  rewrite (proj2 (validate_counts_success _ _ _ _ ())) by done. cbn [mbind result_bind].
  rewrite (multiply_small (N.of_nat (length qs)) kPadBytes) by (unfold kPadBytes; u_lia).
  cbn [mbind result_bind].
  rewrite take_bytes_append
    by (fold (size (mjoin (parsed_pad_bytes <$> qs))); rewrite size_pads; unfold kPadBytes; lia).
  cbn [mbind result_bind]. rewrite (multiply_small (N.of_nat (length es)) kEventBytes) by (unfold kEventBytes; u_lia).
  cbn [mbind result_bind].
  rewrite take_bytes_append
    by (fold (size (mjoin (event_bytes <$> es))); rewrite size_events; unfold kEventBytes; lia).
  cbn [mbind result_bind]. rewrite !Nat2N.id.
  rewrite <- (app_nil_r (mjoin (parsed_pad_bytes <$> qs))).
  rewrite (read_loop_run _ pad_typed _ (check_pad (N.of_nat (length ss))) qs _ t)
    by (done || apply decode_pad_run). cbn [mbind result_bind].
  rewrite Hnext, N.eqb_refl. cbn [require mbind result_bind].
  rewrite <- (app_nil_r (mjoin (event_bytes <$> es))) at 1.
  rewrite (read_loop_run _ event_typed _ (check_event (loop_length_ticks s) (slot_index t)) es _ last)
    by (done || apply decode_event_run). cbn [mbind result_bind].
  rewrite <- (app_nil_r (mjoin (parsed_sample_bytes <$> ss))).
  rewrite (read_loop_run _ sample_typed _ (check_sample limits) ss _
    (MkSampleTable ss (sum_of parsed_bytes ss)))
    by (done || apply decode_sample_run || by apply (samples_accepted limits [] ss)).
  cbn [mbind result_bind is_empty require table_samples total_pcm]. rewrite Ht, Hplay. done.
Qed.

Lemma check_pads_table count t qs t' : fold_result (check_pad count) t qs = success t' →
  table_pads t' = table_pads t ++ qs ∧ Forall (λ q, sample_index q < count) qs.
Proof.
  revert t. induction qs as [|q qs IH]; intros t; cbn [fold_result].
  { intros <-%success_inj. by rewrite app_nil_r. }
  intros (t1 & H & Hf)%result_bind_success.
  apply result_bind_success in H as (number & _ & H).
  apply result_bind_success in H as (? & _ & H).
  apply result_bind_success in H as (? & Hi%require_success & H).
  apply result_bind_success in H as (use & _ & <-%success_inj). bool_to_prop.
  apply IH in Hf as [-> Hall]. cbn [table_pads]. rewrite <- app_assoc. split; [done|by constructor].
Qed.

(** What a file that parses holds. *)
Record parsed_file (limits : RuntimeContentLimits) (bytes : list ascii) (id : RuntimeContentIdentity)
    (c : ParsedContent) (es : list EventFields) (t : PadTable) (last : option EventFields) : Prop := {
  file_identity : id = MkContentIdentity (hex (hash bytes)) (size bytes);
  file_timing : timing_ok (parsed_snapshot c);
  file_revision : project_revision (parsed_snapshot c) < 2 ^ 64;
  file_bare : bare (parsed_snapshot c) = parsed_snapshot c;
  file_tables : tables_ok limits (loop_length_ticks (parsed_snapshot c)) (parsed_pads c) es
                  (parsed_samples c) t last;
  file_pads : table_pads t = parsed_pads c;
  file_slots : parsed_slot_index c = slot_index t;
  file_events : parsed_event_bytes c = mjoin (event_bytes <$> es);
  file_event_count : parsed_event_count c = N.of_nat (length es);
  file_pcm : parsed_total_pcm c = sum_of parsed_bytes (parsed_samples c);
  file_bytes : bytes = file_of (parsed_snapshot c) (size bytes) (parsed_pads c) es (parsed_samples c);
  file_size : size bytes < 2 ^ 64 ∧ size bytes ≤ maximum_encoded_bytes limits
}.

Lemma parse_content_inv limits bytes id c : parse_content bytes id limits = success c →
  ∃ es t last, parsed_file limits bytes id c es t last.
Proof.
  intros (? & Hmax%require_success & H)%result_bind_success.
  apply result_bind_success in H as (? & Hlen%require_success & H).
  apply result_bind_success in H as (? & Hid%require_success & H).
  apply result_bind_success in H as ([s i1] & (Hs & Hr & Hbare & H64 & Hb)%decode_header_inv & H).
  apply result_bind_success in H as ([np i2] & [_ ->]%(integer_success 4) & H).
  apply result_bind_success in H as ([ne i3] & [_ ->]%(integer_success 4) & H).
  apply result_bind_success in H as ([ns i4] & [_ ->]%(integer_success 4) & H).
  apply result_bind_success in H as (? & (C1 & C2 & C3 & C4 & C5)%validate_counts_success & H).
  apply result_bind_success in H as (pb & Hpb%multiply_success & H).
  apply result_bind_success in H as ([pi i5] & [Hpl ->]%take_bytes_success & H).
  apply result_bind_success in H as (eb & Heb%multiply_success & H).
  apply result_bind_success in H as ([ei i6] & [Hel ->]%take_bytes_success & H).
  apply result_bind_success in H as ([t rp] & Hp & H).
  apply (read_loop_inv _ pad_typed parsed_pad_bytes (check_pad ns)) in Hp
    as (qs & Hqs & Tq & -> & Hcp); [|apply decode_pad_inv].
  apply result_bind_success in H as (? & Hused%require_success & H).
  apply result_bind_success in H as ([last re] & He & H).
  apply (read_loop_inv _ event_typed event_bytes (check_event (loop_length_ticks s) (slot_index t))) in He
    as (es & Hes & Te & -> & Hce); [|apply decode_event_inv].
  apply result_bind_success in H as ([q rs] & Hq & H).
  apply (read_loop_inv _ sample_typed parsed_sample_bytes (check_sample limits)) in Hq
    as (ss & Hss & Ts & -> & Hcs); [|apply decode_sample_inv].
  apply result_bind_success in H as (? & Hrest%require_success & H).
  apply result_bind_success in H as ([] & Hplay & <-%success_inj).
  destruct rs; [|done]. bool_to_prop.
  apply (samples_checked limits ss q []) in Hcs as [-> Hsound]; [|split; cbn; try constructor; lia].
  cbn [table_samples total_pcm app] in *.
  assert (np = N.of_nat (length qs)) as -> by lia. assert (ne = N.of_nat (length es)) as -> by lia.
  assert (ns = N.of_nat (length ss)) as -> by lia.
  pose proof (size_pads qs) as Lq. pose proof (size_events es) as Le.
  unfold size, kPadBytes, kEventBytes in Lq, Le, Hpb, Heb. rewrite length_app in Hpl, Hel.
  assert (rp = []) as -> by (apply nil_length_inv; lia).
  assert (re = []) as -> by (apply nil_length_inv; lia).
  destruct id as [sha len]. cbn [identity_sha256 identity_byte_length] in *. subst sha len.
  apply check_pads_table in Hcp as Htable. destruct Htable as [Htable _].
  cbn [table_pads app] in Htable. rewrite Htable in *. rewrite !app_nil_r in *.
  exists es, t, last. split; cbn [parsed_snapshot parsed_pads parsed_slot_index parsed_event_bytes
    parsed_event_count parsed_samples parsed_total_pcm]; done.
Qed.

(** ** Building the snapshot *)

(** A loop that appends a result for each element. *)
Lemma fold_append_success {A B} (f : A → Result B) l acc r :
  fold_result (λ acc a, o ← f a; success (acc ++ [o])) acc l = success r ↔
  ∃ os, r = acc ++ os ∧ Forall2 (λ a o, f a = success o) l os.
Proof.
  revert acc. induction l as [|a l IH]; intros acc; cbn [fold_result].
  { split; [intros <-%success_inj; exists []; by rewrite app_nil_r|].
    intros (os & -> & ->%Forall2_nil_inv_l). by rewrite app_nil_r. }
  split.
  - intros (s1 & (o & Ho & <-%success_inj)%result_bind_success & Hf)%result_bind_success.
    apply IH in Hf as (os & -> & Hos). exists (o :: os). rewrite <- app_assoc. split; [done|].
    by constructor.
  - intros (os & -> & (o & os' & Ho & Hos & ->)%Forall2_cons_inv_l). rewrite Ho.
    cbn [mbind result_bind]. apply IH. exists os'. by rewrite <- app_assoc.
Qed.

(** The sample that a parsed sample stands for. *)
Record owns (q : ParsedSample) (o : PcmSample) : Prop := {
  owns_rate : sample_rate o = 48000;
  owns_channels : channels o = parsed_channels q;
  owns_words : Forall int16 (interleaved o);
  owns_pcm : parsed_pcm q = mjoin (pcm_bytes_of <$> interleaved o)
}.

Lemma owner_run q o : owns q o → owner q = success o.
Proof.
  intros [Hr Hc Hw Hp]. unfold owner. rewrite Hp, read_words_run by (done || rewrite length_words; lia).
  cbn [mbind result_bind]. rewrite <- Hr, <- Hc. by destruct o.
Qed.

Lemma owner_total q : sample_typed q → ∃ o, owner q = success o ∧ owns q o.
Proof.
  intros [_ Hc _ Hp _].
  destruct (read_words_total (N.to_nat (parsed_frames q * parsed_channels q)) (parsed_pcm q)
    (length (parsed_pcm q))) as (l & Hl & _ & Hw & E); [lia..|].
  assert (owns q (MkPcmSample 48000 (parsed_channels q) l)) as Ho by by split.
  eexists. split; [by apply owner_run|done].
Qed.

(** Its encoded form parses to it. *)
Lemma describe_owned limits q o : sample_typed q → owns q o →
  parsed_frames q ≤ maximum_sample_frames limits → hash (body_of q) = parsed_digest q →
  sample_ok limits o (parsed_frames q) ∧ parse_sample (describe o) = q.
Proof.
  intros [_ Hch Hf Hp Hb] [Hr Hc Hw Hpcm] Hl Hd.
  assert (sample_ok limits o (parsed_frames q)) as Hok.
  { split; try done; rewrite Hc; try done. rewrite Hpcm, length_words in Hp. unfold sample_size. lia. }
  split; [done|].
  assert (body_of q = sample_body o) as E.
  { unfold body_of, sample_body. rewrite (sample_header_append _ _ _ Hok), <- Hpcm, Hc.
    by rewrite <- !app_assoc. }
  assert (bytes_of_sample o = parsed_frames q * (parsed_channels q * 2)) as Eb.
  { unfold bytes_of_sample. rewrite (ok_size _ _ _ Hok), Hc. lia. }
  unfold parse_sample, describe.
  cbn [encoded_pcm encoded_digest encoded_body_bytes].
  rewrite (sample_ok_frames _ _ _ Hok), sample_hash_spec, <- E, Hd, Hc, <- Hpcm, Eb, <- Hb.
  by destruct q.
Qed.

(** The Pad of a parsed Pad. *)
Definition pad_of (ss : list ParsedSample) (os : list PcmSample) (q : ParsedPad) (p : Pad) : Prop :=
  ∃ sample o, ss !! N.to_nat (sample_index q) = Some sample ∧
    os !! N.to_nat (sample_index q) = Some o ∧
    p = MkResolvedPad (parsed_slot q)
          (MkArtifactRef (hex (parsed_digest sample)) kRuntimePcmMediaType (parsed_body_bytes sample))
          o (parsed_playback q).

Lemma owned_pad_success ss os q p : owned_pad ss os q = success p ↔ pad_of ss os q p.
Proof.
  unfold owned_pad. split.
  - intros (sample & H1%throwing_success & H)%result_bind_success.
    apply result_bind_success in H as (o & H2%throwing_success & <-%success_inj). by eexists _, _.
  - intros (sample & o & H1 & H2 & ->). rewrite H1. cbn [throwing mbind result_bind]. by rewrite H2.
Qed.

Lemma content_snapshot_run c es os ps evs :
  Forall event_typed es → parsed_event_bytes c = mjoin (event_bytes <$> es) →
  parsed_event_count c = N.of_nat (length es) →
  Forall2 owns (parsed_samples c) os → Forall2 (pad_of (parsed_samples c) os) (parsed_pads c) ps →
  fold_result (resolve_event (parsed_slot_index c) ps) [] es = success evs →
  content_snapshot c =
  success (let s := parsed_snapshot c in
    MkRuntimeSnapshot (snapshot_project_id s) (snapshot_pattern_id s) (project_revision s)
      (snapshot_bpm s) (snapshot_bars s) (ppq s) (loop_length_ticks s) ps evs).
Proof.
  intros Te Hb Hn Hos Hps Hev. unfold content_snapshot.
  assert (fold_result (λ l sample, o ← owner sample; success (l ++ [o])) [] (parsed_samples c) =
          success os) as ->.
  { apply fold_append_success. exists os. split; [done|]. eapply Forall2_impl; [exact Hos|].
    apply owner_run. }
  cbn [mbind result_bind].
  assert (fold_result (λ l p, o ← owned_pad (parsed_samples c) os p; success (l ++ [o])) []
            (parsed_pads c) = success ps) as ->.
  { apply fold_append_success. exists ps. split; [done|]. eapply Forall2_impl; [exact Hps|].
    intros. by apply owned_pad_success. }
  cbn [mbind result_bind]. rewrite Hn, Hb, Nat2N.id.
  rewrite <- (app_nil_r (mjoin (event_bytes <$> es))).
  rewrite (read_loop_run _ event_typed _ (resolve_event (parsed_slot_index c) ps) es _ evs)
    by (done || apply reread_event_run). done.
Qed.
End laws.
