(* ===== verification/ContentRoundtrip.v ===== *)
(** The theorems on runtime content.

    Decoding what the encoder wrote gives the snapshot back; what the decoder
    accepts, the encoder writes again byte for byte; the inspector and the decoder
    agree on every input. *)

From S2P Require Import Prelude Json Foundation Text Project Playback Wav WavLaws Cooker RuntimeContent ContentTables ContentLoops ContentLaws.

Section roundtrip.
Context `{JL : JsonLib} `{HW : HashLaws}.
Abbreviation Playback := (ResolvedPlayback (float := N)).
Abbreviation Pad := (ResolvedPad (float := N)).
Abbreviation Snapshot := (RuntimeSnapshot (float := N)).

(** ** Loops without state *)

Lemma fold_unit_success {A} (f : A → Result ()) l :
  fold_result (λ _ a, f a) () l = success () ↔ Forall (λ a, f a = success ()) l.
Proof.
  induction l as [|a l IH]; cbn [fold_result]; [done|]. rewrite Forall_cons, <- IH. split.
  - intros ([] & H & Hf)%result_bind_success. done.
  - intros [-> H]. exact H.
Qed.

Lemma check_pads_slots count t qs t' : fold_result (check_pad count) t qs = success t' →
  Forall (λ q, is_valid_slot (parsed_slot q) = true) qs.
Proof.
  revert t. induction qs as [|q qs IH]; intros t; cbn [fold_result]; [done|].
  intros (t1 & H & Hf)%result_bind_success. constructor; [|by eapply IH].
  apply result_bind_success in H as (number & Hn & _). unfold slot_number in Hn.
  by apply result_bind_success in Hn as (? & ?%require_success & _).
Qed.

Lemma check_events_valid loop index es previous last :
  fold_result (check_event loop index) previous es = success last →
  Forall (λ e, ∃ u, validate_event e loop = success u) es.
Proof.
  revert previous. induction es as [|e es IH]; intros previous; cbn [fold_result]; [done|].
  intros (t1 & H & Hf)%result_bind_success. constructor; [|by eapply IH].
  apply result_bind_success in H as (u & Hu & _). by exists u.
Qed.

Lemma valid_slot_small s : is_valid_slot s = true → bank s < 256 ∧ pad s < 256.
Proof. unfold is_valid_slot. intros H. bool_to_prop. lia. Qed.

Lemma valid_event_typed e loop u : loop < 2 ^ 32 → validate_event e loop = success u → event_typed e.
Proof.
  intros Hl (number & Hn & H%require_success)%result_bind_success. unfold slot_number in Hn.
  apply result_bind_success in Hn as (? & [Hb Hp]%require_success%valid_slot_small & _).
  bool_to_prop. split; try done; [lia|lia|].
  eapply N.le_lt_trans; [eassumption|]. apply wrap_lt.
Qed.

Lemma timing_loop s : timing_ok s → loop_length_ticks s < 2 ^ 32.
Proof. intros [_ _ _ Hb _ ->]. by destruct Hb as [-> | [-> | [-> | ->]]]. Qed.

(** ** Snapshots that fit their types, and samples that do not collide *)

(** The values of the snapshot are values of their C++ types. *)
Record content_typed (s : Snapshot) : Prop := {
  typed_project_revision : project_revision s < 2 ^ 64;
  typed_pads : Forall (λ p, Forall int16 (interleaved (resolved_pad_sample p)) ∧
                            linear_gain (resolved_playback p) < 2 ^ 32) (pads s)
}.

(** The hash tells the samples of this snapshot apart. *)
Definition no_collision (s : Snapshot) : Prop :=
  ∀ p q, p ∈ pads s → q ∈ pads s →
    hash (sample_body (resolved_pad_sample p)) = hash (sample_body (resolved_pad_sample q)) →
    sample_body (resolved_pad_sample p) = sample_body (resolved_pad_sample q).

(** What the file keeps of a Pad: the Artifact is the sample in the file. *)
Definition portable_pad (p : Pad) : Pad :=
  MkResolvedPad (resolved_pad_slot p)
    (MkArtifactRef (hex (sample_hash (resolved_pad_sample p))) kRuntimePcmMediaType
       (12 + bytes_of_sample (resolved_pad_sample p)))
    (resolved_pad_sample p) (resolved_playback p).

Definition portable (s : Snapshot) : Snapshot :=
  MkRuntimeSnapshot (snapshot_project_id s) (snapshot_pattern_id s) (project_revision s)
    (snapshot_bpm s) (snapshot_bars s) (ppq s) (loop_length_ticks s) (portable_pad <$> pads s)
    (resolved_events s).

Lemma append_inj v w width : v < 2 ^ (8 * N.of_nat width) → w < 2 ^ (8 * N.of_nat width) →
  append v width = append w width → v = w.
Proof.
  intros Hv Hw E. rewrite <- (le_value_append v width), <- (le_value_append w width) by done.
  by rewrite E.
Qed.

Lemma sample_body_inj limits p q fp fq : sample_ok limits p fp → sample_ok limits q fq →
  Forall int16 (interleaved p) → Forall int16 (interleaved q) →
  sample_body p = sample_body q → p = q.
Proof.
  intros Hp Hq Ip Iq. unfold sample_body.
  rewrite (sample_header_append _ _ _ Hp), (sample_header_append _ _ _ Hq), <- !app_assoc.
  intros E. apply app_inv_head in E. apply app_inj_1 in E as [Ec E]; [|by rewrite !length_append].
  apply app_inv_head in E. apply app_inj_1 in E as [_ E]; [|by rewrite !length_append].
  destruct Hp as [Rp Cp _ _ _], Hq as [Rq Cq _ _ _].
  apply (append_inj _ _ 2) in Ec;
    [|destruct Cp as [-> | ->]; done|destruct Cq as [-> | ->]; done].
  assert (interleaved p = interleaved q) as El.
  { apply success_inj.
    rewrite <- (read_words_run (interleaved p) (length (interleaved p) + length (interleaved q))) by (done || lia).
    rewrite <- (read_words_run (interleaved q) (length (interleaved p) + length (interleaved q))) by (done || lia).
    by rewrite E. }
  destruct p, q. cbn in *. congruence.
Qed.

(** ** What the encoder leaves behind *)

(** The bytes of the header and the two tables. *)
Definition start_bytes (s : Snapshot) : N :=
  kHeaderBytes + (N.of_nat (length (pads s)) * kPadBytes +
                  N.of_nat (length (resolved_events s)) * kEventBytes).

Record encoded_file (limits : RuntimeContentLimits) (s : Snapshot) (st : PadLoop)
    (last : option ResolvedEvent) (e : EncodedRuntimeContent) : Prop := {
  written_timing : timing_ok s;
  written_counts : (length (pads s) ≤ 64)%nat ∧ N.of_nat (length (resolved_events s)) < 2 ^ 32 ∧
                   N.of_nat (length (pads s)) ≤ maximum_pads limits ∧
                   N.of_nat (length (resolved_events s)) ≤ maximum_events limits;
  written_start : start_bytes s ≤ maximum_encoded_bytes limits;
  written_pads : fold_result (encode_pad limits)
                   (MkPadLoop [] [] (replicate 64 None) 0 (start_bytes s) 0) (pads s) = success st;
  written_events : fold_result (encode_event (loop_length_ticks s) (by_slot st)) None
                     (resolved_events s) = success last;
  written_bytes : e = MkEncodedContent (MkContentIdentity (hex (hash (written s st))) (encoded_bytes st))
                        (written s st)
}.

Lemma encode_success limits s e :
  encode s limits = success e ↔ ∃ st last, encoded_file limits s st last e.
Proof.
  unfold encode. split.
  - intros (? & Ht%validate_pattern_success & H)%result_bind_success.
    apply result_bind_success in H as (? & (C1 & _ & C3 & C4 & C5)%validate_counts_success & H).
    apply result_bind_success in H as (pb & ->%multiply_success & H).
    apply result_bind_success in H as (eb & ->%multiply_success & H).
    apply result_bind_success in H as (tables & [_ ->]%add_success & H).
    apply result_bind_success in H as (start & [_ ->]%add_success & H).
    apply result_bind_success in H as (? & Hs%require_success & H).
    apply result_bind_success in H as (st & Hst & H).
    apply result_bind_success in H as (last & Hl & <-%success_inj). bool_to_prop.
    exists st, last. split; try done. split_and!; [lia|done..].
  - intros (st & last & [Ht (C1 & C3 & C4 & C5) Hs Hst Hl ->]).
    rewrite (proj2 (validate_pattern_success s ()) Ht). cbn [mbind result_bind].
    rewrite (proj2 (validate_counts_success _ _ _ _ ())) by (split_and!; first [lia|done]).
    cbn [mbind result_bind]. unfold start_bytes, kHeaderBytes, kPadBytes, kEventBytes in *.
    rewrite multiply_small by u_lia. cbn [mbind result_bind].
    rewrite multiply_small by u_lia. cbn [mbind result_bind].
    rewrite add_small by u_lia. cbn [mbind result_bind].
    rewrite add_small by u_lia. cbn [mbind result_bind].
    rewrite (proj2 (N.leb_le _ _) Hs). cbn [require mbind result_bind].
    rewrite Hst. cbn [mbind result_bind]. by rewrite Hl.
Qed.

Lemma encoded_start limits s : start_bytes s ≤ maximum_encoded_bytes limits → start_bytes s < 2 ^ 64 →
  encoded limits (start_bytes s) [] (MkPadLoop [] [] (replicate 64 None) 0 (start_bytes s) 0).
Proof.
  intros Hl H64. split; cbn; try constructor; done || lia.
Qed.

Lemma agree_start start : agree [] (MkPadLoop [] [] (replicate 64 None) 0 start 0)
  (MkPadTable [] (replicate 64 None) (replicate 64 false) 0 0).
Proof. split; try done. apply Forall2_replicate. constructor. Qed.

Lemma encoded_entries limits start s st : encoded limits start (pads s) st →
  Forall (entry_ok limits) (samples st).
Proof.
  intros He. eapply Forall_impl; [exact (enc_from _ _ _ _ He)|]. intros e (Hd & p & Hp & E).
  split; [done|]. rewrite E.
  destruct (proj1 (Forall_forall _ _) (enc_pads _ _ _ _ He) p Hp) as (frames & Hok & _).
  by exists frames.
Qed.

(** Each Pad's entry describes its sample. *)
Lemma encoded_indices limits start s st : encoded limits start (pads s) st →
  content_typed s → no_collision s →
  Forall2 (λ p k, samples st !! N.to_nat k = Some (describe (resolved_pad_sample p)))
    (pads s) (pad_sample st).
Proof.
  intros He [_ Ht] Hn. apply Forall2_same_length_lookup_2.
  { by eapply Forall2_length, enc_index. }
  intros i p k Hp Hk.
  destruct (Forall2_lookup_lr _ _ _ _ _ _ (enc_index _ _ _ _ He) Hp Hk) as (e & Hl & Hkey).
  destruct (Forall_lookup_1 _ _ _ _ (enc_from _ _ _ _ He) Hl) as (Hd & q & Hq & Eq).
  apply list_elem_of_lookup_2 in Hp.
  rewrite Hl, Hd, Eq. rewrite Hd, Eq in Hkey. do 2 f_equal.
  pose proof (proj1 (Forall_forall _ _) (enc_pads _ _ _ _ He)) as Hok.
  destruct (Hok p Hp) as (fp & Hfp & _), (Hok q Hq) as (fq & Hfq & _).
  rewrite Forall_forall in Ht. symmetry.
  eapply sample_body_inj; [exact Hfp|exact Hfq|by apply Ht|by apply Ht|].
  apply Hn; [done|done|]. rewrite <- !sample_hash_spec.
  unfold key, describe in Hkey. cbn [encoded_digest] in Hkey. congruence.
Qed.

Lemma plays_bounds p frames : plays p frames → frames < 2 ^ 32 →
  resolved_start_frame p < 2 ^ 32 ∧ resolved_end_frame p < 2 ^ 32 ∧ dsp p = neutral_dsp.
Proof.
  intros (? & H1%require_success & H2%require_success)%result_bind_success Hf.
  bool_to_prop. split_and!; [lia|lia|]. unfold is_neutral in H2. by apply bool_decide_eq_true_1 in H2.
Qed.

(** The rows of the Pads fit their fields. *)
Lemma encoded_pads_typed limits start s st t :
  content_typed s → (length (pads s) <= 64)%nat → encoded limits start (pads s) st →
  fold_result (check_pad (N.of_nat (length (samples st))))
    (MkPadTable [] (replicate 64 None) (replicate 64 false) 0 0)
    (zip_with parse_pad (pads s) (pad_sample st)) = success t →
  Forall pad_typed (zip_with parse_pad (pads s) (pad_sample st)).
Proof.
  intros Hty C1 He Ht. destruct (check_pads_table _ _ _ _ Ht) as [_ Hbound].
  pose proof (check_pads_slots _ _ _ _ Ht) as Hslots. pose proof (enc_count _ _ _ _ He) as Hcount.
  apply Forall_lookup_2. intros i q Hq.
  apply lookup_zip_with_Some in Hq as Hq'. destruct Hq' as (p & k & -> & Hp & Hk).
  apply (Forall_lookup_1 _ _ _ _ Hslots) in Hq as Hslot.
  apply (Forall_lookup_1 _ _ _ _ Hbound) in Hq as Hb. cbn in Hslot, Hb.
  destruct (Forall_lookup_1 _ _ _ _ (enc_pads _ _ _ _ He) Hp) as (frames & Hok & Hpl).
  destruct (plays_bounds _ _ Hpl (proj2 (ok_frames _ _ _ Hok))) as (B1 & B2 & B3).
  destruct (Forall_lookup_1 _ _ _ _ (typed_pads _ Hty) Hp) as [_ Hg].
  destruct (valid_slot_small _ Hslot). split; cbn; try done. u_lia.
Qed.

(** The decoder accepts the tables of an encoded file. *)
Lemma encoded_tables limits s st last e :
  content_typed s → no_collision s → encoded_file limits s st last e →
  encoded limits (start_bytes s) (pads s) st →
  ∃ t, tables_ok limits (loop_length_ticks s) (zip_with parse_pad (pads s) (pad_sample st))
         (fields_of <$> resolved_events s) (parse_sample <$> samples st) t (fields_of <$> last) ∧
       agree (pads s) st t.
Proof.
  intros Hty Hnc [Hs (C1 & C3 & C4 & C5) Hst Hf Hev _] He.
  pose proof (encoded_entries _ _ _ _ He) as Hent.
  pose proof (encoded_indices _ _ _ _ He Hty Hnc) as Hidx.
  assert (start_bytes s < 2 ^ 64) as H64
    by (unfold start_bytes, kHeaderBytes, kPadBytes, kEventBytes; u_lia).
  destruct (loops_encoded limits (start_bytes s) (N.of_nat (length (samples st))) (pads s) [] _ _ _
    (agree_start _) (encoded_start limits s Hst H64) Hf) as (t & ks & Ht & Hlk & Hks & Ha & _);
    [cbn; lia|done|].
  cbn [app pad_sample] in Hks, Ha. subst ks. exists t. split; [|done].
  pose proof (events_checked _ _ _ _ _ _ _ (agree_cells _ _ _ Ha) Hev) as Hce.
  pose proof (enc_count _ _ _ _ He) as Hcount.
  destruct (parse_samples_sound limits (samples st) Hent (enc_distinct _ _ _ _ He)) as [Hsound _].
  { rewrite <- (enc_pcm _ _ _ _ He). apply (enc_pcm_fits _ _ _ _ He). }
  { rewrite <- (enc_pcm _ _ _ _ He). apply (enc_pcm_fits _ _ _ _ He). }
  assert (length (zip_with parse_pad (pads s) (pad_sample st)) = length (pads s)) as Hlen
    by (rewrite length_zip_with; lia).
  split; rewrite ?Hlen, ?length_fmap; try done.
  - split_and!; [lia|lia|done].
  - split_and!.
    + by apply (encoded_pads_typed limits (start_bytes s) s st t).
    + apply check_events_valid in Hce. eapply Forall_impl; [exact Hce|]. intros ev (u & Hu).
      eapply valid_event_typed; [by apply timing_loop|exact Hu].
    + apply Forall_fmap. eapply Forall_impl; [exact Hent|]. intros ent (Hd & frames & Hok).
      eapply parse_sample_typed; [exact Hok|]. unfold describes.
      rewrite Hd at 1 3. split; [done|]. done.
  - exact (agree_next _ _ _ Ha).
  - apply fold_unit_success. apply Forall_lookup_2. intros i q Hq.
    apply lookup_zip_with_Some in Hq as (p & k & -> & Hp & Hk).
    pose proof (Forall2_lookup_lr _ _ _ _ _ _ Hidx Hp Hk) as Hl.
    cbn [parse_pad sample_index parsed_playback]. rewrite list_lookup_fmap, Hl.
    cbn [fmap option_fmap option_map throwing mbind result_bind].
    destruct (Forall_lookup_1 _ _ _ _ (enc_pads _ _ _ _ He) Hp) as (frames & Hok & Hpl).
    unfold parse_sample. cbn [parsed_frames describe encoded_pcm].
    rewrite (sample_ok_frames _ _ _ Hok). exact Hpl.
Qed.

(** ** The round trip *)

Lemma guarded_success {A} (r : Result A) a : guarded r = success a ↔ r = success a.
Proof. by destruct r. Qed.

Lemma file_of_bare s total qs es ss : file_of (bare s) total qs es ss = file_of s total qs es ss.
Proof. done. Qed.

Lemma encoded_total limits s st : encoded limits (start_bytes s) (pads s) st → timing_ok s →
  Forall sample_typed (parse_sample <$> samples st) → length (pad_sample st) = length (pads s) →
  size (file_of s (encoded_bytes st) (zip_with parse_pad (pads s) (pad_sample st))
          (fields_of <$> resolved_events s) (parse_sample <$> samples st)) = encoded_bytes st.
Proof.
  intros He Hs Ht Hl. rewrite size_file by done. rewrite length_zip_with, length_fmap.
  replace (Nat.min _ _) with (length (pads s)) by lia.
  rewrite (enc_bytes _ _ _ _ He), sum_of_fmap. fold (start_bytes s). f_equal.
  apply sum_of_ext. eapply Forall_impl; [exact (encoded_entries _ _ _ _ He)|].
  intros e (_ & frames & Hok). cbn. f_equal. by eapply parsed_bytes_of.
Qed.

Lemma encoded_owners limits s st : encoded limits (start_bytes s) (pads s) st → content_typed s →
  Forall2 owns (parse_sample <$> samples st) (encoded_pcm <$> samples st).
Proof.
  intros He [_ Ht]. apply Forall2_fmap, Forall_Forall2_diag.
  rewrite Forall_forall in Ht. apply Forall_forall. intros e Hin.
  destruct (proj1 (Forall_forall _ _) (encoded_entries _ _ _ _ He) e Hin) as (_ & frames & Hok).
  destruct (proj1 (Forall_forall _ _) (enc_from _ _ _ _ He) e Hin) as (_ & p & Hp & E).
  split; [by destruct Hok|done| |done]. rewrite E. by apply Ht.
Qed.

Lemma encoded_pads s st :
  Forall2 (λ p k, samples st !! N.to_nat k = Some (describe (resolved_pad_sample p)))
    (pads s) (pad_sample st) →
  Forall2 (pad_of (parse_sample <$> samples st) (encoded_pcm <$> samples st))
    (zip_with parse_pad (pads s) (pad_sample st)) (portable_pad <$> pads s).
Proof.
  intros H. apply Forall2_fmap_r. induction H as [|p k ps ks Hp _ IH]; [constructor|].
  cbn [zip_with]. constructor; [|exact IH]. unfold pad_of. cbn [parse_pad sample_index].
  rewrite !list_lookup_fmap, Hp. by eexists _, _.
Qed.

(** C19: Decoding what the encoder of runtime content wrote gives the snapshot back.
    For a snapshot whose values fit their C++ types and whose samples the hash
    tells apart, when encoding succeeds under some limits, decoding the bytes with
    the identity that came with them succeeds under the same limits and returns
    the same snapshot: identities, tempo, Pads with their playback and PCM, and
    events in order; only the Artifact of each Pad is replaced, by the digest,
    media type and length of its sample in the file. *)
Theorem content_roundtrip limits s e :
  content_typed s → no_collision s → encode_runtime_content s limits = success e →
  decode_runtime_content (content_bytes e) (content_identity e) limits = success (portable s).
Proof.
  intros Hty Hnc (st & last & Hfile)%guarded_success%encode_success. apply guarded_success.
  pose proof Hfile as [Hs _ Hst Hf Hev ->].
  assert (start_bytes s < 2 ^ 64) as H64.
  { destruct (written_counts _ _ _ _ _ Hfile) as (? & ? & _).
    unfold start_bytes, kHeaderBytes, kPadBytes, kEventBytes. u_lia. }
  destruct (loops_encoded limits (start_bytes s) (N.of_nat (length (samples st))) (pads s) [] _ _ _
    (agree_start _) (encoded_start limits s Hst H64) Hf) as (_ & _ & _ & _ & _ & _ & He);
    [by destruct (written_counts _ _ _ _ _ Hfile)|done|].
  destruct (encoded_tables _ _ _ _ _ Hty Hnc Hfile He) as (t & Htab & Ha).
  pose proof (encoded_indices _ _ _ _ He Hty Hnc) as Hidx.
  destruct (tables_typed _ _ _ _ _ _ _ Htab) as (_ & Te & Ts).
  pose proof (agree_length _ _ _ Ha) as Hlen.
  pose proof (encoded_total _ _ _ He Hs Ts Hlen) as Hsize.
  pose proof (written_file limits s st (encoded_entries _ _ _ _ He) Hlen) as Hw.
  assert (size (written s st) = encoded_bytes st) as Hb by by rewrite Hw.
  cbn [content_bytes content_identity]. rewrite <- Hb.
  rewrite (parse_content_run limits s (zip_with parse_pad (pads s) (pad_sample st))
    (fields_of <$> resolved_events s) (parse_sample <$> samples st) t (fields_of <$> last)
    (written s st)).
  - cbn [mbind result_bind].
    rewrite (content_snapshot_run _ (fields_of <$> resolved_events s) (encoded_pcm <$> samples st)
      (portable_pad <$> pads s) (resolved_events s)); [reflexivity|exact Te|done|done| | |].
    + by apply (encoded_owners limits s st).
    + by apply (encoded_pads s st).
    + cbn [parsed_slot_index].
      eapply (events_resolved (pads s) (portable_pad <$> pads s)); [exact (agree_cells _ _ _ Ha)| |done].
      apply Forall2_fmap_r, Forall_Forall2_diag, Forall_forall. done.
  - done.
  - exact (typed_project_revision _ Hty).
  - exact Htab.
  - exact (agree_pads _ _ _ Ha).
  - by rewrite Hb.
  - rewrite Hb. apply (enc_bytes_fit _ _ _ _ He).
  - rewrite Hb. apply (enc_bytes_fit _ _ _ _ He).
Qed.

(** ** What the decoder builds *)

(** Events that the decoder checked resolve to Pads. *)
Lemma events_built ps cells index loop es previous last acc :
  Forall2 (cell_agrees ps) cells index →
  fold_result (check_event loop index) previous es = success last →
  ∃ evs, fold_result (resolve_event index ps) acc es = success (acc ++ evs) ∧
         fields_of <$> evs = es ∧
         Forall (λ e, ∀ number i p, slot_number (resolved_slot e) = success number →
           index !! N.to_nat number = Some (Some i) → ps !! i = Some p →
           resolved_sample e = resolved_pad_sample p) evs.
Proof.
  intros Hc. revert previous acc. induction es as [|e es IH]; intros previous acc; cbn [fold_result].
  { intros _. exists []. rewrite app_nil_r. by split_and!. }
  intros (next & H & Hf)%result_bind_success.
  apply result_bind_success in H as (? & _ & H).
  apply result_bind_success in H as (? & _ & H).
  apply result_bind_success in H as (number & Hn & H).
  apply result_bind_success in H as (cell & Hcell%throwing_success & H).
  apply result_bind_success in H as (? & Hval%require_success & _).
  destruct cell as [i|]; [|done].
  destruct (Forall2_lookup_r _ _ _ _ _ Hc Hcell) as (o & Hj & Hcj).
  inversion Hcj as [|p ? Hi]; subst.
  set (ev := MkResolvedEvent (field_slot e) (field_onset e) (field_duration e) (field_velocity e)
               (resolved_pad_sample p)).
  destruct (IH _ (acc ++ [ev]) Hf) as (evs & Hr & He & Hs).
  exists (ev :: evs). split_and!.
  - unfold resolve_event at 2. rewrite Hn. cbn [mbind result_bind]. rewrite Hcell.
    cbn [throwing mbind result_bind]. rewrite Hi. cbn [throwing mbind result_bind]. fold ev.
    by rewrite Hr, <- app_assoc.
  - rewrite fmap_cons, He. f_equal. by destruct e.
  - constructor; [|exact Hs]. intros number' i' p' Hn' Hi' Hp'. change (resolved_slot ev) with (field_slot e) in Hn'.
    rewrite Hn in Hn'. apply success_inj in Hn' as <-. rewrite Hcell in Hi'. injection Hi' as <-.
    rewrite Hi in Hp'. by injection Hp' as <-.
Qed.

Lemma owners_exist ss : Forall sample_typed ss → ∃ os, Forall2 owns ss os.
Proof.
  induction 1 as [|q ss Hq _ (os & IH)]; [by exists []|].
  destruct (owner_total q Hq) as (o & _ & Ho). exists (o :: os). by constructor.
Qed.

Lemma pads_exist ss os qs : Forall2 owns ss os →
  Forall (λ q, sample_index q < N.of_nat (length ss)) qs → ∃ ps, Forall2 (pad_of ss os) qs ps.
Proof.
  intros Hos. induction 1 as [|q qs Hq _ (ps & IH)]; [by exists []|].
  destruct (lookup_lt_is_Some_2 ss (N.to_nat (sample_index q))) as [x Hx]; [lia|].
  destruct (Forall2_lookup_l _ _ _ _ _ Hos Hx) as (o & Ho & _).
  eexists (_ :: ps). constructor; [|exact IH]. by eexists _, _.
Qed.

(** The decoded samples, as the encoder describes them, parse to the table. *)
Lemma table_parses limits ss os : Forall sample_typed ss → samples_sound limits ss →
  Forall2 owns ss os →
  Forall2 (λ q o, sample_ok limits o (parsed_frames q) ∧ parse_sample (describe o) = q) ss os.
Proof.
  intros Ht [Hf _ Hd _] Hos. apply Forall2_same_length_lookup_2; [by eapply Forall2_length|].
  intros i q o Hq Ho. apply describe_owned.
  - by eapply Forall_lookup_1 in Ht.
  - by eapply Forall2_lookup_lr in Hos.
  - by apply (Forall_lookup_1 _ _ _ _ Hf Hq).
  - by apply (Forall_lookup_1 _ _ _ _ Hd Hq).
Qed.

Lemma parse_table limits ss os :
  Forall2 (λ q o, sample_ok limits o (parsed_frames q) ∧ parse_sample (describe o) = q) ss os →
  parse_sample <$> (describe <$> os) = ss ∧ Forall (entry_ok limits) (describe <$> os).
Proof.
  induction 1 as [|q o ss os [Hok Hq] _ [IH1 IH2]]; [done|]. rewrite !fmap_cons. split; [by f_equal|].
  constructor; [|done]. split; [done|]. by eexists.
Qed.

(** Each Pad that is built plays an entry of the table. *)
Lemma pads_play limits ss os qs ps :
  Forall2 (λ q o, sample_ok limits o (parsed_frames q) ∧ parse_sample (describe o) = q) ss os →
  fold_result (λ _ p, sample ← throwing (ss !! N.to_nat (sample_index p));
                      validate_playback (parsed_playback p) (parsed_frames sample)) () qs = success () →
  Forall2 (pad_of ss os) qs ps → Forall2 (plays_entry limits (describe <$> os)) ps qs.
Proof.
  intros Hss Hplay%fold_unit_success Hps. apply Forall2_flip.
  induction Hps as [|q p qs ps (sample & o & Hs & Ho & ->) _ IH]; [constructor|].
  inversion_clear Hplay as [|? ? Hq Hqs]. constructor; [|by apply IH].
  rewrite Hs in Hq. cbn [throwing mbind result_bind] in Hq.
  destruct (Forall2_lookup_lr _ _ _ _ _ _ Hss Hs Ho) as [Hok _].
  split; cbn [resolved_pad_slot resolved_pad_sample resolved_playback].
  - by destruct q.
  - rewrite list_lookup_fmap, Ho. done.
  - by eexists.
Qed.

Lemma parsed_key_describe e : parsed_key (parse_sample e) = key e.
Proof. done. Qed.

(** The snapshot of parsed content with its Pads and events. *)
Definition rebuilt (c : ParsedContent) (ps : list Pad) (evs : list ResolvedEvent) : Snapshot :=
  let s := parsed_snapshot c in
  MkRuntimeSnapshot (snapshot_project_id s) (snapshot_pattern_id s) (project_revision s)
    (snapshot_bpm s) (snapshot_bars s) (ppq s) (loop_length_ticks s) ps evs.

Lemma file_of_rebuilt c ps evs total qs es ss :
  file_of (rebuilt c ps evs) total qs es ss = file_of (parsed_snapshot c) total qs es ss.
Proof. done. Qed.

Lemma size_start limits bytes id c es t last : parsed_file limits bytes id c es t last →
  size bytes = kHeaderBytes + (N.of_nat (length (parsed_pads c)) * kPadBytes +
                               N.of_nat (length es) * kEventBytes) +
               sum_of (λ q, 52 + parsed_bytes q) (parsed_samples c).
Proof.
  intros H. destruct (tables_typed _ _ _ _ _ _ _ (file_tables _ _ _ _ _ _ _ H)) as (_ & _ & Ts).
  rewrite (file_bytes _ _ _ _ _ _ _ H) at 1. by apply size_file; [apply H|].
Qed.

(** The encoder's sums over the table are the decoder's over the parsed samples. *)
Lemma table_sums limits ss os :
  Forall (entry_ok limits) (describe <$> os) → parse_sample <$> (describe <$> os) = ss →
  sum_of (bytes_of_sample ∘ encoded_pcm) (describe <$> os) = sum_of parsed_bytes ss ∧
  sum_of (λ e, 52 + bytes_of_sample (encoded_pcm e)) (describe <$> os) =
    sum_of (λ q, 52 + parsed_bytes q) ss.
Proof.
  intros Hok <-. rewrite !(sum_of_fmap parse_sample).
  split; apply sum_of_ext; (eapply Forall_impl; [exact Hok|]); intros e (_ & frames & He);
    unfold compose; by rewrite (parsed_bytes_of _ _ _ He).
Qed.

(** The Pads that are built parse back to the table of Pads. *)
Lemma plays_parse limits table ps qs : Forall2 (plays_entry limits table) ps qs →
  zip_with parse_pad ps (sample_index <$> qs) = qs ∧ length ps = length qs.
Proof.
  induction 1 as [|p q ps qs [Hq _ _] _ [IH1 IH2]]; [done|].
  rewrite fmap_cons. cbn [zip_with length]. split; [by rewrite Hq, IH1|by rewrite IH2].
Qed.

Lemma parsed_rebuilt limits bytes id c es t last : parsed_file limits bytes id c es t last →
  ∃ os ps evs, Forall2 owns (parsed_samples c) os ∧
    Forall2 (pad_of (parsed_samples c) os) (parsed_pads c) ps ∧ fields_of <$> evs = es ∧
    content_snapshot c = success (rebuilt c ps evs) ∧
    encode (rebuilt c ps evs) limits = success (MkEncodedContent id bytes).
Proof.
  intros H. pose proof (size_start _ _ _ _ _ _ _ H) as Hsize.
  destruct H as [-> Hs Hr Hbare Htab Hpads Hslots Hevents Hcount _ Hbytes [H64 Hmax]].
  destruct Htab as [(C1 & C2 & C3) (C4 & C5) (_ & Te & Ts) Hcp Hused Hce Hsound Hplay].
  destruct (check_pads_table _ _ _ _ Hcp) as [_ Hindex].
  destruct (owners_exist _ Ts) as [os Hos]. destruct (pads_exist _ _ _ Hos Hindex) as [ps Hps].
  pose proof (table_parses _ _ _ Ts Hsound Hos) as Htable.
  destruct (parse_table _ _ _ Htable) as [Hparse Hok].
  pose proof (pads_play _ _ _ _ _ Htable Hplay Hps) as Hplays.
  destruct (plays_parse _ _ _ _ Hplays) as [Hzip Hlen].
  destruct (table_sums _ _ _ Hok Hparse) as [Sum1 Sum2].
  assert (length (describe <$> os) = length (parsed_samples c)) as Hlt
    by (rewrite length_fmap; symmetry; by eapply Forall2_length).
  pose (start := kHeaderBytes + (N.of_nat (length (parsed_pads c)) * kPadBytes +
                                 N.of_nat (length es) * kEventBytes)).
  assert (NoDup (key <$> (describe <$> os))) as Hdist.
  { pose proof (sound_distinct _ _ Hsound) as Hd. rewrite <- Hparse, <- list_fmap_compose in Hd.
    exact Hd. }
  assert (Forall (λ e, e = describe (encoded_pcm e)) (describe <$> os)) as Hdesc
    by (apply Forall_fmap, Forall_forall; done).
  destruct (sound_total _ _ Hsound) as [Ht Ht64]. rewrite <- Sum1 in Ht, Ht64.
  fold start in Hsize. rewrite <- Sum2 in Hsize. pose proof Hcp as Hcp'. rewrite <- Hlt in Hcp'.
  destruct (loops_stored limits start (describe <$> os) Hdist Hdesc ltac:(lia) Ht64 Ht
    ltac:(by rewrite <- Hsize) ltac:(by rewrite <- Hsize) ps (parsed_pads c) [] _ _ _
    (agree_start start) ltac:(split; cbn; [done|done|lia]) Hplays Hcp')
    as (st & Hst & Ha & [Hss _ Hsb] & Hk). cbn [app pad_sample] in Ha, Hk.
  pose proof (agree_next _ _ _ Ha) as Hnext. rewrite Hused in Hnext.
  assert (samples st = describe <$> os) as Est
    by (rewrite Hss; apply take_ge; rewrite Hlt; lia).
  destruct (events_built ps (by_slot st) (slot_index t) _ es None last [] (agree_cells _ _ _ Ha) Hce)
    as (evs & Hres & Hfields & Hsame). rewrite <- Hfields in Hce.
  destruct (events_encoded ps (by_slot st) (slot_index t) _ evs None last (agree_cells _ _ _ Ha) Hce Hsame)
    as [final Hfinal].
  exists os, ps, evs. split_and!; [done..| |].
  - apply (content_snapshot_run c es os ps evs); [done..|]. by rewrite Hslots.
  - apply encode_success. exists st, final.
    assert (length evs = length es) as He by (by rewrite <- Hfields, length_fmap).
    assert (start_bytes (rebuilt c ps evs) = start) as Estart
      by (unfold start_bytes, start, rebuilt; cbn [pads resolved_events]; by rewrite Hlen, He).
    assert (encoded_bytes st = size bytes) as Ebytes by (rewrite Hsb, Est; by symmetry).
    assert (written (rebuilt c ps evs) st = bytes) as Ew.
    { rewrite (written_file limits), Ebytes, Est, Hparse, Hk.
      - cbn [rebuilt pads resolved_events]. rewrite Hzip, Hfields, file_of_rebuilt. by symmetry.
      - by rewrite Est.
      - rewrite Hk, length_fmap. by symmetry. }
    split; rewrite ?Estart, ?Ew, ?Ebytes; cbn [rebuilt pads resolved_events loop_length_ticks]; try done.
    + by destruct Hs.
    + rewrite Hlen, He. split_and!; [lia|done..].
    + lia.
Qed.

(** C20: Runtime content has one form. Whatever bytes the decoder accepts for an
    identity and limits, encoding the decoded snapshot under the same limits
    succeeds and returns exactly those bytes and that identity: no two files decode
    to the same snapshot, and the decoder admits nothing (no padding, no order, no
    duplicated or unused sample, no reserved bit) that the encoder would not
    write. *)
Theorem content_canonical limits bytes id s :
  decode_runtime_content bytes id limits = success s →
  encode_runtime_content s limits = success (MkEncodedContent id bytes).
Proof.
  intros (c & (es & t & last & Hf)%parse_content_inv & Hs)%guarded_success%result_bind_success.
  apply guarded_success. destruct (parsed_rebuilt _ _ _ _ _ _ _ Hf) as (os & ps & evs & _ & _ & _ & Hc & He).
  rewrite Hc in Hs. by apply success_inj in Hs as <-.
Qed.
End roundtrip.

(** ** Witnesses: three Pads, two of which share a sample, and two events *)

Definition example_left : PcmSample := MkPcmSample 48000 1 [1; -2; 3; -32768]%Z.
Definition example_right : PcmSample := MkPcmSample 48000 2 [5; 6]%Z.

(** Plays the first frame at gain 1. *)
Definition example_resolved (end_ : N) : ResolvedPlayback (float := N) :=
  MkResolvedPlayback 0 end_ TriggerMode.gate 0x3f800000 false neutral_dsp.

Definition example_content_pad (p : N) (sample : PcmSample) : ResolvedPad (float := N) :=
  MkResolvedPad (MkPadSlotId 0 p) (MkArtifactRef "" "audio/wav" 0) sample (example_resolved 1).

Definition example_snapshot : RuntimeSnapshot (float := N) :=
  MkRuntimeSnapshot (MkId "00000000-0000-4000-8000-000000000001")
    (MkId "00000000-0000-4000-8000-000000000002") 7 120 1 960 3840
    [example_content_pad 0 example_left; example_content_pad 3 example_right;
     example_content_pad 5 example_left]
    [MkResolvedEvent (MkPadSlotId 0 3) 0 480 127 example_right;
     MkResolvedEvent (MkPadSlotId 0 5) 960 2880 1 example_left].

Definition example_content_limits : RuntimeContentLimits := MkContentLimits 1000 100 10 4 8.

Definition example_encoded : EncodedRuntimeContent :=
  Eval vm_compute in
  match encode_runtime_content (JL := dom_lib) (HL := sha_lib) example_snapshot example_content_limits with
  | success e => e
  | _ => MkEncodedContent (MkContentIdentity "" 0) []
  end.

Definition succeeded {A} (r : Result (H := dom_lib) A) : option A :=
  match r with success a => Some a | _ => None end.

Lemma succeeded_success {A} (r : Result (H := dom_lib) A) a : succeeded r = Some a → r = success a.
Proof. destruct r; cbn; congruence. Qed.

Lemma example_encodes :
  encode_runtime_content (JL := dom_lib) (HL := sha_lib) example_snapshot example_content_limits =
  success example_encoded.
Proof. apply succeeded_success. vm_compute. reflexivity. Qed.

Lemma example_content_typed : content_typed example_snapshot.
Proof. split; [done|]. repeat constructor; done. Qed.

Lemma example_no_collision : no_collision (HL := sha_lib) example_snapshot.
Proof.
  intros p q Hp Hq. unfold example_snapshot in Hp, Hq. cbn [pads] in Hp, Hq.
  rewrite !elem_of_cons in Hp, Hq.
  assert (resolved_pad_sample p = example_left ∨ resolved_pad_sample p = example_right) as Ep
    by (destruct Hp as [-> | [-> | [-> | Hp%elem_of_nil]]]; [by left|by right|by left|done]).
  assert (resolved_pad_sample q = example_left ∨ resolved_pad_sample q = example_right) as Eq
    by (destruct Hq as [-> | [-> | [-> | Hq%elem_of_nil]]]; [by left|by right|by left|done]).
  destruct Ep as [-> | ->], Eq as [-> | ->]; intros H; [reflexivity|exfalso..|reflexivity];
    revert H; vm_compute; discriminate.
Qed.

Lemma content_roundtrip_witness :
  encode_runtime_content (JL := dom_lib) (HL := sha_lib) example_snapshot example_content_limits =
    success example_encoded ∧
  decode_runtime_content (JL := dom_lib) (HL := sha_lib) (content_bytes example_encoded)
    (content_identity example_encoded) example_content_limits =
  success (portable (HL := sha_lib) example_snapshot).
Proof.
  split; [exact example_encodes|].
  exact (content_roundtrip (JL := dom_lib) (HW := sha_laws) example_content_limits example_snapshot
    example_encoded example_content_typed example_no_collision example_encodes).
Defined.

Lemma example_decodes :
  decode_runtime_content (JL := dom_lib) (HL := sha_lib) (content_bytes example_encoded)
    (content_identity example_encoded) example_content_limits =
  success (portable (HL := sha_lib) example_snapshot).
Proof. apply succeeded_success. vm_compute. reflexivity. Qed.

Lemma content_canonical_witness :
  encode_runtime_content (JL := dom_lib) (HL := sha_lib) (portable (HL := sha_lib) example_snapshot)
    example_content_limits = success example_encoded.
Proof.
  exact (content_canonical (JL := dom_lib) (HW := sha_laws) example_content_limits
    (content_bytes example_encoded) (content_identity example_encoded) _ example_decodes).
Defined.
