(* ===== verification/ContentInspection.v ===== *)
(** The inspection of runtime content agrees with its decoding.

    On every input the decoder and the inspector give the same verdict and the same
    error, an error is never an internal one, and a footprint measures the snapshot
    that decoding would build. *)

From S2P Require Import Prelude Json Foundation Text Project Playback Wav WavLaws Cooker Sha256 RuntimeContent ContentTables ContentLoops ContentLaws ContentRoundtrip.

Section inspection.
Context `{JL : JsonLib} `{HW : HashLaws}.
Abbreviation Playback := (ResolvedPlayback (float := N)).
Abbreviation Pad := (ResolvedPad (float := N)).
Abbreviation Snapshot := (RuntimeSnapshot (float := N)).

(** ** Refusals *)

(** A result that is right or a refusal of the input. *)
Definition refuses {A} (Q : A → Prop) (r : Result A) : Prop :=
  match r with success a => Q a | failure e => code e = invalid_argument | thrown => False end.

(** The same of a reader, on any bytes. *)
Definition reads {A} (Q : A → Prop) (m : Reader A) : Prop :=
  ∀ bytes, refuses (λ r, Q r.1) (m bytes).

Lemma refuses_bind {A B} (P : A → Prop) (Q : B → Prop) (r : Result A) (f : A → Result B) :
  refuses P r → (∀ a, P a → refuses Q (f a)) → refuses Q (r ≫= f).
Proof. destruct r; cbn; auto. Qed.

Lemma refuses_weaken {A} (P Q : A → Prop) (r : Result A) :
  refuses P r → (∀ a, P a → Q a) → refuses Q r.
Proof. destruct r; cbn; auto. Qed.

Lemma refuses_require b c w : refuses (λ _, b = true) (require b c w).
Proof. by destruct b. Qed.

Lemma refuses_add l r : refuses (λ _, True) (add l r).
Proof. unfold add, require. by destruct (_ <=? _). Qed.

Lemma refuses_multiply l r : refuses (λ _, True) (multiply l r).
Proof. unfold multiply, require. by destruct (_ || _). Qed.

Lemma refuses_throwing {A} (o : option A) : is_Some o → refuses (λ a, o = Some a) (throwing o).
Proof. by intros [a ->]. Qed.

Lemma refuses_slot s : refuses (λ n, n < 64) (slot_number s).
Proof.
  unfold slot_number, require. destruct (is_valid_slot s) eqn:E; [|done]. cbn.
  unfold is_valid_slot in E. bool_to_prop. lia.
Qed.

Lemma refuses_event e loop : refuses (λ _, True) (validate_event e loop).
Proof.
  unfold validate_event. eapply refuses_bind; [apply refuses_slot|]. intros _ _.
  unfold require. by destruct (_ && _).
Qed.

Lemma refuses_pattern s : refuses (λ _, True) (validate_pattern s).
Proof.
  unfold validate_pattern. eapply refuses_bind; [apply refuses_require|]. intros _ _.
  eapply refuses_weaken; [apply refuses_require|done].
Qed.

Lemma refuses_playback p frames : refuses (λ _, True) (validate_playback p frames).
Proof.
  unfold validate_playback. eapply refuses_bind; [apply refuses_require|]. intros _ _.
  eapply refuses_weaken; [apply refuses_require|done].
Qed.

Lemma refuses_mode m : refuses (λ _, True) (read_mode m).
Proof.
  unfold read_mode. eapply refuses_bind; [apply refuses_require|]. intros _ H%N.ltb_lt.
  eapply refuses_weaken; [apply refuses_throwing|done]. apply lookup_lt_is_Some. lia.
Qed.

(** What a success is known to be. *)
Lemma refuses_known {A} (Q : A → Prop) (r : Result A) :
  refuses Q r → refuses (λ a, Q a ∧ r = success a) r.
Proof. by destruct r. Qed.

Lemma refuses_plays (ss : list ParsedSample) qs :
  Forall (λ q, is_Some (ss !! N.to_nat (sample_index q))) qs →
  refuses (λ _, True) (fold_result (λ _ p, sample ← throwing (ss !! N.to_nat (sample_index p));
    validate_playback (parsed_playback p) (parsed_frames sample)) () qs).
Proof.
  induction 1 as [|q qs Hq _ IH]; cbn [fold_result]; [done|].
  eapply refuses_bind; [|intros [] _; exact IH]. eapply refuses_bind; [by apply refuses_throwing|].
  intros sample _. apply refuses_playback.
Qed.

(** ** Readers *)

Lemma reads_bind {A B} (P : A → Prop) (Q : B → Prop) (m : Reader A) (f : A → Reader B) :
  reads P m → (∀ a, P a → reads Q (f a)) → reads Q (m ≫= f).
Proof.
  intros Hm Hf bytes. rewrite reader_bind_eq. eapply refuses_bind; [apply Hm|].
  intros [a rest] Ha. by apply Hf.
Qed.

Lemma reads_lift {A} (Q : A → Prop) (r : Result A) : refuses Q r → reads Q (lift r).
Proof. intros H bytes. unfold lift. eapply refuses_bind; [exact H|]. done. Qed.

Lemma reads_take n : reads (λ _, True) (take_bytes n).
Proof. intros bytes. unfold take_bytes, require. by destruct (_ <=? _). Qed.

Lemma reads_integer w : reads (λ _, True) (integer w).
Proof. unfold integer. eapply reads_bind; [apply reads_take|]. done. Qed.

Lemma reads_text n : reads (λ _, True) (text n).
Proof. unfold text. eapply reads_bind; [apply reads_take|]. done. Qed.

Lemma reads_loop {S} (P : S → Prop) n pass s : (∀ s, P s → reads P (pass s)) → P s →
  reads P (read_loop n pass s).
Proof.
  intros Hp. revert s. induction n as [|n IH]; intros s Hs; cbn [read_loop]; [by intros bytes|].
  eapply reads_bind; [by apply Hp|]. exact IH.
Qed.
End inspection.

(** One read of the goal: what is known of it is introduced. *)
Ltac read_one :=
  eapply reads_bind;
  [ first [ apply reads_integer | apply reads_text | apply reads_take
          | apply reads_lift; first [ apply refuses_require | apply refuses_add
              | apply refuses_multiply | apply refuses_slot | apply refuses_event
              | apply refuses_pattern | apply refuses_mode ] ]
  | cbv beta; intros ? ? ].

Section agreement.
Context `{JL : JsonLib} `{HW : HashLaws}.
Abbreviation Pad := (ResolvedPad (float := N)).
Abbreviation Snapshot := (RuntimeSnapshot (float := N)).

(** ** The decoder refuses *)

Lemma reads_header bytes : reads (λ _, True) (decode_header bytes).
Proof. unfold decode_header. repeat read_one. by apply reads_lift. Qed.

Definition pad_table_ok (t : PadTable) : Prop :=
  length (slot_index t) = 64%nat ∧ length (used_samples t) = 64%nat.

Lemma reads_use k used next : k < 64 → length used = 64%nat →
  refuses (λ u, length u.1 = 64%nat) (use_sample k used next).
Proof.
  intros Hk Hu. unfold use_sample.
  eapply refuses_bind; [apply refuses_throwing, lookup_lt_is_Some; lia|]. intros [] _; [done|].
  eapply refuses_bind; [apply refuses_require|]. intros _ _. cbn. by rewrite length_insert.
Qed.

Lemma reads_pad count t : count ≤ 64 → pad_table_ok t → reads pad_table_ok (decode_pad count t).
Proof.
  intros Hc [Hs Hu]. unfold decode_pad. do 10 read_one.
  eapply reads_bind; [apply reads_lift, reads_use; [bool_to_prop; lia|done]|]. intros use Huse.
  do 3 read_one. apply reads_lift. split; cbn; [by rewrite length_insert|done].
Qed.

Lemma reads_event loop index previous : length index = 64%nat →
  reads (λ _, True) (decode_event loop index previous).
Proof.
  intros Hi. unfold decode_event. do 10 read_one.
  eapply reads_bind; [apply reads_lift, refuses_throwing, lookup_lt_is_Some; lia|]. intros ? ?.
  read_one. by apply reads_lift.
Qed.

Lemma reads_body : reads (λ _, True) read_body.
Proof. unfold read_body. repeat read_one. by apply reads_lift. Qed.

Lemma reads_sample limits t : reads (λ _, True) (decode_sample limits t).
Proof.
  unfold decode_sample. do 3 read_one.
  eapply reads_bind; [apply reads_lift; eapply refuses_weaken; [apply reads_body|done]|].
  intros [[[rate channels] frames] left] _. do 10 read_one.
  eapply reads_bind; [apply reads_lift, reads_take|]. intros [pcm rest] _. by apply reads_lift.
Qed.

Lemma parse_content_refuses bytes id limits : refuses (λ _, True) (parse_content bytes id limits).
Proof.
  unfold parse_content.
  do 3 (eapply refuses_bind; [apply refuses_require|]; intros _ _).
  eapply refuses_bind; [apply reads_header|]. intros [s i] _.
  eapply refuses_bind; [apply reads_integer|]. intros [np i1] _.
  eapply refuses_bind; [apply reads_integer|]. intros [ne i2] _.
  eapply refuses_bind; [apply reads_integer|]. intros [ns i3] _.
  eapply (refuses_bind (λ _, ns ≤ 64)).
  { unfold validate_counts. eapply refuses_bind; [apply refuses_require|]. intros ? H. cbv beta in H.
    eapply refuses_bind; [apply refuses_require|]. intros _ _.
    eapply refuses_weaken; [apply refuses_require|]. intros _ _. bool_to_prop. lia. }
  intros _ Hns. eapply refuses_bind; [apply refuses_multiply|]. intros pb _.
  eapply refuses_bind; [apply reads_take|]. intros [pi i4] _.
  eapply refuses_bind; [apply refuses_multiply|]. intros eb _.
  eapply refuses_bind; [apply reads_take|]. intros [ei i5] _.
  eapply refuses_bind.
  { apply refuses_known, (reads_loop pad_table_ok); [intros; by apply reads_pad|done]. }
  intros [t rest] [[Hi Hu] Ht].
  apply (read_loop_inv _ pad_typed parsed_pad_bytes (check_pad ns)) in Ht
    as (qs & Hnp & Tq & Hpi & Ht); [|apply decode_pad_inv].
  apply check_pads_table in Ht as [Hqs Hindex]. cbn in Hi, Hqs.
  eapply refuses_bind; [apply refuses_require|]. intros _ _.
  eapply refuses_bind; [apply (reads_loop (λ _, True)); [intros; by apply reads_event|done]|]. intros ? ?.
  eapply refuses_bind.
  { apply refuses_known, (reads_loop (λ _, True)); [intros; apply reads_sample|done]. }
  intros [q i6] [_ Hq].
  apply (read_loop_inv _ sample_typed parsed_sample_bytes (check_sample limits)) in Hq
    as (ss & Hss & Ts & Hi5 & Hq); [|apply decode_sample_inv].
  apply (samples_checked limits ss q []) in Hq as [-> _]; [|split; cbn; try constructor; lia].
  cbn [app table_samples]. rewrite Hqs.
  eapply refuses_bind; [apply refuses_require|]. intros _ _.
  eapply refuses_bind; [|done]. apply refuses_plays. eapply Forall_impl; [exact Hindex|].
  intros p Hp. apply lookup_lt_is_Some. cbv beta in Hp. lia.
Qed.

(** ** The footprint *)

Definition pad_frames (p : Pad) : N :=
  sample_size (resolved_pad_sample p) / channels (resolved_pad_sample p).

Definition max_of {A} (f : A → N) (l : list A) : N := foldr (λ a m, N.max (f a) m) 0 l.

(** A footprint measures a snapshot and its file. *)
Record measures (bytes : list ascii) (limits : RuntimeContentLimits) (s : Snapshot)
    (f : RuntimeContentFootprint) : Prop := {
  measured_bytes : footprint_encoded_bytes f = size bytes;
  measured_pcm : footprint_pcm_bytes f ≤ maximum_pcm_bytes limits;
  measured_floats : prepared_float_bytes f = sum_of (λ p, 4 * pad_frames p) (pads s);
  measured_largest : largest_float_sample_bytes f = max_of (λ p, 4 * pad_frames p) (pads s);
  measured_pads : footprint_pads f = N.of_nat (length (pads s));
  measured_events : footprint_events f = N.of_nat (length (resolved_events s));
  measured_samples : footprint_samples f ≤ footprint_pads f
}.

(** The loop of the inspector over Pads whose samples have [frames]. *)
Lemma footprint_run (ss : list ParsedSample) qs (frames : list N) f :
  Forall2 (λ q n, n < 2 ^ 32 ∧ parsed_frames <$> ss !! N.to_nat (sample_index q) = Some n) qs frames →
  prepared_float_bytes f + 2 ^ 34 * N.of_nat (length qs) < 2 ^ 64 →
  fold_result (λ f p,
      sample ← throwing (ss !! N.to_nat (sample_index p));
      float_bytes ← multiply (parsed_frames sample) 4;
      total ← add (prepared_float_bytes f) float_bytes;
      success (MkContentFootprint (footprint_encoded_bytes f) (footprint_pcm_bytes f) total
                 (N.max (largest_float_sample_bytes f) float_bytes) (footprint_pads f)
                 (footprint_events f) (footprint_samples f))) f qs =
  success (MkContentFootprint (footprint_encoded_bytes f) (footprint_pcm_bytes f)
             (prepared_float_bytes f + sum_of (λ n, 4 * n) frames)
             (N.max (largest_float_sample_bytes f) (max_of (λ n, 4 * n) frames))
             (footprint_pads f) (footprint_events f) (footprint_samples f)).
Proof.
  intros H. revert f. induction H as [|q n qs frames [Hn Hq] _ IH]; intros f Hf; cbn [fold_result].
  { destruct f. cbn. do 2 f_equal; lia. }
  destruct (ss !! N.to_nat (sample_index q)) as [sample|]; [|done]. injection Hq as Hq.
  cbn [throwing mbind result_bind length] in *. rewrite Hq.
  rewrite multiply_small by u_lia. cbn [mbind result_bind].
  rewrite add_small by (change (2 ^ 34) with 17179869184 in *; u_lia). cbn [mbind result_bind].
  rewrite IH by (cbn [prepared_float_bytes]; change (2 ^ 34) with 17179869184 in *; u_lia).
  cbn [footprint_encoded_bytes footprint_pcm_bytes prepared_float_bytes largest_float_sample_bytes
    footprint_pads footprint_events footprint_samples].
  unfold sum_of, max_of. cbn [foldr]. do 2 f_equal; lia.
Qed.

Lemma max_of_fmap {A B} (g : A → B) (f : B → N) l : max_of f (g <$> l) = max_of (λ a, f (g a)) l.
Proof. induction l as [|a l IH]; [done|]. unfold max_of in *. cbn. by rewrite IH. Qed.

(** The Pads that are built have the frames of their parsed samples. *)
Lemma built_frames limits ss os qs ps : Forall sample_typed ss → samples_sound limits ss →
  Forall2 owns ss os → Forall2 (pad_of ss os) qs ps →
  Forall2 (λ q n, n < 2 ^ 32 ∧ parsed_frames <$> ss !! N.to_nat (sample_index q) = Some n)
    qs (pad_frames <$> ps).
Proof.
  intros Ts Hs Hos Hps. apply Forall2_fmap_r. eapply Forall2_impl; [exact Hps|].
  intros q p (sample & o & Hsample & Ho & ->).
  destruct (Forall2_lookup_lr _ _ _ _ _ _ (table_parses _ _ _ Ts Hs Hos) Hsample Ho) as [Hok _].
  unfold pad_frames, compose. cbn [resolved_pad_sample]. rewrite (sample_ok_frames _ _ _ Hok), Hsample.
  split; [by apply (ok_frames _ _ _ Hok)|done].
Qed.

Lemma parsed_footprint limits bytes id c es t last os ps evs :
  parsed_file limits bytes id c es t last → Forall2 owns (parsed_samples c) os →
  Forall2 (pad_of (parsed_samples c) os) (parsed_pads c) ps → fields_of <$> evs = es →
  ∃ f, content_footprint bytes c = success f ∧ measures bytes limits (rebuilt c ps evs) f.
Proof.
  intros [_ _ _ _ Htab _ _ _ Hcount Hpcm _ _] Hos Hps Hevs.
  destruct Htab as [(C1 & C2 & _) _ (_ & _ & Ts) _ _ _ Hsound _].
  pose proof (Forall2_length _ _ _ Hps) as Hlen.
  eexists. split.
  - unfold content_footprint.
    rewrite (footprint_run (parsed_samples c) (parsed_pads c) (pad_frames <$> ps)); [reflexivity| |].
    + by eapply built_frames.
    + cbn [prepared_float_bytes]. change (2 ^ 34) with 17179869184. u_lia.
  - split; cbn [footprint_encoded_bytes footprint_pcm_bytes prepared_float_bytes
      largest_float_sample_bytes footprint_pads footprint_events footprint_samples rebuilt pads
      resolved_events]; rewrite ?Hpcm, ?Hcount, <- ?Hevs, ?length_fmap, ?Hlen; try done.
    + apply (sound_total _ _ Hsound).
    + rewrite N.add_0_l. apply sum_of_fmap.
    + rewrite N.max_0_l. apply max_of_fmap.
    + lia.
Qed.

(** C34: The inspector of runtime content and its decoder agree on every input. For
    any bytes, identity and limits, either both succeed, and the footprint measures
    the decoded snapshot (its Pads and events, the bytes of floats its Pads need and
    the largest of them, within the limit on PCM), or both refuse with the same
    error, which is an invalid argument: never an internal error, a read out of
    range or a failed construction. *)
Theorem content_inspected limits bytes id :
  match decode_runtime_content bytes id limits, inspect_runtime_content bytes id limits with
  | success s, success f => measures bytes limits s f
  | failure e, failure e' => e = e' ∧ code e = invalid_argument
  | _, _ => False
  end.
Proof.
  unfold decode_runtime_content, inspect_runtime_content.
  pose proof (parse_content_refuses bytes id limits) as H.
  destruct (parse_content bytes id limits) as [c|e|] eqn:E; [|by split|done].
  apply parse_content_inv in E as (es & t & last & Hf). cbn [mbind result_bind].
  destruct (parsed_rebuilt _ _ _ _ _ _ _ Hf) as (os & ps & evs & Hos & Hps & Hevs & -> & _).
  destruct (parsed_footprint _ _ _ _ _ _ _ _ _ _ Hf Hos Hps Hevs) as (f & -> & Hm). exact Hm.
Qed.
End agreement.

Lemma content_inspected_witness :
  ∃ f, inspect_runtime_content (JL := dom_lib) (HL := sha_lib) (content_bytes example_encoded)
         (content_identity example_encoded) example_content_limits = success f ∧
    measures (content_bytes example_encoded) example_content_limits
      (portable (HL := sha_lib) example_snapshot) f.
Proof.
  pose proof (content_inspected (JL := dom_lib) (HW := sha_laws) example_content_limits
    (content_bytes example_encoded) (content_identity example_encoded)) as H.
  rewrite example_decodes in H.
  destruct (inspect_runtime_content _ _ _) as [f|e|]; [by exists f|destruct H..].
Defined.
